(* ===== verification/_CoqProject ===== *)
-Q . S2P
Prelude.v
GoStrings.v
Sha2.v
Errors.v
Ecf.v
Hash.v
PeerID.v
Entity.v
Wire.v
Paths.v
CapTypes.v
Patterns.v
Check.v
Delegation.v
Chain.v
Requests.v
Revoked.v
Store.v
Notifying.v
Dispatch.v
Trie.v
TrieSpec.v
TrieCanon.v
TrieMap.v
TrieRemove.v
TrieDiff.v
TrieSample.v
Handlers.v
SubDispatch.v
TreeIndex.v
TreeHandler.v
TreeListing.v
RootTracker.v
RootSync.v
RootSample.v
TreeOps.v
TreeMerge.v
TreeExtract.v
TreeSample.v
RevDag.v
RevMerge.v
RevThreeWay.v
RevSettle.v
RevPerform.v
RevConverge.v
RevSample.v
ComputeValues.v
ComputeEval.v
ComputeSound.v
ComputeScope.v
ComputeHandler.v
ComputeSample.v
Session.v
Connect.v
Handshake.v
ConnectGrants.v
Reentry.v
ConnectSample.v
Chunker.v
Content.v
ContentSpec.v
ContentSync.v
ContentSample.v
CapHandler.v
CapMint.v
CapSample.v
TypeDefs.v
TypeConstraint.v
TypeValidate.v
TypeSpec.v
TypeMerge.v
TypeMergeSpec.v
TypeSample.v
Attestation.v
AttestSpec.v
Quorum.v
QuorumSpec.v
QuorumSample.v
