(* ===== verification/Prelude.v ===== *)
(** * A verification library for entity-core-go

    entity-core-go implements a peer-to-peer protocol on content-addressed
    entities.  A peer receives envelopes over a framed wire, authenticates the
    request they carry, checks the capability it presents against a chain of
    delegations that ends in a token the peer itself issued, resolves a handler
    in its tree of paths, and hands the request over; handlers read and write a
    content store (hash to entity) and a location index (path to hash), whose
    writes cascade through synchronous hooks and an event queue.

    This library models the core of that program in executable definitions and
    proves the properties that make it correct.  A Go function that returns an
    error is a function into [res]; stores and queues are passed explicitly;
    machine integers are [Z] with their conversions written out; a Go string is
    a [string] of bytes; a Go map is a [gmap].

    ** Files and the code they model

    - [Prelude]: results, bytes, 64-bit conversions, list lemmas, tactics.
    - [GoStrings], [Sha2]: what the code uses of [strings], [encoding/hex],
      [crypto/sha256] and [crypto/sha512].
    - [Errors]: [core/errors], sentinels and [errors.Is].
    - [Ecf]: [core/ecf/forbid_tags.go].
    - [Hash]: [core/hash/hash.go].
    - [PeerID]: [core/crypto/peerid.go] and [Verify] of [keypair.go].
    - [Entity]: [core/entity]; Modules [Ent], [Env], [URI] are [entity.go],
      [envelope.go], [uri.go].
    - [Wire]: [core/wire], frames and envelopes over a byte stream.
    - [Paths]: the path functions of [core/store/store.go].
    - [CapTypes]: the payloads of [core/types] the core reads.
    - [Patterns], [Check]: [core/capability/check.go] and [expiry.go].
    - [Delegation]: attenuation and caveats of [delegation.go].
    - [Chain]: the chain walk of [authority.go] and [VerifyChain] of
      [delegation.go].
    - [Requests]: [VerifyRequest] of [core/protocol/auth.go]; creator authority,
      chain bundles, handler grants and minting of [core/capability].
    - [Revoked]: [revoked.go], [index.go], [storage_path.go].
    - [Store]: the store interfaces, [memory.go], [namespaced.go] and
      [notifying_content.go] of [core/store].
    - [Notifying]: [notifying.go], [cascade.go], [cascade_tracker.go].
    - [Dispatch]: [core/protocol/execute.go] from [DispatchEnvelope] to the
      handler's context, with [envelope_ingest.go], [resolveAuthoredGrant] and
      [normalizeResourceTargets].
    - [Trie]: the persistent trie of [core/tree] ([trie.go], [trie_node.go],
      [trie_incremental.go], [trie_diff.go]); [TrieSpec] holds its bitmaps, slots and
      buckets as sorted lists, [TrieCanon] the reference tree of a list of
      bindings, [TrieMap] and [TrieRemove] the updates against it, [TrieDiff]
      the difference, [TrieSample] a concrete codec and concrete tries.
    - [Handlers]: [core/handler], the registry and what a handler is given.
    - [SubDispatch]: [local.go] and [outbound_authz.go] of [core/protocol], the
      requests a handler makes, with the bounds of [dispatch.go].
    - [TreeIndex]: the index as the tree handler sees it; the namespaced and
      the notifying index as its instances.
    - [TreeHandler], [TreeListing]: [core/tree/handler.go], get and put, and
      what a listing shows.
    - [RootTracker], [RootSync], [RootSample]: [root_tracker.go] and
      [trie_update.go], the hook that keeps the root of every tracked prefix.
    - [TreeOps], [TreeMerge], [TreeExtract]: [core/tree/operations.go].
    - [TreeSample]: a peer with concrete parameters.
    - [RevDag]: the traversals of the version graph, [ext/revision/dag.go].
    - [RevMerge]: [trie_merge.go], [strategy.go], the resolution half of
      [deletion_markers.go] and the patterns of [snapshot.go]; [RevThreeWay] is
      what the merge of three tries binds, [RevSettle] how a diverged path is
      settled without another handler.
    - [RevPerform]: the merge operation of [ext/revision/merge.go], with the
      writes of [cascade_warnings.go]; [RevConverge] is two peers that merge the
      same heads, [RevSample] concrete histories and merges.
    - [ComputeValues], [ComputeEval]: the expressions of [ext/compute]: values,
      arithmetic and comparison; the evaluator with its trampoline, scopes,
      closures, builtins and handler applies ([eval.go], [eval_arith.go],
      [eval_construct.go], [eval_apply.go], [scope.go], [builtins.go],
      [builtins_v324.go], [errors.go]).  [ComputeSound] proves what every
      evaluation keeps, [ComputeScope] is about captured scopes and the builtins
      that alias expressions, [ComputeHandler] is the evaluation on request of
      [handler.go] and [budget.go], [ComputeSample] a codec and expressions.
    - [Session]: [session.go], [peer_status.go] and [connection_state.go] of
      [core/protocol], the records of a peer about another one.
    - [Connect]: [core/protocol/connect.go], the handshake of both ends and the
      grants of a connection; [Handshake] is a connection over its frames, with
      [dispatchToHandler] of [execute.go]; [ConnectGrants] the grants and the
      capability that carries them; [Reentry] is [reentry_grant.go];
      [ConnectSample] two codecs and connections that run.
    - [Chunker]: [ext/content/chunker], fixed and content-defined chunks with
      the reference cut; [Content] the blobs, the handler and the descriptors of
      [ext/content] ([builder.go], [handler.go], [descriptor.go]) with
      [core/types/content.go], [ContentSpec] what they do; [ContentSync] is
      [sequencer.go], the fetch of a blob and its chunks from another peer;
      [ContentSample] runs them.
    - [CapHandler]: [ext/capability/handler.go], request, delegate, revoke and
      configure; [CapMint] what they mint and revoke, [CapSample] runs.
    - [TypeDefs], [TypeConstraint], [TypeValidate]: the type definitions of
      [core/types], the standard constraints of [ext/type/constraint], and
      [validate.go], [structural.go], [narrowing.go] of [ext/type]; [TypeSpec]
      what validation and narrowing mean.  [TypeMerge] is [analysis.go],
      [converge.go], [reconcile.go], [adopt.go]; [TypeMergeSpec] what a merge of
      types accepts; [TypeSample] concrete types.
    - [Attestation]: [ext/attestation], its index, signatures, liveness, chains
      and handler; [AttestSpec] what is live and which head is found.
    - [Quorum]: [ext/quorum], signer sets and K-of-N verification; [QuorumSpec]
      their properties, [QuorumSample] a quorum and its attestations.

    ** What the theorems show

    - Authorization, end to end: what reaches a handler is authenticated, not
      revoked, and permitted by every link of a chain to a local root
      ([Dispatch.dispatched_request_authorized]), and the resource the handler
      acts on is the one that was checked ([handler_resource_authorized]).
    - Chains: an accepted chain is what it should be, for every map iteration
      order ([Chain.VerifyChain_sound]); attenuation never grows authority
      ([Delegation.IsAttenuated_sound], [attenuation_chain_sound]); collected
      bundles and minted tokens verify at the receiver ([Requests]).
    - Checks: the dispatch check and the path check are characterised and agree
      ([Check]); patterns match by coverage, and overlap is complete where the
      code relies on it, with the exceptions stated ([Patterns]).
    - Revocation: exactly when a capability counts as revoked, and the effect
      of a marker ([Revoked]).
    - Connections: a completed handshake stands for a signature over the hash
      that the authenticate request carries, under the key of the connection's
      peer id, after the nonce of its hello was echoed
      ([Handshake.handshake_proves_possession]); an honest handshake completes
      with both ends on one hash format ([honest_handshake_completes]); its
      grants stay within what the peer advertises, and a peer that comes back
      gets the same capability ([ConnectGrants]); the two sides of a session keep
      each other's capability ([Session]); a reciprocal grant is accepted from
      the authenticated peer alone, and the one that is built is ([Reentry]).
    - Resolution: the gate of an open handshake and the longest prefix walk
      ([Dispatch]).
    - Expressions: an evaluation reads only what its capability permits and
      returns within its budget ([ComputeSound.Evaluate_authorized],
      [Evaluate_returns]), errors surface as values and as answers, never as
      faults ([Evaluate_no_hidden_error], [ComputeHandler.eval_error_is_answer]),
      aliases cost and mean what the expressions do and a captured scope loads
      back ([ComputeScope]), and the budget of a request is the least of its
      limits ([ComputeHandler.initBudget_least]).
    - Stores: content is filed under its hash, the namespaced and notifying
      layers refine the store they wrap ([Store]); cascades terminate, report
      what happened, and the event log replays to the bindings ([Notifying]).
    - Sub-dispatch: what a handler requests of another handler or peer is
      permitted by its own authority and never by its caller's, and a causal
      chain ends ([SubDispatch]).
    - Tries: put, remove and diff refine operations on the finite map of the
      bindings, and a trie depends on its bindings alone, so peers that hold the
      same bindings have the same root ([TrieMap], [TrieRemove], [TrieDiff]).
    - Tree: what a put does on every outcome, what a listing shows, what a merge
      writes under each strategy whatever the order it visits the bindings, that
      an extract carries what the caller may read and nothing else, and that
      another peer that merges it gets exactly those bindings ([TreeHandler],
      [TreeListing], [TreeMerge], [TreeExtract]).
    - Root tracking: after every write the tracked root is the root of the trie
      of the bindings below the prefix, and is what a rebuild gives ([RootSync]).
    - Revisions: the relation of two heads and their common ancestor are decided
      by reachability in the version graph ([RevDag]); the merge of three tries
      binds what a three-way merge of their bindings should, and equals the flat
      merge where deletions are marked ([RevThreeWay]); peers that merge each
      other's heads over the same base create the same version ([RevConverge]).
    - Capability handler: a requested token stays within the caller's capability
      and policy and expires at the least bound, a delegated one within its
      parent, and a revocation that is answered with success is in force
      ([CapMint]).
    - Content: content-defined chunking returns, tiles its input and cuts what
      the reference does, and edits stay local ([Chunker]); what is ingested
      reassembles, and a get answers exactly, within the frame budget
      ([ContentSpec]); the fetch of a closure always ends, and a file that one
      peer ingested arrives at another ([ContentSync]).
    - Types: an entity is answered to be valid exactly when it is of its type,
      and a type that passes the narrowing check accepts no more than the types
      it extends ([TypeSpec]); merged types accept what their sources agree on
      ([TypeMergeSpec]).
    - Attestations and quorums: the index refines a map, liveness is
      characterised on every acyclic graph, a live head is found when there is
      one ([AttestSpec]), and K-of-N verification counts distinct signers
      ([QuorumSpec]).
    - Data: content hashes, peer ids, URIs, frames and envelopes round trip and
      bind what they name; the CBOR scan terminates and accepts exactly the
      tag-free items ([Hash], [PeerID], [Entity], [Wire], [Ecf], [Paths]).
    - Theorems on concrete inputs record where the code does not do what its
      comments say, for instance [Dispatch.excluded_target_reaches_handler],
      [Dispatch.forged_signature_blocks_genuine],
      [Notifying.nested_write_events_reordered],
      [Delegation.pattern_target_escapes_attenuation],
      [TreeSample.since_extract_discloses],
      [RootSample.deferred_events_reorder],
      [RevSample.common_ancestor_asymmetric],
      [ComputeSample.name_of_self_diverges],
      [ConnectSample.forged_authenticate_completes],
      [CapSample.request_escapes_namespace],
      [TypeSample.inherited_constraint_ignored] and
      [QuorumSample.unsigned_update_takes_over].

    ** Interfaces and parameters

    Code outside the repository is a parameter, a class whose laws are what the
    repository relies on: [Hash.HashableCodec], [CapTypes.DataCodec],
    [Wire.EnvelopeCodec], [Dispatch.HandlerCodec], [Trie.NodeCodec],
    [TreeHandler.TreeCodec], [RevMerge.RevisionCodec], [ComputeEval.ComputeCodec]
    (laws [ComputeSound.ComputeCodecLaws], [ComputeScope.ScopeCodecLaws]),
    [Session.SessionCodec] and [Connect.ConnectCodec] (laws
    [Session.SessionCodecLaws], [Handshake.HandshakeCodecLaws]),
    [Content.ContentCodec] (laws [ContentCodecLaws]), [CapHandler.CapHandlerCodec]
    (laws [PolicyCodecLaws]), [TypeDefs.TypeCodec] (laws [TypeCodecLaws]),
    [TypeMerge.AnalysisCodec], [Attestation.AttestationCodec] and
    [Quorum.QuorumCodec] are the CBOR encoders and decoders,
    [TypeConstraint.FormatLib] the regular expressions, URLs and dates that a
    format constraint asks for, [TypeDefs.GoText] the text of numbers and quoted
    names in messages, [PeerID.Base58] (laws [Base58Laws]), [PeerID.Signing]
    and [Requests.KeySigning] the third-party codecs and signature schemes,
    [Entity.MapOrder], [TreeOps.BindingOrder] and [ComputeEval.ScopeOrder] the
    iteration order of Go maps, [ComputeValues.Fmt] the formatting of values in
    messages.  The largest allocation that does not panic, a
    registered signer resolver, the dispatcher of a fetch and the chain of storage
    substitutes are arguments.  The wall clock, the random source, and the dispatch of a merge or
    of an expression to another handler are arguments of the definitions that
    use them.  Between components, [Store.ContentStore] and [Store.LocationIndex]
    are the store interfaces with their laws, which the in-memory stores
    satisfy and against which the layers above are proved; [Notifying]'s
    [ContextualWriter] with [TreeIndex.WriterLaws], and [TreeIndex.TreeIndex],
    are what the tree handler relies on of the index it is given;
    [TrieCanon.TrieStorage] is what the trie relies on of its node codec, and
    [RootTracker.TrackerRuntime] is the stack of code that the hook of the root
    tracker runs in; [RevThreeWay.Settlement] is what the merge of tries relies
    on of the policies for diverged paths, and [RevSettle.builtin_settlement]
    discharges it for the built-in ones.  Witnesses
    instantiate every parameter with a concrete function.

    ** Fuel

    Loops that are not structural run on fuel that is proved enough:
    [Ecf.scan_fuel], twice the input length plus one ([ForbidTags_total]); the
    revocation walk, one step per known entity plus two ([Revoked.walk_total]);
    [CleanPath], one step per byte, since a URI prefix is consumed each time;
    [tree_walk], one step per byte plus one ([tree_walk_spec]); nested writes
    of hooks, the cascade threshold plus two ([cascade_terminates]).  The
    chain walk is bounded by the code itself ([maxChainDepth]).  Walks of a trie
    run on [Trie.links_fuel], the depth of a digest plus the number of stored
    entities, which is enough for every trie of a map ([TrieCanon.walk_spec],
    [TrieRemove.removeAtNode_spec], [TrieDiff.diffNodes_spec]); without fuel they
    answer [TrieDiverges] or [None], never a result.  Collecting a closure takes
    one step more ([TreeOps.closure_fuel], [TreeExtract.collectTrieEntities_spec]).
    The trampoline of an evaluation runs on the operations of its budget plus
    one, which is enough ([ComputeSound.trampoline_good]); how deep evaluations
    of operator names nest is a parameter, since the code does not bound it
    ([ComputeSample.name_of_self_diverges]).
    The chunker runs on the length of its input ([ChunkFastCDC_reference]), the
    fetch of chunks on the number it needs ([EnsureClosure_complete]).  The
    liveness walk and the search for a head run on a given fuel, enough when it
    exceeds the rank of the start in an acyclic graph ([AttestSpec.enough]); the
    narrowing check on one level for each type that is extended, and it returns
    exactly when these are finitely many ([TypeSpec.verifyNarrowing_returns]).
    The traversals of the version graph run on [RevDag.dag_fuel], the number of
    parents that the stored versions name plus two, which their theorems show to
    be enough.

    ** Not modelled

    The SQLite stores, sockets, timers and key files are input and output.
    Goroutines appear only where the order of their effects matters, as explicit
    steps: a deferred event of the root tracker is such a step, a mutex that is
    already taken is not modelled as a deadlock.  The durability contract,
    asynchronous delivery and the minting of delivery tokens are not modelled;
    nor is the response a handler's result is encoded into, nor the dialer's loop
    around the requests of the handshake.  Of the extensions these are left out:
    the reactive engine of [ext/compute] with continuations and subscriptions,
    which is a scheduler of goroutines over the tree hooks; commit, checkout,
    branches and auto-versioning of [ext/revision]; the certificate kinds of
    [ext/identity] and the roles of [ext/role], which are consumers of the
    attestation graph that is modelled; queries, clocks and histories; and the
    discovery, relay, registry and transport extensions.  The command-line tools
    and the conformance validator drive a peer from outside. *)

From Stdlib Require Export ZArith Lia.
From Stdlib Require Import Strings.Byte.
From stdpp Require Export base tactics list strings gmap sorting.

(** ** Fallible computations

    A Go function that returns [(T, error)] is a function into [res E T]; the
    zero value Go returns next to a non-nil error is not observable by a caller
    that checks the error, and no caller in the modelled code reads it. *)

Inductive res (E A : Type) : Type :=
| Ok (a : A)
| Err (e : E).
Arguments Ok {E A} a.
Arguments Err {E A} e.

Declare Scope go_scope.
Delimit Scope go_scope with go.
Open Scope go_scope.

Definition res_bind {E A B} (c : res E A) (k : A -> res E B) : res E B :=
  match c with Ok a => k a | Err e => Err e end.

Definition res_map_err {E F A} (f : E -> F) (c : res E A) : res F A :=
  match c with Ok a => Ok a | Err e => Err (f e) end.

Definition of_option {E A} (e : E) (o : option A) : res E A :=
  match o with Some a => Ok a | None => Err e end.

(** [guard c e k]: Go's [if c { return e }; k]. *)
Definition guard {E A} (c : bool) (e : E) (k : res E A) : res E A :=
  if c then Err e else k.

Notation "'let!' x ':=' c 'in' k" := (res_bind c (fun x => k))
  (at level 10, x pattern, c at level 100, k at level 200) : go_scope.
Notation "'check!' c ';' k" := (res_bind c (fun _ : unit => k))
  (at level 10, c at level 100, k at level 200) : go_scope.

Definition is_ok {E A} (r : res E A) : bool :=
  match r with Ok _ => true | Err _ => false end.

Global Instance res_eq_dec {E A} `{EqDecision E, EqDecision A} : EqDecision (res E A).
Proof. solve_decision. Defined.

Section res_lemmas.
Context {E A B : Type}.
Implicit Types (c : res E A) (k : A -> res E B).

Lemma res_bind_ok c k b :
  res_bind c k = Ok b <-> exists a, c = Ok a /\ k a = Ok b.
Proof.
  split.
  - destruct c as [a|e]; simpl; [eauto|discriminate].
  - intros (a & -> & H); exact H.
Qed.

Lemma res_map_err_ok {F} (f : E -> F) c a : res_map_err f c = Ok a <-> c = Ok a.
Proof. destruct c; simpl; split; intros H; inversion H; reflexivity. Qed.

Lemma guard_ok (b : bool) (e : E) (r : res E A) a :
  guard b e r = Ok a <-> b = false /\ r = Ok a.
Proof. destruct b; simpl; split; [discriminate|by intros [? _]|auto|by intros [_ ?]]. Qed.

Lemma of_option_ok (e : E) (o : option A) a : of_option e o = Ok a <-> o = Some a.
Proof. destruct o; simpl; split; intros H; inversion H; reflexivity. Qed.
End res_lemmas.

(** [inv_ok] decomposes every hypothesis [_ = Ok _] built from the combinators
    above into the facts about its parts. *)
Ltac inv_ok1 :=
  match goal with
  | H : Ok _ = Ok _ |- _ => injection H as H; subst
  | H : Err _ = Ok _ |- _ => discriminate H
  | H : Ok _ = Err _ |- _ => discriminate H
  | H : res_bind _ _ = Ok _ |- _ => apply res_bind_ok in H as (? & ? & H)
  | H : res_map_err _ _ = Ok _ |- _ => apply res_map_err_ok in H
  | H : guard _ _ _ = Ok _ |- _ => apply guard_ok in H as [? H]
  | H : of_option _ _ = Ok _ |- _ => apply of_option_ok in H
  end.
Ltac inv_ok := repeat inv_ok1.

(** Case analysis on the scrutinee of a [match] or [if] in a hypothesis that
    equates it with a value, keeping the equation. *)
Ltac destr_in H :=
  match type of H with
  | context [match ?x with _ => _ end] =>
      lazymatch x with context [match _ with _ => _ end] => fail | _ => destruct x eqn:? end
  end.
Ltac destr_goal :=
  match goal with
  | |- context [match ?x with _ => _ end] =>
      lazymatch x with context [match _ with _ => _ end] => fail | _ => destruct x eqn:? end
  end.

(** Reflect the boolean tests of the code into propositions. *)
Ltac bool_prop :=
  repeat match goal with
  | H : _ && _ = true |- _ => apply andb_true_iff in H as [? ?]
  | H : _ || _ = false |- _ => apply orb_false_iff in H as [? ?]
  | H : negb _ = true |- _ => apply negb_true_iff in H
  | H : negb _ = false |- _ => apply negb_false_iff in H
  | H : Z.ltb _ _ = true |- _ => apply Z.ltb_lt in H
  | H : Z.ltb _ _ = false |- _ => apply Z.ltb_ge in H
  | H : Z.leb _ _ = true |- _ => apply Z.leb_le in H
  | H : Z.leb _ _ = false |- _ => apply Z.leb_gt in H
  | H : Z.eqb _ _ = true |- _ => apply Z.eqb_eq in H
  | H : Z.eqb _ _ = false |- _ => apply Z.eqb_neq in H
  | H : Nat.ltb _ _ = true |- _ => apply Nat.ltb_lt in H
  | H : Nat.ltb _ _ = false |- _ => apply Nat.ltb_ge in H
  | H : Nat.leb _ _ = true |- _ => apply Nat.leb_le in H
  | H : Nat.leb _ _ = false |- _ => apply Nat.leb_gt in H
  | H : Nat.eqb _ _ = true |- _ => apply Nat.eqb_eq in H
  | H : Nat.eqb _ _ = false |- _ => apply Nat.eqb_neq in H
  | H : String.eqb _ _ = true |- _ => apply String.eqb_eq in H
  | H : String.eqb _ _ = false |- _ => apply String.eqb_neq in H
  | H : bool_decide _ = true |- _ => apply bool_decide_eq_true in H
  | H : bool_decide _ = false |- _ => apply bool_decide_eq_false in H
  end.

(** ** Bytes *)

Abbreviation byte := Byte.byte.

Global Instance byte_eq_dec : EqDecision byte := Byte.byte_eq_dec.
Global Instance byte_countable : Countable byte :=
  inj_countable Byte.to_N Byte.of_N Byte.of_to_N.

(** The value of a byte, and Go's conversion [byte(z)] (truncation to 8 bits). *)
Definition bZ (b : byte) : Z := Z.of_N (Byte.to_N b).
Definition Zb (z : Z) : byte :=
  match Byte.of_N (Z.to_N (z mod 256)) with Some b => b | None => Byte.x00 end.

Lemma bZ_range b : (0 <= bZ b < 256)%Z.
Proof. unfold bZ. pose proof (Byte.to_N_bounded b). lia. Qed.

Lemma bZ_Zb z : bZ (Zb z) = (z mod 256)%Z.
Proof.
  unfold bZ, Zb. pose proof (Z.mod_pos_bound z 256 ltac:(lia)) as Hz.
  destruct (Byte.of_N (Z.to_N (z mod 256))) as [b|] eqn:E.
  - apply Byte.to_of_N in E. rewrite E. rewrite Z2N.id; lia.
  - apply Byte.of_N_None_iff in E. lia.
Qed.

Lemma Zb_bZ b : Zb (bZ b) = b.
Proof.
  unfold Zb. rewrite Z.mod_small by apply bZ_range.
  unfold bZ. rewrite N2Z.id, Byte.of_to_N. reflexivity.
Qed.

Lemma bZ_inj a b : bZ a = bZ b -> a = b.
Proof. intros H. by rewrite <- (Zb_bZ a), <- (Zb_bZ b), H. Qed.

(** ** Machine-width integers *)

Definition two64 : Z := 2 ^ 64.
(** [uint64] arithmetic wraps modulo 2^64. *)
Definition u64 (z : Z) : Z := z mod two64.
(** Go's [int(x)] of a [uint64] on a 64-bit platform: two's complement. *)
Definition i64 (z : Z) : Z :=
  let u := u64 z in if (u <? 2 ^ 63)%Z then u else (u - two64)%Z.

Lemma u64_small z : (0 <= z < two64)%Z -> u64 z = z.
Proof. intros H. by apply Z.mod_small. Qed.

Lemma i64_small z : (- 2 ^ 63 <= z < 2 ^ 63)%Z -> i64 z = z.
Proof.
  intros H. unfold i64, u64, two64.
  destruct (Z.ltb_spec (z mod 2 ^ 64) (2 ^ 63)) as [Hlt|Hge];
    destruct (Z_lt_le_dec z 0) as [Hneg|Hpos];
    try (rewrite (Z.mod_small z) in * by lia; lia).
  - assert (z mod 2 ^ 64 = z + 2 ^ 64)%Z by
      (symmetry; apply (Z.mod_unique_pos z (2 ^ 64) (-1)); lia). lia.
  - assert (z mod 2 ^ 64 = z + 2 ^ 64)%Z by
      (symmetry; apply (Z.mod_unique_pos z (2 ^ 64) (-1)); lia). lia.
Qed.

(** ** Lists *)

(** Go's [for _, x := range xs { if p(x) { return true } }; return false]. *)
Definition any {A} (p : A -> bool) (l : list A) : bool := existsb p l.
Definition all {A} (p : A -> bool) (l : list A) : bool := forallb p l.

Section list_lemmas.
Context {A : Type}.
Implicit Types (p q : A -> bool) (l : list A).

Lemma any_true p l : any p l = true <-> exists x, x ∈ l /\ p x = true.
Proof.
  unfold any. rewrite existsb_exists.
  split; intros (x & Hx & Hp); exists x; split; auto; by apply list_elem_of_In.
Qed.

Lemma any_false p l : any p l = false <-> forall x, x ∈ l -> p x = false.
Proof.
  split.
  - intros H x Hx. destruct (p x) eqn:Hp; [|done].
    assert (any p l = true) by (apply any_true; eauto). congruence.
  - intros H. destruct (any p l) eqn:E; [|done].
    apply any_true in E as (x & Hx & Hp). rewrite H in Hp; done.
Qed.

Lemma all_true p l : all p l = true <-> forall x, x ∈ l -> p x = true.
Proof.
  unfold all. rewrite forallb_forall.
  split; intros H x Hx; apply H; by apply list_elem_of_In.
Qed.

Lemma any_mono p q l l' :
  (forall x, x ∈ l -> p x = true -> exists y, y ∈ l' /\ q y = true) ->
  any p l = true -> any q l' = true.
Proof. rewrite !any_true. intros H (x & Hx & Hp). eauto. Qed.
End list_lemmas.

(** ** Automation shared by the components *)

Create HintDb entity.
#[export] Hint Resolve bZ_range : entity.
