(* ===== verification/GoStrings.v ===== *)
(** * The parts of Go's [strings] and [encoding/hex] packages the code uses

    A Go [string] is a sequence of bytes, as is [String.string]; indices are
    byte offsets.  Slices out of range panic in Go: every use in the modelled
    code is guarded, and [str_take]/[str_drop] saturate. *)

From S2P Require Import Prelude.
From Stdlib Require Import Ascii Strings.Byte.

(** ** Slicing: [s[:n]] and [s[n:]] *)

Fixpoint str_take (n : nat) (s : string) : string :=
  match n, s with
  | S n', String c s' => String c (str_take n' s')
  | _, _ => EmptyString
  end.

Fixpoint str_drop (n : nat) (s : string) : string :=
  match n, s with
  | S n', String _ s' => str_drop n' s'
  | _, _ => s
  end.

Abbreviation slen := String.length.

(** ** [strings.HasPrefix], [HasSuffix], [TrimPrefix], [TrimSuffix] *)

Fixpoint HasPrefix (s p : string) {struct p} : bool :=
  match p, s with
  | EmptyString, _ => true
  | String a p', String b s' => Ascii.eqb a b && HasPrefix s' p'
  | String _ _, EmptyString => false
  end.

Definition HasSuffix (s suf : string) : bool :=
  (slen suf <=? slen s)%nat && String.eqb (str_drop (slen s - slen suf) s) suf.

Definition TrimPrefix (s p : string) : string :=
  if HasPrefix s p then str_drop (slen p) s else s.

Definition TrimSuffix (s suf : string) : string :=
  if HasSuffix s suf then str_take (slen s - slen suf) s else s.

(** ** [strings.IndexByte] and [strings.Contains] *)

Fixpoint IndexByte (s : string) (c : ascii) : option nat :=
  match s with
  | EmptyString => None
  | String a s' => if Ascii.eqb a c then Some 0%nat else S <$> IndexByte s' c
  end.

Fixpoint LastIndexByte (s : string) (c : ascii) : option nat :=
  match s with
  | EmptyString => None
  | String a s' =>
      match LastIndexByte s' c with
      | Some i => Some (S i)
      | None => if Ascii.eqb a c then Some 0%nat else None
      end
  end.

Fixpoint Contains (s sub : string) : bool :=
  HasPrefix s sub || match s with EmptyString => false | String _ s' => Contains s' sub end.

Fixpoint str_forallb (p : ascii -> bool) (s : string) : bool :=
  match s with EmptyString => true | String a s' => p a && str_forallb p s' end.

(** ** Byte views and [encoding/hex] *)

Definition str_bytes (s : string) : list byte := String.list_byte_of_string s.
Definition bytes_str (l : list byte) : string := String.string_of_list_byte l.

(** [hex.EncodeToString]: two lowercase digits per byte. *)
Definition hex_digit (n : Z) : ascii :=
  ascii_of_nat (Z.to_nat (if (n <? 10)%Z then 48 + n else 87 + n)).

Fixpoint hex_encode (l : list byte) : string :=
  match l with
  | [] => EmptyString
  | b :: l' => String (hex_digit (bZ b / 16)) (String (hex_digit (bZ b mod 16)) (hex_encode l'))
  end.

(** [hex.DecodeString] accepts both cases; an odd length or another character
    is an error. *)
Definition from_hex_digit (c : ascii) : option Z :=
  let n := Z.of_nat (nat_of_ascii c) in
  if (48 <=? n)%Z && (n <=? 57)%Z then Some (n - 48)%Z
  else if (97 <=? n)%Z && (n <=? 102)%Z then Some (n - 87)%Z
  else if (65 <=? n)%Z && (n <=? 70)%Z then Some (n - 55)%Z
  else None.

Fixpoint hex_decode (s : string) : option (list byte) :=
  match s with
  | EmptyString => Some []
  | String a (String b s') =>
      match from_hex_digit a, from_hex_digit b, hex_decode s' with
      | Some x, Some y, Some l => Some (Zb (16 * x + y) :: l)
      | _, _, _ => None
      end
  | String _ EmptyString => None
  end.

(** ** Lemmas on slices and concatenation *)

Lemma append_cons a s t : String a s +:+ t = String a (s +:+ t).
Proof. reflexivity. Qed.

Lemma append_nil s : "" +:+ s = s.
Proof. reflexivity. Qed.

Lemma append_nil_r s : s +:+ "" = s.
Proof. induction s as [|a s IH]; [done|]. by rewrite append_cons, IH. Qed.

Lemma append_assoc s t u : (s +:+ t) +:+ u = s +:+ (t +:+ u).
Proof. induction s as [|a s IH]; [done|]. by rewrite !append_cons, IH. Qed.

Lemma slen_append s t : slen (s +:+ t) = (slen s + slen t)%nat.
Proof. induction s as [|a s IH]; [done|]. rewrite append_cons. simpl. by rewrite IH. Qed.

Lemma str_take_drop n s : str_take n s +:+ str_drop n s = s.
Proof.
  revert s; induction n as [|n IH]; intros [|a s]; try done.
  simpl. by rewrite append_cons, IH.
Qed.

Lemma str_drop_append s t : str_drop (slen s) (s +:+ t) = t.
Proof. induction s as [|a s IH]; [by destruct t|]. rewrite append_cons. exact IH. Qed.

Lemma str_take_append s t : str_take (slen s) (s +:+ t) = s.
Proof. induction s as [|a s IH]; [by destruct t|]. rewrite append_cons. simpl. by rewrite IH. Qed.

Lemma slen_str_drop n s : slen (str_drop n s) = (slen s - n)%nat.
Proof. revert s; induction n as [|n IH]; intros [|a s]; try done. simpl. by rewrite IH. Qed.

Lemma slen_str_take n s : slen (str_take n s) = (n `min` slen s)%nat.
Proof. revert s; induction n as [|n IH]; intros [|a s]; try done. simpl. by rewrite IH. Qed.

Lemma append_inj_l s t u : s +:+ t = s +:+ u -> t = u.
Proof.
  intros H. apply (f_equal (str_drop (slen s))) in H. by rewrite !str_drop_append in H.
Qed.

(** Two splittings of one string: one prefix extends the other. *)
Lemma append_eq_append s t u v :
  s +:+ t = u +:+ v ->
  (exists w, u = s +:+ w /\ t = w +:+ v) \/ (exists w, s = u +:+ w /\ v = w +:+ t).
Proof.
  revert u; induction s as [|a s IH]; intros [|b u] H.
  - left. exists "". split; [done|exact H].
  - left. exists (String b u). split; [done|exact H].
  - right. exists (String a s). split; [done|]. symmetry. exact H.
  - rewrite !append_cons in H. injection H as -> H.
    destruct (IH _ H) as [(w & -> & ->)|(w & -> & ->)]; [left|right]; exists w; done.
Qed.

(** ** Prefix and suffix tests *)

Lemma HasPrefix_spec s p : HasPrefix s p = true <-> exists t, s = p +:+ t.
Proof.
  revert s; induction p as [|a p IH]; intros s; simpl.
  - split; [intros _; by exists s|done].
  - destruct s as [|b s].
    + split; [done|]. intros (t & H). discriminate H.
    + rewrite andb_true_iff, IH, Ascii.eqb_eq. split.
      * intros (-> & t & ->). by exists t.
      * intros (t & H). rewrite append_cons in H. injection H as -> ->. eauto.
Qed.

Lemma HasPrefix_append p t : HasPrefix (p +:+ t) p = true.
Proof. apply HasPrefix_spec. eauto. Qed.

Lemma HasPrefix_trans s p q :
  HasPrefix s p = true -> HasPrefix p q = true -> HasPrefix s q = true.
Proof.
  rewrite !HasPrefix_spec. intros (t & ->) (u & ->).
  exists (u +:+ t). by rewrite append_assoc.
Qed.

Lemma HasSuffix_spec s suf : HasSuffix s suf = true <-> exists t, s = t +:+ suf.
Proof.
  unfold HasSuffix. rewrite andb_true_iff, Nat.leb_le, String.eqb_eq. split.
  - intros [_ H]. exists (str_take (slen s - slen suf) s).
    rewrite <- H at 2. by rewrite str_take_drop.
  - intros (t & ->). rewrite slen_append. split; [lia|].
    replace (slen t + slen suf - slen suf)%nat with (slen t) by lia.
    apply str_drop_append.
Qed.

Lemma TrimSuffix_append s suf : TrimSuffix (s +:+ suf) suf = s.
Proof.
  unfold TrimSuffix.
  assert (HasSuffix (s +:+ suf) suf = true) as -> by (apply HasSuffix_spec; eauto).
  rewrite slen_append. replace (_ + _ - _)%nat with (slen s) by lia. apply str_take_append.
Qed.

Lemma TrimPrefix_append p s : TrimPrefix (p +:+ s) p = s.
Proof. unfold TrimPrefix. rewrite HasPrefix_append. apply str_drop_append. Qed.

(** ** Index *)

Lemma IndexByte_Some s c i :
  IndexByte s c = Some i ->
  s = str_take i s +:+ String c (str_drop (S i) s) /\ IndexByte (str_take i s) c = None
  /\ (i < slen s)%nat.
Proof.
  revert i; induction s as [|a s IH]; intros i; simpl; [done|].
  destruct (Ascii.eqb_spec a c) as [->|Hne].
  - intros [= <-]. simpl. rewrite append_nil. split; [by destruct s|]. split; [done|lia].
  - destruct (IndexByte s c) as [j|] eqn:E; [|done]. intros [= <-].
    destruct (IH j eq_refl) as (H1 & H2 & H3). simpl.
    rewrite append_cons. split; [by f_equal|]. split; [|lia].
    destruct (Ascii.eqb_spec a c); [done|]. by rewrite H2.
Qed.

Lemma IndexByte_append s c t :
  IndexByte s c = None -> IndexByte (s +:+ String c t) c = Some (slen s).
Proof.
  induction s as [|a s IH]; intros H.
  - rewrite append_nil. simpl. by rewrite Ascii.eqb_refl.
  - rewrite append_cons. simpl in *. destruct (Ascii.eqb a c); [done|].
    destruct (IndexByte s c); [done|]. by rewrite IH.
Qed.

Lemma IndexByte_append_None s t c :
  IndexByte (s +:+ t) c = None <-> IndexByte s c = None /\ IndexByte t c = None.
Proof.
  induction s as [|a s IH].
  - rewrite append_nil. simpl. tauto.
  - rewrite append_cons. simpl. destruct (Ascii.eqb a c); [split; [done|by intros [? _]]|].
    rewrite !fmap_None. exact IH.
Qed.

(** Splitting a string at the first occurrence of a separator is unique. *)
Lemma split_at_unique c s t u v :
  IndexByte s c = None -> IndexByte u c = None ->
  s +:+ String c t = u +:+ String c v -> s = u /\ t = v.
Proof.
  intros Hs Hu H.
  pose proof (IndexByte_append s c t Hs) as H1.
  rewrite H, (IndexByte_append u c v Hu) in H1. injection H1 as H1.
  pose proof (f_equal (str_take (slen s)) H) as H2.
  rewrite str_take_append, <- H1, str_take_append in H2. subst u. split; [done|].
  apply append_inj_l in H. by injection H.
Qed.

(** ** Hex round trip *)

Lemma from_hex_digit_hex_digit n :
  (0 <= n < 16)%Z -> from_hex_digit (hex_digit n) = Some n.
Proof.
  intros H.
  assert (Hall : Forall (fun k => from_hex_digit (hex_digit (Z.of_nat k)) = Some (Z.of_nat k))
            (seq 0 16)) by (repeat constructor).
  pose proof (proj1 (Forall_forall _ _) Hall (Z.to_nat n)) as Hk. cbn beta in Hk. rewrite Z2Nat.id in Hk by lia.
  apply Hk, elem_of_seq. lia.
Qed.

Lemma hex_decode_encode l : hex_decode (hex_encode l) = Some l.
Proof.
  induction l as [|b l IH]; [done|]. simpl. pose proof (bZ_range b).
  rewrite !from_hex_digit_hex_digit, IH;
    [|split; [apply Z.mod_pos_bound; lia|apply Z.mod_pos_bound; lia]
     |split; [apply Z.div_pos; lia|apply Z.div_lt_upper_bound; lia]].
  by rewrite <- Z.div_mod, Zb_bZ by lia.
Qed.

Lemma hex_encode_inj l l' : hex_encode l = hex_encode l' -> l = l'.
Proof.
  intros H. apply (f_equal hex_decode) in H. rewrite !hex_decode_encode in H. by injection H.
Qed.

Lemma slen_hex_encode l : slen (hex_encode l) = (2 * length l)%nat.
Proof. induction l as [|b l IH]; [done|]. simpl. rewrite IH. lia. Qed.

#[export] Hint Resolve HasPrefix_append HasPrefix_trans : entity.
