(* ===== verification/Sha2.v ===== *)
(** * SHA-256 and SHA-384 (FIPS 180-4)

    The Go standard library functions [sha256.Sum256] and [sha512.Sum384] that
    [core/hash] and [core/crypto] call, as executable functions on bytes, so
    that content hashes evaluate.  The words of SHA-256 are machine integers, those
    of SHA-384 integers reduced modulo 2^64. *)

From Stdlib Require Import Uint63.
From S2P Require Import Prelude GoStrings.

Open Scope Z_scope.

(** ** Words *)

Fixpoint be_split (n : nat) (z : Z) : list byte :=
  match n with
  | O => []
  | S n' => Zb (Z.shiftr z (8 * Z.of_nat n')) :: be_split n' z
  end.

Lemma length_be_split n z : length (be_split n z) = n.
Proof. induction n as [|n IH]; simpl; congruence. Qed.

Definition be_combine (l : list byte) : Z :=
  fold_left (fun acc b => Z.lor (Z.shiftl acc 8) (bZ b)) l 0.

(** Words of [8 * w_bytes] bits and their operations; amounts of rotation are
    words too. *)
Class Word (W : Type) := {
  w_bytes : nat;
  w_add : W -> W -> W;
  w_and : W -> W -> W;
  w_xor : W -> W -> W;
  w_not : W -> W;
  w_rotr : W -> W -> W;
  w_shr : W -> W -> W;
  w_of_Z : Z -> W;
  w_to_Z : W -> Z
}.

Definition mask64 : Z := Eval vm_compute in Z.ones 64.
#[local] Instance word64 : Word Z := {|
  w_bytes := 8;
  w_add x y := Z.land (x + y) mask64;
  w_and := Z.land;
  w_xor := Z.lxor;
  w_not x := Z.lxor x mask64;
  w_rotr x n := Z.lor (Z.shiftr x n) (Z.land (Z.shiftl x (64 - n)) mask64);
  w_shr := Z.shiftr;
  w_of_Z z := z;
  w_to_Z z := z |}.

Definition mask32 : int := 0xffffffff%uint63.
#[local] Instance word32 : Word int := {|
  w_bytes := 4;
  w_add x y := Uint63.land (Uint63.add x y) mask32;
  w_and := Uint63.land;
  w_xor := Uint63.lxor;
  w_not x := Uint63.lxor x mask32;
  w_rotr x n := Uint63.land (Uint63.lor (Uint63.lsr x n) (Uint63.lsl x (Uint63.sub 32 n))) mask32;
  w_shr := Uint63.lsr;
  w_of_Z := Uint63.of_Z;
  w_to_Z := Uint63.to_Z |}.

(** ** The compression function, shared by both widths *)

Record sha2_params (W : Type) := {
  sp_K : list W;                  (* round constants *)
  sp_H : list W;                  (* initial state *)
  sp_S0 : W * W * W;              (* rotations of the upper-case sigmas *)
  sp_S1 : W * W * W;
  sp_s0 : W * W * W;              (* rotations and shift of the lower-case sigmas *)
  sp_s1 : W * W * W
}.
Arguments sp_K {W} _.
Arguments sp_H {W} _.
Arguments sp_S0 {W} _.
Arguments sp_S1 {W} _.
Arguments sp_s0 {W} _.
Arguments sp_s1 {W} _.

Section sha2.
Context {W : Type} `{Word W} (p : sha2_params W).
Let bbytes : nat := (16 * w_bytes)%nat.

Definition Sig (r : W * W * W) (x : W) : W :=
  let '(a, b, c) := r in w_xor (w_rotr x a) (w_xor (w_rotr x b) (w_rotr x c)).
Definition sig (r : W * W * W) (x : W) : W :=
  let '(a, b, c) := r in w_xor (w_rotr x a) (w_xor (w_rotr x b) (w_shr x c)).
Definition Ch (x y z : W) : W := w_xor (w_and x y) (w_and (w_not x) z).
Definition Maj (x y z : W) : W := w_xor (w_and x y) (w_xor (w_and x z) (w_and y z)).

Fixpoint chunks (n : nat) (k : nat) (l : list byte) : list (list byte) :=
  match k with O => [] | S k' => firstn n l :: chunks n k' (skipn n l) end.

(** The message schedule is kept in reverse: the last word first. *)
Fixpoint schedule (n : nat) (ws : list W) : list W :=
  match n with
  | O => ws
  | S n' =>
      let at_ i := nth i ws (w_of_Z 0) in
      let wt := w_add (w_add (sig (sp_s1 p) (at_ 1%nat)) (at_ 6%nat)) (w_add (sig (sp_s0 p) (at_ 14%nat)) (at_ 15%nat)) in
      schedule n' (wt :: ws)
  end.

Definition round (st : list W) (kw : W * W) : list W :=
  match st with
  | [a; b; c; d; e; f; g; h] =>
      let t1 := w_add (w_add (w_add h (Sig (sp_S1 p) e)) (w_add (Ch e f g) (fst kw))) (snd kw) in
      let t2 := w_add (Sig (sp_S0 p) a) (Maj a b c) in
      [w_add t1 t2; a; b; c; w_add d t1; e; f; g]
  | _ => st
  end.

Definition compress (st : list W) (block : list byte) : list W :=
  let w0 := map (fun c => w_of_Z (be_combine c)) (chunks w_bytes 16 block) in
  let ws := rev (schedule (length (sp_K p) - 16) (rev w0)) in
  zip_with w_add st (fold_left round (zip (sp_K p) ws) st).

Definition pad (m : list byte) : list byte :=
  let l := length m in
  let z := ((bbytes - (l + 1 + 2 * w_bytes) mod bbytes) mod bbytes)%nat in
  m ++ Zb 0x80 :: replicate z (Zb 0) ++ be_split (2 * w_bytes) (8 * Z.of_nat l).

Definition sha2 (outwords : nat) (m : list byte) : list byte :=
  let m' := pad m in
  let st := fold_left compress (chunks bbytes (length m' / bbytes) m') (sp_H p) in
  flat_map (fun x => be_split w_bytes (w_to_Z x)) (firstn outwords st).

Lemma length_round st kw : length (round st kw) = length st.
Proof. unfold round. repeat (destruct st as [|? st]; try done). Qed.

Lemma length_rounds l st : length (fold_left round l st) = length st.
Proof. revert st; induction l as [|x l IH]; intros st; simpl; [done|]. by rewrite IH, length_round. Qed.

Lemma length_compress st b : length (compress st b) = length st.
Proof.
  unfold compress. rewrite length_zip_with, length_rounds. lia.
Qed.

Lemma length_sha2 n m : (n <= length (sp_H p))%nat -> length (sha2 n m) = (n * w_bytes)%nat.
Proof.
  intros Hn. unfold sha2.
  set (st := fold_left compress _ _).
  assert (Hst : (n <= length st)%nat).
  { subst st. generalize (chunks bbytes (length (pad m) / bbytes) (pad m)) as bs.
    intros bs. enough (length (fold_left compress bs (sp_H p)) = length (sp_H p)) by lia.
    generalize (sp_H p). induction bs as [|b bs IH]; intros h; simpl; [done|].
    by rewrite IH, length_compress. }
  clearbody st. revert st Hst; induction n as [|n IH]; intros [|x st] Hl; simpl in *; try lia.
  rewrite length_app, length_be_split, IH by lia. lia.
Qed.
End sha2.

(** ** The constants

    The round constants are the first bits of the fractional parts of the cube
    roots of the first primes, the initial states those of square roots
    (FIPS 180-4, 4.2 and 5.3); they are computed rather than listed. *)

Definition is_prime (n : nat) : bool :=
  forallb (fun d => negb (n mod d =? 0)%nat) (seq 2 (n - 2)).
Definition first_primes : list Z := map Z.of_nat (filter (fun n => is_prime n) (seq 2 408)).

(** The integer cube root, bit by bit from bit [n - 1]. *)
Fixpoint cbrt_bits (n : nat) (x acc : Z) : Z :=
  match n with
  | O => acc
  | S n' =>
      let t := acc + 2 ^ Z.of_nat n' in
      cbrt_bits n' x (if t * t * t <=? x then t else acc)
  end.

Definition frac_cbrt (w pr : Z) : Z := cbrt_bits (Z.to_nat (w + 4)) (pr * 2 ^ (3 * w)) 0 mod 2 ^ w.
Definition frac_sqrt (w pr : Z) : Z := Z.sqrt (pr * 2 ^ (2 * w)) mod 2 ^ w.

(** ** The two instances *)

Definition sha256_K : list int := Eval vm_compute in map (fun pr => Uint63.of_Z (frac_cbrt 32 pr)) (firstn 64 first_primes).
Definition sha256_H : list int := Eval vm_compute in map (fun pr => Uint63.of_Z (frac_sqrt 32 pr)) (firstn 8 first_primes).
Definition sha384_K : list Z := Eval vm_compute in map (frac_cbrt 64) (firstn 80 first_primes).
Definition sha384_H : list Z :=
  Eval vm_compute in map (frac_sqrt 64) (firstn 8 (skipn 8 first_primes)).

Definition sha256_params : sha2_params int := {|
  sp_K := sha256_K;
  sp_H := sha256_H;
  sp_S0 := (2, 13, 22)%uint63; sp_S1 := (6, 11, 25)%uint63; sp_s0 := (7, 18, 3)%uint63; sp_s1 := (17, 19, 10)%uint63 |}.

Definition sha384_params : sha2_params Z := {|
  sp_K := sha384_K;
  sp_H := sha384_H;
  sp_S0 := (28, 34, 39); sp_S1 := (14, 18, 41); sp_s0 := (1, 8, 7); sp_s1 := (19, 61, 6) |}.

(** [sha256.Sum256]: 32 bytes. *)
Definition sha256_sum (m : list byte) : list byte := sha2 sha256_params 8 m.
(** [sha512.Sum384]: 48 bytes. *)
Definition sha384_sum (m : list byte) : list byte := sha2 sha384_params 6 m.

Lemma length_sha256_sum m : length (sha256_sum m) = 32%nat.
Proof. unfold sha256_sum. rewrite length_sha2; [reflexivity|simpl; lia]. Qed.

Lemma length_sha384_sum m : length (sha384_sum m) = 48%nat.
Proof. unfold sha384_sum. rewrite length_sha2; [reflexivity|simpl; lia]. Qed.

(** The FIPS test vectors for "abc". *)
Example sha256_abc :
  hex_encode (sha256_sum (str_bytes "abc"))
  = "ba7816bf8f01cfea414140de5dae2223b00361a396177a9cb410ff61f20015ad".
Proof. vm_compute. reflexivity. Qed.

Example sha384_abc :
  hex_encode (sha384_sum (str_bytes "abc"))
  = "cb00753f45a35e8bb5a03d699ac65007272c32ab0eded1631a8b605a43ff5bed8086072ba1e7cc2358baeca134c825a7".
Proof. vm_compute. reflexivity. Qed.

Global Opaque sha256_sum sha384_sum.
