(* ===== verification/Errors.v ===== *)
(** * Sentinel errors ([core/errors])

    A Go error built with [fmt.Errorf("%w: ...", Sentinel, ...)] matches its
    sentinel under [errors.Is]; the text is diagnostic only.  An error value is
    modelled as the list of sentinels it matches, outermost first: two [%w]
    verbs give two sentinels, a [%v] verb wraps nothing, and [errors.New] in a
    function body gives none. *)

From S2P Require Import Prelude.

Inductive Sentinel : Set :=
| ErrHashMismatch
| ErrInvalidHash
| ErrInvalidEntity
| ErrInvalidEnvelope
| ErrUnknownAlgorithm
| ErrDuplicateMapKey
| ErrNonCanonicalECF
| ErrNotFound
| ErrAlreadyExists
| ErrCapabilityDenied
| ErrAuthenticationFailed
| ErrChainUnreachable
| ErrChainTooDeep
| ErrUnresolvableGrantee
| ErrCapabilityRevoked
| ErrConnectionRequired
| ErrConnectionEstablished
| ErrConnectionSequence
| ErrTTLExhausted
| ErrBudgetExhausted
| ErrCycleDetected
| ErrUnsupportedContentHashFormat
| ErrFrameTooLarge
| ErrEnvelopeDecode
(** [capability.ErrChainUnreachable], a sentinel of its own. *)
| ErrBundleChainUnreachable.

Global Instance Sentinel_eq_dec : EqDecision Sentinel.
Proof. solve_decision. Defined.

Abbreviation GoErr := (list Sentinel).
Abbreviation result A := (res GoErr A).

(** [errors.Is(err, s)]. *)
Definition errors_Is (e : GoErr) (s : Sentinel) : bool := bool_decide (s ∈ e).

(** [fmt.Errorf("%w: ...: %w", s, err)] and [fmt.Errorf("...: %w", err)]. *)
Definition wrap2 (s : Sentinel) (e : GoErr) : GoErr := s :: e.
(** [fmt.Errorf("%w: ...: %v", s, err)] discards the inner chain. *)
Definition wrapv (s : Sentinel) (_ : GoErr) : GoErr := [s].
