(* ===== verification/Ecf.v ===== *)
(** * The receive-boundary CBOR walk ([core/ecf/forbid_tags.go])

    [ForbidTags] walks one encoded CBOR item and refuses tags at any depth,
    indefinite lengths, truncation and trailing bytes.  The walk is modelled
    byte for byte, with Go's 64-bit conversions; [citem] is the abstract syntax
    of definite-length CBOR it is compared with. *)

From S2P Require Import Prelude Errors.

Set Warnings "-register-all".

Open Scope Z_scope.

(** ** The scan *)

(** Every failure matches [ErrNonCanonicalECF]; the constructors keep the
    branch that failed. *)
Inductive ecf_err : Set :=
| EUnexpectedEnd (off : nat)
| ETruncatedArg (off : nat)
| EIndefinite (major : Z)
| EReserved (ai major : Z)
| ETruncatedString (off : nat) (need : Z)
| ETag (arg : Z) (depth : nat)
| EUnknownMajor (major : Z)
| ETrailing (n : Z).

Definition ecf_sentinel (_ : ecf_err) : GoErr := [ErrNonCanonicalECF].

(** [binary.BigEndian.UintN(data[off:])], reading [n] bytes. *)
Definition be_read (n : nat) (data : list byte) (off : nat) : Z :=
  fold_left (fun acc b => 256 * acc + bZ b) (firstn n (skipn off data)) 0.

(** The argument of an item head: [off] is the offset just past the initial
    byte.  Returns the argument and the offset past it. *)
Definition read_arg (data : list byte) (off : nat) (ai major : Z) : res ecf_err (Z * nat) :=
  if ai <? 24 then Ok (ai, off)
  else if ai =? 24 then
    if (length data <? off + 1)%nat then Err (ETruncatedArg off)
    else Ok (be_read 1 data off, (off + 1)%nat)
  else if ai =? 25 then
    if (length data <? off + 2)%nat then Err (ETruncatedArg off)
    else Ok (be_read 2 data off, (off + 2)%nat)
  else if ai =? 26 then
    if (length data <? off + 4)%nat then Err (ETruncatedArg off)
    else Ok (be_read 4 data off, (off + 4)%nat)
  else if ai =? 27 then
    if (length data <? off + 8)%nat then Err (ETruncatedArg off)
    else Ok (be_read 8 data off, (off + 8)%nat)
  else if ai =? 31 then Err (EIndefinite major)
  else Err (EReserved ai major).

(** [None] is "out of fuel"; [ForbidTags_total] shows the fuel [ForbidTags]
    passes is never exhausted.  The two loops are the [for i < arg] loops of the
    array and map cases, [n] the iterations left. *)
Fixpoint forbidTagsScan (fuel : nat) (data : list byte) (off depth : nat)
  : option (res ecf_err nat) :=
  match fuel with
  | O => None
  | S fuel' =>
    match data !! off with
    | None => Some (Err (EUnexpectedEnd off))
    | Some ib =>
      let major := Z.shiftr (bZ ib) 5 in
      let ai := Z.land (bZ ib) 0x1f in
      match read_arg data (off + 1) ai major with
      | Err e => Some (Err e)
      | Ok (arg, off) =>
        if (major =? 0) || (major =? 1) then Some (Ok off)
        else if (major =? 2) || (major =? 3) then
          let end_ := i64 (Z.of_nat off + i64 arg) in
          if (Z.of_nat (length data) <? end_) || (end_ <? Z.of_nat off)
          then Some (Err (ETruncatedString off arg))
          else Some (Ok (Z.to_nat end_))
        else if major =? 4 then scan_array fuel' data arg off (depth + 1)
        else if major =? 5 then scan_map fuel' data arg off (depth + 1)
        else if major =? 6 then Some (Err (ETag arg depth))
        else if major =? 7 then Some (Ok off)
        else Some (Err (EUnknownMajor major))
      end
    end
  end
with scan_array (fuel : nat) (data : list byte) (n : Z) (off depth : nat)
  : option (res ecf_err nat) :=
  match fuel with
  | O => None
  | S fuel' =>
    if n <=? 0 then Some (Ok off)
    else match forbidTagsScan fuel' data off depth with
         | Some (Ok off) => scan_array fuel' data (n - 1) off depth
         | r => r
         end
  end
with scan_map (fuel : nat) (data : list byte) (n : Z) (off depth : nat)
  : option (res ecf_err nat) :=
  match fuel with
  | O => None
  | S fuel' =>
    if n <=? 0 then Some (Ok off)
    else match forbidTagsScan fuel' data off depth with
         | Some (Ok off) =>
             match forbidTagsScan fuel' data off depth with
             | Some (Ok off) => scan_map fuel' data (n - 1) off depth
             | r => r
             end
         | r => r
         end
  end.

Definition scan_fuel (data : list byte) : nat := (2 * length data + 1)%nat.

Definition ForbidTags (data : list byte) : option (res ecf_err unit) :=
  match forbidTagsScan (scan_fuel data) data 0 0 with
  | None => None
  | Some (Err e) => Some (Err e)
  | Some (Ok off) =>
      if (off =? length data)%nat then Some (Ok tt)
      else Some (Err (ETrailing (Z.of_nat (length data) - Z.of_nat off)))
  end.

(** ** Abstract syntax of definite-length CBOR *)

(** The five forms a head can take (not necessarily the shortest one). *)
Inductive hform : Set := F0 | F1 | F2 | F4 | F8.

Definition hform_ai (f : hform) (arg : Z) : Z :=
  match f with F0 => arg | F1 => 24 | F2 => 25 | F4 => 26 | F8 => 27 end.
Definition hform_len (f : hform) : nat :=
  match f with F0 => 0 | F1 => 1 | F2 => 2 | F4 => 4 | F8 => 8 end%nat.
Definition hform_ok (f : hform) (arg : Z) : Prop :=
  0 <= arg /\ match f with F0 => arg < 24 | _ => arg < 256 ^ Z.of_nat (hform_len f) end.

Fixpoint be_bytes (n : nat) (z : Z) : list byte :=
  match n with
  | O => []
  | S n' => Zb (z / 256 ^ Z.of_nat n') :: be_bytes n' (z mod 256 ^ Z.of_nat n')
  end.

Definition head_bytes (major : Z) (f : hform) (arg : Z) : list byte :=
  Zb (32 * major + hform_ai f arg) :: be_bytes (hform_len f) arg.

Global Arguments head_bytes : simpl never.

Inductive citem : Set :=
| CInt (neg : bool) (f : hform) (arg : Z)
| CString (text : bool) (f : hform) (payload : list byte)
| CArray (f : hform) (items : list citem)
| CMap (f : hform) (pairs : list (citem * citem))
| CTag (f : hform) (arg : Z) (content : citem)
| CSimple (f : hform) (arg : Z).

Definition string_major (text : bool) : Z := if text then 3 else 2.
Definition int_major (neg : bool) : Z := if neg then 1 else 0.

Fixpoint ser (t : citem) : list byte :=
  match t with
  | CInt n f a => head_bytes (int_major n) f a
  | CString x f p => head_bytes (string_major x) f (Z.of_nat (length p)) ++ p
  | CArray f l => head_bytes 4 f (Z.of_nat (length l)) ++ flat_map ser l
  | CMap f l => head_bytes 5 f (Z.of_nat (length l))
                ++ flat_map (fun kv => ser (fst kv) ++ ser (snd kv)) l
  | CTag f a c => head_bytes 6 f a ++ ser c
  | CSimple f a => head_bytes 7 f a
  end.

Fixpoint has_tag (t : citem) : bool :=
  match t with
  | CInt _ _ _ | CString _ _ _ | CSimple _ _ => false
  | CArray _ l => existsb has_tag l
  | CMap _ l => existsb (fun kv => has_tag (fst kv) || has_tag (snd kv)) l
  | CTag _ _ _ => true
  end.

(** Every head can carry its argument. *)
Fixpoint citem_ok (t : citem) : Prop :=
  match t with
  | CInt _ f a | CSimple f a => hform_ok f a
  | CString _ f p => hform_ok f (Z.of_nat (length p))
  | CArray f l => hform_ok f (Z.of_nat (length l))
                  /\ fold_right (fun t P => citem_ok t /\ P) True l
  | CMap f l => hform_ok f (Z.of_nat (length l))
                /\ fold_right (fun kv P => citem_ok (fst kv) /\ citem_ok (snd kv) /\ P) True l
  | CTag f a c => hform_ok f a /\ citem_ok c
  end.

(** ** Big-endian arguments *)

Definition be_val (l : list byte) : Z := fold_left (fun acc b => 256 * acc + bZ b) l 0.

Lemma be_val_acc l acc :
  fold_left (fun acc b => 256 * acc + bZ b) l acc = acc * 256 ^ Z.of_nat (length l) + be_val l.
Proof.
  unfold be_val. revert acc; induction l as [|b l IH]; intros acc; cbn [fold_left length]; [lia|].
  rewrite (IH (256 * acc + bZ b)), (IH (256 * 0 + bZ b)), Nat2Z.inj_succ, Z.pow_succ_r by lia.
  lia.
Qed.

Lemma be_val_cons b l : be_val (b :: l) = bZ b * 256 ^ Z.of_nat (length l) + be_val l.
Proof. unfold be_val at 1. cbn [fold_left]. rewrite be_val_acc. lia. Qed.

Lemma be_val_range l : 0 <= be_val l < 256 ^ Z.of_nat (length l).
Proof.
  induction l as [|b l IH]; [unfold be_val; simpl; lia|].
  rewrite be_val_cons. cbn [length]. rewrite Nat2Z.inj_succ, Z.pow_succ_r by lia.
  pose proof (bZ_range b). nia.
Qed.

Lemma length_be_bytes n z : length (be_bytes n z) = n.
Proof. revert z; induction n as [|n IH]; intros z; simpl; auto. Qed.

Lemma be_val_bytes n z : 0 <= z < 256 ^ Z.of_nat n -> be_val (be_bytes n z) = z.
Proof.
  revert z; induction n as [|n IH]; intros z Hz; [unfold be_val; simpl in *; lia|].
  cbn [be_bytes]. rewrite be_val_cons, length_be_bytes, bZ_Zb.
  rewrite Nat2Z.inj_succ, Z.pow_succ_r in Hz by lia.
  assert (Hp : 0 < 256 ^ Z.of_nat n) by (apply Z.pow_pos_nonneg; lia).
  rewrite IH by (apply Z.mod_pos_bound; lia).
  rewrite (Z.mod_small (z / _)).
  - rewrite Z.mul_comm, <- Z.div_mod; lia.
  - split; [apply Z.div_pos; lia|]. apply Z.div_lt_upper_bound; lia.
Qed.

Lemma be_bytes_val l : be_bytes (length l) (be_val l) = l.
Proof.
  induction l as [|b l IH]; [done|]. cbn [be_bytes length].
  assert (Hp : 0 < 256 ^ Z.of_nat (length l)) by (apply Z.pow_pos_nonneg; lia).
  pose proof (be_val_range l). rewrite be_val_cons.
  rewrite Z.div_add_l, (Z.div_small (be_val l)), Z.add_0_r by lia.
  rewrite Z.add_comm, Z.mod_add, Z.mod_small by lia. by rewrite Zb_bZ, IH.
Qed.

(** ** Heads *)

Lemma head_split b :
  bZ b = 32 * Z.shiftr (bZ b) 5 + Z.land (bZ b) 0x1f
  /\ 0 <= Z.shiftr (bZ b) 5 < 8 /\ 0 <= Z.land (bZ b) 0x1f < 32.
Proof.
  pose proof (bZ_range b).
  change 0x1f with (Z.ones 5). rewrite Z.land_ones, Z.shiftr_div_pow2 by lia.
  change (2 ^ 5) with 32.
  split; [apply Z.div_mod; lia|]. split; [|apply Z.mod_pos_bound; lia].
  split; [apply Z.div_pos; lia|]. apply Z.div_lt_upper_bound; lia.
Qed.

Lemma head_join major ai :
  0 <= major < 8 -> 0 <= ai < 32 ->
  Z.shiftr (bZ (Zb (32 * major + ai))) 5 = major
  /\ Z.land (bZ (Zb (32 * major + ai))) 0x1f = ai.
Proof.
  intros Hm Ha. rewrite bZ_Zb, Z.mod_small by lia.
  change 0x1f with (Z.ones 5). rewrite Z.land_ones, Z.shiftr_div_pow2 by lia.
  change (2 ^ 5) with 32. rewrite Z.mul_comm. split.
  - rewrite Z.div_add_l, Z.div_small; lia.
  - rewrite Z.add_comm, Z.mod_add, Z.mod_small; lia.
Qed.

Lemma hform_ai_range f a : hform_ok f a -> 0 <= hform_ai f a < 32.
Proof. destruct f; intros [? ?]; simpl in *; lia. Qed.

Lemma hform_ok_arg f a : hform_ok f a -> 0 <= a < 2 ^ 64.
Proof.
  intros [H0 H]; destruct f; cbn in H; split; auto; eapply Z.lt_trans; try exact H; lia.
Qed.

Definition wide_form (f : hform) : bool := match f with F0 => false | _ => true end.

Lemma be_read_app n data off l post :
  skipn off data = l ++ post -> length l = n -> be_read n data off = be_val l.
Proof.
  intros H <-. unfold be_read, be_val. by rewrite H, take_app_length.
Qed.

Lemma skipn_length_le {A} off (data l post : list A) :
  (off <= length data)%nat -> skipn off data = l ++ post ->
  (length data = off + length l + length post)%nat.
Proof.
  intros Ho H. apply (f_equal length) in H.
  rewrite length_app, length_drop in H. lia.
Qed.

Lemma skipn_app_advance {A} off (data l post : list A) :
  (off <= length data)%nat -> skipn off data = l ++ post ->
  skipn (off + length l) data = post.
Proof. intros Ho H. rewrite <- drop_drop, H. apply drop_app_length. Qed.

(** Reading a head written in form [f] returns its argument. *)
Lemma read_arg_complete data off f a major post :
  hform_ok f a -> (off <= length data)%nat ->
  skipn off data = be_bytes (hform_len f) a ++ post ->
  read_arg data off (hform_ai f a) major = Ok (a, (off + hform_len f)%nat).
Proof.
  intros Hf Ho H. pose proof (skipn_length_le _ _ _ _ Ho H) as Hl.
  rewrite length_be_bytes in Hl. destruct Hf as [H0 H1].
  assert (Hr : wide_form f = true -> be_read (hform_len f) data off = a).
  { intros Hw. rewrite (be_read_app _ _ _ _ _ H) by apply length_be_bytes.
    apply be_val_bytes. split; [lia|]. by destruct f. }
  destruct f; simpl in *; unfold read_arg;
    repeat match goal with
    | |- context [if ?b then _ else _] => destruct b eqn:?; bool_prop; try lia
    end; rewrite ?Hr by reflexivity; repeat f_equal; lia.
Qed.

Lemma read_arg_inv data off ai major a off' :
  0 <= ai < 32 -> (off <= length data)%nat ->
  read_arg data off ai major = Ok (a, off') ->
  exists f post, hform_ok f a /\ ai = hform_ai f a /\ off' = (off + hform_len f)%nat
    /\ (off' <= length data)%nat /\ skipn off data = be_bytes (hform_len f) a ++ post.
Proof.
  intros Hai Ho. unfold read_arg.
  assert (Hgo : forall f, (off + hform_len f <= length data)%nat -> wide_form f = true ->
    exists post, hform_ok f (be_read (hform_len f) data off)
      /\ skipn off data = be_bytes (hform_len f) (be_read (hform_len f) data off) ++ post).
  { intros f Hf Hw. exists (skipn (hform_len f) (skipn off data)).
    set (l := firstn (hform_len f) (skipn off data)).
    assert (Hl : length l = hform_len f) by
      (unfold l; rewrite length_take, length_drop; lia).
    assert (Hs : skipn off data = l ++ skipn (hform_len f) (skipn off data)) by
      (symmetry; apply take_drop).
    rewrite (be_read_app _ _ _ _ _ Hs Hl).
    pose proof (be_val_range l) as Hv. pose proof (be_bytes_val l) as Hb.
    rewrite Hl in Hv, Hb. rewrite Hb.
    split; [|exact Hs]. split; [lia|]. destruct f; [done|apply Hv..]. }
  repeat match goal with |- context [if ?b then _ else _] => destruct b eqn:?; bool_prop end;
    intros [= <- <-].
  - exists F0, (skipn off data). split_and!; try done; simpl; lia || (split; lia).
  - destruct (Hgo F1) as (post & H1 & H2); [simpl; lia|done|].
    exists F1, post. split_and!; try done; simpl; lia.
  - destruct (Hgo F2) as (post & H1 & H2); [simpl; lia|done|].
    exists F2, post. split_and!; try done; simpl; lia.
  - destruct (Hgo F4) as (post & H1 & H2); [simpl; lia|done|].
    exists F4, post. split_and!; try done; simpl; lia.
  - destruct (Hgo F8) as (post & H1 & H2); [simpl; lia|done|].
    exists F8, post. split_and!; try done; simpl; lia.
Qed.

(** ** Structural lemmas *)

Section citem_induction.
Context (P : citem -> Prop).
Context (Hint : forall n f a, P (CInt n f a)).
Context (Hstr : forall x f p, P (CString x f p)).
Context (Harr : forall f l, Forall P l -> P (CArray f l)).
Context (Hmap : forall f l, Forall (fun kv => P (fst kv) /\ P (snd kv)) l -> P (CMap f l)).
Context (Htag : forall f a c, P c -> P (CTag f a c)).
Context (Hsim : forall f a, P (CSimple f a)).

Fixpoint citem_ind' (t : citem) : P t :=
  match t with
  | CInt n f a => Hint n f a
  | CString x f p => Hstr x f p
  | CArray f l =>
      Harr f l ((fix go l := match l return Forall P l with
                 | [] => Forall_nil_2 _
                 | t :: l => Forall_cons_2 _ t l (citem_ind' t) (go l) end) l)
  | CMap f l =>
      Hmap f l ((fix go l := match l return Forall (fun kv => P (fst kv) /\ P (snd kv)) l with
                 | [] => Forall_nil_2 _
                 | kv :: l => Forall_cons_2 _ kv l
                     (conj (citem_ind' (fst kv)) (citem_ind' (snd kv))) (go l) end) l)
  | CTag f a c => Htag f a c (citem_ind' c)
  | CSimple f a => Hsim f a
  end.
End citem_induction.

Lemma citem_ok_list l :
  fold_right (fun t P => citem_ok t /\ P) True l <-> Forall citem_ok l.
Proof. induction l as [|t l IH]; simpl; [done|]. by rewrite Forall_cons, IH. Qed.

Lemma citem_ok_pairs l :
  fold_right (fun kv P => citem_ok (fst kv) /\ citem_ok (snd kv) /\ P) True l
  <-> Forall (fun kv => citem_ok (fst kv) /\ citem_ok (snd kv)) l.
Proof. induction l as [|t l IH]; simpl; [done|]. rewrite Forall_cons, IH. tauto. Qed.

(** [spans data off off' bs]: the bytes of [data] from [off] to [off'] are [bs]. *)
Definition spans (data : list byte) (off off' : nat) (bs : list byte) : Prop :=
  (off <= length data)%nat /\ off' = (off + length bs)%nat
  /\ skipn off data = bs ++ skipn off' data.

Lemma spans_end data off off' bs : spans data off off' bs -> (off' <= length data)%nat.
Proof.
  intros (Ho & -> & H). pose proof (skipn_length_le _ _ _ _ Ho H). rewrite length_drop in *. lia.
Qed.

Lemma spans_nil data off : (off <= length data)%nat -> spans data off off [].
Proof. intros H. split_and!; simpl; [done|lia|done]. Qed.

Lemma spans_app data o1 o2 o3 a b :
  spans data o1 o2 a -> spans data o2 o3 b -> spans data o1 o3 (a ++ b).
Proof.
  intros (H1 & -> & H2) (H3 & -> & H4). split_and!; [done|rewrite length_app; lia|].
  by rewrite H2, H4, <- app_assoc.
Qed.

Lemma spans_head data off ib arg off' :
  data !! off = Some ib ->
  read_arg data (off + 1) (Z.land (bZ ib) 0x1f) (Z.shiftr (bZ ib) 5) = Ok (arg, off') ->
  exists f, hform_ok f arg /\ spans data off off' (head_bytes (Z.shiftr (bZ ib) 5) f arg).
Proof.
  intros Hib Hr. pose proof (head_split ib) as (Hj & _ & Hai).
  pose proof (lookup_lt_Some _ _ _ Hib) as Hlt.
  assert (Ho1 : (off + 1 <= length data)%nat) by lia.
  destruct (read_arg_inv _ _ _ _ _ _ Hai Ho1 Hr) as (f & post & Hf & Hfai & -> & Hl & Hs).
  exists f. split; [done|]. unfold head_bytes. rewrite <- Hfai, <- Hj, Zb_bZ.
  split_and!; [lia|simpl; rewrite length_be_bytes; lia|].
  rewrite (drop_S _ _ _ Hib). simpl. f_equal.
  replace (S off) with (off + 1)%nat by lia. rewrite Hs. f_equal.
  pose proof (skipn_app_advance _ _ _ _ Ho1 Hs) as Hq.
  rewrite length_be_bytes in Hq. symmetry. exact Hq.
Qed.

(** ** Soundness: what the scan accepts is one tag-free, definite-length item *)

Definition tagfree (t : citem) : Prop := citem_ok t /\ has_tag t = false.

Lemma tagfree_array f l :
  hform_ok f (Z.of_nat (length l)) -> Forall tagfree l -> tagfree (CArray f l).
Proof.
  intros Hf Hl. split; simpl.
  - split; [done|]. apply citem_ok_list. eapply Forall_impl; [exact Hl|]. by intros ? [? _].
  - apply any_false. intros x Hx. eapply Forall_forall in Hl; [|exact Hx]. by destruct Hl.
Qed.

Lemma tagfree_map f l :
  hform_ok f (Z.of_nat (length l)) ->
  Forall (fun kv => tagfree (fst kv) /\ tagfree (snd kv)) l -> tagfree (CMap f l).
Proof.
  intros Hf Hl. split; simpl.
  - split; [done|]. apply citem_ok_pairs. eapply Forall_impl; [exact Hl|].
    intros ? [[? _] [? _]]. done.
  - apply any_false. intros x Hx. eapply Forall_forall in Hl; [|exact Hx].
    destruct Hl as [[_ ->] [_ ->]]. done.
Qed.

(** The bounds test of the string case: with Go's wrapping [int] arithmetic it
    accepts exactly the payloads that fit, for every 64-bit length argument. *)
Definition payload_end (o : nat) (arg : Z) : Z := i64 (Z.of_nat o + i64 arg).

Lemma payload_end_spec (len o : nat) arg :
  Z.of_nat len < 2 ^ 63 -> (o <= len)%nat -> 0 <= arg < 2 ^ 64 ->
  if (Z.of_nat len <? payload_end o arg) || (payload_end o arg <? Z.of_nat o)
  then Z.of_nat len < Z.of_nat o + arg
  else payload_end o arg = Z.of_nat o + arg /\ Z.of_nat o + arg <= Z.of_nat len.
Proof.
  intros Hlen Ho Harg. unfold payload_end.
  destruct (Z_lt_le_dec arg (2 ^ 63)) as [Hsm|Hbig].
  - rewrite (i64_small arg) by lia.
    destruct (Z_lt_le_dec (Z.of_nat o + arg) (2 ^ 63)).
    + rewrite i64_small by lia. destruct (_ || _) eqn:E; bool_prop; [|lia].
      apply orb_true_iff in E as [E|E]; bool_prop; lia.
    + assert (i64 (Z.of_nat o + arg) < 0) as Hn.
      { unfold i64, u64, two64. rewrite Z.mod_small by lia.
        destruct (Z.ltb_spec (Z.of_nat o + arg) (2 ^ 63)); lia. }
      replace (_ <? Z.of_nat o) with true by (symmetry; apply Z.ltb_lt; lia).
      rewrite orb_true_r. lia.
  - assert (i64 arg = arg - 2 ^ 64) as ->.
    { unfold i64, u64, two64. rewrite Z.mod_small by lia.
      destruct (Z.ltb_spec arg (2 ^ 63)); lia. }
    rewrite i64_small by lia.
    replace (_ <? Z.of_nat o) with true by (symmetry; apply Z.ltb_lt; lia).
    rewrite orb_true_r. lia.
Qed.

Section sound.
Context (data : list byte).
Context (Hlen : Z.of_nat (length data) < 2 ^ 63).

Definition scanned (off off' : nat) : Prop :=
  exists t, tagfree t /\ spans data off off' (ser t).
Definition scanned_items (n : Z) (off off' : nat) : Prop :=
  exists l, Z.of_nat (length l) = n /\ Forall tagfree l
    /\ spans data off off' (flat_map ser l).
Definition scanned_pairs (n : Z) (off off' : nat) : Prop :=
  exists l, Z.of_nat (length l) = n
    /\ Forall (fun kv => tagfree (fst kv) /\ tagfree (snd kv)) l
    /\ spans data off off' (flat_map (fun kv => ser (fst kv) ++ ser (snd kv)) l).

Lemma scanned_end off off' : scanned off off' -> (off' <= length data)%nat.
Proof. intros (t & _ & H). by eapply spans_end. Qed.

Lemma scanned_int off off' major f arg :
  major = 0 \/ major = 1 -> hform_ok f arg ->
  spans data off off' (head_bytes major f arg) -> scanned off off'.
Proof.
  intros Hm Hf Hs. exists (CInt (major =? 1) f arg). split; [done|].
  simpl. by destruct Hm as [-> | ->].
Qed.

Lemma scanned_string off o1 major f arg :
  major = 2 \/ major = 3 -> hform_ok f arg ->
  spans data off o1 (head_bytes major f arg) ->
  Z.of_nat o1 + arg <= Z.of_nat (length data) ->
  scanned off (Z.to_nat (Z.of_nat o1 + arg)).
Proof.
  intros Hm Hf Hsp Hfit. pose proof (proj1 Hf).
  set (p := firstn (Z.to_nat arg) (skipn o1 data)).
  assert (Hp : length p = Z.to_nat arg) by (unfold p; rewrite length_take, length_drop; lia).
  exists (CString (major =? 3) f p). unfold tagfree. cbn [ser citem_ok has_tag].
  rewrite Hp, Z2Nat.id by lia. split; [done|].
  eapply spans_app; [by destruct Hm as [-> | ->]|].
  split_and!; [by eapply spans_end|lia|].
  unfold p. rewrite <- (take_drop (Z.to_nat arg) (skipn o1 data)) at 1. f_equal.
  rewrite drop_drop. f_equal. lia.
Qed.

Lemma scanned_array off o1 off' f n :
  hform_ok f n -> spans data off o1 (head_bytes 4 f n) ->
  scanned_items n o1 off' -> scanned off off'.
Proof.
  intros Hf Hsp (l & <- & Hok & Hs). exists (CArray f l).
  split; [by apply tagfree_array|]. by eapply spans_app.
Qed.

Lemma scanned_map off o1 off' f n :
  hform_ok f n -> spans data off o1 (head_bytes 5 f n) ->
  scanned_pairs n o1 off' -> scanned off off'.
Proof.
  intros Hf Hsp (l & <- & Hok & Hs). exists (CMap f l).
  split; [by apply tagfree_map|]. by eapply spans_app.
Qed.

Lemma scanned_items_cons n off o1 off' :
  scanned off o1 -> scanned_items (n - 1) o1 off' -> scanned_items n off off'.
Proof.
  intros (t & Ht & Hs) (l & Hl & Hok & Hsl). exists (t :: l).
  split_and!; [simpl; lia|by constructor|by eapply spans_app].
Qed.

Lemma scanned_pairs_cons n off o1 o2 off' :
  scanned off o1 -> scanned o1 o2 -> scanned_pairs (n - 1) o2 off' -> scanned_pairs n off off'.
Proof.
  intros (k & Hk & Hsk) (v & Hv & Hsv) (l & Hl & Hok & Hsl). exists ((k, v) :: l).
  split_and!; [simpl; lia|by constructor|].
  simpl. eapply spans_app; [|exact Hsl]. by eapply spans_app.
Qed.

Lemma scan_sound fuel :
  (forall off depth off', forbidTagsScan fuel data off depth = Some (Ok off') -> scanned off off')
  /\ (forall n off depth off', 0 <= n -> (off <= length data)%nat ->
       scan_array fuel data n off depth = Some (Ok off') -> scanned_items n off off')
  /\ (forall n off depth off', 0 <= n -> (off <= length data)%nat ->
       scan_map fuel data n off depth = Some (Ok off') -> scanned_pairs n off off').
Proof.
  induction fuel as [|fuel (IHs & IHa & IHm)]; [done|]. split_and!.
  - intros off depth off'. cbn [forbidTagsScan].
    destruct (data !! off) as [ib|] eqn:Hib; [|done].
    destruct (read_arg _ _ _ _) as [[arg o1]|e] eqn:Hr; [|done].
    destruct (spans_head _ _ _ _ _ Hib Hr) as (f & Hf & Hsp).
    pose proof (spans_end _ _ _ _ Hsp) as Ho1. pose proof (hform_ok_arg _ _ Hf) as Harg.
    pose proof (payload_end_spec _ _ _ Hlen Ho1 Harg) as Hpay. unfold payload_end in Hpay.
    set (major := Z.shiftr (bZ ib) 5) in *. clearbody major.
    destruct ((major =? 0) || (major =? 1)) eqn:H01.
    { intros [= <-]. apply orb_true_iff in H01 as [?|?]; bool_prop;
        (eapply scanned_int; [|exact Hf|exact Hsp]; auto). }
    destruct ((major =? 2) || (major =? 3)) eqn:H23.
    { destruct (_ || _); [done|]. intros [= <-]. destruct Hpay as [-> Hfit].
      apply orb_true_iff in H23 as [?|?]; bool_prop;
        (eapply scanned_string; [|exact Hf|exact Hsp|exact Hfit]; auto). }
    destruct (Z.eqb_spec major 4) as [->|]; [intros H; eapply scanned_array; eauto with lia|].
    destruct (Z.eqb_spec major 5) as [->|]; [intros H; eapply scanned_map; eauto with lia|].
    destruct (Z.eqb_spec major 6) as [->|]; [done|].
    destruct (Z.eqb_spec major 7) as [->|]; [|done].
    intros [= <-]. by exists (CSimple f arg).
  - intros n off depth off' Hn Ho. cbn [scan_array]. destruct (Z.leb_spec n 0).
    { intros [= <-]. exists []. split_and!; [simpl; lia|done|by apply spans_nil]. }
    destruct (forbidTagsScan fuel data off depth) as [[o1|e]|] eqn:Hs1; [|done..].
    intros H'. eapply scanned_items_cons; [by eapply IHs|].
    eapply IHa; [lia| |exact H']. by eapply scanned_end, IHs.
  - intros n off depth off' Hn Ho. cbn [scan_map]. destruct (Z.leb_spec n 0).
    { intros [= <-]. exists []. split_and!; [simpl; lia|done|by apply spans_nil]. }
    destruct (forbidTagsScan fuel data off depth) as [[o1|e]|] eqn:Hs1; [|done..].
    destruct (forbidTagsScan fuel data o1 depth) as [[o2|e]|] eqn:Hs2; [|done..].
    intros H'. eapply scanned_pairs_cons; [by eapply IHs|by eapply IHs|].
    eapply IHm; [lia| |exact H']. by eapply scanned_end, IHs.
Qed.
End sound.

(** ** Termination: the fuel is enough *)

Lemma ser_nonempty t : (1 <= length (ser t))%nat.
Proof. destruct t; cbn [ser]; unfold head_bytes; rewrite ?length_app; cbn [length]; lia. Qed.

Lemma scanned_progress data off off' : scanned data off off' -> (off < off')%nat.
Proof. intros (t & _ & _ & -> & _). pose proof (ser_nonempty t). lia. Qed.

Lemma scan_total data fuel :
  Z.of_nat (length data) < 2 ^ 63 ->
  (forall off depth, (off <= length data)%nat -> (2 * (length data - off) + 1 <= fuel)%nat ->
     is_Some (forbidTagsScan fuel data off depth))
  /\ (forall n off depth, (off <= length data)%nat -> (2 * (length data - off) + 2 <= fuel)%nat ->
     is_Some (scan_array fuel data n off depth))
  /\ (forall n off depth, (off <= length data)%nat -> (2 * (length data - off) + 2 <= fuel)%nat ->
     is_Some (scan_map fuel data n off depth)).
Proof.
  intros Hlen. induction fuel as [|fuel (IHs & IHa & IHm)]; [split_and!; lia|].
  assert (Hstep : forall off depth o1,
    forbidTagsScan fuel data off depth = Some (Ok o1) -> (off < o1 <= length data)%nat).
  { intros off depth o1 H. apply (scan_sound data Hlen) in H.
    split; [by eapply scanned_progress|by eapply scanned_end]. }
  split_and!.
  - intros off depth Ho Hf. cbn [forbidTagsScan].
    destruct (data !! off) as [ib|] eqn:Hib; [|eauto].
    destruct (read_arg _ _ _ _) as [[arg o1]|e] eqn:Hr; [|eauto].
    destruct (spans_head _ _ _ _ _ Hib Hr) as (f & _ & Hsp).
    pose proof (spans_end _ _ _ _ Hsp). destruct Hsp as (_ & -> & _).
    unfold head_bytes in *. cbn [length] in *.
    repeat case_match; eauto; (apply IHa || apply IHm); lia.
  - intros n off depth Ho Hf. cbn [scan_array]. destruct (n <=? 0); [eauto|].
    destruct (IHs off depth) as [[o1|e] Hs]; [lia..| |]; rewrite Hs; [|eauto].
    apply Hstep in Hs. apply IHa; lia.
  - intros n off depth Ho Hf. cbn [scan_map]. destruct (n <=? 0); [eauto|].
    destruct (IHs off depth) as [[o1|e] Hs]; [lia..| |]; rewrite Hs; [|eauto].
    apply Hstep in Hs. destruct (IHs o1 depth) as [[o2|e] Hs2]; [lia..| |]; rewrite Hs2; [|eauto].
    apply Hstep in Hs2. apply IHm; lia.
Qed.

(** ** Completeness: every item is decided by whether it contains a tag *)

Definition verdict (tagged : bool) (r : option (res ecf_err nat)) (off' : nat) : Prop :=
  if tagged then exists a d, r = Some (Err (ETag a d)) else r = Some (Ok off').

Definition decides (data : list byte) (t : citem) : Prop :=
  forall fuel off depth,
    spans data off (off + length (ser t)) (ser t) ->
    (2 * (length data - off) + 1 <= fuel)%nat ->
    verdict (has_tag t) (forbidTagsScan fuel data off depth) (off + length (ser t)).

Lemma spans_split data off a b :
  spans data off (off + length (a ++ b)) (a ++ b) ->
  spans data off (off + length a) a
  /\ spans data (off + length a) (off + length a + length b) b.
Proof.
  intros (Ho & _ & H). rewrite <- app_assoc in H.
  pose proof (skipn_app_advance _ _ _ _ Ho H) as Ha.
  pose proof (skipn_length_le _ _ _ _ Ho H).
  assert (Hoff : (off + length a <= length data)%nat) by lia.
  pose proof (skipn_app_advance _ _ _ _ Hoff Ha) as Hb.
  split; split_and!; try lia; congruence.
Qed.

(** Scanning a head written in form [f] continues with its argument. *)
Lemma scan_head data off major f a :
  0 <= major < 8 -> hform_ok f a ->
  spans data off (off + length (head_bytes major f a)) (head_bytes major f a) ->
  exists ib, data !! off = Some ib /\ Z.shiftr (bZ ib) 5 = major
    /\ read_arg data (off + 1) (Z.land (bZ ib) 0x1f) major
       = Ok (a, (off + length (head_bytes major f a))%nat).
Proof.
  intros Hm Hf (Ho & _ & Hs). exists (Zb (32 * major + hform_ai f a)).
  destruct (head_join major (hform_ai f a) Hm (hform_ai_range _ _ Hf)) as [H1 H2].
  unfold head_bytes in *. cbn [length] in *. rewrite length_be_bytes in *.
  pose proof (skipn_length_le _ _ _ _ Ho Hs) as Hl. cbn [length] in Hl.
  rewrite length_be_bytes in Hl. split_and!; [|done|].
  - rewrite <- (Nat.add_0_r off), <- lookup_drop, Hs. done.
  - rewrite H2, (read_arg_complete _ _ _ _ _ (skipn (off + S (hform_len f)) data) Hf); [| lia|].
    + do 2 f_equal. lia.
    + rewrite <- drop_drop, Hs. done.
Qed.

Lemma array_decides data l fuel off depth :
  Forall (decides data) l ->
  spans data off (off + length (flat_map ser l)) (flat_map ser l) ->
  (2 * (length data - off) + 2 <= fuel)%nat ->
  verdict (existsb has_tag l) (scan_array fuel data (Z.of_nat (length l)) off depth)
    (off + length (flat_map ser l)).
Proof.
  revert fuel off; induction l as [|t l IH]; intros fuel off Hl Hs Hf;
    (destruct fuel as [|fuel]; [lia|]); cbn [scan_array flat_map existsb length] in *.
  - simpl. do 2 f_equal. lia.
  - apply Forall_cons in Hl as [Ht Hl]. apply spans_split in Hs as [Hst Hsl].
    destruct (Z.leb_spec (Z.of_nat (S (length l))) 0) as [|_]; [lia|].
    pose proof (Ht fuel off depth Hst ltac:(lia)) as Hv.
    destruct (has_tag t) eqn:Htag; simpl in Hv.
    { destruct Hv as (a & d & ->). simpl. eauto. }
    rewrite Hv. simpl orb.
    replace (Z.of_nat (S (length l)) - 1) with (Z.of_nat (length l)) by lia.
    rewrite length_app, Nat.add_assoc.
    pose proof (ser_nonempty t). pose proof (spans_end _ _ _ _ Hst). apply IH; [done..|lia].
Qed.

Lemma map_decides data l fuel off depth :
  Forall (fun kv => decides data (fst kv) /\ decides data (snd kv)) l ->
  let bs := flat_map (fun kv => ser (fst kv) ++ ser (snd kv)) l in
  spans data off (off + length bs) bs ->
  (2 * (length data - off) + 2 <= fuel)%nat ->
  verdict (existsb (fun kv => has_tag (fst kv) || has_tag (snd kv)) l)
    (scan_map fuel data (Z.of_nat (length l)) off depth) (off + length bs).
Proof.
  revert fuel off; induction l as [|[k v] l IH]; intros fuel off Hl bs Hs Hf; unfold bs in *;
    (destruct fuel as [|fuel]; [lia|]); cbn [scan_map flat_map existsb length fst snd] in *.
  - simpl. do 2 f_equal. lia.
  - apply Forall_cons in Hl as [[Hk Hv] Hl]. cbn [fst snd] in *.
    apply spans_split in Hs as [Hst Hsl]. apply spans_split in Hst as [Hsk Hsv].
    destruct (Z.leb_spec (Z.of_nat (S (length l))) 0) as [|_]; [lia|].
    pose proof (ser_nonempty k). pose proof (ser_nonempty v).
    pose proof (spans_end _ _ _ _ Hsk). pose proof (spans_end _ _ _ _ Hsv).
    pose proof (Hk fuel off depth Hsk ltac:(lia)) as Hrk.
    destruct (has_tag k) eqn:Hkt; simpl in Hrk.
    { destruct Hrk as (a & d & ->). simpl. eauto. }
    rewrite Hrk. pose proof (Hv fuel _ depth Hsv ltac:(lia)) as Hrv.
    destruct (has_tag v) eqn:Hvt; simpl in Hrv.
    { destruct Hrv as (a & d & ->). simpl. eauto. }
    rewrite Hrv. simpl orb.
    replace (Z.of_nat (S (length l)) - 1) with (Z.of_nat (length l)) by lia.
    rewrite !length_app in *. rewrite !Nat.add_assoc in *. apply IH; [done..|lia].
Qed.

(** One step of the scan on an item whose head is [major], [f], [a]. *)
Ltac scan_step major Hs Hf fuel :=
  apply spans_split in Hs as [Hh Hb];
  assert (Hm : 0 <= major < 8) by lia;
  destruct (scan_head _ _ _ _ _ Hm Hf Hh) as (ib & Hib & Hmaj & Hra);
  destruct fuel as [|fuel]; [lia|]; cbn [forbidTagsScan];
  rewrite Hib, Hmaj, Hra; cbn [Z.eqb Pos.eqb orb].

Lemma item_decides data t :
  Z.of_nat (length data) < 2 ^ 63 -> citem_ok t -> decides data t.
Proof.
  intros Hlen. induction t as [n f a|x f p|f l IH|f l IH|f a c IH|f a] using citem_ind';
    intros Hok fuel off depth Hs Hfuel; cbn [ser has_tag citem_ok] in *.
  - rewrite <- (app_nil_r (head_bytes _ _ _)) in Hs.
    assert (Hm : 0 <= int_major n < 8) by (destruct n; simpl; lia).
    apply spans_split in Hs as [Hh _].
    destruct (scan_head _ _ _ _ _ Hm Hok Hh) as (ib & Hib & Hmaj & Hra).
    destruct fuel as [|fuel]; [lia|]. cbn [forbidTagsScan]. rewrite Hib, Hmaj, Hra.
    by destruct n.
  - apply spans_split in Hs as [Hh Hb].
    assert (Hm : 0 <= string_major x < 8) by (destruct x; simpl; lia).
    destruct (scan_head _ _ _ _ _ Hm Hok Hh) as (ib & Hib & Hmaj & Hra).
    destruct fuel as [|fuel]; [lia|]. cbn [forbidTagsScan]. rewrite Hib, Hmaj, Hra.
    pose proof (spans_end _ _ _ _ Hb) as He. pose proof (hform_ok_arg _ _ Hok) as Ha.
    assert (Ho1 : (off + length (head_bytes (string_major x) f (Z.of_nat (length p)))
                   <= length data)%nat) by lia.
    pose proof (payload_end_spec _ _ _ Hlen Ho1 Ha) as Hpay. unfold payload_end in Hpay.
    replace ((string_major x =? 0) || (string_major x =? 1)) with false by (by destruct x).
    replace ((string_major x =? 2) || (string_major x =? 3)) with true by (by destruct x).
    destruct (_ || _); [lia|]. destruct Hpay as [-> _]. simpl. do 2 f_equal.
    rewrite length_app. lia.
  - destruct Hok as [Hf Hl]. apply citem_ok_list in Hl. scan_step 4 Hs Hf fuel.
    pose proof (spans_end _ _ _ _ Hh). rewrite length_app, Nat.add_assoc.
    apply array_decides; [|done|unfold head_bytes in *; cbn [length] in *; lia].
    apply Forall_forall. intros t Ht. eapply Forall_forall in IH; [|exact Ht].
    apply IH. eapply Forall_forall in Hl; eauto.
  - destruct Hok as [Hf Hl]. apply citem_ok_pairs in Hl. scan_step 5 Hs Hf fuel.
    pose proof (spans_end _ _ _ _ Hh). rewrite length_app, Nat.add_assoc.
    apply map_decides; [|done|unfold head_bytes in *; cbn [length] in *; lia].
    apply Forall_forall. intros t Ht. eapply Forall_forall in IH; [|exact Ht].
    eapply Forall_forall in Hl; [|exact Ht]. destruct IH, Hl; auto.
  - destruct Hok as [Hf Hc]. scan_step 6 Hs Hf fuel. simpl. eauto.
  - rewrite <- (app_nil_r (head_bytes _ _ _)) in Hs. scan_step 7 Hs Hok fuel. done.
Qed.

Lemma spans_all bs : spans bs 0 (0 + length bs) bs.
Proof. split_and!; [lia|done|]. simpl. by rewrite drop_all, app_nil_r. Qed.

Lemma ForbidTags_item t :
  Z.of_nat (length (ser t)) < 2 ^ 63 -> citem_ok t ->
  if has_tag t then exists a d, ForbidTags (ser t) = Some (Err (ETag a d))
  else ForbidTags (ser t) = Some (Ok tt).
Proof.
  intros Hlen Hok. unfold ForbidTags.
  pose proof (item_decides (ser t) t Hlen Hok (scan_fuel (ser t)) 0%nat 0%nat
    (spans_all _) ltac:(unfold scan_fuel; lia)) as H.
  destruct (has_tag t); simpl in H.
  - destruct H as (a & d & ->). eauto.
  - rewrite H, Nat.eqb_refl. done.
Qed.

(** ** The properties *)

(** [ForbidTags] accepts a byte string exactly when it is the encoding of
    one definite-length CBOR item, well formed in every head and free of tags
    at every depth, with nothing after it. *)
Theorem ForbidTags_accepts_iff (data : list byte) :
  Z.of_nat (length data) < 2 ^ 63 ->
  ForbidTags data = Some (Ok tt)
  <-> exists t, citem_ok t /\ has_tag t = false /\ ser t = data.
Proof.
  intros Hlen. split.
  - unfold ForbidTags. destruct (forbidTagsScan _ _ _ _) as [[off|e]|] eqn:Hs; [|done..].
    destruct (off =? length data)%nat eqn:Ho; [|done]. intros _. bool_prop. subst off.
    apply (scan_sound data Hlen) in Hs as (t & [Hok Ht] & _ & _ & Hsp).
    exists t. split_and!; [done..|]. rewrite drop_all, app_nil_r in Hsp. by rewrite <- Hsp.
  - intros (t & Hok & Ht & <-). pose proof (ForbidTags_item t Hlen Hok) as H.
    by rewrite Ht in H.
Qed.

Lemma ForbidTags_accepts_iff_witness :
  Z.of_nat (length (ser (CArray F0 [CInt false F0 1; CString true F1 []]))) < 2 ^ 63
  /\ ForbidTags (ser (CArray F0 [CInt false F0 1; CString true F1 []])) = Some (Ok tt).
Proof.
  split; [vm_compute; reflexivity|].
  apply ForbidTags_accepts_iff; [vm_compute; reflexivity|].
  exists (CArray F0 [CInt false F0 1; CString true F1 []]).
  vm_compute. repeat split; discriminate.
Defined.

(** A well-formed item that carries a CBOR tag anywhere is refused, and
    refused as a tag: a tag can hide at no depth, in no array, map key or map
    value. *)
Theorem ForbidTags_rejects_tag (t : citem) :
  citem_ok t -> has_tag t = true -> Z.of_nat (length (ser t)) < 2 ^ 63 ->
  exists arg depth, ForbidTags (ser t) = Some (Err (ETag arg depth)).
Proof.
  intros Hok Ht Hlen. pose proof (ForbidTags_item t Hlen Hok) as H. by rewrite Ht in H.
Qed.

Lemma ForbidTags_rejects_tag_witness :
  exists arg depth,
    ForbidTags (ser (CMap F0 [(CInt false F0 1, CArray F0 [CTag F0 2 (CInt true F0 0)])]))
    = Some (Err (ETag arg depth)).
Proof. apply ForbidTags_rejects_tag; vm_compute; repeat split; discriminate || reflexivity. Defined.

(** The recursive walk terminates on every input of every length Go can
    hold: the recursion never needs more than [2 * len + 1] nested steps, so a
    hostile array or map count (up to 2^64 - 1) cannot keep it running. *)
Theorem ForbidTags_total (data : list byte) :
  Z.of_nat (length data) < 2 ^ 63 -> exists r, ForbidTags data = Some r.
Proof.
  intros Hlen. unfold ForbidTags.
  destruct (scan_total data (scan_fuel data) Hlen) as (Hs & _ & _).
  destruct (Hs 0%nat 0%nat) as [[off|e] ->]; [lia|unfold scan_fuel; lia| |eauto].
  destruct (off =? length data)%nat; eauto.
Qed.

(** An array head announcing 2^64 - 1 items, with one item present. *)
Definition hostile_array : list byte := head_bytes 4 F8 (2 ^ 64 - 1) ++ [Zb 0].

Lemma ForbidTags_total_witness :
  (exists r, ForbidTags hostile_array = Some r)
  /\ ForbidTags hostile_array = Some (Err (EUnexpectedEnd 10)).
Proof.
  split; [|vm_compute; reflexivity]. apply ForbidTags_total. vm_compute. reflexivity.
Defined.
