(* ===== verification/Hash.v ===== *)
(** * Content hashes ([core/hash/hash.go])

    A content hash is a format byte and a 64-byte array of which the format
    implies how many bytes are digest.  The CBOR encoder behind
    [ecf.EncodeHashable] is third-party code: it is the parameter
    [EncodeHashable] of class [HashableCodec]. *)

From S2P Require Import Prelude GoStrings Sha2 Errors.

Open Scope Z_scope.

Class HashableCodec := {
  (** [ecf.EncodeHashable(type, data)]: the deterministic CBOR of the two-key
      map [{data, type}]; [None] is an encoder error. *)
  EncodeHashable : string -> list byte -> option (list byte)
}.

(** ** Formats *)

Definition AlgorithmSHA256 : byte := Byte.x00.
Definition AlgorithmSHA384 : byte := Byte.x01.
Definition MaxDigestSize : nat := 64.
Definition SHA256DigestSize : nat := 32.
Definition SHA384DigestSize : nat := 48.

Definition DigestLen (alg : byte) : nat :=
  if decide (alg = AlgorithmSHA256) then SHA256DigestSize
  else if decide (alg = AlgorithmSHA384) then SHA384DigestSize
  else 0.

Definition Algorithms : list byte := [AlgorithmSHA256; AlgorithmSHA384].

Definition HashWireSize (alg : byte) : nat :=
  let d := DigestLen alg in if (d =? 0)%nat then 0 else 1 + d.

(** ** The hash value *)

Record Hash := mkHash { Algorithm : byte; Digest : list byte }.

Global Instance Hash_eq_dec : EqDecision Hash.
Proof. solve_decision. Defined.
Global Instance Hash_countable : Countable Hash :=
  inj_countable' (fun h => (Algorithm h, Digest h)) (fun p => mkHash (fst p) (snd p))
    ltac:(by intros []).

(** [copy(dst[:64], src)] into a zeroed [64]byte array. *)
Definition digest_array (d : list byte) : list byte :=
  firstn MaxDigestSize (d ++ replicate MaxDigestSize Byte.x00).

Definition zero_hash : Hash := mkHash Byte.x00 (digest_array []).

Definition IsZero (h : Hash) : bool := bool_decide (h = zero_hash).

Definition EffectiveDigest (h : Hash) : list byte := firstn (DigestLen (Algorithm h)) (Digest h).

Definition NewSHA256 (d : list byte) : Hash := mkHash AlgorithmSHA256 (digest_array d).
Definition NewSHA384 (d : list byte) : Hash := mkHash AlgorithmSHA384 (digest_array d).
Definition ExtendDigest (d : list byte) : list byte := digest_array d.

(** ** Computing *)

Definition OfBytes (alg : byte) (body : list byte) : result Hash :=
  if decide (alg = AlgorithmSHA256) then Ok (mkHash alg (digest_array (sha256_sum body)))
  else if decide (alg = AlgorithmSHA384) then Ok (mkHash alg (digest_array (sha384_sum body)))
  else Err [ErrUnsupportedContentHashFormat].

Definition ComputeFormat `{HashableCodec} (alg : byte) (entityType : string) (data : list byte)
  : result Hash :=
  let! encoded := of_option [] (EncodeHashable entityType data) in
  OfBytes alg encoded.

Definition Compute_ `{HashableCodec} (entityType : string) (data : list byte) : result Hash :=
  ComputeFormat AlgorithmSHA256 entityType data.

Definition Validate `{HashableCodec} (entityType : string) (data : list byte) (claimed : Hash)
  : result unit :=
  let! computed := ComputeFormat (Algorithm claimed) entityType data in
  if decide (computed = claimed) then Ok tt else Err [ErrHashMismatch].

(** ** Wire form *)

Definition Bytes (h : Hash) : list byte :=
  let n := DigestLen (Algorithm h) in
  if (n =? 0)%nat then [Algorithm h] else Algorithm h :: firstn n (Digest h).

Definition FromBytes (b : list byte) : result Hash :=
  match b with
  | [] => Err [ErrInvalidHash]
  | alg :: rest =>
      let n := DigestLen alg in
      if (n =? 0)%nat then Err [ErrUnknownAlgorithm]
      else if negb (length b =? 1 + n)%nat then Err [ErrInvalidHash]
      else Ok (mkHash alg (digest_array (firstn n rest)))
  end.

Definition ParseHex (s : string) : result Hash :=
  match hex_decode s with
  | None => Err [ErrInvalidHash]
  | Some b => FromBytes b
  end.

(** The display form of [Hash.String] for the two supported formats; the
    fallback prints the format byte with [%02x]. *)
Definition HashString (h : Hash) : string :=
  if decide (Algorithm h = AlgorithmSHA256) then "ecf-sha256:" +:+ hex_encode (EffectiveDigest h)
  else if decide (Algorithm h = AlgorithmSHA384)
  then "ecfv1-sha384:" +:+ hex_encode (EffectiveDigest h)
  else "ecf-unknown(0x" +:+ hex_encode [Algorithm h] +:+ ")".

(** [Hash.UnmarshalCBOR], over the decoder of a CBOR byte string. *)
Definition UnmarshalCBOR (decode_bstr : list byte -> option (list byte)) (data : list byte)
  : result Hash :=
  if bool_decide (data = [Byte.xf6]) || bool_decide (data = [Byte.xf7]) then Ok zero_hash
  else
    let! raw := of_option [] (decode_bstr data) in
    match raw with
    | [] => Ok zero_hash
    | _ => FromBytes raw
    end.

(** ** Format-code dispatch *)

Definition DispatchContentHashFormat (h : Hash) : result unit :=
  if decide (Algorithm h = AlgorithmSHA256) then Ok tt
  else if decide (Algorithm h = AlgorithmSHA384) then Ok tt
  else Err [ErrUnsupportedContentHashFormat].

(** The leading LEB128 varint, restricted to one byte of value; returns the
    value and the bytes consumed.  [(b[0] & 0x7F) | (b[1] << 7)] is computed in
    8 bits. *)
Definition decodeVarintFormatCode (b : list byte) : result (byte * nat) :=
  match b with
  | [] => Err [ErrInvalidHash]
  | b0 :: rest =>
      if bZ b0 <? 0x80 then
        if bZ b0 =? 0xFF then Err [ErrUnsupportedContentHashFormat]
        else Ok (b0, 1%nat)
      else match rest with
      | [] => Err [ErrInvalidHash]
      | b1 :: _ =>
          if 0x80 <=? bZ b1 then Err [ErrUnsupportedContentHashFormat]
          else if 0x01 <? bZ b1 then Err [ErrUnsupportedContentHashFormat]
          else
            let v := Zb (Z.lor (Z.land (bZ b0) 0x7F) (Z.shiftl (bZ b1) 7)) in
            if bZ v =? 0xFF then Err [ErrUnsupportedContentHashFormat]
            else Ok (v, 2%nat)
      end
  end.

Definition DispatchContentHashBytes (b : list byte) : result unit :=
  match b with
  | [] => Err [ErrInvalidHash]
  | _ =>
      let! (alg, _) := decodeVarintFormatCode b in
      if decide (alg = AlgorithmSHA256) then Ok tt
      else if decide (alg = AlgorithmSHA384) then Ok tt
      else Err [ErrUnsupportedContentHashFormat]
  end.

(** ** The representation invariant: 64 bytes, zero past the digest *)

Definition hash_wf (h : Hash) : Prop :=
  Digest h = digest_array (EffectiveDigest h).

Definition supported (alg : byte) : Prop := alg = AlgorithmSHA256 \/ alg = AlgorithmSHA384.

Lemma supported_DigestLen alg : supported alg <-> (DigestLen alg =? 0)%nat = false.
Proof.
  unfold supported, DigestLen. repeat case_decide; simpl; split; auto; intros [?|?] || intros ?; done.
Qed.

Lemma DigestLen_bound alg : (DigestLen alg <= MaxDigestSize)%nat.
Proof. unfold DigestLen. repeat case_decide; unfold SHA256DigestSize, SHA384DigestSize, MaxDigestSize; lia. Qed.

Lemma length_digest_array d : (length d <= MaxDigestSize)%nat -> length (digest_array d) = MaxDigestSize.
Proof. intros H. unfold digest_array. rewrite length_take, length_app, length_replicate. lia. Qed.

Lemma take_digest_array d :
  (length d <= MaxDigestSize)%nat -> firstn (length d) (digest_array d) = d.
Proof.
  intros H. unfold digest_array. rewrite take_take, Nat.min_l by done. apply take_app_length.
Qed.

Lemma digest_array_inj d d' :
  length d = length d' -> (length d <= MaxDigestSize)%nat ->
  digest_array d = digest_array d' -> d = d'.
Proof.
  intros Hl Hm Hd. rewrite <- (take_digest_array d), <- (take_digest_array d') by lia. congruence.
Qed.

Lemma mkHash_wf alg d :
  length d = DigestLen alg ->
  hash_wf (mkHash alg (digest_array d)) /\ EffectiveDigest (mkHash alg (digest_array d)) = d.
Proof.
  intros Hl. unfold hash_wf, EffectiveDigest. cbn [Algorithm Digest].
  pose proof (DigestLen_bound alg). rewrite <- Hl, take_digest_array by lia. done.
Qed.

Lemma OfBytes_wf alg body h :
  OfBytes alg body = Ok h -> hash_wf h /\ Algorithm h = alg /\ supported alg.
Proof.
  unfold OfBytes. repeat case_decide; intros E; inv_ok; cbn [Algorithm].
  - split_and!; [apply mkHash_wf, length_sha256_sum|done|by left].
  - split_and!; [apply mkHash_wf, length_sha384_sum|done|by right].
Qed.

(** Two different bodies with one digest under format [alg]. *)
Definition digest_collision (alg : byte) (b b' : list byte) : Prop :=
  b <> b' /\ (alg = AlgorithmSHA256 /\ sha256_sum b = sha256_sum b'
             \/ alg = AlgorithmSHA384 /\ sha384_sum b = sha384_sum b').

Lemma OfBytes_inj alg b b' h :
  OfBytes alg b = Ok h -> OfBytes alg b' = Ok h -> b = b' \/ digest_collision alg b b'.
Proof.
  destruct (decide (b = b')) as [->|Hne]; [by left|]. intros E E'. right. split; [done|].
  assert (Hd := eq_trans E (eq_sym E')). revert Hd E. clear E'. unfold OfBytes.
  repeat case_decide; intros Hd E; [injection Hd as Hd..|discriminate E].
  - left. split; [done|]. apply digest_array_inj in Hd; rewrite ?length_sha256_sum; unfold MaxDigestSize; lia || done.
  - right. split; [done|]. apply digest_array_inj in Hd; rewrite ?length_sha384_sum; unfold MaxDigestSize; lia || done.
Qed.

Lemma ComputeFormat_wf `{HashableCodec} alg ty data h :
  ComputeFormat alg ty data = Ok h -> hash_wf h /\ Algorithm h = alg /\ supported alg.
Proof. unfold ComputeFormat. intros Hc. inv_ok. by eapply OfBytes_wf. Qed.

Lemma FromBytes_ok b h :
  FromBytes b = Ok h <->
  exists alg d, b = alg :: d /\ supported alg /\ length d = DigestLen alg
    /\ h = mkHash alg (digest_array d).
Proof.
  destruct b as [|alg d]; simpl.
  { split; [done|]. by intros (? & ? & ? & _). }
  split.
  - destruct (DigestLen alg =? 0)%nat eqn:E; [done|]. apply supported_DigestLen in E.
    destruct (length d =? DigestLen alg)%nat eqn:Hl; [|done]. bool_prop. intros [= <-].
    exists alg, d. split_and!; try done. by rewrite take_ge by lia.
  - intros (alg' & d' & [= <- <-] & Hs & Hl & ->). apply supported_DigestLen in Hs.
    rewrite Hs, Hl, Nat.eqb_refl. simpl. by rewrite take_ge by lia.
Qed.

Lemma wf_length h : hash_wf h -> length (Digest h) = MaxDigestSize.
Proof.
  intros Hwf. rewrite Hwf. apply length_digest_array. unfold EffectiveDigest.
  rewrite length_take. pose proof (DigestLen_bound (Algorithm h)). lia.
Qed.

Lemma FromBytes_Bytes h : hash_wf h -> supported (Algorithm h) -> FromBytes (Bytes h) = Ok h.
Proof.
  intros Hwf Hs. apply FromBytes_ok. unfold Bytes.
  pose proof (proj1 (supported_DigestLen _) Hs) as ->.
  pose proof (wf_length h Hwf). pose proof (DigestLen_bound (Algorithm h)).
  exists (Algorithm h), (EffectiveDigest h). split_and!; try done.
  - unfold EffectiveDigest. rewrite length_take. lia.
  - rewrite <- Hwf. by destruct h.
Qed.

Lemma FromBytes_inv b h :
  FromBytes b = Ok h -> hash_wf h /\ supported (Algorithm h) /\ Bytes h = b.
Proof.
  intros (alg & d & -> & Hs & Hl & ->)%FromBytes_ok.
  destruct (mkHash_wf alg d Hl) as [Hwf He]. split_and!; [done|done|].
  unfold Bytes. unfold EffectiveDigest in He. cbn [Algorithm] in *.
  pose proof (proj1 (supported_DigestLen _) Hs) as ->. by rewrite He.
Qed.

Lemma Bytes_inj h h' :
  hash_wf h -> hash_wf h' -> supported (Algorithm h) -> supported (Algorithm h') ->
  Bytes h = Bytes h' -> h = h'.
Proof.
  intros Hw Hw' Hs Hs' Hb. apply FromBytes_Bytes in Hw, Hw'; [|done..]. congruence.
Qed.

Lemma Validate_ok `{HashableCodec} ty data h :
  Validate ty data h = Ok tt <-> ComputeFormat (Algorithm h) ty data = Ok h.
Proof.
  unfold Validate. destruct (ComputeFormat _ _ _) as [c|e]; simpl; [|done].
  case_decide; split; congruence.
Qed.

Lemma ParseHex_ok s h :
  ParseHex s = Ok h <-> exists b, hex_decode s = Some b /\ FromBytes b = Ok h.
Proof.
  unfold ParseHex. destruct (hex_decode s) as [b|]; split.
  - eauto.
  - by intros (b' & [= <-] & ?).
  - done.
  - by intros (b' & ? & _).
Qed.

(** ** Properties *)

(** The wire form and the in-memory form determine each other. A hash in
    the representation invariant with a supported format survives
    [Bytes]/[FromBytes] and the hexadecimal form read by [ParseHex]; and
    whatever [FromBytes] accepts is in the invariant, has a supported format,
    and re-encodes to the same bytes. *)
Theorem hash_wire_roundtrip (h : Hash) (b : list byte) :
  (hash_wf h -> supported (Algorithm h) ->
     FromBytes (Bytes h) = Ok h /\ ParseHex (hex_encode (Bytes h)) = Ok h)
  /\ (FromBytes b = Ok h -> hash_wf h /\ supported (Algorithm h) /\ Bytes h = b).
Proof.
  split; [|apply FromBytes_inv].
  intros Hwf Hs. split; [by apply FromBytes_Bytes|].
  apply ParseHex_ok. exists (Bytes h). split; [apply hex_decode_encode|by apply FromBytes_Bytes].
Qed.

Lemma hash_wire_roundtrip_witness :
  exists h, OfBytes AlgorithmSHA384 [Byte.x61] = Ok h
    /\ FromBytes (Bytes h) = Ok h
    /\ (FromBytes (Bytes h) = Ok h -> Bytes h = Bytes h).
Proof.
  destruct (OfBytes AlgorithmSHA384 [Byte.x61]) as [h|] eqn:E; [|discriminate E].
  destruct (OfBytes_wf _ _ _ E) as (Hwf & Ha & Hs). exists h. split; [done|]. split.
  - apply (proj1 (hash_wire_roundtrip h [])); [done|by rewrite Ha].
  - intros Hb. apply (proj2 (hash_wire_roundtrip h (Bytes h)) Hb).
Defined.

(** [Validate] binds content: an accepted hash is in the representation
    invariant and has a supported format; and two contents accepted under the
    same hash have the same canonical encoding, or their encodings are a
    collision of the digest function that the hash's format names. *)
Theorem Validate_binding `{HashableCodec} (ty ty' : string) (data data' : list byte) (h : Hash) :
  Validate ty data h = Ok tt -> Validate ty' data' h = Ok tt ->
  hash_wf h /\ supported (Algorithm h)
  /\ exists enc enc', EncodeHashable ty data = Some enc /\ EncodeHashable ty' data' = Some enc'
     /\ (enc = enc' \/ digest_collision (Algorithm h) enc enc').
Proof.
  rewrite !Validate_ok. intros Hc Hc'.
  destruct (ComputeFormat_wf _ _ _ _ Hc) as (Hwf & _ & Hs). split_and!; [done..|].
  unfold ComputeFormat in *. inv_ok. eexists _, _. split_and!; [done..|]. by eapply OfBytes_inj.
Qed.

Definition toy_hashable : HashableCodec :=
  {| EncodeHashable ty d := Some (str_bytes ty ++ Byte.x00 :: d) |}.

Lemma Validate_binding_witness :
  exists h : Hash, @Validate toy_hashable "t" [Byte.x01] h = Ok tt /\ hash_wf h.
Proof.
  destruct (@Compute_ toy_hashable "t" [Byte.x01]) as [h|] eqn:E; [|discriminate E].
  assert (Hv : @Validate toy_hashable "t" [Byte.x01] h = Ok tt).
  { apply (@Validate_ok toy_hashable).
    destruct (@ComputeFormat_wf toy_hashable _ _ _ _ E) as (_ & -> & _). exact E. }
  exists h. split; [exact Hv|].
  apply (@Validate_binding toy_hashable "t" "t" [Byte.x01] [Byte.x01] h Hv Hv).
Defined.

(** Which leading bytes [DispatchContentHashBytes] accepts: the minimal
    one-byte form of a supported format, and also the overlong two-byte forms
    [80 00] and [81 00]; [FromBytes] accepts none of the latter. *)
Theorem DispatchContentHashBytes_accepts (b : list byte) :
  DispatchContentHashBytes b = Ok tt <->
  exists alg rest, supported alg /\ (b = alg :: rest \/ b = Zb (bZ alg + 0x80) :: Byte.x00 :: rest).
Proof.
  split.
  - unfold DispatchContentHashBytes, decodeVarintFormatCode.
    destruct b as [|b0 rest]; [done|].
    destruct (bZ b0 <? 0x80) eqn:E0.
    + destruct (bZ b0 =? 0xFF) eqn:?; [done|]. simpl.
      repeat case_decide; try done; intros _; exists b0, rest; unfold supported; auto.
    + destruct rest as [|b1 rest]; [done|].
      destruct (0x80 <=? bZ b1) eqn:?; [done|]. destruct (0x01 <? bZ b1) eqn:E1; [done|].
      assert (b1 = Byte.x00 \/ b1 = Byte.x01) as [-> | ->].
      { bool_prop. pose proof (bZ_range b1).
        destruct (decide (bZ b1 = 0)); [left|right]; apply bZ_inj; change (bZ Byte.x00) with 0; change (bZ Byte.x01) with 1; lia. }
      all: intros Hd; exists (Zb (bZ b0 - 0x80)), rest; revert Hd E0; clear;
        destruct b0; vm_compute; intuition (auto; discriminate).
  - intros (alg & rest & [-> | ->] & [-> | ->]); reflexivity.
Qed.
