(* ===== verification/PeerID.v ===== *)
(** * Peer identifiers ([core/crypto/peerid.go], [Verify] of [core/crypto/keypair.go])

    A peer id is the Base58 text of [varint(key_type) || varint(hash_type) ||
    digest].  Base58 and the two signature schemes are third-party code: the
    classes [Base58] and [Signing] are their interfaces, [Base58Laws] what the
    peer-id code relies on. *)

From Stdlib Require Import Ascii.
From S2P Require Import Prelude GoStrings Sha2 Errors.

Open Scope Z_scope.

(** ** Interfaces of the external packages *)

Class Base58 := {
  base58_Encode : list byte -> string;
  base58_Decode : string -> option (list byte)
}.

(** base58 alphabet: no 0, O, I, l. *)
Definition base58Alphabet : string := "123456789ABCDEFGHJKLMNPQRSTUVWXYZabcdefghijkmnopqrstuvwxyz".

Definition in_alphabet (c : ascii) : bool :=
  match IndexByte base58Alphabet c with Some _ => true | None => false end.

Class Base58Laws `{Base58} := {
  (** Decoding inverts encoding; the decoder refuses the empty string. *)
  base58_roundtrip b : b <> [] -> base58_Decode (base58_Encode b) = Some b;
  (** A character outside the alphabet is a decode error. *)
  base58_alphabet s b : base58_Decode s = Some b -> str_forallb in_alphabet s = true
}.

(** [ed25519.Verify] and [ed448.Verify] (with the empty context). *)
Class Signing := {
  ed25519_Verify : list byte -> list byte -> list byte -> bool;
  ed448_Verify : list byte -> list byte -> list byte -> bool
}.

(** ** Constants *)

Definition KeyTypeEd25519 : byte := Byte.x01.
Definition KeyTypeEd448 : byte := Byte.x02.
Definition KeyTypeExperimentalTest : byte := Byte.xfe.
Definition KeyTypeStringEd25519 : string := "ed25519".
Definition KeyTypeStringEd448 : string := "ed448".
Definition KeyTypeStringExperimentalTest : string := "experimental-test".
Definition ExperimentalTestPublicKeyLen : nat := 64.
Definition HashTypeIdentity : byte := Byte.x00.
Definition HashTypeSHA256 : byte := Byte.x01.
Definition Ed25519PublicKeyLen : nat := 32.
Definition Ed448PublicKeyLen : nat := 57.
Definition Ed448SignatureLen : nat := 114.
Definition SHA256DigestLen : nat := 32.

Abbreviation PeerID := string.

Abbreviation auth_failed := ([ErrAuthenticationFailed] : GoErr).

(** ** Key types *)

Definition CanonicalHashType (keyType : byte) : result byte :=
  if decide (keyType = KeyTypeEd25519) then Ok HashTypeIdentity
  else if decide (keyType = KeyTypeEd448) then Ok HashTypeSHA256
  else if decide (keyType = KeyTypeExperimentalTest) then Ok HashTypeSHA256
  else Err auth_failed.

Definition KeyTypeString (keyType : byte) : string :=
  if decide (keyType = KeyTypeEd25519) then KeyTypeStringEd25519
  else if decide (keyType = KeyTypeEd448) then KeyTypeStringEd448
  else if decide (keyType = KeyTypeExperimentalTest) then KeyTypeStringExperimentalTest
  else "".

Definition KeyTypeByte (s : string) : option byte :=
  if decide (s = KeyTypeStringEd25519) then Some KeyTypeEd25519
  else if decide (s = KeyTypeStringEd448) then Some KeyTypeEd448
  else if decide (s = KeyTypeStringExperimentalTest) then Some KeyTypeExperimentalTest
  else None.

Definition validatePublicKeyLen (pub : list byte) (keyType : byte) : result unit :=
  if decide (keyType = KeyTypeEd25519) then
    guard (negb (length pub =? Ed25519PublicKeyLen)%nat) auth_failed (Ok tt)
  else if decide (keyType = KeyTypeEd448) then
    guard (negb (length pub =? Ed448PublicKeyLen)%nat) auth_failed (Ok tt)
  else if decide (keyType = KeyTypeExperimentalTest) then
    guard (negb (length pub =? ExperimentalTestPublicKeyLen)%nat) auth_failed (Ok tt)
  else Err auth_failed.

(** ** The varint prefix *)

Definition appendVarintU8 (buf : list byte) (v : byte) : list byte :=
  if bZ v <? 0x80 then buf ++ [v] else buf ++ [Zb (Z.lor (bZ v) 0x80); Byte.x01].

(** The value and the number of bytes read. *)
Definition readVarintU8 (b : list byte) : result (byte * nat) :=
  match b with
  | [] => Err auth_failed
  | b0 :: rest =>
      if bZ b0 <? 0x80 then Ok (b0, 1%nat)
      else match rest with
      | [] => Err auth_failed
      | b1 :: _ =>
          if 0x80 <=? bZ b1 then Err auth_failed
          else if 0x01 <? bZ b1 then Err auth_failed
          else
            let v := Zb (Z.lor (Z.land (bZ b0) 0x7F) (Z.shiftl (bZ b1) 7)) in
            if bZ v =? 0xFF then Err auth_failed else Ok (v, 2%nat)
      end
  end.

(** ** Deriving *)

Definition derivePeerID `{Base58} (pub : list byte) (keyType hashType : byte) : result PeerID :=
  if bZ keyType =? 0xFF then Err auth_failed
  else if bZ hashType =? 0xFF then Err auth_failed
  else
    let! digest :=
      (if decide (hashType = HashTypeIdentity) then
         check! validatePublicKeyLen pub keyType; Ok pub
       else if decide (hashType = HashTypeSHA256) then Ok (sha256_sum pub)
       else Err auth_failed) in
    Ok (base58_Encode (appendVarintU8 (appendVarintU8 [] keyType) hashType ++ digest)).

Definition PeerIDFromExperimentalTestPublicKey `{Base58} (pub : list byte) : result PeerID :=
  guard (negb (length pub =? ExperimentalTestPublicKeyLen)%nat) auth_failed
    (derivePeerID pub KeyTypeExperimentalTest HashTypeSHA256).

Definition PeerIDFromPublicKey `{Base58} (publicKey : list byte) (keyType : byte) : result PeerID :=
  check! validatePublicKeyLen publicKey keyType;
  let! hashType := CanonicalHashType keyType in
  derivePeerID publicKey keyType hashType.

(** [None] is the [panic]. *)
Definition PeerIDFromEd25519PublicKey `{Base58} (publicKey : list byte) : option PeerID :=
  match derivePeerID publicKey KeyTypeEd25519 HashTypeIdentity with Ok p => Some p | Err _ => None end.

Definition PeerIDFromPublicKeyWithHashType `{Base58} (publicKey : list byte) (hashType : byte)
  : result PeerID :=
  if decide (hashType <> HashTypeIdentity) then Err auth_failed
  else derivePeerID publicKey KeyTypeEd25519 hashType.

Record Keypair := { kp_KeyType : byte; kp_PrivateKey : list byte; kp_PublicKey : list byte }.

(** [None] is the [panic]. *)
Definition PeerIDFromKeypair `{Base58} (k : Keypair) : option PeerID :=
  match PeerIDFromPublicKey (kp_PublicKey k) (kp_KeyType k) with Ok p => Some p | Err _ => None end.

(** ** Decoding *)

Record DecodedPeerID := { KeyType : byte; HashType : byte; dec_Digest : list byte }.

Definition Decode `{Base58} (p : PeerID) : result DecodedPeerID :=
  let! raw := of_option auth_failed (base58_Decode p) in
  let! (keyType, ktN) := readVarintU8 raw in
  let! (hashType, htN) := readVarintU8 (skipn ktN raw) in
  let digestStart := (ktN + htN)%nat in
  if (length raw <=? digestStart)%nat then Err auth_failed
  else Ok {| KeyType := keyType; HashType := hashType; dec_Digest := skipn digestStart raw |}.

(** [Some (pub, keyType)] is [ok = true]. *)
Definition DerivePeerFromPeerID `{Base58} (p : PeerID) : option (list byte * byte) :=
  match Decode p with
  | Err _ => None
  | Ok dec =>
      if decide (HashType dec <> HashTypeIdentity) then None
      else match validatePublicKeyLen (dec_Digest dec) (KeyType dec) with
      | Err _ => None
      | Ok _ => Some (dec_Digest dec, KeyType dec)
      end
  end.

Definition PeerID_Validate `{Base58} (p : PeerID) : result unit :=
  let! dec := Decode p in
  let kt := KeyType dec in
  let n := length (dec_Digest dec) in
  if decide (kt <> KeyTypeEd25519 /\ kt <> KeyTypeEd448 /\ kt <> KeyTypeExperimentalTest)
  then Err auth_failed
  else if decide (HashType dec = HashTypeIdentity) then
    if decide (kt = KeyTypeEd25519) then guard (negb (n =? Ed25519PublicKeyLen)%nat) auth_failed (Ok tt)
    else if decide (kt = KeyTypeEd448) then guard (negb (n =? Ed448PublicKeyLen)%nat) auth_failed (Ok tt)
    else guard (negb (n =? ExperimentalTestPublicKeyLen)%nat) auth_failed (Ok tt)
  else if decide (HashType dec = HashTypeSHA256) then
    guard (negb (n =? SHA256DigestLen)%nat) auth_failed (Ok tt)
  else Err auth_failed.

Definition CanonicalizePeerID `{Base58} (p : PeerID) : option PeerID :=
  match Decode p with
  | Err _ => None
  | Ok dec =>
      match CanonicalHashType (KeyType dec) with
      | Err _ => None
      | Ok ct =>
          if decide (HashType dec = ct) then
            match PeerID_Validate p with Err _ => None | Ok _ => Some p end
          else match DerivePeerFromPeerID p with
          | None => None
          | Some (pub, keyType) =>
              match PeerIDFromPublicKey pub keyType with Err _ => None | Ok cp => Some cp end
          end
      end
  end.

(** The two element-by-element loops are the equality of the slices. *)
Definition VerifyPublicKey `{Base58} (p : PeerID) (pub : list byte) : bool :=
  match Decode p with
  | Err _ => false
  | Ok dec =>
      if decide (HashType dec = HashTypeIdentity) then bool_decide (dec_Digest dec = pub)
      else if decide (HashType dec = HashTypeSHA256) then bool_decide (dec_Digest dec = sha256_sum pub)
      else false
  end.

(** ** Signatures *)

Definition Verify `{Signing} (keyType : byte) (publicKey message signature : list byte) : bool :=
  if decide (keyType = KeyTypeEd25519) then
    if negb (length publicKey =? Ed25519PublicKeyLen)%nat then false
    else ed25519_Verify publicKey message signature
  else if decide (keyType = KeyTypeEd448) then
    if negb (length publicKey =? Ed448PublicKeyLen)%nat then false
    else if negb (length signature =? Ed448SignatureLen)%nat then false
    else ed448_Verify publicKey message signature
  else false.

(** ** Lemmas *)

Lemma byte_hi_bit b : (bZ b <? 0x80) = false -> Zb (Z.lor (bZ b) 0x80) = b.
Proof. destruct b; vm_compute; (discriminate || reflexivity). Qed.

Lemma readVarintU8_append v rest :
  bZ v <> 0xFF ->
  readVarintU8 (appendVarintU8 [] v ++ rest) = Ok (v, length (appendVarintU8 [] v)).
Proof.
  intros Hv. unfold appendVarintU8. destruct (bZ v <? 0x80) eqn:E; cbn [app length readVarintU8].
  - by rewrite E.
  - rewrite (byte_hi_bit v E), E. change (0x80 <=? bZ Byte.x01) with false.
    change (0x01 <? bZ Byte.x01) with false.
    assert (Zb (Z.lor (Z.land (bZ v) 0x7F) (Z.shiftl (bZ Byte.x01) 7)) = v) as ->.
    { revert E. clear. destruct v; vm_compute; (discriminate || reflexivity). }
    by apply Z.eqb_neq in Hv as ->.
Qed.

Lemma appendVarintU8_app buf v : appendVarintU8 buf v = buf ++ appendVarintU8 [] v.
Proof. unfold appendVarintU8. by destruct (bZ v <? 0x80). Qed.

Lemma appendVarintU8_nonempty v rest : appendVarintU8 [] v ++ rest <> [].
Proof. unfold appendVarintU8. by destruct (bZ v <? 0x80). Qed.

(** The digest that [derivePeerID] puts in the id. *)
Definition peer_digest (pub : list byte) (hashType : byte) : list byte :=
  if decide (hashType = HashTypeIdentity) then pub else sha256_sum pub.

Definition key_len (keyType : byte) : nat :=
  if decide (keyType = KeyTypeEd25519) then Ed25519PublicKeyLen
  else if decide (keyType = KeyTypeEd448) then Ed448PublicKeyLen
  else ExperimentalTestPublicKeyLen.

Definition known_key_type (kt : byte) : Prop :=
  kt = KeyTypeEd25519 \/ kt = KeyTypeEd448 \/ kt = KeyTypeExperimentalTest.

Lemma validatePublicKeyLen_ok pub kt :
  validatePublicKeyLen pub kt = Ok tt <-> known_key_type kt /\ length pub = key_len kt.
Proof.
  unfold validatePublicKeyLen, known_key_type, key_len.
  repeat case_decide; subst; rewrite ?guard_ok, ?negb_false_iff, ?Nat.eqb_eq; try tauto.
  split; [done|]. intros ([?|[?|?]] & _); done.
Qed.

Lemma key_len_pos kt : (0 < key_len kt)%nat.
Proof. unfold key_len. repeat case_decide; unfold Ed25519PublicKeyLen, Ed448PublicKeyLen, ExperimentalTestPublicKeyLen; lia. Qed.

Section derive.
Context `{Base58Laws}.

Lemma derivePeerID_inv pub kt ht p :
  derivePeerID pub kt ht = Ok p ->
  bZ kt <> 0xFF /\ bZ ht <> 0xFF /\ (ht = HashTypeIdentity \/ ht = HashTypeSHA256)
  /\ (ht = HashTypeIdentity -> validatePublicKeyLen pub kt = Ok tt)
  /\ p = base58_Encode (appendVarintU8 [] kt ++ appendVarintU8 [] ht ++ peer_digest pub ht).
Proof.
  unfold derivePeerID, peer_digest.
  destruct (bZ kt =? 0xFF) eqn:E1; [done|]. destruct (bZ ht =? 0xFF) eqn:E2; [done|].
  bool_prop. intros Hd. inv_ok. rewrite (appendVarintU8_app (appendVarintU8 [] kt)), <- app_assoc.
  split_and!; try done.
  all: revert H1; repeat case_decide; intros Hx; inv_ok; try done; auto.
  by destruct x0.
Qed.

Lemma peer_digest_nonempty pub kt ht :
  (ht = HashTypeIdentity -> validatePublicKeyLen pub kt = Ok tt) ->
  (0 < length (peer_digest pub ht))%nat.
Proof.
  intros Hv. unfold peer_digest. case_decide.
  - apply Hv, validatePublicKeyLen_ok in H1 as [_ ->]. apply key_len_pos.
  - rewrite length_sha256_sum. lia.
Qed.

(** Decoding any text of the layout gives its parts back. *)
Lemma Decode_layout kt ht d :
  bZ kt <> 0xFF -> bZ ht <> 0xFF -> d <> [] ->
  Decode (base58_Encode (appendVarintU8 [] kt ++ appendVarintU8 [] ht ++ d))
  = Ok {| KeyType := kt; HashType := ht; dec_Digest := d |}.
Proof.
  intros Hk Hh Hd. unfold Decode. rewrite base58_roundtrip by apply appendVarintU8_nonempty.
  cbn [of_option res_bind]. rewrite readVarintU8_append by done. cbn [res_bind].
  rewrite drop_app_length, readVarintU8_append by done. cbn [res_bind].
  set (A := appendVarintU8 [] kt). set (B := appendVarintU8 [] ht).
  assert (Hdrop : skipn (length A + length B) (A ++ B ++ d) = d)
    by (rewrite app_assoc, <- length_app; apply drop_app_length).
  rewrite Hdrop, !length_app. destruct d as [|x d]; [done|]. cbn [length].
  destruct (_ <=? _)%nat eqn:E; [bool_prop; lia|done].
Qed.

Lemma Decode_derived pub kt ht p :
  derivePeerID pub kt ht = Ok p ->
  Decode p = Ok {| KeyType := kt; HashType := ht; dec_Digest := peer_digest pub ht |}.
Proof.
  intros (Hk & Hh & _ & Hv & ->)%derivePeerID_inv.
  apply Decode_layout; [done..|].
  pose proof (peer_digest_nonempty _ _ _ Hv) as Hl. intros E. rewrite E in Hl. simpl in Hl. lia.
Qed.

Lemma PeerIDFromPublicKey_inv pub kt p :
  PeerIDFromPublicKey pub kt = Ok p ->
  known_key_type kt /\ length pub = key_len kt
  /\ exists ht, CanonicalHashType kt = Ok ht /\ derivePeerID pub kt ht = Ok p.
Proof.
  unfold PeerIDFromPublicKey. intros Hp. inv_ok. destruct x.
  apply validatePublicKeyLen_ok in H1 as [Hk Hl]. eauto.
Qed.

Lemma CanonicalHashType_ok kt ht :
  CanonicalHashType kt = Ok ht <->
  (kt = KeyTypeEd25519 /\ ht = HashTypeIdentity)
  \/ ((kt = KeyTypeEd448 \/ kt = KeyTypeExperimentalTest) /\ ht = HashTypeSHA256).
Proof.
  unfold CanonicalHashType. repeat case_decide; subst; (split; [intros [= <-]|]); auto.
  all: intros [[? ->]|[[?|?] ->]]; (done || congruence).
Qed.

(** A minted id is well formed. *)
Lemma Validate_derived pub kt ht p :
  known_key_type kt -> derivePeerID pub kt ht = Ok p -> PeerID_Validate p = Ok tt.
Proof.
  intros Hk Hp. unfold PeerID_Validate. rewrite (Decode_derived _ _ _ _ Hp).
  apply derivePeerID_inv in Hp as (_ & _ & Hh & Hv & _).
  cbn [res_bind KeyType HashType dec_Digest]. unfold known_key_type in Hk.
  case_decide as Hn; [tauto|]. clear Hn. destruct Hh as [-> | ->].
  - rewrite decide_True by done. specialize (Hv eq_refl).
    apply validatePublicKeyLen_ok in Hv as [_ Hl].
    change (peer_digest pub HashTypeIdentity) with pub. rewrite Hl. destruct Hk as [-> | [-> | ->]]; reflexivity.
  - rewrite decide_False, decide_True by done.
    change (peer_digest pub HashTypeSHA256) with (sha256_sum pub). by rewrite length_sha256_sum.
Qed.

Lemma Canonicalize_minted pub kt p :
  PeerIDFromPublicKey pub kt = Ok p -> CanonicalizePeerID p = Some p.
Proof.
  intros (Hk & _ & ht & Hc & Hp)%PeerIDFromPublicKey_inv.
  unfold CanonicalizePeerID. rewrite (Decode_derived _ _ _ _ Hp). cbn [KeyType HashType].
  rewrite Hc, decide_True by done. by rewrite (Validate_derived _ _ _ _ Hk Hp).
Qed.

Lemma Canonicalize_cases p q :
  CanonicalizePeerID p = Some q ->
  q = p \/ exists pub kt, DerivePeerFromPeerID p = Some (pub, kt) /\ PeerIDFromPublicKey pub kt = Ok q.
Proof.
  unfold CanonicalizePeerID. intros Hq. repeat (destr_in Hq; try done); simplify_eq; eauto.
Qed.

(** Minting and parsing peer ids agree. A peer id minted for a public key
    decodes to that key's type, the canonical hash type of that key type and
    the key (or its SHA-256); it is well formed, it verifies against the key it
    was minted for, and it is its own canonical form. *)
Theorem peer_id_mint_roundtrip (pub : list byte) (kt : byte) (p : PeerID) :
  PeerIDFromPublicKey pub kt = Ok p ->
  exists ht, CanonicalHashType kt = Ok ht
    /\ Decode p = Ok {| KeyType := kt; HashType := ht; dec_Digest := peer_digest pub ht |}
    /\ PeerID_Validate p = Ok tt
    /\ VerifyPublicKey p pub = true
    /\ CanonicalizePeerID p = Some p.
Proof.
  intros Hm. pose proof (Canonicalize_minted _ _ _ Hm) as Hcan.
  apply PeerIDFromPublicKey_inv in Hm as (Hk & _ & ht & Hc & Hp).
  exists ht. split_and!; try done.
  - by apply Decode_derived.
  - by eapply Validate_derived.
  - unfold VerifyPublicKey. rewrite (Decode_derived _ _ _ _ Hp). cbn [HashType dec_Digest].
    apply derivePeerID_inv in Hp as (_ & _ & Hh & _ & _). unfold peer_digest.
    destruct Hh as [-> | ->]; repeat (rewrite ?decide_True, ?decide_False by done);
      by apply bool_decide_eq_true.
Qed.

(** Canonicalisation is idempotent, so comparing canonical forms is
    well defined; and its result is always a well-formed id of an allocated key
    type whose hash type is the canonical one of that key type. *)
Theorem CanonicalizePeerID_idempotent (p q : PeerID) :
  CanonicalizePeerID p = Some q ->
  CanonicalizePeerID q = Some q
  /\ PeerID_Validate q = Ok tt
  /\ exists dec, Decode q = Ok dec /\ CanonicalHashType (KeyType dec) = Ok (HashType dec).
Proof.
  intros Hq. destruct (Canonicalize_cases _ _ Hq) as [->|(pub & kt & _ & Hm)].
  - split; [done|]. revert Hq. unfold CanonicalizePeerID. intros Hq.
    destruct (Decode p) as [dec|] eqn:Hd; [|done].
    destruct (CanonicalHashType (KeyType dec)) as [ct|] eqn:Hc; [|done]. case_decide.
    + destruct (PeerID_Validate p) as [[]|]; [|done]. split; [done|]. exists dec. by subst.
    + destruct (DerivePeerFromPeerID p) as [[pub kt]|] eqn:Hdp; [|done].
      destruct (PeerIDFromPublicKey pub kt) as [cp|] eqn:Hm; [|done]. simplify_eq.
      apply PeerIDFromPublicKey_inv in Hm as (Hk & _ & ht & Hc' & Hp).
      split; [by eapply Validate_derived|].
      rewrite (Decode_derived _ _ _ _ Hp) in Hd. simplify_eq. cbn in *. congruence.
  - split; [by eapply Canonicalize_minted|].
    apply PeerIDFromPublicKey_inv in Hm as (Hk & _ & ht & Hc & Hp).
    split; [by eapply Validate_derived|]. eexists. split; [by eapply Decode_derived|done].
Qed.

End derive.

(** ** A concrete instance of the interface

    Two alphabet characters per byte.  It is not Base58, but it satisfies the
    laws, so the theorems above are not vacuous and can be evaluated. *)

Definition nibble_char (n : Z) : ascii :=
  match String.get (Z.to_nat n) base58Alphabet with Some c => c | None => "1"%char end.

Fixpoint nibble_encode (l : list byte) : string :=
  match l with
  | [] => EmptyString
  | b :: l' => String (nibble_char (bZ b / 16)) (String (nibble_char (bZ b mod 16)) (nibble_encode l'))
  end.

Fixpoint nibble_decode (s : string) : option (list byte) :=
  match s with
  | EmptyString => Some []
  | String a (String b s') =>
      match IndexByte base58Alphabet a, IndexByte base58Alphabet b, nibble_decode s' with
      | Some x, Some y, Some l => Some (Zb (16 * Z.of_nat x + Z.of_nat y) :: l)
      | _, _, _ => None
      end
  | _ => None
  end.

Definition nibble58 : Base58 := {|
  base58_Encode := nibble_encode;
  base58_Decode s := match s with EmptyString => None | _ => nibble_decode s end
|}.

Lemma nibble_byte b :
  IndexByte base58Alphabet (nibble_char (bZ b / 16)) = Some (Z.to_nat (bZ b / 16))
  /\ IndexByte base58Alphabet (nibble_char (bZ b mod 16)) = Some (Z.to_nat (bZ b mod 16)).
Proof. destruct b; split; reflexivity. Qed.

Lemma nibble_roundtrip l : nibble_decode (nibble_encode l) = Some l.
Proof.
  induction l as [|b l IH]; [done|]. cbn [nibble_encode nibble_decode]. destruct (nibble_byte b) as [-> ->]. rewrite IH.
  pose proof (bZ_range b).
  rewrite !Z2Nat.id by (apply Z.div_pos || apply Z.mod_pos_bound; lia).
  by rewrite <- Z.div_mod, Zb_bZ by lia.
Qed.

Lemma nibble_alphabet s : forall l, nibble_decode s = Some l -> str_forallb in_alphabet s = true.
Proof.
  enough (Hs : forall n s, (slen s <= n)%nat -> forall l, nibble_decode s = Some l -> str_forallb in_alphabet s = true)
    by (intros l; eapply Hs; reflexivity).
  induction n as [|n IH]; intros [|a [|b t]] Hn l Hd; cbn [nibble_decode str_forallb slen] in *;
    try done; try lia.
  unfold in_alphabet at 1 2.
  destruct (IndexByte base58Alphabet a); [|done]. destruct (IndexByte base58Alphabet b); [|done].
  destruct (nibble_decode t) eqn:E; [|done]. simpl. eapply IH; [|done]. lia.
Qed.

Definition nibble58_laws : @Base58Laws nibble58.
Proof.
  constructor; simpl.
  - intros [|b l] Hb; [done|]. apply (nibble_roundtrip (b :: l)).
  - intros [|a s] b; [done|]. apply nibble_alphabet.
Qed.

Lemma peer_id_mint_roundtrip_witness :
  exists p, @PeerIDFromPublicKey nibble58 (replicate 32 Byte.x41) KeyTypeEd25519 = Ok p
    /\ @VerifyPublicKey nibble58 p (replicate 32 Byte.x41) = true.
Proof.
  eexists. split; [reflexivity|].
  edestruct (@peer_id_mint_roundtrip nibble58 nibble58_laws (replicate 32 Byte.x41) KeyTypeEd25519)
    as (ht & _ & _ & _ & Hv & _); [reflexivity|exact Hv].
Defined.

(** An identity-form Ed448 id, whose canonical form is another text. *)
Definition ed448_identity_text : PeerID :=
  @base58_Encode nibble58 (KeyTypeEd448 :: HashTypeIdentity :: replicate 57 Byte.x07).

Lemma CanonicalizePeerID_idempotent_witness :
  exists q, @CanonicalizePeerID nibble58 ed448_identity_text = Some q
    /\ @CanonicalizePeerID nibble58 q = Some q.
Proof.
  destruct (@CanonicalizePeerID nibble58 ed448_identity_text) as [q|] eqn:E.
  - exists q. split; [reflexivity|].
    apply (@CanonicalizePeerID_idempotent nibble58 nibble58_laws ed448_identity_text q E).
  - exfalso. revert E. vm_compute. discriminate.
Defined.

(** ** Canonical forms are not unique

    [readVarintU8] also reads overlong two-byte forms, so for every Ed25519 key
    there are two different texts that decode to the same identity and are both
    their own canonical form; comparing canonical forms then tells one identity
    from itself. *)
Definition overlong_ed25519 `{Base58} (pub : list byte) : PeerID :=
  base58_Encode (Byte.x81 :: Byte.x00 :: HashTypeIdentity :: pub).

Theorem canonical_peer_id_not_unique `{Base58Laws} (pub : list byte) (p : PeerID) :
  PeerIDFromPublicKey pub KeyTypeEd25519 = Ok p ->
  CanonicalizePeerID p = Some p
  /\ CanonicalizePeerID (overlong_ed25519 pub) = Some (overlong_ed25519 pub)
  /\ Decode (overlong_ed25519 pub) = Decode p
  /\ overlong_ed25519 pub <> p.
Proof.
  intros Hm. pose proof (Canonicalize_minted _ _ _ Hm) as Hcan.
  apply PeerIDFromPublicKey_inv in Hm as (Hk & Hl & ht & Hc & Hp).
  assert (ht = HashTypeIdentity) as -> by (vm_compute in Hc; by simplify_eq).
  assert (Hdec : Decode (overlong_ed25519 pub) = Decode p).
  { rewrite (Decode_derived _ _ _ _ Hp). change (peer_digest pub HashTypeIdentity) with pub.
    unfold Decode, overlong_ed25519. rewrite base58_roundtrip by done. simpl.
    by destruct pub. }
  split_and!; try done.
  - unfold CanonicalizePeerID, PeerID_Validate. rewrite Hdec, (Decode_derived _ _ _ _ Hp).
    cbn [res_bind KeyType HashType dec_Digest]. rewrite Hc, decide_True by done.
    change (peer_digest pub HashTypeIdentity) with pub. by rewrite Hl.
  - apply derivePeerID_inv in Hp as (_ & _ & _ & _ & ->). unfold overlong_ed25519.
    intros Heq. apply (f_equal base58_Decode) in Heq.
    rewrite !base58_roundtrip in Heq by done. by simplify_eq.
Qed.
