(* ===== verification/Entity.v ===== *)
(** * Entities, envelopes and URIs ([core/entity])

    [Module Ent] is [entity.go], [Module Env] is [envelope.go] and [Module URI]
    is [uri.go].  A Go map is a [gmap]; a [range] over one visits the entries in
    an order of the runtime's choice, given by class [MapOrder]. *)

From Stdlib Require Import Ascii.
From S2P Require Import Prelude GoStrings Sha2 Errors Ecf Hash.

(** ** Entities *)

Record Entity := mkEntity { Type_ : string; Data : list byte; ContentHash : Hash }.

Global Instance Entity_eq_dec : EqDecision Entity.
Proof. solve_decision. Defined.

Abbreviation invalid_entity := ([ErrInvalidEntity] : GoErr).

Module Ent.
Section entity.
Context `{HashableCodec}.

Definition typeFloorPinned : string := "system/peer".
Definition floorPinnedAlgorithm : byte := AlgorithmSHA256.

Definition NewEntityFormat (alg : byte) (entityType : string) (data : list byte) : result Entity :=
  if String.eqb entityType "" then Err invalid_entity
  else if (length data =? 0)%nat then Err invalid_entity
  else if String.eqb entityType typeFloorPinned && negb (bool_decide (alg = floorPinnedAlgorithm))
  then Err invalid_entity
  else
    let! h := ComputeFormat alg entityType data in
    Ok (mkEntity entityType data h).

(** [defaultHashAlgorithm] is the process-wide authoring format. *)
Definition NewEntity (defaultHashAlgorithm : byte) (entityType : string) (data : list byte)
  : result Entity := NewEntityFormat defaultHashAlgorithm entityType data.

Definition Validate (e : Entity) : result unit :=
  if String.eqb (Type_ e) "" then Err invalid_entity
  else if (length (Data e) =? 0)%nat then Err invalid_entity
  else Hash.Validate (Type_ e) (Data e) (ContentHash e).

Lemma Validate_iff e :
  Validate e = Ok tt <->
  Type_ e <> "" /\ Data e <> [] /\ ComputeFormat (Algorithm (ContentHash e)) (Type_ e) (Data e) = Ok (ContentHash e).
Proof.
  unfold Validate. destruct (String.eqb_spec (Type_ e) "") as [->|Ht]; [by intuition|].
  destruct (Data e) as [|b d] eqn:Hd; simpl; [by intuition|].
  rewrite Validate_ok. split; [intros ?; by split_and!|tauto].
Qed.

Lemma NewEntityFormat_ok alg ty data e :
  NewEntityFormat alg ty data = Ok e -> Type_ e = ty /\ Data e = data.
Proof.
  unfold NewEntityFormat. destruct (String.eqb ty ""); [done|]. destruct (length data =? 0)%nat; [done|].
  destruct (_ && _); [done|]. intros He. by inv_ok.
Qed.

(** What the constructor returns. A constructed entity has the requested
    type and data, passes [Validate], carries the requested format, and is never
    a [system/peer] entity outside the SHA-256 floor; the constructor fails with
    [ErrInvalidEntity] exactly on an empty type, empty data or an off-floor
    [system/peer]. *)
Theorem NewEntityFormat_spec (alg : byte) (ty : string) (data : list byte) :
  match NewEntityFormat alg ty data with
  | Ok e => Type_ e = ty /\ Data e = data /\ Validate e = Ok tt
            /\ Algorithm (ContentHash e) = alg
            /\ (ty = "system/peer" -> alg = AlgorithmSHA256)
  | Err er => er = invalid_entity /\ (ty = "" \/ data = [] \/ ty = "system/peer" /\ alg <> AlgorithmSHA256)
              \/ ComputeFormat alg ty data = Err er
  end.
Proof.
  unfold NewEntityFormat.
  destruct (String.eqb_spec ty "") as [->|Ht]; [by left; auto|].
  destruct data as [|b d] eqn:Hdata; [by left; auto|]. cbn [length Nat.eqb]. rewrite <- Hdata.
  destruct (String.eqb_spec ty typeFloorPinned) as [Hp|Hp]; cbn [andb].
  - destruct (bool_decide_reflect (alg = floorPinnedAlgorithm)) as [->|Hn]; cbn [negb]; [|left; auto].
    destruct (ComputeFormat _ ty data) as [h|er] eqn:Hc; cbn [res_bind]; [|by right].
    pose proof (ComputeFormat_wf _ _ _ _ Hc) as (_ & Ha & _). split_and!; try done.
    apply Validate_iff. cbn. rewrite Ha, Hc. by subst.
  - destruct (ComputeFormat _ ty data) as [h|er] eqn:Hc; cbn [res_bind]; [|by right].
    pose proof (ComputeFormat_wf _ _ _ _ Hc) as (_ & Ha & _). split_and!; try done.
    apply Validate_iff. cbn. rewrite Ha, Hc. by subst.
Qed.
End entity.
End Ent.

(** ** Map iteration *)

(** [map_range site args m]: the order in which the [range] statement numbered
    [site], reached with arguments [args], visits [m].  Go fixes no order, and
    two ranges over one map may differ. *)
Class MapOrder := {
  map_range : nat -> list Hash -> gmap Hash Entity -> list (Hash * Entity);
  map_range_perm site args m : map_range site args m ≡ₚ map_to_list m
}.

Lemma elem_of_map_range `{MapOrder} site args m h e :
  (h, e) ∈ map_range site args m <-> m !! h = Some e.
Proof. by rewrite (map_range_perm site args m), elem_of_map_to_list. Qed.

(** The order of [map_to_list]. *)
Definition default_order : MapOrder :=
  {| map_range _ _ m := map_to_list m; map_range_perm _ _ _ := reflexivity _ |}.
(** The opposite order. *)
Definition reverse_order : MapOrder.
Proof.
  refine {| map_range _ _ m := reverse (map_to_list m) |}.
  intros _ _ m. apply reverse_Permutation.
Defined.

(** The first error of a [range] loop body, if any. *)
Fixpoint for_each {A} (body : A -> result unit) (l : list A) : result unit :=
  match l with
  | [] => Ok tt
  | x :: l' => check! body x; for_each body l'
  end.

Lemma for_each_ok {A} (body : A -> result unit) l :
  for_each body l = Ok tt <-> forall x, x ∈ l -> body x = Ok tt.
Proof.
  induction l as [|x l IH]; simpl.
  - split; [intros _ x Hx; by apply not_elem_of_nil in Hx|done].
  - rewrite res_bind_ok. setoid_rewrite elem_of_cons. split.
    + intros ([] & Hx & Hl) y [->|Hy]; [done|]. by apply IH.
    + intros Ha. exists tt. split; [apply Ha; by left|]. apply IH. auto.
Qed.

(** ** Envelopes *)

Record Envelope := mkEnvelope { Root : Entity; Included : gmap Hash Entity }.

Global Instance Envelope_eq_dec : EqDecision Envelope.
Proof. solve_decision. Defined.

(** [ecf.ForbidTags] as the error it returns.  [None] does not occur on a slice
    of a length Go can represent; see [ForbidTags_total]. *)
Definition forbid_tags (data : list byte) : result unit :=
  match ForbidTags data with
  | Some (Ok _) => Ok tt
  | Some (Err e) => Err (ecf_sentinel e)
  | None => Err [ErrNonCanonicalECF]
  end.

Module Env.
Section envelope.
Context `{HashableCodec, MapOrder}.

(** Numbers of the [range] statements of [envelope.go]. *)
Definition site_find_signature : nat := 0.
Definition site_key_binding : nat := 1.
Definition site_forbid_tags : nat := 2.

Definition FindIncluded (e : Envelope) (h : Hash) : option Entity := Included e !! h.

(** [decode_target] is [ecf.Decode] into the one-field struct [{target}]. *)
Definition FindSignatureFor (decode_target : list byte -> option Hash) (e : Envelope) (target : Hash)
  : option Entity :=
  snd <$> List.find
    (fun p => String.eqb (Type_ (snd p)) "system/signature"
              && match decode_target (Data (snd p)) with
                 | Some t => bool_decide (t = target)
                 | None => false
                 end)
    (map_range site_find_signature [target] (Included e)).

Definition VerifyIncludedKeyBinding (included : gmap Hash Entity) : result unit :=
  for_each (fun p : Hash * Entity =>
    check! Ent.Validate (snd p);
    if decide (fst p = ContentHash (snd p)) then Ok tt else Err invalid_entity)
    (map_range site_key_binding [] included).

Definition ValidateAll (e : Envelope) : result unit :=
  check! Ent.Validate (Root e);
  check! forbid_tags (Data (Root e));
  check! VerifyIncludedKeyBinding (Included e);
  for_each (fun p : Hash * Entity => forbid_tags (Data (snd p)))
    (map_range site_forbid_tags [] (Included e)).

Definition Include (e : Envelope) (ent : Entity) : Envelope :=
  match ComputeFormat (Algorithm (ContentHash ent)) (Type_ ent) (Data ent) with
  | Ok h => mkEnvelope (Root e) (<[h := mkEntity (Type_ ent) (Data ent) h]> (Included e))
  | Err _ => mkEnvelope (Root e) (<[ContentHash ent := ent]> (Included e))
  end.

(** Every entry is self-consistent and filed under its own hash. *)
Definition key_bound (included : gmap Hash Entity) : Prop :=
  forall h e, included !! h = Some e -> Ent.Validate e = Ok tt /\ ContentHash e = h.

Lemma VerifyIncludedKeyBinding_iff included :
  VerifyIncludedKeyBinding included = Ok tt <-> key_bound included.
Proof.
  unfold VerifyIncludedKeyBinding, key_bound. rewrite for_each_ok. split.
  - intros Hf h e He. specialize (Hf (h, e)). rewrite elem_of_map_range in Hf.
    specialize (Hf He). cbn in Hf. inv_ok. destruct x.
    destruct (decide (h = ContentHash e)); [done|discriminate].
  - intros Hb [h e] He%elem_of_map_range. cbn. destruct (Hb h e He) as [-> Hh].
    cbn. by rewrite decide_True.
Qed.

Lemma Include_key_bound e ent :
  key_bound (Included e) ->
  Type_ ent <> "" -> Data ent <> [] ->
  is_ok (ComputeFormat (Algorithm (ContentHash ent)) (Type_ ent) (Data ent)) = true ->
  key_bound (Included (Include e ent)).
Proof.
  intros Hb Ht Hd Hok. unfold Include.
  destruct (ComputeFormat _ (Type_ ent) (Data ent)) as [h|] eqn:Hc; [|done].
  cbn [Included]. intros h' e'. rewrite lookup_insert_Some. intros [[<- <-]|[_ Hl]]; [|by apply Hb].
  split; [|done]. apply Ent.Validate_iff. cbn.
  pose proof (ComputeFormat_wf _ _ _ _ Hc) as (_ & Ha & _). by rewrite Ha.
Qed.

(** The map-key binding refuses substitution. Whatever order the map is
    walked in, an accepted [included] map holds under each key [h] only an
    entity that validates and whose content hash is [h]; so an entity [e] filed
    under the hash of a genuine entity [g] has the same canonical encoding as
    [g], or the two encodings collide under the digest function of [h]. *)
Theorem included_key_binding_no_substitution (included : gmap Hash Entity) (h : Hash) (e g : Entity) :
  VerifyIncludedKeyBinding included = Ok tt ->
  included !! h = Some e ->
  Ent.Validate g = Ok tt -> ContentHash g = h ->
  ContentHash e = h /\ Ent.Validate e = Ok tt
  /\ exists enc enc', EncodeHashable (Type_ e) (Data e) = Some enc
     /\ EncodeHashable (Type_ g) (Data g) = Some enc'
     /\ (enc = enc' \/ digest_collision (Algorithm h) enc enc').
Proof.
  intros Hb%VerifyIncludedKeyBinding_iff He Hg Hgh.
  destruct (Hb h e He) as [Hv Hh]. split_and!; [done..|].
  apply Ent.Validate_iff in Hg as (_ & _ & Hg), Hv as (_ & _ & Hv). rewrite Hgh in Hg. rewrite Hh in Hv.
  unfold ComputeFormat in *. inv_ok. eexists _, _. split_and!; [done..|]. by eapply OfBytes_inj.
Qed.

(** [Include] keys by content. It preserves the key binding for any entity
    whose hash can be recomputed, whatever [ContentHash] the caller stamped on
    it, and the added entity is found under its genuine hash. *)
Theorem Include_preserves_key_binding (e : Envelope) (ent : Entity) (h : Hash) :
  VerifyIncludedKeyBinding (Included e) = Ok tt ->
  Type_ ent <> "" -> Data ent <> [] ->
  ComputeFormat (Algorithm (ContentHash ent)) (Type_ ent) (Data ent) = Ok h ->
  VerifyIncludedKeyBinding (Included (Include e ent)) = Ok tt
  /\ FindIncluded (Include e ent) h = Some (mkEntity (Type_ ent) (Data ent) h)
  /\ forall h', h' <> h -> FindIncluded (Include e ent) h' = FindIncluded e h'.
Proof.
  rewrite !VerifyIncludedKeyBinding_iff. intros Hb Ht Hd Hc. split_and!.
  - apply Include_key_bound; [done..|]. by rewrite Hc.
  - unfold Include, FindIncluded. rewrite Hc. cbn. apply lookup_insert_eq.
  - intros h' Hne. unfold Include, FindIncluded. rewrite Hc. cbn. by apply lookup_insert_ne.
Qed.

(** [ValidateAll] accepts an envelope exactly when the root validates and
    is tag free, and every included entity validates, is filed under its own
    hash and is tag free; the verdict does not depend on the iteration order. *)
Theorem ValidateAll_iff (e : Envelope) :
  ValidateAll e = Ok tt <->
  Ent.Validate (Root e) = Ok tt /\ forbid_tags (Data (Root e)) = Ok tt
  /\ forall h ent, Included e !! h = Some ent ->
       Ent.Validate ent = Ok tt /\ ContentHash ent = h /\ forbid_tags (Data ent) = Ok tt.
Proof.
  unfold ValidateAll. split.
  - intros Hv. inv_ok. repeat match goal with x : unit |- _ => destruct x end.
    apply VerifyIncludedKeyBinding_iff in H3. rewrite for_each_ok in Hv.
    split_and!; [done..|]. intros h ent He. destruct (H3 h ent He) as [Ha Hb].
    split_and!; [done..|]. apply (Hv (h, ent)). by apply elem_of_map_range.
  - intros (-> & -> & Hi). cbn [res_bind].
    rewrite (proj2 (VerifyIncludedKeyBinding_iff (Included e))).
    + cbn [res_bind]. apply for_each_ok. intros [h ent] He%elem_of_map_range. by apply (Hi h ent).
    + intros h ent He. destruct (Hi h ent He) as (? & ? & _). auto.
Qed.

Lemma FindSignatureFor_sound decode e t ent :
  FindSignatureFor decode e t = Some ent ->
  exists h, Included e !! h = Some ent /\ Type_ ent = "system/signature" /\ decode (Data ent) = Some t.
Proof.
  unfold FindSignatureFor. rewrite fmap_Some. intros ([h e'] & Hf & Heq). cbn in Heq. subst e'.
  apply find_some in Hf as [Hin Hp]. apply list_elem_of_In, elem_of_map_range in Hin.
  exists h. cbn in Hp. bool_prop. destruct (decode (Data ent)); [|done]. bool_prop. subst. auto.
Qed.
End envelope.
End Env.

(** Two hashable entities and an envelope of them, for the witnesses. *)
Section witnesses.
Definition toy_hash (ty : string) (d : list byte) : Hash :=
  match @ComputeFormat toy_hashable AlgorithmSHA256 ty d with Ok h => h | Err _ => zero_hash end.
Definition toy_entity (ty : string) (d : list byte) : Entity := mkEntity ty d (toy_hash ty d).

Lemma toy_compute ty d :
  @ComputeFormat toy_hashable AlgorithmSHA256 ty d = Ok (toy_hash ty d).
Proof. reflexivity. Qed.

Lemma toy_entity_valid ty d :
  ty <> "" -> d <> [] -> @Ent.Validate toy_hashable (toy_entity ty d) = Ok tt.
Proof.
  intros Ht Hd. apply (@Ent.Validate_iff toy_hashable). cbn [Type_ Data ContentHash toy_entity].
  split_and!; [done..|]. apply toy_compute.
Qed.

Definition toy_included : gmap Hash Entity :=
  {[ toy_hash "a" [Byte.x01] := toy_entity "a" [Byte.x01] ]}.

Lemma toy_included_bound : @Env.VerifyIncludedKeyBinding toy_hashable default_order toy_included = Ok tt.
Proof.
  apply (@Env.VerifyIncludedKeyBinding_iff toy_hashable default_order).
  intros h e. unfold toy_included. intros [<- <-]%lookup_singleton_Some. split; [by apply toy_entity_valid|done].
Qed.
End witnesses.

Lemma included_key_binding_no_substitution_witness :
  ContentHash (toy_entity "a" [Byte.x01]) = toy_hash "a" [Byte.x01].
Proof.
  apply (@Env.included_key_binding_no_substitution toy_hashable default_order
           toy_included (toy_hash "a" [Byte.x01]) (toy_entity "a" [Byte.x01]) (toy_entity "a" [Byte.x01])).
  - apply toy_included_bound.
  - apply lookup_singleton_eq.
  - by apply toy_entity_valid.
  - reflexivity.
Defined.

(** The entity is stamped with another hash; it is filed under its own. *)
Lemma Include_preserves_key_binding_witness :
  @Env.VerifyIncludedKeyBinding toy_hashable default_order
    (Included (@Env.Include toy_hashable (mkEnvelope (toy_entity "a" [Byte.x01]) toy_included)
                 (mkEntity "b" [Byte.x02] (toy_hash "a" [Byte.x01])))) = Ok tt.
Proof.
  apply (@Env.Include_preserves_key_binding toy_hashable default_order
           (mkEnvelope (toy_entity "a" [Byte.x01]) toy_included)
           (mkEntity "b" [Byte.x02] (toy_hash "a" [Byte.x01])) (toy_hash "b" [Byte.x02])).
  - apply toy_included_bound.
  - discriminate.
  - discriminate.
  - apply toy_compute.
Defined.

(** ** URIs *)

Module URI.
Definition Scheme : string := "entity://".

Record URI := mkURI { PeerID_ : string; Path : string }.

Definition ParseURI (s : string) : result URI :=
  if negb (HasPrefix s Scheme) then Err invalid_entity
  else
    let rest := str_drop (slen Scheme) s in
    if String.eqb rest "" then Err invalid_entity
    else match IndexByte rest "/" with
    | None => Ok (mkURI rest "")
    | Some idx => Ok (mkURI (str_take idx rest) (str_drop (idx + 1) rest))
    end.

Definition URIString (u : URI) : string :=
  if String.eqb (Path u) "" then Scheme +:+ PeerID_ u
  else Scheme +:+ PeerID_ u +:+ "/" +:+ Path u.

Definition NormalizePath (uri : string) : string :=
  if HasPrefix uri Scheme then "/" +:+ str_drop (slen Scheme) uri else uri.

Definition PathToURI (path : string) : string := Scheme +:+ TrimPrefix path "/".

Definition ExtractHandlerPath (uri : string) : string :=
  let normalized := NormalizePath uri in
  if negb (HasPrefix normalized "/") then normalized
  else
    let rest := str_drop 1 normalized in
    match IndexByte rest "/" with
    | None => rest
    | Some idx => str_drop (idx + 1) rest
    end.

Lemma ParseURI_scheme rest :
  rest <> "" ->
  ParseURI (Scheme +:+ rest)
  = match IndexByte rest "/" with
    | None => Ok (mkURI rest "")
    | Some idx => Ok (mkURI (str_take idx rest) (str_drop (idx + 1) rest))
    end.
Proof.
  intros Hr. unfold ParseURI. rewrite HasPrefix_append, str_drop_append.
  cbn [negb]. by destruct (String.eqb_spec rest "").
Qed.

Lemma ParseURI_parts peer path :
  IndexByte peer "/" = None ->
  ParseURI (Scheme +:+ peer +:+ "/" +:+ path) = Ok (mkURI peer path).
Proof.
  intros Hp. rewrite ParseURI_scheme by (destruct peer; done).
  change ("/" +:+ path) with (String "/" path).
  rewrite IndexByte_append by done.
  rewrite str_take_append, Nat.add_comm. do 2 f_equal.
  clear. induction peer as [|a peer IH]; [by destruct path|].
  rewrite append_cons. exact IH.
Qed.

(** Parsing inverts printing. A URI whose peer part is non-empty and has
    no slash is recovered from its text; and every text that parses prints back
    to itself, except that a trailing slash after the peer part is dropped. *)
Theorem uri_roundtrip (u : URI) (s : string) :
  (PeerID_ u <> "" -> IndexByte (PeerID_ u) "/" = None -> ParseURI (URIString u) = Ok u)
  /\ (ParseURI s = Ok u -> URIString u = s \/ s = URIString u +:+ "/").
Proof.
  split.
  - intros Hne Hp. unfold URIString. destruct (String.eqb_spec (Path u) "") as [He|He].
    + rewrite ParseURI_scheme, Hp by done. rewrite <- He. by destruct u.
    + rewrite ParseURI_parts by done. by destruct u.
  - unfold ParseURI. destruct (HasPrefix s Scheme) eqn:Hs; [|done]. cbn [negb].
    apply HasPrefix_spec in Hs as [rest ->]. rewrite str_drop_append.
    destruct (String.eqb_spec rest ""); [done|].
    destruct (IndexByte rest "/") as [i|] eqn:Hi; intros [= <-]; unfold URIString; cbn [Path PeerID_].
    + apply IndexByte_Some in Hi as (Heq & _ & _). rewrite <- (Nat.add_1_r i) in Heq.
      destruct (String.eqb_spec (str_drop (i + 1) rest) "") as [He|He].
      * right. rewrite He in Heq. rewrite append_assoc. f_equal. exact Heq.
      * left. f_equal. symmetry. exact Heq.
    + by left.
Qed.

(** The two spellings of an absolute path are handled alike: an entity URI
    and the absolute path it normalises to give the same handler path, which is
    what follows the peer segment. *)
Theorem ExtractHandlerPath_spellings (peer path : string) :
  IndexByte peer "/" = None ->
  ExtractHandlerPath (Scheme +:+ peer +:+ "/" +:+ path) = path
  /\ ExtractHandlerPath ("/" +:+ peer +:+ "/" +:+ path) = path
  /\ NormalizePath (Scheme +:+ peer +:+ "/" +:+ path) = "/" +:+ peer +:+ "/" +:+ path
  /\ PathToURI ("/" +:+ peer +:+ "/" +:+ path) = Scheme +:+ peer +:+ "/" +:+ path.
Proof.
  intros Hp.
  assert (Hn : NormalizePath (Scheme +:+ peer +:+ "/" +:+ path) = "/" +:+ peer +:+ "/" +:+ path).
  { unfold NormalizePath. by rewrite HasPrefix_append, str_drop_append. }
  assert (Hh : forall s, NormalizePath s = "/" +:+ peer +:+ "/" +:+ path -> ExtractHandlerPath s = path).
  { intros s Hs. unfold ExtractHandlerPath. rewrite Hs.
    change ("/" +:+ peer +:+ "/" +:+ path) with (String "/" (peer +:+ String "/" path)).
    cbn [HasPrefix Ascii.eqb negb andb Bool.eqb str_drop].
    rewrite IndexByte_append by done.
    rewrite Nat.add_comm. clear. induction peer as [|a peer IH]; [by destruct path|].
    rewrite append_cons. exact IH. }
  split_and!; [by apply Hh|apply Hh; reflexivity|done|].
  unfold PathToURI. by rewrite TrimPrefix_append.
Qed.

Lemma uri_roundtrip_witness :
  ParseURI (URIString (mkURI "peer" "a/b")) = Ok (mkURI "peer" "a/b").
Proof.
  apply (proj1 (uri_roundtrip (mkURI "peer" "a/b") "")); [discriminate|reflexivity].
Defined.

Lemma ExtractHandlerPath_spellings_witness :
  ExtractHandlerPath ("entity://" +:+ "p" +:+ "/" +:+ "system/tree") = "system/tree".
Proof. apply (proj1 (ExtractHandlerPath_spellings "p" "system/tree" eq_refl)). Defined.
End URI.
