(* ===== verification/Wire.v ===== *)
(** * Framing and the envelope codec ([core/wire])

    A reader is the list of bytes still to come; a writer is a state and the
    one [Write] call it answers.  The CBOR form of an envelope is third-party
    code: class [EnvelopeCodec]. *)

From S2P Require Import Prelude GoStrings Sha2 Errors Ecf Hash Entity.

Open Scope Z_scope.

Definition MaxFrameSize : Z := 16 * 1024 * 1024.
Definition frameLenSize : nat := 4.

(** [binary.BigEndian.PutUint32] and [Uint32]. *)
Definition put_uint32 (n : Z) : list byte :=
  [Zb (Z.shiftr n 24); Zb (Z.shiftr n 16); Zb (Z.shiftr n 8); Zb n].
Definition get_uint32 (b : list byte) : Z :=
  fold_left (fun acc x => 256 * acc + bZ x) b 0.

(** [io.ReadFull(r, buf)] with [len(buf) = n]: the bytes and the rest of the
    stream, or an error when the stream ends early. *)
Definition ReadFull (n : nat) (r : list byte) : result (list byte * list byte) :=
  if (length r <? n)%nat then Err [] else Ok (firstn n r, skipn n r).

Definition WriteFrame {W} (write : W -> list byte -> option W) (w : W) (data : list byte) : result W :=
  if MaxFrameSize <? Z.of_nat (length data) then Err [ErrFrameTooLarge]
  else of_option [] (write w (put_uint32 (Z.of_nat (length data)) ++ data)).

Definition ReadFrame (r : list byte) : result (list byte * list byte) :=
  let! (lenBuf, r) := ReadFull frameLenSize r in
  let length_ := get_uint32 lenBuf in
  if MaxFrameSize <? length_ then Err [ErrFrameTooLarge]
  else ReadFull (Z.to_nat length_) r.

Class EnvelopeCodec := {
  EncodeEnvelope : Envelope -> option (list byte);
  DecodeEnvelope : list byte -> option Envelope
}.

Class EnvelopeCodecLaws `{EnvelopeCodec} := {
  envelope_decode_encode e data : EncodeEnvelope e = Some data -> DecodeEnvelope data = Some e
}.

Section codec.
Context `{EnvelopeCodec, HashableCodec, MapOrder}.

Definition WriteEnvelope {W} (write : W -> list byte -> option W) (w : W) (env : Envelope) : result W :=
  let! data := of_option [] (EncodeEnvelope env) in
  WriteFrame write w data.

Definition ReadEnvelopeNoValidate (r : list byte) : result (Envelope * list byte) :=
  let! (data, r) := ReadFrame r in
  let! env := of_option [ErrEnvelopeDecode] (DecodeEnvelope data) in
  Ok (env, r).

Definition ReadEnvelope (r : list byte) : result (Envelope * list byte) :=
  let! (env, r) := ReadEnvelopeNoValidate r in
  check! Env.ValidateAll env;
  Ok (env, r).
End codec.

(** A writer that appends to a buffer, as [bytes.Buffer] and a byte stream do. *)
Definition buffer_write (buf data : list byte) : option (list byte) := Some (buf ++ data).

Lemma get_put_uint32 n : 0 <= n < 2 ^ 32 -> get_uint32 (put_uint32 n) = n.
Proof.
  intros Hn. unfold get_uint32, put_uint32. cbn [fold_left]. rewrite !bZ_Zb, !Z.shiftr_div_pow2 by lia.
  change (2 ^ 24) with 16777216. change (2 ^ 16) with 65536. change (2 ^ 8) with 256.
  change (2 ^ 32) with 4294967296 in Hn.
  pose proof (Z.div_mod n 256 ltac:(lia)). pose proof (Z.div_mod (n / 256) 256 ltac:(lia)).
  pose proof (Z.div_mod (n / 256 / 256) 256 ltac:(lia)).
  rewrite !Z.div_div in * by lia. change (256 * 256) with 65536 in *. change (65536 * 256) with 16777216 in *.
  assert (0 <= n / 16777216 < 256).
  { split; [apply Z.div_pos; lia|apply Z.div_lt_upper_bound; lia]. }
  rewrite (Z.mod_small (n / 16777216)) by lia. lia.
Qed.

Lemma get_uint32_range b : length b = 4%nat -> 0 <= get_uint32 b < 2 ^ 32.
Proof.
  destruct b as [|a [|b [|c [|d [|]]]]]; try discriminate. intros _. unfold get_uint32. cbn [fold_left].
  pose proof (bZ_range a). pose proof (bZ_range b). pose proof (bZ_range c). pose proof (bZ_range d). lia.
Qed.

Lemma ReadFull_app n a r : length a = n -> ReadFull n (a ++ r) = Ok (a, r).
Proof.
  intros <-. unfold ReadFull. rewrite length_app, take_app_length, drop_app_length.
  destruct (_ <? _)%nat eqn:E; [bool_prop; lia|done].
Qed.

Lemma ReadFull_ok n r a r' : ReadFull n r = Ok (a, r') <-> r = a ++ r' /\ length a = n.
Proof.
  split.
  - unfold ReadFull. destruct (_ <? _)%nat eqn:E; [done|]. bool_prop. intros [= <- <-].
    rewrite take_drop, length_take. split; [done|lia].
  - intros [-> Hl]. by apply ReadFull_app.
Qed.

Lemma WriteFrame_buffer buf data w :
  WriteFrame buffer_write buf data = Ok w <->
  Z.of_nat (length data) <= MaxFrameSize /\ w = buf ++ put_uint32 (Z.of_nat (length data)) ++ data.
Proof.
  unfold WriteFrame, buffer_write. destruct (_ <? _) eqn:E; bool_prop; simpl.
  - split; [done|lia].
  - split; [by intros [= <-]|by intros [_ ->]].
Qed.

Lemma ReadFrame_app data rest :
  Z.of_nat (length data) <= MaxFrameSize ->
  ReadFrame (put_uint32 (Z.of_nat (length data)) ++ data ++ rest) = Ok (data, rest).
Proof.
  intros Hl. unfold ReadFrame. rewrite ReadFull_app by done. cbn [res_bind].
  rewrite get_put_uint32 by (unfold MaxFrameSize in Hl; lia).
  destruct (_ <? _) eqn:E; bool_prop; [lia|].
  apply ReadFull_app. lia.
Qed.

(** The frames a sequence of [WriteFrame] calls leaves in the buffer, in order. *)
Fixpoint WriteFrames (buf : list byte) (frames : list (list byte)) : result (list byte) :=
  match frames with
  | [] => Ok buf
  | f :: fs => let! buf := WriteFrame buffer_write buf f in WriteFrames buf fs
  end.

Fixpoint ReadFrames (n : nat) (r : list byte) : result (list (list byte) * list byte) :=
  match n with
  | O => Ok ([], r)
  | S n' =>
      let! (f, r) := ReadFrame r in
      let! (fs, r) := ReadFrames n' r in
      Ok (f :: fs, r)
  end.

(** A sequence of frames written to a stream is read back exactly, frame
    by frame, whatever follows in the stream. *)
Theorem frames_roundtrip (frames : list (list byte)) (buf rest : list byte) :
  WriteFrames [] frames = Ok buf -> ReadFrames (length frames) (buf ++ rest) = Ok (frames, rest).
Proof.
  assert (Hgen : forall frames pre buf, WriteFrames pre frames = Ok buf ->
    exists body, buf = pre ++ body /\ ReadFrames (length frames) (body ++ rest) = Ok (frames, rest)).
  { clear. induction frames as [|f fs IH]; intros pre buf Hw; simpl in Hw.
    - inv_ok. exists []. by rewrite app_nil_r.
    - inv_ok. apply WriteFrame_buffer in H as [Hl ->]. apply IH in Hw as (body & -> & Hr).
      exists (put_uint32 (Z.of_nat (length f)) ++ f ++ body). split; [by rewrite <- !app_assoc|].
      cbn [length ReadFrames].
      rewrite <- !app_assoc, ReadFrame_app by done. cbn [res_bind]. by rewrite Hr. }
  intros Hw. destruct (Hgen _ _ _ Hw) as (body & -> & Hr). exact Hr.
Qed.

Lemma frames_roundtrip_witness :
  exists buf, WriteFrames [] [[Byte.x01; Byte.x02]; []] = Ok buf
    /\ ReadFrames 2 (buf ++ [Byte.xff]) = Ok ([[Byte.x01; Byte.x02]; []], [Byte.xff]).
Proof.
  eexists. split; [reflexivity|].
  apply (frames_roundtrip [[Byte.x01; Byte.x02]; []] _ [Byte.xff]). reflexivity.
Defined.

(** Exactly which streams yield a frame: a four-byte big-endian length of
    at most 16 MiB followed by that many bytes. A length over the bound fails
    with [ErrFrameTooLarge], whether or not the payload is there. *)
Theorem ReadFrame_iff (r data rest : list byte) :
  (ReadFrame r = Ok (data, rest) <->
     exists lenBuf, r = lenBuf ++ data ++ rest /\ length lenBuf = 4%nat
       /\ get_uint32 lenBuf = Z.of_nat (length data) /\ Z.of_nat (length data) <= MaxFrameSize)
  /\ (forall lenBuf tl, r = lenBuf ++ tl -> length lenBuf = 4%nat ->
        MaxFrameSize < get_uint32 lenBuf -> ReadFrame r = Err [ErrFrameTooLarge]).
Proof.
  split; [split|].
  - unfold ReadFrame. intros Hr. inv_ok. destruct x as [lb r']. apply ReadFull_ok in H as [-> Hl].
    pose proof (get_uint32_range lb Hl).
    destruct (_ <? _) eqn:E; bool_prop; [done|]. apply ReadFull_ok in Hr as [-> Hd].
    exists lb. split_and!; try done; lia.
  - intros (lb & -> & Hl & Hg & Hm). unfold ReadFrame. rewrite ReadFull_app by done. cbn [res_bind].
    rewrite Hg. destruct (_ <? _) eqn:E; bool_prop; [lia|]. apply ReadFull_app. lia.
  - intros lb tl -> Hl Hg. unfold ReadFrame. rewrite ReadFull_app by done. cbn [res_bind].
    destruct (_ <? _) eqn:E; bool_prop; [done|lia].
Qed.

(** A written envelope is read back when it validates and is refused with
    the validation error when it does not; a frame that is not an envelope is
    refused with [ErrEnvelopeDecode]. *)
Theorem envelope_wire_roundtrip `{EnvelopeCodecLaws, HashableCodec, MapOrder}
    (env : Envelope) (buf data rest : list byte) :
  (WriteEnvelope buffer_write [] env = Ok buf ->
     ReadEnvelopeNoValidate (buf ++ rest) = Ok (env, rest)
     /\ ReadEnvelope (buf ++ rest) = (check! Env.ValidateAll env; Ok (env, rest)))
  /\ (WriteFrame buffer_write [] data = Ok buf -> DecodeEnvelope data = None ->
     ReadEnvelope (buf ++ rest) = Err [ErrEnvelopeDecode]).
Proof.
  split.
  - unfold WriteEnvelope. intros Hw. inv_ok.
    apply WriteFrame_buffer in Hw as [Hl ->]. rewrite app_nil_l, <- app_assoc.
    assert (Hr : ReadEnvelopeNoValidate (put_uint32 (Z.of_nat (length x)) ++ x ++ rest) = Ok (env, rest)).
    { unfold ReadEnvelopeNoValidate. rewrite ReadFrame_app by done. cbn [res_bind].
      by rewrite (envelope_decode_encode env x). }
    split; [done|]. unfold ReadEnvelope. by rewrite Hr.
  - intros [Hl ->]%WriteFrame_buffer Hd. rewrite app_nil_l, <- app_assoc.
    unfold ReadEnvelope, ReadEnvelopeNoValidate. rewrite ReadFrame_app by done.
    cbn [res_bind]. by rewrite Hd.
Qed.

(** A codec of envelopes with no included entities, to instantiate the laws. *)
Definition toy_envelope_codec : EnvelopeCodec := {|
  EncodeEnvelope e :=
    if decide (e = mkEnvelope (toy_entity "a" [Byte.x01]) ∅) then Some [Byte.x00] else None;
  DecodeEnvelope d :=
    if decide (d = [Byte.x00]) then Some (mkEnvelope (toy_entity "a" [Byte.x01]) ∅) else None
|}.

Lemma toy_envelope_codec_laws : @EnvelopeCodecLaws toy_envelope_codec.
Proof. constructor. intros e data. cbn. repeat case_decide; intros; by simplify_eq. Qed.

Lemma envelope_wire_roundtrip_witness :
  exists buf, @WriteEnvelope toy_envelope_codec _ buffer_write []
                (mkEnvelope (toy_entity "a" [Byte.x01]) ∅) = Ok buf
    /\ @ReadEnvelopeNoValidate toy_envelope_codec (buf ++ []) =
       Ok (mkEnvelope (toy_entity "a" [Byte.x01]) ∅, []).
Proof.
  assert (Hw : @WriteEnvelope toy_envelope_codec _ buffer_write []
    (mkEnvelope (toy_entity "a" [Byte.x01]) ∅) = Ok (put_uint32 1 ++ [Byte.x00])).
  { unfold WriteEnvelope. cbn [EncodeEnvelope toy_envelope_codec]. by rewrite decide_True. }
  eexists. split; [exact Hw|].
  apply (proj1 (@envelope_wire_roundtrip toy_envelope_codec toy_envelope_codec_laws toy_hashable
           default_order _ _ [] []) Hw).
Defined.
