(* ===== verification/Paths.v ===== *)
(** * Tree paths ([core/store/store.go], the path functions)

    The functions that qualify, split, validate and clean tree paths; the
    stores, the capability checks and the handlers share them. *)

From Stdlib Require Import Ascii.
From S2P Require Import Prelude GoStrings Errors Hash Entity PeerID.

(** ** Qualifying and splitting *)

Definition QualifyPath (ns path : string) : string := "/" +:+ ns +:+ "/" +:+ path.

Definition SplitNamespace (path : string) : string * string :=
  if negb (HasPrefix path "/") then ("", path)
  else
    let rest := str_drop 1 path in
    match IndexByte rest "/" with
    | None => (rest, "")
    | Some idx => (str_take idx rest, str_drop (idx + 1) rest)
    end.

(** ** Validation *)

(** [range s] visits runes: the alphabet is ASCII, so a string has every rune in
    it exactly when it has every byte in it. *)
Definition looksLikePeerID (s : string) : bool :=
  if (slen s <? 46)%nat then false else str_forallb in_alphabet s.

Definition IsAbsolute (path : string) : bool := HasPrefix path "/".

Definition URLPathReservedContent : string := "content".
Definition URLPathReservedManifest : string := "manifest".

Definition IsURLPathXReservedWord (s : string) : bool :=
  String.eqb s URLPathReservedContent || String.eqb s URLPathReservedManifest.

Definition ValidateURLPathXSegment (s : string) : result unit :=
  if String.eqb s "" then Err []
  else if IsURLPathXReservedWord s then Ok tt
  else if looksLikePeerID s then Ok tt
  else Err [].

Definition control_char (c : ascii) : bool :=
  (nat_of_ascii c <? 0x20)%nat || (nat_of_ascii c =? 0x7F)%nat.

Definition ValidatePathChars (p : string) : result unit :=
  if str_forallb (fun c => negb (control_char c)) p then Ok tt else Err [].

Definition ValidateAbsolutePath (p : string) : result unit :=
  if negb (HasPrefix p "/") then Err []
  else
    check! ValidatePathChars p;
    let rest := str_drop 1 p in
    if String.eqb rest "" then Err []
    else if Contains rest "//" then Err []
    else
      let firstSeg := match IndexByte rest "/" with None => rest | Some idx => str_take idx rest end in
      if negb (looksLikePeerID firstSeg) then Err [] else Ok tt.

Definition IsSafePathSegment (s : string) : bool :=
  if String.eqb s "" || String.eqb s "." || String.eqb s ".." then false
  else if Contains s "/" then false
  else is_ok (ValidatePathChars s).

Definition SanitizePathSegment (s sentinel : string) : string :=
  if IsSafePathSegment s then s else sentinel.

(** ** [path.Clean] of the Go library, and [CleanPath] *)

Fixpoint split_slash (s : string) : list string :=
  match s with
  | EmptyString => [""]
  | String c s' =>
      let r := split_slash s' in
      if Ascii.eqb c "/" then "" :: r
      else match r with [] => [String c ""] | x :: r' => String c x :: r' end
  end.

Fixpoint join_slash (l : list string) : string :=
  match l with
  | [] => ""
  | [s] => s
  | s :: l' => s +:+ "/" +:+ join_slash l'
  end.

(** One segment of the lexical walk; the segments kept so far, last first. *)
Definition clean_step (rooted : bool) (stack : list string) (seg : string) : list string :=
  if String.eqb seg "" || String.eqb seg "." then stack
  else if String.eqb seg ".." then
    match stack with
    | [] => if rooted then [] else [".."]
    | top :: stack' => if String.eqb top ".." then ".." :: stack else stack'
    end
  else seg :: stack.

Definition path_Clean (p : string) : string :=
  if String.eqb p "" then "."
  else
    let rooted := HasPrefix p "/" in
    let out := (if rooted then "/" else "") +:+
               join_slash (rev (fold_left (clean_step rooted) (split_slash p) [])) in
    if String.eqb out "" then "." else out.

Fixpoint CleanPath_fuel (fuel : nat) (input : string) : string :=
  if String.eqb input "" then input
  else if HasPrefix input URI.Scheme then
    match fuel with
    | O => input
    | S fuel' =>
        let cleaned := CleanPath_fuel fuel' (str_drop (slen URI.Scheme) input) in
        URI.Scheme +:+ TrimPrefix cleaned "/"
    end
  else if HasPrefix input "./" || HasPrefix input "../" then input
  else path_Clean input.

(** Each recursive call is on a strictly shorter string. *)
Definition CleanPath (input : string) : string := CleanPath_fuel (slen input) input.

(** ** Lemmas *)

Lemma CleanPath_fuel_enough n m s :
  (slen s <= n)%nat -> (slen s <= m)%nat -> CleanPath_fuel n s = CleanPath_fuel m s.
Proof.
  revert m s. induction n as [|n IH]; intros m s Hn Hm.
  - destruct s; [|simpl in *; lia]. by destruct m.
  - destruct m as [|m]; [destruct s; [done|simpl in *; lia]|]. cbn [CleanPath_fuel].
    destruct (String.eqb s ""); [done|]. destruct (HasPrefix s URI.Scheme) eqn:E; [|done].
    apply HasPrefix_spec in E as [t ->]. rewrite str_drop_append.
    rewrite slen_append in *. cbn in Hn, Hm. do 2 f_equal. apply IH; lia.
Qed.

(** [CleanPath] satisfies the recursive equation of the source: it terminates
    with the fuel given. *)
Lemma CleanPath_unfold input :
  CleanPath input =
  if String.eqb input "" then input
  else if HasPrefix input URI.Scheme
  then URI.Scheme +:+ TrimPrefix (CleanPath (str_drop (slen URI.Scheme) input)) "/"
  else if HasPrefix input "./" || HasPrefix input "../" then input
  else path_Clean input.
Proof.
  unfold CleanPath. destruct (slen input) as [|n] eqn:Hn.
  - destruct input; [done|discriminate].
  - cbn [CleanPath_fuel]. destruct (String.eqb input ""); [done|].
    destruct (HasPrefix input URI.Scheme) eqn:E; [|done].
    apply HasPrefix_spec in E as [t ->]. rewrite str_drop_append. do 2 f_equal.
    rewrite slen_append in Hn. cbn in Hn. apply CleanPath_fuel_enough; lia.
Qed.

Lemma SplitNamespace_Qualify ns path :
  IndexByte ns "/" = None -> SplitNamespace (QualifyPath ns path) = (ns, path).
Proof.
  intros Hns. unfold SplitNamespace, QualifyPath.
  change ("/" +:+ ns +:+ "/" +:+ path) with (String "/" (ns +:+ String "/" path)).
  cbn [HasPrefix Ascii.eqb Bool.eqb negb andb str_drop]. rewrite IndexByte_append by done.
  rewrite str_take_append, Nat.add_1_r. f_equal.
  clear. induction ns as [|a ns IH]; [by destruct path|]. rewrite append_cons. exact IH.
Qed.

Lemma str_forallb_app p s t : str_forallb p (s +:+ t) = str_forallb p s && str_forallb p t.
Proof. induction s as [|a s IH]; [done|]. rewrite append_cons. cbn. by rewrite IH, andb_assoc. Qed.

(** A peer-id-shaped segment contains no slash. *)
Lemma alphabet_no_slash s : str_forallb in_alphabet s = true -> IndexByte s "/" = None.
Proof.
  induction s as [|a s IH]; [done|]. cbn [str_forallb IndexByte]. intros [Ha Hs]%andb_true_iff.
  destruct (Ascii.eqb_spec a "/") as [->|]; [discriminate Ha|]. by rewrite IH.
Qed.

Lemma looksLikePeerID_no_slash s : looksLikePeerID s = true -> IndexByte s "/" = None.
Proof. unfold looksLikePeerID. destruct (_ <? _)%nat; [done|]. apply alphabet_no_slash. Qed.

Lemma looksLikePeerID_nonempty s : looksLikePeerID s = true -> s <> "".
Proof. by intros H ->. Qed.

Lemma Contains_slash s : Contains s "/" = false <-> IndexByte s "/" = None.
Proof.
  induction s as [|a s IH]; [done|]. cbn [Contains HasPrefix IndexByte]. rewrite andb_true_r.
  destruct (Ascii.eqb_spec "/" a) as [<-|Hne]; [done|]. cbn [orb].
  destruct (Ascii.eqb_spec a "/") as [->|]; [done|]. rewrite IH.
  destruct (IndexByte s "/"); done.
Qed.

Lemma IsSafePathSegment_ok s :
  IsSafePathSegment s = true <->
  s <> "" /\ s <> "." /\ s <> ".." /\ IndexByte s "/" = None /\ ValidatePathChars s = Ok tt.
Proof.
  unfold IsSafePathSegment.
  destruct (String.eqb_spec s "") as [->|H1]; cbn [orb]; [split; [done|tauto]|].
  destruct (String.eqb_spec s ".") as [->|H2]; cbn [orb]; [split; [done|tauto]|].
  destruct (String.eqb_spec s "..") as [->|H3]; cbn [orb]; [split; [done|tauto]|].
  rewrite <- Contains_slash. destruct (Contains s "/"); [split; [done|intros (_ & _ & _ & ? & _); done]|].
  destruct (ValidatePathChars s) as [[]|]; split; try done. intros (_ & _ & _ & _ & ?). done.
Qed.

Lemma split_slash_nonempty s : split_slash s <> [].
Proof. destruct s as [|c s]; simpl; [done|]. destruct (Ascii.eqb c "/"); [done|]. by destruct (split_slash s). Qed.

Lemma split_slash_app s t :
  IndexByte s "/" = None -> split_slash (s +:+ "/" +:+ t) = s :: split_slash t.
Proof.
  change ("/" +:+ t) with (String "/" t).
  induction s as [|a s IH]; intros Hs; [done|]. rewrite append_cons. cbn [split_slash IndexByte] in *.
  destruct (Ascii.eqb a "/"); [done|]. destruct (IndexByte s "/"); [done|]. by rewrite IH.
Qed.

Lemma split_slash_one s : IndexByte s "/" = None -> split_slash s = [s].
Proof.
  induction s as [|a s IH]; intros Hs; [done|]. cbn [split_slash IndexByte] in *.
  destruct (Ascii.eqb a "/"); [done|]. destruct (IndexByte s "/"); [done|]. by rewrite IH.
Qed.

Lemma split_join l : l <> [] -> Forall (fun s => IndexByte s "/" = None) l -> split_slash (join_slash l) = l.
Proof.
  induction l as [|s l IH]; intros Hne Hl; [done|]. apply Forall_cons in Hl as [Hs Hl].
  destruct l as [|s' l]; [by apply split_slash_one|]. cbn [join_slash].
  rewrite split_slash_app by done. f_equal. by apply IH.
Qed.

Lemma clean_safe rooted l acc :
  Forall (fun s => IsSafePathSegment s = true) l ->
  fold_left (clean_step rooted) l acc = rev l ++ acc.
Proof.
  revert acc. induction l as [|s l IH]; intros acc Hl; [done|]. apply Forall_cons in Hl as [Hs Hl].
  cbn [fold_left rev]. rewrite IH by done. rewrite <- app_assoc. f_equal.
  apply IsSafePathSegment_ok in Hs as (H1 & H2 & H3 & _). unfold clean_step.
  by destruct (String.eqb_spec s ""), (String.eqb_spec s "."), (String.eqb_spec s "..").
Qed.

(** An absolute path made of the given segments. *)
Definition abs_path (segs : list string) : string := "/" +:+ join_slash segs.

Lemma CleanPath_abs_path segs :
  segs <> [] -> Forall (fun s => IsSafePathSegment s = true) segs ->
  CleanPath (abs_path segs) = abs_path segs.
Proof.
  intros Hne Hs. rewrite CleanPath_unfold. unfold abs_path.
  change ("/" +:+ join_slash segs) with (String "/" (join_slash segs)).
  cbn [String.eqb HasPrefix Ascii.eqb Bool.eqb andb orb URI.Scheme].
  unfold path_Clean. cbn [String.eqb HasPrefix Ascii.eqb Bool.eqb andb split_slash].
  rewrite split_join; [|done|].
  - cbn [fold_left clean_step String.eqb orb]. rewrite clean_safe by done.
    rewrite app_nil_r, rev_involutive. reflexivity.
  - eapply Forall_impl; [done|]. intros s Hsafe. by apply IsSafePathSegment_ok in Hsafe as (_ & _ & _ & ? & _).
Qed.

(** A sanitised value names exactly one level. A path built from segments
    each of which went through [SanitizePathSegment] with a safe sentinel is a
    fixed point of [CleanPath], and splits into exactly those segments: no
    caller-supplied value adds a level, removes one or walks out of the
    subtree. *)
Theorem sanitized_path_stable (raw : list string) (sentinel : string) :
  raw <> [] -> IsSafePathSegment sentinel = true ->
  let segs := map (fun s => SanitizePathSegment s sentinel) raw in
  CleanPath (abs_path segs) = abs_path segs /\ split_slash (join_slash segs) = segs.
Proof.
  intros Hne Hsen segs.
  assert (Hs : Forall (fun s => IsSafePathSegment s = true) segs).
  { subst segs. apply Forall_forall. intros x (y & -> & _)%list_elem_of_fmap.
    unfold SanitizePathSegment. by destruct (IsSafePathSegment y) eqn:E. }
  assert (Hn : segs <> []) by (by destruct raw).
  split; [by apply CleanPath_abs_path|]. apply split_join; [done|].
  eapply Forall_impl; [done|]. intros s Hsafe. by apply IsSafePathSegment_ok in Hsafe as (_ & _ & _ & ? & _).
Qed.

Lemma sanitized_path_stable_witness :
  CleanPath (abs_path (map (fun s => SanitizePathSegment s "invalid") ["a"; "../../x"; "b"]))
  = "/a/invalid/b".
Proof.
  destruct (sanitized_path_stable ["a"; "../../x"; "b"] "invalid") as [H _]; [discriminate|reflexivity|].
  rewrite H. reflexivity.
Defined.

(** An accepted absolute path splits into a peer-id-shaped namespace and
    a bare path that qualify back to it (a path with no second slash is the
    namespace root). The reserved URL words are never accepted as a namespace. *)
Theorem ValidateAbsolutePath_splits (p : string) :
  ValidateAbsolutePath p = Ok tt ->
  exists ns bare, SplitNamespace p = (ns, bare) /\ looksLikePeerID ns = true
    /\ (p = QualifyPath ns bare \/ p = "/" +:+ ns /\ bare = "")
    /\ IsURLPathXReservedWord ns = false.
Proof.
  unfold ValidateAbsolutePath. destruct (HasPrefix p "/") eqn:Hp; [|done]. cbn [negb]. intros Hv. inv_ok.
  apply HasPrefix_spec in Hp as [rest ->]. change (str_drop 1 ("/" +:+ rest)) with rest in Hv.
  destruct (String.eqb_spec rest ""); [done|]. destruct (Contains rest "//"); [done|].
  destruct (looksLikePeerID _) eqn:Hpid; cbn [negb] in Hv; [|done]. clear Hv.
  unfold SplitNamespace. rewrite HasPrefix_append. cbn [negb].
  change (str_drop 1 ("/" +:+ rest)) with rest.
  assert (Hres : forall ns, looksLikePeerID ns = true -> IsURLPathXReservedWord ns = false).
  { intros ns Hns. apply orb_false_iff. split; apply String.eqb_neq; intros ->; discriminate Hns. }
  destruct (IndexByte rest "/") as [i|] eqn:Hi.
  - eexists _, _. split_and!; [done|done| |by apply Hres]. left. unfold QualifyPath. f_equal.
    apply IndexByte_Some in Hi as (Heq & _ & _). rewrite Nat.add_1_r. exact Heq.
  - eexists _, _. split_and!; [done|done|by right|by apply Hres].
Qed.

Definition sample_peer : string := "1111111111222222222233333333334444444444555555".

Lemma ValidateAbsolutePath_splits_witness :
  exists ns bare, SplitNamespace (QualifyPath sample_peer "a/b") = (ns, bare) /\ looksLikePeerID ns = true.
Proof.
  destruct (ValidateAbsolutePath_splits (QualifyPath sample_peer "a/b")) as (ns & bare & Hs & Hl & _).
  - vm_compute. reflexivity.
  - exists ns, bare. split; assumption.
Defined.
