(* ===== verification/CapTypes.v ===== *)
(** * Capability data ([core/types]: [granter.go], [system.go], [crypto.go], [protocol.go])

    The typed payloads the capability code reads, and the class [DataCodec] of
    the CBOR decoders ([ecf.Decode] into a struct is third-party code). *)

From S2P Require Import Prelude GoStrings Errors Hash Entity PeerID.

Open Scope Z_scope.

Definition TypePeer : string := "system/peer".
Definition TypeSignature : string := "system/signature".
Definition TypeCapToken : string := "system/capability/token".

(** ** Granters *)

(** [Threshold] is a [uint64]. *)
Record MultiGranter := { Signers : list Hash; Threshold : Z }.

Global Instance MultiGranter_eq_dec : EqDecision MultiGranter.
Proof. solve_decision. Defined.

Fixpoint first_dup (seen : list Hash) (l : list Hash) : bool :=
  match l with
  | [] => false
  | s :: l' => if decide (s ∈ seen) then true else first_dup (s :: seen) l'
  end.

Definition MultiGranter_Validate (mg : MultiGranter) : result unit :=
  let n := Z.of_nat (length (Signers mg)) in
  if n <? 2 then Err []
  else if Threshold mg <? 2 then Err []
  else if n <? Threshold mg then Err []
  else if first_dup [] (Signers mg) then Err []
  else Ok tt.

Definition HasSigner (mg : MultiGranter) (h : Hash) : bool :=
  any (fun s => bool_decide (s = h)) (Signers mg).

(** The struct's [isMulti] flag selects the valid field. *)
Inductive Granter := SingleSigGranter (h : Hash) | MultiSigGranter (mg : MultiGranter).

Global Instance Granter_eq_dec : EqDecision Granter.
Proof. solve_decision. Defined.

Definition IsMulti (g : Granter) : bool :=
  match g with SingleSigGranter _ => false | MultiSigGranter _ => true end.

Definition SingleHash (g : Granter) : option Hash :=
  match g with SingleSigGranter h => Some h | MultiSigGranter _ => None end.

Definition Multi (g : Granter) : option MultiGranter :=
  match g with SingleSigGranter _ => None | MultiSigGranter mg => Some mg end.

Definition Granter_IsZero (g : Granter) : bool :=
  match g with SingleSigGranter h => IsZero h | MultiSigGranter _ => false end.

Definition EqualsHash (g : Granter) (h : Hash) : bool :=
  match g with SingleSigGranter h' => bool_decide (h' = h) | MultiSigGranter _ => false end.

Definition Granter_Validate (g : Granter) : result unit :=
  match g with SingleSigGranter _ => Ok tt | MultiSigGranter mg => MultiGranter_Validate mg end.

(** [Granter.UnmarshalCBOR], over the decoders of a byte string and of the
    [{signers, threshold}] map. *)
Definition Granter_UnmarshalCBOR (decode_bstr : list byte -> option (list byte))
    (decode_multi : list byte -> option MultiGranter) (data : list byte) : result Granter :=
  match data with
  | [] => Err []
  | b0 :: _ =>
      let majorType := Z.land (Z.shiftr (bZ b0) 5) 0x07 in
      if majorType =? 2 then
        let! h := UnmarshalCBOR decode_bstr data in Ok (SingleSigGranter h)
      else if majorType =? 5 then
        let! mg := of_option [] (decode_multi data) in Ok (MultiSigGranter mg)
      else Err []
  end.

(** ** Tokens *)

Record CapabilityScope := mkScope { Include_ : list string; Exclude_ : list string }.

Record GrantEntry := {
  Handlers : CapabilityScope;
  Resources : CapabilityScope;
  Operations : CapabilityScope;
  Peers : option CapabilityScope;
  Constraints : list byte;
  Allowances : list byte
}.

(** The two numbers are [uint64]. *)
Record DelegationCaveats_ := {
  NoDelegation : option bool;
  MaxDelegationDepth : option Z;
  MaxDelegationTTL : option Z
}.

(** The times are [uint64] milliseconds. *)
Record CapabilityTokenData := {
  Grants : list GrantEntry;
  Granter_ : Granter;
  Grantee : Hash;
  Parent : option Hash;
  CreatedAt : Z;
  ExpiresAt : option Z;
  NotBefore : option Z;
  DelegationCaveats : option DelegationCaveats_
}.

Global Instance CapabilityScope_eq_dec : EqDecision CapabilityScope.
Proof. solve_decision. Defined.
Global Instance GrantEntry_eq_dec : EqDecision GrantEntry.
Proof. solve_decision. Defined.
Global Instance DelegationCaveats__eq_dec : EqDecision DelegationCaveats_.
Proof. solve_decision. Defined.
Global Instance CapabilityTokenData_eq_dec : EqDecision CapabilityTokenData.
Proof. solve_decision. Defined.

Definition ValidateStructure (d : CapabilityTokenData) : result unit :=
  check! Granter_Validate (Granter_ d);
  if IsMulti (Granter_ d) && bool_decide (is_Some (Parent d)) then Err []
  else if IsZero (Grantee d) then Err [ErrUnresolvableGrantee]
  else Ok tt.

(** ** Peers, signatures, requests *)

Record PeerData := { PublicKey : list byte; pd_KeyType : string }.

Definition PeerData_KeyTypeByte (d : PeerData) : option byte := KeyTypeByte (pd_KeyType d).

Record SignatureData := {
  Target : Hash; Signer : Hash; sig_Algorithm : string; Signature : list byte
}.

Global Instance SignatureData_eq_dec : EqDecision SignatureData.
Proof. solve_decision. Defined.

Record ResourceTarget := { Targets : list string; rt_Exclude : list string }.

(** The fields of an EXECUTE that authentication and authorization read. *)
Record ExecuteData := {
  RequestID : string;
  URI_ : string;
  Operation : string;
  Resource : option ResourceTarget;
  Params : list byte;
  Author : Hash;
  Capability : Hash
}.

Class DataCodec := {
  DecodeToken : list byte -> option CapabilityTokenData;
  DecodePeer : list byte -> option PeerData;
  DecodeSignature : list byte -> option SignatureData;
  (** [ecf.Decode] into the one-field struct of [Envelope.FindSignatureFor]. *)
  DecodeSigTarget : list byte -> option Hash;
  DecodeExecute : list byte -> option ExecuteData;
  (** [cbor.Unmarshal] into [map[string]cbor.RawMessage]. *)
  DecodeRawMap : list byte -> option (gmap string (list byte))
}.

Section from_entity.
Context `{DataCodec}.

Definition CapabilityTokenDataFromEntity (e : Entity) : result CapabilityTokenData :=
  of_option [] (DecodeToken (Data e)).
Definition PeerDataFromEntity (e : Entity) : result PeerData := of_option [] (DecodePeer (Data e)).
Definition SignatureDataFromEntity (e : Entity) : result SignatureData :=
  of_option [] (DecodeSignature (Data e)).
Definition ExecuteDataFromEntity (e : Entity) : result ExecuteData :=
  of_option [] (DecodeExecute (Data e)).
End from_entity.

(** ** Lemmas *)

Lemma first_dup_false seen l :
  first_dup seen l = false <-> NoDup l /\ forall x, x ∈ l -> x ∉ seen.
Proof.
  revert seen. induction l as [|a l IH]; intros seen; simpl.
  - split; [|done]. split; [constructor|]. intros x Hx. by apply not_elem_of_nil in Hx.
  - case_decide as Ha.
    + split; [done|]. intros [_ Hs]. exfalso. apply (Hs a); [left|done].
    + rewrite IH, NoDup_cons. setoid_rewrite elem_of_cons. split.
      * intros [Hnd Hs]. split_and!; [|done|].
        -- intros Hin. by apply (Hs a Hin); left.
        -- intros x [->|Hx]; [done|]. intros Hin. apply (Hs x Hx). by right.
      * intros [[Hna Hnd] Hs]. split; [done|]. intros x Hx [->|Hin]; [done|]. apply (Hs x); auto.
Qed.

(** The structural rule on a multi-signature granter: K of N with
    [2 <= K <= N] and N distinct signers. *)
Definition multi_wf (mg : MultiGranter) : Prop :=
  2 <= Threshold mg <= Z.of_nat (length (Signers mg)) /\ NoDup (Signers mg).

Lemma MultiGranter_Validate_ok mg : MultiGranter_Validate mg = Ok tt <-> multi_wf mg.
Proof.
  unfold MultiGranter_Validate, multi_wf.
  destruct (Z.ltb_spec (Z.of_nat (length (Signers mg))) 2); [split; [done|lia]|].
  destruct (Z.ltb_spec (Threshold mg) 2); [split; [done|lia]|].
  destruct (Z.ltb_spec (Z.of_nat (length (Signers mg))) (Threshold mg)); [split; [done|lia]|].
  destruct (first_dup [] (Signers mg)) eqn:E; split; try done.
  - intros [_ Hnd]. exfalso.
    assert (first_dup [] (Signers mg) = false); [|congruence].
    apply first_dup_false. split; [done|]. intros x _. apply not_elem_of_nil.
  - intros _. split; [lia|]. by apply first_dup_false in E as [? _].
Qed.

Lemma HasSigner_spec mg h : HasSigner mg h = true <-> h ∈ Signers mg.
Proof.
  unfold HasSigner. rewrite any_true. split.
  - intros (x & Hx & He). bool_prop. by subst.
  - intros Hh. exists h. split; [done|]. by apply bool_decide_eq_true.
Qed.

(** Structurally valid tokens. *)
Definition token_wf (d : CapabilityTokenData) : Prop :=
  (forall mg, Granter_ d = MultiSigGranter mg -> multi_wf mg /\ Parent d = None)
  /\ Grantee d <> zero_hash.

Lemma ValidateStructure_ok d : ValidateStructure d = Ok tt <-> token_wf d.
Proof.
  unfold ValidateStructure, token_wf. destruct (Granter_ d) as [h|mg]; cbn [Granter_Validate IsMulti andb].
  - cbn [res_bind]. unfold IsZero. case_bool_decide; split; try done. by intros [_ ?].
  - destruct (MultiGranter_Validate mg) as [[]|e] eqn:E; cbn [res_bind].
    + apply MultiGranter_Validate_ok in E. unfold IsZero.
      destruct (Parent d) as [p|].
      * rewrite bool_decide_true by eauto. split; [done|]. intros [Hm _]. by destruct (Hm mg eq_refl).
      * rewrite bool_decide_false by (by intros [? ?]). case_bool_decide; split; try done.
        -- by intros [_ ?].
        -- intros _. split; [|done]. by intros mg' [= <-].
    + split; [done|]. intros [Hm _]. destruct (Hm mg eq_refl) as [Hw _].
      apply MultiGranter_Validate_ok in Hw. congruence.
Qed.
