(* ===== verification/Patterns.v ===== *)
(** * Scope patterns ([core/capability/check.go], the matchers)

    Two grammars: path scopes (handlers, resources), matched by
    [MatchesPattern], and id scopes (operations, peers), matched by
    [idScopeMatches].  The lemmas give each matcher a case view and prove that
    both are transitive, which is what makes attenuation of one capability by
    another meaningful. *)

From Stdlib Require Import Ascii.
From S2P Require Import Prelude GoStrings Errors Hash Entity PeerID Paths CapTypes.

(** ** Path patterns *)

Fixpoint MatchesPattern (path pattern : string) {struct pattern} : bool :=
  if String.eqb pattern "*" then true
  else if HasPrefix pattern "/*/" then
    match pattern with
    | String _ (String _ (String _ remainder)) =>
        if (slen path <? 2)%nat || negb (HasPrefix path "/") then false
        else
          let rest := str_drop 1 path in
          match IndexByte rest "/" with
          | None => false
          | Some idx =>
              let pathRest := str_drop (idx + 1) rest in
              MatchesPattern pathRest remainder
          end
    | _ => false
    end
  else if HasSuffix pattern "/*" then
    let prefix := str_take (slen pattern - 1) pattern in
    HasPrefix path prefix
  else String.eqb path pattern.

Definition IsPattern (s : string) : bool := Contains s "*".

Definition IsUnmatchablePattern (pattern : string) : bool :=
  HasPrefix pattern "./" || HasPrefix pattern "../" || HasPrefix pattern "*/".

Definition PatternsOverlap (a b : string) : bool :=
  if String.eqb a "*" || String.eqb b "*" then true
  else if negb (IsPattern a) && negb (IsPattern b) then String.eqb a b
  else if negb (IsPattern a) then MatchesPattern a b
  else if negb (IsPattern b) then MatchesPattern b a
  else
    let aPrefix := TrimSuffix a "/*" in
    let bPrefix := TrimSuffix b "/*" in
    HasPrefix aPrefix bPrefix || HasPrefix bPrefix aPrefix.

Definition Canonicalize (path : string) (localPeerID : PeerID) : string :=
  let after_uri :=
    if HasPrefix path "/" then path
    else if String.eqb path "*" then "/" +:+ localPeerID +:+ "/*"
    else "/" +:+ localPeerID +:+ "/" +:+ path in
  if HasPrefix path "./" || HasPrefix path "../" then path
  else if HasPrefix path "*/" then path
  else if HasPrefix path URI.Scheme then
    match URI.ParseURI path with
    | Ok parsed =>
        if negb (String.eqb (URI.PeerID_ parsed) "") then
          if String.eqb (URI.Path parsed) "" then "/" +:+ URI.PeerID_ parsed
          else "/" +:+ URI.PeerID_ parsed +:+ "/" +:+ URI.Path parsed
        else after_uri
    | Err _ => after_uri
    end
  else after_uri.

Definition scopeContains (value : string) (scope : CapabilityScope) : bool :=
  if negb (any (fun pattern => MatchesPattern value pattern) (Include_ scope)) then false
  else negb (any (fun pattern => IsUnmatchablePattern pattern || MatchesPattern value pattern)
               (Exclude_ scope)).

(** The first unmatchable pattern; [""] when there is none. *)
Definition first_or_empty (l : list string) : string :=
  match List.find IsUnmatchablePattern l with Some p => p | None => "" end.

Definition FirstUnmatchableScopePattern (grants : list GrantEntry) : string :=
  first_or_empty (flat_map (fun g =>
    Include_ (Handlers g) ++ Exclude_ (Handlers g) ++ Include_ (Resources g) ++ Exclude_ (Resources g))
    grants).

Definition isExcluded (target : string) (excludeSet : list string) (localPeerID granterPeerID : PeerID)
  : bool :=
  let canonTarget := Canonicalize target localPeerID in
  any (fun excl =>
    let canonExcl := Canonicalize excl granterPeerID in
    IsUnmatchablePattern canonExcl || MatchesPattern canonTarget canonExcl) excludeSet.

Definition IsCoveredBy (target : string) (patternSet : list string) (localPeerID granterPeerID : PeerID)
  : bool :=
  let canonTarget := Canonicalize target localPeerID in
  any (fun p => MatchesPattern canonTarget (Canonicalize p granterPeerID)) patternSet.

(** ** Id patterns *)

Definition idScopeMatches (pattern value : string) : bool :=
  if String.eqb pattern "*" then true
  else if HasSuffix pattern "/*" then HasPrefix value (str_take (slen pattern - 1) pattern)
  else String.eqb value pattern.

Definition matchesIDScope (value : string) (scope : CapabilityScope) : bool :=
  if negb (any (fun p => idScopeMatches p value) (Include_ scope)) then false
  else negb (any (fun p => idScopeMatches p value) (Exclude_ scope)).

Definition operationsAllow (scope : CapabilityScope) (op : string) : bool := matchesIDScope op scope.

(** ** Peer patterns *)

Inductive peerMatch := peerMatchNo | peerMatchYes | peerMatchUnresolvable.

Global Instance peerMatch_eq_dec : EqDecision peerMatch.
Proof. solve_decision. Defined.

Section peers.
Context `{Base58}.

Definition peerPatternMatches (pattern comparand : string) : peerMatch :=
  if String.eqb pattern "*" || String.eqb pattern comparand then peerMatchYes
  else match CanonicalizePeerID pattern with
  | None => peerMatchUnresolvable
  | Some cpat =>
      match CanonicalizePeerID comparand with
      | Some ccmp => if String.eqb cpat ccmp then peerMatchYes else peerMatchNo
      | None => peerMatchNo
      end
  end.

Definition matchesPeerScope (comparand : string) (scope : CapabilityScope) : bool :=
  if negb (any (fun p => bool_decide (peerPatternMatches p comparand = peerMatchYes)) (Include_ scope))
  then false
  else negb (any (fun p => negb (bool_decide (peerPatternMatches p comparand = peerMatchNo)))
               (Exclude_ scope)).

Definition MatchesPeerScope (peerID : string) (scope : CapabilityScope) (localPeerID : PeerID) : bool :=
  matchesPeerScope peerID scope.
End peers.

(** ** The target peer of a locator *)

Definition isPeerID (segment : string) : bool :=
  if (slen segment <? 46)%nat then false else str_forallb in_alphabet segment.

Definition first_segment (locator : string) : string :=
  let norm := TrimPrefix (URI.NormalizePath locator) "/" in
  match IndexByte norm "/" with Some idx => str_take idx norm | None => norm end.

Definition extractPeer (locator : string) (localPeerID : PeerID) : PeerID :=
  let first := first_segment locator in
  if isPeerID first then first else localPeerID.

Definition ExtractPeerStrict (locator : string) : option PeerID :=
  let first := first_segment locator in
  if isPeerID first then Some first else None.

(** ** A case view of patterns *)

Inductive pattern_view : string -> Type :=
| PStar : pattern_view "*"
| PPeer r : pattern_view ("/*/" +:+ r)
| PSub q : HasPrefix (q +:+ "/*") "/*/" = false -> pattern_view (q +:+ "/*")
| PExact p : p <> "*" -> HasPrefix p "/*/" = false -> HasSuffix p "/*" = false -> pattern_view p.

Lemma HasPrefix_drop s p : HasPrefix s p = true -> s = p +:+ str_drop (slen p) s.
Proof. intros [t ->]%HasPrefix_spec. by rewrite str_drop_append. Qed.

Lemma HasSuffix_drop s p : HasSuffix s p = true -> s = str_take (slen s - slen p) s +:+ p.
Proof.
  intros [t ->]%HasSuffix_spec. rewrite slen_append.
  replace (slen t + slen p - slen p)%nat with (slen t) by lia. by rewrite str_take_append.
Qed.

Definition view (p : string) : pattern_view p.
Proof.
  destruct (String.eqb p "*") eqn:E; [apply String.eqb_eq in E; subst; exact PStar|].
  apply String.eqb_neq in E.
  destruct (HasPrefix p "/*/") eqn:E1; [rewrite (HasPrefix_drop _ _ E1); exact (PPeer _)|].
  destruct (HasSuffix p "/*") eqn:E2.
  - rewrite (HasSuffix_drop _ _ E2). apply PSub. rewrite <- (HasSuffix_drop _ _ E2). exact E1.
  - exact (PExact p E E1 E2).
Defined.

Lemma append_snoc_inj s t a b : s +:+ String a "" = t +:+ String b "" -> s = t /\ a = b.
Proof.
  revert t. induction s as [|x s IH]; intros [|y t]; rewrite ?append_nil, ?append_cons; intros H.
  - by injection H.
  - injection H as _ H. by destruct t.
  - injection H as _ H. by destruct s.
  - injection H as -> H. apply IH in H as [-> ->]. done.
Qed.

Lemma sub_prefix q : str_take (slen (q +:+ "/*") - 1) (q +:+ "/*") = q +:+ "/".
Proof.
  change "/*" with ("/" +:+ "*"). rewrite <- append_assoc, slen_append. simpl (slen "*").
  replace (slen (q +:+ "/") + 1 - 1)%nat with (slen (q +:+ "/")) by lia. apply str_take_append.
Qed.

Lemma sub_not_star q : (q +:+ "/*") <> "*".
Proof. destruct q as [|a [|b q]]; done. Qed.

Section matches_equations.
Implicit Types (a q r s : string).

Lemma Matches_star a : MatchesPattern a "*" = true.
Proof. reflexivity. Qed.

Lemma Matches_peer a r :
  MatchesPattern a ("/*/" +:+ r) = true <->
  exists s a', a = "/" +:+ s +:+ "/" +:+ a' /\ IndexByte s "/" = None /\ MatchesPattern a' r = true.
Proof.
  change ("/*/" +:+ r) with (String "/" (String "*" (String "/" r))).
  cbn [MatchesPattern]. change (HasPrefix (String "/" (String "*" (String "/" r))) "/*/") with true.
  change (String.eqb (String "/" (String "*" (String "/" r))) "*") with false. cbn iota.
  split.
  - destruct (_ || _) eqn:E; [done|]. bool_prop. apply HasPrefix_spec in H0 as [rest ->].
    change (str_drop 1 ("/" +:+ rest)) with rest.
    destruct (IndexByte rest "/") as [i|] eqn:Hi; [|done]. intros Hm.
    apply IndexByte_Some in Hi as (Heq & Hn & _).
    exists (str_take i rest), (str_drop (S i) rest).
    split_and!; [|done|by rewrite <- Nat.add_1_r]. f_equal. exact Heq.
  - intros (s & a' & -> & Hn & Hm).
    change ("/" +:+ a') with (String "/" a'). change ("/" +:+ s +:+ String "/" a') with (String "/" (s +:+ String "/" a')).
    assert (Hlen : (slen (String "/" (s +:+ String "/" a')) <? 2)%nat = false).
    { apply Nat.ltb_ge. simpl. rewrite slen_append. simpl. lia. }
    rewrite Hlen. cbn [orb HasPrefix Ascii.eqb Bool.eqb negb andb str_drop].
    rewrite IndexByte_append by done. rewrite Nat.add_1_r.
    assert (Hd : str_drop (S (slen s)) (s +:+ String "/" a') = a').
    { clear. induction s as [|x s IH]; [by destruct a'|]. rewrite append_cons. exact IH. }
    by rewrite Hd.
Qed.

Lemma Matches_sub a q :
  HasPrefix (q +:+ "/*") "/*/" = false ->
  MatchesPattern a (q +:+ "/*") = HasPrefix a (q +:+ "/").
Proof.
  intros Hp.
  assert (Hs : HasSuffix (q +:+ "/*") "/*" = true) by (apply HasSuffix_spec; eauto).
  assert (He : String.eqb (q +:+ "/*") "*" = false) by (apply String.eqb_neq, sub_not_star).
  assert (Hu : forall p, String.eqb p "*" = false -> HasPrefix p "/*/" = false -> HasSuffix p "/*" = true ->
    MatchesPattern a p = HasPrefix a (str_take (slen p - 1) p)).
  { intros p H1 H2 H3. destruct p; cbn [MatchesPattern]; by rewrite ?H1, ?H2, ?H3. }
  by rewrite Hu, sub_prefix.
Qed.

Lemma Matches_exact a p :
  p <> "*" -> HasPrefix p "/*/" = false -> HasSuffix p "/*" = false ->
  MatchesPattern a p = String.eqb a p.
Proof.
  intros H1%String.eqb_neq H2 H3. destruct p; cbn [MatchesPattern]; by rewrite ?H1, ?H2, ?H3.
Qed.
End matches_equations.

(** A path below the literal prefix of a subtree pattern matches it, also when
    the pattern starts with a peer wildcard. *)
Lemma Matches_below q : forall a, HasPrefix a (q +:+ "/") = true -> MatchesPattern a (q +:+ "/*") = true.
Proof.
  remember (slen q) as n eqn:Hn. revert q Hn.
  induction (lt_wf n) as [n _ IH]. intros q Hn a Ha.
  destruct (HasPrefix (q +:+ "/*") "/*/") eqn:Hp; [|by rewrite Matches_sub].
  apply HasPrefix_spec in Hp as [r Hr]. rewrite Hr.
  (* the remainder is "*" or again a subtree pattern *)
  destruct (append_eq_append q "/*" "/*/" r Hr) as [(w & Hw & Hr')|(w & -> & Hw)].
  - destruct q as [|x [|y [|z [|u q]]]]; rewrite ?append_cons, ?append_nil in Hw; simplify_eq;
      rewrite ?append_cons, ?append_nil in Hr'; simplify_eq;
      apply HasPrefix_spec in Ha as [t ->]; apply Matches_peer.
    + by exists "*", t.
    + by exists "*", (String "/" t).
  - subst r. apply HasPrefix_spec in Ha as [t ->]. apply Matches_peer.
    exists "*", (w +:+ "/" +:+ t). split_and!; [by rewrite !append_assoc|done|].
    apply (IH (slen w)); [rewrite Hn, slen_append; simpl; lia|done|].
    rewrite <- append_assoc. apply HasPrefix_append.
Qed.

(** ** Transitivity *)

Lemma prefix_slash_of_sub p b :
  HasPrefix (b +:+ "/*") (p +:+ "/") = true -> HasPrefix (b +:+ "/") (p +:+ "/") = true.
Proof.
  intros [t Ht]%HasPrefix_spec.
  destruct t as [|x t].
  - rewrite append_nil_r in Ht. change "/*" with ("/" +:+ "*") in Ht. rewrite <- append_assoc in Ht.
    by apply (append_snoc_inj (b +:+ "/") p "*" "/") in Ht as [_ ?].
  - apply HasPrefix_spec. change "/*" with ("/" +:+ "*") in Ht. rewrite <- append_assoc in Ht.
    destruct (append_eq_append _ _ _ _ Ht) as [(w & Hw & Hx)|(w & Hw & _)]; [|by exists w].
    destruct w as [|y w]; [exists ""; by rewrite append_nil_r in *|].
    rewrite append_cons in Hx. injection Hx as <- Hx. by destruct w.
Qed.

Lemma peer_not_star r : "/*/" +:+ r <> "*".
Proof. done. Qed.

Lemma Matches_refl a : MatchesPattern a a = true.
Proof.
  remember (slen a) as n eqn:Hn. revert a Hn.
  induction (lt_wf n) as [n _ IH]. intros a Hn. destruct (view a) as [|r|q Hq|p H1 H2 H3].
  - done.
  - apply Matches_peer. exists "*", r. split_and!; [done..|].
    apply (IH (slen r)); [|done]. rewrite Hn, slen_append. simpl. lia.
  - apply Matches_below. change "/*" with ("/" +:+ "*"). rewrite <- append_assoc. apply HasPrefix_append.
  - rewrite Matches_exact by done. apply String.eqb_refl.
Qed.

(** What matches a pattern below a literal first segment lies below some
    segment, and its remainder matches the pattern's remainder. *)
Lemma Matches_under_segment a s b :
  IndexByte s "/" = None -> MatchesPattern a ("/" +:+ s +:+ "/" +:+ b) = true ->
  exists s' a', a = "/" +:+ s' +:+ "/" +:+ a' /\ IndexByte s' "/" = None /\ MatchesPattern a' b = true.
Proof.
  intros Hs Hm. remember ("/" +:+ s +:+ "/" +:+ b) as p eqn:Hp.
  destruct (view p) as [|r|q Hq|p H1 H2 H3].
  - done.
  - change ("/*/" +:+ r) with ("/" +:+ "*" +:+ "/" +:+ r) in Hp. apply append_inj_l in Hp.
    change ("/" +:+ r) with (String "/" r) in Hp. change ("/" +:+ b) with (String "/" b) in Hp.
    apply (split_at_unique "/" "*" r s b) in Hp as [_ ->]; [|done..]. by apply Matches_peer.
  - rewrite Matches_sub in Hm by done. apply HasPrefix_spec in Hm as [t ->].
    assert (Hp' : (q +:+ "/*") = ("/" +:+ s +:+ "/") +:+ b) by (by rewrite !append_assoc).
    destruct (append_eq_append _ _ _ _ Hp') as [(w & Hu & Hb)|(w & -> & ->)].
    + destruct w as [|x [|y [|z w]]]; rewrite ?append_cons, ?append_nil in Hb; simplify_eq.
      * rewrite append_nil_r in Hu. subst q. exists s, ("/" +:+ t). split_and!; [by rewrite !append_assoc|done|].
        apply (Matches_below ""). apply HasPrefix_append.
      * change ("/" +:+ s +:+ "/") with (("/" +:+ s) +:+ "/") in Hu.
        apply (append_snoc_inj ("/" +:+ s) q "/" "/") in Hu as [<- _].
        exists s, t. by rewrite !append_assoc.
      * exfalso. change "/*" with ("/" +:+ "*") in Hu. rewrite <- (append_assoc q) in Hu.
        change ("/" +:+ s +:+ "/") with (("/" +:+ s) +:+ "/") in Hu.
        by apply (append_snoc_inj ("/" +:+ s) (q +:+ "/") "/" "*") in Hu as [_ ?].
    + exists s, (w +:+ "/" +:+ t). split_and!; [by rewrite !append_assoc|done|].
      apply Matches_below. rewrite <- append_assoc. apply HasPrefix_append.
  - rewrite Matches_exact in Hm by done. bool_prop. subst. exists s, b. split_and!; [done..|apply Matches_refl].
Qed.

(** [MatchesPattern] read as "the pattern covers": a pattern covered by [c]
    matches only what [c] matches. *)
Lemma Matches_trans c : forall a b,
  MatchesPattern a b = true -> MatchesPattern b c = true -> MatchesPattern a c = true.
Proof.
  remember (slen c) as n eqn:Hn. revert c Hn.
  induction (lt_wf n) as [n _ IH]. intros c Hn a b Hab Hbc.
  destruct (view c) as [|r|q Hq|c H1 H2 H3].
  - done.
  - apply Matches_peer in Hbc as (s & b' & -> & Hs & Hbr). apply Matches_peer.
    pose proof (Matches_under_segment _ _ _ Hs Hab) as Hstep.
    destruct Hstep as (s' & a' & -> & Hs' & Ha'). exists s', a'. split_and!; try done.
    eapply (IH (slen r)); [|done|exact Ha'|exact Hbr]. rewrite Hn, slen_append. simpl. lia.
  - rewrite Matches_sub in * by done.
    destruct (view b) as [|rb|qb Hqb|b H1 H2 H3].
    + exfalso. apply HasPrefix_spec in Hbc as [t Ht]. by destruct q as [|x [|]].
    + apply Matches_peer in Hab as (s & a' & -> & _ & _).
      apply HasPrefix_spec in Hbc as [t Ht].
      destruct q as [|x q]; [done|].
      exfalso. rewrite !append_cons in *. injection Ht as <- Ht.
      destruct q as [|y [|z q]]; rewrite ?append_cons, ?append_nil in *; simplify_eq.
    + rewrite Matches_sub in Hab by done. eapply HasPrefix_trans; [exact Hab|]. by apply prefix_slash_of_sub.
    + rewrite Matches_exact in Hab by done. bool_prop. by subst.
  - rewrite (Matches_exact b) in Hbc by done. bool_prop. by subst.
Qed.

(** ** Id patterns: case equations and transitivity *)

Lemma idScope_sub q v : idScopeMatches (q +:+ "/*") v = HasPrefix v (q +:+ "/").
Proof.
  unfold idScopeMatches.
  rewrite (proj2 (String.eqb_neq _ _) (sub_not_star q)), sub_prefix.
  by rewrite (proj2 (HasSuffix_spec (q +:+ "/*") "/*")) by eauto.
Qed.

Lemma idScope_cases p :
  p = "*" \/ (exists q, p = q +:+ "/*") \/ (forall v, idScopeMatches p v = String.eqb v p).
Proof.
  unfold idScopeMatches. destruct (String.eqb_spec p "*"); [by left|].
  destruct (HasSuffix p "/*") eqn:E; [right; left; by apply HasSuffix_spec in E|by auto].
Qed.

Lemma idScope_refl p : idScopeMatches p p = true.
Proof.
  destruct (idScope_cases p) as [->|[[q ->]|Hx]].
  - done.
  - rewrite idScope_sub. change "/*" with ("/" +:+ "*"). rewrite <- append_assoc. apply HasPrefix_append.
  - by rewrite Hx, String.eqb_refl.
Qed.

Lemma idScope_trans outer mid v :
  idScopeMatches outer mid = true -> idScopeMatches mid v = true -> idScopeMatches outer v = true.
Proof.
  destruct (idScope_cases outer) as [->|[[q ->]|Hx]]; [done| |].
  - rewrite !idScope_sub. intros Hm Hv. destruct (idScope_cases mid) as [->|[[q' ->]|Hx]].
    + exfalso. apply HasPrefix_spec in Hm as [t Ht]. by destruct q as [|x [|]].
    + rewrite idScope_sub in Hv. eapply HasPrefix_trans; [exact Hv|]. by apply prefix_slash_of_sub.
    + rewrite Hx in Hv. bool_prop. by subst.
  - rewrite Hx. intros Hm Hv. bool_prop. by subst.
Qed.

(** ** Canonical forms *)

Lemma scheme_not_special path :
  HasPrefix path "./" || HasPrefix path "../" || HasPrefix path "*/" = true ->
  HasPrefix path URI.Scheme = false /\ HasPrefix path "/" = false.
Proof.
  intros H. destruct path as [|x path]; [done|]. cbn [HasPrefix] in *.
  destruct (Ascii.eqb_spec "." x) as [<-|?]; [done|].
  destruct (Ascii.eqb_spec "*" x) as [<-|?]; [done|]. done.
Qed.

(** Every pattern canonicalises to itself, unmatchable, or to an absolute
    pattern; which of the two does not depend on the peer. *)
Lemma Canonicalize_shape path peer :
  if IsUnmatchablePattern path then Canonicalize path peer = path
  else HasPrefix (Canonicalize path peer) "/" = true.
Proof.
  unfold IsUnmatchablePattern, Canonicalize.
  destruct (HasPrefix path "./" || HasPrefix path "../") eqn:E1; [done|].
  destruct (HasPrefix path "*/") eqn:E2; [done|]. cbn [orb].
  assert (Haft : HasPrefix (if HasPrefix path "/" then path
    else if String.eqb path "*" then "/" +:+ peer +:+ "/*" else "/" +:+ peer +:+ "/" +:+ path) "/" = true).
  { destruct (HasPrefix path "/") eqn:E3; [done|]. by destruct (String.eqb path "*"). }
  destruct (HasPrefix path URI.Scheme); [|done].
  destruct (URI.ParseURI path) as [u|]; [|done].
  destruct (negb (String.eqb (URI.PeerID_ u) "")); [|done]. by destruct (String.eqb (URI.Path u) "").
Qed.

Lemma absolute_matchable p : HasPrefix p "/" = true -> IsUnmatchablePattern p = false.
Proof. intros [t ->]%HasPrefix_spec. reflexivity. Qed.

Lemma unmatchable_Canonicalize path peer :
  IsUnmatchablePattern (Canonicalize path peer) = IsUnmatchablePattern path.
Proof.
  pose proof (Canonicalize_shape path peer) as H. destruct (IsUnmatchablePattern path) eqn:E.
  - by rewrite H.
  - by apply absolute_matchable.
Qed.

Lemma Canonicalize_absolute p peer : HasPrefix p "/" = true -> Canonicalize p peer = p.
Proof. intros [t ->]%HasPrefix_spec. reflexivity. Qed.

Lemma Canonicalize_idem path peer peer' :
  Canonicalize (Canonicalize path peer) peer' = Canonicalize path peer.
Proof.
  pose proof (Canonicalize_shape path peer) as H.
  destruct (IsUnmatchablePattern path) eqn:E; [|by apply Canonicalize_absolute].
  rewrite H. pose proof (Canonicalize_shape path peer') as H'. by rewrite E in H'.
Qed.

(** No canonical pattern is the bare star: a bare star in a capability is
    always peer local. *)
Lemma Canonicalize_not_star path peer : Canonicalize path peer <> "*".
Proof.
  intros He. pose proof (Canonicalize_shape path peer) as H.
  destruct (IsUnmatchablePattern path) eqn:E; rewrite He in H; [|done]. by subst path.
Qed.

Lemma unmatchable_no_slash p : IsUnmatchablePattern p = true -> HasPrefix p "/" = false.
Proof.
  destruct (HasPrefix p "/") eqn:E; [|done]. by rewrite (absolute_matchable p E).
Qed.

Lemma HasPrefix_slash_sub q t p :
  p = q +:+ "/" +:+ t -> IsUnmatchablePattern p = true -> IsUnmatchablePattern (q +:+ "/*") = true.
Proof.
  intros -> Hu. unfold IsUnmatchablePattern in *.
  destruct q as [|a [|b [|c q]]]; rewrite ?append_nil, ?append_cons in *; cbn [HasPrefix] in *;
    rewrite ?andb_true_r, ?andb_false_r in *; try done;
    repeat (destruct (Ascii.eqb_spec _ _); subst; cbn in *; try done).
Qed.

(** The only patterns that cover an unmatchable pattern are the bare star and
    unmatchable ones. *)
Lemma Matches_unmatchable p c :
  IsUnmatchablePattern p = true -> MatchesPattern p c = true -> c = "*" \/ IsUnmatchablePattern c = true.
Proof.
  intros Hu Hm. destruct (view c) as [|r|q Hq|c H1 H2 H3].
  - by left.
  - apply Matches_peer in Hm as (s & a' & -> & _). discriminate Hu.
  - right. rewrite Matches_sub in Hm by done. apply HasPrefix_spec in Hm as [t Ht].
    rewrite append_assoc in Ht. by eapply HasPrefix_slash_sub.
  - right. rewrite Matches_exact in Hm by done. bool_prop. by subst.
Qed.

(** ** Scopes: inclusion form *)

Lemma scopeContains_iff v sc :
  scopeContains v sc = true <->
  (exists p, p ∈ Include_ sc /\ MatchesPattern v p = true)
  /\ forall p, p ∈ Exclude_ sc -> IsUnmatchablePattern p = false /\ MatchesPattern v p = false.
Proof.
  unfold scopeContains. destruct (any _ (Include_ sc)) eqn:E; cbn [negb].
  - apply any_true in E. rewrite negb_true_iff, any_false. split.
    + intros Hx. split; [done|]. intros p Hp. by apply orb_false_iff, Hx.
    + intros [_ Hx] p Hp. by apply orb_false_iff, Hx.
  - split; [done|]. intros [(p & Hp & Hm) _]. apply any_false with (x := p) in E; [congruence|done].
Qed.

Lemma matchesIDScope_iff v sc :
  matchesIDScope v sc = true <->
  (exists p, p ∈ Include_ sc /\ idScopeMatches p v = true)
  /\ forall p, p ∈ Exclude_ sc -> idScopeMatches p v = false.
Proof.
  unfold matchesIDScope. destruct (any _ (Include_ sc)) eqn:E; cbn [negb].
  - apply any_true in E. rewrite negb_true_iff, any_false. split; [by intros Hx; split|by intros [_ Hx]].
  - split; [done|]. intros [(p & Hp & Hm) _]. apply any_false with (x := p) in E; [congruence|done].
Qed.

Lemma matchesPeerScope_iff `{Base58} v sc :
  matchesPeerScope v sc = true <->
  (exists p, p ∈ Include_ sc /\ peerPatternMatches p v = peerMatchYes)
  /\ forall p, p ∈ Exclude_ sc -> peerPatternMatches p v = peerMatchNo.
Proof.
  unfold matchesPeerScope. destruct (any _ (Include_ sc)) eqn:E; cbn [negb].
  - apply any_true in E as (p & Hp & Hy). bool_prop. rewrite negb_true_iff, any_false. split.
    + intros Hx. split; [by exists p|]. intros e He. specialize (Hx e He). by bool_prop.
    + intros [_ Hx] e He. apply negb_false_iff, bool_decide_eq_true. auto.
  - split; [done|]. intros [(p & Hp & Hm) _]. apply any_false with (x := p) in E; [|done]. by bool_prop.
Qed.

Lemma IsCoveredBy_iff t ps lp gp :
  IsCoveredBy t ps lp gp = true <->
  exists p, p ∈ ps /\ MatchesPattern (Canonicalize t lp) (Canonicalize p gp) = true.
Proof. apply any_true. Qed.

Lemma isExcluded_false t ps lp gp :
  isExcluded t ps lp gp = false <->
  forall p, p ∈ ps -> IsUnmatchablePattern p = false
    /\ MatchesPattern (Canonicalize t lp) (Canonicalize p gp) = false.
Proof.
  unfold isExcluded. rewrite any_false. split; intros Hx p Hp; specialize (Hx p Hp).
  - apply orb_false_iff in Hx. by rewrite unmatchable_Canonicalize in Hx.
  - apply orb_false_iff. by rewrite unmatchable_Canonicalize.
Qed.

#[export] Hint Resolve Matches_trans idScope_trans : entity.

(** ** Properties of the matchers *)

(** Matching a path pattern against a path pattern decides coverage: [b]
    matches [c] exactly when everything that matches [b] matches [c]. This is
    the property the attenuation check relies on when it matches a child's
    pattern, as if it were a path, against the parent's. *)
Theorem MatchesPattern_coverage (b c : string) :
  MatchesPattern b c = true <->
  forall a, MatchesPattern a b = true -> MatchesPattern a c = true.
Proof.
  split; [intros Hbc a Hab; by eapply Matches_trans|]. intros Ha. apply Ha, Matches_refl.
Qed.

(** The same for the id-scope grammar of operations and peers. *)
Theorem idScopeMatches_coverage (outer inner : string) :
  idScopeMatches outer inner = true <->
  forall v, idScopeMatches inner v = true -> idScopeMatches outer v = true.
Proof.
  split; [intros Hoi v Hv; by eapply idScope_trans|]. intros Ha. apply Ha, idScope_refl.
Qed.

(** What canonicalisation gives. Canonicalising twice changes nothing,
    whichever peers are used; the result is unmatchable exactly when the input
    is, for every peer, and otherwise absolute; and it is never the bare star,
    so a bare star in a capability never reads as "every peer". *)
Theorem Canonicalize_spec (path : string) (peer peer' : PeerID) :
  Canonicalize (Canonicalize path peer) peer' = Canonicalize path peer
  /\ IsUnmatchablePattern (Canonicalize path peer) = IsUnmatchablePattern path
  /\ (IsUnmatchablePattern path = false -> IsAbsolute (Canonicalize path peer) = true)
  /\ Canonicalize path peer <> "*".
Proof.
  split_and!.
  - apply Canonicalize_idem.
  - apply unmatchable_Canonicalize.
  - intros Hu. pose proof (Canonicalize_shape path peer) as H. by rewrite Hu in H.
  - apply Canonicalize_not_star.
Qed.

Lemma Canonicalize_spec_witness :
  IsAbsolute (Canonicalize "data/*" "P") = true /\ Canonicalize "data/*" "P" = "/P/data/*".
Proof.
  split; [|reflexivity].
  exact (proj1 (proj2 (proj2 (Canonicalize_spec "data/*" "P" "Q"))) eq_refl).
Defined.

Lemma Contains_suffix s c : HasSuffix s (String "/" (String c "")) = true -> Contains s (String c "") = true.
Proof.
  intros [t ->]%HasSuffix_spec. induction t as [|x t IH].
  - rewrite append_nil. cbn. rewrite Ascii.eqb_refl. by rewrite orb_true_r.
  - rewrite append_cons. cbn [Contains]. rewrite IH. apply orb_true_r.
Qed.

Lemma not_IsPattern_matches a x :
  IsPattern a = false -> MatchesPattern x a = true -> x = a.
Proof.
  unfold IsPattern. intros Hn Hm. destruct (view a) as [|r|q Hq|p H1 H2 H3].
  - done.
  - done.
  - rewrite (Contains_suffix (q +:+ "/*") "*") in Hn; [done|]. apply HasSuffix_spec. eauto.
  - rewrite Matches_exact in Hm by done. by bool_prop.
Qed.

(** The literal part of a pattern is a prefix of whatever matches it. *)
Lemma Matches_literal_prefix x p :
  p <> "*" -> HasPrefix p "/*/" = false -> MatchesPattern x p = true ->
  HasPrefix x (TrimSuffix p "/*") = true.
Proof.
  intros Hs Hp Hm. destruct (view p) as [|r|q Hq|p H1 H2 H3].
  - done.
  - done.
  - rewrite TrimSuffix_append. rewrite Matches_sub in Hm by done.
    eapply HasPrefix_trans; [exact Hm|apply HasPrefix_append].
  - rewrite Matches_exact in Hm by done. bool_prop. subst. unfold TrimSuffix. rewrite H3.
    apply HasPrefix_spec. exists "". by rewrite append_nil_r.
Qed.

Lemma prefixes_comparable x p q :
  HasPrefix x p = true -> HasPrefix x q = true -> HasPrefix p q || HasPrefix q p = true.
Proof.
  rewrite !HasPrefix_spec. intros [t ->] [u Hu]. apply orb_true_iff.
  destruct (append_eq_append _ _ _ _ Hu) as [(w & -> & _)|(w & -> & _)];
    [right|left]; apply HasPrefix_append.
Qed.

(** The overlap test misses no overlap between patterns that do not start
    with the peer wildcard: if some path matches both, it answers true. (It may
    also answer true for disjoint subtrees whose literal prefixes are textual
    prefixes of one another, which only denies more.) *)
Theorem PatternsOverlap_complete (a b x : string) :
  HasPrefix a "/*/" = false -> HasPrefix b "/*/" = false ->
  MatchesPattern x a = true -> MatchesPattern x b = true -> PatternsOverlap a b = true.
Proof.
  intros Ha Hb Hxa Hxb. unfold PatternsOverlap.
  destruct (String.eqb_spec a "*") as [|Hna]; [done|]. destruct (String.eqb_spec b "*") as [|Hnb]; [done|].
  cbn [orb]. destruct (IsPattern a) eqn:Pa; cbn [negb andb].
  - destruct (IsPattern b) eqn:Pb; cbn [negb].
    + eapply prefixes_comparable; by apply Matches_literal_prefix.
    + apply not_IsPattern_matches in Hxb; [|done]. by subst.
  - apply not_IsPattern_matches in Hxa; [|done]. subst x. destruct (IsPattern b) eqn:Pb; cbn [negb]; [done|].
    apply not_IsPattern_matches in Hxb; [|done]. by apply String.eqb_eq.
Qed.

Lemma PatternsOverlap_complete_witness : PatternsOverlap "/P/data/*" "/P/data/secret" = true.
Proof. by apply (PatternsOverlap_complete "/P/data/*" "/P/data/secret" "/P/data/secret"). Defined.

(** With the peer wildcard the test is not complete: the two patterns share the
    path, and the overlap test denies it. *)
Theorem PatternsOverlap_misses_peer_wildcard :
  MatchesPattern "/P/data/secret/x" "/P/data/*" = true
  /\ MatchesPattern "/P/data/secret/x" "/*/data/secret/*" = true
  /\ PatternsOverlap "/P/data/*" "/*/data/secret/*" = false.
Proof. by vm_compute. Qed.

Lemma first_or_empty_spec l :
  first_or_empty l = "" <-> forall p, p ∈ l -> IsUnmatchablePattern p = false.
Proof.
  unfold first_or_empty. destruct (List.find IsUnmatchablePattern l) as [p|] eqn:E.
  - apply find_some in E as [Hin Hu]. split.
    + intros ->. discriminate Hu.
    + intros Hall. rewrite (Hall p) in Hu; [done|]. by apply list_elem_of_In.
  - split; [|done]. intros _ p Hp. eapply find_none; [exact E|]. by apply list_elem_of_In.
Qed.

(** Every path-scope pattern of the grants is matchable. *)
Definition matchable_grants (grants : list GrantEntry) : Prop :=
  forall g p, g ∈ grants ->
    p ∈ Include_ (Handlers g) ++ Exclude_ (Handlers g) ++ Include_ (Resources g) ++ Exclude_ (Resources g) ->
    IsUnmatchablePattern p = false.

Lemma FirstUnmatchableScopePattern_none grants :
  FirstUnmatchableScopePattern grants = "" <-> matchable_grants grants.
Proof.
  unfold FirstUnmatchableScopePattern, matchable_grants. rewrite first_or_empty_spec. split.
  - intros H g p Hg Hp. apply H. apply list_elem_of_In, in_flat_map. exists g.
    split; by apply list_elem_of_In.
  - intros H p Hp. apply list_elem_of_In, in_flat_map in Hp as (g & Hg & Hp).
    apply (H g p); by apply list_elem_of_In.
Qed.
