(* ===== verification/Check.v ===== *)
(** * The permission checks ([core/capability/check.go], [expiry.go])

    The four-dimensional check of a request against a capability, and the
    path-level check.  [now] is the reading of [time.Now().UnixMilli()]. *)

From Stdlib Require Import Ascii.
From S2P Require Import Prelude GoStrings Errors Hash Entity PeerID Paths CapTypes Patterns.

Open Scope Z_scope.

(** ** Validity window *)

Definition Expired (expiresAt : option Z) (now : Z) : bool :=
  match expiresAt with None => false | Some e => e <=? now end.

(** [cap.NotBefore != nil && now < *cap.NotBefore]. *)
Definition NotYetValid (notBefore : option Z) (now : Z) : bool :=
  match notBefore with None => false | Some nb => now <? nb end.

(** The half-open window [not_before, expires_at). *)
Definition in_window (d : CapabilityTokenData) (now : Z) : Prop :=
  (forall nb, NotBefore d = Some nb -> nb <= now) /\ (forall ex, ExpiresAt d = Some ex -> now < ex).

Lemma in_window_iff d now :
  in_window d now <-> NotYetValid (NotBefore d) now = false /\ Expired (ExpiresAt d) now = false.
Proof.
  unfold in_window, NotYetValid, Expired. destruct (NotBefore d), (ExpiresAt d);
    rewrite ?Z.ltb_ge, ?Z.leb_gt; split; intros [Ha Hb]; split; try done; try (by apply Ha);
    try (by apply Hb); by intros ? [= <-].
Qed.

(** ** Resources *)

Definition EffectiveTargets (resource : option ResourceTarget) (localPeerID : PeerID) : list string :=
  match resource with
  | None => []
  | Some r =>
      List.filter (fun target =>
        let ct := Canonicalize target localPeerID in
        negb (IsCoveredBy ct (rt_Exclude r) localPeerID localPeerID)) (Targets r)
  end.

Definition validConcreteTarget (ct : string) : bool := is_ok (ValidateAbsolutePath ct).

(** The pattern arm's loop over the grant's excludes: true when none refuses. *)
Definition pattern_excludes_ok (ct : string) (excludes callerExclude : list string)
    (localPeerID granterPeerID : PeerID) : bool :=
  all (fun ge =>
    let cge := Canonicalize ge granterPeerID in
    if IsUnmatchablePattern cge then false
    else if negb (PatternsOverlap ct cge) then true
    else IsCoveredBy cge callerExclude localPeerID localPeerID) excludes.

(** The body of the loop over effective targets: true when the target does not
    make the check fail. *)
Definition target_ok (target : string) (grantResources : CapabilityScope) (callerExclude : list string)
    (localPeerID granterPeerID : PeerID) : bool :=
  let ct := Canonicalize target localPeerID in
  if negb (IsPattern ct) && negb (validConcreteTarget ct) then false
  else if negb (IsCoveredBy target (Include_ grantResources) localPeerID granterPeerID) then false
  else if IsPattern ct then
    pattern_excludes_ok ct (Exclude_ grantResources) callerExclude localPeerID granterPeerID
  else negb (isExcluded target (Exclude_ grantResources) localPeerID granterPeerID).

Definition CheckResourceScope (resource : option ResourceTarget) (grantResources : CapabilityScope)
    (localPeerID granterPeerID : PeerID) : bool :=
  let callerExclude := match resource with None => [] | Some r => rt_Exclude r end in
  all (fun target => target_ok target grantResources callerExclude localPeerID granterPeerID)
    (EffectiveTargets resource localPeerID).

(** ** The four dimensions *)

Section check.
Context `{Base58}.

Definition peers_or_default (p : option CapabilityScope) (localPeerID : PeerID) : CapabilityScope :=
  match p with Some sc => sc | None => mkScope [localPeerID] [] end.

(** The body of the loop over grants. *)
Definition grant_matches (execute : ExecuteData) (grant : GrantEntry) (handlerPattern : string)
    (localPeerID granterPeerID : PeerID) (relaxPeers : bool) (targetPeer : PeerID) : bool :=
  if negb (operationsAllow (Operations grant) (Operation execute)) then false
  else if negb (scopeContains handlerPattern (Handlers grant)) then false
  else if match Resource execute with
          | None => false
          | Some _ => negb (CheckResourceScope (Resource execute) (Resources grant) localPeerID granterPeerID)
          end then false
  else if negb relaxPeers
          && negb (MatchesPeerScope targetPeer (peers_or_default (Peers grant) localPeerID) localPeerID)
  then false
  else true.

Definition target_peer (execute : ExecuteData) (handlerPattern : string) (localPeerID : PeerID) : PeerID :=
  let targetLocator := if String.eqb (URI_ execute) "" then handlerPattern else URI_ execute in
  extractPeer targetLocator localPeerID.

Definition findMatchingGrant (now : Z) (execute : ExecuteData) (cap : CapabilityTokenData)
    (handlerPattern : string) (localPeerID granterPeerID : PeerID) (relaxPeers : bool) : option GrantEntry :=
  if NotYetValid (NotBefore cap) now then None
  else if Expired (ExpiresAt cap) now then None
  else
    let targetPeer := target_peer execute handlerPattern localPeerID in
    List.find (fun grant =>
      grant_matches execute grant handlerPattern localPeerID granterPeerID relaxPeers targetPeer)
      (Grants cap).

Definition FindMatchingGrant (now : Z) (execute : ExecuteData) (cap : CapabilityTokenData)
    (handlerPattern : string) (localPeerID granterPeerID : PeerID) : option GrantEntry :=
  findMatchingGrant now execute cap handlerPattern localPeerID granterPeerID false.

Definition CheckPermission (now : Z) (execute : ExecuteData) (cap : CapabilityTokenData)
    (handlerPattern : string) (localPeerID granterPeerID : PeerID) : bool :=
  match FindMatchingGrant now execute cap handlerPattern localPeerID granterPeerID with
  | Some _ => true | None => false end.

Definition CheckPermissionRelaxPeers (now : Z) (execute : ExecuteData) (cap : CapabilityTokenData)
    (handlerPattern : string) (localPeerID granterPeerID : PeerID) (relaxPeers : bool) : bool :=
  match findMatchingGrant now execute cap handlerPattern localPeerID granterPeerID relaxPeers with
  | Some _ => true | None => false end.

(** ** The path-level check *)

(** The body of the loop over grants of [CheckPathPermission]. *)
Definition grant_allows_path (operation canonicalPath : string) (grant : GrantEntry)
    (handlerPattern : string) (granterPeerID : PeerID) : bool :=
  if negb (operationsAllow (Operations grant) operation) then false
  else if negb (scopeContains handlerPattern (Handlers grant)) then false
  else if negb (any (fun resource => MatchesPattern canonicalPath (Canonicalize resource granterPeerID))
                  (Include_ (Resources grant))) then false
  else
    let excluded :=
      if IsPattern canonicalPath then
        any (fun excl =>
          let cexcl := Canonicalize excl granterPeerID in
          if IsUnmatchablePattern cexcl then true else PatternsOverlap canonicalPath cexcl)
          (Exclude_ (Resources grant))
      else
        any (fun excl =>
          let canonicalExclude := Canonicalize excl granterPeerID in
          if IsUnmatchablePattern canonicalExclude then true
          else MatchesPattern canonicalPath canonicalExclude) (Exclude_ (Resources grant)) in
    negb excluded.

Definition CheckPathPermission (now : Z) (operation path : string) (cap : CapabilityTokenData)
    (handlerPattern : string) (localPeerID granterPeerID : PeerID) : bool :=
  if NotYetValid (NotBefore cap) now then false
  else if Expired (ExpiresAt cap) now then false
  else
    let canonicalPath := Canonicalize path localPeerID in
    any (fun grant => grant_allows_path operation canonicalPath grant handlerPattern granterPeerID)
      (Grants cap).
End check.

(** ** Granter namespaces *)

Section granter.
Context `{Base58, DataCodec}.

Definition peerIDFromPeerEntity (ent : Entity) : result PeerID :=
  if negb (String.eqb (Type_ ent) TypePeer) then Err []
  else
    let! idData := PeerDataFromEntity ent in
    match PeerData_KeyTypeByte idData with
    | None => Err []
    | Some ktByte => PeerIDFromPublicKey (PublicKey idData) ktByte
    end.

Definition ResolveGranterPeerID (granter : Granter) (cs : gmap Hash Entity) (localPeerID : PeerID)
  : result PeerID :=
  match SingleHash granter with
  | None => Ok localPeerID
  | Some granterHash =>
      if IsZero granterHash then Ok localPeerID
      else match cs !! granterHash with
      | None => Err []
      | Some granterEnt => peerIDFromPeerEntity granterEnt
      end
  end.
End granter.

(** ** Lemmas *)

Lemma CheckResourceScope_iff r gs lp gp :
  CheckResourceScope (Some r) gs lp gp = true <->
  forall t, t ∈ Targets r -> IsCoveredBy (Canonicalize t lp) (rt_Exclude r) lp lp = false ->
    target_ok t gs (rt_Exclude r) lp gp = true.
Proof.
  unfold CheckResourceScope, EffectiveTargets. rewrite all_true. split.
  - intros H t Ht Hc. apply H, list_elem_of_In, filter_In. split; [by apply list_elem_of_In|]. by rewrite Hc.
  - intros H t Ht. apply list_elem_of_In, filter_In in Ht as [Ht Hc].
    apply H; [by apply list_elem_of_In|]. by apply negb_true_iff.
Qed.

Lemma target_ok_concrete t gs ce lp gp :
  IsPattern (Canonicalize t lp) = false ->
  target_ok t gs ce lp gp = true <->
  ValidateAbsolutePath (Canonicalize t lp) = Ok tt
  /\ IsCoveredBy t (Include_ gs) lp gp = true /\ isExcluded t (Exclude_ gs) lp gp = false.
Proof.
  intros Hp. unfold target_ok, validConcreteTarget. rewrite Hp. cbn [negb andb].
  destruct (ValidateAbsolutePath _) as [[]|]; cbn [is_ok negb]; [|split; [done|by intros (? & _)]].
  destruct (IsCoveredBy _ _ _ _); cbn [negb]; [|split; [done|by intros (_ & ? & _)]].
  rewrite negb_true_iff. tauto.
Qed.

Section check_lemmas.
Context `{Base58}.

Lemma grant_matches_iff ex g hp lp gp rp tp :
  grant_matches ex g hp lp gp rp tp = true <->
  operationsAllow (Operations g) (Operation ex) = true
  /\ scopeContains hp (Handlers g) = true
  /\ (forall r, Resource ex = Some r -> CheckResourceScope (Some r) (Resources g) lp gp = true)
  /\ (rp = false -> MatchesPeerScope tp (peers_or_default (Peers g) lp) lp = true).
Proof.
  unfold grant_matches.
  destruct (operationsAllow _ _); cbn [negb]; [|split; [done|by intros (? & _)]].
  destruct (scopeContains _ _); cbn [negb]; [|split; [done|by intros (_ & ? & _)]].
  destruct (Resource ex) as [r|].
  - destruct (CheckResourceScope _ _ _ _) eqn:E; cbn [negb].
    + destruct rp; cbn [negb andb].
      * split; [|done]. intros _. split_and!; try done. by intros r' [= <-].
      * destruct (MatchesPeerScope _ _ _); cbn [negb]; split; try done.
        -- intros _. split_and!; try done. by intros r' [= <-].
        -- intros (_ & _ & _ & Hx). by specialize (Hx eq_refl).
    + split; [done|]. intros (_ & _ & Hx & _). by rewrite (Hx r eq_refl) in E.
  - destruct rp; cbn [negb andb]; [by split|].
    destruct (MatchesPeerScope _ _ _); cbn [negb]; split; try done.
    intros (_ & _ & _ & Hx). by specialize (Hx eq_refl).
Qed.

Lemma CheckPermissionRelaxPeers_iff now ex cap hp lp gp rp :
  CheckPermissionRelaxPeers now ex cap hp lp gp rp = true <->
  in_window cap now
  /\ exists g, g ∈ Grants cap /\ grant_matches ex g hp lp gp rp (target_peer ex hp lp) = true.
Proof.
  unfold CheckPermissionRelaxPeers, findMatchingGrant. rewrite in_window_iff.
  destruct (NotYetValid _ _); [split; [done|by intros [[? _] _]]|].
  destruct (Expired _ _); [split; [done|by intros [[_ ?] _]]|].
  destruct (List.find _ _) as [g|] eqn:E.
  - apply find_some in E as [Hin Hm]. split; [|done]. intros _. split; [done|].
    exists g. split; [by apply list_elem_of_In|done].
  - split; [done|]. intros (_ & g & Hg & Hm). apply list_elem_of_In in Hg.
    pose proof (find_none _ _ E g Hg) as Hn. cbn beta in Hn. congruence.
Qed.

Lemma CheckPermission_relax now ex cap hp lp gp :
  CheckPermission now ex cap hp lp gp = CheckPermissionRelaxPeers now ex cap hp lp gp false.
Proof. reflexivity. Qed.
End check_lemmas.

(** ** Properties *)

(** An id scope admits [v]. *)
Definition id_admits (sc : CapabilityScope) (v : string) : Prop :=
  (exists p, p ∈ Include_ sc /\ idScopeMatches p v = true)
  /\ forall p, p ∈ Exclude_ sc -> idScopeMatches p v = false.

(** A path scope, its patterns read in the namespace of [peer], admits the
    canonical path [v]; an unmatchable exclude admits nothing. *)
Definition path_admits (sc : CapabilityScope) (peer : option PeerID) (v : string) : Prop :=
  let canon p := match peer with Some pid => Canonicalize p pid | None => p end in
  (exists p, p ∈ Include_ sc /\ MatchesPattern v (canon p) = true)
  /\ forall p, p ∈ Exclude_ sc -> IsUnmatchablePattern p = false /\ MatchesPattern v (canon p) = false.

Section check_properties.
Context `{Base58}.

(** What the dispatch check means for a request on concrete paths. The
    request is permitted exactly when the capability is inside its half-open
    validity window and one of its grants admits the operation, the handler
    pattern, the peer the request addresses, and every target that the caller
    did not itself exclude; an admitted target is a well-formed absolute path in
    the resource scope read in the granter's namespace. *)
Theorem CheckPermission_concrete_iff (now : Z) (ex : ExecuteData) (r : ResourceTarget)
    (cap : CapabilityTokenData) (hp : string) (lp gp : PeerID) :
  Resource ex = Some r ->
  (forall t, t ∈ Targets r -> IsPattern (Canonicalize t lp) = false) ->
  CheckPermission now ex cap hp lp gp = true <->
  in_window cap now /\ exists g, g ∈ Grants cap
    /\ id_admits (Operations g) (Operation ex)
    /\ path_admits (Handlers g) None hp
    /\ MatchesPeerScope (target_peer ex hp lp) (peers_or_default (Peers g) lp) lp = true
    /\ forall t, t ∈ Targets r ->
         IsCoveredBy (Canonicalize t lp) (rt_Exclude r) lp lp = true
         \/ ValidateAbsolutePath (Canonicalize t lp) = Ok tt
            /\ path_admits (Resources g) (Some gp) (Canonicalize t lp).
Proof.
  intros Hr Hc. rewrite CheckPermission_relax, CheckPermissionRelaxPeers_iff.
  assert (Hg : forall g, grant_matches ex g hp lp gp false (target_peer ex hp lp) = true <->
    id_admits (Operations g) (Operation ex) /\ path_admits (Handlers g) None hp
    /\ MatchesPeerScope (target_peer ex hp lp) (peers_or_default (Peers g) lp) lp = true
    /\ forall t, t ∈ Targets r ->
         IsCoveredBy (Canonicalize t lp) (rt_Exclude r) lp lp = true
         \/ ValidateAbsolutePath (Canonicalize t lp) = Ok tt
            /\ path_admits (Resources g) (Some gp) (Canonicalize t lp)).
  { intros g. rewrite grant_matches_iff. unfold operationsAllow.
    rewrite matchesIDScope_iff, scopeContains_iff.
    assert (Hrs : CheckResourceScope (Some r) (Resources g) lp gp = true <->
      forall t, t ∈ Targets r ->
         IsCoveredBy (Canonicalize t lp) (rt_Exclude r) lp lp = true
         \/ ValidateAbsolutePath (Canonicalize t lp) = Ok tt
            /\ path_admits (Resources g) (Some gp) (Canonicalize t lp)).
    { rewrite CheckResourceScope_iff. split; intros Hx t Ht.
      - destruct (IsCoveredBy (Canonicalize t lp) _ lp lp) eqn:E; [by left|right].
        specialize (Hx t Ht E). rewrite target_ok_concrete in Hx by auto.
        destruct Hx as (Hv & Hi & He). rewrite IsCoveredBy_iff in Hi. rewrite isExcluded_false in He. done.
      - intros E. rewrite target_ok_concrete by auto. destruct (Hx t Ht) as [?|(Hv & Hi & He)]; [congruence|].
        rewrite IsCoveredBy_iff, isExcluded_false. done. }
    rewrite <- Hrs. split.
    - intros (Ho & Hh & Hre & Hp). split_and!; auto.
    - intros (Ho & Hh & Hp & Hre). do 2 (split; [done|]). split; [|done].
      intros r' Hr'. by replace r' with r by congruence. }
  setoid_rewrite Hg. tauto.
Qed.

(** A request of one operation on one path, with no caller excludes. *)
Definition single_request (op path : string) : ExecuteData := {|
  RequestID := ""; URI_ := ""; Operation := op;
  Resource := Some {| Targets := [path]; rt_Exclude := [] |}; Params := [];
  Author := zero_hash; Capability := zero_hash |}.

(** The two enforcement levels agree. On a well-formed concrete path the
    path-level check gives the verdict of the dispatch check (with the peers
    dimension set aside) on the request for that single path. *)
Theorem CheckPathPermission_equiv (now : Z) (op path : string) (cap : CapabilityTokenData)
    (hp : string) (lp gp : PeerID) :
  IsPattern (Canonicalize path lp) = false ->
  ValidateAbsolutePath (Canonicalize path lp) = Ok tt ->
  CheckPathPermission now op path cap hp lp gp
  = CheckPermissionRelaxPeers now (single_request op path) cap hp lp gp true.
Proof.
  intros Hp Hv. apply eq_true_iff_eq. rewrite CheckPermissionRelaxPeers_iff, in_window_iff.
  unfold CheckPathPermission.
  destruct (NotYetValid _ _); [split; [done|by intros [[? _] _]]|].
  destruct (Expired _ _); [split; [done|by intros [[_ ?] _]]|].
  rewrite any_true.
  assert (Hg : forall g, grant_allows_path op (Canonicalize path lp) g hp gp = true <->
    grant_matches (single_request op path) g hp lp gp true (target_peer (single_request op path) hp lp) = true).
  { intros g. rewrite grant_matches_iff. unfold grant_allows_path. rewrite Hp. cbn [Operation single_request].
    destruct (operationsAllow _ _); cbn [negb]; [|split; [done|by intros (? & _)]].
    destruct (scopeContains _ _); cbn [negb]; [|split; [done|by intros (_ & ? & _)]].
    assert (Hrs : CheckResourceScope (Some {| Targets := [path]; rt_Exclude := [] |}) (Resources g) lp gp
      = IsCoveredBy path (Include_ (Resources g)) lp gp && negb (isExcluded path (Exclude_ (Resources g)) lp gp)).
    { unfold CheckResourceScope, EffectiveTargets, all. cbn [List.filter Targets rt_Exclude IsCoveredBy any existsb negb forallb].
      rewrite andb_true_r. unfold target_ok, validConcreteTarget. rewrite Hp, Hv. cbn [negb is_ok andb].
      by destruct (IsCoveredBy _ _ _ _). }
    assert (Hx : any (fun excl => if IsUnmatchablePattern (Canonicalize excl gp) then true
        else MatchesPattern (Canonicalize path lp) (Canonicalize excl gp)) (Exclude_ (Resources g))
      = isExcluded path (Exclude_ (Resources g)) lp gp).
    { unfold isExcluded, any. clear. induction (Exclude_ (Resources g)) as [|e l IH]; [done|]. cbn [existsb].
      rewrite IH. by destruct (IsUnmatchablePattern _). }
    cbv zeta. rewrite Hx. unfold IsCoveredBy in Hrs.
    destruct (any _ (Include_ (Resources g))) eqn:Ei; cbn [negb andb] in *.
    - rewrite <- Hrs. split.
      + intros Hc. do 2 (split; [done|]). split; [|done]. intros r Hr. injection Hr as <-. exact Hc.
      + intros (_ & _ & Hc & _). by apply Hc.
    - split; [done|]. intros (_ & _ & Hc & _). by rewrite Hc in Hrs. }
  setoid_rewrite Hg. tauto.
Qed.

(** A misspelled exclude closes the grant. If a grant carries an
    unmatchable resource exclude, it admits no effective target, concrete or
    pattern, and no path at the path level; so a request with an effective
    target is refused by a capability all of whose grants carry one. *)
Theorem unmatchable_exclude_fails_closed (now : Z) (ex : ExecuteData) (r : ResourceTarget)
    (cap : CapabilityTokenData) (hp : string) (lp gp : PeerID) (op path t : string) (relax : bool) :
  (forall g, g ∈ Grants cap -> exists e, e ∈ Exclude_ (Resources g) /\ IsUnmatchablePattern e = true) ->
  Resource ex = Some r -> t ∈ EffectiveTargets (Some r) lp ->
  CheckPermissionRelaxPeers now ex cap hp lp gp relax = false
  /\ CheckPathPermission now op path cap hp lp gp = false.
Proof.
  intros Hall Hr Ht. split.
  - apply not_true_is_false. rewrite CheckPermissionRelaxPeers_iff. intros (_ & g & Hg & Hm).
    destruct (Hall g Hg) as (e & He & Hu). apply grant_matches_iff in Hm as (_ & _ & Hrs & _).
    specialize (Hrs r Hr). unfold CheckResourceScope in Hrs. rewrite all_true in Hrs. specialize (Hrs t Ht).
    unfold target_ok in Hrs. destruct (_ && _); [done|]. destruct (negb (IsCoveredBy _ _ _ _)); [done|].
    destruct (IsPattern _).
    + unfold pattern_excludes_ok in Hrs. rewrite all_true in Hrs. specialize (Hrs e He). cbn beta in Hrs.
      by rewrite unmatchable_Canonicalize, Hu in Hrs.
    + apply negb_true_iff in Hrs. rewrite isExcluded_false in Hrs. destruct (Hrs e He). congruence.
  - unfold CheckPathPermission. destruct (NotYetValid _ _); [done|]. destruct (Expired _ _); [done|].
    apply any_false. intros g Hg. destruct (Hall g Hg) as (e & He & Hu). unfold grant_allows_path.
    destruct (negb _); [done|]. destruct (negb _); [done|]. destruct (negb _); [done|].
    apply negb_false_iff. destruct (IsPattern _); apply any_true; exists e; split; try done;
      cbn beta zeta; by rewrite unmatchable_Canonicalize, Hu.
Qed.
End check_properties.

(** ** A sample capability, for the witnesses *)

Definition sample_grant (resources : CapabilityScope) : GrantEntry := {|
  Handlers := mkScope ["system/*"] ["system/admin"]; Resources := resources;
  Operations := mkScope ["get"; "tree/*"] []; Peers := None; Constraints := []; Allowances := [] |}.

Definition sample_cap (resources : CapabilityScope) : CapabilityTokenData := {|
  Grants := [sample_grant resources]; Granter_ := SingleSigGranter zero_hash; Grantee := zero_hash;
  Parent := None; CreatedAt := 0; ExpiresAt := Some 100; NotBefore := Some 10; DelegationCaveats := None |}.

Lemma CheckPermission_concrete_iff_witness :
  @CheckPermission nibble58 50 (single_request "get" "data/x")
    (sample_cap (mkScope ["data/*"] ["data/secret"])) "system/tree" sample_peer sample_peer = true
  /\ in_window (sample_cap (mkScope ["data/*"] ["data/secret"])) 50.
Proof.
  assert (Hc : @CheckPermission nibble58 50 (single_request "get" "data/x")
    (sample_cap (mkScope ["data/*"] ["data/secret"])) "system/tree" sample_peer sample_peer = true)
    by (vm_compute; reflexivity).
  split; [exact Hc|].
  apply (@CheckPermission_concrete_iff nibble58 50 (single_request "get" "data/x")
           {| Targets := ["data/x"]; rt_Exclude := [] |}) in Hc as [Hw _].
  - exact Hw.
  - reflexivity.
  - intros t Ht. apply list_elem_of_singleton in Ht as ->. vm_compute. reflexivity.
Defined.

Lemma CheckPathPermission_equiv_witness :
  @CheckPathPermission 50 "get" "data/secret" (sample_cap (mkScope ["data/*"] ["data/secret"]))
    "system/tree" sample_peer sample_peer
  = @CheckPermissionRelaxPeers nibble58 50 (single_request "get" "data/secret")
      (sample_cap (mkScope ["data/*"] ["data/secret"])) "system/tree" sample_peer sample_peer true.
Proof.
  apply (@CheckPathPermission_equiv nibble58 50 "get" "data/secret"
           (sample_cap (mkScope ["data/*"] ["data/secret"])) "system/tree" sample_peer sample_peer);
    vm_compute; reflexivity.
Defined.

Lemma unmatchable_exclude_fails_closed_witness :
  @CheckPermissionRelaxPeers nibble58 50 (single_request "get" "data/x")
    (sample_cap (mkScope ["*"] ["*/secret"])) "system/tree" sample_peer sample_peer false = false.
Proof.
  apply (@unmatchable_exclude_fails_closed nibble58 50 (single_request "get" "data/x")
           {| Targets := ["data/x"]; rt_Exclude := [] |} (sample_cap (mkScope ["*"] ["*/secret"]))
           "system/tree" sample_peer sample_peer "get" "data/x" "data/x" false).
  - intros g Hg. apply list_elem_of_singleton in Hg as ->. exists "*/secret".
    split; [left|reflexivity].
  - reflexivity.
  - left.
Defined.
