(* ===== verification/Delegation.v ===== *)
(** * Attenuation ([core/capability/delegation.go], the subset checks)

    [IsAttenuated] and what it calls, the delegation caveats, and the theorem
    that an attenuated capability permits no request its parent refuses. *)

From Stdlib Require Import Ascii.
From S2P Require Import Prelude GoStrings Errors Hash Entity PeerID Paths CapTypes Patterns Check.

Open Scope Z_scope.

Definition maxChainDepth : nat := 64.

(** ** Scope subsets *)

Definition idScopeSubset (child parent : CapabilityScope) : bool :=
  if negb (all (fun childPattern => any (fun parentPattern => idScopeMatches parentPattern childPattern)
                  (Include_ parent)) (Include_ child)) then false
  else all (fun parentEx => any (fun childEx => idScopeMatches childEx parentEx) (Exclude_ child))
         (Exclude_ parent).

Definition excludesInherited (parentExcludes childExcludes : list string)
    (canonParent canonChild : string -> string) : bool :=
  all (fun pe => any (fun ce => MatchesPattern (canonParent pe) (canonChild ce)) childExcludes)
    parentExcludes.

Section delegation.
Context `{DataCodec}.

Definition decodeCBORMap (raw : list byte) : gmap string (list byte) :=
  match raw with
  | [] => ∅
  | _ => match DecodeRawMap raw with Some m => m | None => ∅ end
  end.

(** Each [range] loop returns false at the first offending key: its verdict is
    that of the whole map, in any order. *)
Definition checkMapAttenuation (parentRaw childRaw : list byte) (isConstraint : bool) : bool :=
  let parentMap := decodeCBORMap parentRaw in
  let childMap := decodeCBORMap childRaw in
  if isConstraint then
    all (fun kv : string * list byte => bool_decide (childMap !! fst kv = Some (snd kv)))
      (map_to_list parentMap)
  else
    all (fun kv : string * list byte => bool_decide (parentMap !! fst kv = Some (snd kv)))
      (map_to_list childMap).

Definition grantCovers (parent child : GrantEntry) (parentGranterPeerID childGranterPeerID localPeerID : PeerID)
  : bool :=
  if negb (all (fun childHandler => any (fun parentHandler => MatchesPattern childHandler parentHandler)
                  (Include_ (Handlers parent))) (Include_ (Handlers child))) then false
  else if negb (idScopeSubset (Operations child) (Operations parent)) then false
  else if negb (all (fun childRes =>
                  let canonChild := Canonicalize childRes childGranterPeerID in
                  any (fun parentRes => MatchesPattern canonChild (Canonicalize parentRes parentGranterPeerID))
                    (Include_ (Resources parent))) (Include_ (Resources child))) then false
  else
    let childPeers := peers_or_default (Peers child) localPeerID in
    let parentPeers := peers_or_default (Peers parent) localPeerID in
    if negb (idScopeSubset childPeers parentPeers) then false
    else if negb (excludesInherited (Exclude_ (Handlers parent)) (Exclude_ (Handlers child))
                    (fun s => s) (fun s => s)) then false
    else if negb (excludesInherited (Exclude_ (Resources parent)) (Exclude_ (Resources child))
                    (fun s => Canonicalize s parentGranterPeerID)
                    (fun s => Canonicalize s childGranterPeerID)) then false
    else if negb (checkMapAttenuation (Constraints parent) (Constraints child) true) then false
    else if negb (checkMapAttenuation (Allowances parent) (Allowances child) false) then false
    else true.

Definition IsAttenuated (child parent : CapabilityTokenData)
    (childGranterPeerID parentGranterPeerID localPeerID : PeerID) : bool :=
  if negb (all (fun childGrant =>
             any (fun parentGrant =>
               grantCovers parentGrant childGrant parentGranterPeerID childGranterPeerID localPeerID)
               (Grants parent)) (Grants child)) then false
  else match ExpiresAt parent with
  | None => true
  | Some pe =>
      match ExpiresAt child with
      | None => false
      | Some ce => if pe <? ce then false else true
      end
  end.
End delegation.

(** [depth] is the position of the child in the chain, the leaf being 0. *)
Definition checkDelegationCaveats (parent child : CapabilityTokenData) (depth : nat) : result unit :=
  match DelegationCaveats parent with
  | None => Ok tt
  | Some caveats =>
      if match NoDelegation caveats with Some b => b | None => false end
      then Err [ErrCapabilityDenied]
      else if match MaxDelegationDepth caveats with
              | Some d => d <=? Z.of_nat depth | None => false end
      then Err [ErrCapabilityDenied]
      else if match MaxDelegationTTL caveats, ExpiresAt child with
              | Some ttlMax, Some ex => ttlMax <? u64 (ex - CreatedAt child)
              | _, _ => false
              end
      then Err [ErrCapabilityDenied]
      else Ok tt
  end.

(** ** Peers: literal coverage is coverage under canonicalisation *)

Lemma slash_in_sub q v : HasPrefix v (q +:+ "/") = true -> IndexByte v "/" <> None.
Proof.
  intros [t ->]%HasPrefix_spec Hn. apply IndexByte_append_None in Hn as [Hn _].
  by apply IndexByte_append_None in Hn as [_ ?].
Qed.

Section peers.
Context `{Base58Laws}.

Lemma Canonicalize_slash p : IndexByte p "/" <> None -> CanonicalizePeerID p = None.
Proof.
  intros Hs. unfold CanonicalizePeerID, Decode. destruct (base58_Decode p) as [b|] eqn:E; [|done].
  exfalso. apply Hs, alphabet_no_slash. by eapply base58_alphabet.
Qed.

Lemma peer_include_mono pp pc tp :
  idScopeMatches pp pc = true -> IndexByte tp "/" = None ->
  peerPatternMatches pc tp = peerMatchYes -> peerPatternMatches pp tp = peerMatchYes.
Proof.
  intros Hm Htp Hy. destruct (idScope_cases pp) as [->|[[q ->]|Hx]].
  - done.
  - rewrite idScope_sub in Hm. pose proof (slash_in_sub _ _ Hm) as Hs. exfalso. revert Hy.
    unfold peerPatternMatches. destruct (String.eqb_spec pc "*") as [->|]; [by vm_compute in Hs|].
    destruct (String.eqb_spec pc tp) as [->|]; [done|]. cbn [orb].
    by rewrite Canonicalize_slash.
  - rewrite Hx in Hm. bool_prop. by subst.
Qed.

Lemma peer_exclude_mono ce pe tp :
  idScopeMatches ce pe = true -> peerPatternMatches ce tp = peerMatchNo ->
  peerPatternMatches pe tp = peerMatchNo.
Proof.
  intros Hm Hn. destruct (idScope_cases ce) as [->|[[q ->]|Hx]].
  - done.
  - exfalso. revert Hn. unfold peerPatternMatches. destruct (_ || _); [done|].
    rewrite Canonicalize_slash; [done|]. apply (slash_in_sub q).
    change "/*" with ("/" +:+ "*"). rewrite <- append_assoc. apply HasPrefix_append.
  - rewrite Hx in Hm. bool_prop. by subst.
Qed.
End peers.

(** ** The subset checks, unfolded *)

Lemma idScopeSubset_iff child parent :
  idScopeSubset child parent = true <->
  (forall c, c ∈ Include_ child -> exists p, p ∈ Include_ parent /\ idScopeMatches p c = true)
  /\ (forall pe, pe ∈ Exclude_ parent -> exists ce, ce ∈ Exclude_ child /\ idScopeMatches ce pe = true).
Proof.
  unfold idScopeSubset. destruct (all _ (Include_ child)) eqn:E; cbn [negb].
  - rewrite all_true in E. setoid_rewrite any_true in E. rewrite all_true. setoid_rewrite any_true. tauto.
  - split; [done|]. intros [Hi _]. apply not_true_iff_false in E. exfalso. apply E.
    rewrite all_true. setoid_rewrite any_true. exact Hi.
Qed.

Lemma excludesInherited_iff pes ces cp cc :
  excludesInherited pes ces cp cc = true <->
  forall pe, pe ∈ pes -> exists ce, ce ∈ ces /\ MatchesPattern (cp pe) (cc ce) = true.
Proof. unfold excludesInherited. rewrite all_true. by setoid_rewrite any_true. Qed.

Section covers.
Context `{DataCodec}.

Lemma grantCovers_inv parent child pg cg lp :
  grantCovers parent child pg cg lp = true ->
  (forall c, c ∈ Include_ (Handlers child) ->
     exists p, p ∈ Include_ (Handlers parent) /\ MatchesPattern c p = true)
  /\ idScopeSubset (Operations child) (Operations parent) = true
  /\ (forall c, c ∈ Include_ (Resources child) ->
       exists p, p ∈ Include_ (Resources parent) /\ MatchesPattern (Canonicalize c cg) (Canonicalize p pg) = true)
  /\ idScopeSubset (peers_or_default (Peers child) lp) (peers_or_default (Peers parent) lp) = true
  /\ (forall pe, pe ∈ Exclude_ (Handlers parent) ->
       exists ce, ce ∈ Exclude_ (Handlers child) /\ MatchesPattern pe ce = true)
  /\ (forall pe, pe ∈ Exclude_ (Resources parent) ->
       exists ce, ce ∈ Exclude_ (Resources child)
         /\ MatchesPattern (Canonicalize pe pg) (Canonicalize ce cg) = true)
  /\ checkMapAttenuation (Constraints parent) (Constraints child) true = true
  /\ checkMapAttenuation (Allowances parent) (Allowances child) false = true.
Proof.
  unfold grantCovers. intros Hg.
  destruct (negb (all _ (Include_ (Handlers child)))) eqn:E1; [done|].
  destruct (negb (idScopeSubset (Operations child) _)) eqn:E2; [done|].
  destruct (negb (all _ (Include_ (Resources child)))) eqn:E3; [done|].
  destruct (negb (idScopeSubset (peers_or_default _ _) _)) eqn:E4; [done|].
  destruct (negb (excludesInherited (Exclude_ (Handlers parent)) _ _ _)) eqn:E5; [done|].
  destruct (negb (excludesInherited (Exclude_ (Resources parent)) _ _ _)) eqn:E6; [done|].
  destruct (negb (checkMapAttenuation (Constraints parent) _ _)) eqn:E7; [done|].
  destruct (negb (checkMapAttenuation (Allowances parent) _ _)) eqn:E8; [done|].
  bool_prop. rewrite all_true in E1, E3. setoid_rewrite any_true in E1. setoid_rewrite any_true in E3.
  rewrite excludesInherited_iff in E5, E6. done.
Qed.

Lemma IsAttenuated_iff child parent cg pg lp :
  IsAttenuated child parent cg pg lp = true <->
  (forall c, c ∈ Grants child -> exists p, p ∈ Grants parent /\ grantCovers p c pg cg lp = true)
  /\ (forall pe, ExpiresAt parent = Some pe -> exists ce, ExpiresAt child = Some ce /\ ce <= pe).
Proof.
  unfold IsAttenuated. destruct (all _ (Grants child)) eqn:E; cbn [negb].
  - rewrite all_true in E. setoid_rewrite any_true in E.
    destruct (ExpiresAt parent) as [pe|]; [|split; [|done]; intros _; split; [exact E|done]].
    destruct (ExpiresAt child) as [ce|].
    + destruct (Z.ltb_spec pe ce).
      * split; [done|]. intros [_ Hx]. destruct (Hx pe eq_refl) as (? & [= <-] & ?). lia.
      * split; [|done]. intros _. split; [exact E|]. intros ? [= <-]. exists ce. split; [done|lia].
    + split; [done|]. intros [_ Hx]. by destruct (Hx pe eq_refl) as (? & ? & _).
  - split; [done|]. intros [Hg _]. apply not_true_iff_false in E. exfalso. apply E.
    rewrite all_true. setoid_rewrite any_true. exact Hg.
Qed.
End covers.

(** ** Monotonicity of the dimensions *)

Section path_mono.
Context (cc cp : string -> string) (ci pi ces pes : list string).
Hypothesis Hinc : forall c, c ∈ ci -> exists p, p ∈ pi /\ MatchesPattern (cc c) (cp p) = true.
Hypothesis Hexc : forall pe, pe ∈ pes -> exists ce, ce ∈ ces /\ MatchesPattern (cp pe) (cc ce) = true.

Lemma path_scope_mono v :
  (exists c, c ∈ ci /\ MatchesPattern v (cc c) = true) ->
  (forall ce, ce ∈ ces -> IsUnmatchablePattern (cc ce) = false /\ MatchesPattern v (cc ce) = false) ->
  (exists p, p ∈ pi /\ MatchesPattern v (cp p) = true)
  /\ (forall pe, pe ∈ pes -> IsUnmatchablePattern (cp pe) = false /\ MatchesPattern v (cp pe) = false).
Proof.
  intros (c & Hc & Hv) Hex. split.
  - destruct (Hinc c Hc) as (p & Hp & Hcp). exists p. split; [done|]. by eapply Matches_trans.
  - intros pe Hpe. destruct (Hexc pe Hpe) as (ce & Hce & Hm). destruct (Hex ce Hce) as [Hu Hn]. split.
    + apply not_true_iff_false. intros Hup. destruct (Matches_unmatchable _ _ Hup Hm) as [He|He].
      * by rewrite He in Hn.
      * congruence.
    + apply not_true_iff_false. intros Hvp. by rewrite (Matches_trans _ _ _ Hvp Hm) in Hn.
Qed.
End path_mono.

Lemma id_scope_mono child parent v :
  idScopeSubset child parent = true -> matchesIDScope v child = true -> matchesIDScope v parent = true.
Proof.
  rewrite idScopeSubset_iff, !matchesIDScope_iff. intros [Hi He] [(c & Hc & Hv) Hn]. split.
  - destruct (Hi c Hc) as (p & Hp & Hcp). exists p. split; [done|]. by eapply idScope_trans.
  - intros pe Hpe. destruct (He pe Hpe) as (ce & Hce & Hm). apply not_true_iff_false. intros Hvp.
    specialize (Hn ce Hce). by rewrite (idScope_trans _ _ _ Hm Hvp) in Hn.
Qed.

Lemma peer_scope_mono `{Base58Laws} child parent tp :
  IndexByte tp "/" = None ->
  idScopeSubset child parent = true -> matchesPeerScope tp child = true -> matchesPeerScope tp parent = true.
Proof.
  intros Htp. rewrite idScopeSubset_iff, !matchesPeerScope_iff. intros [Hi He] [(c & Hc & Hv) Hn]. split.
  - destruct (Hi c Hc) as (p & Hp & Hcp). exists p. split; [done|]. by eapply peer_include_mono.
  - intros pe Hpe. destruct (He pe Hpe) as (ce & Hce & Hm). eapply peer_exclude_mono; [exact Hm|]. auto.
Qed.

(** ** Overlap is monotone away from the peer wildcard *)

Lemma HasPrefix_slash_cut q p : HasPrefix (p +:+ "/") (q +:+ "/") = true -> HasPrefix p q = true.
Proof.
  intros [t Ht]%HasPrefix_spec. apply HasPrefix_spec. rewrite append_assoc in Ht.
  destruct (append_eq_append _ _ _ _ Ht) as [(w & -> & Hw)|(w & -> & _)]; [|by exists w].
  destruct w as [|x w]; [exists ""; by rewrite !append_nil_r|].
  rewrite append_cons in Hw. injection Hw as _ Hw. by destruct w.
Qed.

Lemma TrimSuffix_sub_prefix q p :
  HasPrefix p (q +:+ "/") = true -> HasPrefix (TrimSuffix p "/*") q = true.
Proof.
  intros Hp. unfold TrimSuffix. destruct (HasSuffix p "/*") eqn:E.
  - rewrite (HasSuffix_drop _ _ E) in Hp. apply HasSuffix_spec in E as [t ->].
    replace (slen (t +:+ "/*") - slen "/*")%nat with (slen t) in * by (rewrite slen_append; simpl; lia).
    rewrite str_take_append in *. by apply HasPrefix_slash_cut, prefix_slash_of_sub.
  - eapply HasPrefix_trans; [exact Hp|apply HasPrefix_append].
Qed.

Lemma IsPattern_sub q : IsPattern (q +:+ "/*") = true.
Proof. apply Contains_suffix, HasSuffix_spec. eauto. Qed.

Lemma PatternsOverlap_patterns a b :
  IsPattern a = true -> IsPattern b = true -> a <> "*" -> b <> "*" ->
  PatternsOverlap a b
  = HasPrefix (TrimSuffix a "/*") (TrimSuffix b "/*") || HasPrefix (TrimSuffix b "/*") (TrimSuffix a "/*").
Proof.
  intros Ha Hb H1%String.eqb_neq H2%String.eqb_neq. unfold PatternsOverlap. by rewrite H1, H2, Ha, Hb.
Qed.

Lemma PatternsOverlap_concrete a b :
  IsPattern a = true -> IsPattern b = false -> a <> "*" ->
  PatternsOverlap a b = MatchesPattern b a.
Proof.
  intros Ha Hb H1%String.eqb_neq. unfold PatternsOverlap. rewrite H1, Ha, Hb.
  destruct (String.eqb_spec b "*") as [->|]; [done|]. done.
Qed.

(** A wider exclude overlaps whatever the exclude it covers overlaps. *)
Lemma PatternsOverlap_mono ct pe ce :
  IsPattern ct = true -> ct <> "*" -> ce <> "*" -> pe <> "*" ->
  HasPrefix ct "/*/" = false -> HasPrefix ce "/*/" = false ->
  MatchesPattern pe ce = true -> PatternsOverlap ct pe = true -> PatternsOverlap ct ce = true.
Proof.
  intros Hpat Hcs Hes Hps Hc He Hm Ho.
  destruct (IsPattern pe) eqn:Ppe.
  - destruct (view ce) as [|r|q Hq|ce H1 H2 H3]; [done|done| |].
    + rewrite Matches_sub in Hm by done. apply TrimSuffix_sub_prefix in Hm.
      rewrite PatternsOverlap_patterns in * by auto using IsPattern_sub. rewrite TrimSuffix_append.
      apply orb_true_iff in Ho as [Ho|Ho].
      * apply orb_true_iff. left. by eapply HasPrefix_trans.
      * by eapply prefixes_comparable.
    + rewrite Matches_exact in Hm by done. bool_prop. by subst.
  - apply (PatternsOverlap_complete ct ce pe); [done..| |done].
    by rewrite PatternsOverlap_concrete in Ho.
Qed.

(** A target for which attenuation is sound: concrete, or a pattern without
    the peer wildcard, against child excludes without it. *)
Definition attenuable_target (t : string) (lp cg : PeerID) (childExcludes : list string) : Prop :=
  IsPattern (Canonicalize t lp) = false
  \/ HasPrefix (Canonicalize t lp) "/*/" = false
     /\ forall ce, ce ∈ childExcludes -> HasPrefix (Canonicalize ce cg) "/*/" = false.

Section resources.
Context (child parent : CapabilityScope) (cg pg lp : PeerID).
Hypothesis Hinc : forall c, c ∈ Include_ child ->
  exists p, p ∈ Include_ parent /\ MatchesPattern (Canonicalize c cg) (Canonicalize p pg) = true.
Hypothesis Hexc : forall pe, pe ∈ Exclude_ parent ->
  exists ce, ce ∈ Exclude_ child /\ MatchesPattern (Canonicalize pe pg) (Canonicalize ce cg) = true.

Lemma pattern_excludes_mono ct callerExclude :
  IsPattern ct = true -> ct <> "*" -> HasPrefix ct "/*/" = false ->
  (forall ce, ce ∈ Exclude_ child -> HasPrefix (Canonicalize ce cg) "/*/" = false) ->
  pattern_excludes_ok ct (Exclude_ child) callerExclude lp cg = true ->
  pattern_excludes_ok ct (Exclude_ parent) callerExclude lp pg = true.
Proof.
  unfold pattern_excludes_ok. rewrite !all_true. intros Hp Hs Hc Hce Hok pe Hpe.
  destruct (Hexc pe Hpe) as (ce & Hin & Hm). specialize (Hok ce Hin). cbn beta zeta in *.
  destruct (IsUnmatchablePattern (Canonicalize ce cg)) eqn:Hu; [done|].
  assert (Hup : IsUnmatchablePattern (Canonicalize pe pg) = false).
  { apply not_true_iff_false. intros Hup. destruct (Matches_unmatchable _ _ Hup Hm) as [He|He]; [|congruence].
    by apply (Canonicalize_not_star ce cg). }
  rewrite Hup. destruct (PatternsOverlap ct (Canonicalize pe pg)) eqn:Ho; [|done]. cbn [negb].
  rewrite (PatternsOverlap_mono ct (Canonicalize pe pg) (Canonicalize ce cg)) in Hok;
    try done; auto using Canonicalize_not_star.
  cbn [negb] in Hok. rewrite IsCoveredBy_iff in *. destruct Hok as (x & Hx & Hmx).
  exists x. split; [done|]. rewrite Canonicalize_idem in *. by eapply Matches_trans.
Qed.

Lemma target_ok_mono t callerExclude :
  attenuable_target t lp cg (Exclude_ child) ->
  target_ok t child callerExclude lp cg = true -> target_ok t parent callerExclude lp pg = true.
Proof.
  intros Hat.
  destruct (IsPattern (Canonicalize t lp)) eqn:Hp.
  - destruct Hat as [?|[Hc Hce]]; [congruence|]. unfold target_ok. rewrite Hp. cbn [negb andb].
    destruct (IsCoveredBy t (Include_ child) lp cg) eqn:Hi; cbn [negb]; [|done]. intros Hok.
    rewrite IsCoveredBy_iff in Hi. destruct Hi as (c & Hcin & Hcm). destruct (Hinc c Hcin) as (p & Hpin & Hpm).
    rewrite (proj2 (IsCoveredBy_iff t (Include_ parent) lp pg))
      by (exists p; split; [done|by eapply Matches_trans]).
    cbn [negb]. eapply pattern_excludes_mono; try done. apply Canonicalize_not_star.
  - rewrite !target_ok_concrete by done. rewrite !IsCoveredBy_iff, !isExcluded_false.
    intros (Hv & Hi & He). split; [done|].
    destruct (path_scope_mono (fun s => Canonicalize s cg) (fun s => Canonicalize s pg)
      _ _ _ _ Hinc Hexc (Canonicalize t lp) Hi) as [H1 H2].
    + intros ce Hce. rewrite unmatchable_Canonicalize. auto.
    + split; [done|]. intros pe Hpe. specialize (H2 pe Hpe). by rewrite unmatchable_Canonicalize in H2.
Qed.
End resources.

(** ** Attenuation is sound *)

Lemma extractPeer_no_slash l lp : IndexByte lp "/" = None -> IndexByte (extractPeer l lp) "/" = None.
Proof.
  intros Hl. unfold extractPeer, isPeerID. destruct (_ <? _)%nat; [done|].
  destruct (str_forallb _ _) eqn:E; [|done]. by apply alphabet_no_slash.
Qed.

(** The request asks only for targets that attenuation by [cap] covers. *)
Definition attenuable_request (ex : ExecuteData) (cap : CapabilityTokenData) (lp cg : PeerID) : Prop :=
  forall r t g, Resource ex = Some r -> t ∈ Targets r -> g ∈ Grants cap ->
    attenuable_target t lp cg (Exclude_ (Resources g)).

Section sound.
Context `{Base58Laws, DataCodec}.

Lemma grantCovers_sound parent child pg cg lp ex hp relax tp :
  grantCovers parent child pg cg lp = true -> IndexByte tp "/" = None ->
  (forall r t, Resource ex = Some r -> t ∈ Targets r ->
     attenuable_target t lp cg (Exclude_ (Resources child))) ->
  grant_matches ex child hp lp cg relax tp = true -> grant_matches ex parent hp lp pg relax tp = true.
Proof.
  intros (Hh & Ho & Hr & Hp & Hhe & Hre & _ & _)%grantCovers_inv Htp Hat.
  rewrite !grant_matches_iff. intros (Mo & Mh & Mr & Mp). split_and!.
  - by eapply id_scope_mono.
  - rewrite scopeContains_iff in *. destruct Mh as [Mi Me].
    by apply (path_scope_mono (fun s => s) (fun s => s) _ _ _ _ Hh Hhe hp).
  - intros r Hres. specialize (Mr r Hres). rewrite CheckResourceScope_iff in *. intros t Ht Hc.
    eapply target_ok_mono; eauto.
  - intros Hrel. unfold MatchesPeerScope in *. eapply peer_scope_mono; eauto.
Qed.

Lemma IsAttenuated_check child parent cg pg lp now ex hp relax :
  IsAttenuated child parent cg pg lp = true ->
  IndexByte lp "/" = None -> attenuable_request ex child lp cg ->
  NotYetValid (NotBefore parent) now = false ->
  CheckPermissionRelaxPeers now ex child hp lp cg relax = true ->
  CheckPermissionRelaxPeers now ex parent hp lp pg relax = true.
Proof.
  rewrite IsAttenuated_iff, !CheckPermissionRelaxPeers_iff.
  intros [Hg He] Hlp Hat Hnb (Hw & g & Hin & Hm). split.
  - apply in_window_iff. apply in_window_iff in Hw as [_ Hex]. split; [done|].
    destruct (ExpiresAt parent) as [pe|] eqn:Epe; [|done]. destruct (He pe eq_refl) as (ce & Ece & Hle).
    rewrite Ece in Hex. cbn in *. apply Z.leb_gt. apply Z.leb_gt in Hex. lia.
  - destruct (Hg g Hin) as (p & Hp & Hc). exists p. split; [done|].
    eapply grantCovers_sound; eauto using extractPeer_no_slash.
Qed.


End sound.

(** The delegation caveats, exactly. A link is accepted under its parent's
    caveats when delegation is not forbidden, the link's depth is below the
    bound, and a link that expires lives at most the bound (the lifetime is
    computed in 64 bits, so one that expires before it is created wraps to a
    huge lifetime and is refused, when the bound is below 2^63 and the times are
    below 2^63). *)
Theorem checkDelegationCaveats_iff (parent child : CapabilityTokenData) (depth : nat) (cv : DelegationCaveats_) :
  DelegationCaveats parent = Some cv ->
  checkDelegationCaveats parent child depth = Ok tt <->
  NoDelegation cv <> Some true
  /\ (forall d, MaxDelegationDepth cv = Some d -> Z.of_nat depth < d)
  /\ (forall ttl ex, MaxDelegationTTL cv = Some ttl -> ExpiresAt child = Some ex ->
       u64 (ex - CreatedAt child) <= ttl
       /\ (0 <= ex < 2 ^ 63 -> 0 <= CreatedAt child < 2 ^ 63 -> ttl < 2 ^ 63 ->
           CreatedAt child <= ex /\ ex - CreatedAt child <= ttl)).
Proof.
  intros Hcv. unfold checkDelegationCaveats. rewrite Hcv.
  assert (Hwrap : forall ttl ex, u64 (ex - CreatedAt child) <= ttl ->
    0 <= ex < 2 ^ 63 -> 0 <= CreatedAt child < 2 ^ 63 -> ttl < 2 ^ 63 ->
    CreatedAt child <= ex /\ ex - CreatedAt child <= ttl).
  { intros ttl ex Ht H1 H2 H3. unfold u64, two64 in Ht. destruct (Z_le_gt_dec (CreatedAt child) ex).
    - rewrite Z.mod_small in Ht by lia. lia.
    - exfalso. rewrite <- (Z.mod_unique_pos (ex - CreatedAt child) (2 ^ 64) (-1)
        (ex - CreatedAt child + 2 ^ 64)) in Ht by lia. lia. }
  destruct (NoDelegation cv) as [[]|]; [by split; [|intros [? _]]| |].
  all: destruct (MaxDelegationDepth cv) as [d|]; [destruct (Z.leb_spec d (Z.of_nat depth))|];
    [split; [done|intros (_ & Hd & _); specialize (Hd d eq_refl); lia]| |].
  all: destruct (MaxDelegationTTL cv) as [ttl|], (ExpiresAt child) as [ex|];
    [destruct (Z.ltb_spec ttl (u64 (ex - CreatedAt child)))|..].
  all: split; [intros Hok; try discriminate Hok|try done].
  all: try (intros (_ & _ & Ht); specialize (Ht _ _ eq_refl eq_refl) as [Ht _]; lia).
  all: split; [done|split; [by intros ? [= <-]|]]; intros t e Ht He; try done; simplify_eq; eauto.
Qed.

(** ** Witnesses and limits *)

Definition empty_codec : DataCodec := {|
  DecodeToken _ := None; DecodePeer _ := None; DecodeSignature _ := None;
  DecodeSigTarget _ := None; DecodeExecute _ := None; DecodeRawMap _ := None |}.

Definition sample_parent : CapabilityTokenData := sample_cap (mkScope ["data/*"] ["data/secret"]).
Definition sample_child : CapabilityTokenData := {|
  Grants := [{| Handlers := mkScope ["system/tree"] ["system/admin"];
                Resources := mkScope ["data/a/*"; "data/secret"] ["data/secret"];
                Operations := mkScope ["get"] []; Peers := None; Constraints := []; Allowances := [] |}];
  Granter_ := SingleSigGranter zero_hash; Grantee := zero_hash; Parent := None; CreatedAt := 0;
  ExpiresAt := Some 90; NotBefore := None;
  DelegationCaveats := Some {| NoDelegation := None; MaxDelegationDepth := Some 2; MaxDelegationTTL := Some 90 |} |}.



Lemma checkDelegationCaveats_iff_witness :
  checkDelegationCaveats sample_child sample_child 1 = Ok tt
  /\ (forall d, MaxDelegationDepth {| NoDelegation := None; MaxDelegationDepth := Some 2;
                                      MaxDelegationTTL := Some 90 |} = Some d -> Z.of_nat 1 < d).
Proof.
  split; [vm_compute; reflexivity|].
  destruct (proj1 (checkDelegationCaveats_iff sample_child sample_child 1 _ eq_refl)) as (_ & Hd & _);
    [vm_compute; reflexivity|exact Hd].
Defined.

(** With the peer wildcard in a child exclude, attenuation of pattern targets
    is not sound: the child replaces the parent's exclude of [data/secret] by
    the wider [/*/data/secret], [IsAttenuated] accepts it, and the child permits
    the target [data/*], which spans the excluded path, while the parent
    refuses it. *)
Definition escaping_child : CapabilityTokenData := {|
  Grants := [sample_grant (mkScope ["data/*"] ["/*/data/secret"])];
  Granter_ := SingleSigGranter zero_hash; Grantee := zero_hash; Parent := None; CreatedAt := 0;
  ExpiresAt := Some 100; NotBefore := None; DelegationCaveats := None |}.

Theorem pattern_target_escapes_attenuation :
  @IsAttenuated empty_codec escaping_child sample_parent sample_peer sample_peer sample_peer = true
  /\ @CheckPermission nibble58 50 (single_request "get" "data/*") escaping_child "system/tree"
       sample_peer sample_peer = true
  /\ @CheckPermission nibble58 50 (single_request "get" "data/*") sample_parent "system/tree"
       sample_peer sample_peer = false
  /\ MatchesPattern (Canonicalize "data/secret" sample_peer) (Canonicalize "data/*" sample_peer) = true.
Proof. vm_compute. repeat split. Qed.

(** The lifetime caveat does not bind a child that never expires. *)
Theorem ttl_caveat_ignores_unlimited (parent child : CapabilityTokenData) (ttl : Z) :
  DelegationCaveats parent = Some {| NoDelegation := None; MaxDelegationDepth := None;
                                     MaxDelegationTTL := Some ttl |} ->
  ExpiresAt child = None -> checkDelegationCaveats parent child 0 = Ok tt.
Proof. intros Hd He. unfold checkDelegationCaveats. by rewrite Hd, He. Qed.
