(* ===== verification/Chain.v ===== *)
(** * Authority chains ([core/capability/delegation.go], [authority.go])

    Walking a capability to its root and verifying every link of the walk.  The
    wall clock is read once per link: [clock i] is the reading at link [i]. *)

From Stdlib Require Import Ascii.
From S2P Require Import Prelude GoStrings Errors Hash Entity PeerID Paths CapTypes Patterns Check Delegation.

Open Scope Z_scope.

Abbreviation included_map := (gmap Hash Entity).
Abbreviation denied := ([ErrCapabilityDenied] : GoErr).

(** ** The walk to the root *)

Section walk.
Context `{DataCodec}.

Definition EntityResolver : Type := Hash -> option Entity.

Definition IncludedResolver (included : included_map) : EntityResolver := fun h => included !! h.

(** One iteration per link; [remaining] is [maxChainDepth + 1 - depth], so the
    test [depth > maxChainDepth] is [remaining = 0]. *)
Fixpoint collect (remaining : nat) (chainFormatCode : byte) (resolve : EntityResolver)
    (chain : list Entity) (current : Entity) : result (list Entity) :=
  match remaining with
  | O => Err [ErrChainTooDeep]
  | S remaining' =>
      if decide (Algorithm (ContentHash current) <> chainFormatCode) then Err denied
      else
        let chain := chain ++ [current] in
        let! capData := CapabilityTokenDataFromEntity current in
        match Parent capData with
        | None => Ok chain
        | Some p =>
            match resolve p with
            | None => Err [ErrChainUnreachable]
            | Some parentEntity => collect remaining' chainFormatCode resolve chain parentEntity
            end
        end
  end.

Definition CollectAuthorityChain (capEntity : Entity) (resolve : EntityResolver) : result (list Entity) :=
  collect (maxChainDepth + 1) (Algorithm (ContentHash capEntity)) resolve [] capEntity.
End walk.

(** ** Signatures *)

Section signatures.
Context `{DataCodec, MapOrder}.

Definition site_signature_for_target : nat := 3.
Definition site_link_signer : nat := 4.
Definition site_root_signer : nat := 5.
Definition site_creator_signer : nat := 6.

Definition signature_matches (p : SignatureData -> bool) (ent : Entity) : bool :=
  if negb (String.eqb (Type_ ent) TypeSignature) then false
  else match SignatureDataFromEntity ent with Err _ => false | Ok sd => p sd end.

Definition findSignatureForTarget (target : Hash) (included : included_map) : option Entity :=
  List.find (signature_matches (fun sd => bool_decide (Target sd = target)))
    (map snd (map_range site_signature_for_target [target] included)).

Definition findSignatureBySigner (site : nat) (target signer : Hash) (included : included_map)
  : option Entity :=
  List.find (signature_matches (fun sd => bool_decide (Target sd = target) && bool_decide (Signer sd = signer)))
    (map snd (map_range site [target; signer] included)).
End signatures.

(** ** Verifying one link *)

Section verify.
Context `{Base58, Signing, HashableCodec, DataCodec, MapOrder}.

Definition granterPeerIDFromIncluded (granter : Granter) (included : included_map) (localPeerID : PeerID)
  : result PeerID :=
  match SingleHash granter with
  | None => Ok localPeerID
  | Some granterHash =>
      if IsZero granterHash then Ok localPeerID
      else match included !! granterHash with
      | None => Err []
      | Some granterEnt => peerIDFromPeerEntity granterEnt
      end
  end.

(** The body of the multi-signature loop after the duplicate check: does this
    candidate contribute a valid signature? *)
Definition candidate_signed (current : Entity) (included : included_map) (candidate : Hash) : bool :=
  match included !! candidate with
  | None => false
  | Some candidateIdentity =>
      match PeerDataFromEntity candidateIdentity with
      | Err _ => false
      | Ok idData =>
          match findSignatureBySigner site_link_signer (ContentHash current) candidate included with
          | None => false
          | Some sigEntity =>
              match SignatureDataFromEntity sigEntity with
              | Err _ => false
              | Ok sigData =>
                  match PeerData_KeyTypeByte idData with
                  | None => false
                  | Some ktByte =>
                      Verify ktByte (PublicKey idData) (Bytes (ContentHash current)) (Signature sigData)
                  end
              end
          end
      end
  end.

Fixpoint count_signers (current : Entity) (included : included_map) (threshold : Z)
    (seen : list Hash) (valid : Z) (signers : list Hash) : result unit :=
  match signers with
  | [] => Err denied
  | candidate :: rest =>
      if decide (candidate ∈ seen) then count_signers current included threshold seen valid rest
      else if negb (candidate_signed current included candidate)
      then count_signers current included threshold (candidate :: seen) valid rest
      else if threshold <=? valid + 1 then Ok tt
      else count_signers current included threshold (candidate :: seen) (valid + 1) rest
  end.

Definition verifyLinkSignatures (current : Entity) (capData : CapabilityTokenData) (included : included_map)
  : result unit :=
  match Granter_ capData with
  | SingleSigGranter granterHash =>
      let! sigEntity := of_option denied (findSignatureForTarget (ContentHash current) included) in
      let! sigData := res_map_err (wrapv ErrCapabilityDenied) (SignatureDataFromEntity sigEntity) in
      if decide (Signer sigData <> granterHash) then Err denied
      else
        let! granterEntity := of_option denied (included !! granterHash) in
        let! granterData := res_map_err (wrapv ErrCapabilityDenied) (PeerDataFromEntity granterEntity) in
        let! ktByte := of_option [ErrAuthenticationFailed] (PeerData_KeyTypeByte granterData) in
        if negb (Verify ktByte (PublicKey granterData) (Bytes (ContentHash current)) (Signature sigData))
        then Err [ErrAuthenticationFailed]
        else Ok tt
  | MultiSigGranter multi =>
      let n := Z.of_nat (length (Signers multi)) in
      if (n <? 2) || (Threshold multi <? 2) || (n <? Threshold multi) then Err denied
      else count_signers current included (Threshold multi) [] 0 (Signers multi)
  end.

(** The body of the multi-signature loop of [verifyRootGranter]. *)
Definition local_signer (root : Entity) (included : included_map) (localPeerID : PeerID) (candidate : Hash)
  : bool :=
  match included !! candidate with
  | None => false
  | Some candidateIdentity =>
      match PeerDataFromEntity candidateIdentity with
      | Err _ => false
      | Ok idData =>
          match PeerData_KeyTypeByte idData with
          | None => false
          | Some ktByte =>
              match PeerIDFromPublicKey (PublicKey idData) ktByte with
              | Err _ => false
              | Ok candPID =>
                  if negb (String.eqb candPID localPeerID) then false
                  else match findSignatureBySigner site_root_signer (ContentHash root) candidate included with
                  | None => false
                  | Some sigEntity =>
                      match SignatureDataFromEntity sigEntity with
                      | Err _ => false
                      | Ok sigData =>
                          Verify ktByte (PublicKey idData) (Bytes (ContentHash root)) (Signature sigData)
                      end
                  end
              end
          end
      end
  end.

Definition verifyRootGranter (root : Entity) (capData : CapabilityTokenData) (included : included_map)
    (localPeerID : PeerID) : result unit :=
  match Granter_ capData with
  | SingleSigGranter granterHash =>
      let! granterEntity := of_option denied (included !! granterHash) in
      let! granterData := res_map_err (wrapv ErrCapabilityDenied) (PeerDataFromEntity granterEntity) in
      let! ktByte := of_option denied (PeerData_KeyTypeByte granterData) in
      let! granterPID := res_map_err (wrapv ErrCapabilityDenied)
                           (PeerIDFromPublicKey (PublicKey granterData) ktByte) in
      if negb (String.eqb granterPID localPeerID) then Err denied else Ok tt
  | MultiSigGranter multi =>
      if any (local_signer root included localPeerID) (Signers multi) then Ok tt else Err denied
  end.

(** ** Verifying the chain *)

(** The checks every link undergoes, root or not. *)
Definition verify_link (now : Z) (current : Entity) (included : included_map)
  : result CapabilityTokenData :=
  let! capData := res_map_err (wrapv ErrCapabilityDenied) (CapabilityTokenDataFromEntity current) in
  check! res_map_err (wrap2 ErrCapabilityDenied) (ValidateStructure capData);
  if negb (String.eqb (FirstUnmatchableScopePattern (Grants capData)) "") then Err denied
  else if NotYetValid (NotBefore capData) now then Err denied
  else if Expired (ExpiresAt capData) now then Err denied
  else
    check! verifyLinkSignatures current capData included;
    match included !! Grantee capData with
    | None => Err [ErrUnresolvableGrantee]
    | Some granteeEnt =>
        if negb (String.eqb (Type_ granteeEnt) TypePeer) then Err [ErrUnresolvableGrantee] else Ok capData
    end.

(** The checks of a non-root link against its parent. *)
Definition verify_step (i : nat) (capData : CapabilityTokenData) (parentEntity : Entity)
    (included : included_map) (localPeerID : PeerID) : result unit :=
  let! parentData := res_map_err (wrapv ErrCapabilityDenied) (CapabilityTokenDataFromEntity parentEntity) in
  let! currentGranterHash := of_option denied (SingleHash (Granter_ capData)) in
  if decide (Grantee parentData <> currentGranterHash) then Err denied
  else
    let! childGranterPeerID := res_map_err (wrapv ErrCapabilityDenied)
      (granterPeerIDFromIncluded (Granter_ capData) included localPeerID) in
    let! parentGranterPeerID := res_map_err (wrapv ErrCapabilityDenied)
      (granterPeerIDFromIncluded (Granter_ parentData) included localPeerID) in
    if negb (IsAttenuated capData parentData childGranterPeerID parentGranterPeerID localPeerID)
    then Err denied
    else checkDelegationCaveats parentData capData i.

Fixpoint verify_links (clock : nat -> Z) (i : nat) (chain : list Entity) (included : included_map)
    (localPeerID : PeerID) : result unit :=
  match chain with
  | [] => Ok tt
  | current :: rest =>
      let! capData := verify_link (clock i) current included in
      match rest with
      | [] => verifyRootGranter current capData included localPeerID
      | parentEntity :: _ =>
          check! verify_step i capData parentEntity included localPeerID;
          verify_links clock (S i) rest included localPeerID
      end
  end.

Definition VerifyChain (clock : nat -> Z) (capEntity : Entity) (included : included_map) (localPeerID : PeerID)
  : result unit :=
  check! res_map_err (wrapv ErrCapabilityDenied) (Env.VerifyIncludedKeyBinding included);
  let! chain := res_map_err (fun e => if errors_Is e ErrChainTooDeep then e else denied)
                  (CollectAuthorityChain capEntity (IncludedResolver included)) in
  verify_links clock 0 chain included localPeerID.
End verify.

(** ** The walk: specification *)

Section walk_spec.
Context `{DataCodec}.

(** [chain_to_root resolve e l]: following parent pointers from [e] through
    [resolve] gives the links [l], leaf first, ending at a token without
    parent. *)
Inductive chain_to_root (resolve : EntityResolver) : Entity -> list Entity -> Prop :=
| chain_root e d :
    CapabilityTokenDataFromEntity e = Ok d -> Parent d = None -> chain_to_root resolve e [e]
| chain_step e d h p l :
    CapabilityTokenDataFromEntity e = Ok d -> Parent d = Some h -> resolve h = Some p ->
    chain_to_root resolve p l -> chain_to_root resolve e (e :: l).

Definition same_format (f : byte) (l : list Entity) : Prop :=
  Forall (fun e => Algorithm (ContentHash e) = f) l.

Lemma chain_to_root_fun resolve e l l' :
  chain_to_root resolve e l -> chain_to_root resolve e l' -> l = l'.
Proof.
  intros H1. revert l'. induction H1 as [e d Hd Hp|e d h p l Hd Hp Hr Hc IH]; intros l' H2.
  - inversion H2; [done|congruence].
  - inversion H2 as [|e' d' h' p' l'' Hd' Hp' Hr' Hc']; subst; [congruence|]. f_equal. apply IH. congruence.
Qed.

Lemma collect_ok n f resolve acc e chain :
  collect n f resolve acc e = Ok chain <->
  exists l, chain = acc ++ l /\ chain_to_root resolve e l /\ (length l <= n)%nat /\ same_format f l.
Proof.
  revert acc e. induction n as [|n IH]; intros acc e.
  { split; [done|]. intros (l & _ & Hc & Hl & _). inversion Hc; subst; simpl in Hl; lia. }
  cbn [collect]. case_decide as Hf.
  { split; [done|]. intros (l & _ & Hc & _ & Hs). exfalso. apply Hf.
    inversion Hc; subst; by apply Forall_inv in Hs. }
  destruct (CapabilityTokenDataFromEntity e) as [d|er] eqn:Hd; cbn [res_bind].
  2:{ split; [done|]. intros (l & _ & Hc & _). inversion Hc; congruence. }
  destruct (Parent d) as [h|] eqn:Hp.
  - destruct (resolve h) as [p|] eqn:Hr.
    + rewrite IH. split.
      * intros (l & -> & Hc & Hl & Hs). exists (e :: l). rewrite <- app_assoc. simpl.
        split_and!; [done|by eapply chain_step|lia|by constructor].
      * intros (l & -> & Hc & Hl & Hs).
        inversion Hc as [|e' d' h' p' l' Hd' Hp' Hr' Hc']; subst; [congruence|].
        exists l'. rewrite <- app_assoc. simpl in *. apply Forall_cons in Hs as [_ Hs].
        split_and!; [done| |lia|done]. congruence.
    + split; [done|]. intros (l & _ & Hc & _). inversion Hc; congruence.
  - split.
    + intros Hok. inv_ok. exists [e]. split_and!; [done|by eapply chain_root|simpl; lia|by repeat constructor].
    + intros (l & -> & Hc & _). inversion Hc; subst; [done|congruence].
Qed.

Lemma collect_too_deep n f resolve acc e l :
  chain_to_root resolve e l -> (n < length l)%nat -> same_format f l ->
  collect n f resolve acc e = Err [ErrChainTooDeep].
Proof.
  revert acc e l. induction n as [|n IH]; intros acc e l Hc Hl Hs; [done|].
  inversion Hc as [e' d Hd Hp|e' d h p l' Hd Hp Hr Hc']; subst; [simpl in Hl; lia|].
  apply Forall_cons in Hs as [Hf Hs]. cbn [collect]. rewrite decide_False by (intros Hx; by apply Hx).
  rewrite Hd. cbn [res_bind]. rewrite Hp, Hr. apply (IH _ _ l'); [done|simpl in Hl; lia|done].
Qed.

Lemma chain_to_root_head resolve e l : chain_to_root resolve e l -> exists l', l = e :: l'.
Proof. inversion 1; eauto. Qed.

(** Every step of a collected chain follows the child's parent pointer. *)
Lemma chain_to_root_step resolve e l i c p :
  chain_to_root resolve e l -> l !! i = Some c -> l !! S i = Some p ->
  exists d h, CapabilityTokenDataFromEntity c = Ok d /\ Parent d = Some h /\ resolve h = Some p.
Proof.
  intros Hc. revert i. induction Hc as [e d Hd Hp|e d h p' l Hd Hp Hr Hc IH]; intros i Hi Hsi; [done|].
  destruct i as [|i].
  - injection Hi as <-. destruct (chain_to_root_head _ _ _ Hc) as [l' ->]. injection Hsi as <-. eauto.
  - by apply (IH i).
Qed.

Lemma chain_to_root_last resolve e l i c :
  chain_to_root resolve e l -> l !! i = Some c -> l !! S i = None ->
  exists d, CapabilityTokenDataFromEntity c = Ok d /\ Parent d = None.
Proof.
  intros Hc. revert i. induction Hc as [e d Hd Hp|e d h p' l Hd Hp Hr Hc IH]; intros i Hi Hsi.
  - destruct i; [injection Hi as <-; eauto|done].
  - destruct i as [|i]; [|by apply (IH i)].
    destruct (chain_to_root_head _ _ _ Hc) as [l' ->]. done.
Qed.

(** The chain walk. It returns the chain of links from the capability to
    its root exactly when that chain exists, has at most [maxChainDepth + 1]
    links and is in one hash format; a longer chain in one format is
    [ErrChainTooDeep], an unresolvable parent is never an accepted end, and the
    walk always terminates. *)
Theorem CollectAuthorityChain_iff (cap : Entity) (resolve : EntityResolver) (chain : list Entity) :
  (CollectAuthorityChain cap resolve = Ok chain <->
     chain_to_root resolve cap chain /\ (length chain <= maxChainDepth + 1)%nat
     /\ same_format (Algorithm (ContentHash cap)) chain)
  /\ (chain_to_root resolve cap chain -> (maxChainDepth + 1 < length chain)%nat ->
      same_format (Algorithm (ContentHash cap)) chain ->
      CollectAuthorityChain cap resolve = Err [ErrChainTooDeep]).
Proof.
  unfold CollectAuthorityChain. split.
  - rewrite collect_ok. split.
    + by intros (l & -> & ?).
    + intros Hc. by exists chain.
  - intros Hc Hl Hs. by eapply collect_too_deep.
Qed.
End walk_spec.

(** ** What a verified link satisfies *)

Section verify_spec.
Context `{Base58, Signing, HashableCodec, DataCodec, MapOrder}.

(** [signer] is the hash of an included identity whose key verifies an included
    signature of [target] attributed to [signer]. *)
Definition signed_by (included : included_map) (target signer : Hash) : Prop :=
  exists h se sd ide pd kt,
    included !! h = Some se /\ Type_ se = TypeSignature /\ SignatureDataFromEntity se = Ok sd
    /\ Target sd = target /\ Signer sd = signer
    /\ included !! signer = Some ide /\ PeerDataFromEntity ide = Ok pd
    /\ PeerData_KeyTypeByte pd = Some kt
    /\ Verify kt (PublicKey pd) (Bytes target) (Signature sd) = true.

(** The link carries its granter's signature, or those of K distinct signers. *)
Definition link_signed (included : included_map) (target : Hash) (g : Granter) : Prop :=
  match g with
  | SingleSigGranter h => signed_by included target h
  | MultiSigGranter mg =>
      exists ws, NoDup ws /\ ws ⊆ Signers mg /\ Threshold mg <= Z.of_nat (length ws)
        /\ forall s, s ∈ ws -> signed_by included target s
  end.

Definition link_ok (now : Z) (included : included_map) (e : Entity) (d : CapabilityTokenData) : Prop :=
  CapabilityTokenDataFromEntity e = Ok d /\ token_wf d /\ matchable_grants (Grants d)
  /\ in_window d now /\ link_signed included (ContentHash e) (Granter_ d)
  /\ exists ge, included !! Grantee d = Some ge /\ Type_ ge = TypePeer.

(** The identity [h] is that of the local peer. *)
Definition is_local (included : included_map) (lp : PeerID) (h : Hash) : Prop :=
  exists ide pd kt, included !! h = Some ide /\ PeerDataFromEntity ide = Ok pd
    /\ PeerData_KeyTypeByte pd = Some kt /\ PeerIDFromPublicKey (PublicKey pd) kt = Ok lp.

Definition root_ok (included : included_map) (lp : PeerID) (e : Entity) (d : CapabilityTokenData) : Prop :=
  match Granter_ d with
  | SingleSigGranter h => is_local included lp h
  | MultiSigGranter mg =>
      exists s, s ∈ Signers mg /\ is_local included lp s /\ signed_by included (ContentHash e) s
  end.

Definition step_ok (i : nat) (included : included_map) (lp : PeerID) (d pd : CapabilityTokenData) : Prop :=
  Granter_ d = SingleSigGranter (Grantee pd)
  /\ (exists cg pg, granterPeerIDFromIncluded (Granter_ d) included lp = Ok cg
       /\ granterPeerIDFromIncluded (Granter_ pd) included lp = Ok pg
       /\ IsAttenuated d pd cg pg lp = true)
  /\ checkDelegationCaveats pd d i = Ok tt.

Lemma signature_matches_inv p site args included se :
  List.find (signature_matches p) (map snd (map_range site args included)) = Some se ->
  exists h sd, included !! h = Some se /\ Type_ se = TypeSignature
    /\ SignatureDataFromEntity se = Ok sd /\ p sd = true.
Proof.
  intros [Hin Hm]%find_some. apply in_map_iff in Hin as ([h e] & Heq & Hin). cbn in Heq. subst e.
  apply list_elem_of_In, elem_of_map_range in Hin. exists h. revert Hm. unfold signature_matches.
  destruct (String.eqb_spec (Type_ se) TypeSignature) as [Ht|]; cbn [negb]; [|done].
  destruct (SignatureDataFromEntity se) as [sd|] eqn:E; [|done]. eauto.
Qed.

Lemma candidate_signed_sound e included s :
  candidate_signed e included s = true -> signed_by included (ContentHash e) s.
Proof.
  unfold candidate_signed. destruct (included !! s) as [ide|] eqn:Hi; [|done].
  destruct (PeerDataFromEntity ide) as [pd|] eqn:Hp; [|done].
  destruct (findSignatureBySigner _ _ _ _) as [se|] eqn:Hf; [|done].
  apply signature_matches_inv in Hf as (h & sd & Hse & Ht & Hsd & Hm). rewrite Hsd.
  destruct (PeerData_KeyTypeByte pd) as [kt|] eqn:Hk; [|done]. intros Hv. bool_prop.
  exists h, se, sd, ide, pd, kt. done.
Qed.

Lemma count_signers_sound e included k seen valid signers :
  count_signers e included k seen valid signers = Ok tt ->
  exists ws, NoDup ws /\ ws ⊆ signers /\ (forall s, s ∈ ws -> s ∉ seen)
    /\ k <= valid + Z.of_nat (length ws)
    /\ forall s, s ∈ ws -> signed_by included (ContentHash e) s.
Proof.
  revert seen valid. induction signers as [|c rest IH]; intros seen valid; [done|]. cbn [count_signers].
  case_decide as Hin.
  { intros (ws & Hnd & Hsub & Hns & Hk & Hsg)%IH. exists ws. split_and!; try done. by apply list_subseteq_cons. }
  destruct (candidate_signed e included c) eqn:Hc; cbn [negb].
  - apply candidate_signed_sound in Hc. destruct (Z.leb_spec k (valid + 1)).
    + intros _. exists [c]. split_and!.
      * apply NoDup_singleton.
      * intros s Hs. apply list_elem_of_singleton in Hs as ->. left.
      * intros s Hs. by apply list_elem_of_singleton in Hs as ->.
      * simpl. lia.
      * intros s Hs. apply list_elem_of_singleton in Hs as ->. done.
    + intros (ws & Hnd & Hsub & Hns & Hk & Hsg)%IH. exists (c :: ws). split_and!.
      * apply NoDup_cons. split; [|done]. intros Hcw. apply (Hns c Hcw). by left.
      * by apply list_subseteq_skip.
      * intros s [->|Hs]%elem_of_cons; [done|]. intros Hx. apply (Hns s Hs). by right.
      * simpl. lia.
      * intros s [->|Hs]%elem_of_cons; auto.
  - intros (ws & Hnd & Hsub & Hns & Hk & Hsg)%IH. exists ws. split_and!; try done; [by apply list_subseteq_cons|].
    intros s Hs Hx. apply (Hns s Hs). by right.
Qed.

Lemma verifyLinkSignatures_sound e d included :
  verifyLinkSignatures e d included = Ok tt -> link_signed included (ContentHash e) (Granter_ d).
Proof.
  unfold verifyLinkSignatures, link_signed. destruct (Granter_ d) as [g|mg].
  - intros Hv. inv_ok. apply signature_matches_inv in H4 as (h & sd & Hse & Ht & Hsd & Hm).
    case_decide as Hsig; [done|]. inv_ok.
    destruct (Verify _ _ _ _) eqn:Hver; cbn [negb] in Hv; [|done]. bool_prop.
    assert (sd = x0) as -> by congruence. exists h, x, x0, x1, x2, x3. split_and!; done.
  - destruct (_ || _); [done|]. intros (ws & Hnd & Hsub & _ & Hk & Hsg)%count_signers_sound.
    exists ws. split_and!; [done..|lia|done].
Qed.

Lemma local_signer_sound e included lp s :
  local_signer e included lp s = true ->
  is_local included lp s /\ signed_by included (ContentHash e) s.
Proof.
  unfold local_signer. destruct (included !! s) as [ide|] eqn:Hi; [|done].
  destruct (PeerDataFromEntity ide) as [pd|] eqn:Hp; [|done].
  destruct (PeerData_KeyTypeByte pd) as [kt|] eqn:Hk; [|done].
  destruct (PeerIDFromPublicKey _ _) as [pid|] eqn:Hpid; [|done].
  destruct (String.eqb_spec pid lp) as [->|]; cbn [negb]; [|done].
  destruct (findSignatureBySigner _ _ _ _) as [se|] eqn:Hf; [|done].
  apply signature_matches_inv in Hf as (h & sd & Hse & Ht & Hsd & Hm). rewrite Hsd. intros Hv. bool_prop.
  split; [by exists ide, pd, kt|]. by exists h, se, sd, ide, pd, kt.
Qed.

Lemma verifyRootGranter_sound e d included lp :
  verifyRootGranter e d included lp = Ok tt -> root_ok included lp e d.
Proof.
  unfold verifyRootGranter, root_ok. destruct (Granter_ d) as [g|mg].
  - intros Hv. inv_ok. destruct (String.eqb_spec x2 lp) as [->|]; cbn [negb] in Hv; [|done].
    by exists x, x0, x1.
  - destruct (any _ _) eqn:Ha; [|done]. intros _. apply any_true in Ha as (s & Hs & Hl).
    apply local_signer_sound in Hl as [Hl Hsg]. eauto.
Qed.

Lemma verify_link_sound now e included d :
  verify_link now e included = Ok d -> link_ok now included e d.
Proof.
  unfold verify_link, link_ok. intros Hv. inv_ok. destruct x0.
  destruct (String.eqb_spec (FirstUnmatchableScopePattern (Grants x)) "") as [Hu|]; cbn [negb] in Hv; [|done].
  destruct (NotYetValid _ _) eqn:Hn; [done|]. destruct (Expired _ _) eqn:He; [done|]. inv_ok. destruct x0.
  destruct (included !! Grantee x) as [ge|] eqn:Hg; [|done].
  destruct (String.eqb_spec (Type_ ge) TypePeer); cbn [negb] in Hv; [|done]. inv_ok.
  split_and!; [done|by apply ValidateStructure_ok|by apply FirstUnmatchableScopePattern_none
    |by apply in_window_iff|by apply verifyLinkSignatures_sound|eauto].
Qed.

Lemma verify_step_sound i d pe included lp :
  verify_step i d pe included lp = Ok tt ->
  exists pd, CapabilityTokenDataFromEntity pe = Ok pd /\ step_ok i included lp d pd.
Proof.
  unfold verify_step, step_ok. intros Hv. inv_ok. exists x. split; [done|].
  case_decide as Hg; [done|]. inv_ok.
  destruct (IsAttenuated _ _ _ _ _) eqn:Ha; cbn [negb] in Hv; [|done].
  split_and!; [|by exists x1, x2|done]. destruct (Granter_ d); cbn in *; congruence.
Qed.

(** The verdict of the loop, link by link. *)
Definition chain_ok (clock : nat -> Z) (i : nat) (included : included_map) (lp : PeerID) (chain : list Entity)
  : Prop :=
  forall j e, chain !! j = Some e ->
    exists d, link_ok (clock (i + j)%nat) included e d
      /\ match chain !! S j with
         | None => root_ok included lp e d
         | Some p => exists pd, CapabilityTokenDataFromEntity p = Ok pd /\ step_ok (i + j) included lp d pd
         end.

Lemma verify_links_sound clock i chain included lp :
  verify_links clock i chain included lp = Ok tt -> chain_ok clock i included lp chain.
Proof.
  revert i. induction chain as [|e rest IH]; intros i Hv j e' Hj; [done|]. cbn [verify_links] in Hv. inv_ok.
  apply verify_link_sound in H4. destruct rest as [|p rest].
  - apply verifyRootGranter_sound in Hv. destruct j as [|j]; [|done]. injection Hj as <-.
    rewrite Nat.add_0_r. exists x. done.
  - inv_ok. destruct x0. apply verify_step_sound in H5. destruct j as [|j].
    + injection Hj as <-. rewrite Nat.add_0_r. exists x. done.
    + cbn [lookup list_lookup] in *. rewrite Nat.add_succ_r, <- Nat.add_succ_l. by apply (IH (S i) Hv j).
Qed.
End verify_spec.

(** ** Properties of chain verification *)

Section chain_properties.
Context `{Base58Laws, Signing, HashableCodec, DataCodec, MapOrder}.

Lemma VerifyChain_inv clock cap included lp :
  VerifyChain clock cap included lp = Ok tt ->
  exists chain, chain_to_root (IncludedResolver included) cap chain
    /\ (length chain <= maxChainDepth + 1)%nat
    /\ same_format (Algorithm (ContentHash cap)) chain
    /\ Env.key_bound included
    /\ chain_ok clock 0 included lp chain.
Proof.
  unfold VerifyChain. intros Hv. inv_ok. destruct x. exists x0.
  unfold CollectAuthorityChain in *. apply collect_ok in H6 as (l & Hl & Hc & Hlen & Hs). cbn in Hl. subst x0.
  split_and!; [done..|by apply Env.VerifyIncludedKeyBinding_iff|by apply verify_links_sound].
Qed.

(** C24: an accepted chain is what it claims to be, in every iteration order of
    the included map. There is a chain of at most 65 links of one hash format
    following parent pointers to a root; every included entity is filed under
    its own content hash; every link is structurally valid, has only matchable
    patterns, is inside its window at the time it was checked, is signed by its
    granter (or by K distinct listed signers) and names a grantee that is an
    included peer; every non-root link was issued by its parent's grantee, is
    attenuated from its parent and meets the parent's caveats at its depth; and
    the root was issued by the local peer (or is a multi-signature root the
    local peer signed). *)
Theorem VerifyChain_sound (clock : nat -> Z) (cap : Entity) (included : included_map) (lp : PeerID) :
  VerifyChain clock cap included lp = Ok tt ->
  exists chain, chain_to_root (IncludedResolver included) cap chain
    /\ (length chain <= maxChainDepth + 1)%nat
    /\ same_format (Algorithm (ContentHash cap)) chain
    /\ Env.key_bound included
    /\ forall i e, chain !! i = Some e ->
         exists d, link_ok (clock i) included e d
           /\ match chain !! S i with
              | None => Parent d = None /\ root_ok included lp e d
              | Some p => exists pd, CapabilityTokenDataFromEntity p = Ok pd
                  /\ Parent d = Some (ContentHash p) /\ step_ok i included lp d pd
              end.
Proof.
  intros (chain & Hc & Hl & Hs & Hb & Hok)%VerifyChain_inv. exists chain. split_and!; [done..|].
  intros i e Hi. destruct (Hok i e Hi) as (d & Hlk & Hrest). exists d. split; [done|].
  destruct Hlk as (Hd & _). destruct (chain !! S i) as [p|] eqn:Hp.
  - destruct Hrest as (pd & Hpd & Hst). exists pd. split_and!; [done| |done].
    destruct (chain_to_root_step _ _ _ _ _ _ Hc Hi Hp) as (d' & h & Hd' & Hpar & Hres).
    assert (d' = d) as -> by congruence. unfold IncludedResolver in Hres.
    destruct (Hb h p Hres) as [_ ->]. done.
  - destruct (chain_to_root_last _ _ _ _ _ Hc Hi Hp) as (d' & Hd' & Hpar).
    assert (d' = d) as -> by congruence. done.
Qed.

Lemma link_ok_not_before now now' included e d :
  link_ok now included e d -> now <= now' -> NotYetValid (NotBefore d) now' = false.
Proof.
  intros (_ & _ & _ & [Hnb _] & _) Hle. unfold NotYetValid. destruct (NotBefore d) as [nb|]; [|done].
  apply Z.ltb_ge. specialize (Hnb nb eq_refl). lia.
Qed.

(** A verified capability confers nothing its issuers did not hold. If the
    chain verifies and the leaf permits a request on concrete paths, then every
    link of the chain, each read in its own granter's namespace, permits the
    same request at the same time, up to a root issued by the local peer. *)
Theorem VerifyChain_confines (clock : nat -> Z) (cap : Entity) (included : included_map) (lp lg : PeerID)
    (leaf : CapabilityTokenData) (now : Z) (ex : ExecuteData) (hp : string) :
  VerifyChain clock cap included lp = Ok tt ->
  CapabilityTokenDataFromEntity cap = Ok leaf ->
  granterPeerIDFromIncluded (Granter_ leaf) included lp = Ok lg ->
  IndexByte lp "/" = None ->
  (forall i, clock i <= now) ->
  (forall r t, Resource ex = Some r -> t ∈ Targets r -> IsPattern (Canonicalize t lp) = false) ->
  CheckPermission now ex leaf hp lp lg = true ->
  exists chain, chain_to_root (IncludedResolver included) cap chain
    /\ (exists root rd, last chain = Some root /\ CapabilityTokenDataFromEntity root = Ok rd
        /\ root_ok included lp root rd)
    /\ forall e, e ∈ chain -> exists d g, CapabilityTokenDataFromEntity e = Ok d
         /\ granterPeerIDFromIncluded (Granter_ d) included lp = Ok g
         /\ CheckPermission now ex d hp lp g = true.
Proof.
  intros (chain & Hc & _ & _ & _ & Hok)%VerifyChain_inv Hleaf Hlg Hlp Hclk Hconc Hperm.
  exists chain. split; [done|]. split.
  - destruct (chain_to_root_head _ _ _ Hc) as [l ->].
    destruct (last (cap :: l)) as [root|] eqn:Hlast; [|by apply last_None in Hlast].
    rewrite last_lookup in Hlast. destruct (Hok _ _ Hlast) as (rd & Hlk & Hr). exists root, rd.
    rewrite lookup_ge_None_2 in Hr by (simpl; lia). destruct Hlk. done.
  - assert (Hgo : forall i e, chain !! i = Some e -> exists d g, CapabilityTokenDataFromEntity e = Ok d
      /\ granterPeerIDFromIncluded (Granter_ d) included lp = Ok g /\ CheckPermission now ex d hp lp g = true).
    { induction i as [|i IH]; intros e He.
      - destruct (chain_to_root_head _ _ _ Hc) as [l ->]. injection He as <-. eauto.
      - destruct (chain !! i) as [c|] eqn:Hci; [|apply lookup_ge_None in Hci; apply lookup_lt_Some in He; lia].
        destruct (IH c eq_refl) as (d & g & Hd & Hg & Hp).
        destruct (Hok i c Hci) as (d' & Hlk & Hst). assert (d' = d) as -> by (destruct Hlk; congruence).
        rewrite He in Hst. destruct Hst as (pd & Hpd & _ & (cg & pg & Hcg & Hpg & Hatt) & _).
        assert (cg = g) as -> by congruence. exists pd, pg. split_and!; [done..|].
        rewrite CheckPermission_relax in *. eapply IsAttenuated_check; try done.
        + intros r t gr Hr Ht _. left. by eapply Hconc.
        + destruct (Hok (S i) e He) as (pd' & Hlk' & _).
          assert (pd' = pd) as -> by (destruct Hlk'; congruence). by eapply link_ok_not_before. }
    intros e He. apply list_elem_of_lookup in He as [i Hi]. by apply (Hgo i).
Qed.
End chain_properties.

(** ** A sample chain

    Peer A, the local peer, issues a root capability to peer B, and B delegates
    a part of it back to A.  The payloads are one-byte tags and the codec is
    the table that gives them meaning; signatures are the key followed by the
    signed message. *)

Module Sample.
Definition key (b : byte) : list byte := replicate 32 b.
Definition signing : Signing := {|
  ed25519_Verify pk msg sg := bool_decide (sg = pk ++ msg);
  ed448_Verify _ _ _ := false |}.

Definition peerA : Entity := toy_entity TypePeer [Byte.x0a].
Definition peerB : Entity := toy_entity TypePeer [Byte.x0b].
Definition rootE : Entity := toy_entity TypeCapToken [Byte.x01].
Definition leafE : Entity := toy_entity TypeCapToken [Byte.x02].
Definition sigRoot : Entity := toy_entity TypeSignature [Byte.x11].
Definition sigLeaf : Entity := toy_entity TypeSignature [Byte.x12].
(** A signature of the leaf by a peer that is not its granter. *)
Definition sigLeafByA : Entity := toy_entity TypeSignature [Byte.x13].
Definition execE : Entity := toy_entity "system/protocol/execute" [Byte.x21].
Definition sigExec : Entity := toy_entity TypeSignature [Byte.x22].

Definition rootD : CapabilityTokenData := {|
  Grants := [sample_grant (mkScope ["data/*"] ["data/secret"])];
  Granter_ := SingleSigGranter (ContentHash peerA); Grantee := ContentHash peerB; Parent := None;
  CreatedAt := 0; ExpiresAt := Some 100; NotBefore := Some 10;
  DelegationCaveats := Some {| NoDelegation := Some false; MaxDelegationDepth := Some 1;
                               MaxDelegationTTL := Some 90 |} |}.

Definition local : PeerID :=
  match @PeerIDFromPublicKey nibble58 (key Byte.x41) KeyTypeEd25519 with Ok p => p | Err _ => "" end.

Definition leafD : CapabilityTokenData := {|
  Grants := [{| Handlers := mkScope ["system/tree"] ["system/admin"];
                Resources := mkScope ["/" +:+ local +:+ "/data/a/*"] ["/" +:+ local +:+ "/data/*/secret"; "/" +:+ local +:+ "/data/secret"];
                Operations := mkScope ["get"] []; Peers := None; Constraints := []; Allowances := [] |}];
  Granter_ := SingleSigGranter (ContentHash peerB); Grantee := ContentHash peerA;
  Parent := Some (ContentHash rootE); CreatedAt := 0; ExpiresAt := Some 90; NotBefore := None;
  DelegationCaveats := None |}.

Definition sig_over (e : Entity) (signer : Entity) (k : byte) : SignatureData := {|
  Target := ContentHash e; Signer := ContentHash signer; sig_Algorithm := "ed25519";
  Signature := key k ++ Bytes (ContentHash e) |}.

Definition execD : ExecuteData := {|
  RequestID := "r1"; URI_ := "entity://" +:+ local +:+ "/system/tree"; Operation := "get";
  Resource := Some {| Targets := ["data/a/x"]; rt_Exclude := [] |}; Params := [];
  Author := ContentHash peerA; Capability := ContentHash leafE |}.

Definition decode_sig (d : list byte) : option SignatureData :=
  if decide (d = [Byte.x11]) then Some (sig_over rootE peerA Byte.x41)
  else if decide (d = [Byte.x12]) then Some (sig_over leafE peerB Byte.x42)
  else if decide (d = [Byte.x13]) then Some (sig_over leafE peerA Byte.x41)
  else if decide (d = [Byte.x22]) then Some (sig_over execE peerA Byte.x41)
  else None.

Definition codec : DataCodec := {|
  DecodeToken d :=
    if decide (d = [Byte.x01]) then Some rootD else if decide (d = [Byte.x02]) then Some leafD else None;
  DecodePeer d :=
    if decide (d = [Byte.x0a]) then Some {| PublicKey := key Byte.x41; pd_KeyType := "ed25519" |}
    else if decide (d = [Byte.x0b]) then Some {| PublicKey := key Byte.x42; pd_KeyType := "ed25519" |}
    else None;
  DecodeSignature := decode_sig;
  DecodeSigTarget d := Target <$> decode_sig d;
  DecodeExecute d := if decide (d = [Byte.x21]) then Some execD else None;
  DecodeRawMap _ := None |}.

Definition file (l : list Entity) : included_map := list_to_map (map (fun e => (ContentHash e, e)) l).
Definition included : included_map := file [peerA; peerB; rootE; leafE; sigRoot; sigLeaf].
Definition clock (i : nat) : Z := 50.

Lemma verifies :
  @VerifyChain nibble58 signing toy_hashable codec default_order clock leafE included local = Ok tt.
Proof. vm_compute. reflexivity. Qed.
End Sample.

Lemma CollectAuthorityChain_iff_witness :
  @CollectAuthorityChain Sample.codec Sample.leafE (IncludedResolver Sample.included)
  = Ok [Sample.leafE; Sample.rootE].
Proof.
  apply (proj1 (@CollectAuthorityChain_iff Sample.codec Sample.leafE
           (IncludedResolver Sample.included) [Sample.leafE; Sample.rootE])).
  split; [|split].
  - eapply (chain_step _ _ _ _ Sample.rootE); [reflexivity|reflexivity|vm_compute; reflexivity|].
    eapply chain_root; reflexivity.
  - vm_compute. lia.
  - repeat constructor; vm_compute; reflexivity.
Defined.

Lemma VerifyChain_sound_witness :
  exists chain, @chain_to_root Sample.codec (IncludedResolver Sample.included) Sample.leafE chain.
Proof.
  destruct (@VerifyChain_sound nibble58 Sample.signing toy_hashable Sample.codec default_order
              Sample.clock Sample.leafE Sample.included Sample.local Sample.verifies) as (chain & Hc & _).
  exists chain. exact Hc.
Defined.

Lemma VerifyChain_confines_witness :
  exists chain, @chain_to_root Sample.codec (IncludedResolver Sample.included) Sample.leafE chain
    /\ forall e, e ∈ chain -> exists d g, @CapabilityTokenDataFromEntity Sample.codec e = Ok d
         /\ @granterPeerIDFromIncluded nibble58 Sample.codec (Granter_ d) Sample.included Sample.local = Ok g
         /\ @CheckPermission nibble58 60 Sample.execD d "system/tree" Sample.local g = true.
Proof.
  assert (Hg : exists lg, @granterPeerIDFromIncluded nibble58 Sample.codec (Granter_ Sample.leafD)
            Sample.included Sample.local = Ok lg
            /\ @CheckPermission nibble58 60 Sample.execD Sample.leafD "system/tree" Sample.local lg = true)
    by (eexists; split; vm_compute; reflexivity).
  destruct Hg as (lg & Hlg & Hp).
  destruct (@VerifyChain_confines nibble58 nibble58_laws Sample.signing toy_hashable Sample.codec
              default_order Sample.clock Sample.leafE Sample.included Sample.local lg Sample.leafD 60
              Sample.execD "system/tree") as (chain & Hc & _ & Hall).
  - apply Sample.verifies.
  - reflexivity.
  - exact Hlg.
  - vm_compute. reflexivity.
  - intros i. unfold Sample.clock. lia.
  - intros r t Hr Ht. injection Hr as <-. apply list_elem_of_singleton in Ht as ->. vm_compute. reflexivity.
  - exact Hp.
  - exists chain. split; [exact Hc|exact Hall].
Defined.

(** The verdict on a single-signature link depends on the order in which the
    included map is walked: with a second, valid signature of the same link by
    another peer in the map, one order accepts the chain and the other refuses
    it, because the search stops at the first signature of the target whoever
    made it. *)
Theorem VerifyChain_order_dependent :
  let included := Sample.file [Sample.peerA; Sample.peerB; Sample.rootE; Sample.leafE; Sample.sigRoot;
                               Sample.sigLeaf; Sample.sigLeafByA] in
  let verdict order :=
    is_ok (@VerifyChain nibble58 Sample.signing toy_hashable Sample.codec order
             Sample.clock Sample.leafE included Sample.local) in
  verdict default_order <> verdict reverse_order.
Proof. vm_compute. discriminate. Qed.
