(* ===== verification/Requests.v ===== *)
(** * Requests, creators, bundles and handler grants ([core/capability/authority.go],
      [chainbundle.go], [grant_validity.go], [mint.go]; [core/protocol/auth.go])

    The operations that consume a verified chain: authenticating a request,
    the creator check on an embedded capability, bundling a chain for another
    peer, checking a handler's own grant, and minting a re-attenuated
    capability.  The content store and the location index are finite maps. *)

From Stdlib Require Import Ascii.
From S2P Require Import Prelude GoStrings Errors Hash Entity PeerID Paths CapTypes Patterns Check Delegation Chain.

Open Scope Z_scope.

Abbreviation content_store := (gmap Hash Entity).
(** A location index enters by its [Get]. *)
Abbreviation location_index := (string -> option Hash).

(** ** Authenticating a request *)

Section request.
Context `{Base58, Signing, HashableCodec, DataCodec, MapOrder}.

Definition VerifyRequest (clock : nat -> Z) (env : Envelope) (localPeerID : PeerID) : result unit :=
  check! res_map_err (wrapv ErrAuthenticationFailed) (Env.VerifyIncludedKeyBinding (Included env));
  let! execData := res_map_err (wrapv ErrAuthenticationFailed) (ExecuteDataFromEntity (Root env)) in
  if IsZero (Author execData) then Err [ErrAuthenticationFailed]
  else
    let! authorEntity := of_option [ErrAuthenticationFailed] (Env.FindIncluded env (Author execData)) in
    let! authorData := res_map_err (wrapv ErrAuthenticationFailed) (PeerDataFromEntity authorEntity) in
    let! sigEntity := of_option [ErrAuthenticationFailed]
                        (Env.FindSignatureFor DecodeSigTarget env (ContentHash (Root env))) in
    let! sigData := res_map_err (wrapv ErrAuthenticationFailed) (SignatureDataFromEntity sigEntity) in
    if decide (Signer sigData <> Author execData) then Err [ErrAuthenticationFailed]
    else
      let! ktByte := of_option [ErrAuthenticationFailed] (PeerData_KeyTypeByte authorData) in
      if negb (Verify ktByte (PublicKey authorData) (Bytes (ContentHash (Root env))) (Signature sigData))
      then Err [ErrAuthenticationFailed]
      else if IsZero (Capability execData) then Err denied
      else
        let! capEntity := of_option denied (Env.FindIncluded env (Capability execData)) in
        let! capData := res_map_err (wrapv ErrCapabilityDenied) (CapabilityTokenDataFromEntity capEntity) in
        if match Env.FindIncluded env (Grantee capData) with
           | None => true
           | Some granteeEnt => negb (String.eqb (Type_ granteeEnt) TypePeer)
           end then Err [ErrUnresolvableGrantee]
        else if decide (Grantee capData <> Author execData) then Err denied
        else VerifyChain clock capEntity (Included env) localPeerID.

(** [checker] is the identity extension's hook; [None] is a nil checker. *)
Definition VerifyRequestWithBinding (clock : nat -> Z) (env : Envelope) (localPeerID : PeerID)
    (localIdentityHash : Hash) (checker : option (Hash -> Envelope -> result unit)) : result unit :=
  check! VerifyRequest clock env localPeerID;
  match checker with
  | None => Ok tt
  | Some check_binding =>
      let! execData := res_map_err (wrapv ErrAuthenticationFailed) (ExecuteDataFromEntity (Root env)) in
      let! capEntity := of_option denied (Env.FindIncluded env (Capability execData)) in
      let! capData := res_map_err (wrapv ErrCapabilityDenied) (CapabilityTokenDataFromEntity capEntity) in
      if negb (IsZero localIdentityHash) && bool_decide (Grantee capData = localIdentityHash) then Ok tt
      else check_binding (Grantee capData) env
  end.

(** ** Creator authorization *)

Definition SignatureResolver : Type := Hash -> Hash -> option Entity.

Definition IncludedSignatureResolver (included : included_map) : SignatureResolver :=
  fun target signer => findSignatureBySigner site_creator_signer target signer included.

(** The multi-signature arm of the loop: the writer is a listed signer that
    signed this link. *)
Definition writer_signed (ent : Entity) (multi : MultiGranter) (identity : Hash) (resolve : EntityResolver)
    (findSig : option SignatureResolver) : bool :=
  if negb (HasSigner multi identity) then false
  else match findSig with
  | None => false
  | Some find =>
      match find (ContentHash ent) identity with
      | None => false
      | Some sigEntity =>
          match SignatureDataFromEntity sigEntity with
          | Err _ => false
          | Ok sigData =>
              match resolve identity with
              | None => false
              | Some writerIdentityEntity =>
                  match PeerDataFromEntity writerIdentityEntity with
                  | Err _ => false
                  | Ok writerIdentity =>
                      match PeerData_KeyTypeByte writerIdentity with
                      | None => false
                      | Some ktByte =>
                          Verify ktByte (PublicKey writerIdentity) (Bytes (ContentHash ent)) (Signature sigData)
                      end
                  end
              end
          end
      end
  end.

Fixpoint creator_loop (links : list Entity) (identity : Hash) (resolve : EntityResolver)
    (findSig : option SignatureResolver) : result bool :=
  match links with
  | [] => Ok false
  | ent :: rest =>
      let! capData := CapabilityTokenDataFromEntity ent in
      check! res_map_err (wrapv ErrCapabilityDenied) (ValidateStructure capData);
      match Granter_ capData with
      | SingleSigGranter granterHash =>
          if decide (granterHash = identity) then Ok true else creator_loop rest identity resolve findSig
      | MultiSigGranter multi =>
          if writer_signed ent multi identity resolve findSig then Ok true
          else creator_loop rest identity resolve findSig
      end
  end.

(** The chain is returned next to the verdict when it was collected. *)
Definition CheckCreatorAuthority (capEntity : Entity) (identity : Hash) (resolve : EntityResolver)
    (findSig : option SignatureResolver) : option (list Entity) * result bool :=
  match CollectAuthorityChain capEntity resolve with
  | Err e => (None, Err e)
  | Ok chain => (Some chain, creator_loop chain identity resolve findSig)
  end.

(** ** Bundling a chain *)

Definition StoreResolver (cs : content_store) : EntityResolver := fun h => cs !! h.

Definition InvariantSignaturePath (signerPeerID : string) (target : Hash) : string :=
  "/" +:+ signerPeerID +:+ "/system/signature/" +:+ hex_encode (Bytes target).
Definition LocalSignaturePath (target : Hash) : string :=
  "system/signature/" +:+ hex_encode (Bytes target).

Definition findBoundSignature (cs : content_store) (li : location_index) (target : Hash)
    (signerIdentity : Entity) : option Entity :=
  match PeerDataFromEntity signerIdentity with
  | Err _ => None
  | Ok idData =>
      match PeerData_KeyTypeByte idData with
      | None => None
      | Some ktByte =>
          match PeerIDFromPublicKey (PublicKey idData) ktByte with
          | Err _ => None
          | Ok pid =>
              match li (InvariantSignaturePath pid target) with
              | None => None
              | Some sigHash =>
                  match cs !! sigHash with
                  | None => None
                  | Some sigEnt => if negb (String.eqb (Type_ sigEnt) TypeSignature) then None else Some sigEnt
                  end
              end
          end
      end
  end.

(** [cs.Get(h)] restricted to peer entities, or the bundle-time failure. *)
Definition get_peer (cs : content_store) (h : Hash) : result Entity :=
  match cs !! h with
  | None => Err [ErrBundleChainUnreachable]
  | Some idEnt =>
      if negb (String.eqb (Type_ idEnt) TypePeer) then Err [ErrBundleChainUnreachable] else Ok idEnt
  end.

Fixpoint bundle_signers (cs : content_store) (li : location_index) (target : Hash) (signers : list Hash)
    (bundle : gmap Hash Entity) : result (gmap Hash Entity) :=
  match signers with
  | [] => Ok bundle
  | signer :: rest =>
      let! idEnt := get_peer cs signer in
      let bundle := <[ContentHash idEnt := idEnt]> bundle in
      let bundle := match findBoundSignature cs li target idEnt with
                    | Some sigEnt => <[ContentHash sigEnt := sigEnt]> bundle
                    | None => bundle
                    end in
      bundle_signers cs li target rest bundle
  end.

Fixpoint bundle_links (cs : content_store) (li : location_index) (chain : list Entity)
    (bundle : gmap Hash Entity) : result (gmap Hash Entity) :=
  match chain with
  | [] => Ok bundle
  | capEnt :: rest =>
      let bundle := <[ContentHash capEnt := capEnt]> bundle in
      match CapabilityTokenDataFromEntity capEnt with
      | Err _ => bundle_links cs li rest bundle
      | Ok capData =>
          let signers := match Granter_ capData with
                         | SingleSigGranter g => [g]
                         | MultiSigGranter m => Signers m
                         end in
          let! bundle := bundle_signers cs li (ContentHash capEnt) signers bundle in
          if IsZero (Grantee capData) then bundle_links cs li rest bundle
          else
            let! idEnt := get_peer cs (Grantee capData) in
            bundle_links cs li rest (<[ContentHash idEnt := idEnt]> bundle)
      end
  end.

Definition CollectChainBundle (leafCap : Entity) (cs : content_store) (li : location_index)
  : result (gmap Hash Entity) :=
  let! chain := CollectAuthorityChain leafCap (StoreResolver cs) in
  bundle_links cs li chain ∅.

(** ** Handler grants *)

(** The error is the code of [ErrGrantInvalid]. *)
Definition VerifyHandlerGrant (now : Z) (grantEnt : Entity) (signaturePath : string)
    (localIdentityHash : Hash) (cs : content_store) (li : location_index) : res string unit :=
  if negb (String.eqb (Type_ grantEnt) TypeCapToken) then Err "wrong_type"
  else
    let! tok := res_map_err (fun _ => "decode_failed") (CapabilityTokenDataFromEntity grantEnt) in
    if Granter_IsZero (Granter_ tok) then Err "missing_granter"
    else
      let! granterHash := of_option "multi_sig_granter_not_supported_here" (SingleHash (Granter_ tok)) in
      if decide (granterHash <> localIdentityHash) then Err "foreign_granter"
      else
        let! sigHash := of_option "missing_signature" (li signaturePath) in
        let! sigEnt := of_option "missing_signature_entity" (cs !! sigHash) in
        if negb (String.eqb (Type_ sigEnt) TypeSignature) then Err "wrong_signature_type"
        else
          let! sig := res_map_err (fun _ => "signature_decode_failed") (SignatureDataFromEntity sigEnt) in
          if decide (Target sig <> ContentHash grantEnt) then Err "signature_target_mismatch"
          else if decide (Signer sig <> granterHash) then Err "signature_signer_mismatch"
          else
            let! idEnt := of_option "granter_identity_unresolvable" (cs !! granterHash) in
            if negb (String.eqb (Type_ idEnt) TypePeer) then Err "granter_not_identity"
            else
              let! idData := res_map_err (fun _ => "granter_identity_decode_failed") (PeerDataFromEntity idEnt) in
              let! ktByte := of_option "unsupported_key_type" (PeerData_KeyTypeByte idData) in
              if negb (String.eqb (sig_Algorithm sig) "")
                 && negb (String.eqb (sig_Algorithm sig) (pd_KeyType idData))
              then Err "unsupported_signature_algorithm"
              else
                let expectedPubLen :=
                  if decide (ktByte = KeyTypeEd25519) then Ed25519PublicKeyLen
                  else if decide (ktByte = KeyTypeEd448) then Ed448PublicKeyLen
                  else 0%nat in
                if (0 <? expectedPubLen)%nat && negb (length (PublicKey idData) =? expectedPubLen)%nat
                then Err "granter_public_key_invalid"
                else if negb (Verify ktByte (PublicKey idData) (Bytes (ContentHash grantEnt)) (Signature sig))
                then Err "signature_verification_failed"
                else if NotYetValid (NotBefore tok) now then Err "grant_not_yet_valid"
                else if Expired (ExpiresAt tok) now then Err "grant_expired"
                else Ok tt.
End request.

(** The two decoders of a signature agree on its target. *)
Class DataCodecLaws `{DataCodec} := {
  sig_target_agrees d sd t : DecodeSignature d = Some sd -> DecodeSigTarget d = Some t -> Target sd = t
}.

(** ** Properties: requests *)

Section request_properties.
Context `{Base58, Signing, HashableCodec, DataCodecLaws, MapOrder}.

(** An accepted request is attributed to whoever signed it and carries
    their own authority. Every included entity is filed under its content hash;
    the author is an included identity whose key verifies an included signature
    of the request attributed to the author; the presented capability is
    included, grants to the author, and its chain verifies. *)
Theorem VerifyRequest_sound (clock : nat -> Z) (env : Envelope) (lp : PeerID) :
  VerifyRequest clock env lp = Ok tt ->
  Env.key_bound (Included env)
  /\ exists ex cap d,
       ExecuteDataFromEntity (Root env) = Ok ex
       /\ Author ex <> zero_hash
       /\ signed_by (Included env) (ContentHash (Root env)) (Author ex)
       /\ Included env !! Capability ex = Some cap /\ ContentHash cap = Capability ex
       /\ CapabilityTokenDataFromEntity cap = Ok d
       /\ Grantee d = Author ex
       /\ (exists ge, Included env !! Grantee d = Some ge /\ Type_ ge = TypePeer)
       /\ VerifyChain clock cap (Included env) lp = Ok tt.
Proof.
  unfold VerifyRequest. intros Hv. inv_ok. destruct x. apply Env.VerifyIncludedKeyBinding_iff in H5.
  split; [done|]. rename x0 into ex. destruct (IsZero (Author ex)) eqn:Hz; [done|]. inv_ok.
  case_decide as Hsg; [done|]. inv_ok. destruct (Verify _ _ _ _) eqn:Hver; cbn [negb] in Hv; [|done].
  destruct (IsZero (Capability ex)); [done|]. inv_ok.
  destruct (Env.FindIncluded env (Grantee x5)) as [ge|] eqn:Hge; [|done].
  destruct (String.eqb_spec (Type_ ge) TypePeer) as [Hgt|]; cbn [negb] in Hv; [|done].
  case_decide as Hga; [done|]. apply Env.FindSignatureFor_sound in H9 as (h & Hh & Hty & Ht).
  exists ex, x4, x5. split_and!; try done.
  - unfold IsZero in Hz. by bool_prop.
  - exists h, x1, x2, x, x0, x3. split_and!; try done. unfold SignatureDataFromEntity in *. inv_ok.
    by eapply sig_target_agrees.
  - by destruct (H5 _ _ H12).
  - by exists ge.
Qed.

(** The identity hook only refuses. With a hook, a request is accepted
    exactly when it is accepted without it and the leaf's grantee is the local
    identity or is recognised by the hook; so the hook never turns a refusal of
    the chain into an acceptance. *)
Theorem VerifyRequestWithBinding_iff (clock : nat -> Z) (env : Envelope) (lp : PeerID) (lid : Hash)
    (check_binding : Hash -> Envelope -> result unit) :
  VerifyRequestWithBinding clock env lp lid (Some check_binding) = Ok tt <->
  VerifyRequest clock env lp = Ok tt
  /\ exists ex cap d, ExecuteDataFromEntity (Root env) = Ok ex
       /\ Included env !! Capability ex = Some cap /\ CapabilityTokenDataFromEntity cap = Ok d
       /\ (lid <> zero_hash /\ Grantee d = lid \/ check_binding (Grantee d) env = Ok tt).
Proof.
  unfold VerifyRequestWithBinding. split.
  - intros Hv. inv_ok. destruct x. split; [done|]. exists x0, x1, x2. split_and!; try done.
    unfold IsZero in Hv. destruct (negb _ && _) eqn:E; [|by right]. left. bool_prop. done.
  - intros (-> & ex & cap & d & -> & Hc & Hd & Hb). cbn [res_bind res_map_err].
    unfold Env.FindIncluded. rewrite Hc. cbn [of_option res_bind]. rewrite Hd. cbn [res_bind res_map_err].
    destruct (negb (IsZero lid) && bool_decide (Grantee d = lid)) eqn:E; [done|].
    destruct Hb as [[Hz Hg]|Hb]; [|done]. exfalso. apply not_true_iff_false in E. apply E.
    unfold IsZero. rewrite bool_decide_false, bool_decide_true by done. done.
Qed.

(** ** Properties: creators *)

Lemma creator_loop_sound links identity resolve findSig :
  creator_loop links identity resolve findSig = Ok true ->
  exists e d, e ∈ links /\ CapabilityTokenDataFromEntity e = Ok d /\ token_wf d
    /\ (Granter_ d = SingleSigGranter identity
        \/ exists mg sg sd ide pd kt, Granter_ d = MultiSigGranter mg /\ identity ∈ Signers mg
             /\ (exists f, findSig = Some f /\ f (ContentHash e) identity = Some sg)
             /\ SignatureDataFromEntity sg = Ok sd
             /\ resolve identity = Some ide /\ PeerDataFromEntity ide = Ok pd
             /\ PeerData_KeyTypeByte pd = Some kt
             /\ Verify kt (PublicKey pd) (Bytes (ContentHash e)) (Signature sd) = true).
Proof.
  induction links as [|e rest IH]; [done|]. cbn [creator_loop]. intros Hv. inv_ok. destruct x0.
  apply ValidateStructure_ok in H6.
  assert (Hrest : creator_loop rest identity resolve findSig = Ok true -> exists e0 d, e0 ∈ e :: rest /\ _)
    by (intros (e' & d & He & Hx)%IH; exists e', d; split; [by right|exact Hx]).
  destruct (Granter_ x) as [g|mg] eqn:Hg.
  - case_decide as Hgi; [|auto]. subst g. exists e, x. split_and!; [left|done|done|by left].
  - destruct (writer_signed e mg identity resolve findSig) eqn:Hw; [|auto].
    exists e, x. split_and!; [left|done|done|right]. revert Hw. unfold writer_signed.
    destruct (HasSigner mg identity) eqn:Hs; cbn [negb]; [|done]. apply HasSigner_spec in Hs.
    destruct findSig as [f|]; [|done]. destruct (f _ _) as [sg|] eqn:Hf; [|done].
    destruct (SignatureDataFromEntity sg) as [sd|] eqn:Hsd; [|done].
    destruct (resolve identity) as [ide|] eqn:Hid; [|done].
    destruct (PeerDataFromEntity ide) as [pd|] eqn:Hpd; [|done].
    destruct (PeerData_KeyTypeByte pd) as [kt|] eqn:Hkt; [|done]. intros Hver.
    exists mg, sg, sd, ide, pd, kt. split_and!; try done. by exists f.
Qed.

(** A writer is found authorised only if it is an issuer of a link of the
    whole, reachable chain: the sole granter of a structurally valid link, or a
    listed signer of one whose own signature of that link verifies. When the
    chain cannot be walked to its root there is no verdict. *)
Theorem CheckCreatorAuthority_sound (cap : Entity) (identity : Hash) (resolve : EntityResolver)
    (findSig : option SignatureResolver) (chain : option (list Entity)) :
  CheckCreatorAuthority cap identity resolve findSig = (chain, Ok true) ->
  exists links e d, chain = Some links /\ chain_to_root resolve cap links
    /\ e ∈ links /\ CapabilityTokenDataFromEntity e = Ok d /\ token_wf d
    /\ (Granter_ d = SingleSigGranter identity
        \/ exists mg sg sd ide pd kt, Granter_ d = MultiSigGranter mg /\ identity ∈ Signers mg
             /\ (exists f, findSig = Some f /\ f (ContentHash e) identity = Some sg)
             /\ SignatureDataFromEntity sg = Ok sd
             /\ resolve identity = Some ide /\ PeerDataFromEntity ide = Ok pd
             /\ PeerData_KeyTypeByte pd = Some kt
             /\ Verify kt (PublicKey pd) (Bytes (ContentHash e)) (Signature sd) = true).
Proof.
  unfold CheckCreatorAuthority. destruct (CollectAuthorityChain cap resolve) as [l|er] eqn:Hc; [|done].
  intros [= <- Hl]. apply creator_loop_sound in Hl as (e & d & He & Hx).
  apply collect_ok in Hc as (l' & Heq & Hch & _). cbn in Heq. subst l'. eauto 10.
Qed.
End request_properties.

(** ** Properties: bundles *)

Section bundle_properties.
Context `{Base58, DataCodec}.

(** The store holds each entity under its content hash. *)
Definition store_keyed (cs : content_store) : Prop := forall h e, cs !! h = Some e -> ContentHash e = h.

Lemma insert_stored cs e (bundle : gmap Hash Entity) :
  cs !! ContentHash e = Some e -> bundle ⊆ cs ->
  bundle ⊆ <[ContentHash e := e]> bundle /\ <[ContentHash e := e]> bundle ⊆ cs.
Proof.
  intros He Hb. split.
  - apply map_subseteq_spec. intros h x Hx. destruct (decide (h = ContentHash e)) as [->|Hne].
    + rewrite lookup_insert_eq. apply (lookup_weaken _ _ _ _ Hx) in Hb. congruence.
    + by rewrite lookup_insert_ne.
  - by apply insert_subseteq_l.
Qed.

Lemma get_peer_ok cs h e : get_peer cs h = Ok e -> cs !! h = Some e /\ Type_ e = TypePeer.
Proof.
  unfold get_peer. destruct (cs !! h) as [x|]; [|done].
  destruct (String.eqb_spec (Type_ x) TypePeer); cbn [negb]; [|done]. intros Hx. by inv_ok.
Qed.

Lemma findBoundSignature_stored cs li t ide se :
  store_keyed cs -> findBoundSignature cs li t ide = Some se -> cs !! ContentHash se = Some se.
Proof.
  intros Hk. unfold findBoundSignature. intros Hf.
  repeat (destr_in Hf; try discriminate Hf). simplify_eq.
  match goal with Hc : cs !! _ = Some se |- _ => by rewrite (Hk _ _ Hc) end.
Qed.

(** The bundle resolves [h] to a peer entity. *)
Definition has_peer (bundle : gmap Hash Entity) (h : Hash) : Prop :=
  exists e, bundle !! h = Some e /\ Type_ e = TypePeer.

Lemma has_peer_mono b b' h : b ⊆ b' -> has_peer b h -> has_peer b' h.
Proof. intros Hb (e & He & Ht). exists e. split; [by eapply lookup_weaken|done]. Qed.

Lemma bundle_signers_spec cs li t signers b b' :
  store_keyed cs -> b ⊆ cs -> bundle_signers cs li t signers b = Ok b' ->
  b ⊆ b' /\ b' ⊆ cs /\ forall s, s ∈ signers -> has_peer b' s.
Proof.
  intros Hk. revert b. induction signers as [|s rest IH]; intros b Hb Hs; cbn [bundle_signers] in Hs.
  - inv_ok. split_and!; [done..|]. intros s Hs. by apply not_elem_of_nil in Hs.
  - inv_ok. apply get_peer_ok in H1 as [Hx Hty]. pose proof (Hk _ _ Hx) as Hhx.
    assert (Hsx : cs !! ContentHash x = Some x) by (by rewrite Hhx).
    destruct (insert_stored cs x b Hsx Hb) as [Hb1 Hb2].
    set (b1 := <[ContentHash x := x]> b) in *.
    assert (Hstep : exists b2, b1 ⊆ b2 /\ b2 ⊆ cs /\ bundle_signers cs li t rest b2 = Ok b').
    { destruct (findBoundSignature cs li t x) as [se|] eqn:Hf; [|by exists b1].
      apply findBoundSignature_stored in Hf; [|done].
      destruct (insert_stored cs se b1 Hf Hb2). eauto. }
    destruct Hstep as (b2 & Hb12 & Hb2c & Hr). destruct (IH b2 Hb2c Hr) as (Hb2' & Hc & Hp).
    split_and!; [do 2 (etrans; [eassumption|]); done|done|].
    intros s' [->|Hs']%elem_of_cons; [|auto]. apply (has_peer_mono b1); [etrans; eassumption|].
    exists x. split; [|done]. subst b1. rewrite <- Hhx at 1. apply lookup_insert_eq.
Qed.

(** What the bundle holds for one link. *)
Definition link_bundled (bundle : gmap Hash Entity) (e : Entity) : Prop :=
  bundle !! ContentHash e = Some e
  /\ forall d, CapabilityTokenDataFromEntity e = Ok d ->
       (forall g, Granter_ d = SingleSigGranter g -> has_peer bundle g)
       /\ (forall mg s, Granter_ d = MultiSigGranter mg -> s ∈ Signers mg -> has_peer bundle s)
       /\ (Grantee d <> zero_hash -> has_peer bundle (Grantee d)).

Lemma link_bundled_mono b b' e : b ⊆ b' -> link_bundled b e -> link_bundled b' e.
Proof.
  intros Hb [He Hd]. split; [by eapply lookup_weaken|]. intros d Hdd. destruct (Hd d Hdd) as (H1 & H2 & H3).
  split_and!; intros; eapply has_peer_mono; eauto.
Qed.

Lemma bundle_links_spec cs li chain b b' :
  store_keyed cs -> (forall e, e ∈ chain -> cs !! ContentHash e = Some e) ->
  b ⊆ cs -> bundle_links cs li chain b = Ok b' ->
  b ⊆ b' /\ b' ⊆ cs /\ forall e, e ∈ chain -> link_bundled b' e.
Proof.
  intros Hk. revert b. induction chain as [|e rest IH]; intros b Hst Hb Hl; cbn [bundle_links] in Hl.
  - inv_ok. split_and!; [done..|]. intros e He. by apply not_elem_of_nil in He.
  - assert (Hse : cs !! ContentHash e = Some e) by (apply Hst; left).
    assert (Hst' : forall x, x ∈ rest -> cs !! ContentHash x = Some x) by (intros; apply Hst; by right).
    destruct (insert_stored cs e b Hse Hb) as [Hb1 Hb1c].
    assert (Hfin : forall b2, <[ContentHash e := e]> b ⊆ b2 -> b2 ⊆ cs -> link_bundled b2 e ->
      bundle_links cs li rest b2 = Ok b' -> b ⊆ b' /\ b' ⊆ cs /\ forall x, x ∈ e :: rest -> link_bundled b' x).
    { intros b2 H12 H2c He Hr. destruct (IH b2 Hst' H2c Hr) as (H2' & Hc & Hp). split_and!.
      - do 2 (etrans; [eassumption|]); done.
      - done.
      - intros x [->|Hx]%elem_of_cons; [by eapply link_bundled_mono|auto]. }
    assert (Hin : forall b2, <[ContentHash e := e]> b ⊆ b2 -> b2 !! ContentHash e = Some e)
      by (intros b2 H2; eapply lookup_weaken; [apply lookup_insert_eq|done]).
    destruct (CapabilityTokenDataFromEntity e) as [d|er] eqn:Hd; cbv zeta in Hl.
    2:{ apply (Hfin (<[ContentHash e := e]> b)); try done. split; [by apply Hin|congruence]. }
    inv_ok. apply bundle_signers_spec in H1 as (Hx1 & Hxc & Hxp); [|done..].
    assert (Hgr : forall b2, x ⊆ b2 -> forall d', CapabilityTokenDataFromEntity e = Ok d' ->
       (forall g, Granter_ d' = SingleSigGranter g -> has_peer b2 g)
       /\ (forall mg s, Granter_ d' = MultiSigGranter mg -> s ∈ Signers mg -> has_peer b2 s)).
    { intros b2 Hx2 d' Hd'. assert (d' = d) as -> by congruence. split.
      - intros g Hg. rewrite Hg in Hxp. eapply has_peer_mono; [done|]. apply Hxp. left.
      - intros mg s Hg Hs. rewrite Hg in Hxp. eapply has_peer_mono; [done|]. by apply Hxp. }
    destruct (IsZero (Grantee d)) eqn:Hz.
    + apply (Hfin x Hx1 Hxc); [|done]. split; [by apply Hin|]. intros d' Hd'.
      destruct (Hgr x (reflexivity x) d' Hd'). split_and!; try done. unfold IsZero in Hz. bool_prop. congruence.
    + inv_ok. apply get_peer_ok in H1 as [Hge Hgt]. pose proof (Hk _ _ Hge) as Hgh.
      destruct (insert_stored cs x0 x) as [Hx2 Hx2c]; [by rewrite Hgh|done|].
      assert (Hxx : <[ContentHash e := e]> b ⊆ <[ContentHash x0 := x0]> x) by (etrans; [exact Hx1|done]).
      apply (Hfin (<[ContentHash x0 := x0]> x)); [done|done| |done]. split.
      * by apply Hin.
      * intros d' Hd'. destruct (Hgr _ Hx2 d' Hd'). split_and!; try done. intros _.
        assert (d' = d) as -> by congruence. exists x0. split; [|done]. rewrite <- Hgh. apply lookup_insert_eq.
Qed.

Lemma chain_stored cs e l :
  store_keyed cs -> cs !! ContentHash e = Some e -> chain_to_root (StoreResolver cs) e l ->
  forall x, x ∈ l -> cs !! ContentHash x = Some x.
Proof.
  intros Hk He Hc. induction Hc as [e d Hd Hp|e d h p l Hd Hp Hr Hc IH]; intros x Hx.
  - by apply list_elem_of_singleton in Hx as ->.
  - apply elem_of_cons in Hx as [->|Hx]; [done|]. apply IH; [|done].
    unfold StoreResolver in Hr. by rewrite (Hk _ _ Hr).
Qed.

Lemma chain_rewalk (cs bundle : gmap Hash Entity) e l :
  store_keyed cs -> chain_to_root (StoreResolver cs) e l ->
  (forall x, x ∈ l -> bundle !! ContentHash x = Some x) ->
  chain_to_root (IncludedResolver bundle) e l.
Proof.
  intros Hk Hc. induction Hc as [e d Hd Hp|e d h p l Hd Hp Hr Hc IH]; intros Hb.
  - by eapply chain_root.
  - eapply chain_step; [done|done| |apply IH; intros; apply Hb; by right].
    unfold IncludedResolver, StoreResolver in *. destruct (chain_to_root_head _ _ _ Hc) as [l' ->].
    rewrite <- (Hk _ _ Hr). apply Hb. right. left.
Qed.

(** A bundle is complete for its receiver. If a capability held in a
    content-addressed store is bundled, then the receiver, resolving from the
    bundle alone, walks exactly the chain the sender walked, finds every
    granter or signer and every grantee of every link as a peer entity, and
    every bundled entity is filed under its content hash. *)
Theorem CollectChainBundle_complete (leaf : Entity) (cs : content_store) (li : location_index)
    (bundle : gmap Hash Entity) :
  store_keyed cs -> cs !! ContentHash leaf = Some leaf ->
  CollectChainBundle leaf cs li = Ok bundle ->
  exists chain, CollectAuthorityChain leaf (StoreResolver cs) = Ok chain
    /\ CollectAuthorityChain leaf (IncludedResolver bundle) = Ok chain
    /\ (forall e, e ∈ chain -> link_bundled bundle e)
    /\ store_keyed bundle.
Proof.
  intros Hk Hl. unfold CollectChainBundle. intros Hb. inv_ok. exists x. split; [done|].
  unfold CollectAuthorityChain in *. apply collect_ok in H1 as (l & Heq & Hc & Hlen & Hs). cbn in Heq. subst l.
  pose proof (chain_stored _ _ _ Hk Hl Hc) as Hst.
  apply bundle_links_spec in Hb as (_ & Hbc & Hbl); [|done|done|apply map_empty_subseteq].
  split_and!; [|done|].
  - apply collect_ok. exists x. split_and!; try done. eapply chain_rewalk; try done.
    intros e He. by apply Hbl.
  - intros h e He. apply Hk. by eapply lookup_weaken.
Qed.
End bundle_properties.

(** ** Properties: handler grants *)

Section handler_grants.
Context `{Signing, DataCodec}.

(** An accepted handler grant is a single-signature token of the local
    peer, inside its window, whose signature, bound at the given path, targets
    the grant, names the local identity as signer and verifies under that
    identity's stored key. *)
Theorem VerifyHandlerGrant_sound (now : Z) (grant : Entity) (path : string) (lid : Hash)
    (cs : content_store) (li : location_index) :
  VerifyHandlerGrant now grant path lid cs li = Ok tt ->
  exists tok sh se sd ide pd kt,
    Type_ grant = TypeCapToken /\ CapabilityTokenDataFromEntity grant = Ok tok
    /\ Granter_ tok = SingleSigGranter lid /\ lid <> zero_hash
    /\ li path = Some sh /\ cs !! sh = Some se /\ Type_ se = TypeSignature
    /\ SignatureDataFromEntity se = Ok sd /\ Target sd = ContentHash grant /\ Signer sd = lid
    /\ cs !! lid = Some ide /\ Type_ ide = TypePeer /\ PeerDataFromEntity ide = Ok pd
    /\ PeerData_KeyTypeByte pd = Some kt
    /\ Verify kt (PublicKey pd) (Bytes (ContentHash grant)) (Signature sd) = true
    /\ in_window tok now.
Proof.
  unfold VerifyHandlerGrant. destruct (String.eqb_spec (Type_ grant) TypeCapToken) as [Ht|]; cbn [negb]; [|done].
  intros Hv. inv_ok. destruct (Granter_IsZero (Granter_ x)) eqn:Hz; [done|]. inv_ok.
  case_decide as Hl; [done|]. subst x0. inv_ok.
  destruct (String.eqb_spec (Type_ x1) TypeSignature) as [Hst|]; cbn [negb] in Hv; [|done]. inv_ok.
  case_decide as Htg; [done|]. case_decide as Hsg; [done|]. inv_ok.
  destruct (String.eqb_spec (Type_ x3) TypePeer) as [Hpt|]; cbn [negb] in Hv; [|done]. inv_ok.
  destruct (negb (String.eqb _ _) && _); [done|]. destruct ((0 <? _)%nat && _); [done|].
  destruct (Verify _ _ _ _) eqn:Hver; cbn [negb] in Hv; [|done].
  destruct (NotYetValid _ _) eqn:Hn; [done|]. destruct (Expired _ _) eqn:He; [done|].
  exists x, x0, x1, x2, x3, x4, x5. destruct (Granter_ x) as [g|mg]; [|done]. cbn in *. simplify_eq.
  unfold IsZero in Hz. bool_prop. split_and!; try done. by apply in_window_iff.
Qed.
End handler_grants.

(** ** Minting *)

Class TokenEncoding := {
  EncodeToken : CapabilityTokenData -> option (list byte);
  EncodeSignature : SignatureData -> option (list byte)
}.

Class KeySigning := {
  ed25519_Sign : list byte -> list byte -> list byte;
  ed448_Sign : list byte -> list byte -> list byte
}.

Section mint.
Context `{Base58, Signing, HashableCodec, DataCodec, MapOrder, TokenEncoding, KeySigning}.

(** [Keypair.Sign]; [None] is the [panic] on an unset key type. *)
Definition Sign (k : Keypair) (message : list byte) : option (list byte) :=
  if decide (kp_KeyType k = KeyTypeEd25519) then Some (ed25519_Sign (kp_PrivateKey k) message)
  else if decide (kp_KeyType k = KeyTypeEd448) then Some (ed448_Sign (kp_PrivateKey k) message)
  else None.

Definition Token_ToEntity (alg : byte) (d : CapabilityTokenData) : result Entity :=
  let! raw := of_option [] (EncodeToken d) in Ent.NewEntity alg TypeCapToken raw.
Definition Signature_ToEntity (alg : byte) (d : SignatureData) : result Entity :=
  let! raw := of_option [] (EncodeSignature d) in Ent.NewEntity alg TypeSignature raw.

(** The token [MintReattenuated] builds. *)
Definition reattenuated (signerIdentity : Entity) (grantee : Hash) (parent : Entity) (grants : list GrantEntry)
    (createdAt : Z) (expiresAt : option Z) : CapabilityTokenData := {|
  Grants := grants; Granter_ := SingleSigGranter (ContentHash signerIdentity); Grantee := grantee;
  Parent := Some (ContentHash parent); CreatedAt := createdAt; ExpiresAt := expiresAt;
  NotBefore := None; DelegationCaveats := None |}.

(** [alg] is the process-wide authoring format; [None] is a panic. *)
Definition MintReattenuated (alg : byte) (signer : Keypair) (signerIdentity : Entity) (grantee : Hash)
    (parent : Entity) (grants : list GrantEntry) (createdAt : Z) (expiresAt : option Z)
  : option (result (Entity * Entity)) :=
  if IsZero (ContentHash parent) then Some (Err [])
  else if IsZero grantee then Some (Err [])
  else if (length grants =? 0)%nat then Some (Err [])
  else match Token_ToEntity alg (reattenuated signerIdentity grantee parent grants createdAt expiresAt) with
  | Err e => Some (Err e)
  | Ok capEnt =>
      match Sign signer (Bytes (ContentHash capEnt)) with
      | None => None
      | Some sig =>
          Some (
            let! sigEnt := Signature_ToEntity alg {|
              Target := ContentHash capEnt; Signer := ContentHash signerIdentity;
              sig_Algorithm := KeyTypeString (kp_KeyType signer); Signature := sig |} in
            Ok (capEnt, sigEnt))
      end
  end.

Lemma Token_ToEntity_ok alg d e :
  Token_ToEntity alg d = Ok e -> Type_ e = TypeCapToken /\ EncodeToken d = Some (Data e).
Proof.
  unfold Token_ToEntity, Ent.NewEntity. intros Ht. inv_ok.
  by apply Ent.NewEntityFormat_ok in Ht as [-> ->].
Qed.

Lemma Signature_ToEntity_ok alg d e :
  Signature_ToEntity alg d = Ok e -> Type_ e = TypeSignature /\ EncodeSignature d = Some (Data e).
Proof.
  unfold Signature_ToEntity, Ent.NewEntity. intros Ht. inv_ok.
  by apply Ent.NewEntityFormat_ok in Ht as [-> ->].
Qed.

(** A minted capability passes link verification. With an encoder the
    decoder inverts and a key pair whose signatures verify, the capability
    [MintReattenuated] returns decodes to a single-signature child of the given
    parent, issued by the signer to the grantee, structurally valid; and its
    signature check succeeds in any included map that holds the signer's
    identity and the minted signature and no other signature of the
    capability. *)
Theorem MintReattenuated_verifies (alg : byte) (signer : Keypair) (ide : Entity) (grantee : Hash)
    (parent : Entity) (grants : list GrantEntry) (createdAt : Z) (expiresAt : option Z)
    (capEnt sigEnt : Entity) (included : included_map) (sh : Hash) :
  (forall d raw, EncodeToken d = Some raw -> DecodeToken raw = Some d) ->
  (forall d raw, EncodeSignature d = Some raw -> DecodeSignature raw = Some d) ->
  (forall msg sig, Sign signer msg = Some sig ->
     Verify (kp_KeyType signer) (kp_PublicKey signer) msg sig = true) ->
  PeerDataFromEntity ide = Ok {| PublicKey := kp_PublicKey signer; pd_KeyType := KeyTypeString (kp_KeyType signer) |} ->
  MintReattenuated alg signer ide grantee parent grants createdAt expiresAt = Some (Ok (capEnt, sigEnt)) ->
  included !! ContentHash ide = Some ide -> included !! sh = Some sigEnt ->
  (forall h e sd, included !! h = Some e -> Type_ e = TypeSignature -> SignatureDataFromEntity e = Ok sd ->
     Target sd = ContentHash capEnt -> e = sigEnt) ->
  exists d, CapabilityTokenDataFromEntity capEnt = Ok d
    /\ Parent d = Some (ContentHash parent) /\ Granter_ d = SingleSigGranter (ContentHash ide)
    /\ Grantee d = grantee /\ token_wf d
    /\ verifyLinkSignatures capEnt d included = Ok tt.
Proof.
  intros Htok Hsig Hkey Hide Hm Hin1 Hin2 Honly. unfold MintReattenuated in Hm.
  destruct (IsZero (ContentHash parent)); [done|]. destruct (IsZero grantee) eqn:Hz; [done|].
  destruct (length grants =? 0)%nat; [done|].
  destruct (Token_ToEntity _ _) as [ce|] eqn:Hce; [|done]. destruct (Sign _ _) as [sig|] eqn:Hsg; [|done].
  injection Hm as Hm. inv_ok.
  apply Token_ToEntity_ok in Hce as [Ht1 Hd1].
  match goal with Hs : Signature_ToEntity _ _ = Ok _ |- _ => apply Signature_ToEntity_ok in Hs as [Ht2 Hd2] end.
  assert (Hsd : SignatureDataFromEntity sigEnt = Ok {| Target := ContentHash capEnt; Signer := ContentHash ide;
      sig_Algorithm := KeyTypeString (kp_KeyType signer); Signature := sig |}).
  { unfold SignatureDataFromEntity. by rewrite (Hsig _ _ Hd2). }
  eexists. split; [unfold CapabilityTokenDataFromEntity; by rewrite (Htok _ _ Hd1)|].
  split_and!; [done..| |].
  { split; [done|]. unfold IsZero in Hz. by bool_prop. }
  unfold verifyLinkSignatures. cbn [Granter_ reattenuated].
  destruct (findSignatureForTarget (ContentHash capEnt) included) as [se|] eqn:Hf.
  - apply signature_matches_inv in Hf as (h & sd & Hh & Hty & Hdec & Hmt). bool_prop.
    assert (se = sigEnt) as -> by (by eapply Honly). cbn [of_option res_bind]. rewrite Hsd. cbn [of_option res_bind res_map_err Signer].
    rewrite decide_False by (intros Hx; by apply Hx). rewrite Hin1. cbn [of_option res_bind res_map_err].
    rewrite Hide. cbn [of_option res_bind res_map_err PublicKey Signature].
    assert (Hkt : PeerData_KeyTypeByte {| PublicKey := kp_PublicKey signer;
        pd_KeyType := KeyTypeString (kp_KeyType signer) |} = Some (kp_KeyType signer)).
    { unfold PeerData_KeyTypeByte. cbn [pd_KeyType]. unfold Sign in Hsg.
      case_decide as Hk; [by rewrite Hk|]. case_decide as Hk'; [by rewrite Hk'|done]. }
    rewrite Hkt. cbn [of_option res_bind]. by rewrite (Hkey _ _ Hsg).
  - exfalso. unfold findSignatureForTarget in Hf. eapply find_none in Hf.
    2:{ apply in_map_iff. exists (sh, sigEnt). split; [done|]. apply list_elem_of_In, elem_of_map_range. exact Hin2. }
    cbn in Hf. unfold signature_matches in Hf. rewrite Ht2, Hsd in Hf. cbn in Hf.
    by rewrite bool_decide_true in Hf.
Qed.
End mint.

(** ** Witnesses *)

Lemma sample_codec_laws : @DataCodecLaws Sample.codec.
Proof. constructor. intros d sd t. cbn. intros ->. cbn. by intros [= <-]. Qed.

Definition sample_env : Envelope :=
  mkEnvelope Sample.execE (Sample.file [Sample.peerA; Sample.peerB; Sample.rootE; Sample.leafE;
                                        Sample.sigRoot; Sample.sigLeaf; Sample.sigExec]).

Lemma VerifyRequest_sound_witness :
  exists ex, @ExecuteDataFromEntity Sample.codec Sample.execE = Ok ex
    /\ @signed_by Sample.signing Sample.codec (Included sample_env) (ContentHash Sample.execE) (Author ex).
Proof.
  destruct (@VerifyRequest_sound nibble58 Sample.signing toy_hashable Sample.codec sample_codec_laws
              default_order Sample.clock sample_env Sample.local) as (_ & ex & cap & d & Hex & _ & Hs & _).
  - vm_compute. reflexivity.
  - exists ex. split; [exact Hex|exact Hs].
Defined.

Lemma CheckCreatorAuthority_sound_witness :
  exists links, @chain_to_root Sample.codec (IncludedResolver Sample.included) Sample.leafE links.
Proof.
  destruct (@CheckCreatorAuthority_sound Sample.signing Sample.codec Sample.leafE (ContentHash Sample.peerA)
              (IncludedResolver Sample.included) None (Some [Sample.leafE; Sample.rootE]))
    as (links & e & d & _ & Hc & _).
  - vm_compute. reflexivity.
  - exists links. exact Hc.
Defined.

Lemma sample_store_keyed : store_keyed Sample.included.
Proof.
  intros h e He. apply elem_of_list_to_map_2 in He. apply list_elem_of_In, in_map_iff in He as (x & Hx & _).
  by injection Hx as <- <-.
Qed.

Definition no_bindings : location_index := fun _ => None.

Lemma CollectChainBundle_complete_witness :
  exists bundle, @CollectChainBundle nibble58 Sample.codec Sample.leafE Sample.included no_bindings = Ok bundle
    /\ @CollectAuthorityChain Sample.codec Sample.leafE (IncludedResolver bundle)
       = Ok [Sample.leafE; Sample.rootE].
Proof.
  assert (Hok : is_ok (@CollectChainBundle nibble58 Sample.codec Sample.leafE Sample.included no_bindings) = true)
    by (vm_compute; reflexivity).
  destruct (@CollectChainBundle nibble58 Sample.codec Sample.leafE Sample.included no_bindings) as [bundle|er] eqn:E.
  - exists bundle. split; [reflexivity|].
    destruct (@CollectChainBundle_complete nibble58 Sample.codec Sample.leafE Sample.included no_bindings bundle)
      as (chain & Hc & Hb & _).
    + exact sample_store_keyed.
    + vm_compute. reflexivity.
    + exact E.
    + rewrite Hb. rewrite <- Hc. vm_compute. reflexivity.
  - discriminate Hok.
Defined.

Lemma VerifyHandlerGrant_sound_witness :
  in_window Sample.rootD 50.
Proof.
  destruct (@VerifyHandlerGrant_sound Sample.signing Sample.codec 50 Sample.rootE
              (LocalSignaturePath (ContentHash Sample.rootE)) (ContentHash Sample.peerA) Sample.included
              (fun path => if String.eqb path (LocalSignaturePath (ContentHash Sample.rootE))
                           then Some (ContentHash Sample.sigRoot) else None))
    as (tok & sh & se & sd & ide & pd & kt & _ & Ht & _ & _ & _ & _ & _ & _ & _ & _ & _ & _ & _ & _ & _ & Hw).
  - vm_compute. reflexivity.
  - injection Ht as <-. exact Hw.
Defined.

(** Minting under a two-entry encoding table. *)
Module MintSample.
Definition signer : Keypair := {| kp_KeyType := KeyTypeEd25519; kp_PrivateKey := []; kp_PublicKey := Sample.key Byte.x41 |}.
Definition tok : CapabilityTokenData :=
  reattenuated Sample.peerA (ContentHash Sample.peerB) Sample.rootE [sample_grant (mkScope ["data/*"] [])] 5 None.
Definition capEnt : Entity := toy_entity TypeCapToken [Byte.x07].
Definition sd : SignatureData := Sample.sig_over capEnt Sample.peerA Byte.x41.
Definition sigEnt : Entity := toy_entity TypeSignature [Byte.x08].
Definition encoding : TokenEncoding := {|
  EncodeToken d := if decide (d = tok) then Some [Byte.x07] else None;
  EncodeSignature s := if decide (s = sd) then Some [Byte.x08] else None |}.
Definition signing : KeySigning := {|
  ed25519_Sign _ msg := Sample.key Byte.x41 ++ msg; ed448_Sign _ _ := [] |}.
Definition codec : DataCodec := {|
  DecodeToken d := if decide (d = [Byte.x07]) then Some tok else None;
  DecodePeer := @DecodePeer Sample.codec;
  DecodeSignature d := if decide (d = [Byte.x08]) then Some sd else None;
  DecodeSigTarget _ := None; DecodeExecute _ := None; DecodeRawMap _ := None |}.
End MintSample.

Lemma MintReattenuated_verifies_witness :
  exists d, @CapabilityTokenDataFromEntity MintSample.codec MintSample.capEnt = Ok d
    /\ Parent d = Some (ContentHash Sample.rootE)
    /\ @verifyLinkSignatures Sample.signing MintSample.codec default_order MintSample.capEnt d
         (Sample.file [Sample.peerA; MintSample.sigEnt]) = Ok tt.
Proof.
  destruct (@MintReattenuated_verifies Sample.signing toy_hashable MintSample.codec default_order
    MintSample.encoding MintSample.signing AlgorithmSHA256 MintSample.signer Sample.peerA
    (ContentHash Sample.peerB) Sample.rootE [sample_grant (mkScope ["data/*"] [])] 5 None
    MintSample.capEnt MintSample.sigEnt (Sample.file [Sample.peerA; MintSample.sigEnt])
    (ContentHash MintSample.sigEnt)) as (d & Hd & Hp & _ & _ & _ & Hv).
  - intros d raw. cbn. repeat case_decide; intros; by simplify_eq.
  - intros d raw. cbn. repeat case_decide; intros; by simplify_eq.
  - intros msg sig Hs. injection Hs as <-. unfold Verify. cbn. by rewrite bool_decide_true.
  - reflexivity.
  - vm_compute. reflexivity.
  - vm_compute. reflexivity.
  - vm_compute. reflexivity.
  - intros h e s He. apply elem_of_list_to_map_2 in He. apply list_elem_of_In, in_map_iff in He as (x & Hx & Hin).
    injection Hx as <- <-. destruct Hin as [<-|[<-|[]]]; [discriminate|reflexivity].
  - exists d. split; [exact Hd|]. split; [exact Hp|exact Hv].
Defined.
