(* ===== verification/Revoked.v ===== *)
(** * Revocation ([core/capability/revoked.go], [index.go], [storage_path.go])

    [IsRevoked] walks to the root of a capability and consults the root's
    recorded binding and its revocation marker. *)

From Stdlib Require Import Ascii.
From stdpp Require Import functions.
From S2P Require Import Prelude GoStrings Errors Hash Entity PeerID Paths CapTypes Check Delegation Chain Requests.

Open Scope Z_scope.

(** ** Storage paths *)

Definition CapabilityGrantsRoot : string := "system/capability/grants".
Definition MultiSigRootGrantsPrefix : string := CapabilityGrantsRoot +:+ "/multi-sig-root".
Definition RevocationsRoot : string := "system/capability/revocations".

Definition RevocationPathFor (capHash : Hash) : string :=
  RevocationsRoot +:+ "/" +:+ hex_encode (Bytes capHash).

(** [Ok None] is [ok = false]: no path is mandated. *)
Definition PathFor `{DataCodec} (capEntity : Entity) : result (option string) :=
  let! tok := CapabilityTokenDataFromEntity capEntity in
  if IsMulti (Granter_ tok)
  then Ok (Some (MultiSigRootGrantsPrefix +:+ "/" +:+ hex_encode (Bytes (ContentHash capEntity))))
  else Ok None.

(** ** The capability index *)

(** The interface: an implementation is a state with the three methods. *)
Class CapabilityIndex (IX : Type) := {
  Record_ : IX -> Hash -> string -> IX;
  Forget : IX -> Hash -> IX;
  IndexPathFor : IX -> Hash -> option string
}.

Abbreviation MemoryCapabilityIndex := (gmap Hash string).

Global Instance memory_capability_index : CapabilityIndex MemoryCapabilityIndex := {|
  Record_ m capHash path := if IsZero capHash || String.eqb path "" then m else <[capHash := path]> m;
  Forget m capHash := delete capHash m;
  IndexPathFor m capHash := m !! capHash
|}.

Inductive nopCapabilityIndex : Set := Nop.

Global Instance nop_capability_index : CapabilityIndex nopCapabilityIndex := {|
  Record_ m _ _ := m; Forget m _ := m; IndexPathFor _ _ := None
|}.

(** A nil index is [None]. *)
Definition CapabilityPathFor {IX} `{CapabilityIndex IX} (index : option IX) (capHash : Hash) : option string :=
  match index with None => None | Some i => IndexPathFor i capHash end.

(** ** The check *)

Section revoked.
Context `{DataCodec} {IX : Type} `{CapabilityIndex IX}.

(** The location index enters by its [Get]. *)
Record RevocationContext := {
  rc_ContentStore : option (gmap Hash Entity);
  rc_LocationIndex : option (string -> option Hash);
  rc_Included : gmap Hash Entity;
  rc_CapabilityIndex : option IX
}.

Definition resolveCapAncestor (h : Hash) (rctx : RevocationContext) : option Entity :=
  match match rc_ContentStore rctx with Some cs => cs !! h | None => None end with
  | Some ent => Some ent
  | None => rc_Included rctx !! h
  end.

(** Step 1, the walk to the root: [None] is out of fuel, [Some None] a refused
    walk (the capability counts as revoked), [Some (Some root)] its end. *)
Fixpoint walk_to_root (fuel : nat) (rctx : RevocationContext) (visited : list Hash) (current : Entity)
  : option (option Entity) :=
  match fuel with
  | O => None
  | S fuel' =>
      match CapabilityTokenDataFromEntity current with
      | Err _ => Some None
      | Ok capData =>
          match Parent capData with
          | None => Some (Some current)
          | Some p =>
              if decide (ContentHash current ∈ visited) then Some None
              else match resolveCapAncestor p rctx with
              | None => Some None
              | Some parent => walk_to_root fuel' rctx (ContentHash current :: visited) parent
              end
          end
      end
  end.

(** One more than the distinct hashes the walk can visit before it repeats. *)
Definition walk_fuel (rctx : RevocationContext) : nat :=
  (match rc_ContentStore rctx with Some cs => size cs | None => 0 end + size (rc_Included rctx) + 2)%nat.

(** Steps 2 and 3 on the root. *)
Definition root_revoked (rctx : RevocationContext) (root : Entity) : bool :=
  match rc_LocationIndex rctx with
  | None => false
  | Some li =>
      match rc_CapabilityIndex rctx with
      | None => false
      | Some ix =>
          match IndexPathFor ix (ContentHash root) with
          | None => false
          | Some path =>
              match li path with
              | None => true
              | Some stored => negb (bool_decide (stored = ContentHash root))
              end
          end
      end
      || match li (RevocationsRoot +:+ "/" +:+ hex_encode (Bytes (ContentHash root))) with
         | Some _ => true
         | None => false
         end
  end.

Definition IsRevoked_fuel (fuel : nat) (capEntity : Entity) (rctx : RevocationContext) : option bool :=
  match walk_to_root fuel rctx [] capEntity with
  | None => None
  | Some None => Some true
  | Some (Some root) => Some (root_revoked rctx root)
  end.

(** The fuel suffices: see [walk_total].  The default is never reached. *)
Definition IsRevoked (capEntity : Entity) (rctx : RevocationContext) : bool :=
  match IsRevoked_fuel (walk_fuel rctx) capEntity rctx with Some b => b | None => true end.

(** ** Termination *)

Definition known_entities (rctx : RevocationContext) : list Entity :=
  map snd (match rc_ContentStore rctx with Some cs => map_to_list cs | None => [] end)
  ++ map snd (map_to_list (rc_Included rctx)).

Lemma resolve_known h rctx e : resolveCapAncestor h rctx = Some e -> e ∈ known_entities rctx.
Proof.
  unfold resolveCapAncestor, known_entities. rewrite elem_of_app. intros Hr.
  assert (Hl : forall m : gmap Hash Entity, m !! h = Some e -> e ∈ map snd (map_to_list m)).
  { intros m Hm. apply list_elem_of_In, in_map_iff. exists (h, e). split; [done|].
    by apply list_elem_of_In, elem_of_map_to_list. }
  destruct (rc_ContentStore rctx) as [cs|]; [|by right; apply Hl].
  destruct (cs !! h) eqn:E; [left; apply Hl; congruence|right; by apply Hl].
Qed.

Lemma length_known rctx : (length (known_entities rctx) + 2 = walk_fuel rctx)%nat.
Proof.
  unfold known_entities, walk_fuel. rewrite length_app, !length_map, length_map_to_list.
  destruct (rc_ContentStore rctx); [rewrite length_map_to_list|]; done.
Qed.

Lemma walk_total_gen fuel rctx visited (univ : list Hash) current :
  (forall e, e ∈ known_entities rctx -> ContentHash e ∈ univ) ->
  NoDup visited -> visited ⊆ univ -> ContentHash current ∈ univ ->
  (length univ < fuel + length visited)%nat ->
  exists r, walk_to_root fuel rctx visited current = Some r.
Proof.
  intros Hu. revert visited current. induction fuel as [|fuel IH]; intros visited current Hnd Hsub Hc Hl.
  - exfalso. pose proof (NoDup_submseteq _ _ Hnd ltac:(intros x Hx; by apply Hsub)) as Hs.
    apply submseteq_length in Hs. lia.
  - cbn [walk_to_root]. destruct (CapabilityTokenDataFromEntity current) as [d|]; [|eauto].
    destruct (Parent d) as [p|]; [|eauto]. case_decide; [eauto|].
    destruct (resolveCapAncestor p rctx) as [e|] eqn:Hr; [|eauto]. apply IH.
    + by constructor.
    + intros x [->|Hx]%elem_of_cons; [done|by apply Hsub].
    + by eapply Hu, resolve_known.
    + simpl. lia.
Qed.

Lemma walk_total rctx e : exists r, walk_to_root (walk_fuel rctx) rctx [] e = Some r.
Proof.
  apply (walk_total_gen _ _ _ (ContentHash e :: map ContentHash (known_entities rctx))).
  - intros x Hx. right. apply list_elem_of_In, in_map. by apply list_elem_of_In.
  - constructor.
  - intros x Hx. by apply not_elem_of_nil in Hx.
  - left.
  - simpl. rewrite length_map, <- length_known. lia.
Qed.

(** ** What the walk finds *)

Lemma walk_sound fuel rctx visited e root :
  walk_to_root fuel rctx visited e = Some (Some root) ->
  exists l, chain_to_root (fun h => resolveCapAncestor h rctx) e l /\ last l = Some root
    /\ NoDup (map ContentHash (removelast l))
    /\ (forall x, x ∈ map ContentHash (removelast l) -> x ∉ visited).
Proof.
  revert visited e. induction fuel as [|fuel IH]; intros visited e; [done|]. cbn [walk_to_root].
  destruct (CapabilityTokenDataFromEntity e) as [d|] eqn:Hd; [|done].
  destruct (Parent d) as [p|] eqn:Hp.
  - case_decide as Hv; [done|]. destruct (resolveCapAncestor p rctx) as [e'|] eqn:Hr; [|done].
    intros (l & Hc & Hl & Hnd & Hns)%IH. exists (e :: l).
    destruct (chain_to_root_head _ _ _ Hc) as [l' ->]. split_and!.
    + by eapply chain_step.
    + done.
    + cbn [removelast map]. constructor; [|done]. intros Hin. apply (Hns _ Hin). left.
    + intros x Hx. cbn [removelast map] in Hx. apply elem_of_cons in Hx as [->|Hx]; [done|].
      intros Hin. apply (Hns x Hx). by right.
  - intros [= <-]. exists [e]. split_and!; [by eapply chain_root|done|constructor|].
    intros x Hx. by apply not_elem_of_nil in Hx.
Qed.

Lemma walk_complete fuel rctx visited e l :
  chain_to_root (fun h => resolveCapAncestor h rctx) e l -> (length l <= fuel)%nat ->
  NoDup (map ContentHash (removelast l)) ->
  (forall x, x ∈ map ContentHash (removelast l) -> x ∉ visited) ->
  walk_to_root fuel rctx visited e = Some (last l).
Proof.
  intros Hc. revert fuel visited. induction Hc as [e d Hd Hp|e d h p l Hd Hp Hr Hc IH];
    intros fuel visited Hl Hnd Hns; (destruct fuel as [|fuel]; [simpl in Hl; lia|]); cbn [walk_to_root].
  - by rewrite Hd, Hp.
  - rewrite Hd, Hp. destruct (chain_to_root_head _ _ _ Hc) as [l' ->]. cbn [removelast map] in *.
    apply NoDup_cons in Hnd as [Hni Hnd]. rewrite decide_False by (apply Hns; left). rewrite Hr.
    rewrite IH; [done|simpl in *; lia|done|].
    intros x Hx Hin. apply elem_of_cons in Hin as [->|Hin]; [done|]. apply (Hns x); [by right|done].
Qed.

Lemma walk_mono fuel fuel' rctx visited e r :
  walk_to_root fuel rctx visited e = Some r -> (fuel <= fuel')%nat ->
  walk_to_root fuel' rctx visited e = Some r.
Proof.
  revert fuel' visited e. induction fuel as [|fuel IH]; intros fuel' visited e; [done|].
  intros Hw Hl. destruct fuel' as [|fuel']; [lia|]. revert Hw. cbn [walk_to_root].
  destruct (CapabilityTokenDataFromEntity e) as [d|]; [|done].
  destruct (Parent d) as [p|]; [|done]. case_decide; [done|].
  destruct (resolveCapAncestor p rctx); [|done]. intros Hw. apply IH; [done|lia].
Qed.

Lemma walk_chain rctx e l :
  chain_to_root (fun h => resolveCapAncestor h rctx) e l -> NoDup (map ContentHash (removelast l)) ->
  walk_to_root (walk_fuel rctx) rctx [] e = Some (last l).
Proof.
  intros Hc Hnd. destruct (walk_total rctx e) as [r Hr].
  pose proof (walk_mono _ (walk_fuel rctx + length l) _ _ _ _ Hr ltac:(lia)) as Hm.
  rewrite (walk_complete _ rctx [] e l Hc) in Hm; [congruence|lia|done|].
  intros x _ Hx. by apply not_elem_of_nil in Hx.
Qed.

(** ** What the check decides *)

(** The root stands: its recorded binding, if any, still holds it, and no
    marker names it. *)
Definition root_live (rctx : RevocationContext) (root : Entity) : Prop :=
  forall li, rc_LocationIndex rctx = Some li ->
    (forall ix path, rc_CapabilityIndex rctx = Some ix -> IndexPathFor ix (ContentHash root) = Some path ->
       li path = Some (ContentHash root))
    /\ li (RevocationPathFor (ContentHash root)) = None.

Lemma root_revoked_live rctx root : root_revoked rctx root = false <-> root_live rctx root.
Proof.
  unfold root_revoked, root_live. destruct (rc_LocationIndex rctx) as [li|]; [|by split].
  rewrite orb_false_iff. split.
  - intros [Hb Hm] ? [= <-]. split.
    + intros ix path Hix Hp. rewrite Hix, Hp in Hb. destruct (li path) as [s|]; [|done].
      apply negb_false_iff, bool_decide_eq_true in Hb. congruence.
    + unfold RevocationPathFor. by destruct (li _).
  - intros Hl. destruct (Hl li eq_refl) as [Hb Hm]. unfold RevocationPathFor in Hm. rewrite Hm.
    split; [|done]. destruct (rc_CapabilityIndex rctx) as [ix|]; [|done].
    destruct (IndexPathFor ix (ContentHash root)) as [path|] eqn:Hp; [|done].
    rewrite (Hb ix path eq_refl Hp). by rewrite bool_decide_eq_true_2.
Qed.

Lemma IsRevoked_walk cap rctx :
  IsRevoked cap rctx = match walk_to_root (walk_fuel rctx) rctx [] cap with
                       | Some (Some root) => root_revoked rctx root | _ => true end.
Proof. unfold IsRevoked, IsRevoked_fuel. by destruct (walk_to_root _ _ _ _) as [[?|]|]. Qed.

Lemma IsRevoked_chain rctx e l root :
  chain_to_root (fun h => resolveCapAncestor h rctx) e l -> last l = Some root ->
  NoDup (map ContentHash (removelast l)) -> IsRevoked e rctx = root_revoked rctx root.
Proof. intros Hc Hl Hnd. rewrite IsRevoked_walk, (walk_chain _ _ _ Hc Hnd), Hl. done. Qed.


(** ** The effect of a marker *)

Definition with_location (rctx : RevocationContext) (li : string -> option Hash) : RevocationContext := {|
  rc_ContentStore := rc_ContentStore rctx; rc_LocationIndex := Some li;
  rc_Included := rc_Included rctx; rc_CapabilityIndex := rc_CapabilityIndex rctx |}.

Lemma walk_with_location fuel rctx li visited e :
  walk_to_root fuel (with_location rctx li) visited e = walk_to_root fuel rctx visited e.
Proof.
  revert visited e. induction fuel as [|fuel IH]; intros visited e; [done|]. cbn [walk_to_root].
  destruct (CapabilityTokenDataFromEntity e) as [d|]; [|done].
  destruct (Parent d) as [p|]; [|done]. case_decide; [done|].
  change (resolveCapAncestor p (with_location rctx li)) with (resolveCapAncestor p rctx).
  destruct (resolveCapAncestor p rctx); [apply IH|done].
Qed.

Lemma RevocationPathFor_inj h h' :
  hash_wf h -> hash_wf h' -> supported (Algorithm h) -> supported (Algorithm h') ->
  RevocationPathFor h = RevocationPathFor h' -> h = h'.
Proof.
  intros ???? E. apply Bytes_inj; [done..|]. apply hex_encode_inj. unfold RevocationPathFor in E.
  by apply append_inj_l, append_inj_l in E.
Qed.

(** A revocation marker is exact. Binding a marker for the hash [h] makes
    revoked every capability whose chain ends at the root with hash [h] and
    changes the verdict on no other: the check afterwards is the check before,
    or the root is the one the marker names. *)
Theorem revocation_marker_effect (rctx : RevocationContext) (li : string -> option Hash)
    (cap root : Entity) (l : list Entity) (h marker : Hash) :
  rc_LocationIndex rctx = Some li ->
  chain_to_root (fun h => resolveCapAncestor h rctx) cap l -> last l = Some root ->
  NoDup (map ContentHash (removelast l)) ->
  hash_wf h -> supported (Algorithm h) ->
  hash_wf (ContentHash root) -> supported (Algorithm (ContentHash root)) ->
  (forall ix, rc_CapabilityIndex rctx = Some ix ->
     IndexPathFor ix (ContentHash root) <> Some (RevocationPathFor h)) ->
  IsRevoked cap (with_location rctx (<[RevocationPathFor h := Some marker]> li))
  = IsRevoked cap rctx || bool_decide (ContentHash root = h).
Proof.
  intros Hli Hc Hl Hnd Hw Hs Hwr Hsr Hix. rewrite !IsRevoked_walk. unfold walk_fuel. cbn [with_location rc_ContentStore rc_Included].
  rewrite walk_with_location. fold (walk_fuel rctx). rewrite (walk_chain _ _ _ Hc Hnd), Hl.
  unfold root_revoked. cbn [with_location rc_LocationIndex rc_CapabilityIndex]. rewrite Hli.
  fold (RevocationPathFor (ContentHash root)). rewrite <- orb_assoc. f_equal.
  - destruct (rc_CapabilityIndex rctx) as [ix|]; [|done]. specialize (Hix ix eq_refl).
    destruct (IndexPathFor ix (ContentHash root)) as [path|]; [|done].
    rewrite fn_lookup_insert_ne; [done|congruence].
  - case_bool_decide as Hd.
    + rewrite Hd, fn_lookup_insert, orb_true_r. done.
    + rewrite fn_lookup_insert_ne, orb_false_r; [done|]. intros E.
      apply Hd. symmetry. by apply RevocationPathFor_inj.
Qed.
End revoked.

(** ** The in-memory index *)

(** The capability index. A lookup returns the most recently recorded path
    of that hash unless it was forgotten since; recording the zero hash or an
    empty path changes nothing, and other hashes are not affected. *)
Lemma MemoryCapabilityIndex_laws (m : MemoryCapabilityIndex) (h h' : Hash) (path : string) :
  IndexPathFor (Record_ m h path) h'
  = (if decide (h = h') then
       if IsZero h || String.eqb path "" then IndexPathFor m h' else Some path
     else IndexPathFor m h')
  /\ IndexPathFor (Forget m h) h' = (if decide (h = h') then None else IndexPathFor m h').
Proof.
  cbn. split.
  - destruct (IsZero h || _); [by case_decide|].
    case_decide as Hd; [subst; by rewrite (lookup_insert_eq (M := gmap Hash))|by rewrite (lookup_insert_ne (M := gmap Hash))].
  - case_decide as Hd; [subst; by rewrite (lookup_delete_eq (M := gmap Hash))|by rewrite (lookup_delete_ne (M := gmap Hash))].
Qed.

(** ** Sample *)

Definition sample_rctx (li : string -> option Hash) : RevocationContext := {|
  rc_ContentStore := None; rc_LocationIndex := Some li; rc_Included := Sample.included;
  rc_CapabilityIndex := Some (Record_ (∅ : MemoryCapabilityIndex) (ContentHash Sample.rootE) "grants/r") |}.

Definition sample_tree (path : string) : option Hash :=
  if String.eqb path "grants/r" then Some (ContentHash Sample.rootE) else None.

Lemma sample_chain :
  @chain_to_root Sample.codec (fun h => resolveCapAncestor h (sample_rctx sample_tree)) Sample.leafE
    [Sample.leafE; Sample.rootE].
Proof.
  eapply (chain_step _ _ _ _ Sample.rootE); [reflexivity|reflexivity|vm_compute; reflexivity|].
  eapply chain_root; reflexivity.
Qed.

Lemma revocation_marker_effect_witness :
  @IsRevoked Sample.codec _ _ Sample.leafE
    (with_location (sample_rctx sample_tree)
       (<[RevocationPathFor (ContentHash Sample.rootE) := Some (ContentHash Sample.sigRoot)]> sample_tree))
  = true.
Proof.
  rewrite (@revocation_marker_effect Sample.codec _ _ (sample_rctx sample_tree) sample_tree Sample.leafE
             Sample.rootE [Sample.leafE; Sample.rootE]).
  - rewrite bool_decide_eq_true_2 by reflexivity. apply orb_true_r.
  - reflexivity.
  - exact sample_chain.
  - reflexivity.
  - repeat constructor. apply not_elem_of_nil.
  - vm_compute. reflexivity.
  - left. reflexivity.
  - vm_compute. reflexivity.
  - left. reflexivity.
  - intros ix Hix. cbn [sample_rctx rc_CapabilityIndex] in Hix. apply Some_inj in Hix. rewrite <- Hix.
    vm_compute. discriminate.
Defined.

(** A marker that names a delegated capability does not revoke it: the check
    consults the marker of the root only.  The delegated leaf stays valid with
    its own marker in the tree, and so does every chain below it. *)
Theorem delegated_marker_ignored :
  @IsRevoked Sample.codec _ _ Sample.leafE
    (with_location (sample_rctx sample_tree)
       (<[RevocationPathFor (ContentHash Sample.leafE) := Some (ContentHash Sample.sigRoot)]> sample_tree))
  = false.
Proof. vm_compute. reflexivity. Qed.
