(* ===== verification/Store.v ===== *)
(** * Stores ([core/store]: [store.go], [memory.go], [namespaced.go], [notifying_content.go])

    The content store (hash to entity) and the location index (path to hash),
    each as an interface with the laws its implementations promise; the
    in-memory implementations; the namespaced index over any lawful index; and
    the notifying content store over any lawful content store.

    Every method holds the store's lock for its whole body, so the methods are
    atomic: a concurrent history is a sequence of these operations. *)

From S2P Require Import Prelude GoStrings Errors Hash Entity PeerID Paths.

(** ** The content store *)

Class ContentStore (CS : Type) := {
  cs_Put : CS -> Entity -> CS * result Hash;
  cs_Get : CS -> Hash -> option Entity;
  cs_Has : CS -> Hash -> bool;
  cs_Remove : CS -> Hash -> CS * bool;
  cs_Len : CS -> nat
}.

(** The outcome of recomputing the hash of an entity that is put: the computed
    hash, or the reason the put is refused. *)
Definition put_hash `{HashableCodec} (e : Entity) : result Hash :=
  let! computed := ComputeFormat (Algorithm (ContentHash e)) (Type_ e) (Data e) in
  if negb (IsZero (ContentHash e)) && negb (bool_decide (ContentHash e = computed)) then Err []
  else Ok computed.

Definition stamped (e : Entity) (h : Hash) : Entity := mkEntity (Type_ e) (Data e) h.

(** What an implementation promises: the store is a map, a put that succeeds
    files the entity under its recomputed hash, and a put that fails (a refused
    hash, or a failure of the medium) changes nothing. *)
Class ContentStoreLaws (CS : Type) `{ContentStore CS, HashableCodec} := {
  entities : CS -> gmap Hash Entity;
  cs_get_spec s h : cs_Get s h = entities s !! h;
  cs_has_spec s h : cs_Has s h = bool_decide (is_Some (entities s !! h));
  cs_put_spec s e :
    match snd (cs_Put s e) with
    | Ok h => put_hash e = Ok h /\ entities (fst (cs_Put s e)) = <[h := stamped e h]> (entities s)
    | Err _ => entities (fst (cs_Put s e)) = entities s
    end;
  cs_put_refused s e er : put_hash e = Err er -> snd (cs_Put s e) = Err er;
  cs_remove_spec s h :
    entities (fst (cs_Remove s h)) = delete h (entities s)
    /\ snd (cs_Remove s h) = bool_decide (is_Some (entities s !! h))
}.

Abbreviation MemoryContentStore := (gmap Hash Entity).

Section memory_content.
Context `{HashableCodec}.

Definition MemPut (s : MemoryContentStore) (e : Entity) : MemoryContentStore * result Hash :=
  match ComputeFormat (Algorithm (ContentHash e)) (Type_ e) (Data e) with
  | Err er => (s, Err er)
  | Ok computed =>
      if negb (IsZero (ContentHash e)) && negb (bool_decide (ContentHash e = computed)) then (s, Err [])
      else (<[computed := mkEntity (Type_ e) (Data e) computed]> s, Ok computed)
  end.

Definition MemRemove (s : MemoryContentStore) (h : Hash) : MemoryContentStore * bool :=
  match s !! h with Some _ => (delete h s, true) | None => (s, false) end.

#[export] Instance memory_content_store : ContentStore MemoryContentStore := {|
  cs_Put := MemPut;
  cs_Get s h := s !! h;
  cs_Has s h := match s !! h with Some _ => true | None => false end;
  cs_Remove := MemRemove;
  cs_Len s := size s
|}.

Lemma MemPut_hash s e :
  MemPut s e = match put_hash e with Ok h => (<[h := stamped e h]> s, Ok h) | Err er => (s, Err er) end.
Proof.
  unfold MemPut, put_hash. destruct (ComputeFormat _ _ _) as [c|]; [|done]. cbn [res_bind].
  by destruct (negb _ && negb _).
Qed.

#[export] Instance memory_content_store_laws : ContentStoreLaws MemoryContentStore.
Proof.
  refine {| entities s := s |}; cbn [cs_Get cs_Has cs_Put cs_Remove memory_content_store].
  - done.
  - intros s h. destruct (s !! h); symmetry; [by apply bool_decide_true|apply bool_decide_false].
    by intros [? ?].
  - intros s e. rewrite MemPut_hash. by destruct (put_hash e).
  - intros s e er He. rewrite MemPut_hash. by rewrite He.
  - intros s h. unfold MemRemove. destruct (s !! h) eqn:E; cbn [fst snd].
    + split; [done|]. symmetry. by apply bool_decide_true.
    + rewrite delete_id by done. split; [done|]. symmetry. apply bool_decide_false. by intros [? ?].
Defined.
End memory_content.

(** ** Content addressing *)

Section addressed.
Context {CS : Type} `{ContentStoreLaws CS}.

(** Every entity is filed under the hash recomputed from its content. *)
Definition addressed (m : gmap Hash Entity) : Prop :=
  forall h e, m !! h = Some e ->
    ContentHash e = h /\ ComputeFormat (Algorithm h) (Type_ e) (Data e) = Ok h.

Inductive content_step (s : CS) : CS -> Prop :=
| step_Put e : content_step s (fst (cs_Put s e))
| step_Remove h : content_step s (fst (cs_Remove s h)).

Lemma put_hash_ok e h :
  put_hash e = Ok h -> ComputeFormat (Algorithm (ContentHash e)) (Type_ e) (Data e) = Ok h
    /\ Algorithm h = Algorithm (ContentHash e) /\ (ContentHash e = zero_hash \/ ContentHash e = h).
Proof.
  unfold put_hash. intros Hp. inv_ok. destruct (IsZero (ContentHash e)) eqn:Hz; cbn [negb andb] in Hp.
  - inv_ok. split; [done|]. split; [by eapply ComputeFormat_wf|]. left. unfold IsZero in Hz. by bool_prop.
  - destruct (bool_decide_reflect (ContentHash e = x)) as [Hx|]; cbn [negb] in Hp; [|done]. inv_ok.
    split; [done|]. split; [by eapply ComputeFormat_wf|by right].
Qed.

Lemma stamped_addressed e h : put_hash e = Ok h ->
  ComputeFormat (Algorithm h) (Type_ (stamped e h)) (Data (stamped e h)) = Ok h.
Proof. intros (Hc & Ha & _)%put_hash_ok. by rewrite Ha. Qed.

Lemma content_step_addressed s s' :
  content_step s s' -> addressed (entities s) -> addressed (entities s').
Proof.
  intros Hs Ha. destruct Hs as [e|h].
  - pose proof (cs_put_spec s e) as Hp. destruct (snd (cs_Put s e)) as [h|er]; [|by rewrite Hp].
    destruct Hp as [Hh ->]. intros h' e'. destruct (decide (h = h')) as [<-|Hne].
    + rewrite lookup_insert_eq. intros [= <-]. split; [done|by apply stamped_addressed].
    + rewrite lookup_insert_ne by done. apply Ha.
  - destruct (cs_remove_spec s h) as [-> _]. intros h' e' [_ Hl]%lookup_delete_Some. by apply Ha.
Qed.

(** The store is content addressed. In every state reached from an empty
    store by puts and removals, whatever their arguments, an entity is filed
    only under the hash recomputed from its type and data and carries that
    hash, whatever hash its author claimed; a successful put makes exactly that
    entity retrievable under the hash it returns and changes no other entry. *)
Theorem content_store_addressed (s0 s : CS) (e : Entity) (h : Hash) :
  entities s0 = ∅ -> rtc content_step s0 s ->
  addressed (entities s)
  /\ (snd (cs_Put s e) = Ok h ->
      cs_Get (fst (cs_Put s e)) h = Some (stamped e h)
      /\ (forall h', h' <> h -> cs_Get (fst (cs_Put s e)) h' = cs_Get s h')
      /\ (ContentHash e = zero_hash \/ ContentHash e = h)).
Proof.
  intros He Hr. split.
  - assert (Ha : addressed (entities s0)) by (rewrite He; intros ? ? []%lookup_empty_Some).
    clear He. induction Hr as [|x y z Hxy Hyz IH]; [done|]. apply IH. by eapply content_step_addressed.
  - intros Hok. pose proof (cs_put_spec s e) as Hp. rewrite Hok in Hp. destruct Hp as [Hh Hent].
    split; [|split].
    + by rewrite cs_get_spec, Hent, lookup_insert_eq.
    + intros h' Hne. by rewrite !cs_get_spec, Hent, lookup_insert_ne.
    + by apply put_hash_ok in Hh as (_ & _ & ?).
Qed.
End addressed.

(** ** The notifying content store *)

Section notifying_content.
Context {CS W : Type} `{ContentStoreLaws CS}.

Record ContentStoreEvent := { ce_Hash : Hash; ce_Entity : Entity; ce_IsNew : bool }.
Record ContentConsumerResult := { ccr_Status : Z; ccr_ErrorCode : string; ccr_Message : string }.

(** A consumer acts on a state [W] of its own, shared by all consumers. *)
Record NamedContentHook := {
  nch_Name : string;
  nch_Fn : ContentStoreEvent -> W -> W * option ContentConsumerResult
}.

Definition content_halts (r : option ContentConsumerResult) : bool :=
  match r with
  | None => false
  | Some r => negb (ccr_Status r =? 0)%Z && negb (ccr_Status r =? 200)%Z
  end.

Fixpoint fireContentEvent (hooks : list NamedContentHook) (evt : ContentStoreEvent) (w : W) : W :=
  match hooks with
  | [] => w
  | hook :: rest =>
      let '(w', r) := nch_Fn hook evt w in
      if content_halts r then w' else fireContentEvent rest evt w'
  end.

Definition NotifyingContentStore_Put (hooks : list NamedContentHook) (s : CS) (w : W) (e : Entity)
  : CS * W * result Hash :=
  match ComputeFormat (Algorithm (ContentHash e)) (Type_ e) (Data e) with
  | Err _ => let '(s', r) := cs_Put s e in (s', w, r)
  | Ok computed =>
      if negb (IsZero (ContentHash e)) && negb (bool_decide (ContentHash e = computed))
      then let '(s', r) := cs_Put s e in (s', w, r)
      else if cs_Has s computed then (s, w, Ok computed)
      else
        let '(s', r) := cs_Put s e in
        match r with
        | Err er => (s', w, Err er)
        | Ok h => (s', fireContentEvent hooks {| ce_Hash := h; ce_Entity := e; ce_IsNew := true |} w, Ok h)
        end
  end.

Lemma NotifyingContentStore_Put_cases hooks s w e :
  NotifyingContentStore_Put hooks s w e =
  match put_hash e with
  | Ok h =>
      if cs_Has s h then (s, w, Ok h)
      else match cs_Put s e with
           | (s', Ok h) => (s', fireContentEvent hooks {| ce_Hash := h; ce_Entity := e; ce_IsNew := true |} w, Ok h)
           | (s', Err er) => (s', w, Err er)
           end
  | Err _ => let '(s', r) := cs_Put s e in (s', w, r)
  end.
Proof.
  unfold NotifyingContentStore_Put, put_hash. destruct (ComputeFormat _ _ _) as [c|]; [|done]. cbn [res_bind].
  destruct (negb _ && negb _); [done|]. destruct (cs_Has s c); [done|]. by destruct (cs_Put s e) as [? []].
Qed.

(** The notifying store adds events and nothing else. On a content
    addressed store a put of an entity that is not yet stored is the inner put,
    and fires the event exactly once when it succeeds; a put of a stored entity
    returns its hash, changes nothing and fires nothing, and the stored entity
    has the same canonical encoding (or the two collide); a refused put is
    refused as by the inner store. *)
Theorem NotifyingContentStore_Put_refines (hooks : list NamedContentHook) (s : CS) (w : W) (e : Entity) :
  addressed (entities s) ->
  let '(s', w', r) := NotifyingContentStore_Put hooks s w e in
  match put_hash e with
  | Err er => r = Err er /\ entities s' = entities s /\ w' = w
  | Ok h =>
      match entities s !! h with
      | Some old =>
          r = Ok h /\ s' = s /\ w' = w
          /\ exists enc enc', EncodeHashable (Type_ e) (Data e) = Some enc
               /\ EncodeHashable (Type_ old) (Data old) = Some enc'
               /\ (enc = enc' \/ digest_collision (Algorithm h) enc enc')
      | None =>
          (s', r) = cs_Put s e
          /\ w' = match r with
                  | Ok _ => fireContentEvent hooks {| ce_Hash := h; ce_Entity := e; ce_IsNew := true |} w
                  | Err _ => w
                  end
      end
  end.
Proof.
  intros Ha. rewrite NotifyingContentStore_Put_cases. pose proof (cs_put_spec s e) as Hp.
  destruct (put_hash e) as [h|er] eqn:Hh.
  - rewrite cs_has_spec. destruct (entities s !! h) as [old|] eqn:Ho.
    + rewrite bool_decide_true by done. split_and!; [done..|].
      destruct (Ha h old Ho) as [_ Hc]. apply put_hash_ok in Hh as (Hc' & Halg & _). rewrite <- Halg in Hc'.
      unfold ComputeFormat in Hc, Hc'. inv_ok. eexists _, _. split_and!; [done..|]. by eapply OfBytes_inj.
    + rewrite bool_decide_false by (by intros [? ?]).
      destruct (cs_Put s e) as [s' [h'|er]]; cbn [snd fst] in *; [|done].
      destruct Hp as [Hp _]. by replace h' with h by congruence.
  - pose proof (cs_put_refused s e er Hh) as Hr. destruct (cs_Put s e) as [s' r]. cbn [snd fst] in *. by subst r.
Qed.
End notifying_content.

(** ** The location index *)

Record LocationEntry := mkEntry { le_Path : string; le_Hash : Hash }.

(** [CasError] with [NotFound] set, [CasError] with [Actual]; the write-side
    refusal of a malformed path; a failure of the medium; and the two errors of
    event delivery. *)
Inductive IndexErr :=
| CasNotFound
| CasMismatch (Actual : Hash)
| InvalidPath (path : string)
| StorageFailure
| ErrEventBufferFull
| ErrShuttingDown.

Global Instance IndexErr_eq_dec : EqDecision IndexErr.
Proof. solve_decision. Defined.

(** Event delivery fails after the binding was committed. *)
Definition delivery_error (e : IndexErr) : bool :=
  match e with ErrEventBufferFull | ErrShuttingDown => true | _ => false end.
Definition committed (r : res IndexErr unit) : bool :=
  match r with Ok _ => true | Err e => delivery_error e end.

Class LocationIndex (L : Type) := {
  Set_ : L -> string -> Hash -> L * res IndexErr unit;
  Get : L -> string -> option Hash;
  Has : L -> string -> bool;
  Remove : L -> string -> L * option Hash;
  List_ : L -> string -> list LocationEntry;
  LenPrefix : L -> string -> nat;
  CompareAndSwap : L -> string -> Hash -> Hash -> L * res IndexErr unit;
  CompareAndRemove : L -> string -> Hash -> L * res IndexErr unit
}.

Definition path_le (a b : LocationEntry) : Prop := String.leb (le_Path a) (le_Path b) = true.

Global Instance path_le_dec a b : Decision (path_le a b).
Proof. unfold path_le. apply _. Defined.

(** The verdict of a conditional write. *)
Definition cas_verdict (current : option Hash) (expected : Hash) : res IndexErr unit :=
  match current with
  | None => Err CasNotFound
  | Some c => if decide (c = expected) then Ok tt else Err (CasMismatch c)
  end.

(** What an implementation promises: the index is a map from paths to hashes. *)
Class LocationIndexLaws (L : Type) `{LocationIndex L} := {
  bindings : L -> gmap string Hash;
  get_spec l p : Get l p = bindings l !! p;
  has_spec l p : Has l p = bool_decide (is_Some (bindings l !! p));
  set_spec l p h :
    bindings (fst (Set_ l p h)) = if committed (snd (Set_ l p h)) then <[p := h]> (bindings l) else bindings l;
  remove_spec l p : snd (Remove l p) = bindings l !! p /\ bindings (fst (Remove l p)) = delete p (bindings l);
  list_sorted l prefix : StronglySorted path_le (List_ l prefix) /\ NoDup (map le_Path (List_ l prefix));
  list_spec l prefix p h :
    mkEntry p h ∈ List_ l prefix <-> bindings l !! p = Some h /\ HasPrefix p prefix = true;
  len_spec l prefix : LenPrefix l prefix = length (List_ l prefix);
  cas_spec l p e n :
    snd (CompareAndSwap l p e n) = cas_verdict (bindings l !! p) e
    /\ bindings (fst (CompareAndSwap l p e n))
       = if decide (bindings l !! p = Some e) then <[p := n]> (bindings l) else bindings l;
  car_spec l p e :
    snd (CompareAndRemove l p e) = cas_verdict (bindings l !! p) e
    /\ bindings (fst (CompareAndRemove l p e))
       = if decide (bindings l !! p = Some e) then delete p (bindings l) else bindings l
}.

(** ** The in-memory index *)

Abbreviation MemoryLocationIndex := (gmap string Hash).

Definition MemCompareAndSwap (m : MemoryLocationIndex) (path : string) (expected new : Hash)
  : MemoryLocationIndex * res IndexErr unit :=
  match m !! path with
  | None => (m, Err CasNotFound)
  | Some current =>
      if decide (current <> expected) then (m, Err (CasMismatch current)) else (<[path := new]> m, Ok tt)
  end.

Definition MemCompareAndRemove (m : MemoryLocationIndex) (path : string) (expected : Hash)
  : MemoryLocationIndex * res IndexErr unit :=
  match m !! path with
  | None => (m, Err CasNotFound)
  | Some current =>
      if decide (current <> expected) then (m, Err (CasMismatch current)) else (delete path m, Ok tt)
  end.

(** The map is walked in some order; the sort makes the result independent of
    it (see [sorted_listing_unique]). *)
Definition MemList (m : MemoryLocationIndex) (prefix : string) : list LocationEntry :=
  merge_sort path_le
    (map (fun kv => mkEntry (fst kv) (snd kv))
       (List.filter (fun kv => HasPrefix (fst kv) prefix) (map_to_list m))).

Definition MemLenPrefix (m : MemoryLocationIndex) (prefix : string) : nat :=
  if String.eqb prefix "" then size m
  else length (List.filter (fun kv => HasPrefix (fst kv) prefix) (map_to_list m)).

Global Instance memory_location_index : LocationIndex MemoryLocationIndex := {|
  Set_ m p h := (<[p := h]> m, Ok tt);
  Get m p := m !! p;
  Has m p := match m !! p with Some _ => true | None => false end;
  Remove m p := match m !! p with Some h => (delete p m, Some h) | None => (m, None) end;
  List_ := MemList;
  LenPrefix := MemLenPrefix;
  CompareAndSwap := MemCompareAndSwap;
  CompareAndRemove := MemCompareAndRemove
|}.

Lemma leb_trans s t u : String.leb s t = true -> String.leb t u = true -> String.leb s u = true.
Proof.
  unfold String.leb. revert t u. induction s as [|a s IH]; intros t u; [by destruct u|].
  destruct t as [|b t], u as [|c u]; cbn [String.compare]; try done.
  destruct (Ascii.compare a b) eqn:E1; [apply Ascii.compare_eq_iff in E1 as ->| |done].
  - destruct (Ascii.compare b c) eqn:E2; try done. apply IH.
  - intros _. destruct (Ascii.compare b c) eqn:E2; [apply Ascii.compare_eq_iff in E2 as <-; by rewrite E1| |done].
    intros _. unfold Ascii.compare in *. rewrite N.compare_lt_iff in E1, E2.
    assert (Ascii.N_of_ascii a < Ascii.N_of_ascii c)%N as ->%N.compare_lt_iff by lia. done.
Qed.

Global Instance path_le_trans : Transitive path_le.
Proof. intros x y z. unfold path_le. apply leb_trans. Qed.
Global Instance path_le_total : Total path_le.
Proof. intros x y. unfold path_le. apply String.leb_total. Qed.

(** A listing with distinct paths has one sorted order. *)
Lemma sorted_listing_unique l l' :
  StronglySorted path_le l -> StronglySorted path_le l' -> NoDup (map le_Path l) -> l ≡ₚ l' -> l = l'.
Proof.
  intros Hs Hs' Hnd Hp. apply (StronglySorted_unique_strong path_le); [|done..].
  intros x y Hx Hy Hxy Hyx. rewrite <- Hp in Hy.
  pose proof (String.leb_antisym _ _ Hxy Hyx) as Heq.
  apply list_elem_of_lookup in Hx as [i Hi]. apply list_elem_of_lookup in Hy as [j Hj].
  assert (i = j) as <-; [|congruence].
  eapply (NoDup_lookup _ _ _ (le_Path x) Hnd); rewrite list_lookup_fmap; [by rewrite Hi|rewrite Hj; by rewrite Heq].
Qed.

Lemma filter_keys_NoDup {A} (p : string * A -> bool) (l : list (string * A)) :
  NoDup (map fst l) -> NoDup (map fst (List.filter p l)).
Proof.
  induction l as [|x l IH]; [done|]. cbn [map List.filter]. intros [Hni Hnd]%NoDup_cons.
  destruct (p x); [|by apply IH]. cbn [map]. apply NoDup_cons. split; [|by apply IH].
  intros Hin. apply Hni. apply list_elem_of_In, in_map_iff in Hin as (y & Hy & Hin).
  apply filter_In in Hin as [Hin _]. apply list_elem_of_In, in_map_iff. eauto.
Qed.

Lemma MemList_perm m prefix :
  map (fun e => (le_Path e, le_Hash e)) (MemList m prefix)
  ≡ₚ List.filter (fun kv => HasPrefix (fst kv) prefix) (map_to_list m).
Proof.
  unfold MemList. rewrite merge_sort_Permutation, map_map. cbn [le_Path le_Hash].
  rewrite <- (map_id (List.filter _ _)) at 2. erewrite map_ext; [done|]. by intros [].
Qed.

Lemma MemList_elem m prefix p h :
  mkEntry p h ∈ MemList m prefix <-> m !! p = Some h /\ HasPrefix p prefix = true.
Proof.
  unfold MemList. rewrite merge_sort_Permutation, list_elem_of_In, in_map_iff. split.
  - intros ([p' h'] & [= -> ->] & [Hin Hp]%filter_In). split; [|done].
    by apply elem_of_map_to_list, list_elem_of_In.
  - intros [Hm Hp]. exists (p, h). split; [done|]. apply filter_In. split; [|done].
    by apply list_elem_of_In, elem_of_map_to_list.
Qed.

Global Instance memory_location_index_laws : LocationIndexLaws MemoryLocationIndex.
Proof.
  refine {| bindings m := m |};
    cbn [Set_ Get Has Remove List_ LenPrefix CompareAndSwap CompareAndRemove memory_location_index].
  - done.
  - intros m p. destruct (m !! p); symmetry; [by apply bool_decide_true|apply bool_decide_false].
    by intros [? ?].
  - done.
  - intros m p. destruct (m !! p) eqn:E; [done|]. cbn [fst snd]. by rewrite delete_id.
  - intros m prefix. split; [apply StronglySorted_merge_sort; apply _|].
    assert (Heq : map le_Path (MemList m prefix)
      = map fst (map (fun e => (le_Path e, le_Hash e)) (MemList m prefix))) by (by rewrite map_map).
    rewrite Heq, MemList_perm. apply filter_keys_NoDup, NoDup_fst_map_to_list.
  - apply MemList_elem.
  - intros m prefix. rewrite <- (length_map (fun e => (le_Path e, le_Hash e)) (MemList m prefix)).
    rewrite MemList_perm. unfold MemLenPrefix. destruct (String.eqb_spec prefix "") as [->|]; [|done].
    rewrite <- length_map_to_list. f_equal. induction (map_to_list m) as [|x l IH]; [done|].
    cbn [List.filter]. change (HasPrefix (fst x) "") with true. cbv iota. by rewrite <- IH.
  - intros m p e n. unfold MemCompareAndSwap, cas_verdict. destruct (m !! p) as [c|]; [|done].
    destruct (decide (c = e)) as [->|Hne].
    + rewrite decide_False by (intros Hx; by apply Hx). by rewrite decide_True.
    + rewrite decide_True by done. by rewrite decide_False by congruence.
  - intros m p e. unfold MemCompareAndRemove, cas_verdict. destruct (m !! p) as [c|]; [|done].
    destruct (decide (c = e)) as [->|Hne].
    + rewrite decide_False by (intros Hx; by apply Hx). by rewrite decide_True.
    + rewrite decide_True by done. by rewrite decide_False by congruence.
Defined.

(** ** Writes with context *)

Record MutationContext := {
  AuthorHash : Hash;
  CapabilityHash : Hash;
  CallerCapabilityHash : Hash;
  HandlerPattern : string;
  mc_Operation : string;
  ChainID : string;
  ParentChainID : string;
  CascadeDepth : option Z;
  Clock : list byte;
  ClockType : string
}.

Record ConsumerResult := { Status : Z; Code : string; Message : string }.
Record CascadeHaltEntry := { he_Name : string; he_Error : ConsumerResult }.

Record CascadeResult := {
  BindingCommitted : bool;
  Completed : list string;
  Halted : list CascadeHaltEntry;
  Skipped : list string;
  cr_CascadeDepth : Z
}.

Definition IsComplete (cr : option CascadeResult) : bool :=
  match cr with
  | None => true
  | Some cr => (length (Halted cr) =? 0)%nat && (length (Skipped cr) =? 0)%nat
  end.
Definition HasHalt (cr : option CascadeResult) : bool :=
  match cr with None => false | Some cr => (0 <? length (Halted cr))%nat end.
Definition IsDepthRefused (cr : option CascadeResult) : bool :=
  match cr with None => false | Some cr => negb (BindingCommitted cr) && (0 <? length (Skipped cr))%nat end.

(** The optional interface of an index that carries a context to its events. *)
Record ContextualWriter (L : Type) := {
  SetWithContext : L -> string -> Hash -> option MutationContext -> L * option CascadeResult * res IndexErr unit;
  RemoveWithContext : L -> string -> option MutationContext -> L * option Hash * option CascadeResult
}.
Arguments SetWithContext {L}.
Arguments RemoveWithContext {L}.

(** ** The namespaced index *)

Section namespaced.
Context {L : Type} `{LocationIndex L}.

Record NamespacedIndex := mkNamespaced { inner : L; localNS : string }.

Definition with_inner (n : NamespacedIndex) (l : L) : NamespacedIndex := mkNamespaced l (localNS n).

Definition canonicalize (n : NamespacedIndex) (path : string) : string :=
  if HasPrefix path "/" then path else "/" +:+ localNS n +:+ "/" +:+ path.

Definition canonicalizeChecked (n : NamespacedIndex) (path : string) : option string :=
  let abs := canonicalize n path in if is_ok (ValidateAbsolutePath abs) then Some abs else None.

Definition NSet (n : NamespacedIndex) (path : string) (h : Hash) : NamespacedIndex * res IndexErr unit :=
  match canonicalizeChecked n path with
  | None => (n, Err (InvalidPath path))
  | Some abs => let '(l, r) := Set_ (inner n) abs h in (with_inner n l, r)
  end.

(** [cw] is the type assertion of the inner index to [ContextualWriter]. *)
Definition NSetWithContext (cw : option (ContextualWriter L)) (n : NamespacedIndex) (path : string) (h : Hash)
    (ctx : option MutationContext) : NamespacedIndex * option CascadeResult * res IndexErr unit :=
  match canonicalizeChecked n path with
  | None => (n, None, Err (InvalidPath path))
  | Some abs =>
      match cw with
      | Some cw => let '(l, cr, r) := SetWithContext cw (inner n) abs h ctx in (with_inner n l, cr, r)
      | None => let '(l, r) := Set_ (inner n) abs h in (with_inner n l, None, r)
      end
  end.

Definition NGet (n : NamespacedIndex) (path : string) : option Hash :=
  match canonicalizeChecked n path with None => None | Some abs => Get (inner n) abs end.

Definition NHas (n : NamespacedIndex) (path : string) : bool :=
  match canonicalizeChecked n path with None => false | Some abs => Has (inner n) abs end.

Definition NRemove (n : NamespacedIndex) (path : string) : NamespacedIndex * option Hash :=
  match canonicalizeChecked n path with
  | None => (n, None)
  | Some abs => let '(l, r) := Remove (inner n) abs in (with_inner n l, r)
  end.

Definition NRemoveWithContext (cw : option (ContextualWriter L)) (n : NamespacedIndex) (path : string)
    (ctx : option MutationContext) : NamespacedIndex * option Hash * option CascadeResult :=
  match canonicalizeChecked n path with
  | None => (n, None, None)
  | Some abs =>
      match cw with
      | Some cw => let '(l, h, cr) := RemoveWithContext cw (inner n) abs ctx in (with_inner n l, h, cr)
      | None => let '(l, h) := Remove (inner n) abs in (with_inner n l, h, None)
      end
  end.

Definition NList (n : NamespacedIndex) (prefix : string) : list LocationEntry :=
  if String.eqb prefix "" || String.eqb prefix "/" then List_ (inner n) ""
  else match canonicalizeChecked n prefix with None => [] | Some abs => List_ (inner n) abs end.

Definition NLenPrefix (n : NamespacedIndex) (prefix : string) : nat :=
  if String.eqb prefix "" || String.eqb prefix "/" then LenPrefix (inner n) ""
  else match canonicalizeChecked n prefix with None => 0%nat | Some abs => LenPrefix (inner n) abs end.

Definition NCompareAndSwap (n : NamespacedIndex) (path : string) (expected new : Hash)
  : NamespacedIndex * res IndexErr unit :=
  match canonicalizeChecked n path with
  | None => (n, Err (InvalidPath path))
  | Some abs => let '(l, r) := CompareAndSwap (inner n) abs expected new in (with_inner n l, r)
  end.

Definition NCompareAndRemove (n : NamespacedIndex) (path : string) (expected : Hash)
  : NamespacedIndex * res IndexErr unit :=
  match canonicalizeChecked n path with
  | None => (n, Err (InvalidPath path))
  | Some abs => let '(l, r) := CompareAndRemove (inner n) abs expected in (with_inner n l, r)
  end.

#[export] Instance namespaced_location_index : LocationIndex NamespacedIndex := {|
  Set_ := NSet; Get := NGet; Has := NHas; Remove := NRemove; List_ := NList; LenPrefix := NLenPrefix;
  CompareAndSwap := NCompareAndSwap; CompareAndRemove := NCompareAndRemove
|}.

Definition GetNS (n : NamespacedIndex) (ns path : string) : option Hash := Get (inner n) ("/" +:+ ns +:+ "/" +:+ path).
Definition SetNS (n : NamespacedIndex) (ns path : string) (h : Hash) : NamespacedIndex * res IndexErr unit :=
  let '(l, r) := Set_ (inner n) ("/" +:+ ns +:+ "/" +:+ path) h in (with_inner n l, r).
Definition HasNS (n : NamespacedIndex) (ns path : string) : bool := Has (inner n) ("/" +:+ ns +:+ "/" +:+ path).
Definition RemoveNS (n : NamespacedIndex) (ns path : string) : NamespacedIndex * option Hash :=
  let '(l, r) := Remove (inner n) ("/" +:+ ns +:+ "/" +:+ path) in (with_inner n l, r).
Definition ListNS (n : NamespacedIndex) (ns prefix : string) : list LocationEntry :=
  List_ (inner n) ("/" +:+ ns +:+ "/" +:+ prefix).
Definition QualifyTo (ns path : string) : string := "/" +:+ ns +:+ "/" +:+ path.
End namespaced.
Arguments NamespacedIndex : clear implicits.

(** ** What the namespaced index guarantees *)

Section namespaced_spec.
Context {L : Type} `{LocationIndexLaws L}.

Definition ns_bindings (n : NamespacedIndex L) : gmap string Hash := bindings (inner n).

(** Only well-formed absolute paths are bound. *)
Definition valid_paths (m : gmap string Hash) : Prop :=
  forall p h, m !! p = Some h -> ValidateAbsolutePath p = Ok tt.

(** The mutating methods of the [LocationIndex] interface. *)
Inductive ns_step (n : NamespacedIndex L) : NamespacedIndex L -> Prop :=
| ns_Set p h : ns_step n (fst (NSet n p h))
| ns_Remove p : ns_step n (fst (NRemove n p))
| ns_CompareAndSwap p e h : ns_step n (fst (NCompareAndSwap n p e h))
| ns_CompareAndRemove p e : ns_step n (fst (NCompareAndRemove n p e)).

Lemma canonicalizeChecked_valid (n : NamespacedIndex L) p k :
  canonicalizeChecked n p = Some k -> ValidateAbsolutePath k = Ok tt /\ k = canonicalize n p.
Proof.
  unfold canonicalizeChecked. destruct (ValidateAbsolutePath _) as [[]|] eqn:E; [|done].
  by intros [= <-].
Qed.

Lemma canonicalizeChecked_ext (n n' : NamespacedIndex L) p :
  localNS n = localNS n' -> canonicalizeChecked n p = canonicalizeChecked n' p.
Proof. unfold canonicalizeChecked, canonicalize. by intros ->. Qed.

Lemma NSet_cases n p h :
  match canonicalizeChecked n p with
  | None => NSet n p h = (n, Err (InvalidPath p))
  | Some k => localNS (fst (NSet n p h)) = localNS n
      /\ ns_bindings (fst (NSet n p h))
         = if committed (snd (NSet n p h)) then <[k := h]> (ns_bindings n) else ns_bindings n
  end.
Proof.
  unfold NSet. destruct (canonicalizeChecked n p) as [k|]; [|done].
  pose proof (set_spec (inner n) k h) as Hs. by destruct (Set_ (inner n) k h).
Qed.

Lemma valid_insert m p k h (n : NamespacedIndex L) :
  canonicalizeChecked n p = Some k -> valid_paths m -> valid_paths (<[k := h]> m).
Proof.
  intros [Hk _]%canonicalizeChecked_valid Hv q h' [[<- _]|[_ Hq]]%lookup_insert_Some; [done|by eapply Hv].
Qed.

Lemma valid_delete m k : valid_paths m -> valid_paths (delete k m).
Proof. intros Hv q h [_ Hq]%lookup_delete_Some. by eapply Hv. Qed.

Lemma ns_step_valid n n' :
  ns_step n n' -> valid_paths (ns_bindings n) -> valid_paths (ns_bindings n') /\ localNS n' = localNS n.
Proof.
  intros Hs Hv. destruct Hs as [p h|p|p e h|p e].
  - pose proof (NSet_cases n p h) as Hc. destruct (canonicalizeChecked n p) as [k|] eqn:Hk; [|by rewrite Hc].
    destruct Hc as [-> ->]. split; [|done]. destruct (committed _); [by eapply valid_insert|done].
  - unfold NRemove. destruct (canonicalizeChecked n p) as [k|] eqn:Hk; [|done].
    destruct (remove_spec (inner n) k) as [_ Hb]. destruct (Remove (inner n) k). cbn [fst] in *.
    split; [|done]. unfold ns_bindings. cbn [inner with_inner]. rewrite Hb. by apply valid_delete.
  - unfold NCompareAndSwap. destruct (canonicalizeChecked n p) as [k|] eqn:Hk; [|done].
    destruct (cas_spec (inner n) k e h) as [_ Hb]. destruct (CompareAndSwap (inner n) k e h). cbn [fst] in *.
    split; [|done]. unfold ns_bindings. cbn [inner with_inner]. rewrite Hb.
    case_decide; [by eapply valid_insert|done].
  - unfold NCompareAndRemove. destruct (canonicalizeChecked n p) as [k|] eqn:Hk; [|done].
    destruct (car_spec (inner n) k e) as [_ Hb]. destruct (CompareAndRemove (inner n) k e). cbn [fst] in *.
    split; [|done]. unfold ns_bindings. cbn [inner with_inner]. rewrite Hb.
    case_decide; [by apply valid_delete|done].
Qed.

(** The namespaced index is total over caller input and sees one name per
    path. In every state reached from an empty index by its methods, whatever
    paths callers pass, only well-formed absolute paths are bound. A write to a
    malformed path is refused and changes nothing. After a committed write of
    [p], a read of [q] gives the new hash exactly when the two name the same
    absolute path, in whichever spelling, and is otherwise unchanged. *)
Theorem namespaced_index_spec (n0 n : NamespacedIndex L) (p q : string) (h : Hash) :
  ns_bindings n0 = ∅ -> rtc ns_step n0 n ->
  valid_paths (ns_bindings n)
  /\ (canonicalizeChecked n p = None -> NSet n p h = (n, Err (InvalidPath p)) /\ NGet n p = None)
  /\ (committed (snd (NSet n p h)) = true ->
      NGet (fst (NSet n p h)) q
      = if decide (canonicalizeChecked n q = canonicalizeChecked n p) then Some h else NGet n q).
Proof.
  intros Hemp Hr. split; [|split].
  - assert (Hv : valid_paths (ns_bindings n0)) by (rewrite Hemp; intros ? ? []%lookup_empty_Some).
    clear Hemp. induction Hr as [|x y z Hxy _ IH]; [done|]. apply IH. by apply ns_step_valid in Hxy as [? _].
  - intros Hk. unfold NSet, NGet. by rewrite Hk.
  - intros Hc. pose proof (NSet_cases n p h) as Hs.
    destruct (canonicalizeChecked n p) as [k|] eqn:Hk; [|by rewrite Hs in Hc].
    destruct Hs as [Hns Hb]. rewrite Hc in Hb. unfold NGet.
    rewrite (canonicalizeChecked_ext _ n q Hns).
    destruct (canonicalizeChecked n q) as [k'|]; [|by rewrite decide_False].
    rewrite !get_spec. unfold ns_bindings in Hb. rewrite Hb. case_decide as Hd.
    + injection Hd as ->. by rewrite lookup_insert_eq.
    + rewrite lookup_insert_ne by congruence. done.
Qed.
End namespaced_spec.

(** ** Witnesses *)

Section witnesses.
#[local] Existing Instance toy_hashable.

Lemma content_store_addressed_witness :
  exists h, cs_Get (fst (cs_Put (∅ : MemoryContentStore) (mkEntity "t" [Byte.x01] zero_hash))) h
            = Some (mkEntity "t" [Byte.x01] h).
Proof.
  exists (toy_hash "t" [Byte.x01]).
  apply (content_store_addressed (∅ : MemoryContentStore) ∅).
  - reflexivity.
  - apply rtc_refl.
  - vm_compute. reflexivity.
Defined.

(** An entity that is already stored: nothing is written and no event fires. *)
Lemma NotifyingContentStore_Put_refines_witness :
  let s := {[ toy_hash "t" [Byte.x01] := toy_entity "t" [Byte.x01] ]} : MemoryContentStore in
  let hook := {| nch_Name := "count"; nch_Fn := fun (_ : ContentStoreEvent) (w : nat) => (S w, None) |} in
  NotifyingContentStore_Put [hook] s 0%nat (toy_entity "t" [Byte.x01])
  = (s, 0%nat, Ok (toy_hash "t" [Byte.x01])).
Proof.
  intros s hook.
  assert (Ha : addressed (entities s)).
  { intros h e. cbn [entities memory_content_store_laws]. unfold s. intros [<- <-]%lookup_singleton_Some. split; [reflexivity|apply toy_compute]. }
  pose proof (NotifyingContentStore_Put_refines [hook] s 0%nat (toy_entity "t" [Byte.x01]) Ha) as Hp.
  destruct (NotifyingContentStore_Put _ _ _ _) as [[s' w'] r].
  assert (Hh : put_hash (toy_entity "t" [Byte.x01]) = Ok (toy_hash "t" [Byte.x01]))
    by (vm_compute; reflexivity).
  rewrite Hh in Hp. cbn [entities memory_content_store_laws] in Hp. unfold s in Hp.
  rewrite lookup_singleton_eq in Hp. destruct Hp as (-> & -> & -> & _). reflexivity.
Defined.
End witnesses.

Lemma namespaced_index_spec_witness :
  let n := mkNamespaced (∅ : MemoryLocationIndex) sample_peer in
  NGet (fst (NSet n "data/x" zero_hash)) ("/" +:+ sample_peer +:+ "/data/x") = Some zero_hash.
Proof.
  intros n.
  pose proof (proj2 (proj2 (namespaced_index_spec n n "data/x"
                ("/" +:+ sample_peer +:+ "/data/x") zero_hash eq_refl (rtc_refl _ _)))) as Hw.
  rewrite Hw by (vm_compute; reflexivity). rewrite decide_True by (vm_compute; reflexivity). reflexivity.
Defined.

(** The namespace-aware setter does not validate: it binds a path that [Set]
    refuses. *)
Theorem SetNS_binds_malformed_path :
  let n := mkNamespaced (∅ : MemoryLocationIndex) sample_peer in
  snd (NSet n "/not-a-peer//x" zero_hash) = Err (InvalidPath "/not-a-peer//x")
  /\ snd (SetNS n "not-a-peer" "/x" zero_hash) = Ok tt
  /\ bindings (inner (fst (SetNS n "not-a-peer" "/x" zero_hash))) !! "/not-a-peer//x" = Some zero_hash.
Proof. cbv zeta. split_and!; vm_compute; reflexivity. Qed.
