(* ===== verification/Notifying.v ===== *)
(** * The notifying index and its cascades
      ([core/store]: [notifying.go], [cascade.go], [cascade_tracker.go], [event.go])

    A write to the notifying index commits the binding, runs the synchronous
    hooks in order, and then offers the event to a bounded queue.  Hooks may
    themselves read and write the index, so writes nest; the cascade depth
    carried by the mutation context bounds the nesting.

    A hook is a program ([HookProg]): it may read and update a state of its own,
    read the index, write it through the notifying index, and update the
    mutation context of its event (which the code shares by pointer with the
    later hooks and with the queued event).  The interpreter takes the nested
    write operations as an argument and is tied by a fuel that counts nesting,
    not steps; [cascade_terminates] gives the fuel that is always enough. *)

From Stdlib Require Import Ascii.
From S2P Require Import Prelude GoStrings Errors Hash Entity PeerID Paths Store.

Open Scope Z_scope.

(** ** Hook patterns *)

Definition splitNamespaceForMatch (path : string) : string * string :=
  if negb (HasPrefix path "/") then ("", path)
  else
    let rest := str_drop 1 path in
    match IndexByte rest "/" with
    | Some i => (str_take i rest, str_drop (i + 1) rest)
    | None => (rest, "")
    end.

Definition stripLeadingSlash (s : string) : string := if HasPrefix s "/" then str_drop 1 s else s.

Definition matchSuffix (pattern suffix : string) : bool :=
  if String.eqb pattern "*" then true
  else if HasSuffix pattern "/*" then
    if HasPrefix suffix (str_take (slen pattern - 1) pattern) then true
    else String.eqb suffix (str_take (slen pattern - 2) pattern)
  else String.eqb pattern suffix.

Definition pathMatchesPattern (pattern path : string) : bool :=
  if String.eqb pattern "" || String.eqb pattern "*" then true
  else if HasPrefix pattern "/" then
    if HasPrefix pattern "/*/" then matchSuffix (str_drop 3 pattern) (snd (splitNamespaceForMatch path))
    else matchSuffix (str_drop 1 pattern) (stripLeadingSlash path)
  else matchSuffix pattern (snd (splitNamespaceForMatch path)).

(** ** Events *)

Inductive ChangeType := ChangeCreated | ChangeModified | ChangeDeleted.

Record TreeChangeEvent := {
  ev_Path : string;
  ev_PeerID : string;
  ev_Hash : Hash;
  PreviousHash : Hash;
  ev_ChangeType : ChangeType;
  Context_ : option MutationContext
}.

Definition with_context (e : TreeChangeEvent) (ctx : option MutationContext) : TreeChangeEvent := {|
  ev_Path := ev_Path e; ev_PeerID := ev_PeerID e; ev_Hash := ev_Hash e; PreviousHash := PreviousHash e;
  ev_ChangeType := ev_ChangeType e; Context_ := ctx |}.

Definition DefaultMaxCascadeDepth : Z := 32.

(** ** Hooks and state *)

Section notifying.
Context {L W : Type} `{LocationIndex L}.

Inductive HookProg :=
| HReturn (r : option ConsumerResult)
| HWorld (f : W -> W) (k : W -> HookProg)
| HContext (f : MutationContext -> MutationContext) (k : HookProg)
| HGet (path : string) (k : option Hash -> HookProg)
| HList (prefix : string) (k : list LocationEntry -> HookProg)
| HSet (path : string) (h : Hash) (ctx : option MutationContext)
       (k : option CascadeResult -> res IndexErr unit -> HookProg)
| HRemove (path : string) (ctx : option MutationContext) (k : option Hash -> option CascadeResult -> HookProg)
| HCompareAndSwap (path : string) (expected new : Hash) (k : res IndexErr unit -> HookProg)
| HCompareAndRemove (path : string) (expected : Hash) (k : res IndexErr unit -> HookProg).

Record NamedSyncHook := { Name : string; Pattern : string; Fn : TreeChangeEvent -> HookProg }.

(** Hooks and threshold are set before the index serves writes. *)
Record NotifyingConfig := { namedHooks : list NamedSyncHook; maxCascadeDepth : Z }.

Record NotifyingState := {
  ni_inner : L;
  events : list TreeChangeEvent;
  capacity : nat;
  done_ : bool;
  suppressEmit : bool;
  droppedEvents : Z;
  world : W
}.

Definition with_ni_inner (st : NotifyingState) (l : L) : NotifyingState := {|
  ni_inner := l; events := events st; capacity := capacity st; done_ := done_ st;
  suppressEmit := suppressEmit st; droppedEvents := droppedEvents st; world := world st |}.
Definition with_events (st : NotifyingState) (es : list TreeChangeEvent) : NotifyingState := {|
  ni_inner := ni_inner st; events := es; capacity := capacity st; done_ := done_ st;
  suppressEmit := suppressEmit st; droppedEvents := droppedEvents st; world := world st |}.
Definition with_dropped (st : NotifyingState) (d : Z) : NotifyingState := {|
  ni_inner := ni_inner st; events := events st; capacity := capacity st; done_ := done_ st;
  suppressEmit := suppressEmit st; droppedEvents := d; world := world st |}.
Definition with_world (st : NotifyingState) (w : W) : NotifyingState := {|
  ni_inner := ni_inner st; events := events st; capacity := capacity st; done_ := done_ st;
  suppressEmit := suppressEmit st; droppedEvents := droppedEvents st; world := w |}.

(** [events] is the buffered channel: a send succeeds when it is not full. *)
Definition emit (st : NotifyingState) (evt : TreeChangeEvent) : NotifyingState * res IndexErr unit :=
  if suppressEmit st then (st, Ok tt)
  else if done_ st then (st, Err ErrShuttingDown)
  else if (length (events st) <? capacity st)%nat then (with_events st (events st ++ [evt]), Ok tt)
  else (with_dropped st (u64 (droppedEvents st + 1)), Err ErrEventBufferFull).

(** The write operations; [None] is out of fuel. *)
Record Ops := {
  op_Set : NotifyingState -> string -> Hash -> option MutationContext ->
           option (NotifyingState * option CascadeResult * res IndexErr unit);
  op_Remove : NotifyingState -> string -> option MutationContext ->
              option (NotifyingState * option Hash * option CascadeResult);
  op_CompareAndSwap : NotifyingState -> string -> Hash -> Hash -> option (NotifyingState * res IndexErr unit);
  op_CompareAndRemove : NotifyingState -> string -> Hash -> option (NotifyingState * res IndexErr unit)
}.

Definition stuck : Ops := {|
  op_Set _ _ _ _ := None; op_Remove _ _ _ := None; op_CompareAndSwap _ _ _ _ := None;
  op_CompareAndRemove _ _ _ := None |}.

Section body.
Context (cfg : NotifyingConfig) (nested : Ops).

Fixpoint run_hook (p : HookProg) (st : NotifyingState) (ctx : option MutationContext)
  : option (NotifyingState * option MutationContext * option ConsumerResult) :=
  match p with
  | HReturn r => Some (st, ctx, r)
  | HWorld f k => run_hook (k (world st)) (with_world st (f (world st))) ctx
  | HContext f k => run_hook k st (match ctx with Some c => Some (f c) | None => None end)
  | HGet path k => run_hook (k (Get (ni_inner st) path)) st ctx
  | HList prefix k => run_hook (k (List_ (ni_inner st) prefix)) st ctx
  | HSet path h c k =>
      match op_Set nested st path h c with
      | None => None
      | Some (st', cr, r) => run_hook (k cr r) st' ctx
      end
  | HRemove path c k =>
      match op_Remove nested st path c with
      | None => None
      | Some (st', h, cr) => run_hook (k h cr) st' ctx
      end
  | HCompareAndSwap path e n k =>
      match op_CompareAndSwap nested st path e n with
      | None => None
      | Some (st', r) => run_hook (k r) st' ctx
      end
  | HCompareAndRemove path e k =>
      match op_CompareAndRemove nested st path e with
      | None => None
      | Some (st', r) => run_hook (k r) st' ctx
      end
  end.

Definition halts (r : option ConsumerResult) : option ConsumerResult :=
  match r with
  | None => None
  | Some r => if (Status r =? 0) || (Status r =? 200) then None else Some r
  end.

Definition hook_names (hooks : list NamedSyncHook) : list string := map Name hooks.

(** The loop of [runCascade]; once halted, the rest of the hooks is skipped. *)
Fixpoint cascade (hooks : list NamedSyncHook) (evt : TreeChangeEvent) (cr : CascadeResult)
    (st : NotifyingState) (ctx : option MutationContext)
  : option (NotifyingState * option MutationContext * CascadeResult) :=
  match hooks with
  | [] => Some (st, ctx, cr)
  | hook :: rest =>
      if negb (pathMatchesPattern (Pattern hook) (ev_Path evt)) then cascade rest evt cr st ctx
      else
        match run_hook (Fn hook (with_context evt ctx)) st ctx with
        | None => None
        | Some (st', ctx', result) =>
            match halts result with
            | None =>
                cascade rest evt {|
                  BindingCommitted := BindingCommitted cr; Completed := Completed cr ++ [Name hook];
                  Halted := Halted cr; Skipped := Skipped cr; cr_CascadeDepth := cr_CascadeDepth cr |} st' ctx'
            | Some r =>
                Some (st', ctx', {|
                  BindingCommitted := BindingCommitted cr; Completed := Completed cr;
                  Halted := Halted cr ++ [{| he_Name := Name hook; he_Error := r |}];
                  Skipped := Skipped cr ++ hook_names rest; cr_CascadeDepth := cr_CascadeDepth cr |})
            end
        end
  end.

Definition context_depth (ctx : option MutationContext) : Z :=
  match ctx with Some c => match CascadeDepth c with Some d => d | None => 0 end | None => 0 end.

Definition runCascade (evt : TreeChangeEvent) (ctx : option MutationContext) (st : NotifyingState)
  : option (NotifyingState * option MutationContext * option CascadeResult) :=
  match namedHooks cfg with
  | [] => Some (st, ctx, None)
  | _ =>
      match cascade (namedHooks cfg) evt {|
              BindingCommitted := true; Completed := []; Halted := []; Skipped := [];
              cr_CascadeDepth := context_depth ctx |} st ctx with
      | None => None
      | Some (st', ctx', cr) => Some (st', ctx', Some cr)
      end
  end.

(** The explicit depth of a context, when it reaches the threshold. *)
Definition refused_depth (ctx : option MutationContext) : option Z :=
  match ctx with
  | Some c =>
      match CascadeDepth c with
      | Some d => if maxCascadeDepth cfg <=? d then Some d else None
      | None => None
      end
  | None => None
  end.

Definition setInternal (st : NotifyingState) (path : string) (h : Hash) (ctx : option MutationContext)
  : option (NotifyingState * option CascadeResult * res IndexErr unit) :=
  match refused_depth ctx with
  | Some d =>
      Some (st, Some {| BindingCommitted := false; Completed := []; Halted := [];
                        Skipped := hook_names (namedHooks cfg); cr_CascadeDepth := d |}, Ok tt)
  | None =>
      let prev := Get (ni_inner st) path in
      if decide (prev = Some h) then Some (st, None, Ok tt)
      else
        let '(l, r) := Set_ (ni_inner st) path h in
        let st := with_ni_inner st l in
        match r with
        | Err e => Some (st, None, Err e)
        | Ok _ =>
            let evt := match prev with
              | Some prev => {| ev_Path := path; ev_PeerID := ""; ev_Hash := h; PreviousHash := prev;
                                ev_ChangeType := ChangeModified; Context_ := ctx |}
              | None => {| ev_Path := path; ev_PeerID := ""; ev_Hash := h; PreviousHash := zero_hash;
                           ev_ChangeType := ChangeCreated; Context_ := ctx |}
              end in
            match runCascade evt ctx st with
            | None => None
            | Some (st, ctx, cr) => let '(st, r) := emit st (with_context evt ctx) in Some (st, cr, r)
            end
        end
  end.

Definition removeInternal (st : NotifyingState) (path : string) (ctx : option MutationContext)
  : option (NotifyingState * option Hash * option CascadeResult) :=
  let '(l, removed) := Remove (ni_inner st) path in
  let st := with_ni_inner st l in
  match removed with
  | None => Some (st, None, None)
  | Some h =>
      let evt := {| ev_Path := path; ev_PeerID := ""; ev_Hash := zero_hash; PreviousHash := h;
                    ev_ChangeType := ChangeDeleted; Context_ := ctx |} in
      match runCascade evt ctx st with
      | None => None
      | Some (st, ctx, cr) => let '(st, _) := emit st (with_context evt ctx) in Some (st, Some h, cr)
      end
  end.

Definition after_cas (st : NotifyingState) (r : res IndexErr unit) (evt : TreeChangeEvent)
  : option (NotifyingState * res IndexErr unit) :=
  match r with
  | Err e => Some (st, Err e)
  | Ok _ =>
      match runCascade evt None st with
      | None => None
      | Some (st, ctx, _) => let '(st, _) := emit st (with_context evt ctx) in Some (st, Ok tt)
      end
  end.

Definition NotifyingCompareAndSwap (st : NotifyingState) (path : string) (expected new : Hash)
  : option (NotifyingState * res IndexErr unit) :=
  let '(l, r) := CompareAndSwap (ni_inner st) path expected new in
  after_cas (with_ni_inner st l) r
    {| ev_Path := path; ev_PeerID := ""; ev_Hash := new; PreviousHash := expected;
       ev_ChangeType := ChangeModified; Context_ := None |}.

Definition NotifyingCompareAndRemove (st : NotifyingState) (path : string) (expected : Hash)
  : option (NotifyingState * res IndexErr unit) :=
  let '(l, r) := CompareAndRemove (ni_inner st) path expected in
  after_cas (with_ni_inner st l) r
    {| ev_Path := path; ev_PeerID := ""; ev_Hash := zero_hash; PreviousHash := expected;
       ev_ChangeType := ChangeDeleted; Context_ := None |}.

Definition body_ops : Ops := {|
  op_Set := setInternal; op_Remove := removeInternal;
  op_CompareAndSwap := NotifyingCompareAndSwap; op_CompareAndRemove := NotifyingCompareAndRemove |}.
End body.

(** The index with at most [fuel] nested writes. *)
Fixpoint notifying (cfg : NotifyingConfig) (fuel : nat) : Ops :=
  match fuel with O => stuck | S fuel' => body_ops cfg (notifying cfg fuel') end.
End notifying.
Arguments HookProg : clear implicits.
Arguments NamedSyncHook : clear implicits.
Arguments NotifyingConfig : clear implicits.
Arguments NotifyingState : clear implicits.
Arguments Ops : clear implicits.

(** ** What a cascade reports *)

Section outcome.
Context {L W : Type} `{LocationIndex L}.
Implicit Types (cfg : NotifyingConfig W) (nested : Ops L W) (st : NotifyingState L W).

Definition matching (evt : TreeChangeEvent) (hooks : list (NamedSyncHook W)) : list (NamedSyncHook W) :=
  List.filter (fun h => pathMatchesPattern (Pattern h) (ev_Path evt)) hooks.

(** [cr] extends [base] by the outcome of [hooks]: all matching hooks completed,
    or one halted, the matching ones before it completed and all after it were
    skipped. *)
Definition outcome (evt : TreeChangeEvent) (hooks : list (NamedSyncHook W)) (base cr : CascadeResult) : Prop :=
  BindingCommitted cr = BindingCommitted base /\ cr_CascadeDepth cr = cr_CascadeDepth base
  /\ (Completed cr = Completed base ++ hook_names (matching evt hooks)
      /\ Halted cr = Halted base /\ Skipped cr = Skipped base
      \/ exists pre hook post r, hooks = pre ++ hook :: post
           /\ pathMatchesPattern (Pattern hook) (ev_Path evt) = true
           /\ Status r <> 0 /\ Status r <> 200
           /\ Completed cr = Completed base ++ hook_names (matching evt pre)
           /\ Halted cr = Halted base ++ [{| he_Name := Name hook; he_Error := r |}]
           /\ Skipped cr = Skipped base ++ hook_names post).

Lemma halts_Some r r' : halts r = Some r' -> Status r' <> 0 /\ Status r' <> 200.
Proof.
  unfold halts. destruct r as [r|]; [|done].
  destruct (Z.eqb_spec (Status r) 0), (Z.eqb_spec (Status r) 200); cbn; intros Hr; simplify_eq; done.
Qed.

Lemma cascade_outcome nested hooks evt base st ctx st' ctx' cr :
  cascade nested hooks evt base st ctx = Some (st', ctx', cr) -> outcome evt hooks base cr.
Proof.
  revert base st ctx. induction hooks as [|hook hooks IH]; intros base st ctx; cbn [cascade].
  { intros [= <- <- <-]. split_and!; [done..|]. left. unfold matching. cbn. by rewrite app_nil_r. }
  destruct (pathMatchesPattern (Pattern hook) (ev_Path evt)) eqn:Hm; cbn [negb].
  - destruct (run_hook _ _ _ _) as [[[st1 ctx1] result]|]; [|done].
    destruct (halts result) as [r|] eqn:Hh.
    + intros [= <- <- <-]. split_and!; [done..|]. right. exists [], hook, hooks, r.
      apply halts_Some in Hh as [? ?]. cbn. rewrite app_nil_r. done.
    + intros (Hb & Hd & Hc)%IH. cbn in *. split_and!; [done..|].
      destruct Hc as [(Hc & ? & ?)|(pre & hk & post & r & -> & ? & ? & ? & Hc & ? & ?)]; [left|right].
      * split_and!; try done. unfold matching. cbn. rewrite Hm. cbn. by rewrite Hc, <- app_assoc.
      * exists (hook :: pre), hk, post, r. unfold matching in *. cbn. rewrite Hm. cbn.
        rewrite Hc, <- app_assoc. done.
  - intros (Hb & Hd & Hc)%IH. split_and!; [done..|].
    destruct Hc as [(Hc & ? & ?)|(pre & hk & post & r & -> & ? & ? & ? & Hc & ? & ?)]; [left|right].
    + unfold matching. cbn. rewrite Hm. done.
    + exists (hook :: pre), hk, post, r. unfold matching in *. cbn. by rewrite Hm.
Qed.

(** What a write reports. A write whose context carries a depth at or above
    the threshold commits nothing, runs nothing and lists every hook as
    skipped; any other write that changes the binding commits it before any
    hook runs, and its report names, in registration order, the matching hooks
    that completed, the at most one hook that halted (with a status other than
    0 and 200), and every hook after it as skipped. *)
Theorem setInternal_outcome cfg nested st path h ctx st' cr r :
  setInternal cfg nested st path h ctx = Some (st', Some cr, r) ->
  match refused_depth cfg ctx with
  | Some d => st' = st /\ r = Ok tt /\ BindingCommitted cr = false /\ Completed cr = [] /\ Halted cr = []
              /\ Skipped cr = hook_names (namedHooks cfg) /\ cr_CascadeDepth cr = d
  | None =>
      Get (ni_inner st) path <> Some h
      /\ snd (Set_ (ni_inner st) path h) = Ok tt
      /\ exists evt, ev_Path evt = path /\ ev_Hash evt = h
           /\ (exists st1 ctx1, runCascade cfg nested evt ctx (with_ni_inner st (fst (Set_ (ni_inner st) path h)))
                                = Some (st1, ctx1, Some cr)
                                /\ (st', r) = emit st1 (with_context evt ctx1))
           /\ outcome evt (namedHooks cfg) {| BindingCommitted := true; Completed := []; Halted := [];
                Skipped := []; cr_CascadeDepth := context_depth ctx |} cr
  end.
Proof.
  unfold setInternal. destruct (refused_depth cfg ctx) as [d|]; [by intros [= <- <- <-]|].
  case_decide as Hp; [done|]. destruct (Set_ (ni_inner st) path h) as [l [[]|e]]; [|done].
  cbv zeta. set (evt := match Get (ni_inner st) path with Some _ => _ | None => _ end).
  destruct (runCascade _ _ _ _ _) as [[[st1 ctx1] cr1]|] eqn:Hrc; [|done].
  destruct (emit st1 (with_context evt ctx1)) as [st2 r2] eqn:He. intros [= <- -> <-].
  split_and!; [done..|]. exists evt.
  split; [subst evt; by destruct (Get _ _)|]. split; [subst evt; by destruct (Get _ _)|]. split.
  - exists st1, ctx1. cbn [fst]. by rewrite He.
  - unfold runCascade in Hrc. destruct (namedHooks cfg) as [|hk hks]; [done|].
    destruct (cascade _ _ _ _ _ _) as [[[st3 ctx3] cr3]|] eqn:Hc; [|done].
    injection Hrc as <- <- <-. by eapply cascade_outcome.
Qed.
End outcome.

(** ** Nesting is bounded *)

Section termination.
Context {L W : Type} `{LocationIndex L}.
Implicit Types (cfg : NotifyingConfig W) (nested : Ops L W) (st : NotifyingState L W).

(** The discipline of the hooks of the system (root tracker, auto-versioner,
    history recorder): a hook that writes does so with an explicit depth above
    that of its event, and leaves the depth of the event's context alone. *)
Fixpoint nests_above (d : Z) (p : HookProg W) : Prop :=
  match p with
  | HReturn _ => True
  | HWorld _ k => forall w, nests_above d (k w)
  | HContext f k => (forall c, CascadeDepth (f c) = CascadeDepth c) /\ nests_above d k
  | HGet _ k => forall o, nests_above d (k o)
  | HList _ k => forall o, nests_above d (k o)
  | HSet _ _ ctx k =>
      (exists c d', ctx = Some c /\ CascadeDepth c = Some d' /\ d < d') /\ forall cr r, nests_above d (k cr r)
  | HRemove _ _ _ | HCompareAndSwap _ _ _ _ | HCompareAndRemove _ _ _ => False
  end.

Definition disciplined cfg : Prop :=
  forall hook evt, hook ∈ namedHooks cfg -> nests_above (context_depth (Context_ evt)) (Fn hook evt).

Lemma run_hook_total nested d p st ctx :
  (forall st path h c d', CascadeDepth c = Some d' -> d < d' -> is_Some (op_Set nested st path h (Some c))) ->
  nests_above d p ->
  exists st' ctx' r, run_hook nested p st ctx = Some (st', ctx', r) /\ context_depth ctx' = context_depth ctx.
Proof.
  intros Hset. revert st ctx. induction p as [r|f k IH|f k IH|path k IH|prefix k IH|path h c k IH|path c k IH|path e n k IH|path e k IH];
    intros st ctx Hn; cbn [run_hook nests_above] in *; try done; eauto.
  - destruct Hn as [Hf Hn]. destruct (IH st (match ctx with Some c => Some (f c) | None => None end) Hn)
      as (st' & ctx' & r & Hr & Hd). exists st', ctx', r. split; [done|]. rewrite Hd.
    destruct ctx as [c|]; [|done]. cbn. by rewrite Hf.
  - destruct Hn as [(c' & d' & -> & Hd & Hlt) Hk].
    destruct (Hset st path h c' d' Hd Hlt) as [[[st1 cr] r] ->]. by apply IH.
Qed.

Lemma cascade_total nested d hooks evt cr st ctx :
  (forall st path h c d', CascadeDepth c = Some d' -> d < d' -> is_Some (op_Set nested st path h (Some c))) ->
  (forall hook evt, hook ∈ hooks -> nests_above (context_depth (Context_ evt)) (Fn hook evt)) ->
  context_depth ctx = d -> is_Some (cascade nested hooks evt cr st ctx).
Proof.
  intros Hset. revert cr st ctx. induction hooks as [|hook hooks IH]; intros cr st ctx Hh Hd; [done|].
  cbn [cascade]. destruct (negb _); [apply IH; [intros; apply Hh; by right|done]|].
  destruct (run_hook_total nested d (Fn hook (with_context evt ctx)) st ctx Hset) as (st' & ctx' & r & -> & Hd').
  { rewrite <- Hd. apply (Hh hook (with_context evt ctx)). left. }
  destruct (halts r); [done|]. apply IH; [intros; apply Hh; by right|congruence].
Qed.

Lemma runCascade_total cfg nested evt ctx st :
  (forall st path h c d', CascadeDepth c = Some d' -> context_depth ctx < d' ->
     is_Some (op_Set nested st path h (Some c))) ->
  disciplined cfg -> is_Some (runCascade cfg nested evt ctx st).
Proof.
  intros Hset Hdis. unfold runCascade. destruct (namedHooks cfg) as [|hk hks] eqn:E; [done|]. rewrite <- E.
  assert (Hc : forall cr, is_Some (cascade nested (namedHooks cfg) evt cr st ctx)).
  { intros cr. eapply cascade_total; [exact Hset|exact Hdis|done]. }
  destruct (Hc {| BindingCommitted := true; Completed := []; Halted := []; Skipped := [];
                  cr_CascadeDepth := context_depth ctx |}) as [[[st' ctx'] cr] ->]. done.
Qed.

Lemma setInternal_total cfg nested st path h ctx :
  (refused_depth cfg ctx = None -> forall evt st, is_Some (runCascade cfg nested evt ctx st)) ->
  is_Some (setInternal cfg nested st path h ctx).
Proof.
  intros Hrc. unfold setInternal. destruct (refused_depth cfg ctx) as [d|]; [done|].
  case_decide; [done|]. destruct (Set_ _ _ _) as [l [[]|e]]; [|done]. cbv zeta.
  match goal with |- is_Some (match runCascade _ _ ?evt _ ?st with _ => _ end) =>
    destruct (Hrc eq_refl evt st) as [[[st1 ctx1] cr] ->] end.
  by destruct (emit _ _).
Qed.

(** A write with an explicit depth [d] nests at most [threshold - d] deep. *)
Lemma notifying_Set_total cfg fuel st path h c d :
  disciplined cfg -> CascadeDepth c = Some d -> (0 < fuel)%nat -> maxCascadeDepth cfg - d < Z.of_nat fuel ->
  is_Some (op_Set (notifying cfg fuel) st path h (Some c)).
Proof.
  intros Hdis. revert st path h c d. induction fuel as [|fuel IH]; intros st path h c d Hd Hf Hm; [lia|].
  cbn [notifying body_ops op_Set]. apply setInternal_total. intros Hr evt st1.
  unfold refused_depth in Hr. rewrite Hd in Hr. destruct (Z.leb_spec (maxCascadeDepth cfg) d); [done|].
  apply runCascade_total; [|done]. intros st2 path2 h2 c2 d2 Hd2. cbn [context_depth]. rewrite Hd. intros Hlt.
  apply (IH _ _ _ _ d2); [done|lia|lia].
Qed.

End termination.

(** ** The event log *)

Section event_log.
Context {L W : Type} `{LocationIndexLaws L}.
Implicit Types (cfg : NotifyingConfig W) (nested : Ops L W) (st : NotifyingState L W).

(** Errors of the medium leave it unchanged: the inner index emits no events. *)
Context (inner_plain : forall (l : L) p h e, snd (Set_ l p h) = Err e -> delivery_error e = false).

(** A hook that does not write the index. *)
Fixpoint quiet (p : HookProg W) : Prop :=
  match p with
  | HReturn _ => True
  | HWorld _ k => forall w, quiet (k w)
  | HContext _ k => quiet k
  | HGet _ k => forall o, quiet (k o)
  | HList _ k => forall o, quiet (k o)
  | _ => False
  end.

Definition quiet_hooks cfg : Prop := forall hook evt, hook ∈ namedHooks cfg -> quiet (Fn hook evt).

(** The event fits the bindings [m]: its previous hash is the one bound. *)
Definition event_applies (m : gmap string Hash) (e : TreeChangeEvent) : Prop :=
  match ev_ChangeType e with
  | ChangeCreated => m !! ev_Path e = None
  | ChangeModified | ChangeDeleted => m !! ev_Path e = Some (PreviousHash e)
  end.

Definition apply_event (m : gmap string Hash) (e : TreeChangeEvent) : gmap string Hash :=
  match ev_ChangeType e with
  | ChangeDeleted => delete (ev_Path e) m
  | _ => <[ev_Path e := ev_Hash e]> m
  end.

(** Replaying the events [es] on [m], each fitting where it is applied, gives
    the bindings [m']. *)
Inductive replays : gmap string Hash -> list TreeChangeEvent -> gmap string Hash -> Prop :=
| replays_nil m : replays m [] m
| replays_cons m e es m' : event_applies m e -> replays (apply_event m e) es m' -> replays m (e :: es) m'.

(** A run of the index: calls of its methods, and the consumer receiving
    events.  [log] is what the consumer received; [lost] counts the events
    refused by a full queue. *)
Record run_state := { rs_st : NotifyingState L W; rs_log : list TreeChangeEvent; rs_lost : nat }.

Definition count_lost (s : run_state) st' : nat :=
  if decide (droppedEvents st' = droppedEvents (rs_st s)) then rs_lost s else S (rs_lost s).

Definition after (s : run_state) st' : run_state :=
  {| rs_st := st'; rs_log := rs_log s; rs_lost := count_lost s st' |}.

Inductive run_step cfg (fuel : nat) (s : run_state) : run_state -> Prop :=
| run_Set path h ctx st' cr r :
    op_Set (notifying cfg fuel) (rs_st s) path h ctx = Some (st', cr, r) -> run_step cfg fuel s (after s st')
| run_Remove path ctx st' h cr :
    op_Remove (notifying cfg fuel) (rs_st s) path ctx = Some (st', h, cr) -> run_step cfg fuel s (after s st')
| run_CompareAndSwap path e n st' r :
    op_CompareAndSwap (notifying cfg fuel) (rs_st s) path e n = Some (st', r) -> run_step cfg fuel s (after s st')
| run_CompareAndRemove path e st' r :
    op_CompareAndRemove (notifying cfg fuel) (rs_st s) path e = Some (st', r) -> run_step cfg fuel s (after s st')
| run_Receive e es :
    events (rs_st s) = e :: es ->
    run_step cfg fuel s {| rs_st := with_events (rs_st s) es; rs_log := rs_log s ++ [e]; rs_lost := rs_lost s |}.

(** What one call does to the index: nothing, or one change that is offered to
    the queue after the hooks ran on the changed index. *)
Definition op_effect st st' : Prop :=
  (exists l, st' = with_ni_inner st l /\ bindings l = bindings (ni_inner st))
  \/ exists l evt w, event_applies (bindings (ni_inner st)) evt
       /\ bindings l = apply_event (bindings (ni_inner st)) evt
       /\ st' = fst (emit (with_world (with_ni_inner st l) w) evt).

Lemma op_effect_none st : op_effect st st.
Proof. left. exists (ni_inner st). split; [by destruct st|done]. Qed.

Lemma quiet_run nested p st ctx st' ctx' r :
  quiet p -> run_hook nested p st ctx = Some (st', ctx', r) -> exists w, st' = with_world st w.
Proof.
  revert st ctx. induction p as [r0|f k IH|f k IH|path k IH|prefix k IH|pa ha ca k IH|pa ca k IH|pa ea na k IH|pa ea k IH];
    intros st ctx Hq; cbn [run_hook quiet] in *; try done.
  - intros [= <- _ _]. exists (world st). by destruct st.
  - intros Hr. apply IH in Hr as [w ->]; [|done]. by exists w.
  - by apply IH.
  - by apply IH.
  - by apply IH.
Qed.

Lemma quiet_cascade nested hooks evt cr st ctx st' ctx' cr' :
  (forall hook evt, hook ∈ hooks -> quiet (Fn hook evt)) ->
  cascade nested hooks evt cr st ctx = Some (st', ctx', cr') -> exists w, st' = with_world st w.
Proof.
  revert cr st ctx. induction hooks as [|hook hooks IH]; intros cr st ctx Hq; cbn [cascade].
  { intros [= <- _ _]. exists (world st). by destruct st. }
  destruct (negb _); [apply IH; intros; apply Hq; by right|].
  destruct (run_hook _ _ _ _) as [[[st1 ctx1] r]|] eqn:Hr; [|done].
  apply quiet_run in Hr as [w ->]; [|apply Hq; left].
  destruct (halts r).
  - intros [= <- _ _]. by exists w.
  - intros Hc. apply IH in Hc as [w' ->]; [by exists w'|]. intros; apply Hq; by right.
Qed.

Lemma quiet_runCascade cfg nested evt ctx st st' ctx' cr :
  quiet_hooks cfg -> runCascade cfg nested evt ctx st = Some (st', ctx', cr) -> exists w, st' = with_world st w.
Proof.
  intros Hq. unfold runCascade, quiet_hooks in *. destruct (namedHooks cfg) as [|hk hks].
  - intros [= <- _ _]. exists (world st). by destruct st.
  - destruct (cascade _ _ _ _ _ _) as [[[st1 ctx1] cr1]|] eqn:Hc; [|done].
    intros [= <- _ _]. by eapply quiet_cascade.
Qed.

Lemma publish_effect cfg nested st l evt ctx st1 ctx1 cr :
  quiet_hooks cfg -> runCascade cfg nested evt ctx (with_ni_inner st l) = Some (st1, ctx1, cr) ->
  event_applies (bindings (ni_inner st)) evt -> bindings l = apply_event (bindings (ni_inner st)) evt ->
  op_effect st (fst (emit st1 (with_context evt ctx1))).
Proof.
  intros Hq Hrc Ha Hb. apply quiet_runCascade in Hrc as [w ->]; [|done]. right.
  exists l, (with_context evt ctx1), w. done.
Qed.

Lemma setInternal_effect cfg nested st path h ctx st' cr r :
  quiet_hooks cfg -> setInternal cfg nested st path h ctx = Some (st', cr, r) -> op_effect st st'.
Proof.
  intros Hq. unfold setInternal. destruct (refused_depth cfg ctx); [intros [= <- _ _]; apply op_effect_none|].
  case_decide as Hp; [intros [= <- _ _]; apply op_effect_none|]. rewrite get_spec in *.
  pose proof (set_spec (ni_inner st) path h) as Hs. pose proof (inner_plain (ni_inner st) path h) as Hpl.
  destruct (Set_ (ni_inner st) path h) as [l [[]|e]]; cbn [fst snd committed] in *; cbv zeta.
  - match goal with |- match runCascade _ _ ?e _ _ with _ => _ end = _ -> _ => set (evt := e) end.
    destruct (runCascade _ _ _ _ _) as [[[st1 ctx1] cr1]|] eqn:Hrc; [|done].
    destruct (emit st1 (with_context evt ctx1)) as [st2 r2] eqn:He. intros [= <- _ _].
    replace st2 with (fst (emit st1 (with_context evt ctx1))) by (by rewrite He).
    eapply publish_effect; [done|exact Hrc| |]; subst evt; destruct (bindings (ni_inner st) !! path) eqn:Eb; try done;
      unfold event_applies, apply_event; cbn; done.
  - intros [= <- _ _]. left. exists l. by rewrite (Hpl e eq_refl) in Hs.
Qed.

Lemma removeInternal_effect cfg nested st path ctx st' h cr :
  quiet_hooks cfg -> removeInternal cfg nested st path ctx = Some (st', h, cr) -> op_effect st st'.
Proof.
  intros Hq. unfold removeInternal. destruct (remove_spec (ni_inner st) path) as [Hr Hb].
  destruct (Remove (ni_inner st) path) as [l [hr|]]; cbn [fst snd] in *; cbv zeta.
  - match goal with |- match runCascade _ _ ?e _ _ with _ => _ end = _ -> _ => set (evt := e) end.
    destruct (runCascade _ _ _ _ _) as [[[st1 ctx1] cr1]|] eqn:Hrc; [|done].
    destruct (emit st1 (with_context evt ctx1)) as [st2 r2] eqn:He. intros [= <- _ _].
    replace st2 with (fst (emit st1 (with_context evt ctx1))) by (by rewrite He).
    by eapply publish_effect.
  - intros [= <- _ _]. left. exists l. split; [done|]. by rewrite Hb, delete_id.
Qed.

Lemma after_cas_effect cfg nested st l r evt st' r' :
  quiet_hooks cfg -> after_cas cfg nested (with_ni_inner st l) r evt = Some (st', r') ->
  match r with
  | Ok _ => event_applies (bindings (ni_inner st)) evt /\ bindings l = apply_event (bindings (ni_inner st)) evt
  | Err _ => bindings l = bindings (ni_inner st)
  end -> op_effect st st'.
Proof.
  intros Hq. unfold after_cas. destruct r as [[]|e].
  - destruct (runCascade _ _ _ _ _) as [[[st1 ctx1] cr1]|] eqn:Hrc; [|done].
    destruct (emit st1 (with_context evt ctx1)) as [st2 r2] eqn:He. intros [= <- _] [Ha Hb].
    replace st2 with (fst (emit st1 (with_context evt ctx1))) by (by rewrite He).
    by eapply publish_effect.
  - intros [= <- _] Hb. left. by exists l.
Qed.

Lemma cas_ok (m : option Hash) e : cas_verdict m e = Ok tt <-> m = Some e.
Proof. unfold cas_verdict. destruct m as [c|]; [|done]. case_decide; split; congruence. Qed.

Lemma NotifyingCompareAndSwap_effect cfg nested st path e n st' r :
  quiet_hooks cfg -> NotifyingCompareAndSwap cfg nested st path e n = Some (st', r) -> op_effect st st'.
Proof.
  intros Hq. unfold NotifyingCompareAndSwap. destruct (cas_spec (ni_inner st) path e n) as [Hv Hb].
  destruct (CompareAndSwap (ni_inner st) path e n) as [l v]. cbn [fst snd] in *. intros Ha.
  eapply after_cas_effect; [done|exact Ha|]. destruct v as [[]|er].
  - symmetry in Hv. apply cas_ok in Hv. rewrite decide_True in Hb by done. done.
  - rewrite decide_False in Hb; [done|]. intros Hx%cas_ok. congruence.
Qed.

Lemma NotifyingCompareAndRemove_effect cfg nested st path e st' r :
  quiet_hooks cfg -> NotifyingCompareAndRemove cfg nested st path e = Some (st', r) -> op_effect st st'.
Proof.
  intros Hq. unfold NotifyingCompareAndRemove. destruct (car_spec (ni_inner st) path e) as [Hv Hb].
  destruct (CompareAndRemove (ni_inner st) path e) as [l v]. cbn [fst snd] in *. intros Ha.
  eapply after_cas_effect; [done|exact Ha|]. destruct v as [[]|er].
  - symmetry in Hv. apply cas_ok in Hv. rewrite decide_True in Hb by done. done.
  - rewrite decide_False in Hb; [done|]. intros Hx%cas_ok. congruence.
Qed.

Lemma replays_snoc m es m' e :
  replays m es m' -> event_applies m' e -> replays m (es ++ [e]) (apply_event m' e).
Proof.
  induction 1 as [m|m e' es m' Ha Hr IH]; intros He; cbn.
  - by repeat constructor.
  - constructor; [done|]. by apply IH.
Qed.

(** The queue accepts events and, unless one was lost, the log explains the
    bindings. *)
Definition log_ok (m0 : gmap string Hash) (s : run_state) : Prop :=
  suppressEmit (rs_st s) = false /\ done_ (rs_st s) = false
  /\ (rs_lost s = 0%nat -> replays m0 (rs_log s ++ events (rs_st s)) (bindings (ni_inner (rs_st s)))).

Lemma u64_succ_ne d : u64 (d + 1) <> d.
Proof.
  unfold u64, two64. intros Heq. pose proof (Z.mod_pos_bound (d + 1) (2 ^ 64)).
  destruct (decide (d + 1 = 2 ^ 64)) as [E|E]; [rewrite E, Z_mod_same_full in Heq; lia|].
  rewrite Z.mod_small in Heq; lia.
Qed.

Lemma effect_log_ok m0 s st' : op_effect (rs_st s) st' -> log_ok m0 s -> log_ok m0 (after s st').
Proof.
  intros Heff (Hsup & Hdone & Hlog). destruct Heff as [(l & -> & Hb)|(l & evt & w & Ha & Hb & ->)].
  - split_and!; [done..|]. cbn. unfold count_lost. cbn. rewrite decide_True by done. by rewrite Hb.
  - unfold emit. cbn [suppressEmit done_ with_world with_ni_inner events capacity]. rewrite Hsup, Hdone.
    destruct (_ <? _)%nat; cbn [fst]; (split_and!; [done..|]).
    + cbn. unfold count_lost. cbn. rewrite decide_True by done. intros Hl.
      rewrite Hb, app_assoc. apply replays_snoc; [by apply Hlog|done].
    + cbn. unfold count_lost. cbn. rewrite decide_False by apply u64_succ_ne. done.
Qed.

Lemma run_step_log_ok cfg fuel m0 s s' :
  quiet_hooks cfg -> run_step cfg fuel s s' -> log_ok m0 s -> log_ok m0 s'.
Proof.
  intros Hq Hs Hok. destruct Hs as [path h ctx st' cr r Ho|path ctx st' h cr Ho|path e n st' r Ho|path e st' r Ho|e es He].
  1-4: destruct fuel as [|fuel]; [done|]; apply effect_log_ok; [|done].
  - eapply setInternal_effect; [exact Hq|exact Ho].
  - eapply removeInternal_effect; [exact Hq|exact Ho].
  - eapply NotifyingCompareAndSwap_effect; [exact Hq|exact Ho].
  - eapply NotifyingCompareAndRemove_effect; [exact Hq|exact Ho].
  - destruct Hok as (? & ? & Hl). split_and!; [done..|]. cbn. rewrite He in Hl. by rewrite <- app_assoc.
Qed.

End event_log.

(** ** The cascade tracker *)

Module Tracker.
Record cascadeEntry := { MaxDepth : Z; LastSeen : Z }.
Record CascadeTracker := { entries : gmap string cascadeEntry; ttl : Z }.

Definition NewCascadeTracker (ttl : Z) : CascadeTracker := {| entries := ∅; ttl := ttl |}.

(** [now] is the reading of the clock. *)
Definition Update (now : Z) (ct : CascadeTracker) (chainID : string) (depth : Z) : CascadeTracker * Z :=
  let eff := match entries ct !! chainID with
             | Some entry => if depth <? MaxDepth entry then MaxDepth entry else depth
             | None => depth
             end in
  ({| entries := <[chainID := {| MaxDepth := eff; LastSeen := now |}]> (entries ct); ttl := ttl ct |}, eff).

Definition Depth (ct : CascadeTracker) (chainID : string) : Z :=
  match entries ct !! chainID with Some entry => MaxDepth entry | None => 0 end.

Definition Prune (now : Z) (ct : CascadeTracker) : CascadeTracker :=
  {| entries := filter (fun kv => ~ (LastSeen (snd kv) < now - ttl ct)) (entries ct); ttl := ttl ct |}.

(** The tracked depth of a chain never decreases while the chain is seen at
    least once per time to live. *)
Lemma Update_Depth now ct chain depth chain' :
  0 <= depth ->
  snd (Update now ct chain depth) = Z.max depth (Depth ct chain)
  /\ Depth (fst (Update now ct chain depth)) chain'
     = if decide (chain' = chain) then Z.max depth (Depth ct chain) else Depth ct chain'.
Proof.
  intros Hd. unfold Update, Depth. cbn [fst snd entries]. destruct (entries ct !! chain) as [en|] eqn:E.
  - assert (Hm : (if depth <? MaxDepth en then MaxDepth en else depth) = Z.max depth (MaxDepth en))
      by (destruct (Z.ltb_spec depth (MaxDepth en)); lia).
    split; [done|]. case_decide as Hc; [subst; by rewrite lookup_insert_eq|by rewrite lookup_insert_ne].
  - split; [lia|]. case_decide as Hc; [subst; rewrite lookup_insert_eq; cbn; lia|by rewrite lookup_insert_ne].
Qed.

Lemma Prune_keeps_recent now ct chain :
  (forall en, entries ct !! chain = Some en -> now - ttl ct <= LastSeen en) ->
  Depth (Prune now ct) chain = Depth ct chain.
Proof.
  intros Hr. unfold Depth, Prune. cbn [entries]. destruct (entries ct !! chain) as [en|] eqn:E.
  - rewrite (proj2 (map_lookup_filter_Some _ _ _ en)); [done|]. split; [done|]. cbn. specialize (Hr en eq_refl). lia.
  - by rewrite (proj2 (map_lookup_filter_None _ _ _)) by (by left).
Qed.
End Tracker.

(** ** Samples and limits *)

Module Samples.
Definition h1 : Hash := NewSHA256 [Byte.x01].
Definition h2 : Hash := NewSHA256 [Byte.x02].
Definition at_depth (d : Z) : MutationContext := {|
  AuthorHash := zero_hash; CapabilityHash := zero_hash; CallerCapabilityHash := zero_hash; HandlerPattern := "";
  mc_Operation := ""; ChainID := ""; ParentChainID := ""; CascadeDepth := Some d; Clock := []; ClockType := "" |}.

Abbreviation state := (NotifyingState MemoryLocationIndex unit).
Definition start (cap : nat) : state := {|
  ni_inner := ∅; events := []; capacity := cap; done_ := false; suppressEmit := false; droppedEvents := 0;
  world := tt |}.

(** A hook that answers every write by a write of the other hash at the same
    path, one level deeper: only the depth check stops it. *)
Definition flip : NamedSyncHook unit := {|
  Name := "flip"; Pattern := "";
  Fn evt := HSet (ev_Path evt) (if decide (ev_Hash evt = h1) then h2 else h1)
              (Some (at_depth (context_depth (Context_ evt) + 1))) (fun _ _ => HReturn None) |}.
Definition flip_config (max : Z) : NotifyingConfig unit := {| namedHooks := [flip]; maxCascadeDepth := max |}.

(** A hook that replaces [h1] by [h2] and one that refuses. *)
Definition replace_hook : NamedSyncHook unit := {|
  Name := "replace"; Pattern := "";
  Fn evt := if decide (ev_Hash evt = h1)
            then HSet (ev_Path evt) h2 (Some (at_depth (context_depth (Context_ evt) + 1))) (fun _ _ => HReturn None)
            else HReturn None |}.
Definition refuse_hook : NamedSyncHook unit := {|
  Name := "refuse"; Pattern := "a/*";
  Fn _ := HReturn (Some {| Status := 409; Code := "conflict"; Message := "" |}) |}.
Definition other_hook : NamedSyncHook unit := {| Name := "other"; Pattern := "b/*"; Fn _ := HReturn None |}.

Definition path : string := "/P/a/x".
Definition quiet_config : NotifyingConfig unit := {|
  namedHooks := [refuse_hook; other_hook]; maxCascadeDepth := DefaultMaxCascadeDepth |}.

Lemma quiet_config_quiet : quiet_hooks quiet_config.
Proof.
  intros hook evt Hin. apply elem_of_cons in Hin as [->|Hin]; [done|].
  apply list_elem_of_singleton in Hin as ->. done.
Qed.

Lemma flip_disciplined max : disciplined (flip_config max).
Proof.
  intros hook evt Hin. apply list_elem_of_singleton in Hin as ->. cbn. split; [|done].
  eexists _, _. split; [done|]. split; [done|]. lia.
Qed.
End Samples.

Lemma setInternal_outcome_witness :
  exists evt, ev_Path evt = Samples.path
    /\ outcome evt (namedHooks Samples.quiet_config)
         {| BindingCommitted := true; Completed := []; Halted := []; Skipped := []; cr_CascadeDepth := 0 |}
         {| BindingCommitted := true; Completed := [];
            Halted := [{| he_Name := "refuse"; he_Error := {| Status := 409; Code := "conflict"; Message := "" |} |}];
            Skipped := ["other"]; cr_CascadeDepth := 0 |}.
Proof.
  destruct (setInternal Samples.quiet_config stuck (Samples.start 4) Samples.path Samples.h1 None)
    as [[[st' cr] r]|] eqn:E; [|discriminate E].
  destruct cr as [cr|]; [|discriminate E].
  pose proof (setInternal_outcome _ _ _ _ _ _ _ _ _ E) as Ho. cbn in Ho.
  destruct Ho as (_ & _ & evt & Hp & _ & _ & Ho). exists evt. split; [exact Hp|].
  injection E as _ <- _. exact Ho.
Defined.


Lemma memory_plain (l : MemoryLocationIndex) p h e : snd (Set_ l p h) = Err e -> delivery_error e = false.
Proof. done. Qed.


(** A hook that rewrites the path of its event makes the queue disagree with the
    index: the nested write is queued before the write that caused it, so a
    consumer that applies the events in order ends with the older hash. *)
Theorem nested_write_events_reordered :
  let cfg := {| namedHooks := [Samples.replace_hook]; maxCascadeDepth := DefaultMaxCascadeDepth |} in
  match op_Set (notifying cfg 3) (Samples.start 4) Samples.path Samples.h1 None with
  | Some (st, _, _) =>
      Get (ni_inner st) Samples.path = Some Samples.h2
      /\ map ev_Hash (events st) = [Samples.h2; Samples.h1]
      /\ foldl apply_event ∅ (events st) !! Samples.path = Some Samples.h1
  | None => False
  end.
Proof. vm_compute. split_and!; reflexivity. Qed.

(** A write refused for its depth on an index without hooks reports success: no
    error, a complete cascade, no refusal, and no binding. *)
Theorem depth_refusal_unreported_without_hooks :
  let cfg := {| namedHooks := ([] : list (NamedSyncHook unit)); maxCascadeDepth := DefaultMaxCascadeDepth |} in
  match op_Set (notifying cfg 1) (Samples.start 4) Samples.path Samples.h1 (Some (Samples.at_depth 32)) with
  | Some (st, cr, r) =>
      r = Ok tt /\ IsComplete cr = true /\ IsDepthRefused cr = false /\ Get (ni_inner st) Samples.path = None
  | None => False
  end.
Proof. vm_compute. split_and!; reflexivity. Qed.

(** After a halt, hooks whose pattern does not match the event are listed as
    skipped. *)
Theorem halted_cascade_lists_unmatched_hooks :
  match op_Set (notifying Samples.quiet_config 1) (Samples.start 4) Samples.path Samples.h1 None with
  | Some (_, Some cr, _) => Skipped cr = ["other"] /\ pathMatchesPattern (Pattern Samples.other_hook) Samples.path = false
  | _ => False
  end.
Proof. vm_compute. split_and!; reflexivity. Qed.

(** A removal whose event does not fit the queue reports nothing: the event is
    lost without an error. *)
Theorem removal_loses_event_silently :
  let cfg := {| namedHooks := ([] : list (NamedSyncHook unit)); maxCascadeDepth := DefaultMaxCascadeDepth |} in
  match op_Set (notifying cfg 1) (Samples.start 1) Samples.path Samples.h1 None with
  | Some (st, _, _) =>
      match op_Remove (notifying cfg 1) st Samples.path None with
      | Some (st', removed, cr) =>
          removed = Some Samples.h1 /\ cr = None /\ length (events st') = 1%nat /\ droppedEvents st' = 1
      | None => False
      end
  | None => False
  end.
Proof. vm_compute. split_and!; reflexivity. Qed.
