(* ===== verification/Dispatch.v ===== *)
(** * Request dispatch ([core/protocol]: [execute.go], [envelope_ingest.go], [auth.go],
      [dispatch.go], [connect.go])

    From an envelope on the wire to the handler that runs it: the checks of
    [DispatchEnvelope] and [handleExecute] in their order, the ingestion of the
    envelope's signatures into the stores, the resolution of the handler, and
    the context the handler receives.  What follows in [handleExecute] (the
    durability contract, asynchronous delivery, the call of the handler) is not
    modelled: a request that passes ends in [ToHandler].

    The wall clock is read by the chain verification ([clock i] at link [i]), by
    the grant check ([now]) and by the handler grant check ([gnow]). *)

From Stdlib Require Import Ascii.
From S2P Require Import Prelude GoStrings Errors Hash Entity PeerID Paths CapTypes Patterns Check Delegation Chain Requests Revoked Store.

Open Scope Z_scope.

(** ** Data *)

Definition TypeExecute : string := "system/protocol/execute".
Definition TypeExecuteResponse : string := "system/protocol/execute/response".
Definition TypeHandler : string := "system/handler".
Definition TypeHandlerInterface : string := "system/handler/interface".
Definition connectPath : string := "system/protocol/connect".

(** The fields of the connection state that dispatch reads. *)
Record ConnectionState := { conn_Completed : bool; conn_Phase : string; conn_RemotePeerID : PeerID }.

Record HandlerData := {
  Interface : string; MaxScope : list GrantEntry; InternalScope : list GrantEntry; ExpressionPath : string
}.

Class HandlerCodec := {
  DecodeHandler : list byte -> option HandlerData;
  (** The names of the declared operations; [Some None] is an absent map. *)
  DecodeInterfaceOps : list byte -> option (option (list string));
  (** [ecf.Decode] into an entity. *)
  DecodeRawEntity : list byte -> option Entity
}.

(** A registered implementation: the operations of its manifest, when it
    provides one with operations. *)
Record Compiled := { manifest_Operations : option (list string) }.

Record resolution := { res_pattern : string; res_handlerData : HandlerData; res_compiled : option Compiled }.

Definition ValidateConnectionSequence (state : ConnectionState) (operation : string) : result unit :=
  if String.eqb operation "hello" then
    if conn_Completed state then Err [ErrConnectionEstablished]
    else if String.eqb (conn_Phase state) "awaiting_authenticate" then Err [ErrConnectionSequence]
    else Ok tt
  else if String.eqb operation "authenticate" then
    if conn_Completed state then Err [ErrConnectionEstablished]
    else if negb (String.eqb (conn_Phase state) "awaiting_authenticate") then Err [ErrConnectionRequired]
    else Ok tt
  else if String.eqb operation "ping" then
    if negb (conn_Completed state) then Err [ErrConnectionRequired] else Ok tt
  else Err [].

(** What the handler receives. *)
Record HandlerRequest := {
  hr_Path : string;
  hr_Operation : string;
  hr_Params : option Entity;
  hr_Author : PeerID;
  hr_AuthorHash : Hash;
  hr_SessionPeerID : PeerID;
  hr_CallerCapability : Entity;
  hr_HandlerGrant : option Entity;
  hr_MatchingGrant : GrantEntry;
  hr_Resource : option ResourceTarget;
  hr_HandlerPattern : string;
  hr_Included : gmap Hash Entity
}.

(** [Refuse] is an error response; [RefuseMarked] one for which the chain-error
    marker is bound first; [ToConnect] hands a connect operation to the connect
    handler without authorization; [Fail] is an error of the dispatcher. *)
Inductive Verdict :=
| Refuse (status : Z) (code : string)
| RefuseMarked (status : Z) (code : string)
| ToConnect (handlerPath operation : string)
| ToHandler (req : HandlerRequest)
| Fail (e : GoErr).

(** ** Resource targets *)

Definition normalizeOne (localPeerID : PeerID) (target : string) : string :=
  match URI.ParseURI target with
  | Ok parsed =>
      if String.eqb (URI.PeerID_ parsed) localPeerID && negb (String.eqb (URI.Path parsed) "")
      then URI.Path parsed else target
  | Err _ => target
  end.

Definition normalizeResourceTargets (resource : option ResourceTarget) (localPeerID : PeerID)
  : option ResourceTarget :=
  match resource with
  | None => None
  | Some r =>
      if (length (Targets r) =? 0)%nat && (length (rt_Exclude r) =? 0)%nat then Some r
      else Some {| Targets := map (normalizeOne localPeerID) (Targets r);
                   rt_Exclude := map (normalizeOne localPeerID) (rt_Exclude r) |}
  end.

Definition valid_target (localPeerID : PeerID) (target : string) : bool :=
  if HasPrefix target "./" || HasPrefix target "../" then false
  else if Contains target "//" then false
  else is_ok (ValidateAbsolutePath (Canonicalize target localPeerID)).

Definition qualifyIfRelative (localPeerID path : string) : string :=
  if HasPrefix path "/" then path else QualifyPath localPeerID path.

(** ** Ingestion of signatures *)

Section ingest.
Context {CS L : Type} `{ContentStore CS} `{LocationIndex L} `{Base58, DataCodec, MapOrder}.

Definition site_ingest_peers : nat := 7.
Definition site_ingest_signatures : nat := 8.

Fixpoint ingest_peers (es : list (Hash * Entity)) (cs : CS) : CS * result unit :=
  match es with
  | [] => (cs, Ok tt)
  | (_, ent) :: rest =>
      if negb (String.eqb (Type_ ent) TypePeer) then ingest_peers rest cs
      else if cs_Has cs (ContentHash ent) then ingest_peers rest cs
      else match cs_Put cs ent with
           | (cs', Err e) => (cs', Err e)
           | (cs', Ok _) => ingest_peers rest cs'
           end
  end.

(** The path a signature is bound at; [None] is a signature that is skipped. *)
Definition signature_slot (cs : CS) (ent : Entity) : option string :=
  if negb (String.eqb (Type_ ent) TypeSignature) then None
  else match SignatureDataFromEntity ent with
  | Err _ => None
  | Ok sigData =>
      if IsZero (Signer sigData) || IsZero (Target sigData) then None
      else match cs_Get cs (Signer sigData) with
      | None => None
      | Some signerEnt =>
          if negb (String.eqb (Type_ signerEnt) TypePeer) then None
          else match PeerDataFromEntity signerEnt with
          | Err _ => None
          | Ok idData =>
              match PeerData_KeyTypeByte idData with
              | None => None
              | Some ktByte =>
                  match PeerIDFromPublicKey (PublicKey idData) ktByte with
                  | Err _ => None
                  | Ok signerPID => Some (InvariantSignaturePath signerPID (Target sigData))
                  end
              end
          end
      end
  end.

Fixpoint ingest_signatures (es : list (Hash * Entity)) (cs : CS) (li : L) : CS * L * result unit :=
  match es with
  | [] => (cs, li, Ok tt)
  | (_, ent) :: rest =>
      match signature_slot cs ent with
      | None => ingest_signatures rest cs li
      | Some path =>
          match Get li path with
          | Some existing =>
              if decide (existing <> ContentHash ent) then (cs, li, Err [])
              else ingest_signatures rest cs li
          | None =>
              let '(cs, r) := if cs_Has cs (ContentHash ent) then (cs, Ok (ContentHash ent)) else cs_Put cs ent in
              match r with
              | Err e => (cs, li, Err e)
              | Ok _ =>
                  let '(li, r) := Set_ li path (ContentHash ent) in
                  match r with
                  | Err _ => (cs, li, Err [])
                  | Ok _ => ingest_signatures rest cs li
                  end
              end
          end
      end
  end.

Definition IngestEnvelopeSignatures (cs : CS) (li : L) (included : gmap Hash Entity) : CS * L * result unit :=
  if (size included =? 0)%nat then (cs, li, Ok tt)
  else
    let '(cs, r) := ingest_peers (map_range site_ingest_peers [] included) cs in
    match r with
    | Err e => (cs, li, Err e)
    | Ok _ => ingest_signatures (map_range site_ingest_signatures [] included) cs li
    end.
End ingest.

(** ** The dispatcher *)

Section dispatch.
Context {CS L IX : Type} `{ContentStoreLaws CS} `{LocationIndex L} `{CapabilityIndex IX}.
Context `{Base58, Signing, DataCodec, MapOrder, HandlerCodec}.

Record Dispatcher := {
  LocalPeerID : PeerID;
  LocalIdentityHash : Hash;
  d_Store : CS;
  d_LocationIndex : L;
  d_CapabilityIndex : option IX;
  Registry : string -> option Compiled;
  (** Is the expression evaluator wired? *)
  EvaluateExpression : bool;
  IdentityBindingChecker : option (Hash -> Envelope -> result unit);
  (** The entities supporting a grant this peer authored; [None] is not authored. *)
  AuthoredGrantSupplier : option (Hash -> option (gmap Hash Entity))
}.

Definition with_stores (d : Dispatcher) (cs : CS) (li : L) : Dispatcher := {|
  LocalPeerID := LocalPeerID d; LocalIdentityHash := LocalIdentityHash d; d_Store := cs; d_LocationIndex := li;
  d_CapabilityIndex := d_CapabilityIndex d; Registry := Registry d; EvaluateExpression := EvaluateExpression d;
  IdentityBindingChecker := IdentityBindingChecker d; AuthoredGrantSupplier := AuthoredGrantSupplier d |}.

(** Entities sent by the counterpart win: the union is left biased. *)
Definition resolveAuthoredGrant (d : Dispatcher) (env : Envelope) (execData : ExecuteData) : Envelope :=
  match AuthoredGrantSupplier d with
  | None => env
  | Some supply =>
      if IsZero (Capability execData) then env
      else match supply (Capability execData) with
      | None => env
      | Some supporting => mkEnvelope (Root env) (Included env ∪ supporting)
      end
  end.

Definition handler_at (d : Dispatcher) (path : string) : option Entity :=
  match Get (d_LocationIndex d) path with
  | None => None
  | Some h =>
      match cs_Get (d_Store d) h with
      | None => None
      | Some ent => if String.eqb (Type_ ent) TypeHandler then Some ent else None
      end
  end.

(** The walk towards the root; [None] is out of fuel. *)
Fixpoint tree_walk (fuel : nat) (d : Dispatcher) (path : string) : option (option (string * Entity)) :=
  match fuel with
  | O => None
  | S fuel' =>
      match handler_at d path with
      | Some ent => Some (Some (path, ent))
      | None =>
          match LastIndexByte path "/" with
          | None | Some O => Some None
          | Some idx => tree_walk fuel' d (str_take idx path)
          end
      end
  end.

(** Each round shortens the path: see [tree_walk_spec]. *)
Definition treeWalkHandler (d : Dispatcher) (qualifiedPath : string) : option (string * Entity) :=
  match tree_walk (slen qualifiedPath + 1) d qualifiedPath with Some r => r | None => None end.

Definition resolveHandler (d : Dispatcher) (handlerPath : string) : res string resolution :=
  match treeWalkHandler d (QualifyPath (LocalPeerID d) handlerPath) with
  | None => Err "not_found"
  | Some (patternFull, handlerEnt) =>
      match DecodeHandler (Data handlerEnt) with
      | None => Err "decode_failed"
      | Some hd =>
          let pattern := TrimPrefix patternFull ("/" +:+ LocalPeerID d +:+ "/") in
          if String.eqb (ExpressionPath hd) "" then
            match Registry d pattern with
            | None => Err "no_impl"
            | Some impl => Ok {| res_pattern := pattern; res_handlerData := hd; res_compiled := Some impl |}
            end
          else Ok {| res_pattern := pattern; res_handlerData := hd; res_compiled := None |}
      end
  end.

Definition op_listed (operation : string) (ops : list string) : bool := bool_decide (operation ∈ ops).

(** [true] is the 501 answer. *)
Definition checkOpInManifest (d : Dispatcher) (operation : string) (res : resolution) : bool :=
  if String.eqb operation "" then false
  else match res_compiled res with
  | Some {| manifest_Operations := Some ops |} => negb (op_listed operation ops)
  | _ =>
      if String.eqb (Interface (res_handlerData res)) "" then false
      else match Get (d_LocationIndex d) (QualifyPath (LocalPeerID d) (Interface (res_handlerData res))) with
      | None => false
      | Some h =>
          match cs_Get (d_Store d) h with
          | None => false
          | Some ent =>
              if negb (String.eqb (Type_ ent) TypeHandlerInterface) then false
              else match DecodeInterfaceOps (Data ent) with
              | Some (Some ops) => negb (op_listed operation ops)
              | _ => false
              end
          end
      end
  end.

(** The validated handler grant, or the code and status of the failure. *)
Definition loadValidatedGrant (gnow : Z) (d : Dispatcher) (pattern : string) : res (string * Z) Entity :=
  match Get (d_LocationIndex d) ("system/capability/grants/" +:+ pattern) with
  | None => Err ("missing", 403)
  | Some grantHash =>
      match cs_Get (d_Store d) grantHash with
      | None => Err ("missing_entity", 500)
      | Some grantEnt =>
          if IsZero (LocalIdentityHash d) then Ok grantEnt
          else match VerifyHandlerGrant gnow grantEnt (LocalSignaturePath (ContentHash grantEnt))
                       (LocalIdentityHash d) (entities (d_Store d)) (Get (d_LocationIndex d)) with
          | Err _ => Err ("permission_denied", 403)
          | Ok _ => Ok grantEnt
          end
      end
  end.

(** A missing grant is tolerated for compiled handlers. *)
Definition grant_refusal (entityNative : bool) (grant : res (string * Z) Entity) : option (Z * string) :=
  match grant with
  | Err (code, status) => if String.eqb code "missing" && negb entityNative then None else Some (status, code)
  | Ok _ => None
  end.

Definition decode_params (execData : ExecuteData) : result (option Entity) :=
  match Params execData with
  | [] => Ok None
  | raw =>
      match DecodeRawEntity raw with
      | None => Err []
      | Some e => if String.eqb (Type_ e) "" then Err [] else Ok (Some e)
      end
  end.

Definition author_peer (env : Envelope) (execData : ExecuteData) : PeerID :=
  if IsZero (Author execData) then ""
  else match Env.FindIncluded env (Author execData) with
  | None => ""
  | Some authorEntity =>
      match PeerDataFromEntity authorEntity with
      | Err _ => ""
      | Ok idData =>
          match PeerData_KeyTypeByte idData with
          | None => ""
          | Some ktByte => match PeerIDFromPublicKey (PublicKey idData) ktByte with Ok pid => pid | Err _ => "" end
          end
      end
  end.

(** The refusal of a request that does not verify, by the sentinel of its error. *)
Definition auth_refusal (e : GoErr) : Verdict :=
  if errors_Is e ErrChainTooDeep then Refuse 400 "chain_depth_exceeded"
  else if errors_Is e ErrUnresolvableGrantee then Refuse 401 "unresolvable_grantee"
  else if errors_Is e ErrCapabilityRevoked then Refuse 403 "capability_revoked"
  else if errors_Is e ErrCapabilityDenied then Refuse 403 "capability_denied"
  else if errors_Is e ErrAuthenticationFailed then Refuse 401 "authentication_failed"
  else Refuse 403 "authentication_failed".

(** The connect branch. *)
Definition connect_gate (execData : ExecuteData) (handlerPath : string) (connState : option ConnectionState)
  : Verdict :=
  let op := Operation execData in
  if negb (String.eqb op "hello" || String.eqb op "authenticate" || String.eqb op "ping")
  then Refuse 400 "invalid_request"
  else if String.eqb op "ping" then
    match connState with
    | Some st =>
        if is_ok (ValidateConnectionSequence st op) then ToConnect handlerPath op
        else Refuse 409 "connection_sequence_error"
    | None => ToConnect handlerPath op
    end
  else match connState with
  | None => ToConnect handlerPath op
  | Some st =>
      if conn_Completed st then
        if String.eqb op "authenticate" then Refuse 401 "invalid_nonce"
        else Refuse 409 "connection_already_established"
      else if is_ok (ValidateConnectionSequence st op) then ToConnect handlerPath op
      else if String.eqb op "authenticate" then Refuse 401 "invalid_nonce"
      else Refuse 409 "connection_sequence_error"
  end.

(** From the resolution of the handler to its context. *)
Definition authorize (now gnow : Z) (d : Dispatcher) (env : Envelope) (execData : ExecuteData)
    (handlerPath : string) (connState : option ConnectionState) : Verdict :=
  match resolveHandler d handlerPath with
  | Err code =>
      if String.eqb code "no_impl" then Refuse 404 "not_found"
      else if String.eqb code "decode_failed" then Refuse 500 "internal_error"
      else Refuse 404 "handler_not_found"
  | Ok res =>
      let entityNative := negb (String.eqb (ExpressionPath (res_handlerData res)) "") in
      if entityNative && negb (EvaluateExpression d) then Refuse 501 "unsupported_operation"
      else match Env.FindIncluded env (Capability execData) with
      | None => Refuse 403 "capability_not_found"
      | Some capEntity =>
      match CapabilityTokenDataFromEntity capEntity with
      | Err _ => Refuse 403 "invalid_capability"
      | Ok capData =>
      match ResolveGranterPeerID (Granter_ capData) (entities (d_Store d)) (LocalPeerID d) with
      | Err _ => RefuseMarked 403 "capability_denied"
      | Ok granterPeerID =>
      match FindMatchingGrant now execData capData (res_pattern res) (LocalPeerID d) granterPeerID with
      | None => RefuseMarked 403 "capability_denied"
      | Some matchingGrant =>
      if checkOpInManifest d (Operation execData) res then Refuse 501 "unsupported_operation"
      else match decode_params execData with
      | Err _ => Refuse 400 "invalid_params"
      | Ok params =>
      let grant := loadValidatedGrant gnow d (res_pattern res) in
      match grant_refusal entityNative grant with
      | Some (status, code) => Refuse status code
      | None =>
      let normalizedResource := normalizeResourceTargets (Resource execData) (LocalPeerID d) in
      if negb (all (valid_target (LocalPeerID d))
                 (match normalizedResource with None => [] | Some r => Targets r end))
      then Refuse 400 "invalid_path"
      else ToHandler {|
        hr_Path := handlerPath; hr_Operation := Operation execData; hr_Params := params;
        hr_Author := author_peer env execData; hr_AuthorHash := Author execData;
        hr_SessionPeerID := match connState with Some st => conn_RemotePeerID st | None => "" end;
        hr_CallerCapability := capEntity;
        hr_HandlerGrant := match grant with Ok g => Some g | Err _ => None end;
        hr_MatchingGrant := matchingGrant; hr_Resource := normalizedResource;
        hr_HandlerPattern := res_pattern res; hr_Included := Included env |}
      end end end end end end
  end.

Definition revocation_context (d : Dispatcher) (env : Envelope) : RevocationContext (IX := IX) := {|
  rc_ContentStore := Some (entities (d_Store d)); rc_LocationIndex := Some (Get (d_LocationIndex d));
  rc_Included := Included env; rc_CapabilityIndex := d_CapabilityIndex d |}.

Definition is_connect_path (handlerPath : string) : bool :=
  String.eqb handlerPath connectPath || HasPrefix handlerPath (connectPath +:+ "/").

Definition handleExecute (clock : nat -> Z) (now gnow : Z) (d : Dispatcher) (env : Envelope)
    (connState : option ConnectionState) : Dispatcher * Verdict :=
  match ExecuteDataFromEntity (Root env) with
  | Err e => (d, Fail e)
  | Ok execData =>
      if negb (String.eqb (extractPeer (URI_ execData) (LocalPeerID d)) (LocalPeerID d))
      then (d, Refuse 400 "invalid_request")
      else
        let handlerPath := URI.ExtractHandlerPath (URI_ execData) in
        if is_connect_path handlerPath then (d, connect_gate execData handlerPath connState)
        else if match connState with Some st => negb (conn_Completed st) | None => false end
        then (d, Refuse 401 "authentication_failed")
        else
          let env := resolveAuthoredGrant d env execData in
          match VerifyRequestWithBinding clock env (LocalPeerID d) (LocalIdentityHash d) (IdentityBindingChecker d) with
          | Err e => (d, auth_refusal e)
          | Ok _ =>
              if match Env.FindIncluded env (Capability execData) with
                 | Some capEntity => IsRevoked capEntity (revocation_context d env)
                 | None => false
                 end
              then (d, Refuse 403 "capability_revoked")
              else
                let '(cs, li, r) := IngestEnvelopeSignatures (d_Store d) (d_LocationIndex d) (Included env) in
                let d := with_stores d cs li in
                match r with
                | Err _ => (d, Refuse 400 "signature_path_conflict")
                | Ok _ => (d, authorize now gnow d env execData handlerPath connState)
                end
          end
  end.

Definition DispatchEnvelope (clock : nat -> Z) (now gnow : Z) (d : Dispatcher) (env : Envelope)
    (connState : option ConnectionState) : Dispatcher * Verdict :=
  match Env.ValidateAll env with
  | Err e => (d, Fail e)
  | Ok _ =>
      if String.eqb (Type_ (Root env)) TypeExecute then handleExecute clock now gnow d env connState
      else (d, Fail [])
  end.
End dispatch.
Arguments Dispatcher : clear implicits.

(** ** Resolution finds the longest bound prefix *)

(** [p] is [q] or an ancestor of [q]. *)
Definition seg_prefix (p q : string) : Prop := p = q \/ exists rest, q = p +:+ "/" +:+ rest.

Lemma LastIndexByte_spec s c :
  match LastIndexByte s c with
  | Some i => exists t u, s = t +:+ String c u /\ slen t = i /\ str_take i s = t /\ IndexByte u c = None
  | None => IndexByte s c = None
  end.
Proof.
  induction s as [|a s IH]; [done|]. cbn [LastIndexByte IndexByte].
  destruct (LastIndexByte s c) as [i|].
  - destruct IH as (t & u & -> & Hl & Ht & Hu). exists (String a t), u. cbn [slen str_take]. rewrite append_cons.
    split_and!; [done|by rewrite Hl|by rewrite Ht|done].
  - destruct (Ascii.eqb_spec a c) as [->|]; [|by rewrite IH].
    exists "", s. rewrite append_nil. done.
Qed.

(** Proper ancestors of a path are the ancestors of what precedes its last slash. *)
Lemma seg_prefix_cut p t u :
  IndexByte u "/" = None -> seg_prefix p (t +:+ String "/" u) -> p = t +:+ String "/" u \/ seg_prefix p t.
Proof.
  intros Hu [->|[rest Hr]]; [by left|right].
  change ("/" +:+ rest) with (String "/" rest) in Hr.
  destruct (append_eq_append _ _ _ _ Hr) as [(w & -> & Hw)|(w & -> & Hw)].
  - destruct w as [|a w]; [left; by rewrite append_nil_r|]. rewrite append_cons in Hw.
    injection Hw as <- ->. apply IndexByte_append_None in Hu as [_ Hu]. done.
  - destruct w as [|a w]; [left; by rewrite append_nil_r|]. rewrite append_cons in Hw.
    injection Hw as <- ->. by right; exists w.
Qed.

Section resolution_spec.
Context {CS L IX : Type} `{ContentStoreLaws CS} `{LocationIndex L}.
Implicit Types d : Dispatcher CS L IX.

Definition walk_result d (path : string) (r : option (string * Entity)) : Prop :=
  match r with
  | Some (p, ent) =>
      seg_prefix p path /\ handler_at d p = Some ent
      /\ forall p', seg_prefix p' path -> (slen p < slen p')%nat -> handler_at d p' = None
  | None => forall p', p' <> "" -> seg_prefix p' path -> handler_at d p' = None
  end.

Lemma tree_walk_spec fuel d path :
  (slen path < fuel)%nat -> exists r, tree_walk fuel d path = Some r /\ walk_result d path r.
Proof.
  revert path. induction fuel as [|fuel IH]; intros path Hf; [lia|]. cbn [tree_walk].
  destruct (handler_at d path) as [ent|] eqn:Hh.
  { eexists. split; [done|]. split_and!; [by left|done|]. intros p' [->|[rest ->]] Hl; [lia|].
    rewrite slen_append in Hl. lia. }
  pose proof (LastIndexByte_spec path "/") as Hi. destruct (LastIndexByte path "/") as [i|].
  - destruct Hi as (t & u & -> & Hl & Ht & Hu). destruct i as [|i].
    + eexists. split; [done|]. intros p' Hne Hs. apply seg_prefix_cut in Hs as [->|Hs]; [done| |done].
      destruct t; [|done]. destruct Hs as [->|[rest Hr]]; [done|]. by destruct p'.
    + rewrite Ht. destruct (IH t) as (r & -> & Hr).
      { rewrite slen_append in Hf. simpl in Hf. lia. }
      exists r. split; [done|]. destruct r as [[p ent]|].
      * destruct Hr as (Hp & Hent & Hlong). split_and!; [|done|].
        -- destruct Hp as [->|[rest ->]]; right; [by exists u|]. exists (rest +:+ String "/" u).
           by rewrite !append_assoc.
        -- intros p' Hs Hlt. apply seg_prefix_cut in Hs as [->|Hs]; [done|by apply Hlong|done].
      * intros p' Hne Hs. apply seg_prefix_cut in Hs as [->|Hs]; [done|by apply Hr|done].
  - eexists. split; [done|]. intros p' Hne [->|[rest ->]]; [done|]. exfalso.
    by apply IndexByte_append_None in Hi as [_ Hi].
Qed.

(** Handler resolution. The walk terminates, and finds the handler bound at
    the request's path or at its closest ancestor: no handler is bound anywhere
    between, and when it finds none, none is bound at the path or at any
    ancestor. *)
Theorem treeWalkHandler_longest d (path : string) :
  walk_result d path (treeWalkHandler d path).
Proof.
  unfold treeWalkHandler. destruct (tree_walk_spec (slen path + 1) d path) as (r & -> & Hr); [lia|done].
Qed.
End resolution_spec.

(** ** What reaches a handler *)

Section safety.
Context {CS L IX : Type} `{ContentStoreLaws CS} `{LocationIndex L} `{CapabilityIndex IX}.
Context `{Base58Laws, Signing, DataCodecLaws, MapOrder, HandlerCodec}.
Implicit Types d : Dispatcher CS L IX.

(** The store and the envelope hold the same entity under a common hash. *)
Definition agrees (m included : gmap Hash Entity) : Prop :=
  forall h e e', m !! h = Some e -> included !! h = Some e' -> e = e'.

Lemma put_agrees included cs k ent :
  Env.key_bound included -> included !! k = Some ent ->
  agrees (entities cs) included -> agrees (entities (fst (cs_Put cs ent))) included.
Proof.
  intros Hb Hk Ha. pose proof (cs_put_spec cs ent) as Hp.
  destruct (snd (cs_Put cs ent)) as [h|er]; [|by rewrite Hp]. destruct Hp as [Hh ->].
  destruct (Hb k ent Hk) as [(_ & _ & Hc)%Ent.Validate_iff Hck].
  apply put_hash_ok in Hh as (Hc' & _ & _). assert (h = k) as -> by congruence.
  intros h' e e'. destruct (decide (k = h')) as [<-|Hne].
  - rewrite lookup_insert_eq, Hk. intros [= <-] [= <-]. unfold stamped. rewrite <- Hck. by destruct ent.
  - rewrite lookup_insert_ne by done. apply Ha.
Qed.

Lemma ingest_peers_agrees included es cs :
  Env.key_bound included -> (forall kv, kv ∈ es -> included !! fst kv = Some (snd kv)) ->
  agrees (entities cs) included -> agrees (entities (fst (ingest_peers es cs))) included.
Proof.
  intros Hb. revert cs. induction es as [|[k ent] es IH]; intros cs Hes Ha; cbn [ingest_peers]; [done|].
  assert (Hes' : forall kv, kv ∈ es -> included !! fst kv = Some (snd kv)) by (intros; apply Hes; by right).
  destruct (negb _); [by apply IH|]. destruct (cs_Has _ _); [by apply IH|].
  assert (Hk : included !! k = Some ent) by (apply (Hes (k, ent)); left).
  pose proof (put_agrees _ _ _ _ Hb Hk Ha) as Hp.
  destruct (cs_Put cs ent) as [cs' [h|e]]; cbn [fst] in *; [by apply IH|done].
Qed.

Lemma ingest_signatures_agrees included es cs (li : L) :
  Env.key_bound included -> (forall kv, kv ∈ es -> included !! fst kv = Some (snd kv)) ->
  agrees (entities cs) included -> agrees (entities (fst (fst (ingest_signatures es cs li)))) included.
Proof.
  intros Hb. revert cs li. induction es as [|[k ent] es IH]; intros cs li Hes Ha; cbn [ingest_signatures]; [done|].
  assert (Hes' : forall kv, kv ∈ es -> included !! fst kv = Some (snd kv)) by (intros; apply Hes; by right).
  destruct (signature_slot cs ent) as [path|]; [|by apply IH].
  destruct (Get li path) as [ex|]; [case_decide; [done|by apply IH]|].
  assert (Hk : included !! k = Some ent) by (apply (Hes (k, ent)); left).
  pose proof (put_agrees _ _ _ _ Hb Hk Ha) as Hp.
  destruct (cs_Has cs (ContentHash ent)).
  - destruct (Set_ li path (ContentHash ent)) as [li' [[]|e]]; cbn [fst]; [by apply IH|done].
  - destruct (cs_Put cs ent) as [cs' [h|e]]; cbn [fst] in *; [|done].
    destruct (Set_ li path (ContentHash ent)) as [li' [[]|e]]; cbn [fst]; [by apply IH|done].
Qed.

Lemma ingest_agrees included cs (li : L) :
  Env.key_bound included -> agrees (entities cs) included ->
  agrees (entities (fst (fst (IngestEnvelopeSignatures cs li included)))) included.
Proof.
  intros Hb Ha. unfold IngestEnvelopeSignatures. destruct (size included =? 0)%nat; [done|].
  assert (Hes : forall site kv, kv ∈ map_range site [] included -> included !! fst kv = Some (snd kv)).
  { intros site [k e] Hin. by apply elem_of_map_range in Hin. }
  pose proof (ingest_peers_agrees included _ cs Hb (Hes site_ingest_peers) Ha) as Hp.
  destruct (ingest_peers _ cs) as [cs' [[]|e]]; cbn [fst] in *; [|done].
  apply ingest_signatures_agrees; [done|apply Hes|done].
Qed.

(** The granter read from the store is the one the chain was verified under. *)
Lemma granter_agrees (cs : gmap Hash Entity) included target g lp gp :
  agrees cs included -> link_signed included target g ->
  ResolveGranterPeerID g cs lp = Ok gp -> granterPeerIDFromIncluded g included lp = Ok gp.
Proof.
  intros Ha Hs. unfold ResolveGranterPeerID, granterPeerIDFromIncluded.
  destruct g as [h|mg]; cbn [SingleHash]; [|done]. destruct (IsZero h); [done|].
  destruct Hs as (? & ? & ? & ide & ? & ? & _ & _ & _ & _ & _ & Hi & _).
  destruct (cs !! h) as [e|] eqn:He; [|done]. rewrite Hi. by rewrite (Ha h e ide He Hi).
Qed.

Lemma resolveAuthoredGrant_root d env ex : Root (resolveAuthoredGrant d env ex) = Root env.
Proof. unfold resolveAuthoredGrant. by repeat destr_goal. Qed.

Lemma authorize_inv now gnow d env ex hpath conn req :
  authorize now gnow d env ex hpath conn = ToHandler req ->
  exists cap leaf gp, Env.FindIncluded env (Capability ex) = Some cap
    /\ CapabilityTokenDataFromEntity cap = Ok leaf
    /\ ResolveGranterPeerID (Granter_ leaf) (entities (d_Store d)) (LocalPeerID d) = Ok gp
    /\ FindMatchingGrant now ex leaf (hr_HandlerPattern req) (LocalPeerID d) gp = Some (hr_MatchingGrant req)
    /\ hr_AuthorHash req = Author ex /\ hr_CallerCapability req = cap
    /\ hr_Resource req = normalizeResourceTargets (Resource ex) (LocalPeerID d)
    /\ (forall r t, hr_Resource req = Some r -> t ∈ Targets r -> valid_target (LocalPeerID d) t = true).
Proof.
  unfold authorize. destruct (resolveHandler d hpath) as [rs|code]; [|by repeat destr_goal]. cbv zeta.
  destruct (_ && _); [done|]. destruct (Env.FindIncluded env (Capability ex)) as [cap|]; [|done].
  destruct (CapabilityTokenDataFromEntity cap) as [leaf|] eqn:Hd; [|done].
  destruct (ResolveGranterPeerID _ _ _) as [gp|] eqn:Hg; [|done].
  destruct (FindMatchingGrant _ _ _ _ _ _) as [mg|] eqn:Hm; [|done].
  destruct (checkOpInManifest _ _ _); [done|]. destruct (decode_params ex); [|done].
  destruct (grant_refusal _ _) as [[]|]; [done|]. destruct (negb _) eqn:Hv; [done|]. intros [= <-].
  exists cap, leaf, gp. cbn [hr_Resource]. split_and!; [done..|]. intros r t Hr Ht.
  rewrite Hr in Hv. apply negb_false_iff in Hv. by apply (proj1 (all_true _ _) Hv).
Qed.

Lemma handleExecute_inv clock now gnow d env conn d' req :
  handleExecute clock now gnow d env conn = (d', ToHandler req) ->
  exists ex, ExecuteDataFromEntity (Root env) = Ok ex
    /\ let env' := resolveAuthoredGrant d env ex in
       extractPeer (URI_ ex) (LocalPeerID d) = LocalPeerID d
       /\ (forall st, conn = Some st -> conn_Completed st = true)
       /\ VerifyRequestWithBinding clock env' (LocalPeerID d) (LocalIdentityHash d) (IdentityBindingChecker d) = Ok tt
       /\ (forall cap, Env.FindIncluded env' (Capability ex) = Some cap ->
             IsRevoked cap (revocation_context d env') = false)
       /\ LocalPeerID d' = LocalPeerID d
       /\ d_Store d' = fst (fst (IngestEnvelopeSignatures (d_Store d) (d_LocationIndex d) (Included env')))
       /\ authorize now gnow d' env' ex (URI.ExtractHandlerPath (URI_ ex)) conn = ToHandler req.
Proof.
  unfold handleExecute. destruct (ExecuteDataFromEntity (Root env)) as [ex|]; [|done].
  destruct (String.eqb_spec (extractPeer (URI_ ex) (LocalPeerID d)) (LocalPeerID d)) as [Hp|]; [|done].
  cbn [negb]. cbv zeta. destruct (is_connect_path _).
  { unfold connect_gate. intros Hc. exfalso. revert Hc. repeat destr_goal; discriminate. }
  destruct (match conn with Some st => _ | None => _ end) eqn:Hconn; [done|].
  destruct (VerifyRequestWithBinding _ _ _ _ _) as [[]|e] eqn:Hv.
  2:{ unfold auth_refusal. intros Hc. exfalso. revert Hc. repeat destr_goal; discriminate. }
  destruct (match Env.FindIncluded _ _ with Some _ => _ | None => _ end) eqn:Hrev; [done|].
  destruct (IngestEnvelopeSignatures _ _ _) as [[cs li] r] eqn:Hi. destruct r as [[]|]; [|done].
  intros [= <- Hauth]. exists ex. split_and!; try done.
  - intros st ->. by apply negb_false_iff in Hconn.
  - intros cap Hcap. by rewrite Hcap in Hrev.
  - cbn [with_stores d_Store]. by rewrite Hi.
Qed.

End safety.

(** ** What the handler acts on

    The authorizer reads the resource of the request, the handler the
    normalised resource. *)

(** The path of a URI that stays the same path when the URI is dropped. *)
Definition plain_path (p : string) : bool :=
  negb (HasPrefix p "/" || IsUnmatchablePattern p || HasPrefix p URI.Scheme).
Definition plain_target (lp : PeerID) (t : string) : bool :=
  match URI.ParseURI t with
  | Ok u => negb (String.eqb (URI.PeerID_ u) lp) || plain_path (URI.Path u)
  | Err _ => true
  end.
Definition plain_resource (lp : PeerID) (r : ResourceTarget) : bool :=
  all (plain_target lp) (Targets r) && all (plain_target lp) (rt_Exclude r).

Lemma plain_Canonicalize lp p : plain_path p = true -> Canonicalize p lp = "/" +:+ lp +:+ "/" +:+ p.
Proof.
  unfold plain_path, IsUnmatchablePattern, Canonicalize. intros [[Hs Hu]%orb_false_iff Hc]%negb_true_iff%orb_false_iff.
  apply orb_false_iff in Hu as [Hu Ht]. rewrite Hu, Ht, Hc, Hs. by destruct (String.eqb_spec p "*") as [->|].
Qed.

Lemma normalizeOne_canonical lp t :
  lp <> "" -> plain_target lp t = true -> Canonicalize (normalizeOne lp t) lp = Canonicalize t lp.
Proof.
  intros Hlp. unfold plain_target, normalizeOne.
  destruct (URI.ParseURI t) as [[peer path]|] eqn:Hp; [|done]. cbn [URI.PeerID_ URI.Path].
  destruct (String.eqb_spec peer lp) as [->|]; [|done]. destruct (String.eqb_spec path "") as [->|Hne]; [done|].
  cbn [negb orb andb]. intros Hpl. rewrite plain_Canonicalize by done.
  assert (Hs : HasPrefix t URI.Scheme = true) by (unfold URI.ParseURI in Hp; by destruct (HasPrefix t URI.Scheme)).
  unfold Canonicalize. rewrite Hp, Hs. apply HasPrefix_spec in Hs as [u ->]. cbn [URI.PeerID_ URI.Path].
  destruct (String.eqb_spec lp ""); [done|]. by destruct (String.eqb_spec path "").
Qed.

Section canonical_equal.
Context (lp : PeerID) (f : string -> string).

(** [f] respects the canonical form on [l]. *)
Definition respects (l : list string) : Prop := forall t, t ∈ l -> Canonicalize (f t) lp = Canonicalize t lp.

Lemma IsCoveredBy_respects ct l : respects l -> IsCoveredBy ct (map f l) lp lp = IsCoveredBy ct l lp lp.
Proof.
  intros Hf. unfold IsCoveredBy, any. induction l as [|a l IH]; [done|]. cbn [map existsb].
  rewrite (Hf a) by left. f_equal. apply IH. intros t Ht. apply Hf. by right.
Qed.

Lemma pattern_excludes_respects ct gs l gp :
  respects l -> pattern_excludes_ok ct gs (map f l) lp gp = pattern_excludes_ok ct gs l lp gp.
Proof.
  intros Hf. unfold pattern_excludes_ok, all. induction gs as [|g gs IH]; [done|]. cbn [forallb].
  by rewrite IH, IsCoveredBy_respects.
Qed.

Lemma target_ok_respects t gs l gp :
  respects l -> Canonicalize (f t) lp = Canonicalize t lp ->
  target_ok (f t) gs (map f l) lp gp = target_ok t gs l lp gp.
Proof.
  intros Hf Ht. unfold target_ok, IsCoveredBy, isExcluded. rewrite Ht. by rewrite pattern_excludes_respects.
Qed.

Lemma EffectiveTargets_respects r :
  respects (Targets r) -> respects (rt_Exclude r) ->
  EffectiveTargets (Some {| Targets := map f (Targets r); rt_Exclude := map f (rt_Exclude r) |}) lp
  = map f (EffectiveTargets (Some r) lp).
Proof.
  intros Ht Hx. unfold EffectiveTargets. cbn [Targets rt_Exclude].
  induction (Targets r) as [|a l IH]; [done|]. cbn [map List.filter].
  rewrite (Ht a) by left. rewrite IsCoveredBy_respects by done.
  rewrite IH by (intros t Hin; apply Ht; by right). by destruct (negb _).
Qed.
End canonical_equal.

Lemma plain_respects lp l :
  lp <> "" -> all (plain_target lp) l = true -> respects lp (normalizeOne lp) l.
Proof. intros Hlp Hl t Ht. apply normalizeOne_canonical; [done|]. by apply (proj1 (all_true _ _) Hl). Qed.

Lemma normalized_effective lp r :
  lp <> "" -> plain_resource lp r = true ->
  EffectiveTargets (normalizeResourceTargets (Some r) lp) lp = map (normalizeOne lp) (EffectiveTargets (Some r) lp).
Proof.
  intros Hlp [Ht Hx]%andb_prop. unfold normalizeResourceTargets.
  destruct ((length (Targets r) =? 0)%nat && _) eqn:He.
  - apply andb_prop in He as [Hn _]. apply Nat.eqb_eq, nil_length_inv in Hn. unfold EffectiveTargets. by rewrite Hn.
  - apply EffectiveTargets_respects; by apply plain_respects.
Qed.

Lemma normalized_scope lp gp r gs :
  lp <> "" -> plain_resource lp r = true ->
  CheckResourceScope (normalizeResourceTargets (Some r) lp) gs lp gp = CheckResourceScope (Some r) gs lp gp.
Proof.
  intros Hlp Hp. unfold CheckResourceScope, all. rewrite normalized_effective by done.
  unfold plain_resource in Hp. apply andb_prop in Hp as [Ht Hx].
  pose proof (plain_respects _ _ Hlp Ht) as Ht'. pose proof (plain_respects _ _ Hlp Hx) as Hx'.
  assert (Hsub : forall t, t ∈ EffectiveTargets (Some r) lp -> t ∈ Targets r).
  { intros t Hin. apply list_elem_of_In, filter_In in Hin as [Hin _]. by apply list_elem_of_In. }
  unfold normalizeResourceTargets. destruct ((length (Targets r) =? 0)%nat && _) eqn:He.
  - apply andb_prop in He as [Hn _]. apply Nat.eqb_eq, nil_length_inv in Hn.
    unfold EffectiveTargets. by rewrite Hn.
  - cbn [rt_Exclude]. revert Hsub. induction (EffectiveTargets (Some r) lp) as [|a l IH]; [done|]; intros Hsub.
    cbn [map forallb]. rewrite target_ok_respects by (try done; apply Ht', Hsub; left).
    by rewrite IH by (intros t Hin; apply Hsub; by right).
Qed.

Section resource_safety.
Context {CS L IX : Type} `{ContentStoreLaws CS} `{LocationIndex L} `{CapabilityIndex IX}.
Context `{Base58, Signing, DataCodec, MapOrder, HandlerCodec}.
Implicit Types d : Dispatcher CS L IX.

(** A request served comes out of [authorize] on the ingested stores. *)
Lemma dispatch_inv clock now gnow d env conn d' req ex :
  DispatchEnvelope clock now gnow d env conn = (d', ToHandler req) ->
  ExecuteDataFromEntity (Root env) = Ok ex ->
  LocalPeerID d' = LocalPeerID d
  /\ authorize now gnow d' (resolveAuthoredGrant d env ex) ex (URI.ExtractHandlerPath (URI_ ex)) conn = ToHandler req.
Proof.
  unfold DispatchEnvelope. destruct (Env.ValidateAll env); [|done]. destruct (String.eqb _ _); [|done].
  intros (ex' & Hex' & _ & _ & _ & _ & Hl & _ & Ha)%handleExecute_inv Hex. assert (ex' = ex) as -> by congruence. done.
Qed.

(** The handler acts on what was authorised. The resource a handler
    receives, local URIs already replaced by paths, passes the resource check
    of the matching grant of the caller's capability, under the peer id of its
    granter, provided the paths of the local URIs of the request are plain: not
    absolute, not a URI and not unmatchable. Each target is a valid absolute
    path once canonicalised, and the matching grant is one of the capability's
    grants. *)
Theorem handler_resource_authorized (clock : nat -> Z) (now gnow : Z) d (env : Envelope)
    (conn : option ConnectionState) d' (req : HandlerRequest) (ex : ExecuteData) :
  DispatchEnvelope clock now gnow d env conn = (d', ToHandler req) ->
  ExecuteDataFromEntity (Root env) = Ok ex ->
  LocalPeerID d <> "" ->
  (forall r, Resource ex = Some r -> plain_resource (LocalPeerID d) r = true) ->
  exists leaf gp, CapabilityTokenDataFromEntity (hr_CallerCapability req) = Ok leaf
    /\ hr_MatchingGrant req ∈ Grants leaf
    /\ ResolveGranterPeerID (Granter_ leaf) (entities (d_Store d')) (LocalPeerID d) = Ok gp
    /\ CheckResourceScope (hr_Resource req) (Resources (hr_MatchingGrant req)) (LocalPeerID d) gp = true
    /\ forall r t, hr_Resource req = Some r -> t ∈ Targets r ->
         ValidateAbsolutePath (Canonicalize t (LocalPeerID d)) = Ok tt.
Proof.
  intros Hd Hex Hlp Hpl. destruct (dispatch_inv _ _ _ _ _ _ _ _ _ Hd Hex) as [Hl Ha].
  apply authorize_inv in Ha as (cap & leaf & gp & _ & Hleaf & Hgp & Hm & _ & Hcc & Hr & Ht).
  rewrite Hl in *. exists leaf, gp. rewrite Hcc.
  unfold FindMatchingGrant, findMatchingGrant in Hm. destruct (NotYetValid _ _); [done|]. destruct (Expired _ _); [done|].
  apply find_some in Hm as [Hin Hm]. apply grant_matches_iff in Hm as (_ & _ & Hres & _).
  split_and!; [done|by apply list_elem_of_In|done| |].
  - rewrite Hr. destruct (Resource ex) as [r|]; [|done]. rewrite normalized_scope by auto. by apply Hres.
  - intros r t Hr' Hin'. specialize (Ht r t Hr' Hin'). unfold valid_target in Ht.
    destruct (_ || _); [done|]. destruct (Contains _ _); [done|]. by destruct (ValidateAbsolutePath _) as [[]|].
Qed.

(** The connection gate. While the handshake of a connection is open,
    nothing but a connect operation gets through, only the one its phase calls
    for, and no refusal or hand-over touches the stores; on an established
    connection the only connect operation that gets through is [ping]. *)
Theorem connection_gate (clock : nat -> Z) (now gnow : Z) d (env : Envelope) (st : ConnectionState) :
  let '(d', v) := DispatchEnvelope clock now gnow d env (Some st) in
  (conn_Completed st = false ->
     d' = d /\ match v with
               | ToHandler _ | RefuseMarked _ _ => False
               | ToConnect path op => is_connect_path path = true
                   /\ op = (if String.eqb (conn_Phase st) "awaiting_authenticate" then "authenticate" else "hello")
               | Refuse _ _ | Fail _ => True
               end)
  /\ (conn_Completed st = true -> forall path op, v = ToConnect path op -> is_connect_path path = true /\ op = "ping").
Proof.
  unfold DispatchEnvelope. destruct (Env.ValidateAll env); [|by split]. destruct (String.eqb _ _); [|by split].
  unfold handleExecute. destruct (ExecuteDataFromEntity _) as [ex|]; [|by split].
  destruct (negb (String.eqb (extractPeer _ _) _)); [by split|]. cbv zeta.
  destruct (is_connect_path _) eqn:Hcp.
  - unfold connect_gate, ValidateConnectionSequence.
    destruct (String.eqb_spec (Operation ex) "hello") as [->|]; [|destruct (String.eqb_spec (Operation ex) "authenticate") as [->|];
      [|destruct (String.eqb_spec (Operation ex) "ping") as [->|]; [|by split]]]; cbn;
      destruct (conn_Completed st); cbn; split; try done;
      try (intros _ path op [= <- <-]; done);
      by destruct (String.eqb (conn_Phase st) _).
  - destruct (conn_Completed st); cbn [negb]; [|by split].
    destruct (VerifyRequestWithBinding _ _ _ _ _) as [[]|e].
    2:{ split; [done|]. intros _ path op. unfold auth_refusal. by repeat destr_goal. }
    destruct (match Env.FindIncluded _ _ with Some _ => _ | None => _ end); [by split|].
    destruct (IngestEnvelopeSignatures _ _ _) as [[cs li] [[]|e]]; [|by split].
    split; [done|]. intros _ path op. unfold authorize. by repeat destr_goal.
Qed.
End resource_safety.

(** ** A dispatcher that serves a request

    The local peer binds the handler of its tree and dispatches [sample_env]. *)

Module DispatchSample.
#[local] Existing Instances nibble58 Sample.signing toy_hashable Sample.codec default_order.

Definition handlerE : Entity := toy_entity TypeHandler [Byte.x07].
Definition codec : HandlerCodec := {|
  DecodeHandler d := if decide (d = [Byte.x07])
    then Some {| Interface := ""; MaxScope := []; InternalScope := []; ExpressionPath := "" |} else None;
  DecodeInterfaceOps _ := None;
  DecodeRawEntity _ := None |}.
#[local] Existing Instance codec.

Definition dispatcher : Dispatcher MemoryContentStore MemoryLocationIndex MemoryCapabilityIndex := {|
  LocalPeerID := Sample.local; LocalIdentityHash := ContentHash Sample.peerA;
  d_Store := Sample.file [handlerE];
  d_LocationIndex := {[ "/" +:+ Sample.local +:+ "/system/tree" := ContentHash handlerE ]};
  d_CapabilityIndex := None;
  Registry p := if String.eqb p "system/tree" then Some {| manifest_Operations := Some ["get"] |} else None;
  EvaluateExpression := false; IdentityBindingChecker := None; AuthoredGrantSupplier := None |}.

Definition connected : ConnectionState :=
  {| conn_Completed := true; conn_Phase := "established"; conn_RemotePeerID := Sample.local |}.
Definition outcome := DispatchEnvelope Sample.clock 60 60 dispatcher sample_env (Some connected).
Definition served (v : Verdict) : bool := match v with ToHandler _ => true | _ => false end.

Lemma outcome_served : served (snd outcome) = true.
Proof. vm_compute. reflexivity. Qed.

Lemma store_agrees : agrees (entities (d_Store dispatcher)) (Included sample_env).
Proof.
  intros h e e' Hh Hi. cbn [entities memory_content_store_laws dispatcher d_Store] in Hh.
  unfold Sample.file in Hh. cbn [map list_to_map foldr] in Hh. rewrite insert_empty in Hh.
  apply lookup_singleton_Some in Hh as [<- <-]. exfalso.
  assert (Hn : bool_decide (Included sample_env !! ContentHash handlerE = None) = true) by (vm_compute; reflexivity).
  apply bool_decide_eq_true_1 in Hn. pose proof (eq_trans (eq_sym Hn) Hi). done.
Qed.
End DispatchSample.


Lemma handler_resource_authorized_witness :
  exists req, snd DispatchSample.outcome = ToHandler req
    /\ exists leaf, @CapabilityTokenDataFromEntity Sample.codec (hr_CallerCapability req) = Ok leaf
    /\ hr_MatchingGrant req ∈ Grants leaf.
Proof.
  pose proof DispatchSample.outcome_served as Hs.
  destruct DispatchSample.outcome as [d' v] eqn:E. cbn [snd] in *.
  destruct v as [| | |req|]; try discriminate Hs. exists req. split; [done|].
  destruct (@handler_resource_authorized MemoryContentStore MemoryLocationIndex MemoryCapabilityIndex
              (@memory_content_store toy_hashable) toy_hashable (@memory_content_store_laws toy_hashable)
              memory_location_index memory_capability_index nibble58 Sample.signing Sample.codec default_order
              DispatchSample.codec Sample.clock 60 60 DispatchSample.dispatcher sample_env
              (Some DispatchSample.connected) d' req Sample.execD) as (leaf & gp & Hl & Hg & _).
  - exact E.
  - reflexivity.
  - vm_compute. discriminate.
  - intros r [= <-]. vm_compute. reflexivity.
  - exists leaf. split; [exact Hl|exact Hg].
Defined.

(** ** An excluded target that reaches the handler

    The side condition of [handler_resource_authorized] is needed.  The resource
    below names [/LP/data/secret], which the capability does not cover, through
    the URI of the local peer, and excludes the canonical form [/LP//LP/...] of
    that URI: the authorizer finds no effective target and grants the request,
    while the handler receives the bare path, which the exclude does not cover,
    as its effective target.  Asked for directly the path is refused. *)

Module Bypass.
#[local] Existing Instances nibble58 Sample.signing toy_hashable default_order DispatchSample.codec.

Definition secret : string := "/" +:+ Sample.local +:+ "/data/secret".

Definition execD (targets exclude : list string) : ExecuteData := {|
  RequestID := "r2"; URI_ := "entity://" +:+ Sample.local +:+ "/system/tree"; Operation := "get";
  Resource := Some {| Targets := targets; rt_Exclude := exclude |}; Params := [];
  Author := ContentHash Sample.peerA; Capability := ContentHash Sample.leafE |}.

(** The sample codec, reading the request as [ex]. *)
Definition codec (ex : ExecuteData) : DataCodec := {|
  DecodeToken := @DecodeToken Sample.codec; DecodePeer := @DecodePeer Sample.codec;
  DecodeSignature := @DecodeSignature Sample.codec; DecodeSigTarget := @DecodeSigTarget Sample.codec;
  DecodeExecute _ := Some ex; DecodeRawMap := @DecodeRawMap Sample.codec |}.

Definition verdict (targets exclude : list string) : Verdict :=
  snd (@DispatchEnvelope _ _ _ _ _ _ _ _ _ _ (codec (execD targets exclude)) _ _ Sample.clock 60 60
         DispatchSample.dispatcher sample_env (Some DispatchSample.connected)).

Definition effective (v : Verdict) : option (list string) :=
  match v with ToHandler req => Some (EffectiveTargets (hr_Resource req) Sample.local) | _ => None end.
End Bypass.

Theorem excluded_target_reaches_handler :
  Bypass.effective (Bypass.verdict ["entity://" +:+ Sample.local +:+ "/" +:+ Bypass.secret]
                                   ["/" +:+ Sample.local +:+ "//*"]) = Some [Bypass.secret]
  /\ Bypass.verdict [Bypass.secret] [] = RefuseMarked 403 "capability_denied".
Proof. split; vm_compute; reflexivity. Qed.

(** ** A signature slot taken by a forged signature

    Ingestion binds a signature at the slot of its declared signer without
    verifying it.  A request that carries a forged signature of peer B is
    served, and from then on every request that carries the signature B really
    made of the same entity is refused as a conflict. *)

Module Squatting.
#[local] Existing Instances nibble58 Sample.signing toy_hashable default_order DispatchSample.codec.

Definition docE : Entity := toy_entity "note" [Byte.x09].
Definition forgedE : Entity := toy_entity TypeSignature [Byte.x14].
Definition genuineE : Entity := toy_entity TypeSignature [Byte.x15].

Definition genuine : SignatureData := Sample.sig_over docE Sample.peerB Byte.x42.
Definition forged : SignatureData := {|
  Target := ContentHash docE; Signer := ContentHash Sample.peerB; sig_Algorithm := "ed25519"; Signature := [] |}.

Definition decode_sig (d : list byte) : option SignatureData :=
  if decide (d = [Byte.x14]) then Some forged
  else if decide (d = [Byte.x15]) then Some genuine else Sample.decode_sig d.

#[local] Instance codec : DataCodec := {|
  DecodeToken := @DecodeToken Sample.codec; DecodePeer := @DecodePeer Sample.codec;
  DecodeSignature := decode_sig; DecodeSigTarget d := Target <$> decode_sig d;
  DecodeExecute := @DecodeExecute Sample.codec; DecodeRawMap := @DecodeRawMap Sample.codec |}.

(** The sample request with one more signature. *)
Definition carrying (sig : Entity) : Envelope :=
  mkEnvelope (Root sample_env) (<[ContentHash sig := sig]> (Included sample_env)).

Definition step (d : Dispatcher MemoryContentStore MemoryLocationIndex MemoryCapabilityIndex) (env : Envelope) :=
  DispatchEnvelope Sample.clock 60 60 d env (Some DispatchSample.connected).

Definition after_forged := fst (step DispatchSample.dispatcher (carrying forgedE)).
End Squatting.

Theorem forged_signature_blocks_genuine :
  @Verify Sample.signing KeyTypeEd25519 (Sample.key Byte.x42) (Bytes (ContentHash Squatting.docE))
    (Signature Squatting.forged) = false
  /\ DispatchSample.served (snd (Squatting.step DispatchSample.dispatcher (Squatting.carrying Squatting.forgedE))) = true
  /\ DispatchSample.served (snd (Squatting.step DispatchSample.dispatcher (Squatting.carrying Squatting.genuineE))) = true
  /\ snd (Squatting.step Squatting.after_forged (Squatting.carrying Squatting.genuineE))
     = Refuse 400 "signature_path_conflict".
Proof. split_and!; vm_compute; reflexivity. Qed.
