(* ===== verification/Trie.v ===== *)
(** * The snapshot trie ([core/tree]: [trie_node.go], [trie.go], [trie_incremental.go], [trie_diff.go];
      its node types of [core/types/tree.go])

    A hash array mapped trie whose nodes are entities of the content store: the
    routing hash of a key is its SHA-256, each level consumes five bits, a slot
    holds a bucket of at most three bindings or a link to a sub-node.  This
    file is the code; [TrieSpec] and the files after it prove it correct.

    The CBOR form of a node is third-party code: class [NodeCodec].  Where Go
    would panic (an index out of range on a malformed node) the model returns
    [TriePanic].  The walks that follow links until they end run on the fuel
    [links_fuel]; [TrieDiverges] is out of fuel, which takes a cycle of links. *)

From Stdlib Require Import Ascii.
From S2P Require Import Prelude GoStrings Sha2 Errors Hash Entity Store.

(** ** Nodes *)

Record BucketTuple := mkTuple { Key : string; ValueHash : Hash }.

(** A bucket, or a link to a sub-node: exactly one of the two fields is set. *)
Inductive NodeEntry :=
| BucketEntry (bucket : list BucketTuple)
| LinkEntry (link : Hash).

Record SnapshotNodeData := mkNode { Map_ : list byte; Data_ : list NodeEntry }.

Global Instance BucketTuple_eq_dec : EqDecision BucketTuple.
Proof. solve_decision. Defined.
Global Instance NodeEntry_eq_dec : EqDecision NodeEntry.
Proof. solve_decision. Defined.
Global Instance SnapshotNodeData_eq_dec : EqDecision SnapshotNodeData.
Proof. solve_decision. Defined.

Definition TypeTreeSnapshotNode : string := "system/tree/snapshot/node".

Definition BitWidth : nat := 5.
Definition K : nat := 32.
Definition BucketSize : nat := 3.
Definition BitmapBytes : nat := 4.
Definition MaxLevel : nat := 51.

Definition EmptyNode : SnapshotNodeData := mkNode (replicate BitmapBytes Byte.x00) [].

Class NodeCodec := {
  (** [ecf.Encode] of a node. *)
  EncodeNode : SnapshotNodeData -> option (list byte);
  (** [ecf.Decode] into a node. *)
  DecodeNode : list byte -> option SnapshotNodeData;
  (** [hash.GetDefaultHashAlgorithm]: the process-wide authoring format. *)
  node_format : byte
}.

Inductive TrieErr :=
| TrieCollision
| TrieMissing (link : Hash)
| TrieStore (e : GoErr)
| TriePanic
| TrieDiverges.

(** ** Routing *)

Definition HashKey (relativeKey : string) : list byte := sha256_sum (str_bytes relativeKey).

Definition byte_at (l : list byte) (i : nat) : Z := bZ (nth i l Byte.x00).

Definition HashSlice (hashBytes : list byte) (level : nat) : nat :=
  if (MaxLevel <=? level)%nat then 0
  else
    let bitOffset := (level * BitWidth)%nat in
    let byteOffset := (bitOffset / 8)%nat in
    let bitInByte := (bitOffset mod 8)%nat in
    let v := Z.lor (Z.shiftl (byte_at hashBytes byteOffset) 8)
               (if (byteOffset + 1 <? length hashBytes)%nat then byte_at hashBytes (byteOffset + 1) else 0) in
    let shift := (16 - Z.of_nat bitInByte - Z.of_nat BitWidth)%Z in
    Z.to_nat (Z.land (Z.shiftr v shift) 31).

(** ** Bitmaps: [None] is an index out of range *)

Definition BitmapSet (bm : list byte) (p : nat) : option (list byte) :=
  let byteIdx := (BitmapBytes - 1 - p / 8)%nat in
  match bm !! byteIdx with
  | None => None
  | Some b => Some (<[byteIdx := Zb (Z.lor (bZ b) (Z.shiftl 1 (Z.of_nat (p mod 8))))]> bm)
  end.

Definition BitmapClear (bm : list byte) (p : nat) : option (list byte) :=
  let byteIdx := (BitmapBytes - 1 - p / 8)%nat in
  match bm !! byteIdx with
  | None => None
  | Some b => Some (<[byteIdx := Zb (Z.ldiff (bZ b) (Z.shiftl 1 (Z.of_nat (p mod 8))))]> bm)
  end.

Definition BitmapGet (bm : list byte) (p : nat) : option bool :=
  match bm !! (BitmapBytes - 1 - p / 8)%nat with
  | None => None
  | Some b => Some (negb (Z.land (bZ b) (Z.shiftl 1 (Z.of_nat (p mod 8))) =? 0)%Z)
  end.

Definition BitmapU32 (bm : list byte) : option Z :=
  match bm with
  | b0 :: b1 :: b2 :: b3 :: _ =>
      Some (Z.lor (Z.lor (Z.lor (Z.shiftl (bZ b0) 24) (Z.shiftl (bZ b1) 16)) (Z.shiftl (bZ b2) 8)) (bZ b3))
  | _ => None
  end.

(** [bits.OnesCount32]. *)
Definition OnesCount32 (u : Z) : nat := length (List.filter (fun i => Z.testbit u (Z.of_nat i)) (seq 0 32)).

Definition PopcountBelow (bm : list byte) (p : nat) : option nat :=
  match BitmapU32 bm with
  | None => None
  | Some u => Some (OnesCount32 (Z.land u (Z.shiftl 1 (Z.of_nat p) - 1)%Z))
  end.

Definition Popcount (bm : list byte) : option nat :=
  match BitmapU32 bm with None => None | Some u => Some (OnesCount32 u) end.

(** ** Buckets *)

(** [sort.Search]: binary search for the first index where [f] holds. *)
Fixpoint search_loop (fuel : nat) (f : nat -> bool) (i j : nat) : nat :=
  match fuel with
  | O => i
  | S fuel' =>
      if (i <? j)%nat then
        let h := ((i + j) / 2)%nat in
        if negb (f h) then search_loop fuel' f (h + 1) j else search_loop fuel' f i h
      else i
  end.
Definition sort_Search (n : nat) (f : nat -> bool) : nat := search_loop n f 0 n.

Definition bucket_index (bucket : list BucketTuple) (key : string) : nat :=
  sort_Search (length bucket)
    (fun i => match bucket !! i with Some t => negb (String.ltb (Key t) key) | None => true end).

Definition key_at (bucket : list BucketTuple) (idx : nat) (key : string) : bool :=
  match bucket !! idx with Some t => String.eqb (Key t) key | None => false end.

Definition BucketInsert (bucket : list BucketTuple) (key : string) (valueHash : Hash) : list BucketTuple :=
  let idx := bucket_index bucket key in
  if key_at bucket idx key then <[idx := mkTuple key valueHash]> bucket
  else take idx bucket ++ mkTuple key valueHash :: drop idx bucket.

(** [None] is the bucket without the key. *)
Definition BucketRemove (bucket : list BucketTuple) (key : string) : option (list BucketTuple) :=
  let idx := bucket_index bucket key in
  if key_at bucket idx key then Some (take idx bucket ++ drop (S idx) bucket) else None.

Definition BucketFind (bucket : list BucketTuple) (key : string) : option Hash :=
  let idx := bucket_index bucket key in
  match bucket !! idx with
  | Some t => if String.eqb (Key t) key then Some (ValueHash t) else None
  | None => None
  end.

(** ** Entries of a node: [None] is an index out of range *)

Definition insertEntry (data : list NodeEntry) (idx : nat) (entry : NodeEntry) : option (list NodeEntry) :=
  if (idx <=? length data)%nat then Some (take idx data ++ entry :: drop idx data) else None.
Definition replaceEntry (data : list NodeEntry) (idx : nat) (entry : NodeEntry) : option (list NodeEntry) :=
  if (idx <? length data)%nat then Some (<[idx := entry]> data) else None.
Definition removeEntryAt (data : list NodeEntry) (idx : nat) : option (list NodeEntry) :=
  if (idx <? length data)%nat then Some (take idx data ++ drop (S idx) data) else None.

Definition res_map_some {A} (r : res TrieErr A) : res TrieErr (option A) := let! a := r in Ok (Some a).
Definition panic {A} (o : option A) : res TrieErr A := of_option TriePanic o.

(** The state is threaded through fallible steps. *)
Notation "'run!' ( cs , x ) ':=' c 'in' k" :=
  (let '(cs, r) := c in match r with Err e => (cs, Err e) | Ok x => k end)
  (at level 10, cs name, x name, c at level 100, k at level 200) : go_scope.

(** ** Nodes in the content store *)

Section trie.
Context {CS : Type} `{ContentStore CS, HashableCodec, NodeCodec}.

Definition StoreTrieNode (cs : CS) (node : SnapshotNodeData) : CS * res TrieErr Hash :=
  match EncodeNode node with
  | None => (cs, Err (TrieStore []))
  | Some raw =>
      match Ent.NewEntity node_format TypeTreeSnapshotNode raw with
      | Err e => (cs, Err (TrieStore e))
      | Ok ent => let '(cs, r) := cs_Put cs ent in (cs, res_map_err TrieStore r)
      end
  end.

Definition LoadTrieNode (cs : CS) (h : Hash) : option SnapshotNodeData :=
  match cs_Get cs h with None => None | Some ent => DecodeNode (Data ent) end.

(** Following links: enough for any trie without a cycle of links. *)
Definition links_fuel (cs : CS) : nat := MaxLevel + cs_Len cs.

(** The recursion that [BranchSize], [collectSubtreeTuples] and
    [collectBindings] share: the entries in order, a bucket by [on_bucket], a
    child by recursion; a child that is not found is skipped. *)
Fixpoint walk {A} (on_bucket : A -> list BucketTuple -> A) (fuel : nat) (cs : CS) (acc : A)
    (node : SnapshotNodeData) : option A :=
  match fuel with
  | O => None
  | S fuel' =>
      (fix go (acc : A) (entries : list NodeEntry) : option A :=
         match entries with
         | [] => Some acc
         | BucketEntry b :: rest => go (on_bucket acc b) rest
         | LinkEntry h :: rest =>
             match LoadTrieNode cs h with
             | None => go acc rest
             | Some child => match walk on_bucket fuel' cs acc child with None => None | Some acc => go acc rest end
             end
         end) acc (Data_ node)
  end.

Definition BranchSize (cs : CS) (node : SnapshotNodeData) : option nat :=
  walk (fun count b => (count + length b)%nat) (links_fuel cs) cs 0%nat node.

Definition collectSubtreeTuples (cs : CS) (node : SnapshotNodeData) : option (list BucketTuple) :=
  walk (fun out b => out ++ b) (links_fuel cs) cs [] node.

Definition key_le (a b : BucketTuple) : Prop := String.leb (Key a) (Key b) = true.
Global Instance key_le_dec a b : Decision (key_le a b).
Proof. unfold key_le. apply _. Defined.

Definition CollectSubtreeTuples (cs : CS) (node : SnapshotNodeData) : option (list BucketTuple) :=
  match collectSubtreeTuples cs node with
  | None => None
  | Some out => Some (merge_sort key_le out)
  end.

(** ** Put *)

Definition node_with (bm : option (list byte)) (data : option (list NodeEntry)) : res TrieErr SnapshotNodeData :=
  let! m := panic bm in let! d := panic data in Ok (mkNode m d).

(** [for _, t := range bucket]: each tuple is put into the sub-node. *)
Fixpoint put_tuples (put : CS -> SnapshotNodeData -> string -> Hash -> CS * res TrieErr SnapshotNodeData)
    (cs : CS) (sub : SnapshotNodeData) (tuples : list BucketTuple) : CS * res TrieErr SnapshotNodeData :=
  match tuples with
  | [] => (cs, Ok sub)
  | t :: rest => run! (cs, sub) := put cs sub (Key t) (ValueHash t) in put_tuples put cs sub rest
  end.

(** The body of [promoteBucket], [put] being [putAtNode] one level down. *)
Definition promoteBucket (put : CS -> SnapshotNodeData -> string -> Hash -> CS * res TrieErr SnapshotNodeData)
    (cs : CS) (bucket : list BucketTuple) (newKey : string) (newValue : Hash) : CS * res TrieErr SnapshotNodeData :=
  run! (cs, sub) := put_tuples put cs EmptyNode bucket in put cs sub newKey newValue.

(** [levels] is [MaxLevel - level]. *)
Fixpoint putAtNode (levels : nat) (cs : CS) (node : SnapshotNodeData) (level : nat) (relativeKey : string)
    (value : Hash) : CS * res TrieErr SnapshotNodeData :=
  match levels with
  | O => (cs, Err TrieCollision)
  | S levels' =>
      let p := HashSlice (HashKey relativeKey) level in
      match PopcountBelow (Map_ node) p, BitmapGet (Map_ node) p with
      | Some idx, Some false =>
          (cs, node_with (BitmapSet (Map_ node) p)
                 (insertEntry (Data_ node) idx (BucketEntry [mkTuple relativeKey value])))
      | Some idx, Some true =>
          match Data_ node !! idx with
          | None => (cs, Err TriePanic)
          | Some (BucketEntry bucket) =>
              if (match BucketFind bucket relativeKey with Some _ => true | None => false end
                  || (length bucket <? BucketSize)%nat)
              then (cs, node_with (Some (Map_ node))
                          (replaceEntry (Data_ node) idx (BucketEntry (BucketInsert bucket relativeKey value))))
              else
                run! (cs, subNode) := promoteBucket (fun cs n k v => putAtNode levels' cs n (level + 1) k v)
                                        cs bucket relativeKey value in
                run! (cs, subHash) := StoreTrieNode cs subNode in
                (cs, node_with (Some (Map_ node)) (replaceEntry (Data_ node) idx (LinkEntry subHash)))
          | Some (LinkEntry link) =>
              match LoadTrieNode cs link with
              | None => (cs, Err (TrieMissing link))
              | Some child =>
                  run! (cs, newChild) := putAtNode levels' cs child (level + 1) relativeKey value in
                  run! (cs, newChildHash) := StoreTrieNode cs newChild in
                  (cs, node_with (Some (Map_ node)) (replaceEntry (Data_ node) idx (LinkEntry newChildHash)))
              end
          end
      | _, _ => (cs, Err TriePanic)
      end
  end.

Definition loadOrEmpty (cs : CS) (h : Hash) : SnapshotNodeData :=
  if IsZero h then EmptyNode
  else match LoadTrieNode cs h with
  | None => EmptyNode
  | Some node =>
      if (length (Map_ node) =? BitmapBytes)%nat then node
      else mkNode (take BitmapBytes (Map_ node ++ replicate BitmapBytes Byte.x00)) (Data_ node)
  end.

Definition TriePut (cs : CS) (currentRoot : Hash) (relativeKey : string) (value : Hash) : CS * res TrieErr Hash :=
  run! (cs, newRoot) := putAtNode MaxLevel cs (loadOrEmpty cs currentRoot) 0 relativeKey value in
  StoreTrieNode cs newRoot.

Fixpoint put_bindings (cs : CS) (rootHash : Hash) (bindings : list BucketTuple) : CS * res TrieErr Hash :=
  match bindings with
  | [] => (cs, Ok rootHash)
  | b :: rest => run! (cs, rootHash) := TriePut cs rootHash (Key b) (ValueHash b) in put_bindings cs rootHash rest
  end.

Definition BuildTrie (cs : CS) (bindings : list BucketTuple) : CS * res TrieErr Hash :=
  match bindings with
  | [] => StoreTrieNode cs EmptyNode
  | _ => run! (cs, rootHash) := StoreTrieNode cs EmptyNode in put_bindings cs rootHash bindings
  end.

(** ** Remove *)

(** [Some (Some tuples)] collapses the child; [None] is out of fuel. *)
Definition collapsedChild (cs : CS) (child : SnapshotNodeData) : option (option (list BucketTuple)) :=
  match BranchSize cs child with
  | None => None
  | Some bs =>
      if (BucketSize + 1 <=? bs)%nat then Some None
      else match CollectSubtreeTuples cs child with None => None | Some tuples => Some (Some tuples) end
  end.

(** [Ok None] is a key that is not present. *)
Fixpoint removeAtNode (fuel : nat) (cs : CS) (node : SnapshotNodeData) (level : nat) (relativeKey : string)
  : CS * res TrieErr (option SnapshotNodeData) :=
  match fuel with
  | O => (cs, Err TrieDiverges)
  | S fuel' =>
      let p := HashSlice (HashKey relativeKey) level in
      let drop_entry idx := res_map_some (node_with (BitmapClear (Map_ node) p) (removeEntryAt (Data_ node) idx)) in
      let set_entry idx e := res_map_some (node_with (Some (Map_ node)) (replaceEntry (Data_ node) idx e)) in
      match BitmapGet (Map_ node) p with
      | None => (cs, Err TriePanic)
      | Some false => (cs, Ok None)
      | Some true =>
          match PopcountBelow (Map_ node) p with
          | None => (cs, Err TriePanic)
          | Some idx =>
              match Data_ node !! idx with
              | None => (cs, Err TriePanic)
              | Some (BucketEntry bucket) =>
                  match BucketRemove bucket relativeKey with
                  | None => (cs, Ok None)
                  | Some [] => (cs, drop_entry idx)
                  | Some newBucket => (cs, set_entry idx (BucketEntry newBucket))
                  end
              | Some (LinkEntry link) =>
                  match LoadTrieNode cs link with
                  | None => (cs, Err (TrieMissing link))
                  | Some child =>
                      run! (cs, newChild) := removeAtNode fuel' cs child (level + 1) relativeKey in
                      match newChild with
                      | None => (cs, Ok None)
                      | Some newChild =>
                          match collapsedChild cs newChild with
                          | None => (cs, Err TrieDiverges)
                          | Some (Some []) => (cs, drop_entry idx)
                          | Some (Some tuples) => (cs, set_entry idx (BucketEntry tuples))
                          | Some None =>
                              run! (cs, newChildHash) := StoreTrieNode cs newChild in
                              (cs, set_entry idx (LinkEntry newChildHash))
                          end
                      end
                  end
              end
          end
      end
  end.

Definition TrieRemove (cs : CS) (currentRoot : Hash) (relativeKey : string) : CS * res TrieErr Hash :=
  if IsZero currentRoot then (cs, Ok currentRoot)
  else match LoadTrieNode cs currentRoot with
  | None => (cs, Ok currentRoot)
  | Some root =>
      run! (cs, newRoot) := removeAtNode (links_fuel cs) cs root 0 relativeKey in
      match newRoot with
      | None => (cs, Ok currentRoot)
      | Some newRoot => StoreTrieNode cs newRoot
      end
  end.

(** ** Reading *)

Definition joinKey (prefix key : string) : string :=
  if String.eqb prefix "" then key else if String.eqb key "" then prefix else prefix +:+ "/" +:+ key.

Definition add_tuples (f : string -> string) (out : gmap string Hash) (b : list BucketTuple) : gmap string Hash :=
  fold_left (fun out t => <[f (Key t) := ValueHash t]> out) b out.

Definition collectBindings (cs : CS) (prefix : string) (node : SnapshotNodeData) : option (gmap string Hash) :=
  walk (add_tuples (joinKey prefix)) (links_fuel cs) cs ∅ node.

(** [None] is out of fuel. *)
Definition CollectAllBindings (cs : CS) (nodeHash : Hash) (prefix : string) : option (gmap string Hash) :=
  match LoadTrieNode cs nodeHash with
  | None => Some ∅
  | Some node => collectBindings cs prefix node
  end.

(** ** Diff *)

Record DiffChangeData := mkChange { BaseHash : Hash; TargetHash : Hash }.

(** The four results of [TrieDiff], threaded as the code threads its maps. *)
Record Diff := mkDiff {
  added : gmap string Hash; removed : gmap string Hash; changed : gmap string DiffChangeData; unchanged : Z
}.

Definition add_to (d : Diff) (t : BucketTuple) : Diff :=
  mkDiff (<[Key t := ValueHash t]> (added d)) (removed d) (changed d) (unchanged d).
Definition remove_to (d : Diff) (t : BucketTuple) : Diff :=
  mkDiff (added d) (<[Key t := ValueHash t]> (removed d)) (changed d) (unchanged d).
Definition count_to (d : Diff) (n : nat) : Diff :=
  mkDiff (added d) (removed d) (changed d) (u64 (unchanged d + Z.of_nat n)).
Definition both_to (d : Diff) (a b : BucketTuple) : Diff :=
  if decide (ValueHash a = ValueHash b) then count_to d 1
  else mkDiff (added d) (removed d) (<[Key a := mkChange (ValueHash a) (ValueHash b)]> (changed d)) (unchanged d).

Fixpoint diffBuckets (bucketA : list BucketTuple) : list BucketTuple -> Diff -> Diff :=
  fix go (bucketB : list BucketTuple) (d : Diff) : Diff :=
    match bucketA, bucketB with
    | [], _ => fold_left add_to bucketB d
    | _, [] => fold_left remove_to bucketA d
    | a :: restA, b :: restB =>
        if String.ltb (Key a) (Key b) then diffBuckets restA bucketB (remove_to d a)
        else if String.ltb (Key b) (Key a) then go restB (add_to d b)
        else diffBuckets restA restB (both_to d a b)
    end.

(** The bindings under an entry; a child that is not found has none. *)
Definition entry_tuples (cs : CS) (entry : NodeEntry) : res TrieErr (list BucketTuple) :=
  match entry with
  | BucketEntry b => Ok b
  | LinkEntry h =>
      match LoadTrieNode cs h with
      | None => Ok []
      | Some child => of_option TrieDiverges (CollectSubtreeTuples cs child)
      end
  end.

Definition collectEntryAs (cs : CS) (add : Diff -> BucketTuple -> Diff) (entry : NodeEntry) (d : Diff)
  : res TrieErr Diff :=
  let! tuples := entry_tuples cs entry in Ok (fold_left add tuples d).

Definition countAllBindings (cs : CS) (nodeHash : Hash) : res TrieErr nat :=
  match LoadTrieNode cs nodeHash with None => Ok 0%nat | Some node => of_option TrieDiverges (BranchSize cs node) end.

(** [diff_children] is [diffNodes] on the loaded children. *)
Definition diffEntries (diff_children : SnapshotNodeData -> SnapshotNodeData -> Diff -> res TrieErr Diff)
    (cs : CS) (entryA entryB : NodeEntry) (d : Diff) : res TrieErr Diff :=
  match entryA, entryB with
  | BucketEntry a, BucketEntry b => Ok (diffBuckets a b d)
  | LinkEntry ha, LinkEntry hb =>
      if decide (ha = hb) then let! n := countAllBindings cs ha in Ok (count_to d n)
      else match LoadTrieNode cs ha, LoadTrieNode cs hb with
      | Some childA, Some childB => diff_children childA childB d
      | _, _ => Ok d
      end
  | BucketEntry a, LinkEntry hb =>
      match LoadTrieNode cs hb with
      | None => Ok d
      | Some child => let! b := of_option TrieDiverges (CollectSubtreeTuples cs child) in Ok (diffBuckets a b d)
      end
  | LinkEntry ha, BucketEntry b =>
      match LoadTrieNode cs ha with
      | None => Ok d
      | Some child => let! a := of_option TrieDiverges (CollectSubtreeTuples cs child) in Ok (diffBuckets a b d)
      end
  end.

Definition entry_at (node : SnapshotNodeData) (p : nat) : res TrieErr NodeEntry :=
  let! idx := panic (PopcountBelow (Map_ node) p) in panic (Data_ node !! idx).

(** The positions set in either bitmap, ascending. *)
Definition combined_positions (a b : SnapshotNodeData) : res TrieErr (list nat) :=
  let! ua := panic (BitmapU32 (Map_ a)) in
  let! ub := panic (BitmapU32 (Map_ b)) in
  Ok (List.filter (fun p => Z.testbit (Z.lor ua ub) (Z.of_nat p)) (seq 0 K)).

(** The body of the loop over positions; [diff_children] as above. *)
Definition diff_position (diff_children : SnapshotNodeData -> SnapshotNodeData -> Diff -> res TrieErr Diff)
    (cs : CS) (a b : SnapshotNodeData) (p : nat) (d : Diff) : res TrieErr Diff :=
  let! hasA := panic (BitmapGet (Map_ a) p) in
  let! hasB := panic (BitmapGet (Map_ b) p) in
  match hasA, hasB with
  | true, false => let! e := entry_at a p in collectEntryAs cs remove_to e d
  | false, true => let! e := entry_at b p in collectEntryAs cs add_to e d
  | _, _ => let! entryA := entry_at a p in let! entryB := entry_at b p in diffEntries diff_children cs entryA entryB d
  end.

Fixpoint diff_positions (diff_children : SnapshotNodeData -> SnapshotNodeData -> Diff -> res TrieErr Diff)
    (cs : CS) (a b : SnapshotNodeData) (ps : list nat) (d : Diff) : res TrieErr Diff :=
  match ps with
  | [] => Ok d
  | p :: rest => let! d := diff_position diff_children cs a b p d in diff_positions diff_children cs a b rest d
  end.

Fixpoint diffNodes (fuel : nat) (cs : CS) (a b : SnapshotNodeData) (d : Diff) : res TrieErr Diff :=
  match fuel with
  | O => Err TrieDiverges
  | S fuel' =>
      let! positions := combined_positions a b in
      diff_positions (fun a b d => diffNodes fuel' cs a b d) cs a b positions d
  end.

Definition no_diff : Diff := mkDiff ∅ ∅ ∅ 0.

Definition TrieDiff (cs : CS) (rootA rootB : Hash) : res TrieErr Diff :=
  if decide (rootA = rootB) then let! n := countAllBindings cs rootA in Ok (count_to no_diff n)
  else match LoadTrieNode cs rootA, LoadTrieNode cs rootB with
  | None, None => Ok no_diff
  | None, Some _ =>
      let! m := of_option TrieDiverges (CollectAllBindings cs rootB "") in Ok (mkDiff m ∅ ∅ 0)
  | Some _, None =>
      let! m := of_option TrieDiverges (CollectAllBindings cs rootA "") in Ok (mkDiff ∅ m ∅ 0)
  | Some nodeA, Some nodeB => diffNodes (links_fuel cs) cs nodeA nodeB no_diff
  end.
End trie.
