(* ===== verification/TrieSpec.v ===== *)
(** * The canonical form of the snapshot trie

    What a trie for a set of bindings has to be, as a function of the bindings
    alone ([reference]), and the facts about bitmaps, slots and sorted buckets
    that relate the code's nodes to it. *)

From Stdlib Require Import Ascii.
From S2P Require Import Prelude GoStrings Sha2 Errors Hash Entity Store Trie.

Open Scope nat_scope.

(** ** Bitmaps *)

Definition bit (bm : list byte) (p : nat) : bool := match BitmapGet bm p with Some b => b | None => false end.

Definition byte_bit (b : byte) (i : nat) : bool := Z.testbit (bZ b) (Z.of_nat i).

Lemma land_single z i : (0 <= i)%Z -> negb (Z.land z (Z.shiftl 1 i) =? 0)%Z = Z.testbit z i.
Proof.
  intros Hi. rewrite Z.shiftl_1_l. destruct (Z.testbit z i) eqn:E.
  - apply negb_true_iff, Z.eqb_neq. intros Hz.
    assert (Hb : Z.testbit (Z.land z (2 ^ i)) i = false) by (by rewrite Hz, Z.bits_0).
    rewrite Z.land_spec, E, Z.pow2_bits_true in Hb by lia. done.
  - apply negb_false_iff, Z.eqb_eq. apply Z.bits_inj'. intros n Hn.
    rewrite Z.land_spec, Z.bits_0, Z.pow2_bits_eqb by lia.
    destruct (Z.eqb_spec i n) as [->|]; [by rewrite E|by rewrite andb_false_r].
Qed.

Lemma BitmapGet_spec bm p :
  BitmapGet bm p = (fun b => byte_bit b (p mod 8)) <$> bm !! (3 - p / 8).
Proof.
  unfold BitmapGet, byte_bit. change (BitmapBytes - 1) with 3. destruct (bm !! (3 - p / 8)) as [b|]; [|done].
  cbn. by rewrite land_single by lia.
Qed.

Lemma four_bytes (bm : list byte) : length bm = 4 -> exists a b c d, bm = [a; b; c; d].
Proof. destruct bm as [|a [|b [|c [|d [|]]]]]; try done. by exists a, b, c, d. Qed.

Lemma bit_get bm p : length bm = 4 -> BitmapGet bm p = Some (bit bm p).
Proof.
  intros Hl. unfold bit. rewrite BitmapGet_spec.
  destruct (lookup_lt_is_Some_2 bm (3 - p / 8)) as [b ->]; [lia|done].
Qed.

Lemma testbit_byte b i : (8 <= i)%Z -> Z.testbit (bZ b) i = false.
Proof.
  intros Hi. pose proof (bZ_range b). destruct (Z.eq_dec (bZ b) 0%Z) as [->|]; [apply Z.bits_0|].
  apply Z.bits_above_log2; [lia|]. pose proof (proj1 (Z.log2_lt_pow2 (bZ b) 8 ltac:(lia))). lia.
Qed.

Lemma BitmapU32_spec bm :
  length bm = 4 -> exists u, BitmapU32 bm = Some u /\ forall i, i < 32 -> Z.testbit u (Z.of_nat i) = bit bm i.
Proof.
  intros (a & b & c & d & ->)%four_bytes. eexists. split; [done|]. intros i Hi.
  unfold bit. rewrite BitmapGet_spec. rewrite !Z.lor_spec, !Z.shiftl_spec by lia.
  assert (Hd : i = 8 * (i / 8) + i mod 8) by (apply Nat.div_mod_eq).
  pose proof (Nat.mod_upper_bound i 8 ltac:(done)) as Hm.
  assert (Hq : i / 8 = 0 \/ i / 8 = 1 \/ i / 8 = 2 \/ i / 8 = 3) by lia.
  remember (i / 8) as q eqn:Eq. remember (i mod 8) as m eqn:Em. clear Eq Em.
  destruct Hq as [-> |[-> |[-> | ->]]]; cbn [Nat.sub lookup list_lookup fmap option_fmap option_map];
    unfold byte_bit; try rewrite (Z.testbit_neg_r _ (Z.of_nat i - 24)) by lia;
    try rewrite (Z.testbit_neg_r _ (Z.of_nat i - 16)) by lia; try rewrite (Z.testbit_neg_r _ (Z.of_nat i - 8)) by lia.
  all: repeat match goal with |- context [Z.testbit (bZ ?x) ?j] =>
         rewrite (testbit_byte x j) by lia end; rewrite ?orb_false_r, ?orb_false_l.
  all: cbn; f_equal; lia.
Qed.

Lemma filter_ext_in {A} (f g : A -> bool) l :
  (forall x, x ∈ l -> f x = g x) -> List.filter f l = List.filter g l.
Proof. intros Hfg. apply List.filter_ext_in. intros x Hx. apply Hfg. by apply list_elem_of_In. Qed.

Lemma PopcountBelow_spec bm p :
  length bm = 4 -> p < 32 -> PopcountBelow bm p = Some (length (List.filter (bit bm) (seq 0 p))).
Proof.
  intros Hl Hp. unfold PopcountBelow. destruct (BitmapU32_spec bm Hl) as (u & -> & Hu). f_equal.
  unfold OnesCount32. replace 32 with (p + (32 - p)) by lia. rewrite seq_app, List.filter_app, length_app.
  assert (Hmask : forall i, Z.testbit (Z.land u (Z.shiftl 1 (Z.of_nat p) - 1)) (Z.of_nat i)
                            = Z.testbit u (Z.of_nat i) && (i <? p)).
  { intros i. rewrite Z.land_spec. f_equal. rewrite Z.shiftl_1_l, Z.sub_1_r, <- Z.ones_equiv.
    destruct (Nat.ltb_spec i p); [apply Z.ones_spec_low; lia|apply Z.ones_spec_high; lia]. }
  rewrite (filter_ext_in _ (bit bm) (seq 0 p)).
  2:{ intros i Hi%list_elem_of_In%in_seq. rewrite Hmask, Hu by lia.
      destruct (Nat.ltb_spec i p); [apply andb_true_r|lia]. }
  rewrite (filter_ext_in _ (fun _ => false) (seq (0 + p) (32 - p))).
  2:{ intros i Hi%list_elem_of_In%in_seq. rewrite Hmask.
      destruct (Nat.ltb_spec i p); [lia|apply andb_false_r]. }
  assert (Hnil : forall l : list nat, List.filter (fun _ => false) l = []) by (by induction l).
  rewrite Hnil. simpl. lia.
Qed.

Lemma Zb_testbit z i : i < 8 -> Z.testbit (bZ (Zb z)) (Z.of_nat i) = Z.testbit z (Z.of_nat i).
Proof. intros Hi. rewrite bZ_Zb. change 256%Z with (2 ^ 8)%Z. apply Z.mod_pow2_bits_low. lia. Qed.

(** Updating the byte of position [p] by [f] changes bit [p] alone. *)
Lemma byte_update_bit bm p q (f : Z -> Z) v :
  length bm = 4 -> p < 32 -> q < 32 ->
  (forall z i, i < 8 -> Z.testbit (f z) (Z.of_nat i) = if decide (i = p mod 8) then v else Z.testbit z (Z.of_nat i)) ->
  match bm !! (3 - p / 8) with
  | Some b => bit (<[3 - p / 8 := Zb (f (bZ b))]> bm) q
  | None => false
  end = if decide (p = q) then v else bit bm q.
Proof.
  intros Hl Hp Hq Hf. pose proof (Nat.mod_upper_bound q 8 ltac:(done)).
  pose proof (Nat.div_mod_eq p 8). pose proof (Nat.div_mod_eq q 8).
  destruct (lookup_lt_is_Some_2 bm (3 - p / 8)) as [b Hb]; [lia|]. rewrite Hb.
  unfold bit. rewrite !BitmapGet_spec. destruct (decide (p / 8 = q / 8)) as [He|Hne].
  - rewrite <- He, list_lookup_insert_eq, Hb by lia. cbn [fmap option_fmap option_map]. unfold byte_bit. rewrite Zb_testbit, Hf by done.
    case_decide; case_decide; try done; lia.
  - rewrite list_lookup_insert_ne by lia. case_decide; [subst; done|done].
Qed.

Lemma BitmapSet_spec bm p :
  length bm = 4 -> p < 32 -> exists bm', BitmapSet bm p = Some bm' /\ length bm' = 4
    /\ forall q, q < 32 -> bit bm' q = if decide (p = q) then true else bit bm q.
Proof.
  intros Hl Hp. unfold BitmapSet. change (BitmapBytes - 1) with 3.
  pose proof (byte_update_bit bm p) as Hb.
  destruct (lookup_lt_is_Some_2 bm (3 - p / 8)) as [b Hbm]; [lia|]. rewrite Hbm in *.
  eexists. split_and!; [done|by rewrite length_insert|]. intros q Hq.
  apply (Hb q (fun z => Z.lor z (Z.shiftl 1 (Z.of_nat (p mod 8))))); [done..|]. intros z i Hi.
  rewrite Z.lor_spec, Z.shiftl_1_l, Z.pow2_bits_eqb by lia.
  case_decide as Hd; [subst; by rewrite Z.eqb_refl, orb_true_r|].
  destruct (Z.eqb_spec (Z.of_nat (p mod 8)) (Z.of_nat i)); [lia|apply orb_false_r].
Qed.

Lemma BitmapClear_spec bm p :
  length bm = 4 -> p < 32 -> exists bm', BitmapClear bm p = Some bm' /\ length bm' = 4
    /\ forall q, q < 32 -> bit bm' q = if decide (p = q) then false else bit bm q.
Proof.
  intros Hl Hp. unfold BitmapClear. change (BitmapBytes - 1) with 3.
  pose proof (byte_update_bit bm p) as Hb.
  destruct (lookup_lt_is_Some_2 bm (3 - p / 8)) as [b Hbm]; [lia|]. rewrite Hbm in *.
  eexists. split_and!; [done|by rewrite length_insert|]. intros q Hq.
  apply (Hb q (fun z => Z.ldiff z (Z.shiftl 1 (Z.of_nat (p mod 8))))); [done..|]. intros z i Hi.
  rewrite Z.ldiff_spec, Z.shiftl_1_l, Z.pow2_bits_eqb by lia.
  case_decide as Hd; [subst; by rewrite Z.eqb_refl, andb_false_r|].
  destruct (Z.eqb_spec (Z.of_nat (p mod 8)) (Z.of_nat i)); [lia|apply andb_true_r].
Qed.

Lemma bitmap_ext bm bm' :
  length bm = 4 -> length bm' = 4 -> (forall q, q < 32 -> bit bm q = bit bm' q) -> bm = bm'.
Proof.
  intros Hl Hl' Hb. apply list_eq_same_length with 4; [done..|]. intros j b b' Hj Hbj Hbj'.
  apply bZ_inj, Z.bits_inj'. intros n Hn. destruct (decide (8 <= n)%Z) as [|Hn8]; [by rewrite !testbit_byte|].
  specialize (Hb (8 * (3 - j) + Z.to_nat n) ltac:(lia)). unfold bit in Hb. rewrite !BitmapGet_spec in Hb.
  replace ((8 * (3 - j) + Z.to_nat n) / 8) with (3 - j) in Hb
    by (rewrite (Nat.mul_comm 8), Nat.div_add_l, Nat.div_small by lia; lia).
  replace ((8 * (3 - j) + Z.to_nat n) mod 8) with (Z.to_nat n) in Hb
    by (rewrite Nat.add_comm, (Nat.mul_comm 8), Nat.Div0.mod_add, Nat.mod_small by lia; done).
  replace (3 - (3 - j)) with j in Hb by lia. rewrite Hbj, Hbj' in Hb. cbn in Hb. unfold byte_bit in Hb.
  by rewrite Z2Nat.id in Hb by lia.
Qed.

(** ** Slots

    A node is its 32 slots: the bitmap says which are occupied and the data
    lists their entries in order. *)

Definition occupied (es : list (option NodeEntry)) (p : nat) : bool :=
  match es !! p with Some (Some _) => true | _ => false end.

Definition bitmap_of (es : list (option NodeEntry)) : list byte :=
  fold_left (fun bm p => if occupied es p then default bm (BitmapSet bm p) else bm) (seq 0 K)
    (replicate BitmapBytes Byte.x00).

Definition node_of (es : list (option NodeEntry)) : SnapshotNodeData := mkNode (bitmap_of es) (omap id es).

(** The place of slot [p] in the data. *)
Definition index (es : list (option NodeEntry)) (p : nat) : nat := length (omap id (take p es)).

Lemma bitmap_fold es l bm :
  length bm = 4 -> (forall p, p ∈ l -> p < 32) ->
  let bm' := fold_left (fun bm p => if occupied es p then default bm (BitmapSet bm p) else bm) l bm in
  length bm' = 4 /\ forall q, q < 32 -> bit bm' q = bit bm q || (bool_decide (q ∈ l) && occupied es q).
Proof.
  revert bm. induction l as [|p l IH]; intros bm Hl Hr; cbn [fold_left].
  { split; [done|]. intros q _. rewrite bool_decide_false by (by intros ?%elem_of_nil). by rewrite orb_false_r. }
  assert (Hstep : exists bm1, (if occupied es p then default bm (BitmapSet bm p) else bm) = bm1 /\ length bm1 = 4
    /\ forall q, q < 32 -> bit bm1 q = if decide (p = q) then bit bm q || occupied es q else bit bm q).
  { destruct (occupied es p) eqn:Ho.
    - destruct (BitmapSet_spec bm p Hl) as (bm1 & -> & Hl1 & Hb); [apply Hr; left|]. exists bm1. split_and!; [done..|].
      intros q Hq. rewrite Hb by done. case_decide; [subst; by rewrite Ho, orb_true_r|done].
    - exists bm. split_and!; [done..|]. intros q Hq. case_decide; [subst; by rewrite Ho, orb_false_r|done]. }
  destruct Hstep as (bm1 & -> & Hl1 & Hb1). destruct (IH bm1 Hl1) as [Hl' Hb']; [intros; apply Hr; by right|].
  split; [done|]. intros q Hq. rewrite Hb', Hb1 by done. case_decide as Hpq.
  - subst q. rewrite (bool_decide_true (p ∈ p :: l)) by left. cbn [andb].
    destruct (bit bm p), (occupied es p), (bool_decide (p ∈ l)); done.
  - rewrite (bool_decide_ext (q ∈ p :: l) (q ∈ l)); [done|]. rewrite elem_of_cons. intuition congruence.
Qed.

Lemma bitmap_of_spec es :
  length (bitmap_of es) = 4 /\ forall q, q < 32 -> bit (bitmap_of es) q = occupied es q.
Proof.
  destruct (bitmap_fold es (seq 0 K) (replicate BitmapBytes Byte.x00)) as [Hl Hb]; [done| |].
  { intros p Hp%list_elem_of_In%in_seq. unfold K in Hp. lia. }
  split; [exact Hl|]. intros q Hq. unfold bitmap_of. rewrite Hb by done.
  rewrite bool_decide_true by (apply list_elem_of_In, in_seq; unfold K; lia).
  replace (bit (replicate BitmapBytes Byte.x00) q) with false; [done|].
  unfold bit. rewrite BitmapGet_spec. change (replicate BitmapBytes Byte.x00) with (replicate 4 Byte.x00).
  rewrite lookup_replicate_2 by (pose proof (Nat.Div0.div_le_mono q 32 8); lia). cbn [fmap option_fmap option_map].
  unfold byte_bit. by rewrite Z.bits_0.
Qed.

Lemma bitmap_of_eq es bm :
  length bm = 4 -> (forall q, q < 32 -> bit bm q = occupied es q) -> bm = bitmap_of es.
Proof.
  intros Hl Hb. destruct (bitmap_of_spec es) as [Hl' Hb']. apply bitmap_ext; [done..|].
  intros q Hq. by rewrite Hb, Hb'.
Qed.

Lemma count_occupied es p :
  p <= length es -> length (List.filter (occupied es) (seq 0 p)) = index es p.
Proof.
  unfold index. induction p as [|p IH]; [done|]. intros Hp.
  destruct (lookup_lt_is_Some_2 es p) as [o Ho]; [lia|].
  rewrite seq_S, List.filter_app, length_app, IH, (take_S_r es p o) by (done || lia).
  rewrite omap_app, length_app. f_equal. cbn [List.filter Nat.add]. unfold occupied. rewrite Ho. by destruct o.
Qed.

Section slots.
Context (es : list (option NodeEntry)) (p : nat).
Context (Hlen : length es = 32) (Hp : p < 32).

Lemma slot_bit : BitmapGet (Map_ (node_of es)) p = Some (occupied es p).
Proof. destruct (bitmap_of_spec es) as [Hl Hb]. cbn [Map_ node_of]. rewrite bit_get by done. by rewrite Hb. Qed.

Lemma slot_popcount : PopcountBelow (Map_ (node_of es)) p = Some (index es p).
Proof.
  destruct (bitmap_of_spec es) as [Hl Hb]. cbn [Map_ node_of]. rewrite PopcountBelow_spec by done. f_equal.
  rewrite <- count_occupied by lia. f_equal. apply filter_ext_in. intros q Hq%list_elem_of_In%in_seq. apply Hb. lia.
Qed.

Lemma slots_split o : es !! p = Some o -> es = take p es ++ o :: drop (S p) es.
Proof. intros Ho. symmetry. by apply take_drop_middle. Qed.

Lemma omap_insert_slot o o' :
  es !! p = Some o ->
  omap id es = omap id (take p es) ++ option_list o ++ omap id (drop (S p) es)
  /\ omap id (<[p := o']> es) = omap id (take p es) ++ option_list o' ++ omap id (drop (S p) es).
Proof.
  intros Ho. split.
  - rewrite (slots_split o Ho) at 1. rewrite omap_app. f_equal. by destruct o.
  - rewrite insert_take_drop by lia. rewrite omap_app. f_equal. by destruct o'.
Qed.

Lemma slot_entry e : es !! p = Some (Some e) -> Data_ (node_of es) !! index es p = Some e.
Proof.
  intros Ho. cbn [Data_ node_of]. destruct (omap_insert_slot _ None Ho) as [-> _]. cbn [option_list option_rect app].
  unfold index. by rewrite list_lookup_middle.
Qed.

Lemma occupied_insert o q : occupied (<[p := o]> es) q
  = if decide (p = q) then match o with Some _ => true | None => false end else occupied es q.
Proof.
  unfold occupied. case_decide as Hd.
  - subst q. by rewrite list_lookup_insert_eq by lia.
  - by rewrite list_lookup_insert_ne.
Qed.

Lemma slot_replace e e' :
  es !! p = Some (Some e) ->
  node_with (Some (Map_ (node_of es))) (replaceEntry (Data_ (node_of es)) (index es p) e')
  = Ok (node_of (<[p := Some e']> es)).
Proof.
  intros Ho. destruct (omap_insert_slot _ (Some e') Ho) as [Hd Hd']. cbn [option_list option_rect app] in *.
  unfold replaceEntry. cbn [Data_ node_of Map_]. rewrite Hd. unfold index.
  case_match eqn:Hx; [|apply Nat.ltb_ge in Hx; rewrite length_app in Hx; simpl in Hx; lia]. clear Hx.
  unfold node_with, panic. cbn [of_option res_bind]. unfold node_of at 1. f_equal. f_equal.
  - apply bitmap_of_eq; [apply bitmap_of_spec|]. intros q Hq. rewrite (proj2 (bitmap_of_spec es)) by done.
    rewrite occupied_insert. case_decide; [subst; unfold occupied; by rewrite Ho|done].
  - rewrite Hd'. cbn [app]. by rewrite insert_app_r_alt, Nat.sub_diag by lia.
Qed.

Lemma slot_fill e :
  es !! p = Some None ->
  node_with (BitmapSet (Map_ (node_of es)) p) (insertEntry (Data_ (node_of es)) (index es p) e)
  = Ok (node_of (<[p := Some e]> es)).
Proof.
  intros Ho. destruct (omap_insert_slot _ (Some e) Ho) as [Hd Hd']. cbn [option_list option_rect app] in *.
  destruct (bitmap_of_spec es) as [Hl Hb]. destruct (BitmapSet_spec (bitmap_of es) p Hl Hp) as (bm & Hbm & Hlb & Hbb).
  unfold insertEntry. cbn [Data_ node_of Map_]. rewrite Hbm, Hd. unfold index.
  case_match eqn:Hx; [|apply Nat.leb_gt in Hx; rewrite length_app in Hx; lia]. clear Hx.
  unfold node_with, panic. cbn [of_option res_bind]. unfold node_of. f_equal. f_equal.
  - apply bitmap_of_eq; [done|]. intros q Hq. rewrite Hbb, occupied_insert by done. case_decide; [done|by apply Hb].
  - by rewrite Hd', take_app_length, drop_app_length.
Qed.

Lemma slot_clear e :
  es !! p = Some (Some e) ->
  node_with (BitmapClear (Map_ (node_of es)) p) (removeEntryAt (Data_ (node_of es)) (index es p))
  = Ok (node_of (<[p := None]> es)).
Proof.
  intros Ho. destruct (omap_insert_slot _ None Ho) as [Hd Hd']. cbn [option_list option_rect app] in *.
  destruct (bitmap_of_spec es) as [Hl Hb]. destruct (BitmapClear_spec (bitmap_of es) p Hl Hp) as (bm & Hbm & Hlb & Hbb).
  unfold removeEntryAt. cbn [Data_ node_of Map_]. rewrite Hbm, Hd. unfold index.
  case_match eqn:Hx; [|apply Nat.ltb_ge in Hx; rewrite length_app in Hx; simpl in Hx; lia]. clear Hx.
  unfold node_with, panic. cbn [of_option res_bind]. unfold node_of. f_equal. f_equal.
  - apply bitmap_of_eq; [done|]. intros q Hq. rewrite Hbb, occupied_insert by done. case_decide; [done|by apply Hb].
  - rewrite Hd', take_app_length. f_equal. cbn [app]. by rewrite cons_middle, app_assoc, drop_app_length' by (rewrite length_app; simpl; lia).
Qed.
End slots.

(** ** Sorted buckets *)

Definition key_lt (a b : BucketTuple) : Prop := String.ltb (Key a) (Key b) = true.
Definition sorted (l : list BucketTuple) : Prop := StronglySorted key_lt l.

Lemma ltb_leb a b : String.ltb a b = true <-> String.leb a b = true /\ a <> b.
Proof.
  unfold String.ltb, String.leb. destruct (String.compare a b) eqn:E.
  - apply String.compare_eq_iff in E. subst. split; [done|by intros [_ ?]].
  - split; [|done]. intros _. split; [done|]. intros ->.
    pose proof (String.compare_antisym b b) as Ha. by rewrite E in Ha.
  - split; [done|by intros [? _]].
Qed.

Lemma ltb_irrefl a : String.ltb a a = false.
Proof. destruct (String.ltb a a) eqn:E; [|done]. by apply ltb_leb in E as [_ ?]. Qed.

Lemma ltb_trans a b c : String.ltb a b = true -> String.ltb b c = true -> String.ltb a c = true.
Proof.
  rewrite !ltb_leb. intros [Hab Hne] [Hbc Hne']. split; [by eapply leb_trans|]. intros ->.
  by pose proof (String.leb_antisym _ _ Hab Hbc).
Qed.

Lemma ltb_total a b : String.ltb a b = true \/ a = b \/ String.ltb b a = true.
Proof.
  rewrite !ltb_leb. destruct (decide (a = b)); [by auto|]. destruct (String.leb_total a b); [left|right; right]; auto.
Qed.

Lemma sorted_app l1 l2 :
  sorted (l1 ++ l2) <-> sorted l1 /\ sorted l2 /\ forall a b, a ∈ l1 -> b ∈ l2 -> key_lt a b.
Proof.
  unfold sorted. induction l1 as [|x l1 IH]; cbn [app].
  { split; [|by intros (_ & ? & _)]. intros. split_and!; [constructor|done|by intros a b ?%elem_of_nil]. }
  split.
  - intros [Hs Hf]%StronglySorted_inv. apply IH in Hs as (H1 & H2 & H3).
    apply Forall_app in Hf as [Hf1 Hf2]. split_and!; [by constructor|done|].
    intros a b [->|Ha]%elem_of_cons Hb; [|by apply H3]. by eapply Forall_forall in Hf2.
  - intros ([H1 Hf]%StronglySorted_inv & H2 & H3). constructor.
    + apply IH. split_and!; [done..|]. intros a b Ha Hb. apply H3; [by right|done].
    + apply Forall_app. split; [done|]. apply Forall_forall. intros b Hb. apply H3; [by left|done].
Qed.

(** Two sorted lists with the same elements are equal. *)
Lemma sorted_ext l1 l2 : sorted l1 -> sorted l2 -> (forall t, t ∈ l1 <-> t ∈ l2) -> l1 = l2.
Proof.
  intros H1 H2 He. eapply StronglySorted_unique_strong with (R := key_lt); [|exact H1|exact H2|].
  - intros x y _ _ Hxy Hyx. exfalso. unfold key_lt in *. pose proof (ltb_trans _ _ _ Hxy Hyx) as Hx.
    by rewrite ltb_irrefl in Hx.
  - assert (Hnd : forall l, sorted l -> NoDup l).
    { induction l as [|a l IH]; intros Hs; [constructor|]. apply StronglySorted_inv in Hs as [Hs Hf].
      constructor; [|by apply IH]. intros Ha. eapply Forall_forall in Hf; [|exact Ha]. unfold key_lt in Hf.
      by rewrite ltb_irrefl in Hf. }
    apply NoDup_Permutation; auto.
Qed.

Lemma sorted_key_inj l a b : sorted l -> a ∈ l -> b ∈ l -> Key a = Key b -> a = b.
Proof.
  induction l as [|x l IH]; intros Hs; [by intros ?%elem_of_nil|].
  apply StronglySorted_inv in Hs as [Hs Hf]. rewrite Forall_forall in Hf. unfold key_lt in Hf.
  intros [->|Ha]%elem_of_cons [->|Hb]%elem_of_cons Hk; [done|..|by apply IH].
  - specialize (Hf b Hb). by rewrite Hk, ltb_irrefl in Hf.
  - specialize (Hf a Ha). by rewrite Hk, ltb_irrefl in Hf.
Qed.

Lemma search_loop_spec fuel f i j :
  (forall x y, x <= y -> f x = true -> f y = true) ->
  (forall x, x < i -> f x = false) -> f j = true -> i <= j -> j - i <= fuel ->
  let r := search_loop fuel f i j in r <= j /\ (forall x, x < r -> f x = false) /\ f r = true.
Proof.
  intros Hmono. revert i j. induction fuel as [|fuel IH]; intros i j Hlo Hhi Hij Hf; cbn [search_loop].
  { assert (i = j) as -> by lia. done. }
  destruct (Nat.ltb_spec i j) as [Hlt|]; [|assert (i = j) as -> by lia; done].
  assert (Hh : i <= (i + j) / 2 < j).
  { split; [apply Nat.div_le_lower_bound; lia|apply Nat.Div0.div_lt_upper_bound; lia]. }
  destruct (f ((i + j) / 2)) eqn:E; cbn [negb].
  - destruct (IH i ((i + j) / 2)) as (Hr & H1 & H2); [done|done|lia|lia|]. split_and!; [lia|done..].
  - apply IH; [|done|lia|lia]. intros x Hx. destruct (f x) eqn:Ex; [|done].
    by rewrite (Hmono x ((i + j) / 2) ltac:(lia) Ex) in E.
Qed.

(** The binary search splits a sorted bucket at the key. *)
Lemma bucket_index_spec l k :
  sorted l -> exists l1 l2, l = l1 ++ l2 /\ bucket_index l k = length l1
    /\ (forall t, t ∈ l1 -> String.ltb (Key t) k = true) /\ (forall t, t ∈ l2 -> String.ltb (Key t) k = false).
Proof.
  intros Hs. unfold bucket_index, sort_Search.
  set (f := fun i => match l !! i with Some t => negb (String.ltb (Key t) k) | None => true end).
  assert (Hmono : forall x y, x <= y -> f x = true -> f y = true).
  { intros x y Hxy. unfold f. destruct (l !! y) as [b|] eqn:Hy; [|done].
    destruct (l !! x) as [a|] eqn:Hx; [|apply lookup_ge_None in Hx; apply lookup_lt_Some in Hy; lia].
    destruct (decide (x = y)) as [->|]; [congruence|]. rewrite !negb_true_iff. intros Ha.
    destruct (String.ltb (Key b) k) eqn:Hb; [|done]. rewrite <- Ha. symmetry.
    eapply ltb_trans; [|exact Hb]. rewrite <- (take_drop y l) in Hs. apply sorted_app in Hs as (_ & _ & Hs).
    apply Hs; [apply list_elem_of_lookup; exists x; rewrite lookup_take_lt; [done|lia]|].
    apply list_elem_of_lookup. exists 0. rewrite lookup_drop, Nat.add_0_r. done. }
  destruct (search_loop_spec (length l) f 0 (length l) Hmono) as (Hr & Hlo & Hhi); [lia| |lia|lia|].
  { unfold f. by rewrite lookup_ge_None_2. }
  set (r := search_loop (length l) f 0 (length l)) in *.
  exists (take r l), (drop r l). rewrite take_drop, length_take. split_and!; [done|lia| |].
  - intros t [x Hx]%list_elem_of_lookup. apply lookup_take_Some in Hx as [Hx Hlt]. specialize (Hlo x Hlt).
    unfold f in Hlo. rewrite Hx in Hlo. by apply negb_false_iff in Hlo.
  - intros t [x Hx]%list_elem_of_lookup. rewrite lookup_drop in Hx.
    specialize (Hmono r (r + x) ltac:(lia) Hhi). unfold f in Hmono. rewrite Hx in Hmono.
    by apply negb_true_iff in Hmono.
Qed.

(** The three cases of a key in a sorted bucket. *)
Lemma bucket_split l k :
  sorted l ->
  (exists l1 v l2, l = l1 ++ mkTuple k v :: l2 /\ bucket_index l k = length l1 /\ key_at l (length l1) k = true)
  \/ ((forall t, t ∈ l -> Key t <> k) /\ key_at l (bucket_index l k) k = false
      /\ exists l1 l2, l = l1 ++ l2 /\ bucket_index l k = length l1
         /\ (forall t, t ∈ l1 -> String.ltb (Key t) k = true) /\ (forall t, t ∈ l2 -> String.ltb k (Key t) = true)).
Proof.
  intros Hs. destruct (bucket_index_spec l k Hs) as (l1 & l2 & -> & Hi & H1 & H2).
  assert (Hl1 : forall t, t ∈ l1 -> Key t <> k).
  { intros t Ht Hk. specialize (H1 t Ht). by rewrite Hk, ltb_irrefl in H1. }
  assert (Hat : key_at (l1 ++ l2) (length l1) k = match l2 with t :: _ => String.eqb (Key t) k | [] => false end).
  { unfold key_at. rewrite lookup_app_r, Nat.sub_diag by lia. by destruct l2. }
  destruct l2 as [|[k' v] l2]; cbn [Key] in Hat.
  - right. rewrite app_nil_r in *. rewrite Hi. split_and!; [done|by rewrite Hat|]. exists l1, [].
    rewrite app_nil_r. split_and!; [done..|]. by intros t ?%elem_of_nil.
  - destruct (String.eqb_spec k' k) as [->|Hne].
    + left. by exists l1, v, l2.
    + right. assert (Hgt : forall t, t ∈ mkTuple k' v :: l2 -> String.ltb k (Key t) = true).
      { pose proof (H2 (mkTuple k' v) ltac:(left)) as Hk'. cbn [Key] in Hk'.
        destruct (ltb_total k k') as [Hlt|[Heq|Hlt]]; [|congruence|congruence].
        apply sorted_app in Hs as (_ & Hs & _). apply StronglySorted_inv in Hs as [_ Hf]. rewrite Forall_forall in Hf.
        intros t [->|Ht]%elem_of_cons; [done|]. eapply ltb_trans; [exact Hlt|]. by apply Hf. }
      rewrite Hi. split_and!; [|done|by exists l1, (mkTuple k' v :: l2)].
      intros t [Ht|Ht]%elem_of_app; [by apply Hl1|]. intros Hk. specialize (Hgt t Ht). by rewrite Hk, ltb_irrefl in Hgt.
Qed.

Lemma BucketFind_spec l k v : sorted l -> BucketFind l k = Some v <-> mkTuple k v ∈ l.
Proof.
  intros Hs. unfold BucketFind.
  destruct (bucket_split l k Hs) as [(l1 & v' & l2 & He & Hi & Ha)|(Hn & Ha & _)].
  - rewrite Hi. rewrite He at 1. rewrite list_lookup_middle by done. cbn [Key ValueHash].
    rewrite String.eqb_refl. split.
    + intros [= ->]. rewrite He. apply elem_of_app. right. left.
    + intros Hin. assert (mkTuple k v' ∈ l) as Hin' by (rewrite He; apply elem_of_app; right; left).
      pose proof (sorted_key_inj _ _ _ Hs Hin Hin' eq_refl). congruence.
  - unfold key_at in Ha. split.
    + destruct (l !! _) as [t|]; [|done]. by rewrite Ha.
    + intros Hin. by destruct (Hn _ Hin).
Qed.

Lemma BucketInsert_spec l k v :
  sorted l -> sorted (BucketInsert l k v)
  /\ (forall t, t ∈ BucketInsert l k v <-> t = mkTuple k v \/ t ∈ l /\ Key t <> k)
  /\ length (BucketInsert l k v) = match BucketFind l k with Some _ => length l | None => S (length l) end.
Proof.
  intros Hs. unfold BucketInsert, BucketFind.
  destruct (bucket_split l k Hs) as [(l1 & v' & l2 & He & Hi & Ha)|(Hn & Ha & l1 & l2 & He & Hi & H1 & H2)].
  - rewrite Hi, Ha. rewrite He. rewrite list_lookup_middle by done. cbn [Key]. rewrite String.eqb_refl.
    rewrite insert_app_r_alt, Nat.sub_diag by lia. cbn [list_insert insert].
    rewrite He in Hs. apply sorted_app in Hs as (Hs1 & Hs2 & Hs3). apply StronglySorted_inv in Hs2 as [Hs2 Hf].
    split_and!.
    + apply sorted_app. split_and!; [done|by constructor|]. intros a b Ha' [->|Hb]%elem_of_cons.
      * apply (Hs3 a (mkTuple k v') Ha'). left.
      * apply Hs3; [done|by right].
    + intros t. rewrite !elem_of_app, !elem_of_cons. rewrite Forall_forall in Hf. split.
      * intros [Ht|[->|Ht]]; [right|by left|right].
        -- split; [by left|]. intros Hk. specialize (Hs3 t (mkTuple k v') Ht ltac:(left)).
           unfold key_lt in Hs3. cbn in Hs3. by rewrite Hk, ltb_irrefl in Hs3.
        -- split; [by right; right|]. intros Hk. specialize (Hf t Ht). unfold key_lt in Hf. cbn in Hf.
           by rewrite Hk, ltb_irrefl in Hf.
      * intros [->|[[Ht|[->|Ht]] Hk]]; auto. by destruct Hk.
    + by rewrite !length_app.
  - rewrite Ha. rewrite Hi. rewrite He in *. rewrite take_app_length, drop_app_length.
    apply sorted_app in Hs as (Hs1 & Hs2 & Hs3). split_and!.
    + apply sorted_app. split_and!; [done| |].
      * constructor; [done|]. apply Forall_forall. exact H2.
      * intros a b Ha' [->|Hb]%elem_of_cons; [by apply H1|by apply Hs3].
    + intros t. rewrite !elem_of_app, !elem_of_cons. split.
      * intros [Ht|[->|Ht]]; [right|by left|right]; (split; [auto|]); apply Hn, elem_of_app; auto.
      * intros [->|[[Ht|Ht] _]]; auto.
    + unfold key_at in Ha. rewrite Hi in Ha. destruct (_ !! _) as [t|]; [rewrite Ha|];
        rewrite !length_app; simpl; lia.
Qed.

Lemma BucketRemove_spec l k :
  sorted l -> match BucketRemove l k with
  | Some l' => sorted l' /\ (exists t, t ∈ l /\ Key t = k) /\ (forall t, t ∈ l' <-> t ∈ l /\ Key t <> k)
               /\ length l = S (length l')
  | None => forall t, t ∈ l -> Key t <> k
  end.
Proof.
  intros Hs. unfold BucketRemove.
  destruct (bucket_split l k Hs) as [(l1 & v' & l2 & He & Hi & Ha)|(Hn & Ha & _)]; [|by rewrite Ha].
  rewrite Hi, Ha. rewrite He in *. rewrite take_app_length.
  replace (drop (S (length l1)) (l1 ++ mkTuple k v' :: l2)) with l2.
  2:{ rewrite cons_middle, app_assoc, drop_app_length'; [done|rewrite length_app; simpl; lia]. }
  apply sorted_app in Hs as (Hs1 & Hs2 & Hs3). apply StronglySorted_inv in Hs2 as [Hs2 Hf]. rewrite Forall_forall in Hf.
  split_and!.
  - apply sorted_app. split_and!; [done..|]. intros a b Ha' Hb. apply Hs3; [done|by right].
  - exists (mkTuple k v'). split; [apply elem_of_app; right; left|done].
  - intros t. rewrite !elem_of_app, !elem_of_cons. split.
    + intros [Ht|Ht]; (split; [by auto|]); intros Hk.
      * specialize (Hs3 t (mkTuple k v') Ht ltac:(left)). unfold key_lt in Hs3. cbn in Hs3.
        by rewrite Hk, ltb_irrefl in Hs3.
      * specialize (Hf t Ht). unfold key_lt in Hf. cbn in Hf. by rewrite Hk, ltb_irrefl in Hf.
    + intros [[Ht|[->|Ht]] Hk]; auto. by destruct Hk.
  - rewrite !length_app. simpl. lia.
Qed.
