(* ===== verification/TrieCanon.v ===== *)
(** * The reference trie, and insertion

    [reference] gives the one node a set of bindings must have at a level, as
    a function of the bindings alone: a slot is empty, a bucket of up to three
    bindings, or a link to the reference node of the next level.  Insertion
    ([putAtNode], [TriePut], [BuildTrie]) produces exactly the reference node of
    the updated bindings, so a trie never depends on the order in which it was
    built. *)

From Stdlib Require Import Ascii.
From S2P Require Import Prelude GoStrings Sha2 Errors Hash Entity Store Trie TrieSpec.

Open Scope nat_scope.

(** ** Groups: the bindings routed to a slot *)

Definition slice (level : nat) (k : string) : nat := HashSlice (HashKey k) level.
Definition group (level p : nat) (l : list BucketTuple) : list BucketTuple :=
  List.filter (fun t => slice level (Key t) =? p) l.

Lemma slice_lt level k : slice level k < 32.
Proof.
  unfold slice, HashSlice. destruct (MaxLevel <=? level); [lia|].
  match goal with |- context [Z.land ?x 31] => pose proof (Z.mod_pos_bound x 32 ltac:(lia)) as Hb;
    change 31%Z with (Z.ones 5); rewrite Z.land_ones by lia end.
  change (2 ^ 5)%Z with 32%Z. lia.
Qed.

Lemma elem_of_group level p l t : t ∈ group level p l <-> t ∈ l /\ slice level (Key t) = p.
Proof.
  unfold group. rewrite !list_elem_of_In, filter_In. by rewrite Nat.eqb_eq.
Qed.

Lemma sorted_filter f l : sorted l -> sorted (List.filter f l).
Proof.
  induction l as [|a l IH]; [done|]. intros [Hs Hf]%StronglySorted_inv. cbn [List.filter].
  destruct (f a); [|by apply IH]. constructor; [by apply IH|]. rewrite Forall_forall in *.
  intros x Hx%list_elem_of_In. apply filter_In in Hx as [Hx _]. apply Hf. by apply list_elem_of_In.
Qed.

Lemma group_sorted level p l : sorted l -> sorted (group level p l).
Proof. apply sorted_filter. Qed.

Lemma group_insert level p l k v :
  sorted l -> group level p (BucketInsert l k v)
  = if decide (slice level k = p) then BucketInsert (group level p l) k v else group level p l.
Proof.
  intros Hs. destruct (BucketInsert_spec l k v Hs) as (Hs' & He & _).
  pose proof (group_sorted level p l Hs) as Hg. destruct (BucketInsert_spec _ k v Hg) as (Hg' & He' & _).
  case_decide as Hp; apply sorted_ext; try done; try by apply group_sorted.
  - intros t. rewrite elem_of_group, He, He', elem_of_group. split.
    + intros [[->|[Ht Hk]] Hsl]; auto.
    + intros [->|[[Ht Hsl] Hk]]; auto.
  - intros t. rewrite !elem_of_group, He. split.
    + intros [[->|[Ht Hk]] Hsl]; [done|auto].
    + intros [Ht Hsl]. split; [|done]. right. split; [done|]. intros Hk. subst. done.
Qed.

(** ** Storing nodes *)

Definition wire_hash (h : Hash) : Prop := hash_wf h /\ supported (Algorithm h).

Section canon.
Context {CS : Type} `{ContentStoreLaws CS, NodeCodec}.

(** The hash a node is stored under. *)
Definition node_hash (n : SnapshotNodeData) : option Hash :=
  match EncodeNode n with
  | None => None
  | Some raw =>
      match Ent.NewEntity node_format TypeTreeSnapshotNode raw with Ok e => Some (ContentHash e) | Err _ => None end
  end.

(** What the trie relies on: a node whose keys are valid text ([text_ok]), whose
    hashes are in wire form and whose buckets are not empty can be encoded,
    hashed and stored, and its encoding decodes to it. *)
Definition tuple_ok (text_ok : string -> bool) (t : BucketTuple) : Prop :=
  text_ok (Key t) = true /\ wire_hash (ValueHash t).
Definition entry_ok (text_ok : string -> bool) (e : NodeEntry) : Prop :=
  match e with BucketEntry b => b <> [] /\ Forall (tuple_ok text_ok) b | LinkEntry h => wire_hash h end.
Definition node_ok (text_ok : string -> bool) (n : SnapshotNodeData) : Prop :=
  length (Map_ n) = BitmapBytes /\ Forall (entry_ok text_ok) (Data_ n).

Class TrieStorage (text_ok : string -> bool) := {
  node_decode n raw : node_ok text_ok n -> EncodeNode n = Some raw -> DecodeNode raw = Some n;
  node_storable (s : CS) n : node_ok text_ok n -> exists h, snd (StoreTrieNode s n) = Ok h
}.

(** A store holds a node: it loads under its hash. *)
Definition held (s : CS) (n : SnapshotNodeData) : Prop :=
  exists h, node_hash n = Some h /\ LoadTrieNode s h = Some n.

(** [s'] holds what [s] held and the nodes [W] written since, except where a
    written node has the hash of a different one. *)
Definition extends (s s' : CS) (W : list SnapshotNodeData) : Prop :=
  forall n, held s n \/ n ∈ W -> (forall w, w ∈ W -> node_hash w = node_hash n -> w = n) -> held s' n.

Lemma extends_refl s : extends s s [].
Proof. intros n [Hn|Hn%elem_of_nil] _; done. Qed.

Lemma extends_trans s1 s2 s3 W1 W2 : extends s1 s2 W1 -> extends s2 s3 W2 -> extends s1 s3 (W1 ++ W2).
Proof.
  intros H12 H23 n Hn Hc. apply H23; [|intros w Hw; apply Hc, elem_of_app; by right].
  rewrite elem_of_app in Hn. destruct Hn as [Hn|[Hn|Hn]]; [left|left|by right].
  - apply H12; [by left|]. intros w Hw. apply Hc, elem_of_app. by left.
  - apply H12; [by right|]. intros w Hw. apply Hc, elem_of_app. by left.
Qed.

Section storage.
Context {text_ok : string -> bool} `{!TrieStorage text_ok}.

Lemma StoreTrieNode_spec s n :
  node_ok text_ok n -> exists s' h, StoreTrieNode s n = (s', Ok h) /\ node_hash n = Some h /\ wire_hash h
    /\ extends s s' [n].
Proof.
  intros Hok. destruct (node_storable s n Hok) as [h Hh]. revert Hh. unfold StoreTrieNode, node_hash.
  destruct (EncodeNode n) as [raw|] eqn:Henc; [|done].
  destruct (Ent.NewEntity _ _ raw) as [e|] eqn:Hne; [|done].
  assert (He : Type_ e = TypeTreeSnapshotNode /\ Data e = raw
    /\ ComputeFormat node_format TypeTreeSnapshotNode raw = Ok (ContentHash e)).
  { unfold Ent.NewEntity, Ent.NewEntityFormat in Hne. destruct (String.eqb _ _); [done|].
    destruct (length raw =? 0)%nat; [done|]. destruct (_ && _); [done|]. inv_ok. done. }
  destruct He as (Ht & Hd & Hc). destruct (ComputeFormat_wf _ _ _ _ Hc) as (Hwf & Ha & Hsup).
  pose proof (cs_put_spec s e) as Hp. destruct (cs_Put s e) as [s' r]. cbn [fst snd] in *.
  destruct r as [h'|]; cbn [res_map_err]; [|done]. intros [= ->]. destruct Hp as [Hph Hent].
  assert (h = ContentHash e) as ->.
  { apply put_hash_ok in Hph as (Hcomp & _ & _). rewrite Ha, Ht, Hd in Hcomp. congruence. }
  exists s', (ContentHash e). split_and!; [done|done|by split; [|rewrite Ha]|].
  intros n' Hn' Hcol. unfold held, LoadTrieNode.
  destruct (decide (n = n')) as [<-|Hne'].
  { exists (ContentHash e). unfold node_hash. rewrite Henc, Hne. split; [done|].
    rewrite cs_get_spec, Hent, lookup_insert_eq. cbn [stamped Data]. rewrite Hd. by apply node_decode. }
  destruct Hn' as [(h' & Hh' & Hl)|Hn']; [|apply list_elem_of_singleton in Hn'; by subst].
  exists h'. split; [done|]. unfold LoadTrieNode in Hl. rewrite cs_get_spec in Hl |- *. rewrite Hent.
  rewrite lookup_insert_ne; [done|]. intros <-. apply Hne', Hcol; [by apply list_elem_of_singleton|].
  rewrite Hh'. unfold node_hash. by rewrite Henc, Hne.
Qed.

Lemma node_hash_ok (s : CS) n : node_ok text_ok n -> exists h, node_hash n = Some h /\ wire_hash h.
Proof. intros Hok. destruct (StoreTrieNode_spec s n Hok) as (_ & h & _ & Hh & Hw & _). eauto. Qed.
End storage.

(** ** The reference *)

(** The entry of a slot; the outer [None] is no such trie. *)
Definition slot (sub : list BucketTuple -> option SnapshotNodeData) (g : list BucketTuple)
  : option (option NodeEntry) :=
  match g with
  | [] => Some None
  | _ =>
      if length g <=? BucketSize then Some (Some (BucketEntry g))
      else n ← sub g; h ← node_hash n; Some (Some (LinkEntry h))
  end.

Fixpoint reference (levels level : nat) (l : list BucketTuple) : option SnapshotNodeData :=
  match levels with
  | O => None
  | S levels' =>
      es ← mapM (fun p => slot (fun g => reference levels' (level + 1) g) (group level p l)) (seq 0 K);
      Some (node_of es)
  end.

(** The sub-nodes, all levels. *)
Fixpoint subnodes (levels level : nat) (l : list BucketTuple) : list SnapshotNodeData :=
  match levels with
  | O => []
  | S levels' =>
      concat (map (fun p =>
        let g := group level p l in
        if length g <=? BucketSize then []
        else match reference levels' (level + 1) g with
             | Some n => n :: subnodes levels' (level + 1) g
             | None => []
             end) (seq 0 K))
  end.

(** [es] are the slots of the bindings [l]. *)
Definition slots_of (levels' level : nat) (l : list BucketTuple) (es : list (option NodeEntry)) : Prop :=
  length es = 32 /\ forall p, p < 32 -> exists o, es !! p = Some o
    /\ slot (reference levels' (level + 1)) (group level p l) = Some o.

Lemma reference_spec levels' level l n :
  reference (S levels') level l = Some n <-> exists es, slots_of levels' level l es /\ n = node_of es.
Proof.
  cbn [reference]. rewrite bind_Some. split.
  - intros (es & Hm & [= <-]). exists es. split; [|done]. apply mapM_Some in Hm.
    split; [by rewrite <- (Forall2_length _ _ _ Hm), length_seq|]. intros p Hp.
    destruct (Forall2_lookup_l _ _ _ p p Hm) as (o & Ho & Hs); [by apply lookup_seq_lt|]. eauto.
  - intros (es & [Hl Hes] & ->). exists es. split; [|done]. apply mapM_Some, Forall2_same_length_lookup.
    split; [by rewrite length_seq|]. intros i p o Hi Ho. apply lookup_seq in Hi as [-> Hi]. unfold K in Hi.
    destruct (Hes i Hi) as (o' & Ho' & Hs). rewrite Ho in Ho'. injection Ho' as <-. exact Hs.
Qed.

Lemma reference_none levels' level l p :
  p < 32 -> slot (reference levels' (level + 1)) (group level p l) = None -> reference (S levels') level l = None.
Proof.
  intros Hp Hs. destruct (reference (S levels') level l) as [n|] eqn:E; [|done].
  apply reference_spec in E as (es & [_ Hes] & _). destruct (Hes p Hp) as (o & _ & Ho). congruence.
Qed.

(** Changing the bindings of one group changes one slot. *)
Lemma slots_update levels' level l l' es p o :
  slots_of levels' level l es -> p < 32 ->
  (forall q, q <> p -> group level q l' = group level q l) ->
  slot (reference levels' (level + 1)) (group level p l') = Some o ->
  slots_of levels' level l' (<[p := o]> es).
Proof.
  intros [Hl Hes] Hp Hg Ho. split; [by rewrite length_insert|]. intros q Hq. destruct (decide (p = q)) as [<-|Hne].
  - exists o. by rewrite list_lookup_insert_eq by lia.
  - rewrite list_lookup_insert_ne by done. rewrite Hg by done. by apply Hes.
Qed.

Lemma elem_of_subnodes levels' level l n :
  n ∈ subnodes (S levels') level l <->
  exists p m, p < 32 /\ BucketSize < length (group level p l)
    /\ reference levels' (level + 1) (group level p l) = Some m
    /\ (n = m \/ n ∈ subnodes levels' (level + 1) (group level p l)).
Proof.
  cbn [subnodes]. rewrite list_elem_of_In, in_concat. split.
  - intros (ns & Hns & Hn). apply in_map_iff in Hns as (p & <- & Hp%in_seq). exists p.
    destruct (Nat.leb_spec (length (group level p l)) BucketSize); [done|].
    destruct (reference _ _ _) as [m|]; [|done]. exists m. unfold K in Hp. split_and!; [lia|lia|done|].
    apply list_elem_of_In, elem_of_cons in Hn. done.
  - intros (p & m & Hp & Hl & Hm & Hn). eexists. split; [apply in_map_iff; exists p; split; [done|apply in_seq; unfold K; lia]|].
    cbv zeta. destruct (Nat.leb_spec (length (group level p l)) BucketSize); [lia|]. rewrite Hm.
    by apply list_elem_of_In, elem_of_cons.
Qed.

Lemma group_short level p l : length (group level p l) <= length l.
Proof. unfold group. induction l as [|a l IH]; [done|]. cbn [List.filter]. destruct (_ =? _); simpl; lia. Qed.

Lemma subnodes_short levels level l : length l <= BucketSize -> subnodes levels level l = [].
Proof.
  intros Hl. destruct levels as [|levels']; [done|].
  destruct (subnodes (S levels') level l) as [|n ns] eqn:E; [done|exfalso].
  assert (Hn : n ∈ subnodes (S levels') level l) by (rewrite E; left).
  apply elem_of_subnodes in Hn as (p & m & _ & Hlt & _). pose proof (group_short level p l). lia.
Qed.

Lemma reference_short levels' level l :
  length l <= BucketSize -> exists n, reference (S levels') level l = Some n.
Proof.
  intros Hl. set (es := map (fun p => match group level p l with [] => None | g => Some (BucketEntry g) end) (seq 0 32)).
  exists (node_of es). apply reference_spec. exists es. split; [|done]. split; [unfold es; by rewrite length_map, length_seq|].
  intros p Hp. eexists. split; [unfold es; rewrite list_lookup_fmap, lookup_seq_lt by done; done|].
  pose proof (group_short level p l). cbn [Nat.add]. unfold slot. destruct (group level p l) as [|t g]; [done|].
  destruct (Nat.leb_spec (length (t :: g)) BucketSize); [done|lia].
Qed.

Lemma reference_nil levels' level : reference (S levels') level [] = Some EmptyNode.
Proof.
  apply reference_spec. exists (replicate 32 None). split.
  - split; [by rewrite length_replicate|]. intros p Hp. exists None. split; [by apply lookup_replicate_2|done].
  - reflexivity.
Qed.

Section reference_ok.
Context {text_ok : string -> bool} `{!TrieStorage text_ok} (s : CS).

Lemma reference_ok levels level l n :
  Forall (tuple_ok text_ok) l -> reference levels level l = Some n -> node_ok text_ok n.
Proof.
  revert level l n. induction levels as [|levels IH]; intros level l n Hl; [done|].
  intros (es & [Hlen Hes] & ->)%reference_spec. split; [apply bitmap_of_spec|]. cbn [Data_ node_of].
  apply Forall_forall. intros e He. apply list_elem_of_omap in He as (o & Ho & He). cbn in He. subst o.
  apply list_elem_of_lookup in Ho as [p Hp]. pose proof (lookup_lt_Some _ _ _ Hp) as Hlt. rewrite Hlen in Hlt.
  destruct (Hes p Hlt) as (o & Ho & Hs). rewrite Hp in Ho. injection Ho as <-.
  assert (Hg : Forall (tuple_ok text_ok) (group level p l)).
  { rewrite Forall_forall in *. intros t [Ht _]%elem_of_group. by apply Hl. }
  unfold slot in Hs. destruct (group level p l) as [|t g] eqn:E; [done|].
  destruct (length (t :: g) <=? BucketSize).
  - injection Hs as <-. by split.
  - apply bind_Some in Hs as (n & Hn & Hs). apply bind_Some in Hs as (h & Hh & [= <-]). cbn.
    destruct (node_hash_ok s n) as (h' & Hh' & Hw); [by eapply IH|]. congruence.
Qed.

(** The link of a large group. *)
Lemma slot_link levels level p l n :
  Forall (tuple_ok text_ok) l -> BucketSize < length (group level p l) ->
  reference levels (level + 1) (group level p l) = Some n ->
  exists h, node_hash n = Some h /\ slot (reference levels (level + 1)) (group level p l) = Some (Some (LinkEntry h)).
Proof.
  intros Hok Hlt Hr. destruct (node_hash_ok s n) as (h & Hh & _).
  { eapply reference_ok; [|exact Hr]. rewrite Forall_forall in *. intros t [Ht _]%elem_of_group. by apply Hok. }
  exists h. split; [done|]. unfold slot. destruct (group level p l) as [|t g] eqn:E; [simpl in Hlt; lia|].
  destruct (Nat.leb_spec (length (t :: g)) BucketSize); [lia|]. rewrite Hr. cbn. by rewrite Hh.
Qed.
End reference_ok.

(** ** Insertion *)

Section put.
Context {text_ok : string -> bool} `{!TrieStorage text_ok}.

(** What putting [k] into the node of [l] has to do. *)
Definition put_correct (levels level : nat) (s : CS) (l : list BucketTuple) (k : string) (v : Hash)
    (outcome : CS * res TrieErr SnapshotNodeData) : Prop :=
  let l' := BucketInsert l k v in
  match reference levels level l' with
  | Some n' => exists s' W, outcome = (s', Ok n') /\ extends s s' W
      /\ (forall m, m ∈ W -> m ∈ subnodes levels level l')
      /\ (forall m, m ∈ subnodes levels level l' -> m ∈ subnodes levels level l \/ m ∈ W)
  | None => exists s', outcome = (s', Err TrieCollision)
  end.

Definition put_spec (levels level : nat) : Prop :=
  forall s l n k v, sorted l -> Forall (tuple_ok text_ok) l -> tuple_ok text_ok (mkTuple k v) ->
    reference levels level l = Some n -> (forall m, m ∈ subnodes levels level l -> held s m) ->
    put_correct levels level s l k v (putAtNode levels s n level k v).

Lemma BucketInsert_ok l k v :
  sorted l -> Forall (tuple_ok text_ok) l -> tuple_ok text_ok (mkTuple k v) ->
  Forall (tuple_ok text_ok) (BucketInsert l k v).
Proof.
  intros Hs Hl Hkv. destruct (BucketInsert_spec l k v Hs) as (_ & He & _). rewrite Forall_forall in *.
  intros t [->|[Ht _]]%He; auto.
Qed.

Lemma BucketInsert_last l t : sorted (l ++ [t]) -> BucketInsert l (Key t) (ValueHash t) = l ++ [t].
Proof.
  intros Hs. assert (Hl : sorted l) by (by apply sorted_app in Hs as (? & _)).
  destruct (BucketInsert_spec l (Key t) (ValueHash t) Hl) as (Hs' & He & _). apply sorted_ext; [done..|].
  apply sorted_app in Hs as (_ & _ & Hlt). intros u. rewrite He, elem_of_app, list_elem_of_singleton. split.
  - intros [->|[Hu _]]; [right; by destruct t|by left].
  - intros [Hu| ->]; [|left; by destruct t]. right. split; [done|]. intros Hk.
    specialize (Hlt u t Hu ltac:(by apply list_elem_of_singleton)). unfold key_lt in Hlt. by rewrite Hk, ltb_irrefl in Hlt.
Qed.

(** Filling a fresh sub-node with the tuples of a bucket writes nothing. *)
Lemma put_tuples_spec levels level s l rest n :
  put_spec (S levels) level -> sorted (l ++ rest) -> Forall (tuple_ok text_ok) (l ++ rest) ->
  length (l ++ rest) <= BucketSize -> reference (S levels) level l = Some n ->
  exists s' n', put_tuples (fun cs n k v => putAtNode (S levels) cs n level k v) s n rest = (s', Ok n')
    /\ extends s s' [] /\ reference (S levels) level (l ++ rest) = Some n'.
Proof.
  intros IH. revert s l n. induction rest as [|t rest IHr]; intros s l n Hs Hok Hlen Hr.
  { exists s, n. rewrite app_nil_r. split_and!; [done|apply extends_refl|done]. }
  rewrite cons_middle, app_assoc in Hs, Hok, Hlen |- *.
  pose proof (proj1 (proj1 (sorted_app _ _) Hs)) as Hs1. pose proof (proj1 (proj1 (sorted_app _ _) Hs1)) as Hs0.
  pose proof (proj1 (proj1 (Forall_app _ _ _) Hok)) as Hok1. apply Forall_app in Hok1 as [Hok0 Hokt].
  assert (Hl1 : length (l ++ [t]) <= BucketSize) by (rewrite length_app in Hlen; lia).
  pose proof (IH s l n (Key t) (ValueHash t) Hs0 Hok0) as Hput. unfold put_correct in Hput. cbv zeta in Hput.
  rewrite BucketInsert_last in Hput by done. rewrite (subnodes_short _ _ (l ++ [t])) in Hput by done.
  rewrite (subnodes_short _ _ l) in Hput by (rewrite length_app in Hl1; lia).
  destruct (reference_short levels level (l ++ [t]) Hl1) as [n1 Hn1]. rewrite Hn1 in Hput.
  destruct Hput as (s1 & W & Hp1 & He1 & HW & _); [rewrite Forall_singleton in Hokt; by destruct t|done|by intros m ?%elem_of_nil|].
  assert (W = []) as -> by (destruct W as [|w W]; [done|]; by pose proof (HW w ltac:(left)) as ?%elem_of_nil).
  destruct (IHr s1 (l ++ [t]) n1 Hs Hok Hlen Hn1) as (s2 & n2 & Hp2 & He2 & Hn2).
  exists s2, n2. cbn [put_tuples]. rewrite Hp1, Hp2. split_and!; [done|by apply (extends_trans s s1 s2 [] [])|done].
Qed.

Lemma promoteBucket_spec levels level s g k v :
  put_spec levels level -> sorted g -> Forall (tuple_ok text_ok) g -> tuple_ok text_ok (mkTuple k v) ->
  length g = BucketSize ->
  put_correct levels level s g k v (promoteBucket (fun cs n k v => putAtNode levels cs n level k v) s g k v).
Proof.
  intros IH Hs Hok Hkv Hlen. unfold promoteBucket. destruct levels as [|levels].
  { destruct g as [|t g]; [done|]. exists s. done. }
  destruct (put_tuples_spec levels level s [] g EmptyNode IH) as (s1 & n1 & -> & He1 & Hn1);
    [done|done|cbn [app]; lia|apply reference_nil|]. cbn [app] in Hn1.
  assert (Hsub : forall m, m ∈ subnodes (S levels) level g -> held s1 m).
  { rewrite subnodes_short by lia. by intros m ?%elem_of_nil. }
  pose proof (IH s1 g n1 k v Hs Hok Hkv Hn1 Hsub) as Hput. unfold put_correct in *. cbv zeta in *.
  destruct (reference (S levels) level (BucketInsert g k v)) as [n'|]; [|done].
  destruct Hput as (s2 & W & Hp & He2 & HW & HW'). exists s2, W. split_and!; [done| |done|done].
  by apply (extends_trans s s1 s2 [] W).
Qed.

Lemma subnodes_update levels level l l' p m :
  (forall q, q <> p -> group level q l' = group level q l) ->
  m ∈ subnodes (S levels) level l' ->
  m ∈ subnodes (S levels) level l
  \/ BucketSize < length (group level p l')
     /\ (reference levels (level + 1) (group level p l') = Some m
         \/ m ∈ subnodes levels (level + 1) (group level p l')).
Proof.
  intros Hg (q & n & Hq & Hlt & Hr & Hm)%elem_of_subnodes. destruct (decide (q = p)) as [->|Hne].
  - right. split; [done|]. destruct Hm as [->|]; auto.
  - left. rewrite Hg in Hlt, Hr, Hm by done. apply elem_of_subnodes. by exists q, n.
Qed.

Lemma group_insert_other level l k v q :
  sorted l -> q <> slice level k -> group level q (BucketInsert l k v) = group level q l.
Proof. intros Hs Hq. rewrite group_insert by done. by case_decide. Qed.

Lemma group_insert_same level l k v :
  sorted l -> group level (slice level k) (BucketInsert l k v) = BucketInsert (group level (slice level k) l) k v.
Proof. intros Hs. rewrite group_insert by done. by case_decide. Qed.

(** The slot becomes a bucket. *)
Lemma put_bucket levels level s l k v es :
  sorted l -> slots_of levels level l es ->
  let p := slice level k in
  let g' := BucketInsert (group level p l) k v in
  length g' <= BucketSize ->
  put_correct (S levels) level s l k v (s, Ok (node_of (<[p := Some (BucketEntry g')]> es))).
Proof.
  intros Hs Hes p g' Hlen. unfold put_correct. cbv zeta.
  pose proof (group_insert_same level l k v Hs) as Hg. fold p in Hg. fold g' in Hg.
  assert (Hslot : slot (reference levels (level + 1)) (group level p (BucketInsert l k v)) = Some (Some (BucketEntry g'))).
  { rewrite Hg. unfold slot. destruct g' as [|t g''] eqn:E.
    - destruct (BucketInsert_spec (group level p l) k v (group_sorted _ _ _ Hs)) as (_ & He & _).
      exfalso. apply (elem_of_nil (mkTuple k v)). rewrite <- E. apply He. by left.
    - destruct (Nat.leb_spec (length (t :: g'')) BucketSize); [done|lia]. }
  pose proof (slots_update _ _ _ _ _ _ _ Hes (slice_lt level k) (fun q => group_insert_other level l k v q Hs) Hslot) as Hu.
  rewrite (proj2 (reference_spec levels level (BucketInsert l k v) _) (ex_intro _ _ (conj Hu eq_refl))).
  exists s, []. split_and!; [done|apply extends_refl|by intros m ?%elem_of_nil|].
  intros m Hm. apply (subnodes_update levels level l _ p) in Hm as [Hm|[Hlt _]];
    [by left|rewrite Hg in Hlt; lia|]. intros q. by apply group_insert_other.
Qed.

(** The slot becomes a link to the node that [out] made of the group. *)
Lemma put_link levels level s l k v es e out :
  sorted l -> Forall (tuple_ok text_ok) l -> tuple_ok text_ok (mkTuple k v) -> slots_of levels level l es ->
  let p := slice level k in
  es !! p = Some (Some e) -> BucketSize < length (BucketInsert (group level p l) k v) ->
  (forall m, m ∈ subnodes levels (level + 1) (group level p l) -> m ∈ subnodes (S levels) level l) ->
  put_correct levels (level + 1) s (group level p l) k v out ->
  put_correct (S levels) level s l k v
    (run! (cs, c) := out in
     run! (cs, h) := StoreTrieNode cs c in
     (cs, node_with (Some (Map_ (node_of es))) (replaceEntry (Data_ (node_of es)) (index es p) (LinkEntry h)))).
Proof.
  intros Hs Hok Hkv Hes p He Hlen Hsub. unfold put_correct. cbv zeta.
  pose proof (group_insert_same level l k v Hs) as Hg. fold p in Hg. rewrite <- Hg in *.
  set (l' := BucketInsert l k v) in *.
  assert (Hother : forall q, q <> p -> group level q l' = group level q l) by (intros q; by apply group_insert_other).
  assert (Hok' : Forall (tuple_ok text_ok) l') by (by apply BucketInsert_ok).
  destruct (reference levels (level + 1) (group level p l')) as [c|] eqn:Hc.
  - intros (s1 & W & -> & He1 & HW & HW').
    destruct (slot_link s levels level p l' c Hok' Hlen Hc) as (h & Hh & Hslot).
    assert (Hcok : node_ok text_ok c).
    { eapply (reference_ok s); [|exact Hc]. rewrite Forall_forall in *. intros t [Ht _]%elem_of_group. by apply Hok'. }
    destruct (StoreTrieNode_spec s1 c Hcok) as (s2 & h' & -> & Hh' & _ & He2). rewrite Hh in Hh'. injection Hh' as <-.
    pose proof (slots_update _ _ _ _ _ _ _ Hes (slice_lt level k) Hother Hslot) as Hu. fold p in Hu.
    rewrite (proj2 (reference_spec levels level l' _) (ex_intro _ _ (conj Hu eq_refl))).
    rewrite (slot_replace es p (proj1 Hes) (slice_lt level k) e) by done.
    exists s2, (W ++ [c]). split_and!; [done|by eapply extends_trans| |].
    + intros m [Hm| ->%list_elem_of_singleton]%elem_of_app; apply elem_of_subnodes; exists p, c;
        (split_and!; [apply slice_lt|done|done|]); auto.
    + intros m Hm. rewrite elem_of_app, list_elem_of_singleton.
      apply (subnodes_update levels level l l' p m Hother) in Hm as [Hm|[_ [Hm|Hm]]]; [by left| |].
      * right. right. congruence.
      * apply HW' in Hm as [Hm|Hm]; auto.
  - intros [s' ->]. rewrite (reference_none levels level l' p); [by exists s'|apply slice_lt|].
    unfold slot. destruct (group level p l') as [|t g] eqn:E; [simpl in Hlen; lia|].
    destruct (Nat.leb_spec (length (t :: g)) BucketSize); [lia|]. by rewrite Hc.
Qed.

Lemma putAtNode_spec levels level : put_spec levels level.
Proof.
  revert level. induction levels as [|levels IH]; intros level s l n k v Hs Hok Hkv; [done|].
  intros (es & Hes & ->)%reference_spec Hheld. set (p := slice level k).
  pose proof (slice_lt level k) as Hp. fold p in Hp. destruct (proj2 Hes p Hp) as (o & Ho & Hslot).
  pose proof (group_sorted level p l Hs) as Hgs.
  assert (Hgok : Forall (tuple_ok text_ok) (group level p l)).
  { rewrite Forall_forall in *. intros t [Ht _]%elem_of_group. by apply Hok. }
  destruct (BucketInsert_spec (group level p l) k v Hgs) as (_ & Hel & Hlen).
  cbn [putAtNode]. fold (slice level k). fold p. rewrite slot_popcount, slot_bit by (done || apply Hes).
  unfold occupied. rewrite Ho. unfold slot in Hslot. destruct (group level p l) as [|t g] eqn:Eg.
  { injection Hslot as <-. rewrite slot_fill by (done || apply Hes).
    pose proof (put_bucket levels level s l k v es Hs Hes) as Hb. cbv zeta in Hb. fold p in Hb. rewrite Eg in Hb.
    apply Hb. simpl. unfold BucketSize. lia. }
  rewrite <- Eg in *. destruct (Nat.leb_spec (length (group level p l)) BucketSize) as [Hle|Hgt].
  - injection Hslot as <-. rewrite (slot_entry es p (proj1 Hes) Hp (BucketEntry (group level p l))) by done.
    destruct (BucketFind (group level p l) k) as [v'|] eqn:Ef; cbn [orb].
    { rewrite (slot_replace es p (proj1 Hes) Hp _ _ Ho). apply put_bucket; [done..|]. fold p. lia. }
    destruct (Nat.ltb_spec (length (group level p l)) BucketSize).
    { rewrite (slot_replace es p (proj1 Hes) Hp _ _ Ho). apply put_bucket; [done..|]. fold p. lia. }
    eapply put_link; try done; fold p.
    + lia.
    + rewrite subnodes_short by lia. by intros m ?%elem_of_nil.
    + apply promoteBucket_spec; [apply IH|done..|lia].
  - apply bind_Some in Hslot as (c & Hc & Hslot). apply bind_Some in Hslot as (h & Hh & [= <-]).
    rewrite (slot_entry es p (proj1 Hes) Hp (LinkEntry h)) by done.
    assert (Hsub : forall m, m = c \/ m ∈ subnodes levels (level + 1) (group level p l) ->
                     m ∈ subnodes (S levels) level l).
    { intros m Hm. apply elem_of_subnodes. by exists p, c. }
    destruct (Hheld c) as (h' & Hh' & Hload); [apply Hsub; by left|].
    rewrite Hh in Hh'. injection Hh' as <-. rewrite Hload.
    eapply put_link; try done; fold p.
    + destruct (BucketFind _ _); lia.
    + intros m Hm. apply Hsub. by right.
    + apply IH; [done..|]. intros m Hm. apply Hheld, Hsub. by right.
Qed.
End put.
End canon.

(** ** Reading a trie *)

(** The buckets of a trie, in the order of the walk. *)
Fixpoint leaves (levels level : nat) (l : list BucketTuple) : list (list BucketTuple) :=
  match levels with
  | O => []
  | S levels' =>
      concat (map (fun p =>
        match group level p l with
        | [] => []
        | g => if length g <=? BucketSize then [g] else leaves levels' (level + 1) g
        end) (seq 0 K))
  end.

Section walks.
Context {CS : Type} `{ContentStoreLaws CS, NodeCodec}.

Lemma slots_forall2 levels level l es :
  slots_of levels level l es ->
  Forall2 (fun p o => slot (reference levels (level + 1)) (group level p l) = Some o) (seq 0 K) es.
Proof.
  intros [Hl Hes]. apply Forall2_same_length_lookup. split; [by rewrite length_seq|].
  intros i p o Hi Ho. apply lookup_seq in Hi as [-> Hi]. unfold K in Hi. destruct (Hes i Hi) as (o' & Ho' & Hs).
  rewrite Ho in Ho'. injection Ho' as <-. exact Hs.
Qed.

Lemma walk_spec {A} (on_bucket : A -> list BucketTuple -> A) (s : CS) levels level l n acc fuel :
  reference levels level l = Some n -> (forall m, m ∈ subnodes levels level l -> held s m) -> levels <= fuel ->
  walk on_bucket fuel s acc n = Some (fold_left on_bucket (leaves levels level l) acc).
Proof.
  revert level l n acc fuel. induction levels as [|levels IH]; intros level l n acc fuel; [done|].
  intros (es & Hes & ->)%reference_spec Hheld Hf. destruct fuel as [|fuel]; [lia|]. cbn [walk leaves Data_ node_of].
  pose proof (slots_forall2 _ _ _ _ Hes) as Hall. clear Hes. revert acc.
  assert (Hin : forall p, p ∈ seq 0 K -> p < 32) by (intros p Hp%list_elem_of_In%in_seq; unfold K in Hp; lia).
  induction Hall as [|p o ps es' Hslot Hall IHl]; intros acc; [done|]. cbn [map concat]. rewrite fold_left_app.
  assert (Hin' : forall q, q ∈ ps -> q < 32) by (intros; apply Hin; by right).
  unfold slot in Hslot. destruct (group level p l) as [|t g] eqn:E.
  { injection Hslot as <-. cbn [omap list_omap id]. apply IHl. done. }
  rewrite <- E in *. destruct (Nat.leb_spec (length (group level p l)) BucketSize) as [Hle|Hgt].
  - injection Hslot as <-. cbn [omap list_omap id fold_left]. by apply IHl.
  - apply bind_Some in Hslot as (c & Hc & Hslot). apply bind_Some in Hslot as (h & Hh & [= <-]).
    cbn [omap list_omap id].
    assert (Hsub : forall m, m = c \/ m ∈ subnodes levels (level + 1) (group level p l) -> held s m).
    { intros m Hm. apply Hheld, elem_of_subnodes. exists p, c. split_and!; [apply Hin; left|done..]. }
    destruct (Hsub c) as (h' & Hh' & Hload); [by left|]. rewrite Hh in Hh'. injection Hh' as <-. rewrite Hload.
    rewrite (IH (level + 1) (group level p l) c acc fuel Hc) by (auto || lia). by apply IHl.
Qed.

(** Every binding is in exactly one group. *)
Lemma groups_perm level l : concat (map (fun p => group level p l) (seq 0 K)) ≡ₚ l.
Proof.
  induction l as [|t l IHl]; [by induction (seq 0 K)|]. transitivity (t :: concat (map (fun p => group level p l) (seq 0 K))).
  2: by rewrite IHl.
  pose proof (slice_lt level (Key t)) as Hlt. set (q := slice level (Key t)) in *.
  assert (Hsplit : seq 0 K = seq 0 q ++ q :: seq (S q) (31 - q)).
  { replace K with (q + S (31 - q)) by (unfold K; lia). by rewrite seq_app. }
  assert (Hne : forall ps, q ∉ ps -> map (fun p => group level p (t :: l)) ps = map (fun p => group level p l) ps).
  { intros ps Hq. apply map_ext_in. intros p Hp%list_elem_of_In. unfold group. cbn [List.filter]. fold q.
    destruct (Nat.eqb_spec q p) as [->|]; done. }
  rewrite Hsplit, !map_app, !concat_app. cbn [map concat].
  rewrite !Hne by (rewrite list_elem_of_In, in_seq; lia).
  assert (Hqq : group level q (t :: l) = t :: group level q l).
  { unfold group. cbn [List.filter]. fold q. by rewrite Nat.eqb_refl. }
  rewrite Hqq. symmetry. apply Permutation_middle.
Qed.

(** The buckets hold the bindings. *)
Lemma leaves_perm levels level l n :
  reference levels level l = Some n -> concat (leaves levels level l) ≡ₚ l.
Proof.
  revert level l n. induction levels as [|levels IH]; intros level l n; [done|].
  intros (es & [_ Hes] & ->)%reference_spec. cbn [leaves].
  assert (Hg : forall p, p < 32 -> concat (match group level p l with [] => []
      | g => if length g <=? BucketSize then [g] else leaves levels (level + 1) g end) ≡ₚ group level p l).
  { intros p Hp. destruct (Hes p Hp) as (o & _ & Hs). unfold slot in Hs.
    destruct (group level p l) as [|t g] eqn:E; [done|]. cbv iota zeta. rewrite <- E in *.
    destruct (length (group level p l) <=? BucketSize); [cbn [concat]; by rewrite app_nil_r|].
    apply bind_Some in Hs as (c & Hc & _). by eapply IH. }
  assert (Hcat : forall ps, (forall p, p ∈ ps -> p < 32) ->
    concat (concat (map (fun p => match group level p l with [] => []
      | g => if length g <=? BucketSize then [g] else leaves levels (level + 1) g end) ps))
    ≡ₚ concat (map (fun p => group level p l) ps)).
  { induction ps as [|p ps IHp]; intros Hps; [done|]. cbn [map concat]. rewrite concat_app.
    rewrite Hg by (apply Hps; left). rewrite IHp by (intros; apply Hps; by right). done. }
  rewrite Hcat by (intros p Hp%list_elem_of_In%in_seq; unfold K in Hp; lia). apply groups_perm.
Qed.
End walks.
