(* ===== verification/TrieMap.v ===== *)
(** * Tries as finite maps

    A root hash in a store represents a finite map from keys to hashes when it
    is the hash of the map's reference node and the store holds every node.
    Putting, building and collecting are the operations of the map. *)

From Stdlib Require Import Ascii.
From S2P Require Import Prelude GoStrings Sha2 Errors Hash Entity Store Trie TrieSpec TrieCanon.

Open Scope nat_scope.

(** ** The bindings of a map, sorted by key *)

Definition tuple_of (kv : string * Hash) : BucketTuple := mkTuple (fst kv) (snd kv).
Definition sorted_bindings (m : gmap string Hash) : list BucketTuple :=
  merge_sort key_le (map tuple_of (map_to_list m)).

Global Instance key_le_trans : Transitive key_le.
Proof. intros x y z. unfold key_le. apply leb_trans. Qed.
Global Instance key_le_total : Total key_le.
Proof. intros x y. unfold key_le. apply String.leb_total. Qed.

(** Sorted by key with distinct keys is strictly sorted. *)
Lemma strictly_sorted l : StronglySorted key_le l -> NoDup (map Key l) -> sorted l.
Proof.
  induction l as [|a l IH]; [constructor|]. intros [Hs Hf]%StronglySorted_inv [Hn Hnd]%NoDup_cons.
  constructor; [by apply IH|]. rewrite Forall_forall in *. intros b Hb. apply ltb_leb. split; [by apply Hf|].
  intros He. apply Hn. rewrite He. by apply list_elem_of_fmap_2.
Qed.

Lemma sorted_bindings_sorted m : sorted (sorted_bindings m).
Proof.
  unfold sorted_bindings. apply strictly_sorted; [apply (StronglySorted_merge_sort _)|].
  rewrite (merge_sort_Permutation key_le). rewrite map_map. apply (NoDup_fst_map_to_list m).
Qed.

Lemma elem_of_sorted_bindings m t : t ∈ sorted_bindings m <-> m !! Key t = Some (ValueHash t).
Proof.
  unfold sorted_bindings. rewrite (merge_sort_Permutation key_le), list_elem_of_In, in_map_iff. split.
  - intros ([k v] & <- & Hin). apply elem_of_map_to_list. by apply list_elem_of_In.
  - intros Hm. exists (Key t, ValueHash t). split; [by destruct t|]. by apply list_elem_of_In, elem_of_map_to_list.
Qed.

Lemma sorted_bindings_insert m k v : BucketInsert (sorted_bindings m) k v = sorted_bindings (<[k := v]> m).
Proof.
  destruct (BucketInsert_spec _ k v (sorted_bindings_sorted m)) as (Hs & He & _).
  apply sorted_ext; [done|apply sorted_bindings_sorted|]. intros [k' v'].
  rewrite He, !elem_of_sorted_bindings. cbn [Key ValueHash]. rewrite lookup_insert_Some.
  split; [intros [[= -> ->]|[? ?]]|intros [[-> ->]|[? ?]]]; auto.
Qed.

Lemma sorted_bindings_remove m k :
  BucketRemove (sorted_bindings m) k
  = match m !! k with Some _ => Some (sorted_bindings (delete k m)) | None => None end.
Proof.
  pose proof (BucketRemove_spec _ k (sorted_bindings_sorted m)) as Hr.
  destruct (BucketRemove (sorted_bindings m) k) as [l'|].
  - destruct Hr as (Hs & ([k' v] & Hin & Hk) & He & _). cbn in Hk. subst k'.
    apply elem_of_sorted_bindings in Hin. cbn in Hin. rewrite Hin. f_equal.
    apply sorted_ext; [done|apply sorted_bindings_sorted|]. intros [k' v'].
    rewrite He, !elem_of_sorted_bindings. cbn [Key ValueHash]. rewrite lookup_delete_Some.
    split; intros [? ?]; auto.
  - destruct (m !! k) as [v|] eqn:E; [|done]. exfalso. apply (Hr (mkTuple k v)); [|done].
    by apply elem_of_sorted_bindings.
Qed.

Lemma sorted_bindings_empty : sorted_bindings ∅ = [].
Proof. reflexivity. Qed.

(** ** When there is no trie *)

(** More than [BucketSize] keys that no level separates. *)
Definition inseparable (level : nat) (l : list BucketTuple) : Prop :=
  exists g, (forall t, t ∈ g -> t ∈ l) /\ NoDup (map Key g) /\ BucketSize < length g
    /\ forall i a b, level <= i < MaxLevel -> a ∈ g -> b ∈ g -> slice i (Key a) = slice i (Key b).

Section exists_trie.
Context {CS : Type} `{ContentStoreLaws CS, NodeCodec}.
Context {text_ok : string -> bool} `{!TrieStorage (CS := CS) text_ok} (s : CS).

Lemma sorted_NoDup l : sorted l -> NoDup (map Key l).
Proof.
  induction l as [|a l IH]; [constructor|]. intros [Hs Hf]%StronglySorted_inv. constructor; [|by apply IH].
  rewrite Forall_forall in Hf. intros (b & Hk & Hb)%list_elem_of_fmap. specialize (Hf b Hb). unfold key_lt in Hf.
  by rewrite Hk, ltb_irrefl in Hf.
Qed.

Lemma reference_none_inv levels level l :
  levels + level = MaxLevel -> sorted l -> Forall (tuple_ok text_ok) l -> BucketSize < length l ->
  reference levels level l = None -> inseparable level l.
Proof.
  revert level l. induction levels as [|levels IH]; intros level l Hlv Hs Hok Hlen Hr.
  { exists l. split_and!; [done|by apply sorted_NoDup|done|]. intros i a b Hi. lia. }
  assert (Hp : exists p, p < 32 /\ slot (reference levels (level + 1)) (group level p l) = None).
  { cbn [reference] in Hr. apply bind_None in Hr as [Hm|(es & _ & ?)]; [|done].
    apply mapM_None_1, Exists_exists in Hm as (p & Hin%list_elem_of_In%in_seq & Hn). exists p. unfold K in Hin.
    split; [lia|exact Hn]. }
  destruct Hp as (p & Hp & Hn). unfold slot in Hn. destruct (group level p l) as [|t g0] eqn:E; [done|].
  rewrite <- E in *. destruct (Nat.leb_spec (length (group level p l)) BucketSize) as [|Hgt]; [done|].
  assert (Hgok : Forall (tuple_ok text_ok) (group level p l)).
  { rewrite Forall_forall in *. intros u [Hu _]%elem_of_group. by apply Hok. }
  destruct (reference levels (level + 1) (group level p l)) as [n|] eqn:Hrn.
  { exfalso. cbn in Hn. destruct (node_hash_ok s n) as (h & Hh & _); [by eapply (reference_ok s)|]. by rewrite Hh in Hn. }
  destruct (IH (level + 1) (group level p l)) as (g & Hsub & Hnd & Hl & Hsame);
    [lia|by apply group_sorted|done|done|done|].
  exists g. split_and!; [|done|done|].
  - intros u Hu. by apply Hsub, elem_of_group in Hu as [? _].
  - intros i a b Hi Ha Hb. destruct (decide (i = level)) as [->|]; [|apply Hsame; (done || lia)].
    apply Hsub, elem_of_group in Ha as [_ ->]. by apply Hsub, elem_of_group in Hb as [_ ->].
Qed.

(** Fewer keys, still a trie. *)
Lemma group_keys_length level p l l' :
  sorted l -> sorted l' -> (forall k, k ∈ map Key l -> k ∈ map Key l') ->
  length (group level p l) <= length (group level p l')
  /\ forall k, k ∈ map Key (group level p l) -> k ∈ map Key (group level p l').
Proof.
  intros Hs Hs' Hsub.
  assert (Hk : forall k, k ∈ map Key (group level p l) -> k ∈ map Key (group level p l')).
  { intros k (t & -> & [Ht Hsl]%elem_of_group)%list_elem_of_fmap.
    pose proof (Hsub (Key t) (list_elem_of_fmap_2 Key _ _ Ht)) as (t' & Hk' & Ht')%list_elem_of_fmap.
    rewrite Hk'. apply list_elem_of_fmap_2, elem_of_group. split; [done|]. by rewrite <- Hk'. }
  split; [|done]. rewrite <- !(length_map Key). apply NoDup_incl_length.
  - apply NoDup_ListNoDup, sorted_NoDup, group_sorted, Hs.
  - intros k Hin%list_elem_of_In. by apply list_elem_of_In, Hk.
Qed.

Lemma reference_mono levels level l l' n :
  sorted l -> sorted l' -> Forall (tuple_ok text_ok) l -> (forall k, k ∈ map Key l -> k ∈ map Key l') ->
  reference levels level l' = Some n -> exists n', reference levels level l = Some n'.
Proof.
  revert level l l' n. induction levels as [|levels IH]; intros level l l' n Hs Hs' Hok Hsub Hr; [done|].
  destruct (reference (S levels) level l) as [m|] eqn:E; [by exists m|]. exfalso.
  cbn [reference] in E. apply bind_None in E as [Hm|(es & _ & ?)]; [|done].
  apply mapM_None_1, Exists_exists in Hm as (p & Hin%list_elem_of_In%in_seq & Hn). unfold K in Hin. cbn beta in Hn.
  destruct (group_keys_length level p l l' Hs Hs' Hsub) as [Hl Hk].
  apply reference_spec in Hr as (es & [_ Hes] & _). destruct (Hes p) as (o & _ & Ho); [lia|].
  unfold slot in Hn, Ho. destruct (group level p l) as [|t g0] eqn:Eg; [done|]. rewrite <- Eg in *.
  destruct (Nat.leb_spec (length (group level p l)) BucketSize) as [|Hgt]; [done|].
  destruct (group level p l') as [|t' g'] eqn:Eg'; [simpl in Hl; lia|]. rewrite <- Eg' in *.
  destruct (Nat.leb_spec (length (group level p l')) BucketSize) as [|_]; [lia|].
  apply bind_Some in Ho as (c & Hc & _).
  assert (Hgok : Forall (tuple_ok text_ok) (group level p l)).
  { rewrite Forall_forall in *. intros u [Hu _]%elem_of_group. by apply Hok. }
  destruct (IH (level + 1) (group level p l) (group level p l') c) as [n' Hn'];
    [by apply group_sorted|by apply group_sorted|done|done|done|].
  rewrite Hn' in Hn. cbn in Hn. destruct (node_hash_ok s n') as (h & Hh & _); [by eapply (reference_ok s)|].
  by rewrite Hh in Hn.
Qed.
End exists_trie.

(** ** Representation *)

Lemma MaxLevel_S : MaxLevel = S 50.
Proof. reflexivity. Qed.

#[local] Opaque MaxLevel.

Section represents.
Context {CS : Type} `{ContentStoreLaws CS, NodeCodec}.

Definition root_node (m : gmap string Hash) : option SnapshotNodeData := reference MaxLevel 0 (sorted_bindings m).

(** All the nodes of the trie of [m]. *)
Definition trie_nodes (m : gmap string Hash) : list SnapshotNodeData :=
  match root_node m with Some n => n :: subnodes MaxLevel 0 (sorted_bindings m) | None => [] end.

Definition represents (s : CS) (r : Hash) (m : gmap string Hash) : Prop :=
  (exists n, root_node m = Some n /\ node_hash n = Some r) /\ forall n, n ∈ trie_nodes m -> held s n.

(** Among these nodes no two share a hash, and none has the zero hash, which
    the code reads as an absent root. *)
Definition hash_sound (ns : list SnapshotNodeData) : Prop :=
  (forall a b, a ∈ ns -> b ∈ ns -> node_hash a = node_hash b -> a = b)
  /\ forall a, a ∈ ns -> node_hash a <> Some zero_hash.

Definition map_ok (text_ok : string -> bool) (m : gmap string Hash) : Prop :=
  forall k v, m !! k = Some v -> text_ok k = true /\ wire_hash v.

Lemma bindings_ok text_ok m : map_ok text_ok m -> Forall (tuple_ok text_ok) (sorted_bindings m).
Proof. intros Hm. apply Forall_forall. intros t Ht%elem_of_sorted_bindings. by apply Hm. Qed.

Lemma map_ok_insert text_ok m k v :
  map_ok text_ok m -> text_ok k = true -> wire_hash v -> map_ok text_ok (<[k := v]> m).
Proof. intros Hm Hk Hv k' v'. rewrite lookup_insert_Some. intros [[<- <-]|[_ Hl]]; [done|by apply Hm]. Qed.

Lemma hash_sound_sub ns ns' : (forall n, n ∈ ns' -> n ∈ ns) -> hash_sound ns -> hash_sound ns'.
Proof. intros Hsub [Hi Hz]. split; eauto. Qed.

Section operations.
Context {text_ok : string -> bool} `{!TrieStorage (CS := CS) text_ok}.

Lemma represents_load s r m n :
  represents s r m -> root_node m = Some n -> node_hash n = Some r /\ LoadTrieNode s r = Some n.
Proof.
  intros [(n' & Hn' & Hr) Hheld] Hn. assert (n' = n) as -> by congruence. split; [done|].
  destruct (Hheld n) as (h & Hh & Hl); [unfold trie_nodes; rewrite Hn; left|]. congruence.
Qed.

(** A store that came to hold the nodes of [m'] represents [m']. *)
Lemma represents_extends s s' m' n' r' W :
  root_node m' = Some n' -> node_hash n' = Some r' -> extends s s' W ->
  (forall n, n ∈ W -> n ∈ trie_nodes m') ->
  (forall n, n ∈ trie_nodes m' -> n ∈ W \/ held s n) ->
  hash_sound (trie_nodes m') -> represents s' r' m'.
Proof.
  intros Hn' Hr' He HW Hcov [Hinj _]. split; [eauto|]. intros n Hn. apply He.
  - destruct (Hcov n Hn); auto.
  - intros w Hw Hh. by apply Hinj; [apply HW| |].
Qed.

Lemma TriePut_run s r m k v :
  represents s r m -> map_ok text_ok m -> text_ok k = true -> wire_hash v -> r <> zero_hash ->
  match root_node (<[k := v]> m) with
  | Some n' => exists s' r' W, TriePut s r k v = (s', Ok r') /\ node_hash n' = Some r' /\ extends s s' W
      /\ (forall n, n ∈ W -> n ∈ trie_nodes (<[k := v]> m))
      /\ (forall n, n ∈ trie_nodes (<[k := v]> m) -> n ∈ W \/ n ∈ trie_nodes m)
  | None => exists s', TriePut s r k v = (s', Err TrieCollision)
  end.
Proof.
  intros Hrep Hm Hk Hv Hz. destruct (proj1 Hrep) as (n & Hn & _).
  destruct (represents_load s r m n Hrep Hn) as [Hh Hl]. unfold root_node in Hn.
  assert (Hload : loadOrEmpty s r = n).
  { unfold loadOrEmpty, IsZero. rewrite bool_decide_false by done. rewrite Hl.
    destruct (reference_ok s MaxLevel 0 _ n (bindings_ok _ _ Hm) Hn) as [-> _]. done. }
  pose proof (putAtNode_spec MaxLevel 0 s (sorted_bindings m) n k v (sorted_bindings_sorted m)
                (bindings_ok _ _ Hm) (conj Hk Hv) Hn) as Hput.
  unfold put_correct in Hput. rewrite sorted_bindings_insert in Hput. unfold TriePut, root_node. rewrite Hload.
  assert (Hheld : forall x, x ∈ subnodes MaxLevel 0 (sorted_bindings m) -> held s x).
  { intros x Hx. apply Hrep. unfold trie_nodes, root_node. rewrite Hn. by right. }
  specialize (Hput Hheld). unfold trie_nodes, root_node. rewrite Hn.
  destruct (reference MaxLevel 0 (sorted_bindings (<[k := v]> m))) as [n'|] eqn:Hn'.
  - destruct Hput as (s1 & W & -> & He & HW & HW').
    assert (Hok' : node_ok text_ok n') by (eapply (reference_ok s); [|exact Hn']; by apply bindings_ok, map_ok_insert).
    destruct (StoreTrieNode_spec s1 n' Hok') as (s2 & r' & Hst & Hr' & _ & He2).
    exists s2, r', (W ++ [n']). split_and!; [done|done|by eapply extends_trans| |].
    + intros x. rewrite elem_of_app, list_elem_of_singleton, elem_of_cons. intros [Hx|Hx]; auto.
    + intros x. rewrite elem_of_app, list_elem_of_singleton, !elem_of_cons. intros [Hx|Hx]; auto.
      destruct (HW' x Hx); auto.
  - destruct Hput as [s1 ->]. by exists s1.
Qed.

(** C28: putting a binding. On a root that represents [m], [TriePut] returns the
    hash of the reference trie of [m] with the binding added or replaced,
    whatever the trie looked like, and the new store represents it; it fails
    only when there is no such trie, with the collision error, and then four of
    the keys agree on every level. Hypotheses: the keys and hashes can be
    written, the root is not the zero hash, which the code reads as an absent
    root, and no two nodes of the new trie share a hash. *)
Theorem TriePut_refines (s : CS) (r : Hash) (m : gmap string Hash) (k : string) (v : Hash) :
  represents s r m -> map_ok text_ok m -> text_ok k = true -> wire_hash v ->
  r <> zero_hash -> hash_sound (trie_nodes (<[k := v]> m)) ->
  (exists s' r', TriePut s r k v = (s', Ok r') /\ represents s' r' (<[k := v]> m))
  \/ (exists s', TriePut s r k v = (s', Err TrieCollision))
     /\ inseparable 0 (sorted_bindings (<[k := v]> m)).
Proof.
  intros Hrep Hm Hk Hv Hz Hsound.
  pose proof (TriePut_run s r m k v Hrep Hm Hk Hv Hz) as Hrun.
  destruct (root_node (<[k := v]> m)) as [n'|] eqn:Hn'.
  - left. destruct Hrun as (s' & r' & W & Hp & Hr' & He & HW & Hcov). exists s', r'. split; [done|].
    eapply represents_extends; [done..| |done].
    intros x Hx. destruct (Hcov x Hx); [by left|right; by apply Hrep].
  - right. split; [done|]. eapply (reference_none_inv s MaxLevel 0);
      [done|apply sorted_bindings_sorted|by apply bindings_ok, map_ok_insert| |exact Hn'].
    apply Nat.nle_gt. intros Hle. destruct (reference_short 50 0 _ Hle) as [x Hx].
    rewrite <- MaxLevel_S in Hx. unfold root_node in Hn'. congruence.
Qed.

(** ** Building *)

(** Later bindings win. *)
Definition bind_all (bs : list BucketTuple) (m : gmap string Hash) : gmap string Hash :=
  fold_left (fun m b => <[Key b := ValueHash b]> m) bs m.

(** Every trie on the way from [m] to [bind_all bs m] has sound hashes. *)
Definition steps_sound (bs : list BucketTuple) (m : gmap string Hash) : Prop :=
  forall i, i <= length bs -> hash_sound (trie_nodes (bind_all (take i bs) m)).

Lemma bind_all_keys bs m k : is_Some (m !! k) -> is_Some (bind_all bs m !! k).
Proof.
  revert m. induction bs as [|b bs IH]; intros m Hk; [done|]. apply IH.
  destruct (decide (Key b = k)) as [<-|]; [by rewrite lookup_insert_eq|by rewrite lookup_insert_ne].
Qed.

Lemma bind_all_ok bs m : Forall (tuple_ok text_ok) bs -> map_ok text_ok m -> map_ok text_ok (bind_all bs m).
Proof.
  revert m. induction bs as [|b bs IH]; intros m; [done|]. intros [[Hk Hv] Hbs]%Forall_cons Hm.
  by apply IH, map_ok_insert.
Qed.

(** A submap by keys of a map with a trie has a trie. *)
Lemma root_node_mono (s : CS) m m' n :
  map_ok text_ok m -> (forall k, is_Some (m !! k) -> is_Some (m' !! k)) -> root_node m' = Some n ->
  exists n', root_node m = Some n'.
Proof.
  unfold root_node. intros Hm Hsub Hn. apply (reference_mono s MaxLevel 0 (sorted_bindings m) (sorted_bindings m') n);
    [apply sorted_bindings_sorted|apply sorted_bindings_sorted|by apply bindings_ok| |exact Hn].
  intros k (t & -> & Ht%elem_of_sorted_bindings)%list_elem_of_fmap.
  destruct (Hsub (Key t)) as [v Hv]; [by eauto|]. apply list_elem_of_fmap. exists (mkTuple (Key t) v).
  split; [done|]. by apply elem_of_sorted_bindings.
Qed.

Lemma put_bindings_spec s r m bs n :
  represents s r m -> map_ok text_ok m -> Forall (tuple_ok text_ok) bs -> steps_sound bs m ->
  root_node (bind_all bs m) = Some n ->
  exists s' r', put_bindings s r bs = (s', Ok r') /\ represents s' r' (bind_all bs m).
Proof.
  revert s r m. induction bs as [|b bs IH]; intros s r m Hrep Hm Hbs Hsound Hn; [by exists s, r|].
  pose proof Hbs as [[Hk Hv] Hbs']%Forall_cons. destruct (proj1 Hrep) as (n0 & Hn0 & Hr0).
  assert (Hz : r <> zero_hash).
  { intros ->. apply (proj2 (Hsound 0 ltac:(lia)) n0); [|done]. cbn. unfold trie_nodes. rewrite Hn0. left. }
  assert (Hm1 : map_ok text_ok (<[Key b := ValueHash b]> m)) by (by apply map_ok_insert).
  destruct (root_node_mono s (<[Key b := ValueHash b]> m) (bind_all (b :: bs) m) n Hm1) as [n1 Hn1]; [|exact Hn|].
  { intros k. by apply (bind_all_keys bs). }
  pose proof (TriePut_run s r m (Key b) (ValueHash b) Hrep Hm Hk Hv Hz) as Hrun. rewrite Hn1 in Hrun.
  destruct Hrun as (s1 & r1 & W & Hp & Hr1 & He & HW & Hcov).
  assert (Hrep1 : represents s1 r1 (<[Key b := ValueHash b]> m)).
  { eapply represents_extends; [done..| |].
    - intros x Hx. destruct (Hcov x Hx); [by left|right; by apply Hrep].
    - apply (Hsound 1). simpl. lia. }
  cbn [put_bindings]. rewrite Hp. apply (IH s1 r1 (<[Key b := ValueHash b]> m)); [done..| |done].
  intros i Hi. apply (Hsound (S i)). simpl. lia.
Qed.

Lemma represents_empty s :
  exists s' r, StoreTrieNode s EmptyNode = (s', Ok r) /\ represents s' r ∅.
Proof.
  assert (Hn : root_node ∅ = Some EmptyNode).
  { unfold root_node. rewrite sorted_bindings_empty, MaxLevel_S. apply reference_nil. }
  assert (Hsub : subnodes MaxLevel 0 (sorted_bindings ∅) = []) 
    by (rewrite sorted_bindings_empty; apply subnodes_short; cbn [length]; lia).
  destruct (StoreTrieNode_spec s EmptyNode) as (s' & r & Hst & Hr & _ & He).
  { eapply (reference_ok s MaxLevel 0 []); [constructor|]. rewrite MaxLevel_S. apply reference_nil. }
  exists s', r. split; [done|]. split; [by exists EmptyNode|]. intros n. unfold trie_nodes. rewrite Hn, Hsub.
  intros ->%list_elem_of_singleton. apply He; [right; by apply list_elem_of_singleton|].
  by intros w ->%list_elem_of_singleton.
Qed.

Lemma BuildTrie_run s bs n :
  Forall (tuple_ok text_ok) bs -> steps_sound bs ∅ -> root_node (bind_all bs ∅) = Some n ->
  exists s' r, BuildTrie s bs = (s', Ok r) /\ represents s' r (bind_all bs ∅).
Proof.
  intros Hbs Hsound Hn. destruct (represents_empty s) as (s1 & r1 & Hst & Hrep).
  assert (Hm : map_ok text_ok ∅) by (by intros k v ?%lookup_empty_Some).
  destruct (put_bindings_spec s1 r1 ∅ bs n Hrep Hm Hbs Hsound Hn) as (s2 & r2 & Hp & Hrep2).
  exists s2, r2. split; [|done]. unfold BuildTrie. destruct bs as [|b bs]; [cbn in Hp|by rewrite Hst].
  rewrite Hst. congruence.
Qed.

(** ** Reading *)

Lemma add_tuples_lookup l (m : gmap string Hash) k v :
  NoDup (map Key l) -> (forall t, t ∈ l -> m !! Key t = None) ->
  fold_left (fun m t => <[Key t := ValueHash t]> m) l m !! k = Some v <-> mkTuple k v ∈ l \/ m !! k = Some v.
Proof.
  revert m. induction l as [|t l IH]; intros m; cbn [map fold_left].
  { intros _ _. rewrite elem_of_nil. tauto. }
  intros [Hnin Hnd]%NoDup_cons Hm. rewrite IH; [|done|].
  2:{ intros u Hu. rewrite lookup_insert_ne; [apply Hm; by right|]. intros He. apply Hnin. rewrite He.
      by apply list_elem_of_fmap_2. }
  rewrite elem_of_cons, lookup_insert_Some. specialize (Hm t ltac:(left)). split.
  - intros [?|[[<- <-]|[? ?]]]; auto. left. left. by destruct t.
  - intros [[<-|?]|Hv]; auto. right. right. split; [congruence|done].
Qed.

Lemma walk_represents {A} (on_bucket : A -> list BucketTuple -> A) s r m acc :
  represents s r m -> exists n, LoadTrieNode s r = Some n
    /\ walk on_bucket (links_fuel s) s acc n
       = Some (fold_left on_bucket (leaves MaxLevel 0 (sorted_bindings m)) acc).
Proof.
  intros Hrep. destruct (proj1 Hrep) as (n & Hn & _). exists n.
  destruct (represents_load s r m n Hrep Hn) as [_ Hl]. split; [done|].
  eapply walk_spec; [exact Hn| |unfold links_fuel; lia]. intros x Hx. apply Hrep. unfold trie_nodes. rewrite Hn. by right.
Qed.

Lemma CollectAllBindings_represents s r m : represents s r m -> CollectAllBindings s r "" = Some m.
Proof.
  intros Hrep. unfold CollectAllBindings, collectBindings.
  destruct (walk_represents (add_tuples (joinKey "")) s r m ∅ Hrep) as (n & -> & ->). f_equal.
  destruct (proj1 Hrep) as (n' & Hn' & _). pose proof (leaves_perm _ _ _ _ Hn') as Hperm.
  set (ls := leaves MaxLevel 0 (sorted_bindings m)) in *. clearbody ls.
  assert (Hfold : forall ls acc, fold_left (add_tuples (joinKey "")) ls acc
                   = fold_left (fun m t => <[Key t := ValueHash t]> m) (concat ls) acc).
  { induction ls0 as [|b ls0 IH]; intros acc; [done|]. cbn [concat fold_left]. by rewrite fold_left_app, IH. }
  rewrite Hfold. apply map_eq. intros k. apply option_eq. intros v. rewrite add_tuples_lookup.
  - rewrite Hperm, elem_of_sorted_bindings. rewrite lookup_empty. cbn. split; [by intros [?|?]|auto].
  - rewrite Hperm. apply sorted_NoDup, sorted_bindings_sorted.
  - intros t _. apply lookup_empty.
Qed.

(** Building. [BuildTrie] on bindings whose final map has a trie returns the
    hash of that map's reference trie, and reading the trie back from the store
    gives the map: the last binding of each key. *)
Theorem BuildTrie_roundtrip (s : CS) (bs : list BucketTuple) (n : SnapshotNodeData) :
  Forall (tuple_ok text_ok) bs -> steps_sound bs ∅ -> root_node (bind_all bs ∅) = Some n ->
  exists s' r, BuildTrie s bs = (s', Ok r) /\ node_hash n = Some r
    /\ CollectAllBindings s' r "" = Some (bind_all bs ∅).
Proof.
  intros Hbs Hsound Hn. destruct (BuildTrie_run s bs n Hbs Hsound Hn) as (s' & r & Hb & Hrep).
  exists s', r. split_and!; [done| |by apply CollectAllBindings_represents].
  by destruct (represents_load _ _ _ _ Hrep Hn).
Qed.

(** C30: convergence. Two peers that build from bindings in different orders, over
    different stores, get the same root hash whenever the bindings agree as
    maps; and putting one more binding incrementally gives the root hash that
    building from scratch gives. *)
Theorem trie_convergence (s1 s2 : CS) (bs1 bs2 : list BucketTuple) (b : BucketTuple) (n : SnapshotNodeData) :
  Forall (tuple_ok text_ok) (bs1 ++ [b]) -> Forall (tuple_ok text_ok) bs2 ->
  steps_sound (bs1 ++ [b]) ∅ -> steps_sound bs2 ∅ ->
  bind_all (bs1 ++ [b]) ∅ = bind_all bs2 ∅ -> root_node (bind_all bs2 ∅) = Some n ->
  exists s' r, snd (BuildTrie s1 (bs1 ++ [b])) = Ok r /\ snd (BuildTrie s2 bs2) = Ok r
    /\ snd (BuildTrie s1 bs1) = Ok s' /\ snd (TriePut (fst (BuildTrie s1 bs1)) s' (Key b) (ValueHash b)) = Ok r.
Proof.
  intros Hok1 Hok2 Hs1 Hs2 Heq Hn. destruct (BuildTrie_run s2 bs2 n Hok2 Hs2 Hn) as (s2' & r & Hb2 & Hrep2).
  rewrite <- Heq in Hn. destruct (BuildTrie_run s1 _ n Hok1 Hs1 Hn) as (s1' & r1 & Hb1 & Hrep1).
  apply Forall_app in Hok1 as [Hokb Hb]. rewrite Forall_singleton in Hb.
  assert (Hstep : bind_all (bs1 ++ [b]) ∅ = <[Key b := ValueHash b]> (bind_all bs1 ∅)).
  { unfold bind_all. by rewrite fold_left_app. }
  assert (Hsound : steps_sound bs1 ∅).
  { intros i Hi. specialize (Hs1 i). rewrite take_app_le in Hs1 by done. apply Hs1. rewrite length_app. lia. }
  assert (Hokm : map_ok text_ok (bind_all bs1 ∅)) by (apply bind_all_ok; [done|by intros k v ?%lookup_empty_Some]).
  destruct (root_node_mono s1 (bind_all bs1 ∅) (bind_all (bs1 ++ [b]) ∅) n Hokm) as [n0 Hn0]; [|exact Hn|].
  { intros k Hk. rewrite Hstep. destruct (decide (Key b = k)) as [<-|];
      [by rewrite lookup_insert_eq|by rewrite lookup_insert_ne]. }
  destruct (BuildTrie_run s1 bs1 n0 Hokb Hsound Hn0) as (s0 & r0 & Hb0 & Hrep0).
  assert (Hz : r0 <> zero_hash).
  { destruct (represents_load _ _ _ _ Hrep0 Hn0) as [Hr0 _]. intros ->.
    apply (proj2 (Hsound (length bs1) ltac:(lia)) n0); [|done]. rewrite firstn_all. unfold trie_nodes. rewrite Hn0. left. }
  pose proof (TriePut_run s0 r0 _ (Key b) (ValueHash b) Hrep0 Hokm (proj1 Hb) (proj2 Hb) Hz) as Hrun.
  rewrite <- Hstep, Hn in Hrun. destruct Hrun as (s3 & r3 & _ & Hp & Hr3 & _).
  destruct (represents_load _ _ _ _ Hrep1 Hn) as [Hr1 _]. rewrite Heq in Hn.
  destruct (represents_load _ _ _ _ Hrep2 Hn) as [Hr2 _].
  exists r0, r. rewrite Hb0, Hb1, Hb2. cbn [fst snd]. rewrite Hp. cbn [snd]. split_and!; congruence.
Qed.
End operations.
End represents.
