(* ===== verification/TrieRemove.v ===== *)
(** * Removal from the snapshot trie

    [removeAtNode] and [TrieRemove] restore the canonical form: removing a
    binding gives the reference trie of the remaining bindings, sub-nodes that
    fall below four bindings being folded back into a bucket. *)

From Stdlib Require Import Ascii.
From S2P Require Import Prelude GoStrings Sha2 Errors Hash Entity Store Trie TrieSpec TrieCanon TrieMap.

Open Scope nat_scope.

Lemma group_remove level l k :
  sorted l ->
  match BucketRemove l k with
  | None => BucketRemove (group level (slice level k) l) k = None
  | Some l' => BucketRemove (group level (slice level k) l) k = Some (group level (slice level k) l')
               /\ forall q, q <> slice level k -> group level q l' = group level q l
  end.
Proof.
  intros Hs. set (p := slice level k). pose proof (group_sorted level p l Hs) as Hgs.
  pose proof (BucketRemove_spec l k Hs) as Hl. pose proof (BucketRemove_spec _ k Hgs) as Hg.
  destruct (BucketRemove l k) as [l'|]; destruct (BucketRemove (group level p l) k) as [g'|].
  - destruct Hl as (Hs' & _ & He & _), Hg as (Hgs' & _ & Hge & _). split.
    + f_equal. apply sorted_ext; [done|by apply group_sorted|]. intros t.
      rewrite Hge, !elem_of_group, He. tauto.
    + intros q Hq. apply sorted_ext; [by apply group_sorted|by apply group_sorted|]. intros t.
      rewrite !elem_of_group, He. split; [tauto|]. intros [Ht Hsl]. split; [|done]. split; [done|].
      intros Hk. subst. done.
  - destruct Hl as (_ & (t & Ht & Hk) & _). exfalso. apply (Hg t); [|done]. apply elem_of_group. by subst.
  - destruct Hg as (_ & (t & [Ht _]%elem_of_group & Hk) & _). by destruct (Hl t Ht).
  - done.
Qed.

Lemma merge_sort_sorted l g : sorted g -> l ≡ₚ g -> merge_sort key_le l = g.
Proof.
  intros Hs Hp. apply sorted_ext; [|done|].
  - apply strictly_sorted; [apply (StronglySorted_merge_sort _)|].
    rewrite (merge_sort_Permutation key_le), Hp. by apply sorted_NoDup.
  - intros t. by rewrite (merge_sort_Permutation key_le), Hp.
Qed.

Section remove.
Context {CS : Type} `{ContentStoreLaws CS, NodeCodec}.
Context {text_ok : string -> bool} `{!TrieStorage (CS := CS) text_ok}.

(** Counting and collecting the bindings of the node of [g]. *)
Section read.
Context (s : CS) (levels level : nat) (g : list BucketTuple) (c : SnapshotNodeData).
Context (Hs : sorted g) (Hc : reference levels level g = Some c).
Context (Hheld : forall m, m ∈ subnodes levels level g -> held s m) (Hlv : levels <= MaxLevel).

Lemma BranchSize_spec : BranchSize s c = Some (length g).
Proof using Hc Hheld Hlv.
  unfold BranchSize. rewrite (walk_spec _ s levels level g c) by (done || (unfold links_fuel; lia)). f_equal.
  rewrite <- (Permutation_length (leaves_perm _ _ _ _ Hc)).
  assert (Hcount : forall ls acc, fold_left (fun c (b : list BucketTuple) => c + length b) ls acc = acc + length (concat ls)).
  { induction ls as [|b ls IH]; intros acc; cbn [fold_left concat length]; [lia|]. rewrite IH, length_app. lia. }
  by rewrite Hcount.
Qed.

Lemma CollectSubtreeTuples_spec : CollectSubtreeTuples s c = Some g.
Proof using Hs Hc Hheld Hlv.
  unfold CollectSubtreeTuples, collectSubtreeTuples.
  rewrite (walk_spec _ s levels level g c) by (done || (unfold links_fuel; lia)). f_equal.
  assert (Hcat : forall ls acc, fold_left (fun out (b : list BucketTuple) => out ++ b) ls acc = acc ++ concat ls).
  { induction ls as [|b ls IH]; intros acc; cbn [fold_left concat]; [by rewrite app_nil_r|]. by rewrite IH, app_assoc. }
  rewrite Hcat. apply merge_sort_sorted; [done|]. by eapply leaves_perm.
Qed.

(** The child that has become the node of [g] is folded into a bucket, or kept. *)
Lemma collapsedChild_spec : collapsedChild s c = Some (if length g <=? BucketSize then Some g else None).
Proof using Hs Hc Hheld Hlv.
  unfold collapsedChild. rewrite BranchSize_spec, CollectSubtreeTuples_spec. change (BucketSize + 1) with (S BucketSize).
  destruct (Nat.leb_spec (S BucketSize) (length g)), (Nat.leb_spec (length g) BucketSize); (done || lia).
Qed.
End read.

(** What removing [k] from the node of [l] has to do. *)
Definition remove_correct (levels level : nat) (s : CS) (l : list BucketTuple) (k : string)
    (outcome : CS * res TrieErr (option SnapshotNodeData)) : Prop :=
  match BucketRemove l k with
  | None => outcome = (s, Ok None)
  | Some l' => exists s' n' W, outcome = (s', Ok (Some n')) /\ reference levels level l' = Some n' /\ extends s s' W
      /\ (forall m, m ∈ W -> m ∈ subnodes levels level l')
      /\ (forall m, m ∈ subnodes levels level l' -> m ∈ subnodes levels level l \/ m ∈ W)
  end.

Definition distinct_hashes (ns : list SnapshotNodeData) : Prop :=
  forall a b, a ∈ ns -> b ∈ ns -> node_hash a = node_hash b -> a = b.

(** The node after its slot [p] became [o]. *)
Lemma remove_slot levels level s s' l l' k es o W :
  slots_of levels level l es -> BucketRemove l k = Some l' ->
  let p := slice level k in
  (forall q, q <> p -> group level q l' = group level q l) ->
  slot (reference levels (level + 1)) (group level p l') = Some o ->
  extends s s' W ->
  (forall m, m ∈ W -> BucketSize < length (group level p l')
     /\ (reference levels (level + 1) (group level p l') = Some m
         \/ (exists c, reference levels (level + 1) (group level p l') = Some c)
            /\ m ∈ subnodes levels (level + 1) (group level p l'))) ->
  (BucketSize < length (group level p l') -> forall m,
     reference levels (level + 1) (group level p l') = Some m \/ m ∈ subnodes levels (level + 1) (group level p l') ->
     m ∈ subnodes (S levels) level l \/ m ∈ W) ->
  remove_correct (S levels) level s l k (s', Ok (Some (node_of (<[p := o]> es)))).
Proof.
  intros Hes Hr p Hother Hslot He HW HW'. unfold remove_correct. rewrite Hr.
  pose proof (slots_update _ _ _ _ _ _ _ Hes (slice_lt level k) Hother Hslot) as Hu. fold p in Hu.
  exists s', (node_of (<[p := o]> es)), W. split_and!; [done| |done| |].
  - apply reference_spec. by exists (<[p := o]> es).
  - intros m Hm. destruct (HW m Hm) as [Hlt [Hc|[[c Hc] Hin]]]; apply elem_of_subnodes.
    + exists p, m. split_and!; [apply slice_lt|done|done|by left].
    + exists p, c. split_and!; [apply slice_lt|done|done|by right].
  - intros m Hm. apply (subnodes_update levels level l l' p m Hother) in Hm as [Hm|[Hlt Hm]]; [by left|].
    by apply HW'.
Qed.

(** The slot is emptied or keeps a bucket: nothing is written. *)
Lemma remove_small levels level s s' l l' k es e :
  slots_of levels level l es -> BucketRemove l k = Some l' ->
  let p := slice level k in
  (forall q, q <> p -> group level q l' = group level q l) ->
  length (group level p l') <= BucketSize -> es !! p = Some (Some e) -> extends s s' [] ->
  remove_correct (S levels) level s l k
    (s', match group level p l' with
         | [] => res_map_some (node_with (BitmapClear (Map_ (node_of es)) p)
                                 (removeEntryAt (Data_ (node_of es)) (index es p)))
         | b => res_map_some (node_with (Some (Map_ (node_of es)))
                                (replaceEntry (Data_ (node_of es)) (index es p) (BucketEntry b)))
         end).
Proof.
  intros Hes Hr p Hother Hlen He Hext. pose proof (slice_lt level k) as Hp. fold p in Hp.
  assert (Hfin : forall o, slot (reference levels (level + 1)) (group level p l') = Some o ->
    remove_correct (S levels) level s l k (s', Ok (Some (node_of (<[p := o]> es))))).
  { intros o Ho. eapply remove_slot; [done|done|done|done|done| |]; [by intros m ?%elem_of_nil|intros Hlt; fold p in Hlt; lia]. }
  unfold slot in Hfin. destruct (group level p l') as [|t g] eqn:E.
  - rewrite (slot_clear es p (proj1 Hes) Hp e He). by apply Hfin.
  - rewrite (slot_replace es p (proj1 Hes) Hp e _ He). apply Hfin.
    destruct (Nat.leb_spec (length (t :: g)) BucketSize); [done|lia].
Qed.

(** The slot keeps a link, to the node [c] of the remaining bindings. *)
Lemma remove_link levels level s s1 l l' k es e c W :
  sorted l -> Forall (tuple_ok text_ok) l -> slots_of levels level l es -> BucketRemove l k = Some l' ->
  let p := slice level k in
  (forall q, q <> p -> group level q l' = group level q l) ->
  BucketSize < length (group level p l') -> es !! p = Some (Some e) ->
  (forall m, m ∈ subnodes levels (level + 1) (group level p l) -> m ∈ subnodes (S levels) level l) ->
  reference levels (level + 1) (group level p l') = Some c -> extends s s1 W ->
  (forall m, m ∈ W -> m ∈ subnodes levels (level + 1) (group level p l')) ->
  (forall m, m ∈ subnodes levels (level + 1) (group level p l') ->
     m ∈ subnodes levels (level + 1) (group level p l) \/ m ∈ W) ->
  remove_correct (S levels) level s l k
    (run! (cs, h) := StoreTrieNode s1 c in
     (cs, res_map_some (node_with (Some (Map_ (node_of es)))
            (replaceEntry (Data_ (node_of es)) (index es p) (LinkEntry h))))).
Proof.
  intros Hs Hok Hes Hr p Hother Hlen He Hsub Hc Hext HW HW'. pose proof (slice_lt level k) as Hp. fold p in Hp.
  assert (Hok' : Forall (tuple_ok text_ok) l').
  { pose proof (BucketRemove_spec l k Hs) as Hspec. rewrite Hr in Hspec. destruct Hspec as (_ & _ & Hel & _).
    rewrite Forall_forall in *. intros t [Ht _]%Hel. by apply Hok. }
  destruct (slot_link s levels level p l' c Hok' Hlen Hc) as (h & Hh & Hslot).
  assert (Hcok : node_ok text_ok c).
  { eapply (reference_ok s); [|exact Hc]. rewrite Forall_forall in *. intros t [Ht _]%elem_of_group. by apply Hok'. }
  destruct (StoreTrieNode_spec s1 c Hcok) as (s2 & h' & -> & Hh' & _ & He2). rewrite Hh in Hh'. injection Hh' as <-.
  rewrite (slot_replace es p (proj1 Hes) Hp e _ He).
  eapply (remove_slot _ _ _ _ _ l' _ _ _ (W ++ [c])); [done|done|done|done|by eapply extends_trans| |].
  - intros m Hm. split; [done|]. apply elem_of_app in Hm as [Hm|Hm].
    + right. split; [by exists c|by apply HW].
    + apply list_elem_of_singleton in Hm. subst. by left.
  - intros _ m. rewrite elem_of_app, list_elem_of_singleton. intros [Hm|Hm].
    { right. right. apply Some_inj. exact (eq_trans (eq_sym Hm) Hc). }
    destruct (HW' m Hm); auto.
Qed.

(** The hashes of the child's remaining nodes are distinct when the whole's are. *)
Lemma child_distinct (s : CS) levels level l l' k c :
  sorted l -> Forall (tuple_ok text_ok) l -> BucketRemove l k = Some l' ->
  let p := slice level k in
  BucketRemove (group level p l) k = Some (group level p l') ->
  reference levels (level + 1) (group level p l) = Some c ->
  distinct_hashes (subnodes (S levels) level l') ->
  distinct_hashes (subnodes levels (level + 1) (group level p l')).
Proof.
  intros Hs Hok Hr p Hg' Hc Hdist. destruct (decide (length (group level p l') <= BucketSize)) as [Hshort|Hlong].
  { rewrite subnodes_short by done. by intros a b ?%elem_of_nil. }
  pose proof (group_sorted level p l Hs) as Hgs. pose proof (BucketRemove_spec _ k Hgs) as Hsp. rewrite Hg' in Hsp.
  destruct Hsp as (Hgs' & _ & Hel & _).
  destruct (reference_mono s levels (level + 1) (group level p l') (group level p l) c) as [c' Hc']; [done|done| | |done|].
  - rewrite Forall_forall in *. intros u [[Hu _]%elem_of_group _]%Hel. by apply Hok.
  - intros k' (u & -> & [Hu _]%Hel)%list_elem_of_fmap. by apply list_elem_of_fmap_2.
  - intros a b Ha Hb. apply Hdist; apply elem_of_subnodes; exists p, c';
      (split_and!; [apply slice_lt|lia|done|by right]).
Qed.

Lemma removeAtNode_spec levels level s l n k fuel :
  sorted l -> Forall (tuple_ok text_ok) l -> reference levels level l = Some n ->
  (forall m, m ∈ subnodes levels level l -> held s m) -> levels <= MaxLevel -> levels <= fuel ->
  (forall l', BucketRemove l k = Some l' -> distinct_hashes (subnodes levels level l')) ->
  remove_correct levels level s l k (removeAtNode fuel s n level k).
Proof.
  revert level s l n fuel. induction levels as [|levels IH]; intros level s l n fuel Hs Hok; [done|].
  intros (es & Hes & ->)%reference_spec Hheld Hlv Hf Hdist. destruct fuel as [|fuel]; [lia|].
  set (p := slice level k). pose proof (slice_lt level k) as Hp. fold p in Hp.
  destruct (proj2 Hes p Hp) as (o & Ho & Hslot). pose proof (group_sorted level p l Hs) as Hgs.
  pose proof (group_remove level l k Hs) as Hgr. fold p in Hgr.
  cbn [removeAtNode]. fold (slice level k). fold p. cbv zeta.
  rewrite slot_popcount, slot_bit by (done || apply Hes). unfold occupied. rewrite Ho.
  unfold slot in Hslot. destruct (group level p l) as [|t g] eqn:Eg.
  { injection Hslot as <-. unfold remove_correct. destruct (BucketRemove l k) as [l'|]; [|done]. by destruct Hgr as [? _]. }
  rewrite <- Eg in *. destruct (Nat.leb_spec (length (group level p l)) BucketSize) as [Hle|Hgt].
  - injection Hslot as <-. rewrite (slot_entry es p (proj1 Hes) Hp (BucketEntry (group level p l))) by done.
    destruct (BucketRemove l k) as [l'|] eqn:Hr.
    2:{ rewrite Hgr. unfold remove_correct. by rewrite Hr. }
    destruct Hgr as [Hg' Hother]. rewrite Hg'.
    assert (Hlen : length (group level p l') <= BucketSize).
    { pose proof (BucketRemove_spec _ k Hgs) as Hspec. rewrite Hg' in Hspec. destruct Hspec as (_ & _ & _ & Hl). lia. }
    pose proof (remove_small levels level s s l l' k es _ Hes Hr Hother Hlen Ho (extends_refl s)) as Hsm. fold p in Hsm.
    by destruct (group level p l') as [|t' g'].
  - apply bind_Some in Hslot as (c & Hc & Hslot). apply bind_Some in Hslot as (h & Hh & [= <-]).
    rewrite (slot_entry es p (proj1 Hes) Hp (LinkEntry h)) by done.
    assert (Hsub : forall m, m = c \/ m ∈ subnodes levels (level + 1) (group level p l) -> m ∈ subnodes (S levels) level l).
    { intros m Hm. apply elem_of_subnodes. by exists p, c. }
    destruct (Hheld c) as (h' & Hh' & Hload); [apply Hsub; by left|].
    rewrite Hh in Hh'. injection Hh' as <-. rewrite Hload.
    assert (Hgok : Forall (tuple_ok text_ok) (group level p l)).
    { rewrite Forall_forall in *. intros u [Hu _]%elem_of_group. by apply Hok. }
    destruct (BucketRemove l k) as [l'|] eqn:Hr.
    2:{ pose proof (IH (level + 1) s (group level p l) c fuel Hgs Hgok Hc) as Hrem. unfold remove_correct in Hrem |- *.
        rewrite Hgr in Hrem. rewrite Hr, Hrem; [done|intros m Hm; apply Hheld, Hsub; by right|lia|lia|done]. }
    destruct Hgr as [Hg' Hother].
    assert (Hdist' : distinct_hashes (subnodes levels (level + 1) (group level p l')))
      by (apply (child_distinct s levels level l l' k c); auto).
    pose proof (IH (level + 1) s (group level p l) c fuel Hgs Hgok Hc) as Hrem. unfold remove_correct in Hrem.
    rewrite Hg' in Hrem.
    destruct Hrem as (s1 & c' & W & -> & Hc' & Hext & HW & HW'); [intros m Hm; apply Hheld, Hsub; by right|lia|lia|by intros ? [= <-]|].
    assert (Hgs' : sorted (group level p l')).
    { pose proof (BucketRemove_spec _ k Hgs) as Hsp. rewrite Hg' in Hsp. apply Hsp. }
    assert (Hheld1 : forall m, m ∈ subnodes levels (level + 1) (group level p l') -> held s1 m).
    { intros m Hm. apply Hext.
      - destruct (HW' m Hm) as [Hin|Hin]; [left; apply Hheld, Hsub; by right|by right].
      - intros w Hw. apply Hdist'; [by apply HW|done]. }
    rewrite (collapsedChild_spec s1 levels (level + 1) (group level p l') c' Hgs' Hc' Hheld1 ltac:(lia)).
    destruct (Nat.leb_spec (length (group level p l')) BucketSize) as [Hshort|Hlong].
    + assert (W = []) as ->.
      { destruct W as [|w W]; [done|]. pose proof (HW w ltac:(left)) as Hw. rewrite subnodes_short in Hw by done.
        by apply elem_of_nil in Hw. }
      pose proof (remove_small levels level s s1 l l' k es _ Hes Hr Hother Hshort Ho Hext) as Hsm. fold p in Hsm.
      by destruct (group level p l') as [|t' g'].
    + eapply (remove_link _ _ _ _ _ l'); try done. fold p. intros m Hm. apply Hsub. by right.
Qed.

(** The run of [TrieRemove], with the nodes it writes. *)
Lemma TrieRemove_run s r m k :
  represents s r m -> map_ok text_ok m -> r <> zero_hash -> hash_sound (trie_nodes (delete k m)) ->
  exists s' r' n' W, TrieRemove s r k = (s', Ok r') /\ root_node (delete k m) = Some n' /\ node_hash n' = Some r'
    /\ extends s s' W /\ (forall x, x ∈ W -> x ∈ trie_nodes (delete k m))
    /\ (forall x, x ∈ trie_nodes (delete k m) -> x ∈ W \/ x ∈ trie_nodes m)
    /\ (m !! k = None -> s' = s /\ r' = r).
Proof.
  intros Hrep Hm Hz Hsound. destruct (proj1 Hrep) as (n & Hn & Hrn).
  destruct (represents_load s r m n Hrep Hn) as [Hr Hl].
  unfold TrieRemove, IsZero. rewrite bool_decide_false by done. rewrite Hl.
  assert (Hheld : forall x, x ∈ subnodes MaxLevel 0 (sorted_bindings m) -> held s x).
  { intros x Hx. apply Hrep. unfold trie_nodes. rewrite Hn. by right. }
  pose proof (removeAtNode_spec MaxLevel 0 s (sorted_bindings m) n k (links_fuel s) (sorted_bindings_sorted m)
                (bindings_ok _ _ Hm) Hn Hheld ltac:(lia) ltac:(unfold links_fuel; lia)) as Hrem.
  unfold remove_correct in Hrem. rewrite sorted_bindings_remove in Hrem. destruct (m !! k) as [v|] eqn:Hk.
  2:{ rewrite Hrem by done. exists s, r, n, []. rewrite delete_id by done.
      split_and!; [done|done|done|apply extends_refl|by intros x ?%elem_of_nil|by right|done]. }
  assert (Hok' : map_ok text_ok (delete k m)) by (intros k' v' [_ Hl']%lookup_delete_Some; by apply Hm).
  destruct (root_node_mono s (delete k m) m n Hok') as [n' Hn'];
    [intros k'; rewrite lookup_delete_is_Some; tauto|exact Hn|].
  destruct Hrem as (s1 & n1 & W & -> & Hn1 & He & HW & HW').
  { intros l' Hl' a b Ha Hb. apply Some_inj in Hl' as <-. apply (proj1 Hsound); unfold trie_nodes; rewrite Hn'; by right. }
  assert (n1 = n') as -> by (apply Some_inj; exact (eq_trans (eq_sym Hn1) Hn')).
  assert (Hnok : node_ok text_ok n') by (eapply (reference_ok s); [|exact Hn1]; by apply bindings_ok).
  destruct (StoreTrieNode_spec s1 n' Hnok) as (s2 & r' & Hst & Hr' & _ & He2). rewrite Hst.
  exists s2, r', n', (W ++ [n']). split_and!; [done|done|done|by eapply extends_trans| | |done].
  - intros x. unfold trie_nodes. rewrite Hn'. rewrite elem_of_app, list_elem_of_singleton, elem_of_cons.
    intros [Hx|Hx]; auto.
  - intros x. unfold trie_nodes. rewrite Hn', Hn. rewrite elem_of_app, list_elem_of_singleton, !elem_of_cons.
    intros [Hx|Hx]; auto. destruct (HW' x Hx); auto.
Qed.

(** C29: removing a binding. On a root that represents [m], [TrieRemove] succeeds
    and returns the hash of the reference trie of [m] without the key, which
    the new store represents; a key that is not bound leaves root and store as
    they are. *)
Theorem TrieRemove_refines (s : CS) (r : Hash) (m : gmap string Hash) (k : string) :
  represents s r m -> map_ok text_ok m -> r <> zero_hash -> hash_sound (trie_nodes (delete k m)) ->
  exists s' r', TrieRemove s r k = (s', Ok r') /\ represents s' r' (delete k m)
    /\ (m !! k = None -> s' = s /\ r' = r).
Proof.
  intros Hrep Hm Hz Hsound.
  destruct (TrieRemove_run s r m k Hrep Hm Hz Hsound) as (s' & r' & n' & W & -> & Hn' & Hr' & He & HW & Hcov & Hid).
  exists s', r'. split_and!; [done| |done]. eapply represents_extends; [done..| |done].
  intros x Hx. destruct (Hcov x Hx); [by left|right; by apply Hrep].
Qed.
End remove.
