(* ===== verification/TrieDiff.v ===== *)
(** * Comparing snapshot tries

    [TrieDiff] walks two tries of one store together and skips what has the
    same hash; the result is the difference of the two maps. *)

From Stdlib Require Import Ascii.
From S2P Require Import Prelude GoStrings Sha2 Errors Hash Entity Store Trie TrieSpec TrieCanon TrieMap TrieRemove.

Open Scope nat_scope.

(** ** What comparing two lists of bindings adds to a result *)

Definition only (l l' : list BucketTuple) (k : string) (v : Hash) : Prop := mkTuple k v ∈ l /\ k ∉ map Key l'.
Definition common (l l' : list BucketTuple) : nat := length (filter (fun t => t ∈ l') l).

Record diff_step (a b : list BucketTuple) (d d' : Diff) : Prop := {
  step_added k v : added d' !! k = Some v <-> only b a k v \/ added d !! k = Some v;
  step_removed k v : removed d' !! k = Some v <-> only a b k v \/ removed d !! k = Some v;
  step_changed k c : changed d' !! k = Some c <->
    (mkTuple k (BaseHash c) ∈ a /\ mkTuple k (TargetHash c) ∈ b /\ BaseHash c <> TargetHash c)
    \/ changed d !! k = Some c;
  step_unchanged : unchanged d' = u64 (unchanged d + Z.of_nat (common a b))
}.

(** No key of [l] has been reported yet. *)
Definition fresh (l : list BucketTuple) (d : Diff) : Prop :=
  forall t, t ∈ l -> added d !! Key t = None /\ removed d !! Key t = None /\ changed d !! Key t = None.

Definition disjoint_keys (l l' : list BucketTuple) : Prop := forall t u, t ∈ l -> u ∈ l' -> Key t <> Key u.

Definition counted (d : Diff) : Prop := u64 (unchanged d) = unchanged d.

Lemma u64_idem z : u64 (u64 z) = u64 z.
Proof. unfold u64. apply Zmod_mod. Qed.

Lemma step_counted a b d d' : diff_step a b d d' -> counted d'.
Proof. intros Hs. unfold counted. rewrite (step_unchanged _ _ _ _ Hs). apply u64_idem. Qed.

Lemma diff_step_refl d : counted d -> diff_step [] [] d d.
Proof.
  intros Hc. split.
  - intros k v. unfold only. rewrite elem_of_nil. tauto.
  - intros k v. unfold only. rewrite elem_of_nil. tauto.
  - intros k c. rewrite elem_of_nil. tauto.
  - unfold common. cbn. by rewrite Z.add_0_r.
Qed.

Lemma elem_of_keys k l : k ∈ map Key l <-> exists t, t ∈ l /\ Key t = k.
Proof. rewrite list_elem_of_fmap. split; intros (t & H1 & H2); by exists t. Qed.

Lemma filter_iff_in (P Q : BucketTuple -> Prop) `{!forall x, Decision (P x), !forall x, Decision (Q x)} (l : list BucketTuple) :
  (forall x, x ∈ l -> P x <-> Q x) -> filter P l = filter Q l.
Proof.
  induction l as [|a l IH]; intros Hpq; [done|]. rewrite !filter_cons, IH by (intros; apply Hpq; by right).
  specialize (Hpq a ltac:(left)). repeat case_decide; (done || tauto).
Qed.

Lemma common_app a1 a2 b1 b2 :
  disjoint_keys (a1 ++ b1) (a2 ++ b2) -> common (a1 ++ a2) (b1 ++ b2) = common a1 b1 + common a2 b2.
Proof.
  intros Hd. unfold common. rewrite filter_app, length_app. f_equal; f_equal; apply filter_iff_in.
  - intros t Ht. rewrite elem_of_app. split; [|by left]. intros [?|Hb]; [done|].
    exfalso. apply (Hd t t); [apply elem_of_app; by left|apply elem_of_app; by right|done].
  - intros t Ht. rewrite elem_of_app. split; [|by right]. intros [Hb|?]; [|done].
    exfalso. apply (Hd t t); [apply elem_of_app; by right|apply elem_of_app; by left|done].
Qed.

Lemma only_app a1 a2 b1 b2 k v :
  disjoint_keys (a1 ++ b1) (a2 ++ b2) ->
  only (a1 ++ a2) (b1 ++ b2) k v <-> only a1 b1 k v \/ only a2 b2 k v.
Proof.
  intros Hd. unfold only. rewrite map_app, !elem_of_app, !elem_of_keys. split.
  - intros [[Ha|Ha] Hn]; [left|right]; (split; [done|tauto]).
  - intros [[Ha Hn]|[Ha Hn]]; (split; [tauto|]); intros [(u & Hu & Hk)|(u & Hu & Hk)]; try by apply Hn; exists u.
    + apply (Hd (mkTuple k v) u); [apply elem_of_app; by left|apply elem_of_app; by right|done].
    + apply (Hd u (mkTuple k v)); [apply elem_of_app; by right|apply elem_of_app; by left|done].
Qed.

Lemma diff_step_trans a1 a2 b1 b2 d d1 d2 :
  disjoint_keys (a1 ++ b1) (a2 ++ b2) -> diff_step a1 b1 d d1 -> diff_step a2 b2 d1 d2 ->
  diff_step (a1 ++ a2) (b1 ++ b2) d d2.
Proof.
  intros Hd [A1 R1 C1 U1] [A2 R2 C2 U2].
  assert (Hd' : disjoint_keys (b1 ++ a1) (b2 ++ a2)).
  { intros t u Ht Hu. apply Hd; apply elem_of_app; rewrite elem_of_app in *; tauto. }
  split.
  - intros k v. rewrite A2, A1, (only_app b1 b2 a1 a2) by done. tauto.
  - intros k v. rewrite R2, R1, (only_app a1 a2 b1 b2) by done. tauto.
  - intros k c. rewrite C2, C1, !elem_of_app. split; [tauto|]. intros [([Ha|Ha] & [Hb|Hb] & Hne)|Hc]; auto.
    + exfalso. apply (Hd (mkTuple k (BaseHash c)) (mkTuple k (TargetHash c))); [apply elem_of_app; auto..|done].
    + exfalso. apply (Hd (mkTuple k (TargetHash c)) (mkTuple k (BaseHash c))); [apply elem_of_app; auto..|done].
  - rewrite U2, U1, common_app by done. unfold u64. rewrite Zplus_mod_idemp_l. f_equal. lia.
Qed.

Lemma diff_step_perm a a' b b' d d' : a ≡ₚ a' -> b ≡ₚ b' -> diff_step a b d d' -> diff_step a' b' d d'.
Proof.
  intros Ha Hb [A R C U].
  assert (Hk : forall l l' k, l ≡ₚ l' -> k ∈ map Key l <-> k ∈ map Key l').
  { intros l l' k Hp. by rewrite !elem_of_keys; setoid_rewrite Hp. }
  split.
  - intros k v. rewrite A. unfold only. by rewrite Hb, (Hk _ _ k Ha).
  - intros k v. rewrite R. unfold only. by rewrite Ha, (Hk _ _ k Hb).
  - intros k c. rewrite C. by rewrite Ha, Hb.
  - rewrite U. unfold common. do 3 f_equal. rewrite Ha. f_equal. apply list_filter_iff. intros t. by rewrite Hb.
Qed.

(** ** Single steps *)

Lemma add_step t d : fresh [t] d -> counted d -> diff_step [] [t] d (add_to d t).
Proof.
  intros Hf Hc. destruct (Hf t ltac:(left)) as (Ha & _ & _). destruct t as [k' v']. split; cbn [add_to added removed changed unchanged Key ValueHash] in *.
  - intros k v. rewrite lookup_insert_Some. unfold only. rewrite list_elem_of_singleton, elem_of_nil. split.
    + intros [[-> ->]|[_ ?]]; auto.
    + intros [[[= -> ->] _]|Hl]; [auto|]. right. split; [congruence|done].
  - intros k v. unfold only. rewrite elem_of_nil. tauto.
  - intros k c. rewrite elem_of_nil. tauto.
  - unfold common. cbn. by rewrite Z.add_0_r.
Qed.

Lemma remove_step t d : fresh [t] d -> counted d -> diff_step [t] [] d (remove_to d t).
Proof.
  intros Hf Hc. destruct (Hf t ltac:(left)) as (_ & Hr & _). destruct t as [k' v']. split; cbn [remove_to added removed changed unchanged Key ValueHash] in *.
  - intros k v. unfold only. rewrite elem_of_nil. tauto.
  - intros k v. rewrite lookup_insert_Some. unfold only. rewrite list_elem_of_singleton, elem_of_nil. split.
    + intros [[-> ->]|[_ ?]]; auto.
    + intros [[[= -> ->] _]|Hl]; [auto|]. right. split; [congruence|done].
  - intros k c. rewrite elem_of_nil. tauto.
  - unfold common. rewrite filter_cons, decide_False by apply not_elem_of_nil. cbn. by rewrite Z.add_0_r.
Qed.

Lemma both_step s t d : Key s = Key t -> fresh [s] d -> counted d -> diff_step [s] [t] d (both_to d s t).
Proof.
  intros Hk Hf Hc. destruct (Hf s ltac:(left)) as (_ & _ & Hch). destruct s as [k0 v], t as [k' v']. cbn in Hk, Hch. subst k'.
  assert (Honly : forall w w' k x, only [mkTuple k0 w] [mkTuple k0 w'] k x <-> False).
  { intros w w' k x. unfold only. cbn [map Key]. rewrite !list_elem_of_singleton. split; [|done]. by intros [[= -> _] Hn]. }
  unfold both_to. cbn [ValueHash Key]. case_decide as Hv.
  - subst v'. split; cbn [count_to added removed changed unchanged].
    + intros k x. rewrite Honly. tauto.
    + intros k x. rewrite Honly. tauto.
    + intros k [b t]. cbn. rewrite !list_elem_of_singleton. split; [tauto|]. intros [([= -> ->] & [= ->] & ?)|?]; done.
    + unfold common. rewrite filter_cons, decide_True by (by apply list_elem_of_singleton). done.
  - split; cbn [added removed changed unchanged].
    + intros k x. rewrite Honly. tauto.
    + intros k x. rewrite Honly. tauto.
    + intros k [b t]. rewrite lookup_insert_Some. cbn. rewrite !list_elem_of_singleton. split.
      * intros [[-> [= -> ->]]|[_ ?]]; auto.
      * intros [([= -> ->] & [= ->] & _)|Hl]; [auto|]. right. split; [congruence|done].
    + unfold common. rewrite filter_cons, decide_False by (by intros [= ?]%list_elem_of_singleton). cbn. by rewrite Z.add_0_r.
Qed.

(** Freshness survives a step on other keys. *)
Lemma fresh_step a b d d' l : diff_step a b d d' -> disjoint_keys (a ++ b) l -> fresh l d -> fresh l d'.
Proof.
  intros [A R C _] Hd Hf t Ht. destruct (Hf t Ht) as (Ha & Hr & Hc).
  assert (Hout : forall u, u ∈ a \/ u ∈ b -> Key u <> Key t) by (intros u Hu; apply Hd; [by apply elem_of_app|done]).
  split_and!; apply eq_None_not_Some.
  - intros [v [[Hin _]|Hv]%A]; [|congruence]. by apply (Hout _ (or_intror Hin)).
  - intros [v [[Hin _]|Hv]%R]; [|congruence]. by apply (Hout _ (or_introl Hin)).
  - intros [v [[Hin _]|Hv]%C]; [|congruence]. by apply (Hout _ (or_introl Hin)).
Qed.

Lemma fresh_sub l l' d : (forall t, t ∈ l' -> t ∈ l) -> fresh l d -> fresh l' d.
Proof. intros Hs Hf t Ht. apply Hf, Hs, Ht. Qed.

Lemma below_disjoint t l : (forall u, u ∈ l -> String.ltb (Key t) (Key u) = true) -> disjoint_keys [t] l.
Proof.
  intros Hlt u w ->%list_elem_of_singleton Hw Hk. specialize (Hlt w Hw). by rewrite Hk, ltb_irrefl in Hlt.
Qed.

Lemma sorted_head_disjoint t l : sorted (t :: l) -> disjoint_keys [t] l.
Proof.
  intros [_ Hf]%StronglySorted_inv. rewrite Forall_forall in Hf. by apply below_disjoint.
Qed.

Lemma fold_remove_spec l d : sorted l -> fresh l d -> counted d -> diff_step l [] d (fold_left remove_to l d).
Proof.
  revert d. induction l as [|t l IH]; intros d Hs Hf Hc; [by apply diff_step_refl|]. cbn [fold_left].
  pose proof (sorted_head_disjoint t l Hs) as Hd.
  assert (Hst : diff_step [t] [] d (remove_to d t)).
  { apply remove_step; [|done]. eapply fresh_sub; [|exact Hf]. intros u ->%list_elem_of_singleton. left. }
  apply (diff_step_trans [t] l [] [] d (remove_to d t)); [by rewrite !app_nil_r|done|].
  apply IH; [by apply StronglySorted_inv in Hs as [? _]| |by eapply step_counted].
  eapply fresh_step; [exact Hst|done|]. eapply fresh_sub; [|exact Hf]. intros u Hu. by right.
Qed.

Lemma fold_add_spec l d : sorted l -> fresh l d -> counted d -> diff_step [] l d (fold_left add_to l d).
Proof.
  revert d. induction l as [|t l IH]; intros d Hs Hf Hc; [by apply diff_step_refl|]. cbn [fold_left].
  pose proof (sorted_head_disjoint t l Hs) as Hd.
  assert (Hst : diff_step [] [t] d (add_to d t)).
  { apply add_step; [|done]. eapply fresh_sub; [|exact Hf]. intros u ->%list_elem_of_singleton. left. }
  apply (diff_step_trans [] [] [t] l d (add_to d t)); [done|done|].
  apply IH; [by apply StronglySorted_inv in Hs as [? _]| |by eapply step_counted].
  eapply fresh_step; [exact Hst|done|]. eapply fresh_sub; [|exact Hf]. intros u Hu. by right.
Qed.

(** The merge walk. *)
Lemma diffBuckets_spec a b d :
  sorted a -> sorted b -> fresh (a ++ b) d -> counted d -> diff_step a b d (diffBuckets a b d).
Proof.
  revert b d. induction a as [|x a IHa]; intros b d Hsa.
  { intros Hsb Hf Hc. destruct b; by apply fold_add_spec. }
  induction b as [|y b IHb] in d |- *; intros Hsb Hf Hc.
  { rewrite app_nil_r in Hf. by apply fold_remove_spec. }
  pose proof (sorted_head_disjoint _ _ Hsa) as Hdx. pose proof (sorted_head_disjoint _ _ Hsb) as Hdy.
  pose proof Hsa as [Hsa' Hfa]%StronglySorted_inv. pose proof Hsb as [Hsb' Hfb]%StronglySorted_inv.
  rewrite Forall_forall in Hfa, Hfb. unfold key_lt in Hfa, Hfb.
  assert (Hfx : fresh [x] d).
  { eapply fresh_sub; [|exact Hf]. intros u ->%list_elem_of_singleton. left. }
  assert (Hfy : fresh [y] d).
  { eapply fresh_sub; [|exact Hf]. intros u ->%list_elem_of_singleton. apply elem_of_app. right. left. }
  cbn [diffBuckets]. destruct (String.ltb (Key x) (Key y)) eqn:Hxy.
  - (* the key of [x] is in the first list only *)
    assert (Hd : disjoint_keys [x] (a ++ y :: b)).
    { apply below_disjoint. intros u [Hu|[->|Hu]%elem_of_cons]%elem_of_app; [by apply Hfa|done|].
      eapply ltb_trans; [exact Hxy|by apply Hfb]. }
    pose proof (remove_step x d Hfx Hc) as Hst.
    apply (diff_step_trans [x] a [] (y :: b) d (remove_to d x)); [by rewrite app_nil_r|done|].
    apply IHa; [done|done| |by eapply step_counted].
    eapply fresh_step; [exact Hst|done|]. eapply fresh_sub; [|exact Hf]. intros u Hu. by right.
  - destruct (String.ltb (Key y) (Key x)) eqn:Hyx.
    + assert (Hd : disjoint_keys [y] ((x :: a) ++ b)).
      { apply below_disjoint. intros u [[->|Hu]%elem_of_cons|Hu]%elem_of_app; [done| |by apply Hfb].
        eapply ltb_trans; [exact Hyx|by apply Hfa]. }
      pose proof (add_step y d Hfy Hc) as Hst.
      apply (diff_step_trans [] (x :: a) [y] b d (add_to d y)); [done|done|].
      apply IHb; [done| |by eapply step_counted].
      eapply fresh_step; [exact Hst|done|]. eapply fresh_sub; [|exact Hf]. intros u Hu.
      apply elem_of_app in Hu as [Hu|Hu]; apply elem_of_app; [by left|right; by right].
    + assert (Hk : Key x = Key y) by (destruct (ltb_total (Key x) (Key y)) as [?|[?|?]]; congruence).
      assert (Hd : disjoint_keys [x; y] (a ++ b)).
      { intros u w Hu Hw. assert (Key u = Key x) as ->.
        { apply elem_of_cons in Hu as [->|Hu]; [done|]. apply list_elem_of_singleton in Hu. congruence. }
        apply elem_of_app in Hw as [Hw|Hw]; [by apply Hdx; [apply list_elem_of_singleton|]|].
        rewrite Hk. by apply Hdy; [apply list_elem_of_singleton|]. }
      pose proof (both_step x y d Hk Hfx Hc) as Hst.
      apply (diff_step_trans [x] a [y] b d (both_to d x y)); [done|done|].
      apply IHa; [done|done| |by eapply step_counted].
      eapply fresh_step; [exact Hst|done|]. eapply fresh_sub; [|exact Hf]. intros u Hu.
      apply elem_of_app in Hu as [Hu|Hu]; [apply (elem_of_app (x :: a)); left; by right|].
      apply (elem_of_app (x :: a)). right. by right.
Qed.

(** ** Nodes *)

Section diff_nodes.
Context {CS : Type} `{ContentStoreLaws CS, NodeCodec}.
Implicit Types (s : CS) (l : list BucketTuple).

(** [c] is the node of [l] and the store holds what is below it. *)
Definition node_for s (levels level : nat) l (c : SnapshotNodeData) : Prop :=
  sorted l /\ reference levels level l = Some c /\ levels <= MaxLevel
  /\ forall m, m ∈ subnodes levels level l -> held s m.

(** [e] is the entry for the bindings [g]. *)
Definition entry_for s (levels level : nat) g (e : NodeEntry) : Prop :=
  sorted g /\ (e = BucketEntry g
    \/ exists c h, e = LinkEntry h /\ LoadTrieNode s h = Some c /\ node_for s levels level g c).

Lemma slot_entry_for s levels level l c p es :
  node_for s (S levels) level l c -> slots_of levels level l es -> p < 32 ->
  match es !! p with
  | Some (Some e) => entry_for s levels (level + 1) (group level p l) e
  | _ => group level p l = []
  end.
Proof.
  intros (Hs & Hr & Hlv & Hheld) [Hl Hes] Hp. destruct (Hes p Hp) as (o & -> & Hslot). unfold slot in Hslot.
  pose proof (group_sorted level p l Hs) as Hgs. destruct (group level p l) as [|t g] eqn:Eg; [by injection Hslot as <-|].
  rewrite <- Eg in *. destruct (Nat.leb_spec (length (group level p l)) BucketSize) as [|Hgt].
  - injection Hslot as <-. split; [done|by left].
  - apply bind_Some in Hslot as (c' & Hc' & Hslot). apply bind_Some in Hslot as (h & Hh & [= <-]).
    assert (Hsub : forall m, m = c' \/ m ∈ subnodes levels (level + 1) (group level p l) -> held s m).
    { intros m Hm. apply Hheld, elem_of_subnodes. by exists p, c'. }
    split; [done|]. right. destruct (Hsub c') as (h' & Hh' & Hload); [by left|]. rewrite Hh in Hh'. injection Hh' as <-.
    exists c', h. do 2 (split; [done|]). split_and!; [done|done|lia|]. intros m Hm. apply Hsub. by right.
Qed.

Lemma node_collect s levels level l c : node_for s levels level l c -> CollectSubtreeTuples s c = Some l.
Proof. intros (Hs & Hr & Hlv & Hheld). by eapply CollectSubtreeTuples_spec. Qed.

(** A node determines its bindings. *)
Lemma node_for_inj s levels level l l' c : node_for s levels level l c -> node_for s levels level l' c -> l = l'.
Proof. intros Hc%node_collect Hc'%node_collect. congruence. Qed.

Lemma node_count s levels level l c h :
  node_for s levels level l c -> LoadTrieNode s h = Some c -> countAllBindings s h = Ok (length l).
Proof.
  intros (Hs & Hr & Hlv & Hheld) Hl. unfold countAllBindings. rewrite Hl.
  by rewrite (BranchSize_spec s levels level l c Hr Hheld Hlv).
Qed.

Lemma entry_tuples_spec s levels level g e : entry_for s levels level g e -> entry_tuples s e = Ok g.
Proof.
  intros [Hs [->|(c & h & -> & Hl & Hc)]]; [done|]. cbn. rewrite Hl. by rewrite (node_collect _ _ _ _ _ Hc).
Qed.

Lemma same_step l d : sorted l -> counted d -> diff_step l l d (count_to d (length l)).
Proof.
  intros Hs Hc. assert (Hno : forall k v, only l l k v <-> False).
  { intros k v. unfold only. rewrite elem_of_keys. split; [|done]. intros [Hin Hn]. apply Hn. by exists (mkTuple k v). }
  split; cbn [count_to added removed changed unchanged].
  - intros k v. rewrite Hno. tauto.
  - intros k v. rewrite Hno. tauto.
  - intros k c. split; [tauto|]. intros [(Hb & Ht & Hne)|?]; [|done].
    pose proof (sorted_key_inj _ _ _ Hs Hb Ht eq_refl). congruence.
  - unfold common. do 3 f_equal. rewrite (filter_iff_in (fun t => t ∈ l) (fun _ => True)) by (by split).
    clear. induction l as [|t l IH]; [done|]. rewrite filter_cons, decide_True by done. simpl. by rewrite <- IH.
Qed.

(** One position where both nodes have an entry. *)
Lemma diffEntries_spec s levels level g1 g2 e1 e2 d rec :
  entry_for s levels level g1 e1 -> entry_for s levels level g2 e2 -> fresh (g1 ++ g2) d -> counted d ->
  (forall c1 c2, node_for s levels level g1 c1 -> node_for s levels level g2 c2 ->
     exists d', rec c1 c2 d = Ok d' /\ diff_step g1 g2 d d') ->
  exists d', diffEntries rec s e1 e2 d = Ok d' /\ diff_step g1 g2 d d'.
Proof.
  intros [Hs1 He1] [Hs2 He2] Hf Hc Hrec. pose proof (diffBuckets_spec g1 g2 d Hs1 Hs2 Hf Hc) as Hb.
  destruct He1 as [->|(c1 & h1 & -> & Hl1 & Hc1)], He2 as [->|(c2 & h2 & -> & Hl2 & Hc2)]; cbn [diffEntries].
  - eauto.
  - rewrite Hl2, (node_collect _ _ _ _ _ Hc2). cbn. eauto.
  - rewrite Hl1, (node_collect _ _ _ _ _ Hc1). cbn. eauto.
  - case_decide as Hh.
    + subst h2. assert (c2 = c1) as -> by congruence. rewrite (node_for_inj _ _ _ _ _ _ Hc2 Hc1) in *.
      rewrite (node_count _ _ _ _ _ _ Hc1 Hl1). cbn [res_bind]. eexists. split; [done|by apply same_step].
    + rewrite Hl1, Hl2. by apply Hrec.
Qed.

Lemma entry_at_spec es p e :
  length es = 32 -> p < 32 -> es !! p = Some (Some e) -> entry_at (node_of es) p = Ok e.
Proof.
  intros Hl Hp He. unfold entry_at. rewrite slot_popcount by done. cbn [panic of_option res_bind].
  by rewrite (slot_entry es p Hl Hp e He).
Qed.

Lemma combined_spec es1 es2 :
  combined_positions (node_of es1) (node_of es2)
  = Ok (List.filter (fun p => occupied es1 p || occupied es2 p) (seq 0 K)).
Proof.
  unfold combined_positions. cbn [Map_ node_of].
  destruct (bitmap_of_spec es1) as [Hl1 Hb1], (bitmap_of_spec es2) as [Hl2 Hb2].
  destruct (BitmapU32_spec _ Hl1) as (u1 & -> & Hu1), (BitmapU32_spec _ Hl2) as (u2 & -> & Hu2).
  cbn [panic of_option res_bind]. f_equal. apply TrieSpec.filter_ext_in. intros p Hp%list_elem_of_In%in_seq.
  unfold K in Hp. by rewrite Z.lor_spec, Hu1, Hu2, Hb1, Hb2 by lia.
Qed.

Lemma groups_disjoint level p ps l1 l2 :
  p ∉ ps -> disjoint_keys (group level p l1 ++ group level p l2)
              (concat (map (fun q => group level q l1) ps) ++ concat (map (fun q => group level q l2) ps)).
Proof.
  intros Hp t u Ht Hu Hk. assert (Hst : slice level (Key t) = p).
  { apply elem_of_app in Ht as [[_ Ht]%elem_of_group|[_ Ht]%elem_of_group]; done. }
  assert (Hsu : slice level (Key u) ∈ ps).
  { apply elem_of_app in Hu as [Hu|Hu]; apply list_elem_of_In, in_concat in Hu as (g & Hg & Hu);
      apply in_map_iff in Hg as (q & <- & Hq); apply list_elem_of_In, elem_of_group in Hu as [_ ->];
      by apply list_elem_of_In. }
  apply Hp. by rewrite <- Hst, Hk.
Qed.

Lemma groups_sub level ps l t : t ∈ concat (map (fun q => group level q l) ps) -> t ∈ l.
Proof.
  intros Ht. apply list_elem_of_In, in_concat in Ht as (g & Hg & Ht). apply in_map_iff in Hg as (q & <- & _).
  by apply list_elem_of_In, elem_of_group in Ht as [? _].
Qed.

(** The entry of a position that is occupied on one side only. *)
Lemma collectEntryAs_spec s levels level g e d (add : bool) :
  entry_for s levels level g e -> fresh g d -> counted d ->
  exists d', collectEntryAs s (if add then add_to else remove_to) e d = Ok d'
    /\ diff_step (if add then [] else g) (if add then g else []) d d'.
Proof.
  intros He Hf Hc. unfold collectEntryAs. rewrite (entry_tuples_spec _ _ _ _ _ He). cbn [res_bind].
  eexists. split; [done|]. destruct add; [apply fold_add_spec|apply fold_remove_spec]; (done || apply He).
Qed.

(** One position of the walk. *)
Lemma diff_position_spec s levels level l1 l2 es1 es2 c1 c2 p d rec :
  node_for s (S levels) level l1 c1 -> slots_of levels level l1 es1 ->
  node_for s (S levels) level l2 c2 -> slots_of levels level l2 es2 ->
  p < 32 -> occupied es1 p || occupied es2 p = true ->
  fresh (group level p l1 ++ group level p l2) d -> counted d ->
  (forall g1 g2 c1 c2 d, node_for s levels (level + 1) g1 c1 -> node_for s levels (level + 1) g2 c2 ->
     fresh (g1 ++ g2) d -> counted d -> exists d', rec c1 c2 d = Ok d' /\ diff_step g1 g2 d d') ->
  exists d', diff_position rec s (node_of es1) (node_of es2) p d = Ok d'
    /\ diff_step (group level p l1) (group level p l2) d d'.
Proof.
  intros Hn1 Hes1 Hn2 Hes2 Hp Hocc Hf Hc Hrec. unfold diff_position.
  rewrite !slot_bit by (done || apply Hes1 || apply Hes2). cbn [panic of_option res_bind].
  pose proof (slot_entry_for s levels level l1 c1 p es1 Hn1 Hes1 Hp) as He1.
  pose proof (slot_entry_for s levels level l2 c2 p es2 Hn2 Hes2 Hp) as He2.
  unfold occupied in *. destruct (es1 !! p) as [[e1|]|] eqn:E1; destruct (es2 !! p) as [[e2|]|] eqn:E2; try done.
  1: { rewrite (entry_at_spec es1 p e1), (entry_at_spec es2 p e2) by (done || apply Hes1 || apply Hes2). cbn [res_bind].
       eapply diffEntries_spec; [done..|]. intros c1' c2' Hc1 Hc2. by apply Hrec. }
  1, 2: rewrite (entry_at_spec es1 p e1) by (done || apply Hes1); cbn [res_bind]; rewrite He2, app_nil_r in *;
        by apply (collectEntryAs_spec s levels (level + 1) _ e1 d false).
  all: rewrite (entry_at_spec es2 p e2) by (done || apply Hes2); cbn [res_bind]; rewrite He1 in *;
       by apply (collectEntryAs_spec s levels (level + 1) _ e2 d true).
Qed.

(** The loop over positions. *)
Lemma diff_positions_spec s levels level l1 l2 es1 es2 rec :
  node_for s (S levels) level l1 (node_of es1) -> slots_of levels level l1 es1 ->
  node_for s (S levels) level l2 (node_of es2) -> slots_of levels level l2 es2 ->
  (forall g1 g2 c1 c2 d, node_for s levels (level + 1) g1 c1 -> node_for s levels (level + 1) g2 c2 ->
     fresh (g1 ++ g2) d -> counted d -> exists d', rec c1 c2 d = Ok d' /\ diff_step g1 g2 d d') ->
  forall ps d, NoDup ps -> (forall p, p ∈ ps -> p < 32) -> counted d ->
  let g l := concat (map (fun q => group level q l) ps) in
  fresh (g l1 ++ g l2) d -> exists d',
    diff_positions rec s (node_of es1) (node_of es2)
      (List.filter (fun p => occupied es1 p || occupied es2 p) ps) d = Ok d' /\ diff_step (g l1) (g l2) d d'.
Proof.
  intros Hn1 Hes1 Hn2 Hes2 Hrec. induction ps as [|p ps IHp]; intros d Hnd Hlt Hc g Hf.
  { exists d. split; [done|by apply diff_step_refl]. }
  apply NoDup_cons in Hnd as [Hnin Hnd]. assert (Hlt' : forall q, q ∈ ps -> q < 32) by (intros; apply Hlt; by right).
  assert (Hp : p < 32) by (apply Hlt; left).
  pose proof (groups_disjoint level p ps l1 l2 Hnin) as Hd. unfold g in *. cbn [map concat] in *.
  assert (Hfp : fresh (group level p l1 ++ group level p l2) d).
  { eapply fresh_sub; [|exact Hf]. intros t. rewrite !elem_of_app. tauto. }
  assert (Hfr : fresh (concat (map (fun q => group level q l1) ps) ++ concat (map (fun q => group level q l2) ps)) d).
  { eapply fresh_sub; [|exact Hf]. intros t. rewrite !elem_of_app. tauto. }
  cbn [List.filter]. destruct (occupied es1 p || occupied es2 p) eqn:Hocc.
  - destruct (diff_position_spec s levels level l1 l2 es1 es2 _ _ p d rec Hn1 Hes1 Hn2 Hes2 Hp Hocc Hfp Hc Hrec)
      as (d1 & Hpos & Hst). cbn [diff_positions]. rewrite Hpos. cbn [res_bind].
    destruct (IHp d1 Hnd Hlt') as (d2 & Hgo & Hst2); [by eapply step_counted|by eapply fresh_step|].
    exists d2. split; [exact Hgo|by eapply diff_step_trans].
  - apply orb_false_iff in Hocc as [Ho1 Ho2].
    pose proof (slot_entry_for s levels level l1 _ p es1 Hn1 Hes1 Hp) as He1.
    pose proof (slot_entry_for s levels level l2 _ p es2 Hn2 Hes2 Hp) as He2.
    unfold occupied in Ho1, Ho2. destruct (es1 !! p) as [[|]|]; [done|..]; destruct (es2 !! p) as [[|]|]; try done;
      rewrite He1, He2; by apply IHp.
Qed.

Lemma diffNodes_spec levels level s l1 l2 c1 c2 d fuel :
  node_for s levels level l1 c1 -> node_for s levels level l2 c2 -> fresh (l1 ++ l2) d -> counted d ->
  levels <= fuel -> exists d', diffNodes fuel s c1 c2 d = Ok d' /\ diff_step l1 l2 d d'.
Proof.
  revert level l1 l2 c1 c2 d fuel. induction levels as [|levels IH]; intros level l1 l2 c1 c2 d fuel Hn1 Hn2.
  { by destruct Hn1 as (_ & ? & _). }
  pose proof Hn1 as (_ & (es1 & Hes1 & ->)%reference_spec & _). pose proof Hn2 as (_ & (es2 & Hes2 & ->)%reference_spec & _).
  intros Hf Hc Hfu. destruct fuel as [|fuel]; [lia|]. cbn [diffNodes]. rewrite combined_spec. cbn [res_bind].
  destruct (diff_positions_spec s levels level l1 l2 es1 es2 (fun a b d => diffNodes fuel s a b d)
              Hn1 Hes1 Hn2 Hes2) with (ps := seq 0 K) (d := d) as (d' & Hd' & Hst).
  - intros. eapply IH; (done || lia).
  - apply NoDup_seq.
  - intros p Hp%list_elem_of_In%in_seq. unfold K in Hp. lia.
  - done.
  - eapply fresh_sub; [|exact Hf]. intros t. rewrite !elem_of_app. intros [Ht|Ht]; apply groups_sub in Ht; auto.
  - exists d'. split; [exact Hd'|]. eapply diff_step_perm; [apply groups_perm|apply groups_perm|exact Hst].
Qed.

(** ** The whole trie *)

Lemma represents_node_for s r m :
  represents s r m -> exists c, LoadTrieNode s r = Some c /\ node_for s MaxLevel 0 (sorted_bindings m) c.
Proof.
  intros Hrep. destruct (proj1 Hrep) as (c & Hc & _). destruct (represents_load s r m c Hrep Hc) as [_ Hl].
  exists c. split; [done|]. split_and!; [apply sorted_bindings_sorted|exact Hc|done|].
  intros x Hx. apply Hrep. unfold trie_nodes. rewrite Hc. by right.
Qed.

Lemma TrieDiff_step s r1 r2 m1 m2 :
  represents s r1 m1 -> represents s r2 m2 ->
  exists d, TrieDiff s r1 r2 = Ok d /\ diff_step (sorted_bindings m1) (sorted_bindings m2) no_diff d.
Proof.
  intros Hr1 Hr2. destruct (represents_node_for s r1 m1 Hr1) as (c1 & Hl1 & Hn1).
  destruct (represents_node_for s r2 m2 Hr2) as (c2 & Hl2 & Hn2). unfold TrieDiff. case_decide as Hr.
  - subst r2. assert (c2 = c1) as -> by congruence. rewrite (node_for_inj _ _ _ _ _ _ Hn2 Hn1) in *.
    rewrite (node_count _ _ _ _ _ _ Hn1 Hl1). cbn [res_bind]. eexists. split; [done|].
    apply same_step; [apply sorted_bindings_sorted|done].
  - rewrite Hl1, Hl2. eapply (diffNodes_spec MaxLevel 0); [done|done| |done|unfold links_fuel; lia].
    intros t _. cbn. by rewrite !lookup_empty.
Qed.

(** Applying a difference to the first map. *)
Definition apply_diff (d : Diff) (m : gmap string Hash) : gmap string Hash :=
  added d ∪ ((TargetHash <$> changed d) ∪ (m ∖ removed d)).

Lemma only_bindings m m' k v :
  only (sorted_bindings m) (sorted_bindings m') k v <-> m !! k = Some v /\ m' !! k = None.
Proof.
  unfold only. rewrite elem_of_sorted_bindings, elem_of_keys. cbn [Key ValueHash].
  split; intros [Hm Hn]; (split; [done|]).
  - apply eq_None_not_Some. intros [v' Hv']. apply Hn. exists (mkTuple k v'). by rewrite elem_of_sorted_bindings.
  - intros ([k' v'] & Hin%elem_of_sorted_bindings & Hk). cbn in *. subst. congruence.
Qed.

Lemma apply_diff_spec d m1 m2 :
  added d = m2 ∖ m1 -> removed d = m1 ∖ m2 ->
  (forall k c, changed d !! k = Some c <->
     m1 !! k = Some (BaseHash c) /\ m2 !! k = Some (TargetHash c) /\ BaseHash c <> TargetHash c) ->
  apply_diff d m1 = m2.
Proof.
  intros HA HR HC. apply map_eq. intros k.
  assert (Hch : (TargetHash <$> changed d) !! k =
    match m1 !! k, m2 !! k with Some v1, Some v2 => if decide (v1 = v2) then None else Some v2 | _, _ => None end).
  { rewrite lookup_fmap. destruct (changed d !! k) as [c|] eqn:Ec.
    - apply HC in Ec as (-> & -> & Hne). by rewrite decide_False.
    - destruct (m1 !! k) as [v1|] eqn:E1; [|done]. destruct (m2 !! k) as [v2|] eqn:E2; [|done].
      case_decide; [done|]. by rewrite (proj2 (HC k (mkChange v1 v2))) in Ec. }
  unfold apply_diff. rewrite !lookup_union, Hch, HA, !lookup_difference, HR, !lookup_difference.
  destruct (m1 !! k) as [v1|], (m2 !! k) as [v2|]; try done. case_decide; [by subst|done].
Qed.

(** The difference. On two roots of one store that represent [m1] and [m2],
    [TrieDiff] returns: as added the bindings of [m2] whose key [m1] does not
    have, as removed those of [m1] whose key [m2] does not have, as changed the
    keys bound differently, and as unchanged the number of bindings in both,
    modulo 2^64; and applying the result to [m1] gives [m2]. *)
Theorem TrieDiff_spec (s : CS) (r1 r2 : Hash) (m1 m2 : gmap string Hash) :
  represents s r1 m1 -> represents s r2 m2 ->
  exists d, TrieDiff s r1 r2 = Ok d
    /\ added d = m2 ∖ m1 /\ removed d = m1 ∖ m2
    /\ (forall k c, changed d !! k = Some c <->
          m1 !! k = Some (BaseHash c) /\ m2 !! k = Some (TargetHash c) /\ BaseHash c <> TargetHash c)
    /\ unchanged d = u64 (Z.of_nat (length (filter (fun t => m2 !! Key t = Some (ValueHash t)) (sorted_bindings m1))))
    /\ apply_diff d m1 = m2.
Proof.
  intros Hr1 Hr2. destruct (TrieDiff_step s r1 r2 m1 m2 Hr1 Hr2) as (d & Hd & [A R C U]).
  assert (HA : added d = m2 ∖ m1).
  { apply map_eq. intros k. apply option_eq. intros v. rewrite A, only_bindings, lookup_difference_Some.
    cbn. rewrite lookup_empty. split; [by intros [?|?]|by left]. }
  assert (HR : removed d = m1 ∖ m2).
  { apply map_eq. intros k. apply option_eq. intros v. rewrite R, only_bindings, lookup_difference_Some.
    cbn. rewrite lookup_empty. split; [by intros [?|?]|by left]. }
  assert (HC : forall k c, changed d !! k = Some c <->
    m1 !! k = Some (BaseHash c) /\ m2 !! k = Some (TargetHash c) /\ BaseHash c <> TargetHash c).
  { intros k c. rewrite C, !elem_of_sorted_bindings. cbn. rewrite lookup_empty. split; [by intros [?|?]|by left]. }
  exists d. split_and!; [done|done|done|done| |].
  - rewrite U. cbn [unchanged no_diff]. rewrite Z.add_0_l. unfold common. do 3 f_equal.
    apply filter_iff_in. intros t _. apply elem_of_sorted_bindings.
  - by apply apply_diff_spec.
Qed.
End diff_nodes.
