(* ===== verification/TrieSample.v ===== *)
(** * A storage for tries, and the trie theorems at work

    A concrete encoding of nodes that satisfies the laws the trie relies on,
    over the in-memory store, and small tries with a promoted bucket. *)

From Stdlib Require Import Ascii.
From S2P Require Import Prelude GoStrings Sha2 Errors Hash Entity Store Trie TrieSpec TrieCanon TrieMap TrieRemove TrieDiff.

Open Scope nat_scope.

(** ** A prefix code *)

Module Code.
Section lists.
Context {A : Type} (enc : A -> list byte) (dec : list byte -> option (A * list byte)).

Definition enc_list (l : list A) : list byte := concat (map (fun x => Byte.x01 :: enc x) l) ++ [Byte.x00].

Fixpoint dec_list (fuel : nat) (bs : list byte) : option (list A * list byte) :=
  match bs with
  | Byte.x00 :: rest => Some ([], rest)
  | Byte.x01 :: rest =>
      match fuel with
      | O => None
      | S fuel' => x ← dec rest; xs ← dec_list fuel' (snd x); Some (fst x :: fst xs, snd xs)
      end
  | _ => None
  end.

Lemma dec_enc_list l rest fuel :
  (forall x rest, dec (enc x ++ rest) = Some (x, rest)) -> length l <= fuel ->
  dec_list fuel (enc_list l ++ rest) = Some (l, rest).
Proof.
  intros Hd. revert fuel. induction l as [|x l IH]; intros fuel Hl; [by destruct fuel|].
  destruct fuel as [|fuel]; [simpl in Hl; lia|]. unfold enc_list in *. cbn [map concat app dec_list].
  rewrite <- !app_assoc, Hd. cbn [mbind option_bind fst snd]. rewrite app_assoc, IH by (simpl in Hl; lia). done.
Qed.

Lemma length_enc_list l : length l < length (enc_list l).
Proof.
  unfold enc_list. rewrite length_app. simpl. induction l as [|x l IH]; [simpl; lia|].
  cbn [map concat length app]. rewrite length_app. lia.
Qed.
End lists.

Definition dec_seq {A} (dec : list byte -> option (A * list byte)) (bs : list byte) := dec_list dec (length bs) bs.

Lemma dec_enc_seq {A} (enc : A -> list byte) dec l rest :
  (forall x rest, dec (enc x ++ rest) = Some (x, rest)) -> dec_seq dec (enc_list enc l ++ rest) = Some (l, rest).
Proof.
  intros Hd. unfold dec_seq. apply dec_enc_list; [done|]. rewrite length_app. pose proof (length_enc_list enc l). lia.
Qed.

Definition enc_byte (b : byte) : list byte := [b].
Definition dec_byte (bs : list byte) : option (byte * list byte) :=
  match bs with b :: rest => Some (b, rest) | [] => None end.

Definition enc_hash (h : Hash) : list byte := Algorithm h :: enc_list enc_byte (Digest h).
Definition dec_hash (bs : list byte) : option (Hash * list byte) :=
  a ← dec_byte bs; d ← dec_seq dec_byte (snd a); Some (mkHash (fst a) (fst d), snd d).

Definition enc_tuple (t : BucketTuple) : list byte := enc_list enc_byte (str_bytes (Key t)) ++ enc_hash (ValueHash t).
Definition dec_tuple (bs : list byte) : option (BucketTuple * list byte) :=
  k ← dec_seq dec_byte bs; h ← dec_hash (snd k); Some (mkTuple (bytes_str (fst k)) (fst h), snd h).

Definition enc_entry (e : NodeEntry) : list byte :=
  match e with
  | BucketEntry b => Byte.x00 :: enc_list enc_tuple b
  | LinkEntry h => Byte.x01 :: enc_hash h
  end.
Definition dec_entry (bs : list byte) : option (NodeEntry * list byte) :=
  match bs with
  | Byte.x00 :: rest => b ← dec_seq dec_tuple rest; Some (BucketEntry (fst b), snd b)
  | Byte.x01 :: rest => h ← dec_hash rest; Some (LinkEntry (fst h), snd h)
  | _ => None
  end.

Definition enc_node (n : SnapshotNodeData) : list byte := enc_list enc_byte (Map_ n) ++ enc_list enc_entry (Data_ n).
Definition dec_node (bs : list byte) : option SnapshotNodeData :=
  m ← dec_seq dec_byte bs; d ← dec_seq dec_entry (snd m); Some (mkNode (fst m) (fst d)).

Lemma dec_enc_byte b rest : dec_byte (enc_byte b ++ rest) = Some (b, rest).
Proof. done. Qed.

Lemma dec_enc_hash h rest : dec_hash (enc_hash h ++ rest) = Some (h, rest).
Proof.
  unfold dec_hash, enc_hash. cbn [app dec_byte mbind option_bind snd].
  rewrite dec_enc_seq by apply dec_enc_byte. by destruct h.
Qed.

Lemma dec_enc_tuple t rest : dec_tuple (enc_tuple t ++ rest) = Some (t, rest).
Proof.
  unfold dec_tuple, enc_tuple. rewrite <- app_assoc, dec_enc_seq by apply dec_enc_byte.
  cbn [mbind option_bind fst snd]. rewrite dec_enc_hash. cbn [fst snd]. destruct t as [k v]. cbn [Key ValueHash].
  unfold bytes_str, str_bytes. by rewrite String.string_of_list_byte_of_string.
Qed.

Lemma dec_enc_entry e rest : dec_entry (enc_entry e ++ rest) = Some (e, rest).
Proof.
  destruct e as [b|h]; cbn [enc_entry app dec_entry].
  - by rewrite dec_enc_seq by apply dec_enc_tuple.
  - by rewrite dec_enc_hash.
Qed.

Lemma dec_enc_node n : dec_node (enc_node n) = Some n.
Proof.
  unfold dec_node, enc_node. rewrite dec_enc_seq by apply dec_enc_byte. cbn [mbind option_bind fst snd].
  rewrite <- (app_nil_r (enc_list enc_entry _)), dec_enc_seq by apply dec_enc_entry. by destruct n.
Qed.
End Code.

(** ** The storage *)

#[local] Existing Instances toy_hashable memory_content_store memory_content_store_laws.
#[local] Instance node_codec : NodeCodec := {|
  EncodeNode n := Some (Code.enc_node n); DecodeNode := Code.dec_node; node_format := AlgorithmSHA256 |}.

Definition any_text (s : string) : bool := true.

#[local] Instance storage : TrieStorage (CS := MemoryContentStore) any_text.
Proof.
  split.
  - intros n raw _ [= <-]. apply Code.dec_enc_node.
  - intros s n _. unfold StoreTrieNode. cbn [EncodeNode node_codec].
    assert (Hne : (length (Code.enc_node n) =? 0) = false).
    { apply Nat.eqb_neq. unfold Code.enc_node. rewrite length_app. pose proof (Code.length_enc_list Code.enc_byte (Map_ n)). lia. }
    assert (He : Ent.NewEntity node_format TypeTreeSnapshotNode (Code.enc_node n)
                 = Ok (toy_entity TypeTreeSnapshotNode (Code.enc_node n))).
    { unfold Ent.NewEntity, Ent.NewEntityFormat. rewrite Hne. cbn [node_format node_codec].
      rewrite toy_compute. reflexivity. }
    rewrite He. cbn [cs_Put memory_content_store]. rewrite MemPut_hash.
    assert (Hp : put_hash (toy_entity TypeTreeSnapshotNode (Code.enc_node n))
                 = Ok (toy_hash TypeTreeSnapshotNode (Code.enc_node n))).
    { unfold put_hash, toy_entity. cbn [ContentHash Type_ Data].
      pose proof (toy_compute TypeTreeSnapshotNode (Code.enc_node n)) as Hc.
      destruct (ComputeFormat_wf _ _ _ _ Hc) as (_ & -> & _). rewrite Hc. cbn [res_bind].
      rewrite bool_decide_true by done. by rewrite andb_false_r. }
    rewrite Hp. by eexists.
Qed.

(** ** Sample tries: the keys d, j, n and k6 share their first slice. *)

Module Bindings.
Definition value (b : byte) : Hash := toy_hash "value" [b].
Definition d : BucketTuple := mkTuple "d" (value Byte.x01).
Definition j : BucketTuple := mkTuple "j" (value Byte.x02).
Definition n : BucketTuple := mkTuple "n" (value Byte.x03).
Definition k6 : BucketTuple := mkTuple "k6" (value Byte.x04).

Lemma value_wire b : wire_hash (value b).
Proof.
  pose proof (toy_compute "value" [b]) as Hc. destruct (ComputeFormat_wf _ _ _ _ Hc) as (Hwf & Ha & Hs).
  split; [done|]. change (Algorithm (value b)) with (Algorithm (toy_hash "value" [b])). by rewrite Ha.
Qed.

Lemma all_ok : forall l, (forall t, t ∈ l -> exists b, ValueHash t = value b) -> Forall (tuple_ok any_text) l.
Proof.
  intros l Hl. apply Forall_forall. intros t Ht. destruct (Hl t Ht) as [b Hb]. split; [done|].
  rewrite Hb. apply value_wire.
Qed.

Definition sound (ns : list SnapshotNodeData) : bool :=
  let hs := map node_hash ns in bool_decide (NoDup hs) && bool_decide (Some zero_hash ∉ hs).

Lemma sound_spec ns : sound ns = true -> hash_sound ns.
Proof.
  unfold sound. intros [Hnd Hz]%andb_prop. apply bool_decide_eq_true_1 in Hnd, Hz. split.
  - intros a b [i Ha]%list_elem_of_lookup [j' Hb]%list_elem_of_lookup Hh.
    assert (i = j') as <-; [|congruence]. apply (NoDup_lookup (map node_hash ns) i j' (node_hash a)); [done|..].
    + by rewrite list_lookup_fmap, Ha.
    + by rewrite list_lookup_fmap, Hb, Hh.
  - intros a Ha He. apply Hz. rewrite <- He. by apply list_elem_of_fmap_2.
Qed.

Definition sound_steps (bs : list BucketTuple) : bool :=
  forallb (fun i => sound (trie_nodes (bind_all (take i bs) ∅))) (seq 0 (S (length bs))).

Lemma sound_steps_spec bs : sound_steps bs = true -> steps_sound bs ∅.
Proof.
  unfold sound_steps. rewrite forallb_forall. intros Hs i Hi. apply sound_spec, Hs, in_seq. lia.
Qed.

Definition four : list BucketTuple := [d; j; n; k6].

Lemma four_ok : Forall (tuple_ok any_text) four.
Proof.
  apply all_ok. intros t Ht. unfold four in Ht. rewrite !elem_of_cons, elem_of_nil in Ht.
  destruct Ht as [->|[->|[->|[->|[]]]]]; by eexists.
Qed.

Lemma four_sound : steps_sound four ∅.
Proof. apply sound_steps_spec. vm_compute. reflexivity. Qed.

(** Two orders of the first two bindings. *)
Lemma two_sound : steps_sound [d; j] ∅ /\ steps_sound [j; d] ∅.
Proof. split; apply sound_steps_spec; vm_compute; reflexivity. Qed.

Lemma two_same : bind_all [d; j] ∅ = bind_all [j; d] ∅.
Proof. apply (bool_decide_eq_true_1 _). vm_compute. reflexivity. Qed.

Lemma two_ok : Forall (tuple_ok any_text) [d; j] /\ Forall (tuple_ok any_text) [j; d].
Proof.
  split; apply all_ok; intros t Ht; rewrite !elem_of_cons, elem_of_nil in Ht; destruct Ht as [->|[->|[]]]; by eexists.
Qed.

Lemma four_trie : exists x, root_node (bind_all four ∅) = Some x.
Proof.
  assert (Hb : match root_node (bind_all four ∅) with Some _ => true | None => false end = true) by (vm_compute; reflexivity).
  destruct (root_node (bind_all four ∅)) as [x|]; [by exists x|done].
Qed.
End Bindings.

Section witnesses.
Let empty_store : MemoryContentStore := ∅.

Lemma BuildTrie_roundtrip_witness :
  exists s' r, BuildTrie empty_store Bindings.four = (s', Ok r)
    /\ CollectAllBindings s' r "" = Some (bind_all Bindings.four ∅).
Proof.
  destruct Bindings.four_trie as [x Hx].
  destruct (BuildTrie_roundtrip empty_store Bindings.four x) as (s' & r & Hb & _ & Hc).
  - exact Bindings.four_ok.
  - exact Bindings.four_sound.
  - exact Hx.
  - exists s', r. split; [exact Hb|exact Hc].
Defined.

Definition prefix (i : nat) : gmap string Hash := bind_all (take i Bindings.four) ∅.

(** The tries of the first bindings. *)
Lemma prefix_built i :
  i <= 4 -> exists s r, represents (CS := MemoryContentStore) s r (prefix i) /\ r <> zero_hash /\ map_ok any_text (prefix i).
Proof.
  intros Hi. pose proof (Forall_take _ i _ Bindings.four_ok) as Hok.
  assert (Hmok : map_ok any_text (prefix i)) by (apply bind_all_ok; [exact Hok|by intros k v ?%lookup_empty_Some]).
  destruct Bindings.four_trie as [x Hx].
  destruct (root_node_mono empty_store (prefix i) (bind_all Bindings.four ∅) x Hmok) as [y Hy]; [|exact Hx|].
  { intros k Hk. rewrite <- (take_drop i Bindings.four). unfold bind_all. rewrite fold_left_app. by apply bind_all_keys. }
  destruct (BuildTrie_run empty_store (take i Bindings.four) y Hok) as (s & r & _ & Hrep); [|exact Hy|].
  { intros i' Hi'. rewrite length_take in Hi'. rewrite take_take. apply Bindings.four_sound. simpl in *. lia. }
  exists s, r. split; [exact Hrep|]. split; [|exact Hmok]. intros ->.
  destruct (represents_load _ _ _ _ Hrep Hy) as [Hz _].
  apply (proj2 (Bindings.four_sound i ltac:(simpl; lia)) y); [|exact Hz]. fold (prefix i).
  unfold trie_nodes. rewrite Hy. left.
Qed.

(** Putting the fourth promotes the bucket of the first slice. *)
Lemma TriePut_refines_witness :
  exists (s : MemoryContentStore) r, represents s r (prefix 3)
    /\ ((exists s' r', TriePut s r "k6" (ValueHash Bindings.k6) = (s', Ok r') /\ represents s' r' (prefix 4))
        \/ (exists s', TriePut s r "k6" (ValueHash Bindings.k6) = (s', Err TrieCollision))
           /\ inseparable 0 (sorted_bindings (prefix 4))).
Proof.
  destruct (prefix_built 3 ltac:(lia)) as (s & r & Hrep & Hz & Hok). exists s, r. split; [exact Hrep|].
  apply (TriePut_refines (text_ok := any_text) s r (prefix 3) "k6" (ValueHash Bindings.k6)).
  - exact Hrep.
  - exact Hok.
  - reflexivity.
  - apply Bindings.value_wire.
  - exact Hz.
  - exact (Bindings.four_sound 4 (le_n 4)).
Defined.

(** Removing it again folds the sub-node back into a bucket. *)
Lemma TrieRemove_refines_witness :
  exists (s : MemoryContentStore) r s' r', represents s r (prefix 4)
    /\ TrieRemove s r "k6" = (s', Ok r') /\ represents s' r' (prefix 3).
Proof.
  destruct (prefix_built 4 ltac:(lia)) as (s & r & Hrep & Hz & Hok).
  assert (Hk : prefix 3 !! "k6" = None) by (vm_compute; reflexivity).
  assert (Hdel : delete "k6" (prefix 4) = prefix 3) by exact (delete_insert_id _ _ _ Hk).
  destruct (TrieRemove_refines (text_ok := any_text) s r (prefix 4) "k6") as (s' & r' & Hr & Hrep' & _).
  - exact Hrep.
  - exact Hok.
  - exact Hz.
  - rewrite Hdel. exact (Bindings.four_sound 3 (le_S 3 3 (le_n 3))).
  - exists s, r, s', r'. split; [exact Hrep|]. split; [exact Hr|]. rewrite <- Hdel. exact Hrep'.
Defined.

(** Two orders of two bindings. *)
Lemma trie_convergence_witness :
  exists r0 r, snd (BuildTrie empty_store [Bindings.d]) = Ok r0
    /\ snd (BuildTrie empty_store [Bindings.j; Bindings.d]) = Ok r
    /\ snd (TriePut (fst (BuildTrie empty_store [Bindings.d])) r0 "j" (ValueHash Bindings.j)) = Ok r.
Proof.
  assert (Hb : match root_node (bind_all [Bindings.j; Bindings.d] ∅) with Some _ => true | None => false end = true)
    by (vm_compute; reflexivity).
  destruct (root_node (bind_all [Bindings.j; Bindings.d] ∅)) as [x|] eqn:Hx; [|discriminate Hb].
  destruct (trie_convergence (text_ok := any_text) empty_store empty_store [Bindings.d] [Bindings.j; Bindings.d] Bindings.j x)
    as (r0 & r & _ & H2 & H0 & Hp).
  - exact (proj1 Bindings.two_ok).
  - exact (proj2 Bindings.two_ok).
  - exact (proj1 Bindings.two_sound).
  - exact (proj2 Bindings.two_sound).
  - exact Bindings.two_same.
  - exact Hx.
  - exists r0, r. split; [exact H0|]. split; [exact H2|exact Hp].
Defined.

(** Deciding that a root represents a map. *)
Definition represented (s : MemoryContentStore) (r : Hash) (m : gmap string Hash) : bool :=
  bool_decide ((n ← root_node m; node_hash n) = Some r)
  && forallb (fun n => bool_decide ((h ← node_hash n; LoadTrieNode s h) = Some n)) (trie_nodes m).

Lemma represented_spec s r m : represented s r m = true -> represents s r m.
Proof.
  unfold represented. intros [Hr Hh]%andb_prop. apply bool_decide_eq_true_1 in Hr.
  destruct (root_node m) as [n|] eqn:Hn; cbn in Hr; [|discriminate Hr]. split; [by exists n|].
  intros n' Hn'. rewrite forallb_forall in Hh. specialize (Hh n' (proj1 (list_elem_of_In _ _) Hn')).
  apply bool_decide_eq_true_1 in Hh. destruct (node_hash n') as [h|] eqn:E; cbn in Hh; [|discriminate Hh]. by exists h.
Qed.

(** Two tries in one store. *)
Definition small := BuildTrie empty_store [Bindings.d; Bindings.n].
Definition large := BuildTrie (fst small) Bindings.four.
Definition root_of {E} (r : res E Hash) : Hash := match r with Ok h => h | Err _ => zero_hash end.

Lemma small_large_represented :
  represented (fst large) (root_of (snd small)) (bind_all [Bindings.d; Bindings.n] ∅) = true
  /\ represented (fst large) (root_of (snd large)) (bind_all Bindings.four ∅) = true.
Proof. split; vm_compute; reflexivity. Qed.

Lemma TrieDiff_spec_witness :
  exists x, TrieDiff (fst large) (root_of (snd small)) (root_of (snd large)) = Ok x
    /\ added x = bind_all Bindings.four ∅ ∖ bind_all [Bindings.d; Bindings.n] ∅
    /\ apply_diff x (bind_all [Bindings.d; Bindings.n] ∅) = bind_all Bindings.four ∅.
Proof.
  destruct (TrieDiff_spec (fst large) (root_of (snd small)) (root_of (snd large))
    (bind_all [Bindings.d; Bindings.n] ∅) (bind_all Bindings.four ∅)) as (x & Hx & Ha & _ & _ & _ & Hap).
  - exact (represented_spec _ _ _ (proj1 small_large_represented)).
  - exact (represented_spec _ _ _ (proj2 small_large_represented)).
  - exists x. split; [exact Hx|]. split; [exact Ha|exact Hap].
Defined.
End witnesses.
