(* ===== verification/Handlers.v ===== *)
(** * Handlers ([core/handler]: [registry.go], [handler.go])

    The registry that maps patterns to handlers, and the context a handler runs
    in: the subject it derives from its resource, the path check, and the two
    functions through which every handler writes the tree.  [TreeSet] and
    [TreeRemove] attach the authority a write is attributed to and keep the
    index of bound capabilities; they act on a [TreeState], the stores a context
    points to.  [now] is the clock read of the path check. *)

From S2P Require Import Prelude GoStrings Errors Hash Entity PeerID Paths CapTypes Patterns Check Delegation Revoked Store.

Open Scope Z_scope.

(** ** The registry *)

Section registry.
Context {H : Type}.

Definition Register (r : gmap string H) (pattern : string) (handler : H) : gmap string H := <[pattern := handler]> r.

Definition Unregister (r : gmap string H) (pattern : string) : gmap string H * bool :=
  (delete pattern r, match r !! pattern with Some _ => true | None => false end).

Definition Lookup (r : gmap string H) (pattern : string) : option H := r !! pattern.

Definition pattern_serves (pattern path : string) : bool :=
  String.eqb path pattern || HasPrefix path (pattern +:+ "/").

(** One round of the loop; [None] is [bestLen = -1]. *)
Definition resolve_step (path : string) (best : option (string * H)) (entry : string * H) : option (string * H) :=
  if pattern_serves (fst entry) path then
    match best with
    | None => Some entry
    | Some b => if (slen (fst b) <? slen (fst entry))%nat then Some entry else best
    end
  else best.

(** [range] is the order in which the loop visits the map. *)
Definition Resolve (range : list (string * H)) (path : string) : option (string * H) :=
  fold_left (resolve_step path) range None.

(** [Registry.Dispatch] up to the call of the handler. *)
Definition Registry_Dispatch (range : list (string * H)) (path : string) : result (string * H) :=
  of_option [ErrNotFound] (Resolve range path).

(** *** Longest match *)

Lemma serves_prefix p path : pattern_serves p path = true -> str_take (slen p) path = p.
Proof.
  unfold pattern_serves. intros [He%String.eqb_eq|Hp]%orb_prop.
  - subst. rewrite <- (append_nil_r p) at 2. apply str_take_append.
  - assert (Hpp : HasPrefix path p = true) by (eapply HasPrefix_trans; [exact Hp|apply HasPrefix_append]).
    apply HasPrefix_spec in Hpp as [rest ->]. apply str_take_append.
Qed.

Lemma serves_same_length p q path :
  pattern_serves p path = true -> pattern_serves q path = true -> slen p = slen q -> p = q.
Proof. intros Hp%serves_prefix Hq%serves_prefix Hl. rewrite <- Hp, <- Hq. by rewrite Hl. Qed.

(** The best entry of a list: it serves the path and none is longer. *)
Definition longest_of (range : list (string * H)) (path : string) (best : option (string * H)) : Prop :=
  match best with
  | Some b => b ∈ range /\ pattern_serves (fst b) path = true
      /\ forall e, e ∈ range -> pattern_serves (fst e) path = true -> (slen (fst e) <= slen (fst b))%nat
  | None => forall e, e ∈ range -> pattern_serves (fst e) path = false
  end.

Lemma resolve_step_longest range path best e :
  longest_of range path best -> longest_of (range ++ [e]) path (resolve_step path best e).
Proof.
  unfold resolve_step, longest_of. intros Hb. destruct (pattern_serves (fst e) path) eqn:He.
  - destruct best as [b|].
    + destruct Hb as (Hin & Hs & Hmax). destruct (Nat.ltb_spec (slen (fst b)) (slen (fst e))).
      * split_and!; [set_solver|done|]. intros x [Hx| ->%list_elem_of_singleton]%elem_of_app Hxs; [|done].
        specialize (Hmax x Hx Hxs). lia.
      * split_and!; [set_solver|done|]. intros x [Hx| ->%list_elem_of_singleton]%elem_of_app Hxs; [by apply Hmax|done].
    + split_and!; [set_solver|done|]. intros x [Hx| ->%list_elem_of_singleton]%elem_of_app Hxs; [|done].
      rewrite (Hb x Hx) in Hxs. done.
  - destruct best as [b|].
    + destruct Hb as (Hin & Hs & Hmax). split_and!; [set_solver|done|].
      intros x [Hx| ->%list_elem_of_singleton]%elem_of_app Hxs; [by apply Hmax|congruence].
    + intros x [Hx| ->%list_elem_of_singleton]%elem_of_app; [by apply Hb|done].
Qed.

Lemma Resolve_longest_of range path : longest_of range path (Resolve range path).
Proof.
  unfold Resolve. induction range as [|e range IH] using rev_ind; [by intros ? ?%elem_of_nil|].
  rewrite fold_left_app. by apply resolve_step_longest.
Qed.

(** The registry resolves by longest prefix, whatever the order in which the
    map is visited: the pattern found is registered, serves the path (it is the
    path or an ancestor of it at a segment boundary), and is the one such
    pattern that every other serving pattern is strictly shorter than; nothing
    is found exactly when no registered pattern serves the path. *)
Theorem Resolve_longest (r : gmap string H) (range : list (string * H)) (path p : string) (h : H) :
  range ≡ₚ map_to_list r ->
  (Resolve range path = Some (p, h) <->
     r !! p = Some h /\ pattern_serves p path = true
     /\ forall q h', r !! q = Some h' -> pattern_serves q path = true -> q = p \/ (slen q < slen p)%nat)
  /\ (Resolve range path = None <-> forall q h', r !! q = Some h' -> pattern_serves q path = false).
Proof.
  intros Hperm. pose proof (Resolve_longest_of range path) as Hl.
  assert (Hmem : forall q h', (q, h') ∈ range <-> r !! q = Some h') by (intros; by rewrite Hperm, elem_of_map_to_list).
  destruct (Resolve range path) as [[b hb]|]; cbn [longest_of fst] in Hl.
  - destruct Hl as (Hin & Hs & Hmax). split.
    + split.
      * intros [= -> ->]. split_and!; [by apply Hmem|done|]. intros q h' Hq Hqs.
        specialize (Hmax (q, h') (proj2 (Hmem _ _) Hq) Hqs). cbn in Hmax.
        destruct (decide (slen q = slen p)) as [He|]; [left; by eapply serves_same_length|right; lia].
      * intros (Hp & Hps & Huniq). apply Hmem in Hin. destruct (Huniq _ _ Hin Hs) as [->|Hlt]; [congruence|].
        specialize (Hmax (p, h) (proj2 (Hmem _ _) Hp) Hps). cbn in Hmax. lia.
    + split; [done|]. intros Hnone. apply Hmem in Hin. by rewrite (Hnone _ _ Hin) in Hs.
  - split.
    + split; [done|]. intros (Hp & Hps & _). specialize (Hl (p, h) (proj2 (Hmem _ _) Hp)). cbn in Hl. congruence.
    + split; [|done]. intros _ q h' Hq. apply (Hl (q, h')), Hmem, Hq.
Qed.
End registry.

(** Two patterns serve the path; a sibling that only shares its letters does not. *)
Lemma Resolve_longest_witness :
  let r : gmap string nat := {[ "system/tree" := 1%nat; "system" := 2%nat; "system/tre" := 3%nat ]} in
  Resolve (map_to_list r) "system/tree/x" = Some ("system/tree", 1%nat)
  /\ r !! "system/tree" = Some 1%nat /\ pattern_serves "system/tree" "system/tree/x" = true.
Proof.
  cbv zeta.
  destruct (Resolve_longest {[ "system/tree" := 1%nat; "system" := 2%nat; "system/tre" := 3%nat ]} _ "system/tree/x" "system/tree"
              1%nat (reflexivity _)) as [[Hf _] _].
  assert (Hr : Resolve (map_to_list {[ "system/tree" := 1%nat; "system" := 2%nat; "system/tre" := 3%nat ]}) "system/tree/x"
               = Some ("system/tree", 1%nat)) by (vm_compute; reflexivity).
  destruct (Hf Hr) as (Hl & Hs & _). exact (conj Hr (conj Hl Hs)).
Defined.

(** ** The handler context *)

(** The counters are [uint64]. *)
Record BoundsData := {
  TTL : option Z;
  Budget : option Z;
  bd_CascadeDepth : option Z;
  bd_ChainDepth : option Z;
  bd_ChainID : string;
  bd_ParentChainID : string;
  Visited : list string
}.

(** The zero [entity.Entity]. *)
Definition no_entity : Entity := mkEntity "" [] zero_hash.

(** The store and the indices a context points to are in [TreeState]. *)
Record HandlerContext := {
  hc_Author : PeerID;
  hc_AuthorHash : Hash;
  hc_LocalPeerID : PeerID;
  hc_CallerCapability : Entity;
  hc_HandlerGrant : Entity;
  hc_Resource : option ResourceTarget;
  hc_HandlerPattern : string;
  hc_RequestID : string;
  hc_Bounds : option BoundsData;
  hc_ChainDepth : Z;
  hc_ReactiveTrigger : bool;
  hc_Included : gmap Hash Entity
}.

(** An error response: status and code. *)
Abbreviation Refusal := (Z * string)%type.

Definition hc_EffectiveTargets (hctx : HandlerContext) : list string :=
  EffectiveTargets (hc_Resource hctx) (hc_LocalPeerID hctx).

Definition ExtractResourcePath (hctx : HandlerContext) : string :=
  match hc_EffectiveTargets hctx with [] => "" | t :: _ => t end.

Definition ResourceSubject (hctx : HandlerContext) : res Refusal string :=
  match hc_EffectiveTargets hctx with
  | [] => Err (400, "path_required")
  | [t] => if IsPattern t then Err (400, "malformed_resource") else Ok t
  | _ => Err (400, "ambiguous_resource")
  end.

Section context.
Context `{Base58, DataCodec}.

Definition has_caller (hctx : HandlerContext) : bool := negb (IsZero (ContentHash (hc_CallerCapability hctx))).

(** The path check of a context with the local peer as granter. *)
Definition caller_covers (now : Z) (hctx : HandlerContext) (operation path : string) : option bool :=
  match CapabilityTokenDataFromEntity (hc_CallerCapability hctx) with
  | Err _ => None
  | Ok capData =>
      Some (CheckPathPermission now operation path capData (hc_HandlerPattern hctx) (hc_LocalPeerID hctx) (hc_LocalPeerID hctx))
  end.

Definition CheckPathCapability (now : Z) (hctx : HandlerContext) (operation path : string) : res Refusal unit :=
  if has_caller hctx then
    match caller_covers now hctx operation path with
    | Some false => Err (403, "capability_denied")
    | _ => Ok tt
    end
  else Ok tt.

Definition selectCapability (now : Z) (hctx : HandlerContext) (writePath operation : string) : Hash :=
  if has_caller hctx && match caller_covers now hctx operation writePath with Some b => b | None => false end
  then ContentHash (hc_CallerCapability hctx)
  else ContentHash (hc_HandlerGrant hctx).

Definition mutationContext (now : Z) (hctx : HandlerContext) (writePath operation : string) : MutationContext :=
  let cap := selectCapability now hctx writePath operation in {|
  AuthorHash := hc_AuthorHash hctx;
  CapabilityHash := cap;
  CallerCapabilityHash :=
    if has_caller hctx && negb (bool_decide (ContentHash (hc_CallerCapability hctx) = cap))
    then ContentHash (hc_CallerCapability hctx) else zero_hash;
  HandlerPattern := hc_HandlerPattern hctx;
  mc_Operation := operation;
  ChainID := match hc_Bounds hctx with Some b => bd_ChainID b | None => "" end;
  ParentChainID := match hc_Bounds hctx with Some b => bd_ParentChainID b | None => "" end;
  CascadeDepth := match hc_Bounds hctx with Some b => bd_CascadeDepth b | None => None end;
  Clock := []; ClockType := "" |}.
End context.

(** ** Writing the tree *)

Section tree_writes.
Context {CS L IX : Type} `{ContentStore CS} `{LocationIndex L} `{CapabilityIndex IX} `{Base58, DataCodec}.

Record TreeState := { ts_Store : CS; ts_Index : L; ts_CapIndex : option IX }.

Definition with_index (st : TreeState) (l : L) : TreeState :=
  {| ts_Store := ts_Store st; ts_Index := l; ts_CapIndex := ts_CapIndex st |}.
Definition with_store (st : TreeState) (cs : CS) : TreeState :=
  {| ts_Store := cs; ts_Index := ts_Index st; ts_CapIndex := ts_CapIndex st |}.
Definition with_capindex (st : TreeState) (ix : option IX) : TreeState :=
  {| ts_Store := ts_Store st; ts_Index := ts_Index st; ts_CapIndex := ix |}.

Definition is_token (st : TreeState) (h : Hash) : bool :=
  match cs_Get (ts_Store st) h with Some ent => String.eqb (Type_ ent) TypeCapToken | None => false end.

Definition recordCapBinding (st : TreeState) (path : string) (h : Hash) : TreeState :=
  match ts_CapIndex st with
  | None => st
  | Some ix => if is_token st h then with_capindex st (Some (Record_ ix h path)) else st
  end.

Definition forgetCapBinding (st : TreeState) (h : Hash) : TreeState :=
  match ts_CapIndex st with
  | None => st
  | Some ix => if is_token st h then with_capindex st (Some (Forget ix h)) else st
  end.

(** [cw] is the type assertion of the index to [ContextualWriter]. *)
Definition index_set (cw : option (ContextualWriter L)) (l : L) (path : string) (h : Hash) (ctx : MutationContext)
  : L * option CascadeResult * res IndexErr unit :=
  match cw with
  | Some w => SetWithContext w l path h (Some ctx)
  | None => let '(l, r) := Set_ l path h in (l, None, r)
  end.

Definition index_remove (cw : option (ContextualWriter L)) (l : L) (path : string) (ctx : MutationContext)
  : L * option Hash * option CascadeResult :=
  match cw with
  | Some w => RemoveWithContext w l path (Some ctx)
  | None => let '(l, h) := Remove l path in (l, h, None)
  end.

Definition TreeSet (now : Z) (cw : option (ContextualWriter L)) (hctx : HandlerContext) (st : TreeState)
    (path : string) (h : Hash) (operation : string) : TreeState * option CascadeResult * res IndexErr unit :=
  let '(l, cr, r) := index_set cw (ts_Index st) path h (mutationContext now hctx path operation) in
  let st := with_index st l in
  (match r with Ok _ => recordCapBinding st path h | Err _ => st end, cr, r).

Definition TreeRemove (now : Z) (cw : option (ContextualWriter L)) (hctx : HandlerContext) (st : TreeState)
    (path operation : string) : TreeState * option Hash * option CascadeResult :=
  let '(l, removed, cr) := index_remove cw (ts_Index st) path (mutationContext now hctx path operation) in
  let st := with_index st l in
  (match removed with Some h => forgetCapBinding st h | None => st end, removed, cr).
End tree_writes.
Arguments TreeState : clear implicits.
