(* ===== verification/SubDispatch.v ===== *)
(** * Sub-dispatch ([core/protocol]: [local.go], [dispatch.go], [outbound_authz.go];
      [ext/continuation/advance.go])

    What happens when a running handler dispatches another request: the bounds
    and the chain depth of the child, the authority it runs under, the handler
    it reaches and the context that handler receives; and the gate of a dispatch
    that leaves the peer.  [localExecute] is the closure of [makeLocalExecute] up
    to the invocation of the child: [LInvoke] calls a local handler (through the
    asynchronous pool when a delivery was asked for), [LRemote] hands the request
    to [RemoteExecute].  The delivery token of a remote dispatch and the
    signature of an asynchronous one are not modelled. *)

From S2P Require Import Prelude GoStrings Errors Hash Entity PeerID Paths CapTypes Patterns Check Delegation Chain Requests Revoked Store Dispatch Handlers.

Open Scope Z_scope.

(** ** Bounds *)

Definition DefaultMaxChainDepth : Z := 64.
Definition DefaultChainTTL : Z := 512.

Definition effective_max (configured : Z) : Z := if configured =? 0 then DefaultMaxChainDepth else configured.

Definition with_TTL (b : BoundsData) (t : option Z) : BoundsData := {|
  TTL := t; Budget := Budget b; bd_CascadeDepth := bd_CascadeDepth b; bd_ChainDepth := bd_ChainDepth b;
  bd_ChainID := bd_ChainID b; bd_ParentChainID := bd_ParentChainID b; Visited := Visited b |}.
Definition with_ChainDepth (b : BoundsData) (d : option Z) : BoundsData := {|
  TTL := TTL b; Budget := Budget b; bd_CascadeDepth := bd_CascadeDepth b; bd_ChainDepth := d;
  bd_ChainID := bd_ChainID b; bd_ParentChainID := bd_ParentChainID b; Visited := Visited b |}.
Definition with_ChainID (b : BoundsData) (c : string) : BoundsData := {|
  TTL := TTL b; Budget := Budget b; bd_CascadeDepth := bd_CascadeDepth b; bd_ChainDepth := bd_ChainDepth b;
  bd_ChainID := c; bd_ParentChainID := bd_ParentChainID b; Visited := Visited b |}.
Definition no_bounds : BoundsData := {|
  TTL := None; Budget := None; bd_CascadeDepth := None; bd_ChainDepth := None;
  bd_ChainID := ""; bd_ParentChainID := ""; Visited := [] |}.

(** [Err] is the exhausted TTL. *)
Definition decrementBounds (b : option BoundsData) : result (option BoundsData) :=
  match b with
  | None => Ok None
  | Some child =>
      match TTL child with
      | None => Ok (Some child)
      | Some t => if t =? 0 then Err [] else Ok (Some (with_TTL child (Some (t - 1))))
      end
  end.

Definition stampChainDepth (b : option BoundsData) (depth : Z) : option BoundsData :=
  if depth =? 0 then
    match b with
    | None => None
    | Some out => match bd_ChainDepth out with None => b | Some _ => Some (with_ChainDepth out None) end
    end
  else Some (with_ChainDepth (match b with Some out => out | None => no_bounds end) (Some depth)).

Definition inheritedChainDepth (b : option BoundsData) : Z :=
  match b with Some b => match bd_ChainDepth b with Some d => d | None => 0 end | None => 0 end.

(** The bounds of a continuation's dispatch. *)
Definition dispatchBounds (parent : option BoundsData) (chainID : string) (ttlSeed : Z) : result BoundsData :=
  let! child := match parent with
    | None => Ok no_bounds
    | Some p =>
        match TTL p with
        | None => Ok p
        | Some t => if t =? 0 then Err [] else Ok (with_TTL p (Some (t - 1)))
        end
    end in
  Ok (with_ChainID (match TTL child with None => with_TTL child (Some ttlSeed) | Some _ => child end) chainID).

Definition isRemoteURI (uri : string) (localPeerID : PeerID) : bool :=
  match URI.ParseURI uri with
  | Err _ => false
  | Ok parsed => negb (String.eqb (URI.PeerID_ parsed) "") && negb (String.eqb (URI.PeerID_ parsed) localPeerID)
  end.

(** ** Options *)

Record DeliverySpec := { ds_URI : string; ds_Operation : string }.

Record ExecuteOpts := {
  eo_Resource : option ResourceTarget;
  eo_Capability : Entity;
  eo_DeliverTo : option DeliverySpec;
  eo_Bounds : option BoundsData;
  eo_CallerCapabilityOverride : Entity;
  eo_IncludedChain : list Entity;
  eo_ChainDepth : option Z;
  eo_ReactiveTrigger : bool
}.

(** What accompanies a remote dispatch; [None] is a nil pointer. *)
Record AsyncDelivery := {
  ad_DeliverTo : option DeliverySpec;
  ad_Bounds : option BoundsData;
  ad_Extras : gmap Hash Entity;
  ad_CapabilityOverride : option Entity
}.

Record Invocation := {
  inv_Path : string;
  inv_Operation : string;
  inv_Resolution : resolution;
  inv_Context : HandlerContext;
  inv_Expression : option string;
  inv_Async : bool
}.

Inductive LocalVerdict :=
| LRefuse (status : Z) (code : string)
| LFail (e : GoErr)
| LRemote (uri operation : string) (resource : option ResourceTarget) (async : option AsyncDelivery)
| LInvoke (i : Invocation).

(** ** Dispatching *)

Section sub_dispatch.
Context {CS L IX : Type} `{ContentStoreLaws CS} `{LocationIndex L} `{CapabilityIndex IX}.
Context `{Base58, Signing, DataCodec, MapOrder, HandlerCodec}.

(** The fields of the dispatcher that only sub-dispatch reads: the ceiling of
    the chain depth (0 is unset) and whether [RemoteExecute] is wired. *)
Record LocalConfig := { MaxChainDepth : Z; RemoteExecute : bool }.

(** The clock reads of one dispatch: of the permission check, of the grant
    check, and those of a presented credential. *)
Record Clocks := { ck_now : Z; ck_grant : Z; ck_chain : nat -> Z; ck_credential : Z }.

Definition file_entity (m : gmap Hash Entity) (e : Entity) : gmap Hash Entity := <[ContentHash e := e]> m.

Definition presented_included (d : Dispatcher CS L IX) (capEnt : Entity)
    (includedChain : list Entity) : gmap Hash Entity :=
  let included := file_entity (fold_left file_entity includedChain ∅) capEnt in
  match cs_Get (d_Store d) (LocalIdentityHash d) with
  | Some localIdent => <[LocalIdentityHash d := localIdent]> included
  | None => included
  end.

Definition presentedAuthorizes (ck : Clocks) (d : Dispatcher CS L IX) (capEnt : Entity)
    (includedChain : list Entity) (execData : ExecuteData) (handlerPattern : string) (targetPeer : PeerID) : bool :=
  match CapabilityTokenDataFromEntity capEnt with
  | Err _ => false
  | Ok capData =>
      let included := presented_included d capEnt includedChain in
      if negb (bool_decide (Grantee capData = LocalIdentityHash d)) then false
      else if negb (is_ok (VerifyChain (ck_chain ck) capEnt included targetPeer)) then false
      else match CollectAuthorityChain capEnt (IncludedResolver included) with
      | Err _ | Ok [] => false
      | Ok (c :: chain) =>
          match CapabilityTokenDataFromEntity (List.last chain c) with
          | Err _ => false
          | Ok rootData =>
              if IsMulti (Granter_ rootData) then false
              else match granterPeerIDFromIncluded (Granter_ capData) included (LocalPeerID d) with
              | Err _ => false
              | Ok leafGranterPeerID =>
                  if IsRevoked capEnt {| rc_ContentStore := Some (entities (d_Store d));
                       rc_LocationIndex := Some (Get (d_LocationIndex d)); rc_Included := included;
                       rc_CapabilityIndex := d_CapabilityIndex d |}
                  then false
                  else CheckPermission (ck_credential ck) execData capData handlerPattern targetPeer leafGranterPeerID
              end
          end
      end
  end.

(** The request a sub-dispatch is checked as. *)
Definition sub_request (uri operation : string) (resource : option ResourceTarget) : ExecuteData := {|
  RequestID := ""; URI_ := uri; Operation := operation; Resource := resource; Params := [];
  Author := zero_hash; Capability := zero_hash |}.

Definition authorizeOutboundSubdispatch (ck : Clocks) (d : Dispatcher CS L IX) (uri operation : string)
    (resource : option ResourceTarget) (presentedCap : Entity) (includedChain : list Entity) (ambientGrant : Entity)
  : res string unit :=
  let targetPeer := extractPeer uri (LocalPeerID d) in
  let handlerPattern := URI.ExtractHandlerPath uri in
  let execData := sub_request uri operation resource in
  let relaxPeers := negb (String.eqb (Type_ presentedCap) "")
    && presentedAuthorizes ck d presentedCap includedChain execData handlerPattern targetPeer in
  if String.eqb (Type_ ambientGrant) "" then Err "capability_denied"
  else match CapabilityTokenDataFromEntity ambientGrant with
  | Err _ => Err "capability_denied"
  | Ok capData =>
      match ResolveGranterPeerID (Granter_ capData) (entities (d_Store d)) (LocalPeerID d) with
      | Err _ => Err "capability_denied"
      | Ok granterPeerID =>
          if CheckPermissionRelaxPeers (ck_now ck) execData capData handlerPattern (LocalPeerID d) granterPeerID relaxPeers
          then Ok tt else Err "capability_denied"
      end
  end.

Definition child_depth (callerCtx : HandlerContext) (opts : ExecuteOpts) : Z :=
  match eo_ChainDepth opts with Some d => d | None => hc_ChainDepth callerCtx end.

(** The carrier of a remote dispatch. *)
Definition remote_delivery (opts : ExecuteOpts) (childBounds : option BoundsData) : option AsyncDelivery :=
  let override := negb (String.eqb (Type_ (eo_Capability opts)) "") in
  match eo_DeliverTo opts, override, eo_IncludedChain opts, childBounds with
  | None, false, [], None => None
  | _, _, _, _ => Some {|
      ad_DeliverTo := eo_DeliverTo opts; ad_Bounds := childBounds;
      ad_Extras := fold_left file_entity (eo_IncludedChain opts) ∅;
      ad_CapabilityOverride := if override then Some (eo_Capability opts) else None |}
  end.

Definition remote_branch (ck : Clocks) (d : Dispatcher CS L IX) (cfg : LocalConfig)
    (callerCtx : HandlerContext) (uri operation : string) (opts : ExecuteOpts) (childBounds : option BoundsData)
  : LocalVerdict :=
  if negb (RemoteExecute cfg) then LFail []
  else
    let resource := eo_Resource opts in
    let send := LRemote uri operation resource (remote_delivery opts childBounds) in
    if String.eqb (hc_HandlerPattern callerCtx) "" then send
    else match authorizeOutboundSubdispatch ck d uri operation resource (eo_Capability opts) (eo_IncludedChain opts)
                 (hc_HandlerGrant callerCtx) with
    | Err code => LRefuse 403 code
    | Ok _ => send
    end.

Definition local_branch (ck : Clocks) (d : Dispatcher CS L IX) (callerCtx : HandlerContext)
    (uri operation : string) (opts : ExecuteOpts) (childDepth : Z) (childBounds : option BoundsData) : LocalVerdict :=
  let handlerPath := URI.ExtractHandlerPath uri in
  match resolveHandler d handlerPath with
  | Err code => if String.eqb code "decode_failed" then LRefuse 500 "internal_error" else LRefuse 404 "not_found"
  | Ok res =>
  let grantToCheck :=
    if String.eqb (Type_ (eo_Capability opts)) "" then hc_HandlerGrant callerCtx else eo_Capability opts in
  if String.eqb (Type_ grantToCheck) "" then LRefuse 403 "missing_handler_grant"
  else match CapabilityTokenDataFromEntity grantToCheck with
  | Err e => LFail e
  | Ok capData =>
  match ResolveGranterPeerID (Granter_ capData) (entities (d_Store d)) (LocalPeerID d) with
  | Err _ => LRefuse 403 "capability_denied"
  | Ok granterPeerID =>
  let childResource := normalizeResourceTargets (eo_Resource opts) (LocalPeerID d) in
  if negb (CheckPermission (ck_now ck) (sub_request "" operation childResource) capData (res_pattern res)
             (LocalPeerID d) granterPeerID) then LRefuse 403 "capability_denied"
  else
  let entityNative := negb (String.eqb (ExpressionPath (res_handlerData res)) "") in
  let grant := loadValidatedGrant (ck_grant ck) d (res_pattern res) in
  match grant_refusal entityNative grant with
  | Some (status, code) => LRefuse status code
  | None =>
  let childCtx := {|
    hc_Author := hc_Author callerCtx; hc_AuthorHash := hc_AuthorHash callerCtx;
    hc_LocalPeerID := hc_LocalPeerID callerCtx;
    hc_CallerCapability :=
      if String.eqb (Type_ (eo_CallerCapabilityOverride opts)) "" then hc_CallerCapability callerCtx
      else eo_CallerCapabilityOverride opts;
    hc_HandlerGrant := match grant with Ok g => g | Err _ => no_entity end;
    hc_Resource := childResource; hc_HandlerPattern := res_pattern res; hc_RequestID := hc_RequestID callerCtx;
    hc_Bounds := childBounds; hc_ChainDepth := childDepth; hc_ReactiveTrigger := eo_ReactiveTrigger opts;
    hc_Included := hc_Included callerCtx |} in
  if entityNative && negb (EvaluateExpression d) then LRefuse 501 "unsupported_operation"
  else
  let async := match eo_DeliverTo opts with Some _ => true | None => false end in
  if async && IsZero (ContentHash (hc_HandlerGrant callerCtx)) then LRefuse 400 "missing_deliver_token"
  else LInvoke {|
    inv_Path := handlerPath; inv_Operation := operation; inv_Resolution := res; inv_Context := childCtx;
    inv_Expression := if entityNative
      then Some (qualifyIfRelative (LocalPeerID d) (ExpressionPath (res_handlerData res))) else None;
    inv_Async := async |}
  end end end end.

Definition localExecute (ck : Clocks) (d : Dispatcher CS L IX) (cfg : LocalConfig)
    (callerCtx : HandlerContext) (uri operation : string) (opts : ExecuteOpts) : LocalVerdict :=
  let childDepth := child_depth callerCtx opts in
  if effective_max (MaxChainDepth cfg) <? childDepth then LRefuse 429 "bounds_exceeded"
  else match match eo_Bounds opts with Some b => Ok (Some b) | None => decrementBounds (hc_Bounds callerCtx) end with
  | Err _ => LRefuse 429 "bounds_exceeded"
  | Ok bounds =>
      let childBounds := stampChainDepth bounds childDepth in
      if isRemoteURI uri (LocalPeerID d)
      then remote_branch ck d cfg callerCtx uri operation opts childBounds
      else local_branch ck d callerCtx uri operation opts childDepth childBounds
  end.

(** The in-process entry point. *)
Record LocalExecuteRequest := {
  lr_URI : string; lr_Operation : string; lr_Resource : option ResourceTarget; lr_CallerCapability : Entity;
  lr_Author : PeerID; lr_AuthorHash : Hash; lr_Bounds : option BoundsData; lr_RequestID : string;
  lr_Included : gmap Hash Entity
}.

Definition root_context (d : Dispatcher CS L IX) (req : LocalExecuteRequest) : HandlerContext := {|
  hc_Author := lr_Author req; hc_AuthorHash := lr_AuthorHash req; hc_LocalPeerID := LocalPeerID d;
  hc_CallerCapability := lr_CallerCapability req; hc_HandlerGrant := no_entity; hc_Resource := lr_Resource req;
  hc_HandlerPattern := ""; hc_RequestID := lr_RequestID req; hc_Bounds := lr_Bounds req; hc_ChainDepth := 0;
  hc_ReactiveTrigger := false; hc_Included := lr_Included req |}.

Definition DispatchLocalExecute (ck : Clocks) (d : Dispatcher CS L IX) (cfg : LocalConfig)
    (req : LocalExecuteRequest) : LocalVerdict :=
  localExecute ck d cfg (root_context d req) (lr_URI req) (lr_Operation req) {|
    eo_Resource := lr_Resource req; eo_Capability := lr_CallerCapability req; eo_DeliverTo := None; eo_Bounds := None;
    eo_CallerCapabilityOverride := no_entity; eo_IncludedChain := []; eo_ChainDepth := None;
    eo_ReactiveTrigger := false |}.
End sub_dispatch.

(** ** The authority of a sub-dispatch *)

Section authority.
Context {CS L IX : Type} `{ContentStoreLaws CS} `{LocationIndex L} `{CapabilityIndex IX}.
Context `{Base58Laws, Signing, DataCodec, MapOrder, HandlerCodec}.

Definition with_caller (c : Entity) (ctx : HandlerContext) : HandlerContext := {|
  hc_Author := hc_Author ctx; hc_AuthorHash := hc_AuthorHash ctx; hc_LocalPeerID := hc_LocalPeerID ctx;
  hc_CallerCapability := c; hc_HandlerGrant := hc_HandlerGrant ctx; hc_Resource := hc_Resource ctx;
  hc_HandlerPattern := hc_HandlerPattern ctx; hc_RequestID := hc_RequestID ctx; hc_Bounds := hc_Bounds ctx;
  hc_ChainDepth := hc_ChainDepth ctx; hc_ReactiveTrigger := hc_ReactiveTrigger ctx; hc_Included := hc_Included ctx |}.

Definition with_inv_caller (c : Entity) (v : LocalVerdict) : LocalVerdict :=
  match v with
  | LInvoke i => LInvoke {| inv_Path := inv_Path i; inv_Operation := inv_Operation i; inv_Resolution := inv_Resolution i;
      inv_Context := with_caller c (inv_Context i); inv_Expression := inv_Expression i; inv_Async := inv_Async i |}
  | _ => v
  end.

(** A sub-dispatch never gains from the caller. Whatever capability the
    request that started the chain presented, the decision on a sub-dispatch,
    local or remote, is the same, and so is everything the child receives but
    the propagated capability itself, which is handed on unchanged or replaced
    by an explicit override. *)
Theorem subdispatch_ignores_caller (ck : Clocks) (d : Dispatcher CS L IX) (cfg : LocalConfig) (ctx : HandlerContext)
    (c : Entity) (uri operation : string) (opts : ExecuteOpts) :
  localExecute ck d cfg (with_caller c ctx) uri operation opts
  = with_inv_caller
      (if String.eqb (Type_ (eo_CallerCapabilityOverride opts)) "" then c else eo_CallerCapabilityOverride opts)
      (localExecute ck d cfg ctx uri operation opts).
Proof.
  unfold localExecute, child_depth. cbn [with_caller hc_ChainDepth hc_Bounds].
  destruct (_ <? _); [done|]. destruct (match eo_Bounds opts with Some _ => _ | None => _ end) as [b|]; [|done].
  destruct (isRemoteURI _ _).
  - unfold remote_branch. cbn [with_caller hc_HandlerPattern hc_HandlerGrant].
    destruct (negb _); [done|]. destruct (String.eqb _ ""); [done|]. by destruct (authorizeOutboundSubdispatch _ _ _ _ _ _ _ _).
  - unfold local_branch. cbn [with_caller hc_HandlerGrant].
    destruct (resolveHandler _ _) as [res|code]; [|by destruct (String.eqb code "decode_failed")].
    destruct (String.eqb (Type_ (if String.eqb _ _ then _ else _)) ""); [done|].
    destruct (CapabilityTokenDataFromEntity _) as [capData|]; [|done].
    destruct (ResolveGranterPeerID _ _ _) as [g|]; [|done]. destruct (negb (CheckPermission _ _ _ _ _ _)); [done|].
    destruct (grant_refusal _ _) as [[status code]|]; [done|]. destruct (_ && _); [done|]. destruct (_ && _); [done|].
    cbn [with_inv_caller]. unfold with_caller. cbn. by destruct (String.eqb (Type_ (eo_CallerCapabilityOverride opts)) "").
Qed.

(** The token a local sub-dispatch is decided on. *)
Definition deciding_grant (ctx : HandlerContext) (opts : ExecuteOpts) : Entity :=
  if String.eqb (Type_ (eo_Capability opts)) "" then hc_HandlerGrant ctx else eo_Capability opts.

Lemma localExecute_invoke ck d cfg ctx uri operation opts i :
  localExecute ck d cfg ctx uri operation opts = LInvoke i ->
  child_depth ctx opts <= effective_max (MaxChainDepth cfg)
  /\ exists b, match eo_Bounds opts with Some b => Ok (Some b) | None => decrementBounds (hc_Bounds ctx) end = Ok b
    /\ local_branch ck d ctx uri operation opts (child_depth ctx opts) (stampChainDepth b (child_depth ctx opts)) = LInvoke i.
Proof.
  unfold localExecute. destruct (Z.ltb_spec (effective_max (MaxChainDepth cfg)) (child_depth ctx opts)); [done|].
  destruct (match eo_Bounds opts with Some _ => _ | None => _ end) as [b|]; [|done].
  destruct (isRemoteURI _ _).
  - unfold remote_branch. destruct (negb _); [done|]. destruct (String.eqb _ ""); [done|].
    by destruct (authorizeOutboundSubdispatch _ _ _ _ _ _ _ _).
  - intros Hl. split; [lia|]. by exists b.
Qed.

(** C2: what a local sub-dispatch reaches. The handler invoked is the one its
    path resolves to; the token that decided is the one given explicitly or the
    grant of the running handler; it decodes, its granter resolves and it
    permits the operation on exactly the resource the child receives, which is
    none when the dispatch named none, whatever resource the parent had; the
    child runs under its own verified handler grant, for the same author. *)
Theorem subdispatch_authorized (ck : Clocks) (d : Dispatcher CS L IX) (cfg : LocalConfig) (ctx : HandlerContext)
    (uri operation : string) (opts : ExecuteOpts) (i : Invocation) :
  localExecute ck d cfg ctx uri operation opts = LInvoke i ->
  let child := inv_Context i in let tok := deciding_grant ctx opts in
  Type_ tok <> ""
  /\ resolveHandler d (URI.ExtractHandlerPath uri) = Ok (inv_Resolution i)
  /\ (exists capData granter, CapabilityTokenDataFromEntity tok = Ok capData
      /\ ResolveGranterPeerID (Granter_ capData) (entities (d_Store d)) (LocalPeerID d) = Ok granter
      /\ CheckPermission (ck_now ck) (sub_request "" operation (hc_Resource child)) capData (hc_HandlerPattern child)
           (LocalPeerID d) granter = true)
  /\ hc_Resource child = normalizeResourceTargets (eo_Resource opts) (LocalPeerID d)
  /\ (eo_Resource opts = None -> hc_Resource child = None)
  /\ hc_HandlerPattern child = res_pattern (inv_Resolution i)
  /\ (hc_HandlerGrant child = no_entity
      \/ loadValidatedGrant (ck_grant ck) d (hc_HandlerPattern child) = Ok (hc_HandlerGrant child))
  /\ hc_AuthorHash child = hc_AuthorHash ctx /\ hc_Author child = hc_Author ctx
  /\ hc_ChainDepth child <= effective_max (MaxChainDepth cfg).
Proof.
  intros [Hd (b & _ & Hl)]%localExecute_invoke. cbv zeta. revert Hl. unfold local_branch. fold (deciding_grant ctx opts).
  destruct (resolveHandler _ _) as [res|code]; [|by destruct (String.eqb code "decode_failed")].
  destruct (String.eqb_spec (Type_ (deciding_grant ctx opts)) ""); [done|].
  destruct (CapabilityTokenDataFromEntity _) as [capData|] eqn:Hcap; [|done].
  destruct (ResolveGranterPeerID _ _ _) as [g|] eqn:Hg; [|done].
  destruct (CheckPermission _ _ _ _ _ _) eqn:Hperm; [|done]. cbn [negb].
  destruct (grant_refusal _ _) as [[status code]|]; [done|]. destruct (_ && _); [done|]. destruct (_ && _); [done|].
  intros [= <-]. cbn. split_and!; try done.
  - by exists capData, g.
  - by intros ->.
  - destruct (loadValidatedGrant _ _ _); [by right|by left].
Qed.

Lemma last_lookup_cons {A} (l : list A) (c : A) : (c :: l) !! length l = Some (List.last l c).
Proof.
  revert c. induction l as [|a l IH]; intros c; [done|]. cbn [length lookup list_lookup]. rewrite IH. f_equal.
  destruct l as [|b l]; [done|]. cbn [List.last]. clear. revert b. by induction l as [|x l IH]; intros b; [|apply IH].
Qed.

(** A credential for reaching [target]: granted to this peer, at the end of a
    verified chain whose root has the target as its single granter, not revoked,
    and permitting the request when read with the target as the local peer. *)
Definition minted_by_target (ck : Clocks) (d : Dispatcher CS L IX) (capEnt : Entity) (carried : list Entity)
    (ex : ExecuteData) (pattern : string) (target : PeerID) : Prop :=
  let included := presented_included d capEnt carried in
  exists capData chain root rootData h g,
    CapabilityTokenDataFromEntity capEnt = Ok capData /\ Grantee capData = LocalIdentityHash d
    /\ chain_to_root (IncludedResolver included) capEnt chain /\ chain_ok (ck_chain ck) 0 included target chain
    /\ last chain = Some root /\ CapabilityTokenDataFromEntity root = Ok rootData
    /\ Granter_ rootData = SingleSigGranter h /\ is_local included target h
    /\ signed_by included (ContentHash root) h
    /\ IsRevoked capEnt {| rc_ContentStore := Some (entities (d_Store d));
         rc_LocationIndex := Some (Get (d_LocationIndex d)); rc_Included := included;
         rc_CapabilityIndex := d_CapabilityIndex d |} = false
    /\ CheckPermission (ck_credential ck) ex capData pattern target g = true.

Lemma presentedAuthorizes_sound ck d capEnt carried ex pattern target :
  presentedAuthorizes ck d capEnt carried ex pattern target = true ->
  minted_by_target ck d capEnt carried ex pattern target.
Proof.
  unfold presentedAuthorizes, minted_by_target. set (included := presented_included d capEnt carried).
  destruct (CapabilityTokenDataFromEntity capEnt) as [capData|] eqn:Hcap; [|done].
  case_bool_decide as Hg; [|done]. cbn [negb].
  destruct (VerifyChain _ _ _ _) as [[]|] eqn:Hv; [|done]. cbn [is_ok negb].
  destruct (CollectAuthorityChain _ _) as [[|c chain]|] eqn:Hc; [done| |done].
  destruct (CapabilityTokenDataFromEntity (List.last chain c)) as [rootData|] eqn:Hr; [|done].
  destruct (IsMulti (Granter_ rootData)) eqn:Hm; [done|].
  destruct (granterPeerIDFromIncluded _ _ _) as [g|]; [|done].
  destruct (IsRevoked _ _) eqn:Hrev; [done|]. intros Hp.
  unfold VerifyChain in Hv. rewrite Hc in Hv. cbn [res_map_err] in Hv. inv_ok. apply verify_links_sound in Hv.
  unfold CollectAuthorityChain in Hc. apply collect_ok in Hc as (l & Hl & Hch & _). cbn in Hl. subst l.
  pose proof (last_lookup_cons chain c) as Hlast. destruct (Hv _ _ Hlast) as (rd & Hlk & Hroot).
  rewrite lookup_ge_None_2 in Hroot by (simpl; lia). destruct Hlk as (Hrd & _ & _ & _ & Hsig & _).
  assert (rd = rootData) as -> by congruence. unfold root_ok, link_signed in *.
  destruct (Granter_ rootData) as [h|mg] eqn:Hgr; [|done].
  exists capData, (c :: chain), (List.last chain c), rootData, h, g. split_and!; try done.
  by rewrite last_lookup.
Qed.

(** C3: no confused deputy. A request that leaves the peer from within a handler
    is permitted by that handler's own grant in operation, handler and
    resource, whatever credential the caller supplied; and it goes either to a
    peer in the grant's peer scope, or to the very peer that minted, alone, the
    root of a verified, unrevoked credential granted to this peer which itself
    permits the request. *)
Theorem outbound_authorized (ck : Clocks) (d : Dispatcher CS L IX) (cfg : LocalConfig) (ctx : HandlerContext)
    (uri operation : string) (opts : ExecuteOpts) (u o : string) (r : option ResourceTarget) (ad : option AsyncDelivery) :
  localExecute ck d cfg ctx uri operation opts = LRemote u o r ad -> hc_HandlerPattern ctx <> "" ->
  let target := extractPeer uri (LocalPeerID d) in let pattern := URI.ExtractHandlerPath uri in
  let ex := sub_request uri operation (eo_Resource opts) in
  u = uri /\ o = operation /\ r = eo_Resource opts /\ Type_ (hc_HandlerGrant ctx) <> ""
  /\ exists capData granter grant,
       CapabilityTokenDataFromEntity (hc_HandlerGrant ctx) = Ok capData
       /\ ResolveGranterPeerID (Granter_ capData) (entities (d_Store d)) (LocalPeerID d) = Ok granter
       /\ in_window capData (ck_now ck) /\ grant ∈ Grants capData
       /\ operationsAllow (Operations grant) operation = true
       /\ scopeContains pattern (Handlers grant) = true
       /\ (forall res, eo_Resource opts = Some res ->
             CheckResourceScope (Some res) (Resources grant) (LocalPeerID d) granter = true)
       /\ (MatchesPeerScope (target_peer ex pattern (LocalPeerID d)) (peers_or_default (Peers grant) (LocalPeerID d)) (LocalPeerID d) = true
           \/ minted_by_target ck d (eo_Capability opts) (eo_IncludedChain opts) ex pattern target).
Proof.
  intros Hx Hpat. cbv zeta. revert Hx. unfold localExecute. destruct (_ <? _); [done|].
  destruct (match eo_Bounds opts with Some _ => _ | None => _ end) as [b|]; [|done].
  destruct (isRemoteURI _ _) eqn:Hrem.
  2:{ unfold local_branch. intros Hl. exfalso. revert Hl.
      repeat (first [done | match goal with |- context [match ?x with _ => _ end] => destruct x end]). }
  unfold remote_branch. destruct (negb _); [done|].
  destruct (String.eqb_spec (hc_HandlerPattern ctx) ""); [done|].
  destruct (authorizeOutboundSubdispatch _ _ _ _ _ _ _ _) as [[]|] eqn:Ha; [|done]. intros [= <- <- <- <-].
  revert Ha. unfold authorizeOutboundSubdispatch.
  destruct (String.eqb_spec (Type_ (hc_HandlerGrant ctx)) ""); [done|].
  destruct (CapabilityTokenDataFromEntity (hc_HandlerGrant ctx)) as [capData|]; [|done].
  destruct (ResolveGranterPeerID _ _ _) as [granter|] eqn:Hg; [|done].
  unfold CheckPermissionRelaxPeers. destruct (findMatchingGrant _ _ _ _ _ _ _) as [grant|] eqn:Hf; [|done].
  intros _. split_and!; try done. exists capData, granter, grant.
  revert Hf. unfold findMatchingGrant. destruct (NotYetValid _ _) eqn:Hnb; [done|]. destruct (Expired _ _) eqn:Hex; [done|].
  intros [Hin Hm]%find_some. apply list_elem_of_In in Hin. revert Hm. unfold grant_matches. cbn [Operation Resource sub_request].
  destruct (operationsAllow _ _); [|done]. destruct (scopeContains _ _); [|done]. cbn [negb].
  destruct (match eo_Resource opts with None => false | Some _ => _ end) eqn:Hres; [done|].
  intros Hpeers. split_and!; try done.
  - by apply in_window_iff.
  - intros res Hr. rewrite Hr in Hres. by apply negb_false_iff.
  - destruct (negb (String.eqb _ _) && presentedAuthorizes _ _ _ _ _ _ _) eqn:Hc.
    + right. apply andb_prop in Hc as [_ Hc]. by apply presentedAuthorizes_sound.
    + left. cbn [negb andb] in Hpeers. by destruct (MatchesPeerScope _ _ _).
Qed.
End authority.

(** ** Bounded chains *)

Section bounded.
Context {CS L IX : Type} `{ContentStoreLaws CS} `{LocationIndex L} `{CapabilityIndex IX}.
Context `{Base58, Signing, DataCodec, MapOrder, HandlerCodec}.

Definition ctx_TTL (ctx : HandlerContext) : option Z := match hc_Bounds ctx with Some b => TTL b | None => None end.

(** A causal chain of dispatches: [n] of them, [a] of which are continuation
    advancements.  A handler's own dispatch overrides neither bounds nor depth;
    an advancement passes the bounds of [dispatchBounds] and the next depth. *)
Inductive causal (d : Dispatcher CS L IX) (cfg : LocalConfig) : nat -> nat -> HandlerContext -> HandlerContext -> Prop :=
| causal_nil ctx : causal d cfg 0 0 ctx ctx
| causal_dispatch n a ctx ck uri operation opts i ctx' :
    eo_Bounds opts = None -> eo_ChainDepth opts = None ->
    localExecute ck d cfg ctx uri operation opts = LInvoke i ->
    causal d cfg n a (inv_Context i) ctx' -> causal d cfg (S n) a ctx ctx'
| causal_advance n a ctx ck uri operation opts i ctx' chainID seed b :
    dispatchBounds (hc_Bounds ctx) chainID seed = Ok b ->
    eo_Bounds opts = Some b -> eo_ChainDepth opts = Some (u64 (hc_ChainDepth ctx + 1)) ->
    localExecute ck d cfg ctx uri operation opts = LInvoke i ->
    causal d cfg n a (inv_Context i) ctx' -> causal d cfg (S n) (S a) ctx ctx'.

Lemma local_branch_bounds ck d ctx uri operation opts depth b i :
  local_branch (CS := CS) (L := L) (IX := IX) ck d ctx uri operation opts depth b = LInvoke i ->
  hc_Bounds (inv_Context i) = b /\ hc_ChainDepth (inv_Context i) = depth.
Proof.
  unfold local_branch.
  destruct (resolveHandler _ _) as [res|code]; [|by destruct (String.eqb code "decode_failed")].
  destruct (String.eqb (Type_ _) ""); [done|]. destruct (CapabilityTokenDataFromEntity _); [|done].
  destruct (ResolveGranterPeerID _ _ _); [|done]. destruct (negb _); [done|].
  destruct (grant_refusal _ _) as [[]|]; [done|]. destruct (_ && _); [done|]. destruct (_ && _); [done|].
  by intros [= <-].
Qed.

Lemma stamp_TTL b depth : match stampChainDepth b depth with Some b' => TTL b' | None => None end
  = match b with Some b => TTL b | None => None end.
Proof.
  unfold stampChainDepth. destruct (depth =? 0); [|by destruct b].
  destruct b as [b|]; [|done]. by destruct (bd_ChainDepth b).
Qed.

Lemma stamp_depth b depth : inheritedChainDepth (stampChainDepth b depth) = depth.
Proof.
  unfold stampChainDepth. destruct (Z.eqb_spec depth 0) as [->|]; [|done].
  destruct b as [b|]; [|done]. destruct (bd_ChainDepth b) eqn:E; [done|]. cbn. by rewrite E.
Qed.

Lemma dispatchBounds_TTL parent chainID seed b t :
  dispatchBounds parent chainID seed = Ok b -> match parent with Some p => TTL p | None => None end = Some t ->
  t <> 0 /\ TTL b = Some (t - 1).
Proof.
  unfold dispatchBounds. destruct parent as [p|]; [|done]. intros Hb Ht. rewrite Ht in Hb.
  destruct (Z.eqb_spec t 0) as [|Hne]; [done|]. cbn in Hb. by injection Hb as <-.
Qed.

Lemma decrementBounds_TTL parent b t :
  decrementBounds parent = Ok b -> match parent with Some p => TTL p | None => None end = Some t ->
  t <> 0 /\ match b with Some b => TTL b | None => None end = Some (t - 1).
Proof.
  unfold decrementBounds. destruct parent as [p|]; [|done]. intros Hb Ht. rewrite Ht in Hb.
  destruct (Z.eqb_spec t 0) as [|Hne]; [done|]. by injection Hb as <-.
Qed.

(** One dispatch of either kind. *)
Lemma causal_step d cfg ctx ck uri operation opts i t :
  localExecute (CS := CS) (L := L) (IX := IX) ck d cfg ctx uri operation opts = LInvoke i -> ctx_TTL ctx = Some t ->
  (eo_Bounds opts = None \/ exists chainID seed b, dispatchBounds (hc_Bounds ctx) chainID seed = Ok b /\ eo_Bounds opts = Some b) ->
  t <> 0 /\ ctx_TTL (inv_Context i) = Some (t - 1)
  /\ hc_ChainDepth (inv_Context i) = child_depth ctx opts
  /\ child_depth ctx opts <= effective_max (MaxChainDepth cfg)
  /\ inheritedChainDepth (hc_Bounds (inv_Context i)) = hc_ChainDepth (inv_Context i).
Proof.
  intros Hx Ht Hb. apply localExecute_invoke in Hx as [Hd (b & Hbs & Hl)].
  apply local_branch_bounds in Hl as [Hbounds Hdepth]. rewrite Hdepth. unfold ctx_TTL. rewrite Hbounds, stamp_TTL, stamp_depth.
  assert (t <> 0 /\ match b with Some b => TTL b | None => None end = Some (t - 1)) as [? ->]; [|done].
  destruct Hb as [Hn|(chainID & seed & b' & Hdb & Hs)].
  - rewrite Hn in Hbs. by eapply decrementBounds_TTL.
  - rewrite Hs in Hbs. injection Hbs as <-. by eapply dispatchBounds_TTL.
Qed.

(** C4: causal chains are bounded. A chain of nested dispatches that starts
    under a TTL of [t] uses up one unit per dispatch, whether a plain dispatch
    or a continuation advancement, so it has at most [t] of them; its chain
    depth grows by exactly the number of advancements, never exceeds the
    ceiling, and is what the bounds handed to the last child carry, so that a
    peer reached over the wire goes on counting from it. *)
Theorem causal_chain_bounded (d : Dispatcher CS L IX) (cfg : LocalConfig) (n a : nat) (ctx ctx' : HandlerContext) (t : Z) :
  causal d cfg n a ctx ctx' -> ctx_TTL ctx = Some t -> 0 <= t ->
  0 <= hc_ChainDepth ctx <= effective_max (MaxChainDepth cfg) -> effective_max (MaxChainDepth cfg) < 2 ^ 64 - 1 ->
  Z.of_nat n <= t /\ ctx_TTL ctx' = Some (t - Z.of_nat n)
  /\ hc_ChainDepth ctx' = hc_ChainDepth ctx + Z.of_nat a
  /\ hc_ChainDepth ctx' <= effective_max (MaxChainDepth cfg)
  /\ ((0 < n)%nat -> inheritedChainDepth (hc_Bounds ctx') = hc_ChainDepth ctx').
Proof.
  intros Hc. revert t. induction Hc as [ctx|n a ctx ck uri operation opts i ctx' Hb Hd Hx Hrest IH
      |n a ctx ck uri operation opts i ctx' chainID seed b Hdb Hb Hd Hx Hrest IH]; intros t Ht Hpos Hdepth Hmax.
  - rewrite Z.add_0_r, Z.sub_0_r. split_and!; [lia|done|done|lia|lia].
  - destruct (causal_step _ _ _ _ _ _ _ _ _ Hx Ht (or_introl Hb)) as (Hne & Ht' & Hcd & Hle & Hin).
    unfold child_depth in Hcd, Hle. rewrite Hd in Hcd, Hle.
    destruct (IH (t - 1) Ht' ltac:(lia) ltac:(lia) Hmax) as (Hlen & Httl & Hdep & Hceil & Hinh).
    split_and!; [lia|rewrite Httl; f_equal; lia|lia|lia|].
    intros _. destruct n as [|n]; [by inversion Hrest; subst|]. apply Hinh. lia.
  - destruct (causal_step _ _ _ _ _ _ _ _ _ Hx Ht) as (Hne & Ht' & Hcd & Hle & Hin).
    { right. by exists chainID, seed, b. }
    unfold child_depth in Hcd, Hle. rewrite Hd in Hcd, Hle. unfold u64, two64 in Hcd, Hle. rewrite Z.mod_small in Hcd, Hle by lia.
    destruct (IH (t - 1) Ht' ltac:(lia) ltac:(lia) Hmax) as (Hlen & Httl & Hdep & Hceil & Hinh).
    split_and!; [lia|rewrite Httl; f_equal; lia|lia|lia|].
    intros _. destruct n as [|n]; [by inversion Hrest; subst|]. apply Hinh. lia.
Qed.
End bounded.

(** ** Witnesses *)

Module SubSample.
#[local] Existing Instances nibble58 Sample.signing toy_hashable default_order DispatchSample.codec.

(** A handler grant of the local peer for any peer. *)
Definition grantE : Entity := toy_entity TypeCapToken [Byte.x05].
Definition grantD : CapabilityTokenData := {|
  Grants := [{| Handlers := mkScope ["system/tree"] []; Resources := mkScope ["data/*"] []; Operations := mkScope ["get"] [];
                Peers := Some (mkScope ["*"] []); Constraints := []; Allowances := [] |}];
  Granter_ := SingleSigGranter (ContentHash Sample.peerA); Grantee := ContentHash Sample.peerA; Parent := None;
  CreatedAt := 0; ExpiresAt := None; NotBefore := None; DelegationCaveats := None |}.

#[local] Instance codec : DataCodec := {|
  DecodeToken d := if decide (d = [Byte.x05]) then Some grantD else @DecodeToken Sample.codec d;
  DecodePeer := @DecodePeer Sample.codec;
  DecodeSignature := @DecodeSignature Sample.codec; DecodeSigTarget := @DecodeSigTarget Sample.codec;
  DecodeExecute := @DecodeExecute Sample.codec; DecodeRawMap := @DecodeRawMap Sample.codec |}.

Definition dispatcher : Dispatcher MemoryContentStore MemoryLocationIndex MemoryCapabilityIndex :=
  with_stores DispatchSample.dispatcher (Sample.file [DispatchSample.handlerE; Sample.peerA])
    (d_LocationIndex DispatchSample.dispatcher).

Definition ctx : HandlerContext := {|
  hc_Author := Sample.local; hc_AuthorHash := ContentHash Sample.peerA; hc_LocalPeerID := Sample.local;
  hc_CallerCapability := Sample.leafE; hc_HandlerGrant := grantE; hc_Resource := None; hc_HandlerPattern := "system/inbox";
  hc_RequestID := "r"; hc_Bounds := Some (with_TTL no_bounds (Some 2)); hc_ChainDepth := 0; hc_ReactiveTrigger := false;
  hc_Included := ∅ |}.

Definition opts : ExecuteOpts := {|
  eo_Resource := Some {| Targets := ["data/x"]; rt_Exclude := [] |}; eo_Capability := no_entity; eo_DeliverTo := None;
  eo_Bounds := None; eo_CallerCapabilityOverride := no_entity; eo_IncludedChain := []; eo_ChainDepth := None;
  eo_ReactiveTrigger := false |}.

Definition cfg : LocalConfig := {| MaxChainDepth := 0; RemoteExecute := true |}.
Definition ck : Clocks := {| ck_now := 50; ck_grant := 50; ck_chain := Sample.clock; ck_credential := 50 |}.

Definition local_uri : string := "entity://" +:+ Sample.local +:+ "/system/tree".
Definition remote : PeerID :=
  match PeerIDFromPublicKey (Sample.key Byte.x42) KeyTypeEd25519 with Ok p => p | Err _ => "" end.
Definition remote_uri : string := "entity://" +:+ remote +:+ "/system/tree".

Definition invoked (v : LocalVerdict) : bool := match v with LInvoke _ => true | _ => false end.
Definition sent (v : LocalVerdict) : bool := match v with LRemote _ _ _ _ => true | _ => false end.

Lemma local_invoked : invoked (localExecute ck dispatcher cfg ctx local_uri "get" opts) = true.
Proof. vm_compute. reflexivity. Qed.
Lemma remote_sent : sent (localExecute ck dispatcher cfg ctx remote_uri "get" opts) = true.
Proof. vm_compute. reflexivity. Qed.
End SubSample.

Section witnesses.
#[local] Existing Instances nibble58 nibble58_laws Sample.signing toy_hashable default_order DispatchSample.codec SubSample.codec.

Lemma subdispatch_authorized_witness :
  exists i, localExecute SubSample.ck SubSample.dispatcher SubSample.cfg SubSample.ctx SubSample.local_uri "get" SubSample.opts
            = LInvoke i
    /\ hc_Resource (inv_Context i) = normalizeResourceTargets (eo_Resource SubSample.opts) Sample.local.
Proof.
  pose proof SubSample.local_invoked as Hi.
  destruct (localExecute SubSample.ck SubSample.dispatcher SubSample.cfg SubSample.ctx SubSample.local_uri "get" SubSample.opts)
    as [| | |i] eqn:E; try discriminate Hi.
  exists i. split; [reflexivity|].
  apply (subdispatch_authorized SubSample.ck SubSample.dispatcher SubSample.cfg SubSample.ctx SubSample.local_uri "get"
           SubSample.opts i E).
Defined.

Lemma outbound_authorized_witness :
  Type_ (hc_HandlerGrant SubSample.ctx) <> "".
Proof.
  pose proof SubSample.remote_sent as Hi.
  destruct (localExecute SubSample.ck SubSample.dispatcher SubSample.cfg SubSample.ctx SubSample.remote_uri "get" SubSample.opts)
    as [| |u o r ad|] eqn:E; try discriminate Hi.
  apply (outbound_authorized SubSample.ck SubSample.dispatcher SubSample.cfg SubSample.ctx SubSample.remote_uri "get"
           SubSample.opts u o r ad E).
  discriminate.
Defined.

Lemma causal_chain_bounded_witness :
  exists ctx', causal SubSample.dispatcher SubSample.cfg 1 0 SubSample.ctx ctx' /\ ctx_TTL ctx' = Some 1.
Proof.
  pose proof SubSample.local_invoked as Hi.
  destruct (localExecute SubSample.ck SubSample.dispatcher SubSample.cfg SubSample.ctx SubSample.local_uri "get" SubSample.opts)
    as [| | |i] eqn:E; try discriminate Hi.
  assert (Hc : causal SubSample.dispatcher SubSample.cfg 1 0 SubSample.ctx (inv_Context i)).
  { exact (causal_dispatch _ _ 0 0 _ _ _ _ SubSample.opts _ _ eq_refl eq_refl E (causal_nil _ _ _)). }
  exists (inv_Context i). split; [exact Hc|].
  destruct (causal_chain_bounded SubSample.dispatcher SubSample.cfg 1 0 SubSample.ctx (inv_Context i) 2 Hc) as (_ & Ht & _).
  - reflexivity.
  - lia.
  - vm_compute. split; discriminate.
  - vm_compute. reflexivity.
  - exact Ht.
Defined.
End witnesses.
