(* ===== verification/TreeIndex.v ===== *)
(** * The index a handler sees

    Handlers reach the location index through [HandlerContext], whose index is
    a [NamespacedIndex] over a [NotifyingLocationIndex].  [TreeIndex] states what
    that stack promises a handler: one map from absolute paths to hashes, read
    and written under whatever name a caller uses, where a write takes effect
    exactly when its result says so.  The promise is discharged for the
    namespaced index over every lawful index and writer, and for the notifying
    index whose hooks do not write. *)

From S2P Require Import Prelude GoStrings Errors Hash Entity PeerID Paths CapTypes Patterns Check Delegation Revoked Store Notifying Handlers.

(** The write took effect: no error, or one of event delivery, and the cascade
    does not report a refused binding. *)
Definition wrote (cr : option CascadeResult) (r : res IndexErr unit) : bool :=
  committed r && match cr with Some c => BindingCommitted c | None => true end.

Class TreeIndex (L : Type) `{LocationIndex L} (cw : option (ContextualWriter L)) := {
  tree : L -> gmap string Hash;
  (** The absolute path a caller's path names, and the prefix a listing covers. *)
  names : L -> string -> option string;
  scope_of : L -> string -> option string;
  tree_Get l p : Get l p = names l p ≫= (fun k => tree l !! k);
  tree_List l prefix p h :
    mkEntry p h ∈ List_ l prefix <-> exists q, scope_of l prefix = Some q /\ tree l !! p = Some h /\ HasPrefix p q = true;
  tree_List_NoDup l prefix : NoDup (map le_Path (List_ l prefix));
  tree_set l p h ctx :
    let '(l', cr, r) := index_set cw l p h ctx in
    names l' = names l /\ scope_of l' = scope_of l
    /\ match names l p with
       | None => l' = l /\ cr = None /\ r = Err (InvalidPath p)
       | Some k => tree l' = if wrote cr r then <[k := h]> (tree l) else tree l
       end
    /\ (CascadeDepth ctx = None -> wrote cr r = committed r);
  tree_remove l p ctx :
    let '(l', removed, cr) := index_remove cw l p ctx in
    names l' = names l /\ scope_of l' = scope_of l
    /\ match names l p with
       | None => l' = l /\ removed = None
       | Some k => removed = tree l !! k /\ tree l' = delete k (tree l)
       end
}.

(** ** The namespaced index *)

(** What the writer of an index promises. *)
Class WriterLaws {L : Type} `{LocationIndexLaws L} (w : ContextualWriter L) := {
  writer_set l p h ctx :
    let '(l', cr, r) := SetWithContext w l p h (Some ctx) in
    bindings l' = (if wrote cr r then <[p := h]> (bindings l) else bindings l)
    /\ (CascadeDepth ctx = None -> wrote cr r = committed r);
  writer_remove l p ctx :
    let '(l', removed, cr) := RemoveWithContext w l p (Some ctx) in
    removed = bindings l !! p /\ bindings l' = delete p (bindings l)
}.

Section namespaced.
Context {L : Type} `{LocationIndexLaws L}.

Definition namespaced_writer (cw : option (ContextualWriter L)) : ContextualWriter (NamespacedIndex L) := {|
  SetWithContext := NSetWithContext cw; RemoveWithContext := NRemoveWithContext cw |}.

Definition ns_scope (n : NamespacedIndex L) (prefix : string) : option string :=
  if String.eqb prefix "" || String.eqb prefix "/" then Some "" else canonicalizeChecked n prefix.

Lemma with_inner_names (n : NamespacedIndex L) (l : L) : canonicalizeChecked (with_inner n l) = canonicalizeChecked n.
Proof. reflexivity. Qed.

Lemma with_inner_scope (n : NamespacedIndex L) (l : L) : ns_scope (with_inner n l) = ns_scope n.
Proof. reflexivity. Qed.

Lemma namespaced_List n prefix p h :
  mkEntry p h ∈ NList n prefix <->
  exists q, ns_scope n prefix = Some q /\ ns_bindings n !! p = Some h /\ HasPrefix p q = true.
Proof.
  unfold NList, ns_scope. destruct (_ || _).
  - rewrite list_spec. split; [by exists ""|]. by intros (q & [= <-] & ?).
  - destruct (canonicalizeChecked n prefix) as [abs|].
    + rewrite list_spec. split; [by exists abs|]. by intros (q & [= <-] & ?).
    + split; [by intros ?%elem_of_nil|]. by intros (? & ? & _).
Qed.

Lemma namespaced_NoDup n prefix : NoDup (map le_Path (NList n prefix)).
Proof.
  unfold NList. destruct (_ || _); [apply list_sorted|].
  destruct (canonicalizeChecked n prefix); [apply list_sorted|apply NoDup_nil_2].
Qed.

(** With or without a writer below. *)
#[export] Instance namespaced_tree (cw : option (ContextualWriter L)) :
  match cw with Some w => WriterLaws w | None => True end ->
  TreeIndex (NamespacedIndex L) (Some (namespaced_writer cw)).
Proof.
  intros Hcw. refine {| tree := ns_bindings; names := canonicalizeChecked; scope_of := ns_scope |}.
  - intros n p. cbn [Get namespaced_location_index]. unfold NGet. destruct (canonicalizeChecked n p); [|done].
    apply get_spec.
  - apply namespaced_List.
  - apply namespaced_NoDup.
  - intros n p h ctx. cbn [index_set SetWithContext namespaced_writer]. unfold NSetWithContext.
    destruct (canonicalizeChecked n p) as [k|]; [|done]. destruct cw as [w|].
    + pose proof (writer_set (inner n) k h ctx) as Hs. destruct (SetWithContext w (inner n) k h (Some ctx)) as [[l cr] r].
      split_and!; [apply with_inner_names|apply with_inner_scope|apply Hs|apply Hs].
    + pose proof (set_spec (inner n) k h) as Hs. destruct (Set_ (inner n) k h) as [l r]. cbn [fst snd] in Hs.
      unfold wrote. rewrite andb_true_r. split_and!; [apply with_inner_names|apply with_inner_scope|exact Hs|done].
  - intros n p ctx. cbn [index_remove RemoveWithContext namespaced_writer]. unfold NRemoveWithContext.
    destruct (canonicalizeChecked n p) as [k|]; [|done]. destruct cw as [w|].
    + pose proof (writer_remove (inner n) k ctx) as Hs. destruct (RemoveWithContext w (inner n) k (Some ctx)) as [[l cr] r].
      split_and!; [apply with_inner_names|apply with_inner_scope|apply Hs|apply Hs].
    + destruct (remove_spec (inner n) k) as [Hr Hb]. destruct (Remove (inner n) k) as [l r]. cbn [fst snd] in *.
      split_and!; [apply with_inner_names|apply with_inner_scope|exact Hr|exact Hb].
Defined.
End namespaced.

(** ** The notifying index

    With hooks that read but do not write, one level of fuel runs every call:
    the notifying index is then a lawful index with a lawful writer. *)

Section notifying.
Context {L W : Type} `{LocationIndexLaws L}.
Context (inner_plain : forall (l : L) p h e, snd (Set_ l p h) = Err e -> delivery_error e = false).
Context (cfg : NotifyingConfig W).
Context (quiet_cfg : quiet_hooks cfg).

Definition ops : Ops L W := notifying cfg 1.

Definition notifying_writer : ContextualWriter (NotifyingState L W) := {|
  SetWithContext st p h ctx :=
    match op_Set ops st p h ctx with Some r => r | None => (st, None, Err StorageFailure) end;
  RemoveWithContext st p ctx := match op_Remove ops st p ctx with Some r => r | None => (st, None, None) end |}.

#[local] Instance notifying_index : LocationIndex (NotifyingState L W) := {|
  Set_ st p h := let '(st, _, r) := SetWithContext notifying_writer st p h None in (st, r);
  Get st p := Get (ni_inner st) p;
  Has st p := Has (ni_inner st) p;
  Remove st p := let '(st, h, _) := RemoveWithContext notifying_writer st p None in (st, h);
  List_ st prefix := List_ (ni_inner st) prefix;
  LenPrefix st prefix := LenPrefix (ni_inner st) prefix;
  CompareAndSwap st p e n := match op_CompareAndSwap ops st p e n with Some r => r | None => (st, Err StorageFailure) end;
  CompareAndRemove st p e := match op_CompareAndRemove ops st p e with Some r => r | None => (st, Err StorageFailure) end
|}.

Lemma quiet_runs nested p st ctx : quiet p -> exists st' ctx' r, run_hook (L := L) (W := W) nested p st ctx = Some (st', ctx', r).
Proof.
  revert st ctx. induction p as [r0|f k IH|f k IH|path k IH|prefix k IH|pa ha ca k IH|pa ca k IH|pa ea na k IH|pa ea k IH];
    intros st ctx Hq; cbn [run_hook quiet] in *; try done; eauto.
Qed.

Lemma quiet_cascades nested hooks evt cr st ctx :
  (forall hook evt, hook ∈ hooks -> quiet (Fn hook evt)) ->
  exists st' ctx' cr', cascade (L := L) (W := W) nested hooks evt cr st ctx = Some (st', ctx', cr') /\ BindingCommitted cr' = BindingCommitted cr.
Proof.
  revert cr st ctx. induction hooks as [|hook hooks IH]; intros cr st ctx Hq; cbn [cascade]; [by eexists _, _, _|].
  assert (Hq' : forall hook evt, hook ∈ hooks -> quiet (Fn hook evt)) by (intros; apply Hq; by right).
  destruct (negb _); [by apply IH|].
  destruct (quiet_runs nested (Fn hook (with_context evt ctx)) st ctx) as (st1 & ctx1 & r & ->); [apply Hq; left|].
  destruct (halts r); [by eexists _, _, _|].
  match goal with |- exists _ _ _, cascade _ _ _ ?c _ _ = _ /\ _ => destruct (IH c st1 ctx1 Hq') as (? & ? & ? & -> & Hc) end.
  eexists _, _, _. split; [done|exact Hc].
Qed.

Lemma quiet_runCascades nested evt ctx st :
  exists st' ctx' cr, runCascade (L := L) (W := W) cfg nested evt ctx st = Some (st', ctx', cr)
    /\ match cr with Some c => BindingCommitted c = true | None => True end.
Proof.
  unfold runCascade. unfold quiet_hooks in quiet_cfg. destruct (namedHooks cfg) as [|hk hks]; [by eexists _, _, _|].
  match goal with |- context [cascade _ _ _ ?c _ _] =>
    destruct (quiet_cascades nested (hk :: hks) evt c st ctx quiet_cfg) as (? & ? & ? & -> & Hc) end.
  eexists _, _, _. split; [done|]. exact Hc.
Qed.

Lemma emit_inner st evt : ni_inner (fst (emit (L := L) (W := W) st evt)) = ni_inner st.
Proof. unfold emit. by destruct (suppressEmit st), (done_ st), (length (events st) <? capacity st)%nat. Qed.

Lemma emit_committed st evt : committed (snd (emit (L := L) (W := W) st evt)) = true.
Proof. unfold emit. by destruct (suppressEmit st), (done_ st), (length (events st) <? capacity st)%nat. Qed.

Lemma quiet_set st p h ctx :
  exists st' cr r, op_Set ops st p h ctx = Some (st', cr, r)
    /\ bindings (ni_inner st') = (if wrote cr r then <[p := h]> (bindings (ni_inner st)) else bindings (ni_inner st))
    /\ (refused_depth cfg ctx = None -> wrote cr r = committed r).
Proof.
  cbn [op_Set ops notifying body_ops]. unfold setInternal.
  destruct (refused_depth cfg ctx) eqn:Hd; [by eexists _, _, _|].
  case_decide as Hp; [eexists _, _, _; split_and!; [done| |done]; cbn; rewrite get_spec in Hp; by rewrite insert_id|].
  pose proof (set_spec (ni_inner st) p h) as Hs. pose proof (inner_plain (ni_inner st) p h) as Hpl.
  destruct (Set_ (ni_inner st) p h) as [l [[]|e]]; cbn [fst snd] in *; cbv zeta.
  - match goal with |- context [runCascade _ ?n ?e _ _] => set (evt := e);
      destruct (quiet_runCascades n evt ctx (with_ni_inner st l)) as (st1 & ctx1 & cr & Hrc & Hcr) end.
    rewrite Hrc. apply quiet_runCascade in Hrc as [w ->]; [|exact quiet_cfg].
    pose proof (emit_inner (with_world (with_ni_inner st l) w) (with_context evt ctx1)) as Hi.
    pose proof (emit_committed (with_world (with_ni_inner st l) w) (with_context evt ctx1)) as Hc.
    destruct (emit _ _) as [st2 r2]. cbn [fst snd] in *.
    assert (Hw : wrote cr r2 = true) by (unfold wrote; rewrite Hc; by destruct cr).
    eexists _, _, _. split; [done|]. rewrite Hw, Hi. split; [exact Hs|]. by rewrite Hc.
  - eexists _, _, _. split; [done|]. rewrite (Hpl e eq_refl) in Hs || idtac. unfold wrote. cbn [committed] in *.
    by rewrite (Hpl e eq_refl) in *.
Qed.

Lemma quiet_remove st p ctx :
  exists st' removed cr, op_Remove ops st p ctx = Some (st', removed, cr)
    /\ removed = bindings (ni_inner st) !! p /\ bindings (ni_inner st') = delete p (bindings (ni_inner st)).
Proof.
  cbn [op_Remove ops notifying body_ops]. unfold removeInternal. destruct (remove_spec (ni_inner st) p) as [Hr Hb].
  destruct (Remove (ni_inner st) p) as [l [hr|]]; cbn [fst snd] in *; cbv zeta; [|by eexists _, _, _].
  match goal with |- context [runCascade _ ?n ?e _ _] => set (evt := e);
    destruct (quiet_runCascades n evt ctx (with_ni_inner st l)) as (st1 & ctx1 & cr & Hrc & _) end.
  rewrite Hrc. apply quiet_runCascade in Hrc as [w ->]; [|exact quiet_cfg].
  pose proof (emit_inner (with_world (with_ni_inner st l) w) (with_context evt ctx1)) as Hi.
  destruct (emit _ _) as [st2 r2]. cbn [fst snd] in *. eexists _, _, _. split; [done|]. by rewrite Hi.
Qed.

Lemma quiet_after_cas (nested : Ops L W) (st : NotifyingState L W) (l : L) r evt :
  exists st', after_cas cfg nested (with_ni_inner st l) r evt = Some (st', r) /\ ni_inner st' = l.
Proof.
  unfold after_cas. destruct r as [[]|e]; [|by eexists].
  destruct (quiet_runCascades nested evt None (with_ni_inner st l)) as (st1 & ctx1 & cr & Hrc & _).
  rewrite Hrc. apply quiet_runCascade in Hrc as [w ->]; [|exact quiet_cfg].
  pose proof (emit_inner (with_world (with_ni_inner st l) w) (with_context evt ctx1)) as Hi.
  destruct (emit _ _) as [st2 r2]. cbn [fst snd] in *. eexists. split; [done|]. by rewrite Hi.
Qed.

#[local] Instance notifying_index_laws : LocationIndexLaws (NotifyingState L W).
Proof.
  refine {| bindings st := bindings (ni_inner st) |};
    cbn [Set_ Get Has Remove List_ LenPrefix CompareAndSwap CompareAndRemove notifying_index SetWithContext RemoveWithContext notifying_writer].
  - intros. apply get_spec.
  - intros. apply has_spec.
  - intros st p h. destruct (quiet_set st p h None) as (st' & cr & r & -> & Hb & Hw). cbn [fst snd].
    by rewrite <- (Hw eq_refl).
  - intros st p. destruct (quiet_remove st p None) as (st' & removed & cr & -> & Hr & Hb). by split.
  - intros. apply list_sorted.
  - intros. apply list_spec.
  - intros. apply len_spec.
  - intros st p e n. cbn [op_CompareAndSwap ops notifying body_ops]. unfold NotifyingCompareAndSwap.
    destruct (cas_spec (ni_inner st) p e n) as [Hr Hb]. destruct (CompareAndSwap (ni_inner st) p e n) as [l r]. cbn [fst snd] in *.
    match goal with |- context [after_cas _ ?n _ _ ?v] => destruct (quiet_after_cas n st l r v) as (st' & -> & Hi) end.
    cbn [fst snd]. by rewrite Hi.
  - intros st p e. cbn [op_CompareAndRemove ops notifying body_ops]. unfold NotifyingCompareAndRemove.
    destruct (car_spec (ni_inner st) p e) as [Hr Hb]. destruct (CompareAndRemove (ni_inner st) p e) as [l r]. cbn [fst snd] in *.
    match goal with |- context [after_cas _ ?n _ _ ?v] => destruct (quiet_after_cas n st l r v) as (st' & -> & Hi) end.
    cbn [fst snd]. by rewrite Hi.
Defined.

#[local] Instance notifying_writer_laws : WriterLaws notifying_writer.
Proof.
  split; cbn [SetWithContext RemoveWithContext notifying_writer].
  - intros st p h ctx. destruct (quiet_set st p h (Some ctx)) as (st' & cr & r & -> & Hb & Hw). split; [exact Hb|].
    intros Hd. apply Hw. cbn. by rewrite Hd.
  - intros st p ctx. destruct (quiet_remove st p (Some ctx)) as (st' & removed & cr & -> & Hr & Hb). by split.
Qed.

(** The stack a peer builds: the namespaced view of the notifying index. *)
Definition peer_tree : TreeIndex (NamespacedIndex (NotifyingState L W)) (Some (namespaced_writer (Some notifying_writer))) :=
  namespaced_tree (Some notifying_writer) notifying_writer_laws.
End notifying.
