(* ===== verification/TreeHandler.v ===== *)
(** * The tree handler ([core/tree/handler.go]): get, list, put

    The handler of [system/tree] on the stores of its context.  A response is
    its status and its result before encoding ([TreeResult]); [Err] is an error
    the handler returns to the dispatcher.  The decoders of the request
    parameters are parameters ([TreeCodec]); absent parameters are the zero
    request.  [now] is the clock read of the path checks. *)

From Stdlib Require Import Ascii.
From S2P Require Import Prelude GoStrings Errors Hash Entity PeerID Paths CapTypes Patterns Check Delegation Revoked Store Notifying Handlers TreeIndex Trie.

Open Scope Z_scope.

(** ** Data *)

(** [Limit] and [Offset] are [uint64]. *)
Record GetRequestData := { Mode : string; Limit : option Z; Offset : option Z }.
Record PutRequestData := { pr_Entity : list byte; ExpectedHash : option Hash }.
Record SnapshotRequestData := { sr_Prefix : string }.
Record DiffRequestData := { dr_Base : Hash; dr_Target : Hash }.
Record MergeRequestData := {
  mr_Source : Hash; SourceEnvelope : list byte; Strategy : string; SourcePrefix : string; TargetPrefix : string;
  DryRun : option bool
}.

Record ExtractRequestData := { er_Prefix : string; er_Paths : list string; Since : Hash }.

Record childInfo := { ci_hash : option Hash; hasChildren : bool }.

Record ListingData := { ld_Path : string; ld_Entries : gmap string childInfo; ld_Count : Z; ld_Offset : Z }.

Record MergeConflictData := { ExistingHash : Hash; IncomingHash : Hash; Resolution : string }.
Record MergeResultData := { Applied : Z; mr_Skipped : Z; Conflicts : gmap string MergeConflictData; mr_Strategy : string }.

Inductive TreeResult :=
| RError (code : string)
| REntity (e : Entity)
| RHash (h : Hash)
| RListing (l : ListingData)
| RPut (h : Hash)
| RRemoved
| RSnapshot (root : Hash)
| RDiff (base target : Hash) (d : Diff)
| RMerge (m : MergeResultData)
| RExtract (env : Envelope)
(** [cascadeToPartialResponse]: the cascade report and the result itself. *)
| RPartial (cr : CascadeResult) (original : TreeResult).

Record Response := mkResponse { rs_Status : Z; rs_Result : TreeResult }.

Abbreviation Answer := (result Response).
Definition refuse (status : Z) (code : string) : Answer := Ok (mkResponse status (RError code)).
Definition serve (r : TreeResult) : Answer := Ok (mkResponse 200 r).

Class TreeCodec := {
  DecodeGetRequest : list byte -> option GetRequestData;
  DecodePutRequest : list byte -> option PutRequestData;
  DecodeSnapshotRequest : list byte -> option SnapshotRequestData;
  DecodeDiffRequest : list byte -> option DiffRequestData;
  DecodeMergeRequest : list byte -> option MergeRequestData;
  DecodeExtractRequest : list byte -> option ExtractRequestData;
  (** [ecf.Decode] into an entity, with the chain of its error. *)
  DecodeEntityErr : list byte -> result Entity;
  (** [ecf.Decode] into [map[string]cbor.RawMessage]. *)
  DecodeFields : list byte -> option (gmap string (list byte));
  DecodeEnvelopeData : list byte -> option Envelope;
  (** The root of a snapshot payload, and its encoding. *)
  DecodeSnapshot : list byte -> option Hash;
  EncodeSnapshot : Hash -> option (list byte);
  (** The root and the parents of a revision entry. *)
  DecodeRevision : list byte -> option (Hash * list Hash);
  (** [ecf.Encode] of a string; an error leaves no bytes. *)
  EncodeText : string -> list byte
}.

Definition decode_params {A} (zero : A) (dec : list byte -> option A) (data : list byte) : option A :=
  match data with [] => Some zero | _ => dec data end.

Definition no_get : GetRequestData := {| Mode := ""; Limit := None; Offset := None |}.
Definition no_put : PutRequestData := {| pr_Entity := []; ExpectedHash := None |}.

(** The order of [sort.Strings]. *)
Definition string_le (a b : string) : Prop := String.leb a b = true.
#[export] Instance string_le_dec a b : Decision (string_le a b).
Proof. unfold string_le. apply _. Defined.

(** ** Deletion markers *)

Section markers.
Context `{HashableCodec}.

Definition TypeDeletionMarker : string := "system/deletion-marker".

Definition markerFor (alg : byte) : result Entity := Ent.NewEntityFormat alg TypeDeletionMarker [Byte.xa0].
Definition DeletionMarkerHashForFormat (alg : byte) : result Hash :=
  let! ent := markerFor alg in Ok (ContentHash ent).
Definition IsDeletionMarker (h : Hash) : bool :=
  match DeletionMarkerHashForFormat (Algorithm h) with
  | Err _ => false
  | Ok markerHash => bool_decide (h = markerHash)
  end.
End markers.

Section handler.
Context {CS L IX : Type} `{ContentStoreLaws CS} `{LocationIndex L} `{CapabilityIndex IX} `{Base58, DataCodec, TreeCodec}.

(** ** The path check *)

Definition checkPathPerm (now : Z) (hctx : HandlerContext) (cs : CS) (basePermission path : string) : bool :=
  if negb (has_caller hctx) then true
  else match CapabilityTokenDataFromEntity (hc_CallerCapability hctx) with
  | Err _ => true
  | Ok capData =>
      match ResolveGranterPeerID (Granter_ capData) (entities cs) (hc_LocalPeerID hctx) with
      | Err _ => false
      | Ok granterPeerID =>
          CheckPathPermission now basePermission path capData (hc_HandlerPattern hctx) (hc_LocalPeerID hctx) granterPeerID
      end
  end.

(** ** Listings *)

Definition no_child : childInfo := {| ci_hash := None; hasChildren := false |}.
Definition child_of (children : gmap string childInfo) (name : string) : childInfo :=
  match children !! name with Some info => info | None => no_child end.

(** One entry of the grouping loop. *)
Definition add_child (qualifiedPrefix : string) (children : gmap string childInfo) (e : LocationEntry)
  : gmap string childInfo :=
  let rel := TrimPrefix (le_Path e) qualifiedPrefix in
  if String.eqb rel "" then children
  else match IndexByte rel "/" with
  | None => <[rel := {| ci_hash := Some (le_Hash e); hasChildren := hasChildren (child_of children rel) |}]> children
  | Some slashIdx =>
      let name := str_take slashIdx rel in
      <[name := {| ci_hash := ci_hash (child_of children name); hasChildren := true |}]> children
  end.

(** The deletion marker of a direct child is removed; [None] drops the child. *)
Definition drop_marker (info : childInfo) : option childInfo :=
  match ci_hash info with
  | Some h =>
      if IsDeletionMarker h then
        if hasChildren info then Some {| ci_hash := None; hasChildren := true |} else None
      else Some info
  | None => Some info
  end.

Definition listing_prefix (localPeerID prefix : string) : string :=
  if HasPrefix prefix "/" then prefix else QualifyPath localPeerID prefix.

Definition visible_children (now : Z) (hctx : HandlerContext) (st : TreeState CS L IX) (prefix : string) : gmap string childInfo :=
  let qualifiedPrefix := listing_prefix (hc_LocalPeerID hctx) prefix in
  let children := fold_left (add_child qualifiedPrefix) (List_ (ts_Index st) prefix) ∅ in
  filter (fun nc => checkPathPerm now hctx (ts_Store st) "get" (qualifiedPrefix +:+ fst nc) = true)
    (omap drop_marker children).

(** [names[offset:]], then at most [Limit] of them. *)
Definition page (req : GetRequestData) (names : list string) : list string :=
  let offset := match Offset req with Some o => o | None => 0 end in
  let names := if Z.of_nat (length names) <? offset then [] else drop (Z.to_nat offset) names in
  match Limit req with
  | Some l => if l <? Z.of_nat (length names) then take (Z.to_nat l) names else names
  | None => names
  end.

Definition handleListing (now : Z) (hctx : HandlerContext) (st : TreeState CS L IX) (prefix : string) (getReq : GetRequestData)
  : Answer :=
  let children := visible_children now hctx st prefix in
  let names := merge_sort string_le (map fst (map_to_list children)) in
  let shown := page getReq names in
  serve (RListing {|
    ld_Path := prefix;
    ld_Entries := filter (fun nc => fst nc ∈ shown) children;
    ld_Count := Z.of_nat (length names);
    ld_Offset := match Offset getReq with Some o => o | None => 0 end |}).

(** ** Get *)

(** The check inlined in [handleGet] and [handlePut]; [true] is a refusal. *)
Definition path_denied (now : Z) (hctx : HandlerContext) (cs : CS) (operation path : string) : bool :=
  negb (checkPathPerm now hctx cs operation path).

(** A resource that is present with targets, all of them excluded. *)
Definition all_excluded (hctx : HandlerContext) : bool :=
  match hc_EffectiveTargets hctx, hc_Resource hctx with
  | [], Some r => negb (length (Targets r) =? 0)%nat
  | _, _ => false
  end.

Definition handleGet (now : Z) (hctx : HandlerContext) (st : TreeState CS L IX) (params : list byte) : Answer :=
  match decode_params no_get DecodeGetRequest params with
  | None => refuse 400 "invalid_params"
  | Some getReq =>
  if all_excluded hctx then refuse 400 "path_required"
  else
  let path := ExtractResourcePath hctx in
  if path_denied now hctx (ts_Store st) "get" path then refuse 403 "capability_denied"
  else if String.eqb path "" || HasSuffix path "/" then handleListing now hctx st path getReq
  else match Get (ts_Index st) path with
  | None => refuse 404 "not_found"
  | Some contentHash =>
      let mode := if String.eqb (Mode getReq) "" then "entity" else Mode getReq in
      if String.eqb mode "entity" then
        match cs_Get (ts_Store st) contentHash with
        | None => refuse 404 "not_found"
        | Some ent => serve (REntity ent)
        end
      else if String.eqb mode "hash" then serve (RHash contentHash)
      else refuse 400 "invalid_mode"
  end
  end.

(** ** Put *)

(** [Some true] carries a value, [Some false] does not, [None] does not decode. *)
Definition entityCarriesContentHash (raw : list byte) : option bool :=
  match DecodeFields raw with
  | None => None
  | Some m =>
      match m !! "content_hash" with
      | None => Some false
      | Some v => Some (negb (bool_decide (v = [Byte.xf6]) || bool_decide (v = [Byte.xf7])))
      end
  end.

Definition unsupported_format (e : GoErr) : bool :=
  errors_Is e ErrUnknownAlgorithm || errors_Is e ErrUnsupportedContentHashFormat.

(** The admission of a submitted entity: the entity, or the code of its refusal. *)
Definition admit_entity (raw : list byte) : res string Entity :=
  match DecodeEntityErr raw with
  | Err e => Err (if unsupported_format e then "unsupported_content_hash_format" else "invalid_request")
  | Ok ent =>
      match entityCarriesContentHash raw with
      | Some true =>
          match Ent.Validate ent with
          | Ok _ => Ok ent
          | Err e =>
              Err (if errors_Is e ErrHashMismatch then "hash_mismatch"
                   else if unsupported_format e then "unsupported_content_hash_format" else "invalid_request")
          end
      | _ => Err "invalid_request"
      end
  end.

(** [true] refuses the request as a mismatch. *)
Definition expected_mismatch (expected : option Hash) (current : option Hash) : bool :=
  match expected with
  | None => false
  | Some e =>
      if IsZero e then match current with Some _ => true | None => false end
      else match current with Some c => negb (bool_decide (c = e)) | None => true end
  end.

Definition finish (cr : option CascadeResult) (original : TreeResult) : Answer :=
  match cr with
  | Some c => if IsComplete cr then serve original else Ok (mkResponse 207 (RPartial c original))
  | None => serve original
  end.

(** The guards of [handlePut] up to the first write: the path and the request,
    or the answer. *)
Definition put_guard (now : Z) (hctx : HandlerContext) (st : TreeState CS L IX) (params : list byte)
  : res Answer (string * PutRequestData) :=
  match decode_params no_put DecodePutRequest params with
  | None => Err (refuse 400 "invalid_params")
  | Some putReq =>
      let path := ExtractResourcePath hctx in
      if String.eqb path "" then Err (refuse 400 "path_required")
      else if negb (is_ok (ValidatePathChars path)) then Err (refuse 400 "invalid_path")
      else if path_denied now hctx (ts_Store st) "put" path then Err (refuse 403 "capability_denied")
      else if expected_mismatch (ExpectedHash putReq) (Get (ts_Index st) path) then Err (refuse 409 "hash_mismatch")
      else Ok (path, putReq)
  end.

(** The write. *)
Definition put_commit (now : Z) (cw : option (ContextualWriter L)) (hctx : HandlerContext) (st : TreeState CS L IX)
    (path : string) (putReq : PutRequestData) : TreeState CS L IX * Answer :=
  match pr_Entity putReq with
  | [] =>
      let '(st, removed, cr) := TreeRemove now cw hctx st path "delete" in
      match removed with
      | None => (st, refuse 404 "not_found")
      | Some _ => (st, finish cr RRemoved)
      end
  | raw =>
      match admit_entity raw with
      | Err code => (st, refuse 400 code)
      | Ok ent =>
          let '(cs, r) := cs_Put (ts_Store st) ent in
          let st := with_store st cs in
          match r with
          | Err _ => (st, Err [ErrNotFound])
          | Ok storedHash =>
              let '(st, cr, r) := TreeSet now cw hctx st path storedHash "put" in
              match r with
              | Err _ => (st, Err [])
              | Ok _ => (st, finish cr (RPut storedHash))
              end
          end
      end
  end.

Definition handlePut (now : Z) (cw : option (ContextualWriter L)) (hctx : HandlerContext) (st : TreeState CS L IX)
    (params : list byte) : TreeState CS L IX * Answer :=
  match put_guard now hctx st params with
  | Err a => (st, a)
  | Ok (path, putReq) => put_commit now cw hctx st path putReq
  end.
End handler.

(** ** What a put does *)

Section put_spec.
Context {CS L IX : Type} `{ContentStoreLaws CS} `{LocationIndex L} `{CapabilityIndex IX} `{Base58, DataCodec, TreeCodec}.
Context {cw : option (ContextualWriter L)} `{!TreeIndex L cw}.
Implicit Types (hctx : HandlerContext) (st : TreeState CS L IX).

Definition tree_of st : gmap string Hash := tree (ts_Index st).

Lemma TreeSet_tree now hctx st path h operation st' cr r :
  TreeSet now cw hctx st path h operation = (st', cr, r) ->
  ts_Store st' = ts_Store st /\ names (ts_Index st') = names (ts_Index st)
  /\ match names (ts_Index st) path with
     | None => tree_of st' = tree_of st /\ r = Err (InvalidPath path)
     | Some k => tree_of st' = if wrote cr r then <[k := h]> (tree_of st) else tree_of st
     end
  /\ (bd_CascadeDepth <$> hc_Bounds hctx = None \/ bd_CascadeDepth <$> hc_Bounds hctx = Some None -> wrote cr r = committed r).
Proof.
  unfold TreeSet. pose proof (tree_set (ts_Index st) path h (mutationContext now hctx path operation)) as Hs.
  destruct (index_set _ _ _ _ _) as [[l c] r']. destruct Hs as (Hn & _ & Ht & Hw).
  assert (Hcap : forall s : TreeState CS L IX, ts_Store (recordCapBinding s path h) = ts_Store s
      /\ ts_Index (recordCapBinding s path h) = ts_Index s).
  { intros s. unfold recordCapBinding. destruct (ts_CapIndex s); [|done]. by destruct (is_token s h). }
  intros [= <- <- <-]. assert (Hi : ts_Index (match r' with Ok _ => recordCapBinding (with_index st l) path h | Err _ => with_index st l end) = l
    /\ ts_Store (match r' with Ok _ => recordCapBinding (with_index st l) path h | Err _ => with_index st l end) = ts_Store st).
  { destruct r'; [|done]. destruct (Hcap (with_index st l)) as [-> ->]. done. }
  destruct Hi as [Hi Hst]. unfold tree_of. rewrite Hi, Hst. split_and!; [done|done| |].
  - destruct (names (ts_Index st) path); [done|]. by destruct Ht as (-> & _ & ->).
  - intros Hd. apply Hw. unfold mutationContext. cbn [CascadeDepth].
    destruct (hc_Bounds hctx) as [b|]; [|done]. destruct Hd as [|[= Hd]]; done.
Qed.

Lemma TreeRemove_tree now hctx st path operation st' removed cr :
  TreeRemove now cw hctx st path operation = (st', removed, cr) ->
  ts_Store st' = ts_Store st /\ names (ts_Index st') = names (ts_Index st)
  /\ match names (ts_Index st) path with
     | None => tree_of st' = tree_of st /\ removed = None
     | Some k => removed = tree_of st !! k /\ tree_of st' = delete k (tree_of st)
     end.
Proof.
  unfold TreeRemove. pose proof (tree_remove (ts_Index st) path (mutationContext now hctx path operation)) as Hs.
  destruct (index_remove _ _ _ _) as [[l rm] c]. destruct Hs as (Hn & _ & Ht).
  intros [= <- <- <-]. assert (Hi : ts_Index (match rm with Some h => forgetCapBinding (with_index st l) h | None => with_index st l end) = l
    /\ ts_Store (match rm with Some h => forgetCapBinding (with_index st l) h | None => with_index st l end) = ts_Store st).
  { destruct rm as [h|]; [|done]. unfold forgetCapBinding. destruct (ts_CapIndex _); [|done]. by destruct (is_token _ _). }
  destruct Hi as [Hi Hst]. unfold tree_of. rewrite Hi, Hst. split_and!; [done|done|].
  destruct (names (ts_Index st) path); [done|]. by destruct Ht as (-> & ->).
Qed.

(** The compare-and-swap condition on the current binding. *)
Definition expected_ok (expected current : option Hash) : Prop :=
  match expected with
  | None => True
  | Some e => if IsZero e then current = None else current = Some e
  end.

Lemma expected_mismatch_false expected current : expected_mismatch expected current = false <-> expected_ok expected current.
Proof.
  unfold expected_mismatch, expected_ok. destruct expected as [e|]; [|done]. destruct (IsZero e); destruct current as [c|]; try done.
  rewrite negb_false_iff, bool_decide_eq_true. split; congruence.
Qed.

Lemma put_guard_ok now hctx st params path req :
  put_guard now hctx st params = Ok (path, req) ->
  decode_params no_put DecodePutRequest params = Some req /\ path = ExtractResourcePath hctx /\ path <> ""
  /\ checkPathPerm now hctx (ts_Store st) "put" path = true
  /\ expected_ok (ExpectedHash req) (Get (ts_Index st) path).
Proof.
  unfold put_guard, path_denied. destruct (decode_params _ _ _) as [r|]; [|done].
  destruct (String.eqb_spec (ExtractResourcePath hctx) ""); [done|]. destruct (negb (is_ok _)); [done|].
  destruct (checkPathPerm _ _ _ _ _) eqn:Hp; [|done]. cbn [negb].
  destruct (expected_mismatch _ _) eqn:He; [done|]. intros [= <- <-]. by rewrite expected_mismatch_false in He.
Qed.

Lemma put_guard_err now hctx st params a : put_guard now hctx st params = Err a -> exists s c, a = refuse s c.
Proof.
  unfold put_guard. destruct (decode_params _ _ _); [|intros [= <-]; by eexists _, _].
  destruct (String.eqb _ _); [intros [= <-]; by eexists _, _|]. destruct (negb _); [intros [= <-]; by eexists _, _|].
  destruct (path_denied _ _ _ _ _); [intros [= <-]; by eexists _, _|].
  destruct (expected_mismatch _ _); [intros [= <-]; by eexists _, _|done].
Qed.

(** The result inside an answer, past a partial report. *)
Definition answered (a : Answer) : option TreeResult :=
  match a with
  | Ok r => Some (match rs_Result r with RPartial _ o => o | o => o end)
  | Err _ => None
  end.

Lemma answered_finish cr o : match o with RPartial _ _ => False | _ => True end -> answered (finish cr o) = Some o.
Proof. unfold finish. destruct cr as [c|]; [destruct (IsComplete (Some c))|]; by destruct o. Qed.

Lemma admit_entity_ok raw ent : admit_entity raw = Ok ent -> DecodeEntityErr raw = Ok ent /\ Ent.Validate ent = Ok tt.
Proof.
  unfold admit_entity. destruct (DecodeEntityErr raw) as [e|]; [|done]. destruct (entityCarriesContentHash raw) as [[]|]; try done.
  destruct (Ent.Validate e) as [[]|] eqn:Hv; [|done]. by intros [= ->].
Qed.

Lemma valid_put s ent h : Ent.Validate ent = Ok tt -> snd (cs_Put s ent) = Ok h -> h = ContentHash ent /\ stamped ent h = ent.
Proof.
  intros (_ & _ & Hc)%Ent.Validate_iff Hp. pose proof (cs_put_spec s ent) as Hs. rewrite Hp in Hs. destruct Hs as [Hh _].
  unfold put_hash in Hh. rewrite Hc in Hh. cbn [res_bind] in Hh. destruct (_ && _); [done|]. injection Hh as <-.
  by destruct ent.
Qed.

(** The effect of the write, by what it answers. *)
Definition commit_effect hctx st st' path (req : PutRequestData) (a : Answer) : Prop :=
  match answered a with
  | Some RRemoved =>
      pr_Entity req = [] /\ is_Some (Get (ts_Index st) path) /\ ts_Store st' = ts_Store st
      /\ exists k, names (ts_Index st) path = Some k /\ tree_of st' = delete k (tree_of st)
  | Some (RPut h) =>
      exists k ent cr, names (ts_Index st) path = Some k /\ DecodeEntityErr (pr_Entity req) = Ok ent
        /\ Ent.Validate ent = Ok tt /\ h = ContentHash ent
        /\ entities (ts_Store st') = <[h := ent]> (entities (ts_Store st))
        /\ tree_of st' = (if wrote cr (Ok tt) then <[k := h]> (tree_of st) else tree_of st)
        /\ (a = serve (RPut h) <-> IsComplete cr = true)
        /\ (bd_CascadeDepth <$> hc_Bounds hctx = None \/ bd_CascadeDepth <$> hc_Bounds hctx = Some None ->
            wrote cr (Ok tt) = true)
  | Some _ => (exists s c, a = refuse s c) /\ tree_of st' = tree_of st /\ entities (ts_Store st') = entities (ts_Store st)
  | None => True
  end.

Lemma put_commit_effect now hctx st path req st' a :
  put_commit now cw hctx st path req = (st', a) ->
  commit_effect hctx st st' path req a /\ names (ts_Index st') = names (ts_Index st).
Proof.
  unfold put_commit, commit_effect. destruct (pr_Entity req) as [|b raw].
  - destruct (TreeRemove _ _ _ _ _ _) as [[st1 removed] cr] eqn:Hr. apply TreeRemove_tree in Hr as (Hst & Hnm & Ht).
    assert (Hcur : Get (ts_Index st) path = removed) by (rewrite tree_Get; destruct (names _ _); cbn; by destruct Ht).
    destruct removed as [h|]; intros [= <- <-]; (split; [|done]).
    + rewrite answered_finish, Hcur by done. split_and!; [done..|].
      destruct (names _ _) as [k|]; [|by destruct Ht]. exists k. by destruct Ht.
    + cbn. split_and!; [by eexists _, _| |by rewrite Hst]. destruct (names _ _) as [k|]; [|by destruct Ht].
      destruct Ht as [Hn ->]. by rewrite delete_id.
  - destruct (admit_entity (b :: raw)) as [ent|code] eqn:Ha; [|intros [= <- <-]; cbn; by split; [split; [eexists _, _|]|]].
    apply admit_entity_ok in Ha as [Hdec Hval].
    pose proof (cs_put_spec (ts_Store st) ent) as Hp. pose proof (fun h => valid_put (ts_Store st) ent h Hval) as Hh.
    destruct (cs_Put (ts_Store st) ent) as [cs [h|e]]; cbn [fst snd] in *; [|intros [= <- <-]; done].
    destruct (Hh h eq_refl) as [Heq Hst0]. destruct Hp as [_ Hent]. rewrite Hst0 in Hent.
    destruct (TreeSet _ _ _ _ _ _ _) as [[st1 cr] r] eqn:Hs. apply TreeSet_tree in Hs as (Hst & Hnm & Ht & Hw).
    destruct r as [[]|e]; intros [= <- <-]; (split; [|exact Hnm]); [|done]. rewrite answered_finish by done.
    destruct (names (ts_Index (with_store st cs)) _) as [k|] eqn:Hk; [|by destruct Ht].
    exists k, ent, cr. split_and!; [done..|by rewrite Hst|exact Ht| |exact Hw].
    unfold finish. destruct cr as [c|]; [|done]. by destruct (IsComplete (Some c)).
Qed.

(** What a put does, on every outcome. A refusal leaves the tree and the
    content unchanged. A removal or a binding happens only for a path the caller
    may put to, whose current binding meets the expected hash (bound to it,
    unbound for the zero hash, anything when none is given): a removal deletes
    exactly the path's binding; a binding stores the submitted entity, which
    validates under the hash it claims, and binds exactly the path to that hash,
    unless the cascade report says that nothing was bound. *)
Theorem handlePut_spec (now : Z) (hctx : HandlerContext) (st st' : TreeState CS L IX) (params : list byte) (a : Answer) :
  handlePut now cw hctx st params = (st', a) ->
  let path := ExtractResourcePath hctx in
  ((exists s c, a = refuse s c) /\ tree_of st' = tree_of st /\ entities (ts_Store st') = entities (ts_Store st))
  \/ exists req, decode_params no_put DecodePutRequest params = Some req /\ path <> ""
       /\ checkPathPerm now hctx (ts_Store st) "put" path = true
       /\ expected_ok (ExpectedHash req) (Get (ts_Index st) path)
       /\ commit_effect hctx st st' path req a.
Proof.
  unfold handlePut. destruct (put_guard now hctx st params) as [[path req]|a0] eqn:Hg; cbv zeta.
  - apply put_guard_ok in Hg as (Hdec & -> & Hne & Hperm & Hexp). intros [He _]%put_commit_effect. right. by exists req.
  - intros [= <- <-]. left. apply put_guard_err in Hg as (s & c & ->). by split; [eexists _, _|].
Qed.

(** A put is read back. After a put that answers with the binding of [h]
    (made outside a cascade), a get of the same absolute path, under whatever
    name and in whatever context that may read it, answers with exactly the
    entity that was submitted. *)
Theorem put_then_get (now now' : Z) (hctx hctx' : HandlerContext) (st st' : TreeState CS L IX) (params gparams : list byte)
    (a : Answer) (h : Hash) (greq : GetRequestData) :
  handlePut now cw hctx st params = (st', a) -> answered a = Some (RPut h) ->
  bd_CascadeDepth <$> hc_Bounds hctx = None \/ bd_CascadeDepth <$> hc_Bounds hctx = Some None ->
  names (ts_Index st) (ExtractResourcePath hctx') = names (ts_Index st) (ExtractResourcePath hctx) ->
  ExtractResourcePath hctx' <> "" -> HasSuffix (ExtractResourcePath hctx') "/" = false -> all_excluded hctx' = false ->
  checkPathPerm now' hctx' (ts_Store st') "get" (ExtractResourcePath hctx') = true ->
  decode_params no_get DecodeGetRequest gparams = Some greq -> Mode greq = "" \/ Mode greq = "entity" ->
  exists req ent, decode_params no_put DecodePutRequest params = Some req /\ DecodeEntityErr (pr_Entity req) = Ok ent
    /\ ContentHash ent = h /\ handleGet now' hctx' st' gparams = serve (REntity ent).
Proof.
  unfold handlePut. destruct (put_guard now hctx st params) as [[path req]|a0] eqn:Hg.
  2:{ intros [= <- <-]. by apply put_guard_err in Hg as (s & c & ->). }
  apply put_guard_ok in Hg as (Hdec & -> & _). intros [He Hnm]%put_commit_effect Ha Hcd Hsame Hne Hsl Hex Hp Hdg Hmode.
  unfold commit_effect in He. rewrite Ha in He. destruct He as (k & ent & cr & Hk & Hde & _ & -> & Hent & Ht & _ & Hw).
  exists req, ent. split_and!; [done..|]. unfold handleGet, path_denied. rewrite Hdg, Hex, Hp. cbn [negb].
  rewrite (proj2 (String.eqb_neq _ _) Hne), Hsl. cbn [orb].
  rewrite tree_Get. rewrite Hnm, Hsame, Hk. cbn [mbind option_bind]. fold (tree_of st').
  rewrite Ht, (Hw Hcd), lookup_insert_eq.
  assert (Hm : String.eqb (if String.eqb (Mode greq) "" then "entity" else Mode greq) "entity" = true)
    by (by destruct Hmode as [->| ->]).
  by rewrite Hm, cs_get_spec, Hent, lookup_insert_eq.
Qed.
End put_spec.
