(* ===== verification/TreeListing.v ===== *)
(** * What a listing shows

    The listing of [core/tree/handler.go] against the bindings of the tree: a
    child is a name directly below the prefix, with the hash bound to it and a
    mark for names bound further below. *)

From Stdlib Require Import Ascii.
From S2P Require Import Prelude GoStrings Errors Hash Entity PeerID Paths CapTypes Patterns Check Delegation Revoked Store Notifying Handlers TreeIndex TreeHandler.

Open Scope Z_scope.

(** ** The grouping loop *)

Ltac in_app := rewrite ?elem_of_app, ?list_elem_of_singleton; tauto.

Instance string_le_trans : Transitive string_le.
Proof. intros x y z. apply leb_trans. Qed.
Instance string_le_total : Total string_le.
Proof. intros x y. apply String.leb_total. Qed.

Definition rel (q : string) (e : LocationEntry) : string := TrimPrefix (le_Path e) q.

Definition direct (q n : string) (e : LocationEntry) : Prop := rel q e = n /\ n <> "" /\ IndexByte n "/" = None.
Definition nested (q n : string) (e : LocationEntry) : Prop :=
  exists i, IndexByte (rel q e) "/" = Some i /\ str_take i (rel q e) = n.

(** What the loop knows of a name after the entries [es]. *)
Definition describes (q : string) (es : list LocationEntry) (n : string) (o : option childInfo) : Prop :=
  match o with
  | None => forall e, e ∈ es -> ~ direct q n e /\ ~ nested q n e
  | Some info =>
      (forall h, ci_hash info = Some h <-> exists e, e ∈ es /\ direct q n e /\ le_Hash e = h)
      /\ (hasChildren info = true <-> exists e, e ∈ es /\ nested q n e)
      /\ ((exists e, e ∈ es /\ direct q n e) \/ hasChildren info = true)
  end.

Lemma nested_not_direct q n m e : nested q n e -> direct q m e -> False.
Proof. intros (i & Hi & _) (Hr & _ & Hs). congruence. Qed.

Lemma nested_unique q n m e : nested q n e -> nested q m e -> n = m.
Proof. intros (i & Hi & <-) (j & Hj & <-). congruence. Qed.

(** An entry that says nothing of a name changes nothing. *)
Lemma describes_irrelevant q es e n o :
  ~ direct q n e -> ~ nested q n e -> describes q es n o -> describes q (es ++ [e]) n o.
Proof.
  intros Hd Hn. unfold describes. destruct o as [info|].
  - intros (Hh & Hc & Hs). split_and!.
    + intros h. rewrite Hh. split; [intros (x & ? & ?); exists x; in_app|].
      intros (x & [Hx|Hx%list_elem_of_singleton]%elem_of_app & Hdx & ?); [eauto|by subst].
    + rewrite Hc. split; [intros (x & ? & ?); exists x; in_app|].
      intros (x & [Hx|Hx%list_elem_of_singleton]%elem_of_app & Hnx); [eauto|by subst].
    + destruct Hs as [(x & Hx & Hdx)|]; [left; exists x; in_app|by right].
  - intros Hall x [Hx|Hx%list_elem_of_singleton]%elem_of_app; [by apply Hall|by subst].
Qed.

(** What a missing or present record says, in one form. *)
Lemma describes_record q es n o :
  describes q es n o ->
  let info := match o with Some i => i | None => no_child end in
  (forall h, ci_hash info = Some h <-> exists e, e ∈ es /\ direct q n e /\ le_Hash e = h)
  /\ (hasChildren info = true <-> exists e, e ∈ es /\ nested q n e).
Proof.
  destruct o as [info|]; cbn; [tauto|]. intros Hall. split; [intros h|]; split; [done| |done|].
  - intros (e & He & Hd & _). by destruct (Hall e He).
  - intros (e & He & Hn). by destruct (Hall e He).
Qed.

Lemma add_child_describes q es e children :
  (forall x, x ∈ es -> rel q x <> rel q e) ->
  (forall n, describes q es n (children !! n)) -> forall n, describes q (es ++ [e]) n (add_child q children e !! n).
Proof.
  intros Hfresh Hch n. unfold add_child. fold (rel q e). destruct (String.eqb_spec (rel q e) "") as [He|Hne].
  { apply describes_irrelevant; [| |done].
    - intros (Hr & Hn & _). congruence.
    - intros (i & Hi & _). by rewrite He in Hi. }
  destruct (IndexByte (rel q e) "/") as [i|] eqn:Hi.
  - set (m := str_take i (rel q e)). assert (Hnest : nested q m e) by (by exists i).
    destruct (decide (n = m)) as [->|Hnm].
    + rewrite lookup_insert_eq. destruct (describes_record _ _ _ _ (Hch m)) as [Hh Hc]. fold (child_of children m) in *.
      cbn [describes ci_hash hasChildren]. split_and!; [|split; [intros _; exists e; in_app|done]|by right].
      intros h. rewrite Hh. split; [intros (x & ? & ?); exists x; in_app|].
      intros (x & [Hx|Hx%list_elem_of_singleton]%elem_of_app & Hdx & ?); [eauto|]. subst x.
      by destruct (nested_not_direct _ _ _ _ Hnest Hdx).
    + rewrite lookup_insert_ne by done. apply describes_irrelevant; [| |done].
      * intros Hd. by destruct (nested_not_direct _ _ _ _ Hnest Hd).
      * intros Hn. by apply Hnm, (nested_unique q n m e).
  - set (m := rel q e) in *. assert (Hd : direct q m e) by done.
    assert (Hnn : forall k, ~ nested q k e) by (intros k (j & Hj & _); fold m in Hj; congruence).
    destruct (decide (n = m)) as [->|Hnm].
    + rewrite lookup_insert_eq. destruct (describes_record _ _ _ _ (Hch m)) as [_ Hc]. fold (child_of children m) in *.
      cbn [describes ci_hash hasChildren]. split_and!; [| |left; exists e; in_app].
      * intros h. split; [intros [= <-]; exists e; in_app|].
        intros (x & [Hx|Hx%list_elem_of_singleton]%elem_of_app & Hdx & <-); [|by subst].
        by destruct (Hfresh x Hx (proj1 Hdx)).
      * rewrite Hc. split; [intros (x & ? & ?); exists x; in_app|].
        intros (x & [Hx|Hx%list_elem_of_singleton]%elem_of_app & Hnx); [eauto|]. subst x. by destruct (Hnn m).
    + rewrite lookup_insert_ne by done. apply describes_irrelevant; [|by apply Hnn|done].
      intros (Hr & _). by subst.
Qed.

Lemma group_describes q es :
  (forall i j x y, es !! i = Some x -> es !! j = Some y -> rel q x = rel q y -> i = j) ->
  forall n, describes q es n (fold_left (add_child q) es ∅ !! n).
Proof.
  induction es as [|e es IH] using rev_ind; intros Huniq n.
  { cbn. rewrite lookup_empty. by intros e ?%elem_of_nil. }
  rewrite fold_left_app. cbn [fold_left]. apply add_child_describes.
  - intros x [i Hx]%list_elem_of_lookup Hr.
    assert (i = length es) as ->; [|by apply lookup_lt_Some in Hx; lia].
    apply (Huniq i (length es) x e); [by apply lookup_app_l_Some|by apply list_lookup_middle|done].
  - apply IH. intros i j x y Hx Hy. apply Huniq; by apply lookup_app_l_Some.
Qed.

(** ** Against the tree *)

Section listing.
Context {CS L IX : Type} `{ContentStoreLaws CS} `{LocationIndex L} `{CapabilityIndex IX} `{Base58, DataCodec, TreeCodec}.
Context {cw : option (ContextualWriter L)} `{!TreeIndex L cw}.
Implicit Types (hctx : HandlerContext) (st : TreeState CS L IX).

(** The entry a listing of [q] has for the name [n], by the bindings [t]. *)
Definition child_entry (t : gmap string Hash) (q n : string) (info : childInfo) : Prop :=
  IndexByte n "/" = None
  /\ (forall h, ci_hash info = Some h <-> n <> "" /\ t !! (q +:+ n) = Some h /\ IsDeletionMarker h = false)
  /\ (hasChildren info = true <-> exists p h, t !! p = Some h /\ HasPrefix p (q +:+ n +:+ "/") = true)
  /\ (is_Some (ci_hash info) \/ hasChildren info = true).

Lemma child_entry_unique t q n info info' : child_entry t q n info -> child_entry t q n info' -> info = info'.
Proof.
  intros (_ & Hh & Hc & _) (_ & Hh' & Hc' & _). destruct info as [h c], info' as [h' c']. cbn in *. f_equal.
  - apply option_eq. intros x. by rewrite Hh, Hh'.
  - apply eq_true_iff_eq. by rewrite Hc, Hc'.
Qed.

Lemma nested_iff q n p h : HasPrefix p q = true -> nested q n (mkEntry p h) <-> IndexByte n "/" = None /\ HasPrefix p (q +:+ n +:+ "/") = true.
Proof.
  intros [r ->]%HasPrefix_spec. unfold nested, rel. cbn [le_Path]. rewrite TrimPrefix_append. split.
  - intros (i & (Hr & Hn & _)%IndexByte_Some & <-). split; [done|]. apply HasPrefix_spec.
    exists (str_drop (S i) r). rewrite !append_assoc. by rewrite Hr at 1.
  - intros [Hn [s Hs]%HasPrefix_spec]. rewrite !append_assoc in Hs. apply append_inj_l in Hs as ->.
    exists (slen n). split; [by apply IndexByte_append|apply str_take_append].
Qed.

Lemma direct_iff q n p h : HasPrefix p q = true -> direct q n (mkEntry p h) <-> p = q +:+ n /\ n <> "" /\ IndexByte n "/" = None.
Proof.
  intros [r ->]%HasPrefix_spec. unfold direct, rel. cbn [le_Path]. rewrite TrimPrefix_append.
  split; [by intros (-> & ?)|]. by intros (->%append_inj_l & ?).
Qed.

Lemma listed_children st prefix q :
  scope_of (ts_Index st) prefix = Some q -> forall n, describes q (List_ (ts_Index st) prefix) n
    (fold_left (add_child q) (List_ (ts_Index st) prefix) ∅ !! n).
Proof.
  intros Hq. apply group_describes. intros i j [p h] [p' h'] Hx Hy Hr.
  assert (Hp : forall k x, List_ (ts_Index st) prefix !! k = Some x -> HasPrefix (le_Path x) q = true).
  { intros k [pk hk] Hk%list_elem_of_lookup_2. apply tree_List in Hk as (q' & Hq' & _ & Hpk). cbn [le_Path]. congruence. }
  unfold rel in Hr. pose proof (Hp _ _ Hx) as [r Hpr]%HasPrefix_spec. pose proof (Hp _ _ Hy) as [r' Hpr']%HasPrefix_spec.
  cbn [le_Path] in *. subst p p'. rewrite !TrimPrefix_append in Hr. subst r'.
  apply (NoDup_lookup _ i j (q +:+ r) (tree_List_NoDup (ts_Index st) prefix)); by rewrite list_lookup_fmap, ?Hx, ?Hy.
Qed.

Lemma listed_entries st prefix q p h :
  scope_of (ts_Index st) prefix = Some q ->
  mkEntry p h ∈ List_ (ts_Index st) prefix <-> tree_of (cw := cw) st !! p = Some h /\ HasPrefix p q = true.
Proof. intros Hq. rewrite tree_List, Hq. split; [by intros (? & [= <-] & ?)|]. intros ?. by exists q. Qed.

Lemma grouped_child st prefix q n info :
  scope_of (ts_Index st) prefix = Some q ->
  let t := tree_of (cw := cw) st in
  fold_left (add_child q) (List_ (ts_Index st) prefix) ∅ !! n = Some info ->
  IndexByte n "/" = None
  /\ (forall h, ci_hash info = Some h <-> n <> "" /\ t !! (q +:+ n) = Some h)
  /\ (hasChildren info = true <-> exists p h, t !! p = Some h /\ HasPrefix p (q +:+ n +:+ "/") = true).
Proof.
  intros Hq t Hn. pose proof (listed_children st prefix q Hq n) as Hd. rewrite Hn in Hd. destruct Hd as (Hh & Hc & Hs).
  assert (Hslash : IndexByte n "/" = None).
  { destruct Hs as [([p h] & He & Hd)|Hch].
    - by destruct Hd as (_ & _ & ?).
    - apply Hc in Hch as ([p h] & He & Hne). apply (listed_entries st _ q) in He as [_ Hp]; [|done].
      by apply nested_iff in Hne as [? _]. }
  split_and!; [done| |].
  - intros h. rewrite Hh. split.
    + intros ([p h'] & He & Hd & <-). apply (listed_entries st _ q) in He as [Ht Hp]; [|done].
      apply direct_iff in Hd as (-> & ? & _); done.
    + intros [Hne Ht]. exists (mkEntry (q +:+ n) h). split_and!; [apply (listed_entries st _ q); auto with entity| |done].
      apply direct_iff; auto with entity.
  - rewrite Hc. split.
    + intros ([p h] & He & Hne). apply (listed_entries st _ q) in He as [Ht Hp]; [|done].
      apply nested_iff in Hne as [_ ?]; [|done]. by exists p, h.
    + intros (p & h & Ht & Hp). assert (Hpq : HasPrefix p q = true) by (eapply HasPrefix_trans; [exact Hp|auto with entity]).
      exists (mkEntry p h). split; [by apply (listed_entries st _ q)|]. by apply nested_iff.
Qed.

Lemma grouped_None st prefix q n :
  scope_of (ts_Index st) prefix = Some q ->
  fold_left (add_child q) (List_ (ts_Index st) prefix) ∅ !! n = None ->
  let t := tree_of (cw := cw) st in IndexByte n "/" = None ->
  (n <> "" -> t !! (q +:+ n) = None) /\ ~ exists p h, t !! p = Some h /\ HasPrefix p (q +:+ n +:+ "/") = true.
Proof.
  intros Hq Hn t Hs. pose proof (listed_children st prefix q Hq n) as Hd. rewrite Hn in Hd. split.
  - intros Hne. apply eq_None_not_Some. intros [h Ht]. destruct (Hd (mkEntry (q +:+ n) h)) as [Hnd _].
    + apply (listed_entries st _ q); auto with entity.
    + apply Hnd, direct_iff; auto with entity.
  - intros (p & h & Ht & Hp). assert (Hpq : HasPrefix p q = true) by (eapply HasPrefix_trans; [exact Hp|auto with entity]).
    destruct (Hd (mkEntry p h)) as [_ Hnn]; [by apply (listed_entries st _ q)|]. by apply Hnn, nested_iff.
Qed.

Lemma drop_marker_spec info info' :
  drop_marker info = Some info' ->
  (forall h, ci_hash info' = Some h <-> ci_hash info = Some h /\ IsDeletionMarker h = false) /\ hasChildren info' = hasChildren info.
Proof.
  unfold drop_marker. destruct info as [[h0|] c]; cbn [ci_hash hasChildren].
  - destruct (IsDeletionMarker h0) eqn:Hm; [destruct c; [|done]|]; intros [= <-]; cbn; (split; [|done]); intros h.
    + split; [done|]. intros [[= <-] ?]. congruence.
    + split; [by intros [= <-]|by intros [? _]].
  - intros [= <-]. cbn. split; [|done]. intros h. split; [done|by intros [? _]].
Qed.

Lemma drop_marker_None info : drop_marker info = None -> exists h, ci_hash info = Some h /\ IsDeletionMarker h = true /\ hasChildren info = false.
Proof.
  unfold drop_marker. destruct (ci_hash info) as [h|]; [|done]. destruct (IsDeletionMarker h) eqn:Hm; [|done].
  destruct (hasChildren info); [done|]. by exists h.
Qed.

(** The children before the path check. *)
Lemma unmarked_children st prefix q n info :
  scope_of (ts_Index st) prefix = Some q ->
  omap drop_marker (fold_left (add_child q) (List_ (ts_Index st) prefix) ∅) !! n = Some info
  <-> child_entry (tree_of (cw := cw) st) q n info.
Proof.
  intros Hq. rewrite lookup_omap. destruct (fold_left _ _ _ !! n) as [i0|] eqn:Hn; cbn [mbind option_bind].
  - pose proof (grouped_child st prefix q n i0 Hq Hn) as (Hs & Hh & Hc).
    assert (Hsome : ci_hash i0 = None -> hasChildren i0 = true).
    { pose proof (listed_children st prefix q Hq n) as Hd. rewrite Hn in Hd. destruct Hd as (Hdh & _ & [(e & He & Hde)|]); [|done].
      intros Hno. assert (Hx : ci_hash i0 = Some (le_Hash e)) by (apply Hdh; eauto). congruence. }
    destruct (drop_marker i0) as [i1|] eqn:Hdm.
    + destruct (drop_marker_spec _ _ Hdm) as [Hh1 Hc1].
      assert (Hi1 : child_entry (tree_of (cw := cw) st) q n i1).
      { split_and!; [done| |by rewrite Hc1|].
        - intros h. rewrite Hh1, Hh. tauto.
        - rewrite Hc1. destruct (hasChildren i0) eqn:Hch; [by right|left]. unfold drop_marker in Hdm.
          destruct (ci_hash i0) as [h|] eqn:Hci; [|by discriminate Hsome].
          rewrite Hch in Hdm. destruct (IsDeletionMarker h); [done|]. injection Hdm as <-. by rewrite Hci. }
      split; [by intros [= <-]|]. intros Hi. f_equal. by eapply child_entry_unique.
    + split; [done|]. intros (_ & Hh' & Hc' & Hor). apply drop_marker_None in Hdm as (h & Hi & Hm & Hcf).
      exfalso. destruct Hor as [[x Hx]|Hx].
      * apply Hh' in Hx as (Hne & Ht & Hmx). assert (Hx0 : ci_hash i0 = Some x) by (by apply Hh). congruence.
      * apply Hc' in Hx. apply Hc in Hx. congruence.
  - split; [done|]. intros (Hs & Hh & Hc & Hor). exfalso.
    destruct (grouped_None st prefix q n Hq Hn Hs) as [Hd Hnn]. destruct Hor as [[x Hx]|Hx].
    + apply Hh in Hx as (Hne & Ht & _). rewrite (Hd Hne) in Ht. done.
    + by apply Hnn, Hc.
Qed.

Lemma visible_children_spec now hctx st prefix n info :
  let q := listing_prefix (hc_LocalPeerID hctx) prefix in
  scope_of (ts_Index st) prefix = Some q ->
  visible_children now hctx st prefix !! n = Some info
  <-> child_entry (tree_of (cw := cw) st) q n info /\ checkPathPerm now hctx (ts_Store st) "get" (q +:+ n) = true.
Proof.
  intros q Hq. unfold visible_children. fold q. rewrite map_lookup_filter_Some. cbn [fst].
  by rewrite (unmarked_children st prefix q n info Hq).
Qed.

(** ** Pages *)

Definition offset_of (req : GetRequestData) : Z := match Offset req with Some o => o | None => 0 end.

Definition in_page (req : GetRequestData) (i : nat) : Prop :=
  offset_of req <= Z.of_nat i /\ match Limit req with Some l => Z.of_nat i < offset_of req + l | None => True end.

Definition unsigned_page (req : GetRequestData) : Prop :=
  0 <= offset_of req /\ match Limit req with Some l => 0 <= l | None => True end.

Lemma page_spec req names n :
  unsigned_page req -> n ∈ page req names <-> exists i, names !! i = Some n /\ in_page req i.
Proof.
  intros [Ho Hl]. unfold page, in_page. fold (offset_of req). set (o := offset_of req) in *.
  set (rest := if _ <? o then [] else drop (Z.to_nat o) names).
  assert (Hrest : forall j, rest !! j = names !! (Z.to_nat o + j)%nat).
  { intros j. unfold rest. destruct (Z.ltb_spec (Z.of_nat (length names)) o).
    - rewrite lookup_nil. symmetry. apply lookup_ge_None. lia.
    - apply lookup_drop. }
  assert (Hout : match Limit req with Some l => if l <? Z.of_nat (length rest) then take (Z.to_nat l) rest else rest | None => rest end
                 = match Limit req with Some l => take (Z.to_nat l) rest | None => rest end).
  { destruct (Limit req) as [l|]; [|done]. destruct (Z.ltb_spec l (Z.of_nat (length rest))); [done|].
    rewrite take_ge by lia. done. }
  rewrite Hout. rewrite list_elem_of_lookup. split.
  - intros [j Hj]. exists (Z.to_nat o + j)%nat. destruct (Limit req) as [l|].
    + apply lookup_take_Some in Hj as [Hj Hlt]. rewrite Hrest in Hj. split; [done|]. lia.
    + rewrite Hrest in Hj. split; [done|]. lia.
  - intros (i & Hi & Hoi & Hli). exists (i - Z.to_nat o)%nat.
    assert (Hri : rest !! (i - Z.to_nat o)%nat = Some n) by (rewrite Hrest; by replace (Z.to_nat o + (i - Z.to_nat o))%nat with i by lia).
    destruct (Limit req) as [l|]; [|done]. apply lookup_take_Some. split; [done|lia].
Qed.

(** The names of a listing are those of its children, in order. *)
Lemma listing_names (children : gmap string childInfo) :
  let names := merge_sort string_le (map fst (map_to_list children)) in
  Sorted string_le names /\ NoDup names /\ length names = size children
  /\ forall n, n ∈ names <-> is_Some (children !! n).
Proof.
  pose proof (merge_sort_Permutation string_le (map fst (map_to_list children))) as Hp. split_and!.
  - apply Sorted_merge_sort, _.
  - rewrite Hp. apply NoDup_fst_map_to_list.
  - rewrite Hp, length_map. apply length_map_to_list.
  - intros n. rewrite Hp, list_elem_of_fmap. split.
    + intros ([m i] & -> & Hi%elem_of_map_to_list). by eexists.
    + intros [i Hi]. exists (n, i). split; [done|]. by apply elem_of_map_to_list.
Qed.

Lemma handleListing_answer now hctx st prefix req :
  let q := listing_prefix (hc_LocalPeerID hctx) prefix in
  scope_of (ts_Index st) prefix = Some q -> unsigned_page req ->
  exists l (visible : gmap string childInfo) names, handleListing now hctx st prefix req = serve (RListing l)
    /\ (forall n info, visible !! n = Some info <->
          child_entry (tree_of (cw := cw) st) q n info /\ checkPathPerm now hctx (ts_Store st) "get" (q +:+ n) = true)
    /\ Sorted string_le names /\ (forall n, n ∈ names <-> is_Some (visible !! n))
    /\ ld_Count l = Z.of_nat (size visible) /\ length names = size visible
    /\ forall n info, ld_Entries l !! n = Some info <->
          visible !! n = Some info /\ exists i, names !! i = Some n /\ in_page req i.
Proof.
  intros q Hq Hpage. set (visible := visible_children now hctx st prefix).
  destruct (listing_names visible) as (Hs & Hnd & Hlen & Hin).
  eexists _, visible, _. split; [reflexivity|]. cbn [ld_Count ld_Entries].
  split_and!; [intros n info; by apply visible_children_spec|exact Hs|exact Hin|exact (f_equal Z.of_nat Hlen)|exact Hlen|].
  intros n info. rewrite map_lookup_filter_Some. cbn [fst]. by rewrite page_spec.
Qed.

(** A listing is exact. A get that answers with a listing was for a prefix
    the caller may get; the entries it counts are the names directly below the
    prefix that the caller may get, each with the hash bound to that path (no
    hash when the path is unbound or bound to a deletion marker) and the mark
    for bindings further below; and the entries it shows are those whose place
    in the sorted order of all of them is from the offset up to the limit. *)
Theorem listing_exact (now : Z) (hctx : HandlerContext) (st : TreeState CS L IX) (params : list byte) (l : ListingData)
    (req : GetRequestData) :
  let prefix := ExtractResourcePath hctx in
  let q := listing_prefix (hc_LocalPeerID hctx) prefix in
  handleGet now hctx st params = serve (RListing l) ->
  decode_params no_get DecodeGetRequest params = Some req -> unsigned_page req ->
  scope_of (ts_Index st) prefix = Some q ->
  checkPathPerm now hctx (ts_Store st) "get" prefix = true
  /\ exists (visible : gmap string childInfo) (names : list string),
       (forall n info, visible !! n = Some info <->
          child_entry (tree_of (cw := cw) st) q n info /\ checkPathPerm now hctx (ts_Store st) "get" (q +:+ n) = true)
       /\ Sorted string_le names /\ (forall n, n ∈ names <-> is_Some (visible !! n))
       /\ ld_Count l = Z.of_nat (size visible) /\ length names = size visible
       /\ forall n info, ld_Entries l !! n = Some info <->
             visible !! n = Some info /\ exists i, names !! i = Some n /\ in_page req i.
Proof.
  intros prefix q Hg Hdec Hpage Hq. unfold handleGet in Hg. rewrite Hdec in Hg. fold prefix in Hg.
  destruct (all_excluded hctx); [done|]. unfold path_denied in Hg.
  destruct (checkPathPerm now hctx (ts_Store st) "get" prefix); cbn [negb] in Hg; [|done]. split; [done|].
  destruct (String.eqb prefix "" || HasSuffix prefix "/").
  - destruct (handleListing_answer now hctx st prefix req Hq Hpage) as (l' & visible & names & Hl & Hrest).
    rewrite Hl in Hg. injection Hg as ->. by exists visible, names.
  - exfalso. destruct (Get (ts_Index st) prefix); [|done]. repeat case_match; done.
Qed.
End listing.
