(* ===== verification/RootTracker.v ===== *)
(** * Tracked roots ([core/tree]: [root_tracker.go], [trie_update.go])

    The root tracker is a synchronous hook of the notifying index: for every
    enabled tracking config it keeps the root of the trie of the bindings below
    a prefix, bound at [system/tree/root/{prefix}].  Its methods are hook
    programs over a world that holds the content store and the tracker, in
    continuation-passing style: the last argument of a method is what runs after
    it.  They reach the index through the namespaced view the tracker was given,
    [li_Get] and the like.

    The mutex of a prefix is its membership in [heldLocks].  An event that finds
    the mutex taken is put aside in [deferred] (the goroutine that waits for the
    mutex); [land] runs one of them.  A trie operation that panics or does not
    return ends the program. *)

From Stdlib Require Import Ascii.
From S2P Require Import Prelude GoStrings Errors Hash Entity PeerID Paths Store Notifying Trie TrieSpec TrieCanon TrieMap TrieRemove.

Open Scope Z_scope.

Definition trackingConfigPrefix : string := "system/tree/tracking-config/".
Definition rootStoragePrefix : string := "system/tree/root/".
Definition TypeTreeTrackingConfig : string := "system/tree/tracking-config".

Record TrackingConfigData := { tc_Prefix : string; Enabled : bool }.

(** The decoder of a tracking config, and the order in which a range visits
    the tracked prefixes. *)
Class TrackerRuntime := {
  DecodeTrackingConfig : list byte -> option TrackingConfigData;
  visit : gmap string bool -> list (string * bool);
  visit_perm m : visit m ≡ₚ map_to_list m
}.

(** ** Paths *)

Definition isSelfPath (path : string) : bool := HasPrefix (snd (SplitNamespace path)) rootStoragePrefix.
Definition isConfigPath (path : string) : bool := HasPrefix (snd (SplitNamespace path)) trackingConfigPrefix.

Definition isFeedbackLoopHandler (pattern : string) : bool :=
  String.eqb pattern "publishedroot/publisher" || String.eqb pattern "system/history".

Definition pathUnderPrefix (path prefix : string) : bool :=
  if HasPrefix prefix "/" then HasPrefix path prefix else HasPrefix (snd (SplitNamespace path)) prefix.

Definition qualified (localPeerID prefix : string) : string :=
  if HasPrefix prefix "/" then prefix else QualifyPath localPeerID prefix.

Definition root_path (prefix : string) : string := CleanPath (rootStoragePrefix +:+ prefix).

Definition with_depth (c : MutationContext) (d : option Z) : MutationContext := {|
  AuthorHash := AuthorHash c; CapabilityHash := CapabilityHash c; CallerCapabilityHash := CallerCapabilityHash c;
  HandlerPattern := HandlerPattern c; mc_Operation := mc_Operation c; ChainID := ChainID c;
  ParentChainID := ParentChainID c; CascadeDepth := d; Clock := Clock c; ClockType := ClockType c |}.

(** The bindings below a prefix, from a listing. *)
Definition relative_bindings (qualifiedPrefix : string) (entries : list LocationEntry) : list BucketTuple :=
  omap (fun e => let rel := TrimPrefix (le_Path e) qualifiedPrefix in
                 if String.eqb rel "" then None else Some (mkTuple rel (le_Hash e))) entries.

Section tracker.
Context {CS : Type} `{ContentStore CS, HashableCodec, NodeCodec, TrackerRuntime}.

Record RootTracker := {
  localPeerID : string;
  (** The namespace of the index the tracker was given; [None] before. *)
  rt_li : option string;
  tracked : gmap string bool;
  bgCtx : option MutationContext;
  identity : Hash;
  heldLocks : gset string;
  pending : gmap string Z;
  deferred : list (string * TreeChangeEvent * Z)
}.

Record TrackerWorld := { tw_store : CS; tw_tracker : RootTracker }.

Abbreviation prog := (HookProg TrackerWorld).

Definition with_cs (w : TrackerWorld) (cs : CS) : TrackerWorld := {| tw_store := cs; tw_tracker := tw_tracker w |}.
Definition with_tracker (w : TrackerWorld) (t : RootTracker) : TrackerWorld := {| tw_store := tw_store w; tw_tracker := t |}.
Definition with_tracked (t : RootTracker) (m : gmap string bool) : RootTracker := {|
  localPeerID := localPeerID t; rt_li := rt_li t; tracked := m; bgCtx := bgCtx t; identity := identity t;
  heldLocks := heldLocks t; pending := pending t; deferred := deferred t |}.
Definition with_bgCtx (t : RootTracker) (c : option MutationContext) : RootTracker := {|
  localPeerID := localPeerID t; rt_li := rt_li t; tracked := tracked t; bgCtx := c; identity := identity t;
  heldLocks := heldLocks t; pending := pending t; deferred := deferred t |}.
Definition with_locks (t : RootTracker) (l : gset string) : RootTracker := {|
  localPeerID := localPeerID t; rt_li := rt_li t; tracked := tracked t; bgCtx := bgCtx t; identity := identity t;
  heldLocks := l; pending := pending t; deferred := deferred t |}.
Definition with_deferred (t : RootTracker) (p : gmap string Z) (d : list (string * TreeChangeEvent * Z)) : RootTracker := {|
  localPeerID := localPeerID t; rt_li := rt_li t; tracked := tracked t; bgCtx := bgCtx t; identity := identity t;
  heldLocks := heldLocks t; pending := p; deferred := d |}.

Definition NewRootTracker (id : string) : RootTracker := {|
  localPeerID := id; rt_li := None; tracked := ∅; bgCtx := None; identity := zero_hash;
  heldLocks := ∅; pending := ∅; deferred := [] |}.

Definition SetLocalPeerID (t : RootTracker) (id : string) (identityHash : Hash) : RootTracker := {|
  localPeerID := id; rt_li := rt_li t; tracked := tracked t; bgCtx := bgCtx t; identity := identityHash;
  heldLocks := heldLocks t; pending := pending t; deferred := deferred t |}.

Definition SetLocationIndex (t : RootTracker) (ns : string) : RootTracker := {|
  localPeerID := localPeerID t; rt_li := Some ns; tracked := tracked t; bgCtx := bgCtx t; identity := identity t;
  heldLocks := heldLocks t; pending := pending t; deferred := deferred t |}.

(** ** The namespaced view *)

Definition abs_path (ns path : string) : option string := canonicalizeChecked (mkNamespaced tt ns) path.

Definition li_Get (ns path : string) (k : option Hash -> prog) : prog :=
  match abs_path ns path with None => k None | Some abs => HGet abs k end.
Definition li_List (ns prefix : string) (k : list LocationEntry -> prog) : prog :=
  if String.eqb prefix "" || String.eqb prefix "/" then HList "" k
  else match abs_path ns prefix with None => k [] | Some abs => HList abs k end.
Definition li_Set (ns path : string) (h : Hash) (ctx : option MutationContext) (k : prog) : prog :=
  match abs_path ns path with None => k | Some abs => HSet abs h ctx (fun _ _ => k) end.
Definition li_Remove (ns path : string) (k : prog) : prog :=
  match abs_path ns path with None => k | Some abs => HRemove abs None (fun _ _ => k) end.

(** [this k]: [k] of the tracker. *)
Definition this (k : RootTracker -> prog) : prog := HWorld (fun w => w) (fun w => k (tw_tracker w)).

(** Runs an operation on the content store. *)
Definition on_store {A} (op : CS -> CS * A) (k : A -> prog) : prog :=
  HWorld (fun w => with_cs w (fst (op (tw_store w)))) (fun w => k (snd (op (tw_store w)))).

(** ** Building *)

Definition BuildTrieForPrefix (localPeerID ns prefix : string) (k : res TrieErr Hash -> prog) : prog :=
  li_List ns prefix (fun entries =>
    on_store (fun cs => BuildTrie cs (relative_bindings (qualified localPeerID prefix) entries)) k).

Definition writeRoot (ns : string) (ctx : option MutationContext) (rootPath : string) (root : Hash) (parentDepth : Z)
    (k : prog) : prog :=
  match ctx with
  | Some c => li_Set ns rootPath root (Some (with_depth c (Some (u64 (parentDepth + 1))))) k
  | None => li_Set ns rootPath root None k
  end.

(** The run of a trie operation: its result, its error, or no return. *)
Definition after_trie {A} (r : res TrieErr A) (ok : A -> prog) (err : prog) : prog :=
  match r with
  | Ok x => ok x
  | Err TriePanic | Err TrieDiverges => HReturn None
  | Err _ => err
  end.

Definition rebuildLocked (prefix : string) (parentDepth : Z) (ns : string) (ctx : option MutationContext) (k : prog) : prog :=
  this (fun t =>
  BuildTrieForPrefix (localPeerID t) ns prefix (fun r =>
    after_trie r (fun root => writeRoot ns ctx (root_path prefix) root parentDepth k) k)).

Definition lock (prefix : string) (w : TrackerWorld) : TrackerWorld :=
  with_tracker w (with_locks (tw_tracker w) ({[prefix]} ∪ heldLocks (tw_tracker w))).
Definition unlock (prefix : string) (w : TrackerWorld) : TrackerWorld :=
  with_tracker w (with_locks (tw_tracker w) (heldLocks (tw_tracker w) ∖ {[prefix]})).

(** [mu.Lock(); body; mu.Unlock()] with the mutex free. *)
Definition locked (prefix : string) (body : prog -> prog) (k : prog) : prog :=
  HWorld (lock prefix) (fun _ => body (HWorld (unlock prefix) (fun _ => k))).

Definition rebuildWithDepth (prefix : string) (parentDepth : Z) (k : prog) : prog :=
  locked prefix (fun k =>
    this (fun t => match rt_li t with None => k | Some ns => rebuildLocked prefix parentDepth ns (bgCtx t) k end)) k.

Definition rebuild (prefix : string) (k : prog) : prog := rebuildWithDepth prefix 0 k.

Definition clear (prefix : string) (k : prog) : prog :=
  this (fun t => match rt_li t with None => k | Some ns => li_Remove ns (root_path prefix) k end).

(** ** Applying an event *)

Definition apply_change (evt : TreeChangeEvent) (currentRoot : Hash) (relPath : string) (cs : CS) : CS * res TrieErr Hash :=
  match ev_ChangeType evt with
  | ChangeDeleted => TrieRemove cs currentRoot relPath
  | _ => TriePut cs currentRoot relPath (ev_Hash evt)
  end.

Definition applyEventBody (prefix : string) (evt : TreeChangeEvent) (parentDepth : Z) (k : prog) : prog :=
  this (fun t =>
  match rt_li t with
  | None => k
  | Some ns =>
      let qualifiedPrefix := qualified (localPeerID t) prefix in
      li_Get ns (root_path prefix) (fun cur =>
        match cur with
        | None => rebuildLocked prefix parentDepth ns (bgCtx t) k
        | Some currentRoot =>
            if negb (HasPrefix (ev_Path evt) qualifiedPrefix) then k
            else
              on_store (apply_change evt currentRoot (TrimPrefix (ev_Path evt) qualifiedPrefix)) (fun r =>
                after_trie r
                  (fun newRoot =>
                     if decide (newRoot = currentRoot) then k
                     else writeRoot ns (bgCtx t) (root_path prefix) newRoot parentDepth k)
                  (rebuildLocked prefix parentDepth ns (bgCtx t) k))
        end)
  end).

(** The mutex is tried; when it is taken the event is left to a goroutine. *)
Definition applyEventWithDepth (prefix : string) (evt : TreeChangeEvent) (parentDepth : Z) (k : prog) : prog :=
  this (fun t =>
  if decide (prefix ∈ heldLocks t) then
    HWorld (fun w => let t := tw_tracker w in with_tracker w (with_deferred t
              (<[prefix := match pending t !! prefix with Some n => n | None => 0 end + 1]> (pending t))
              (deferred t ++ [(prefix, evt, parentDepth)]))) (fun _ => k)
  else locked prefix (applyEventBody prefix evt parentDepth) k).

(** The goroutine of the [i]th deferred event gets the mutex and runs; nothing
    happens while the mutex is taken. *)
Definition land (i : nat) (k : prog) : prog :=
  this (fun t =>
  match deferred t !! i with
  | None => k
  | Some (prefix, evt, parentDepth) =>
      if decide (prefix ∈ heldLocks t) then k
      else
        HWorld (fun w => let t := tw_tracker w in with_tracker w (with_deferred t (pending t) (delete i (deferred t)))) (fun _ =>
        locked prefix (applyEventBody prefix evt parentDepth)
          (HWorld (fun w => let t := tw_tracker w in with_tracker w (with_deferred t
                     (<[prefix := match pending t !! prefix with Some n => n | None => 0 end - 1]> (pending t)) (deferred t)))
             (fun _ => k)))
  end).

(** ** Configuration *)

(** One entry of [reloadConfigsLocked]. *)
Definition load_config (cs : CS) (m : gmap string bool) (e : LocationEntry) : gmap string bool :=
  match cs_Get cs (le_Hash e) with
  | None => m
  | Some ent =>
      if negb (String.eqb (Type_ ent) TypeTreeTrackingConfig) then m
      else match DecodeTrackingConfig (Data ent) with
      | None => m
      | Some cfg => if String.eqb (tc_Prefix cfg) "" then m else <[tc_Prefix cfg := Enabled cfg]> m
      end
  end.

Definition reloadConfigsLocked (k : prog) : prog :=
  this (fun t =>
  match rt_li t with
  | None => k
  | Some ns =>
      li_List ns (QualifyPath (localPeerID t) trackingConfigPrefix) (fun entries =>
        HWorld (fun w => let t := tw_tracker w in
                  with_tracker w (with_tracked t (fold_left (load_config (tw_store w)) entries (tracked t)))) (fun _ => k))
  end).

(** A missing key of a Go map reads as [false]. *)
Definition enabled_in (m : gmap string bool) (p : string) : bool := match m !! p with Some b => b | None => false end.

Definition each (f : string -> prog -> prog) (ps : list string) (k : prog) : prog := fold_right f k ps.

Definition enabled_prefixes (m : gmap string bool) : list string := map fst (List.filter snd (visit m)).

Definition handleConfigChange (k : prog) : prog :=
  this (fun t0 =>
  HWorld (fun w => with_tracker w (with_tracked (tw_tracker w) ∅)) (fun _ =>
  reloadConfigsLocked (
  this (fun t1 =>
    let prev := tracked t0 in
    let toBuild := List.filter (fun p => negb (enabled_in prev p)) (enabled_prefixes (tracked t1)) in
    let toClear := List.filter (fun p => negb (enabled_in (tracked t1) p)) (enabled_prefixes prev) in
    each rebuild toBuild (each clear toClear k))))).

Definition Load (k : prog) : prog :=
  this (fun t =>
  match rt_li t with
  | None => k
  | Some ns =>
      HWorld (fun w => with_tracker w (with_tracked (tw_tracker w) ∅)) (fun _ =>
      reloadConfigsLocked (
      li_Get ns "system/capability/grants/system/tree" (fun gh =>
      HWorld (fun w => with_tracker w (with_bgCtx (tw_tracker w) (Some {|
                AuthorHash := identity (tw_tracker w);
                CapabilityHash := match gh with Some h => h | None => zero_hash end;
                CallerCapabilityHash := zero_hash; HandlerPattern := "system/tree"; mc_Operation := "track";
                ChainID := ""; ParentChainID := ""; CascadeDepth := None; Clock := []; ClockType := "" |}))) (fun _ =>
      this (fun t => each rebuild (enabled_prefixes (tracked t)) k)))))
  end).

(** ** The hook *)

Definition event_depth (evt : TreeChangeEvent) : Z := context_depth (Context_ evt).

Definition OnTreeChange (evt : TreeChangeEvent) : prog :=
  if isSelfPath (ev_Path evt) then HReturn None
  else if match Context_ evt with Some c => isFeedbackLoopHandler (HandlerPattern c) | None => false end then HReturn None
  else if isConfigPath (ev_Path evt) then handleConfigChange (HReturn None)
  else this (fun t =>
    let affected := List.filter (pathUnderPrefix (ev_Path evt)) (enabled_prefixes (tracked t)) in
    each (fun p => applyEventWithDepth p evt (event_depth evt)) affected (HReturn None)).

Definition tracker_hook : NamedSyncHook TrackerWorld := {|
  Name := "tree/root-tracker"; Pattern := ""; Fn := OnTreeChange |}.

(** ** Reading a root *)

Definition Root (prefix : string) (k : option Hash -> prog) : prog :=
  this (fun t =>
  match rt_li t with
  | Some ns => if enabled_in (tracked t) prefix then li_Get ns (root_path prefix) k else k None
  | None => k None
  end).

Definition CurrentRoot (prefix : string) (k : option Hash -> prog) : prog :=
  this (fun t =>
  if negb (0 <? match pending t !! prefix with Some n => n | None => 0 end) then Root prefix k
  else match rt_li t with
  | Some ns =>
      if enabled_in (tracked t) prefix then
        BuildTrieForPrefix (localPeerID t) ns prefix (fun r => after_trie r (fun root => k (Some root)) (Root prefix k))
      else Root prefix k
  | None => Root prefix k
  end).
End tracker.
Arguments RootTracker : clear implicits.
Arguments TrackerWorld : clear implicits.
