(* ===== verification/RootSync.v ===== *)
(** * Tracked roots follow the tree

    The notifying index with the root tracker as its hook: after every write,
    the root bound for each enabled prefix is the root of the trie of the
    bindings now below that prefix. *)

From Stdlib Require Import Ascii.
From S2P Require Import Prelude GoStrings Errors Hash Entity PeerID Paths Store Notifying Trie TrieSpec TrieCanon TrieMap TrieRemove RootTracker.

Open Scope Z_scope.

(** ** The bindings below a prefix *)

Definition below (q : string) (ph : string * Hash) : option (string * Hash) :=
  let rel := TrimPrefix (fst ph) q in
  if HasPrefix (fst ph) q && negb (String.eqb rel "") then Some (rel, snd ph) else None.

Definition under (q : string) (t : gmap string Hash) : gmap string Hash := list_to_map (omap (below q) (map_to_list t)).

Lemma below_Some q p h r h' : below q (p, h) = Some (r, h') <-> p = q +:+ r /\ r <> "" /\ h' = h.
Proof.
  unfold below. cbn [fst snd]. destruct (HasPrefix p q) eqn:Hp; cbn [andb].
  - apply HasPrefix_spec in Hp as [s ->]. rewrite TrimPrefix_append. destruct (String.eqb_spec s ""); cbn [negb].
    + split; [done|]. by intros (?%append_inj_l & ? & _); subst.
    + split; [by intros [= <- <-]|]. intros (->%append_inj_l & _ & ->). done.
  - split; [done|]. intros (-> & _). by rewrite HasPrefix_append in Hp.
Qed.

Lemma below_NoDup q (l : list (string * Hash)) : NoDup (map fst l) -> NoDup (map fst (omap (below q) l)).
Proof.
  induction l as [|[p h] l IH]; [constructor|]. cbn [map fst]. intros [Hp Hl]%NoDup_cons. cbn [omap list_omap].
  destruct (below q (p, h)) as [[r h']|] eqn:Hb; [|by apply IH]. cbn [map fst]. apply NoDup_cons. split; [|by apply IH].
  apply below_Some in Hb as (-> & Hne & ->). intros ([r' h''] & Hr & Hin)%list_elem_of_fmap. cbn [fst] in Hr. subst r'.
  apply list_elem_of_omap in Hin as ([p' h0] & Hin & (-> & _ & _)%below_Some). apply Hp, list_elem_of_fmap. by exists (q +:+ r, h0).
Qed.

Lemma under_lookup q t r h : under q t !! r = Some h <-> r <> "" /\ t !! (q +:+ r) = Some h.
Proof.
  unfold under. rewrite <- elem_of_list_to_map by apply below_NoDup, NoDup_fst_map_to_list.
  rewrite list_elem_of_omap. split.
  - intros ([p h0] & Hin%elem_of_map_to_list & (-> & ? & ->)%below_Some). done.
  - intros [Hr Ht]. exists (q +:+ r, h). split; [by apply elem_of_map_to_list|]. by apply below_Some.
Qed.

Lemma under_ext q t t' : (forall r, r <> "" -> t !! (q +:+ r) = t' !! (q +:+ r)) -> under q t = under q t'.
Proof.
  intros He. apply map_eq. intros r. apply option_eq. intros h. rewrite !under_lookup.
  split; intros [Hr Ht]; (split; [done|]); [by rewrite <- He|by rewrite He].
Qed.

Lemma under_insert q t r h : r <> "" -> under q (<[q +:+ r := h]> t) = <[r := h]> (under q t).
Proof.
  intros Hr. apply map_eq. intros s. apply option_eq. intros x. rewrite under_lookup, !lookup_insert_Some, under_lookup.
  split.
  - intros [Hs [[->%append_inj_l ->]|[Hne Ht]]]; [by left|right]. split; [by intros ->|done].
  - intros [[-> ->]|[Hne [Hs Ht]]]; [by split; [|left]|]. split; [done|right]. split; [by intros ?%append_inj_l|done].
Qed.

Lemma under_delete q t r : under q (delete (q +:+ r) t) = delete r (under q t).
Proof.
  apply map_eq. intros s. apply option_eq. intros x. rewrite under_lookup, !lookup_delete_Some, under_lookup.
  split.
  - intros (Hs & Hne & Ht). split; [by intros ->|done].
  - intros (Hne & Hs & Ht). split; [done|]. split; [by intros ?%append_inj_l|done].
Qed.

Lemma under_other q t p o : HasPrefix p q = false -> under q (partial_alter (fun _ => o) p t) = under q t.
Proof.
  intros Hp. apply under_ext. intros r _. apply lookup_partial_alter_ne. intros ->. by rewrite HasPrefix_append in Hp.
Qed.

(** ** Tries in a growing store *)

Section tries.
Context {CS : Type} `{ContentStoreLaws CS, NodeCodec}.
Context {text_ok : string -> bool} `{!TrieStorage (CS := CS) text_ok}.

(** The nodes [W] do not share a hash with another node of [ns]. *)
Definition compatible (W ns : list SnapshotNodeData) : Prop :=
  forall w n, w ∈ W -> n ∈ ns -> node_hash w = node_hash n -> w = n.

Lemma represents_keeps (s s' : CS) r m W :
  represents s r m -> extends s s' W -> compatible W (trie_nodes m) -> represents s' r m.
Proof.
  intros [Hr Hheld] He Hc. split; [done|]. intros n Hn. apply He; [left; by apply Hheld|]. intros w Hw. by apply Hc.
Qed.

Lemma represents_nonzero (s : CS) r m : represents s r m -> hash_sound (trie_nodes m) -> r <> zero_hash.
Proof.
  intros [(n & Hn & Hr) _] [_ Hz] ->. apply (Hz n); [|done]. unfold trie_nodes. rewrite Hn. left.
Qed.

Lemma represents_unique (s s' : CS) r r' m : represents s r m -> represents s' r' m -> r = r'.
Proof. intros [(n & Hn & Hr) _] [(n' & Hn' & Hr') _]. congruence. Qed.

(** One event on a represented root. *)
Lemma apply_change_run evt (s : CS) r m m' rel :
  represents s r m -> map_ok text_ok m -> map_ok text_ok m' -> r <> zero_hash -> hash_sound (trie_nodes m') ->
  is_Some (root_node m') ->
  match ev_ChangeType evt with ChangeDeleted => m' = delete rel m | _ => m' = <[rel := ev_Hash evt]> m end ->
  exists s' r' W, apply_change evt r rel s = (s', Ok r') /\ represents s' r' m' /\ extends s s' W
    /\ (forall w, w ∈ W -> w ∈ trie_nodes m').
Proof.
  intros Hrep Hm Hm' Hz Hsound [n' Hn'] Hch.
  assert (Hput : m' = <[rel := ev_Hash evt]> m -> exists s' r' W, TriePut s r rel (ev_Hash evt) = (s', Ok r')
      /\ represents s' r' m' /\ extends s s' W /\ (forall w, w ∈ W -> w ∈ trie_nodes m')).
  { intros ->. destruct (Hm' rel (ev_Hash evt)) as [Ht Hw]; [by rewrite lookup_insert_eq|].
    pose proof (TriePut_run s r m rel (ev_Hash evt) Hrep Hm Ht Hw Hz) as Hrun. rewrite Hn' in Hrun.
    destruct Hrun as (s' & r' & W & Hp & Hr' & He & HW & Hcov). exists s', r', W. split_and!; [done| |done|done].
    eapply represents_extends; [done..| |done]. intros x Hx. destruct (Hcov x Hx); [by left|right; by apply Hrep]. }
  unfold apply_change. destruct (ev_ChangeType evt); [by apply Hput|by apply Hput|]. subst m'.
  destruct (TrieRemove_run s r m rel Hrep Hm Hz Hsound) as (s' & r' & n & W & Hp & Hn & Hr' & He & HW & Hcov & _).
  exists s', r', W. split_and!; [done| |done|done].
  eapply represents_extends; [done..| |done]. intros x Hx. destruct (Hcov x Hx); [by left|right; by apply Hrep].
Qed.
End tries.

(** ** The tracker on the notifying index *)

Section sync.
Context {CS L : Type} `{ContentStoreLaws CS, NodeCodec, TrackerRuntime} `{LocationIndexLaws L}.
Context {text_ok : string -> bool} `{!TrieStorage (CS := CS) text_ok}.
Context (cfg : NotifyingConfig (TrackerWorld CS)) (only_tracker : namedHooks cfg = [tracker_hook]).
(** The index below reports no error of event delivery. *)
Context (inner_plain : forall (l : L) p h e, snd (Set_ l p h) = Err e -> delivery_error e = false).
Context (ns : string).
Implicit Types (st : NotifyingState L (TrackerWorld CS)) (T : RootTracker) (t told tnew : gmap string Hash).

Definition tracker_of st : RootTracker := tw_tracker (world st).
Definition tree_at st : gmap string Hash := bindings (ni_inner st).
Definition scope T (p : string) : string := qualified (localPeerID T) p.
Definition on T (p : string) : Prop := tracked T !! p = Some true.
Definition root_at (p : string) : string := match abs_path ns (root_path p) with Some a => a | None => "" end.

(** The tracker reaches the index, every enabled prefix has a root path of its
    own, outside all the tracked prefixes, that can be written. *)
Record placed T : Prop := {
  pl_li : rt_li T = Some ns;
  pl_peer : IndexByte (localPeerID T) "/" = None;
  pl_root p : on T p -> abs_path ns (root_path p) = Some (root_at p) /\ isSelfPath (root_at p) = true;
  pl_inj p p' : on T p -> on T p' -> root_at p = root_at p' -> p = p';
  pl_out p p' : on T p -> on T p' -> HasPrefix (root_at p') (scope T p) = false;
  pl_set p (l : L) h : on T p -> snd (Set_ l (root_at p) h) = Ok tt
}.

(** The write of a root is not refused for its depth. *)
Definition depth_ok T (depth : Z) : Prop :=
  match bgCtx T with Some _ => u64 (depth + 1) < maxCascadeDepth cfg | None => True end.

(** The tries before and after a change exist, can be written, and no two of
    their nodes share a hash. *)
Record tree_sound T told tnew : Prop := {
  ts_ok p : on T p -> map_ok text_ok (under (scope T p) told) /\ map_ok text_ok (under (scope T p) tnew);
  ts_trie p : on T p -> is_Some (root_node (under (scope T p) tnew));
  ts_hash p p' : on T p -> on T p' ->
    hash_sound (trie_nodes (under (scope T p) tnew) ++ trie_nodes (under (scope T p') told)
                ++ trie_nodes (under (scope T p') tnew))
}.

(** The root of each enabled prefix represents the map [f] gives. *)
Definition roots st T (f : string -> gmap string Hash) : Prop :=
  forall p, on T p -> exists r, tree_at st !! root_at p = Some r /\ r <> zero_hash
    /\ represents (tw_store (world st)) r (f p).

(** Only root paths differ. *)
Definition off_roots T st st' : Prop :=
  forall x, (forall p, on T p -> x <> root_at p) -> tree_at st' !! x = tree_at st !! x.

Definition changes (evt : TreeChangeEvent) told tnew : Prop :=
  tnew = partial_alter (fun _ => match ev_ChangeType evt with ChangeDeleted => None | _ => Some (ev_Hash evt) end) (ev_Path evt) told.

Lemma hash_sound_in ns1 ns2 : (forall n, n ∈ ns1 -> n ∈ ns2) -> hash_sound ns2 -> hash_sound ns1.
Proof. intros Hi [Hc Hz]. split; [intros a b Ha Hb; apply Hc; auto|intros a Ha; apply Hz; auto]. Qed.

Lemma hash_sound_again (a b : list SnapshotNodeData) : hash_sound (a ++ b) -> hash_sound (a ++ b ++ a).
Proof. apply hash_sound_in. intros n. rewrite !elem_of_app. tauto. Qed.

Lemma sound_new T told tnew p : tree_sound T told tnew -> on T p -> hash_sound (trie_nodes (under (scope T p) tnew)).
Proof.
  intros Hs Hp. eapply hash_sound_in; [|exact (ts_hash _ _ _ Hs p p Hp Hp)]. intros n Hn. apply elem_of_app. by left.
Qed.

Lemma sound_compatible T told tnew p p' (b : bool) W :
  tree_sound T told tnew -> on T p -> on T p' -> (forall w, w ∈ W -> w ∈ trie_nodes (under (scope T p) tnew)) ->
  compatible W (trie_nodes (under (scope T p') (if b then told else tnew))).
Proof.
  intros Hs Hp Hp' HW w n Hw Hn. apply (proj1 (ts_hash _ _ _ Hs p p' Hp Hp')).
  - apply elem_of_app. left. by apply HW.
  - rewrite !elem_of_app. right. destruct b; [by left|by right].
Qed.

Lemma emit_keeps st evt : ni_inner (fst (emit st evt)) = ni_inner st /\ world (fst (emit st evt)) = world st.
Proof. unfold emit. by repeat case_match. Qed.

(** A write of a root runs no tracker. *)
Lemma self_set n st p h ctx :
  isSelfPath p = true -> refused_depth cfg ctx = None -> snd (Set_ (ni_inner st) p h) = Ok tt ->
  exists st' cr r, op_Set (notifying cfg (S n)) st p h ctx = Some (st', cr, r)
    /\ tree_at st' = <[p := h]> (tree_at st) /\ world st' = world st.
Proof.
  intros Hself Hd Hok. cbn [op_Set notifying body_ops]. unfold setInternal. rewrite Hd.
  case_decide as Hp.
  { eexists _, _, _. split_and!; [done| |done]. rewrite get_spec in Hp. symmetry. by apply insert_id. }
  pose proof (set_spec (ni_inner st) p h) as Hs. destruct (Set_ (ni_inner st) p h) as [l r]. cbn [fst snd] in *. subst r.
  unfold runCascade. rewrite only_tracker.
  set (evt := match Get (ni_inner st) p with Some _ => _ | None => _ end).
  assert (He : ev_Path evt = p) by (unfold evt; by destruct (Get (ni_inner st) p)).
  cbn [cascade]. change (negb (pathMatchesPattern (Pattern tracker_hook) (ev_Path evt))) with false. cbv iota.
  cbn [Fn tracker_hook]. unfold OnTreeChange. change (ev_Path (with_context evt ctx)) with (ev_Path evt).
  rewrite He, Hself. cbn [run_hook halts].
  destruct (emit_keeps (with_ni_inner st l) (with_context evt ctx)) as [Hi Hw].
  destruct (emit (with_ni_inner st l) (with_context evt ctx)) as [st2 r2]. cbn [fst] in *.
  eexists _, _, _. split_and!; [done| |exact Hw]. unfold tree_at. by rewrite Hi.
Qed.

Lemma run_writeRoot n st ctx T p root depth k :
  placed T -> depth_ok T depth -> on T p ->
  exists st', run_hook (notifying cfg (S n)) (writeRoot ns (bgCtx T) (root_path p) root depth k) st ctx
              = run_hook (notifying cfg (S n)) k st' ctx
    /\ tree_at st' = <[root_at p := root]> (tree_at st) /\ world st' = world st.
Proof.
  intros Hpl Hd Hp. destruct (pl_root _ Hpl p Hp) as [Ha Hself]. unfold writeRoot, li_Set. rewrite Ha.
  set (c := match bgCtx T with Some c => Some (with_depth c (Some (u64 (depth + 1)))) | None => None end).
  assert (Hc : refused_depth cfg c = None).
  { unfold c, depth_ok in *. destruct (bgCtx T); [|done]. cbn. destruct (Z.leb_spec (maxCascadeDepth cfg) (u64 (depth + 1))); [lia|done]. }
  destruct (self_set n st (root_at p) root c Hself Hc (pl_set _ Hpl p _ _ Hp)) as (st' & cr & r & Hs & Ht & Hw).
  exists st'. unfold c in *. destruct (bgCtx T); cbn [run_hook]; rewrite Hs; done.
Qed.

(** ** One prefix *)

Definition stage T told tnew (ps : list string) (x : string) : gmap string Hash :=
  under (scope T x) (if decide (x ∈ ps) then told else tnew).

Lemma stage_cons_other T told tnew p ps x : x <> p -> stage T told tnew (p :: ps) x = stage T told tnew ps x.
Proof.
  intros Hx. unfold stage. destruct (decide (x ∈ p :: ps)) as [Hin|Hin], (decide (x ∈ ps)) as [Hin'|Hin']; try done.
  - apply elem_of_cons in Hin as [?|?]; done.
  - destruct Hin. by right.
Qed.

(** The effect of one step on the roots: that of [p] is moved to [tnew]. *)
Lemma roots_step T told tnew st st' p ps r W :
  placed T -> tree_sound T told tnew -> on T p -> p ∉ ps -> roots st T (stage T told tnew (p :: ps)) ->
  extends (tw_store (world st)) (tw_store (world st')) W ->
  (forall w, w ∈ W -> w ∈ trie_nodes (under (scope T p) tnew)) ->
  represents (tw_store (world st')) r (under (scope T p) tnew) ->
  tree_at st' = <[root_at p := r]> (tree_at st) -> roots st' T (stage T told tnew ps) /\ off_roots T st st'.
Proof.
  intros Hpl Hs Hp Hnin Hroots He HW Hrep Ht. split.
  - intros x Hx. destruct (decide (x = p)) as [->|Hxp].
    + exists r. rewrite Ht, lookup_insert_eq. split_and!; [done| |].
      * eapply represents_nonzero; [exact Hrep|by eapply sound_new].
      * unfold stage. by rewrite decide_False.
    + destruct (Hroots x Hx) as (rx & Hrx & Hz & Hrepx). exists rx. rewrite Ht, lookup_insert_ne.
      2:{ intros Heq. by apply Hxp, (pl_inj _ Hpl). }
      split_and!; [done..|]. rewrite stage_cons_other in Hrepx by done. eapply represents_keeps; [done|exact He|].
      unfold stage. destruct (decide (x ∈ ps)).
      * by apply (sound_compatible T told tnew p x true).
      * by apply (sound_compatible T told tnew p x false).
  - intros x Hx. rewrite Ht, lookup_insert_ne; [done|]. intros Heq. by apply (Hx p Hp).
Qed.

Lemma roots_same T told tnew st p ps :
  under (scope T p) told = under (scope T p) tnew -> roots st T (stage T told tnew (p :: ps)) -> roots st T (stage T told tnew ps).
Proof.
  intros Heq Hr x Hx. destruct (Hr x Hx) as (r & Hl & Hz & Hrep). exists r. split_and!; [done..|].
  destruct (decide (x = p)) as [->|]; [|by rewrite stage_cons_other in Hrep].
  unfold stage in *. rewrite decide_True in Hrep by (by left). destruct (decide (p ∈ ps)); [done|]. by rewrite <- Heq.
Qed.

Lemma under_changes evt told tnew q rel :
  changes evt told tnew -> ev_Path evt = q +:+ rel -> rel <> "" ->
  match ev_ChangeType evt with
  | ChangeDeleted => under q tnew = delete rel (under q told)
  | _ => under q tnew = <[rel := ev_Hash evt]> (under q told)
  end.
Proof.
  unfold changes. intros -> -> Hr.
  destruct (ev_ChangeType evt); [by apply under_insert|by apply under_insert|apply under_delete].
Qed.

Lemma run_applyEventBody n st ctx T p evt depth k told tnew ps :
  tracker_of st = T -> placed T -> depth_ok T depth -> tree_sound T told tnew -> changes evt told tnew ->
  on T p -> p ∉ ps -> ev_Path evt <> scope T p -> roots st T (stage T told tnew (p :: ps)) ->
  exists st', run_hook (notifying cfg (S n)) (applyEventBody p evt depth k) st ctx = run_hook (notifying cfg (S n)) k st' ctx
    /\ tracker_of st' = T /\ off_roots T st st' /\ roots st' T (stage T told tnew ps).
Proof.
  intros HT Hpl Hd Hs Hch Hp Hnin Hne Hroots. unfold applyEventBody, this. cbn [run_hook]. fold (tracker_of st).
  replace (with_world st (world st)) with st by (by destruct st). rewrite HT, (pl_li _ Hpl). unfold li_Get.
  rewrite (proj1 (pl_root _ Hpl p Hp)). cbn [run_hook]. rewrite get_spec. fold (tree_at st).
  destruct (Hroots p Hp) as (r & -> & Hz & Hrep). unfold stage in Hrep. rewrite decide_True in Hrep by (by left).
  fold (scope T p). destruct (HasPrefix (ev_Path evt) (scope T p)) eqn:Hpre; cbn [negb].
  2:{ exists st. split_and!; [done|done|done|]. eapply roots_same; [|exact Hroots].
      rewrite Hch. by rewrite under_other. }
  apply HasPrefix_spec in Hpre as [rel Hrel]. rewrite Hrel, TrimPrefix_append.
  assert (Hrne : rel <> "") by (intros ->; rewrite append_nil_r in Hrel; done).
  destruct (apply_change_run evt (tw_store (world st)) r (under (scope T p) told) (under (scope T p) tnew) rel Hrep)
    as (s' & r' & W & Hrun & Hrep' & He & HW);
    [apply (ts_ok _ _ _ Hs p Hp)|apply (ts_ok _ _ _ Hs p Hp)|done|by eapply sound_new|by apply (ts_trie _ _ _ Hs)|by apply under_changes|].
  unfold on_store. cbn [run_hook]. rewrite Hrun. cbn [fst snd after_trie].
  set (st1 := with_world st (with_cs (world st) s')).
  assert (HT1 : tracker_of st1 = T) by exact HT.
  case_decide as Heq.
  - subst r'. exists st1. split_and!; [done|done|done|].
    eapply (roots_step T told tnew st st1 p ps r W); try done.
    symmetry. apply insert_id. by destruct (Hroots p Hp) as (r0 & Hr0 & _ & Hrep0); assert (r0 = r) as <- by
      (eapply represents_unique; [exact Hrep0|]; unfold stage; rewrite decide_True by (by left); exact Hrep).
  - destruct (run_writeRoot n st1 ctx T p r' depth k Hpl Hd Hp) as (st2 & Hrun2 & Ht2 & Hw2).
    exists st2. rewrite Hrun2. split; [done|]. split; [unfold tracker_of; by rewrite Hw2|].
    apply and_comm. eapply (roots_step T told tnew st st2 p ps r' W); try done; by rewrite Hw2.
Qed.

(** ** The hook *)

Lemma locks_restored T p :
  heldLocks T = ∅ -> with_locks (with_locks T ({[p]} ∪ heldLocks T)) (heldLocks (with_locks T ({[p]} ∪ heldLocks T)) ∖ {[p]}) = T.
Proof.
  destruct T as [a b c d e f g h]. cbn. intros ->. unfold with_locks. cbn. by rewrite union_empty_r_L, difference_diag_L.
Qed.

Lemma placed_locks T X : placed T -> placed (with_locks T X).
Proof. intros Hpl. destruct Hpl. by split. Qed.

Lemma run_applyEventWithDepth n st ctx T p evt depth k told tnew ps :
  tracker_of st = T -> heldLocks T = ∅ -> placed T -> depth_ok T depth -> tree_sound T told tnew -> changes evt told tnew ->
  on T p -> p ∉ ps -> ev_Path evt <> scope T p -> roots st T (stage T told tnew (p :: ps)) ->
  exists st', run_hook (notifying cfg (S n)) (applyEventWithDepth p evt depth k) st ctx
              = run_hook (notifying cfg (S n)) k st' ctx
    /\ tracker_of st' = T /\ off_roots T st st' /\ roots st' T (stage T told tnew ps).
Proof.
  intros HT Hl Hpl Hd Hs Hch Hp Hnin Hne Hroots. unfold applyEventWithDepth, this. cbn [run_hook]. fold (tracker_of st).
  replace (with_world st (world st)) with st by (by destruct st).
  rewrite HT, decide_False by (rewrite Hl; apply not_elem_of_empty). unfold locked. cbn [run_hook].
  set (st1 := with_world st (lock p (world st))).
  set (T1 := with_locks T ({[p]} ∪ heldLocks T)).
  assert (HT1 : tracker_of st1 = T1) by (unfold T1; rewrite <- HT; done).
  destruct (run_applyEventBody n st1 ctx T1 p evt depth (HWorld (unlock p) (fun _ => k)) told tnew ps HT1
              (placed_locks _ _ Hpl) Hd ltac:(destruct Hs; by split) Hch Hp Hnin Hne Hroots) as (st2 & Hrun & HT2 & Hoff & Hr2).
  rewrite Hrun. cbn [run_hook]. exists (with_world st2 (unlock p (world st2))). split_and!; [done| |exact Hoff|exact Hr2].
  unfold tracker_of, unlock. cbn [world with_world tw_tracker with_tracker]. fold (tracker_of st2). rewrite HT2.
  by apply locks_restored.
Qed.

Lemma run_each n evt depth T told tnew ps :
  placed T -> heldLocks T = ∅ -> depth_ok T depth -> tree_sound T told tnew -> changes evt told tnew ->
  NoDup ps -> (forall p, p ∈ ps -> on T p /\ ev_Path evt <> scope T p) -> forall st ctx,
  tracker_of st = T -> roots st T (stage T told tnew ps) ->
  exists st', run_hook (notifying cfg (S n)) (each (fun p => applyEventWithDepth p evt depth) ps (HReturn None)) st ctx
              = Some (st', ctx, None)
    /\ tracker_of st' = T /\ off_roots T st st' /\ roots st' T (stage T told tnew []).
Proof.
  intros Hpl Hl Hd Hs Hch. induction ps as [|p ps IH]; intros Hnd Hall st ctx HT Hroots; [by exists st|].
  apply NoDup_cons in Hnd as [Hnin Hnd]. destruct (Hall p ltac:(left)) as [Hp Hne]. cbn [each fold_right].
  fold (each (fun p => applyEventWithDepth p evt depth) ps (HReturn None)).
  destruct (run_applyEventWithDepth n st ctx T p evt depth (each (fun p => applyEventWithDepth p evt depth) ps (HReturn None))
              told tnew ps HT Hl Hpl Hd Hs Hch Hp Hnin Hne Hroots) as (st1 & -> & HT1 & Hoff1 & Hr1).
  destruct (IH Hnd (fun x Hx => Hall x ltac:(by right)) st1 ctx HT1 Hr1) as (st2 & -> & HT2 & Hoff2 & Hr2).
  exists st2. split_and!; [done|done| |done]. intros x Hx. by rewrite Hoff2, Hoff1.
Qed.

Lemma elem_of_enabled m p : p ∈ enabled_prefixes m <-> m !! p = Some true.
Proof.
  unfold enabled_prefixes. rewrite list_elem_of_fmap. split.
  - intros ([x b] & -> & Hin). apply list_elem_of_In, filter_In in Hin as [Hin Hb]. cbn in *. subst b.
    apply list_elem_of_In in Hin. rewrite visit_perm in Hin. by apply elem_of_map_to_list.
  - intros Hm. exists (p, true). split; [done|]. apply list_elem_of_In, filter_In. split; [|done].
    apply list_elem_of_In. rewrite visit_perm. by apply elem_of_map_to_list.
Qed.

Lemma NoDup_map_filter {A B} (f : A -> B) (P : A -> bool) l : NoDup (map f l) -> NoDup (map f (List.filter P l)).
Proof.
  induction l as [|x l IH]; [done|]. cbn [map List.filter]. intros [Hx Hl]%NoDup_cons.
  destruct (P x); [|by apply IH]. cbn [map]. apply NoDup_cons. split; [|by apply IH].
  intros (y & Hy & Hin)%list_elem_of_fmap. apply Hx, list_elem_of_fmap. exists y. split; [done|].
  apply list_elem_of_In, filter_In in Hin as [Hin _]. by apply list_elem_of_In.
Qed.

Lemma enabled_NoDup m : NoDup (enabled_prefixes m).
Proof. apply NoDup_map_filter. rewrite (visit_perm m). apply NoDup_fst_map_to_list. Qed.

Lemma NoDup_filter_bool {A} (P : A -> bool) l : NoDup l -> NoDup (List.filter P l).
Proof. intros Hl. rewrite <- (map_id (List.filter P l)). apply NoDup_map_filter. by rewrite map_id. Qed.

(** A path below the scope of a prefix is below the prefix. *)
Lemma scope_under T p path : placed T -> HasPrefix path (scope T p) = true -> pathUnderPrefix path p = true.
Proof.
  intros Hpl. unfold scope, qualified, pathUnderPrefix. destruct (HasPrefix p "/"); [done|].
  intros [r ->]%HasPrefix_spec. unfold QualifyPath. rewrite !append_assoc.
  change ("/" +:+ localPeerID T +:+ "/" +:+ p +:+ r) with (QualifyPath (localPeerID T) (p +:+ r)).
  rewrite SplitNamespace_Qualify by apply Hpl. cbn [snd]. apply HasPrefix_append.
Qed.

(** What the tracker does for a content event. *)
Lemma run_OnTreeChange n st ctx T evt told tnew :
  tracker_of st = T -> heldLocks T = ∅ -> placed T -> depth_ok T (event_depth evt) -> tree_sound T told tnew ->
  changes evt told tnew -> isSelfPath (ev_Path evt) = false -> isConfigPath (ev_Path evt) = false ->
  match Context_ evt with Some c => isFeedbackLoopHandler (HandlerPattern c) | None => false end = false ->
  (forall p, on T p -> ev_Path evt <> scope T p) ->
  roots st T (fun p => under (scope T p) told) ->
  exists st', run_hook (notifying cfg (S n)) (OnTreeChange evt) st ctx = Some (st', ctx, None)
    /\ tracker_of st' = T /\ off_roots T st st' /\ roots st' T (fun p => under (scope T p) tnew).
Proof.
  intros HT Hl Hpl Hd Hs Hch Hself Hconf Hfb Hne Hroots. unfold OnTreeChange. rewrite Hself, Hfb, Hconf.
  unfold this. cbn [run_hook]. fold (tracker_of st). replace (with_world st (world st)) with st by (by destruct st). rewrite HT.
  set (ps := List.filter (pathUnderPrefix (ev_Path evt)) (enabled_prefixes (tracked T))).
  assert (Hps : forall p, p ∈ ps <-> on T p /\ pathUnderPrefix (ev_Path evt) p = true).
  { intros p. unfold ps. rewrite list_elem_of_In, filter_In, <- list_elem_of_In, elem_of_enabled. done. }
  destruct (run_each n evt (event_depth evt) T told tnew ps Hpl Hl Hd Hs Hch) with (st := st) (ctx := ctx)
    as (st' & Hrun & HT' & Hoff & Hr'); [apply NoDup_filter_bool, enabled_NoDup| |exact HT| |].
  - intros p [Hp _]%Hps. split; [done|]. by apply Hne.
  - intros p Hp. destruct (Hroots p Hp) as (r & Hr & Hz & Hrep). exists r. split_and!; [done..|]. unfold stage.
    case_decide as Hin; [done|]. replace (under (scope T p) tnew) with (under (scope T p) told); [done|].
    rewrite Hch. symmetry. apply under_other. destruct (HasPrefix _ _) eqn:Hpre; [|done]. exfalso. apply Hin, Hps.
    split; [done|]. by eapply scope_under.
  - exists st'. split_and!; [done..|]. intros p Hp. destruct (Hr' p Hp) as (r & Hr & Hz & Hrep). exists r. split_and!; [done..|].
    unfold stage in Hrep. by rewrite decide_False in Hrep by apply not_elem_of_nil.
Qed.

(** ** Writes *)

Inductive Write :=
| WSet (path : string) (h : Hash) (ctx : option MutationContext)
| WRemove (path : string) (ctx : option MutationContext)
| WCompareAndSwap (path : string) (expected new : Hash)
| WCompareAndRemove (path : string) (expected : Hash).

Definition write_path (w : Write) : string :=
  match w with WSet p _ _ | WRemove p _ | WCompareAndSwap p _ _ | WCompareAndRemove p _ => p end.
Definition write_context (w : Write) : option MutationContext :=
  match w with WSet _ _ c | WRemove _ c => c | _ => None end.
(** The binding the write leaves at its path. *)
Definition write_value (w : Write) : option Hash :=
  match w with WSet _ h _ | WCompareAndSwap _ _ h => Some h | _ => None end.

Definition written (w : Write) t : gmap string Hash := partial_alter (fun _ => write_value w) (write_path w) t.

Definition after (ops : Ops L (TrackerWorld CS)) st (w : Write) : option (NotifyingState L (TrackerWorld CS)) :=
  match w with
  | WSet p h c => (fun r => fst (fst r)) <$> op_Set ops st p h c
  | WRemove p c => (fun r => fst (fst r)) <$> op_Remove ops st p c
  | WCompareAndSwap p e h => fst <$> op_CompareAndSwap ops st p e h
  | WCompareAndRemove p e => fst <$> op_CompareAndRemove ops st p e
  end.

(** The tracked roots are those of the tree. *)
Definition in_step st : Prop :=
  placed (tracker_of st) /\ heldLocks (tracker_of st) = ∅
  /\ roots st (tracker_of st) (fun p => under (scope (tracker_of st) p) (tree_at st)).

(** A write of content: not of a root or a tracking config, not by a consumer
    whose writes the tracker ignores, not exactly at a tracked prefix, and not so
    deep in a cascade that the write of the root would be refused. *)
Record content_write T (w : Write) : Prop := {
  cw_self : isSelfPath (write_path w) = false;
  cw_config : isConfigPath (write_path w) = false;
  cw_handler : match write_context w with Some c => isFeedbackLoopHandler (HandlerPattern c) | None => false end = false;
  cw_prefix p : on T p -> write_path w <> scope T p;
  cw_depth : depth_ok T (context_depth (write_context w))
}.

Definition event_of (w : Write) (evt : TreeChangeEvent) : Prop :=
  ev_Path evt = write_path w
  /\ match ev_ChangeType evt with ChangeDeleted => None | _ => Some (ev_Hash evt) end = write_value w.

Lemma root_other T w p : placed T -> content_write T w -> on T p -> write_path w <> root_at p.
Proof. intros Hpl Hw Hp He. pose proof (cw_self _ _ Hw) as Hs. rewrite He in Hs. destruct (pl_root _ Hpl p Hp). congruence. Qed.

(** Roots and scopes do not see a change at root paths. *)
Lemma under_off_roots T st st' p : placed T -> off_roots T st st' -> on T p -> under (scope T p) (tree_at st') = under (scope T p) (tree_at st).
Proof.
  intros Hpl Hoff Hp. apply under_ext. intros r _. apply Hoff. intros p' Hp' He.
  pose proof (pl_out _ Hpl p p' Hp Hp') as Ho. rewrite <- He, HasPrefix_append in Ho. done.
Qed.

(** The cascade of a committed write. *)
Lemma run_commit n st w l evt :
  in_step st -> content_write (tracker_of st) w -> tree_sound (tracker_of st) (tree_at st) (written w (tree_at st)) ->
  event_of w evt -> bindings l = written w (tree_at st) ->
  exists st' cr, runCascade cfg (notifying cfg (S n)) evt (write_context w) (with_ni_inner st l) = Some (st', write_context w, cr)
    /\ in_step st' /\ tracker_of st' = tracker_of st /\ off_roots (tracker_of st) (with_ni_inner st l) st'.
Proof.
  intros (Hpl & Hl & Hroots) Hw Hs [Hep Hev] Hb. set (T := tracker_of st) in *. unfold runCascade. rewrite only_tracker.
  cbn [cascade]. change (negb (pathMatchesPattern (Pattern tracker_hook) (ev_Path evt))) with false. cbv iota. cbn [Fn tracker_hook].
  set (evt' := with_context evt (write_context w)).
  destruct (run_OnTreeChange n (with_ni_inner st l) (write_context w) T evt' (tree_at st) (written w (tree_at st)))
    as (st' & -> & HT' & Hoff & Hr'); try done.
  - apply (cw_depth _ _ Hw).
  - unfold changes, evt'. cbn [ev_ChangeType with_context ev_Path ev_Hash]. by rewrite Hev, Hep.
  - unfold evt'. cbn [ev_Path with_context]. rewrite Hep. apply Hw.
  - unfold evt'. cbn [ev_Path with_context]. rewrite Hep. apply Hw.
  - apply Hw.
  - intros p Hp. unfold evt'. cbn [ev_Path with_context]. rewrite Hep. by apply (cw_prefix _ _ Hw).
  - intros p Hp. destruct (Hroots p Hp) as (r & Hr & Hz & Hrep). exists r. split_and!; [|done..].
    unfold tree_at at 1. cbn [ni_inner with_ni_inner]. rewrite Hb. unfold written.
    rewrite lookup_partial_alter_ne; [exact Hr|]. by eapply root_other.
  - cbn [halts]. eexists _, _. split; [done|]. split_and!; [|done|done]. unfold in_step. rewrite HT'. split_and!; [done..|].
    intros p Hp. destruct (Hr' p Hp) as (r & Hr & Hz & Hrep). exists r. split_and!; [done..|].
    rewrite (under_off_roots T (with_ni_inner st l) st' p) by done. unfold tree_at at 1. cbn [ni_inner with_ni_inner]. by rewrite Hb.
Qed.

(** A write that commits nothing keeps the roots. *)
Lemma in_step_same st l : in_step st -> bindings l = tree_at st -> in_step (with_ni_inner st l).
Proof.
  intros (Hpl & Hl & Hr) Hb. split_and!; [done..|]. intros p Hp. destruct (Hr p Hp) as (r & Hrr & Hz & Hrep).
  exists r. unfold tree_at. cbn [ni_inner with_ni_inner]. rewrite Hb. by split_and!.
Qed.

Lemma in_step_emit st evt : in_step st -> in_step (fst (emit st evt)).
Proof.
  destruct (emit_keeps st evt) as [Hi Hw]. intros (Hpl & Hl & Hr). unfold in_step, tracker_of, roots, tree_at.
  rewrite Hi, Hw. by split_and!.
Qed.

Lemma after_cas_in_step n st w l r evt :
  in_step st -> content_write (tracker_of st) w -> tree_sound (tracker_of st) (tree_at st) (written w (tree_at st)) ->
  event_of w evt -> write_context w = None ->
  bindings l = (match r with Ok _ => written w (tree_at st) | Err _ => tree_at st end) ->
  exists st', fst <$> after_cas cfg (notifying cfg (S n)) (with_ni_inner st l) r evt = Some st' /\ in_step st'.
Proof.
  intros Hst Hw Hs Hev Hc Hb. unfold after_cas. destruct r as [[]|e].
  - destruct (run_commit n st w l evt Hst Hw Hs Hev Hb) as (st' & cr & Hrun & Hin & _). rewrite Hc in Hrun. rewrite Hrun.
    pose proof (in_step_emit st' (with_context evt None) Hin) as He. destruct (emit st' _) as [st2 r2]. by exists st2.
  - exists (with_ni_inner st l). split; [done|]. by apply in_step_same.
Qed.

(** The bindings after a conditional write, by its verdict. *)
Lemma cas_bindings {A} (o : option Hash) e (x y : A) :
  (if decide (o = Some e) then x else y) = match cas_verdict o e with Ok _ => x | Err _ => y end.
Proof. unfold cas_verdict. destruct o as [c|]; [|done]. repeat case_decide; naive_solver. Qed.


(** ** Rebuilding *)

Lemma elem_of_relative l q k v :
  mkTuple k v ∈ relative_bindings q (List_ l q) <-> under q (bindings l) !! k = Some v.
Proof.
  rewrite under_lookup. unfold relative_bindings. rewrite list_elem_of_omap. split.
  - intros ([p h] & Hin%list_spec & Hb). destruct Hin as [Hl [r ->]%HasPrefix_spec]. cbn [le_Path le_Hash] in Hb.
    rewrite TrimPrefix_append in Hb. destruct (String.eqb_spec r ""); [done|]. by injection Hb as <- <-.
  - intros [Hk Hl]. exists (mkEntry (q +:+ k) v). split; [apply list_spec; auto with entity|]. cbn [le_Path le_Hash].
    rewrite TrimPrefix_append. by destruct (String.eqb_spec k "").
Qed.

Lemma relative_NoDup l q : NoDup (map Key (relative_bindings q (List_ l q))).
Proof.
  pose proof (proj2 (list_sorted l q)) as Hnd.
  assert (Hall : forall e, e ∈ List_ l q -> exists r, le_Path e = q +:+ r).
  { intros [p h] [_ Hp]%list_spec. by apply HasPrefix_spec. }
  revert Hnd Hall. unfold relative_bindings. induction (List_ l q) as [|e es IH]; intros Hnd Hall; [constructor|].
  cbn [map] in Hnd. apply NoDup_cons in Hnd as [He Hnd]. cbn [omap list_omap].
  specialize (IH Hnd (fun x Hx => Hall x ltac:(by right))). destruct (Hall e ltac:(left)) as [r Hr].
  rewrite Hr, TrimPrefix_append. destruct (String.eqb_spec r ""); [done|]. cbn [map Key]. apply NoDup_cons. split; [|done].
  intros ([k v] & Hk & ([p h] & Hx & Hb)%list_elem_of_omap)%list_elem_of_fmap. cbn [Key] in Hk. subst k.
  destruct (Hall _ ltac:(right; exact Hx)) as [r' Hr']. cbn [le_Path le_Hash] in *. rewrite Hr', TrimPrefix_append in Hb.
  destruct (String.eqb_spec r' ""); [done|]. injection Hb as <- <-. apply He, list_elem_of_fmap. exists (mkEntry p h). by rewrite Hr, <- Hr'.
Qed.

Lemma bind_relative l q : bind_all (relative_bindings q (List_ l q)) ∅ = under q (bindings l).
Proof.
  apply map_eq. intros k. apply option_eq. intros v. unfold bind_all. rewrite add_tuples_lookup.
  - rewrite elem_of_relative, lookup_empty. split; [by intros [?|?]|auto].
  - apply relative_NoDup.
  - intros t _. apply lookup_empty.
Qed.

(** The prefix can be listed as it is qualified, and its trie built. *)
Record buildable st (p : string) : Prop := {
  bd_scope : abs_path ns p = Some (scope (tracker_of st) p);
  bd_root : p <> "" /\ p <> "/";
  bd_ok : map_ok text_ok (under (scope (tracker_of st) p) (tree_at st));
  bd_trie : is_Some (root_node (under (scope (tracker_of st) p) (tree_at st)));
  bd_hash : steps_sound (relative_bindings (scope (tracker_of st) p) (List_ (ni_inner st) (scope (tracker_of st) p))) ∅
}.

Lemma run_BuildTrieForPrefix ops st ctx p :
  buildable st p -> exists st' r,
    (forall k, run_hook ops (BuildTrieForPrefix (localPeerID (tracker_of st)) ns p k) st ctx = run_hook ops (k (Ok r)) st' ctx)
    /\ represents (tw_store (world st')) r (under (scope (tracker_of st) p) (tree_at st))
    /\ tree_at st' = tree_at st /\ tracker_of st' = tracker_of st.
Proof.
  intros [Hsc [Hne Hns] Hok [m Hm] Hss]. unfold BuildTrieForPrefix, li_List.
  rewrite (proj2 (String.eqb_neq _ _) Hne), (proj2 (String.eqb_neq _ _) Hns), Hsc. cbn [orb].
  fold (scope (tracker_of st) p). set (q := scope (tracker_of st) p) in *.
  set (bs := relative_bindings q (List_ (ni_inner st) q)) in *.
  assert (Hbs : Forall (tuple_ok text_ok) bs).
  { apply Forall_forall. intros [k v] Hin%elem_of_relative. destruct (Hok k v Hin). done. }
  assert (Hbind : bind_all bs ∅ = under q (tree_at st)) by apply bind_relative.
  destruct (BuildTrie_run (tw_store (world st)) bs m Hbs Hss ltac:(by rewrite Hbind)) as (s' & r & Hrun & Hrep).
  exists (with_world st (with_cs (world st) s')), r. split_and!; [|by rewrite <- Hbind|done|done].
  intros k. unfold on_store. cbn [run_hook]. fold bs. by rewrite Hrun.
Qed.

Lemma run_Root ops st ctx p r k :
  placed (tracker_of st) -> on (tracker_of st) p -> tree_at st !! root_at p = Some r ->
  run_hook ops (Root p k) st ctx = run_hook ops (k (Some r)) st ctx.
Proof.
  intros Hpl Hp Hr. unfold Root, this. cbn [run_hook]. fold (tracker_of st).
  replace (with_world st (world st)) with st by (by destruct st). rewrite (pl_li _ Hpl).
  unfold enabled_in. rewrite Hp. unfold li_Get. rewrite (proj1 (pl_root _ Hpl p Hp)). cbn [run_hook]. rewrite get_spec.
  fold (tree_at st). by rewrite Hr.
Qed.

(** The root answered without a build is the root a build gives. When the
    tracked roots are those of the tree, [Root] answers the hash that
    [BuildTrieForPrefix] computes from the live bindings, and [CurrentRoot]
    answers it too, whether or not events are pending. *)
Theorem tracked_root_is_rebuild (ops : Ops L (TrackerWorld CS)) (st : NotifyingState L (TrackerWorld CS))
    (ctx : option MutationContext) (p : string) :
  in_step st -> on (tracker_of st) p -> buildable st p ->
  exists r st' st'', (forall k, run_hook ops (Root p k) st ctx = run_hook ops (k (Some r)) st ctx)
    /\ (forall k, run_hook ops (BuildTrieForPrefix (localPeerID (tracker_of st)) ns p k) st ctx = run_hook ops (k (Ok r)) st' ctx)
    /\ (forall k, run_hook ops (CurrentRoot p k) st ctx = run_hook ops (k (Some r)) st'' ctx)
    /\ tree_at st' = tree_at st /\ tree_at st'' = tree_at st.
Proof.
  intros (Hpl & _ & Hroots) Hp Hb. destruct (Hroots p Hp) as (r & Hr & _ & Hrep).
  destruct (run_BuildTrieForPrefix ops st ctx p Hb) as (st1 & r1 & Hrun & Hrep1 & Ht1 & _).
  assert (r1 = r) as -> by (eapply represents_unique; eauto).
  exists r, st1, (if 0 <? match pending (tracker_of st) !! p with Some n => n | None => 0 end then st1 else st).
  split_and!; [intros k; by apply run_Root|exact Hrun| |done|by destruct (0 <? _)].
  intros k. unfold CurrentRoot, this. cbn [run_hook]. fold (tracker_of st).
  replace (with_world st (world st)) with st by (by destruct st).
  destruct (0 <? _); cbn [negb]; [|by apply run_Root]. rewrite (pl_li _ Hpl). unfold enabled_in. rewrite Hp.
  by rewrite Hrun.
Qed.
End sync.
