(* ===== verification/RootSample.v ===== *)
(** * The root tracker at work

    A notifying index over the in-memory index with the tracker as its hook:
    the theorems on a small tree, and runs in which a tracked root does not
    follow. *)

From Stdlib Require Import Ascii.
From S2P Require Import Prelude GoStrings Sha2 Errors Hash Entity PeerID Paths Store Notifying Trie TrieSpec TrieCanon TrieMap TrieRemove TrieDiff TrieSample RootTracker RootSync.

Open Scope Z_scope.

Module RootSample.
#[local] Existing Instances toy_hashable memory_content_store memory_content_store_laws node_codec storage.

Definition config_data : TrackingConfigData := {| tc_Prefix := "data/"; Enabled := true |}.
#[local] Instance runtime : TrackerRuntime := {|
  DecodeTrackingConfig d := if decide (d = [Byte.x01]) then Some config_data else None;
  visit m := map_to_list m; visit_perm m := reflexivity _ |}.

Definition W : Type := TrackerWorld MemoryContentStore.
Definition State : Type := NotifyingState MemoryLocationIndex W.
Definition cfg : NotifyingConfig W := {| namedHooks := [tracker_hook]; maxCascadeDepth := 32 |}.
Definition ops : Ops MemoryLocationIndex W := notifying cfg 3.

Definition background : MutationContext := {|
  AuthorHash := zero_hash; CapabilityHash := zero_hash; CallerCapabilityHash := zero_hash; HandlerPattern := "system/tree";
  mc_Operation := "track"; ChainID := ""; ParentChainID := ""; CascadeDepth := None; Clock := []; ClockType := "" |}.

Definition tracker (prefix : string) : RootTracker := {|
  localPeerID := sample_peer; rt_li := Some sample_peer; tracked := {[ prefix := true ]}; bgCtx := Some background;
  identity := zero_hash; heldLocks := ∅; pending := ∅; deferred := [] |}.

(** A peer that tracks [prefix], before its first build. *)
Definition boot (prefix : string) : State := {|
  ni_inner := ∅; events := []; capacity := 16; done_ := false; suppressEmit := false; droppedEvents := 0;
  world := {| tw_store := ∅; tw_tracker := tracker prefix |} |}.

Definition exec (p : HookProg W) (st : State) : option State := (fun r => fst (fst r)) <$> run_hook ops p st None.
Definition built (prefix : string) : option State := exec (rebuild prefix (HReturn None)) (boot prefix).

(** The bound root, and the root a build of the live tree gives. *)
Definition bound (prefix : string) (st : State) : option Hash := tree_at st !! root_at sample_peer prefix.
Definition live (prefix : string) (st : State) : res TrieErr Hash :=
  let q := qualified sample_peer prefix in
  snd (BuildTrie (tw_store (world st)) (relative_bindings q (List_ (ni_inner st) q))).

Definition path (p : string) : string := "/" +:+ sample_peer +:+ "/" +:+ p.
Definition value (b : byte) : Hash := toy_hash "value" [b].
Definition set (p : string) (b : byte) (ctx : option MutationContext) (st : State) : option State :=
  after ops st (WSet (path p) (value b) ctx).

Definition follows (prefix : string) (st : option State) : option bool :=
  st ← st; r ← bound prefix st; 
  match live prefix st with Ok r' => Some (bool_decide (r = r')) | Err _ => None end.

(** ** Roots that do not follow *)

(** A tracked prefix without a trailing slash that is itself bound: the event
    adds the empty key to the trie, a build skips it. *)
Lemma bound_prefix_diverges :
  follows "data" (built "data") = Some true /\ follows "data" (built "data" ≫= set "data" Byte.x01 None) = Some false.
Proof. vm_compute. by split. Qed.

(** At the last allowed depth the write commits and its report is complete, but
    the write of the root is refused, and the root stays behind. *)
Definition deep : option MutationContext := Some (with_depth background (Some 31)).
Lemma deep_root_dropped :
  follows "data/" (built "data/" ≫= set "data/x" Byte.x01 deep) = Some false
  /\ match built "data/" ≫= (fun st => op_Set ops st (path "data/x") (value Byte.x01) deep) with
     | Some (_, cr, r) => IsComplete cr = true /\ r = Ok tt
     | None => False
     end.
Proof. vm_compute. by split. Qed.

(** Two writes to one path while the mutex of the prefix is taken; their
    goroutines get the mutex in the other order. *)
Definition during_rebuild (st : State) : State := with_world st (lock "data/" (world st)).
Definition rebuild_ends (st : State) : State := with_world st (unlock "data/" (world st)).
Definition two_deferred : option State :=
  st ← built "data/"; st ← set "data/x" Byte.x01 None (during_rebuild st); st ← set "data/x" Byte.x02 None st; Some (rebuild_ends st).
Definition landed (order : list nat) : option State :=
  foldl (fun st i => st ≫= exec (land i (HReturn None))) two_deferred order.

Lemma deferred_events_reorder :
  follows "data/" (landed [0; 0]%nat) = Some true /\ follows "data/" (landed [1; 0]%nat) = Some false
  /\ match landed [1; 0]%nat with
     | Some st => pending (tracker_of st) !! "data/" = Some 0 /\ deferred (tracker_of st) = []
     | None => False
     end.
Proof. vm_compute. by split_and!. Qed.

(** A write by a consumer the tracker ignores: a build counts it. *)
Definition history : option MutationContext := Some {|
  AuthorHash := zero_hash; CapabilityHash := zero_hash; CallerCapabilityHash := zero_hash; HandlerPattern := "system/history";
  mc_Operation := "record"; ChainID := ""; ParentChainID := ""; CascadeDepth := Some 1; Clock := []; ClockType := "" |}.
Lemma ignored_writes_diverge : follows "log/" (built "log/" ≫= set "log/x" Byte.x01 history) = Some false.
Proof. vm_compute. done. Qed.

(** ** The theorems on a tracked prefix *)

Definition empty_store : MemoryContentStore := fst (StoreTrieNode (∅ : MemoryContentStore) EmptyNode).
Definition empty_root : Hash := match snd (StoreTrieNode (∅ : MemoryContentStore) EmptyNode) with Ok r => r | Err _ => zero_hash end.
Definition start : State := {|
  ni_inner := {[ root_at sample_peer "data/" := empty_root ]}; events := []; capacity := 16; done_ := false;
  suppressEmit := false; droppedEvents := 0; world := {| tw_store := empty_store; tw_tracker := tracker "data/" |} |}.
Definition write : Write := WSet (path "data/x") (value Byte.x01) None.

Lemma only_data p : on (tracker "data/") p -> p = "data/".
Proof. unfold on. cbn. by intros [-> _]%lookup_singleton_Some. Qed.

Lemma start_placed : placed (L := MemoryLocationIndex) sample_peer (tracker "data/").
Proof.
  split.
  - reflexivity.
  - vm_compute. reflexivity.
  - intros p ->%only_data. vm_compute. by split.
  - intros p p' ->%only_data ->%only_data. done.
  - intros p p' ->%only_data ->%only_data. vm_compute. reflexivity.
  - done.
Qed.

Lemma nothing_under : under (scope (tracker "data/") "data/") (tree_at start) = ∅.
Proof. apply (bool_decide_eq_true_1 _). vm_compute. reflexivity. Qed.

Lemma start_represents : represents empty_store empty_root ∅.
Proof.
  destruct (represents_empty (∅ : MemoryContentStore)) as (s & r & Hst & Hrep).
  unfold empty_store, empty_root. rewrite Hst. exact Hrep.
Qed.

Lemma start_in_step : in_step (L := MemoryLocationIndex) sample_peer start.
Proof.
  split; [exact start_placed|]. split; [reflexivity|]. intros p ->%only_data. exists empty_root. split; [apply lookup_singleton_eq|].
  split; [apply (bool_decide_eq_true_1 _); vm_compute; reflexivity|]. change (tracker_of start) with (tracker "data/").
  rewrite nothing_under. exact start_represents.
Qed.

Lemma start_content : content_write cfg (tracker "data/") write.
Proof.
  split.
  - vm_compute. reflexivity.
  - vm_compute. reflexivity.
  - reflexivity.
  - intros p ->%only_data. vm_compute. discriminate.
  - vm_compute. reflexivity.
Qed.

Definition one : gmap string Hash := {[ "x" := value Byte.x01 ]}.
Lemma one_under : under (scope (tracker "data/") "data/") (written write (tree_at start)) = one.
Proof. apply (bool_decide_eq_true_1 _). vm_compute. reflexivity. Qed.

Lemma one_ok : map_ok any_text one.
Proof. intros k v. unfold one. intros [<- <-]%lookup_singleton_Some. split; [done|]. apply Bindings.value_wire. Qed.

Lemma start_sound : tree_sound (text_ok := any_text) (tracker "data/") (tree_at start) (written write (tree_at start)).
Proof.
  split.
  - intros p ->%only_data. rewrite nothing_under, one_under. split; [by intros k v ?%lookup_empty_Some|apply one_ok].
  - intros p ->%only_data. rewrite one_under. apply (bool_decide_eq_true_1 _). vm_compute. reflexivity.
  - intros p p' ->%only_data ->%only_data. rewrite nothing_under, one_under.
    apply hash_sound_again, Bindings.sound_spec. vm_compute. reflexivity.
Qed.


Lemma start_buildable : buildable (text_ok := any_text) sample_peer start "data/".
Proof.
  split; change (tracker_of start) with (tracker "data/"); rewrite ?nothing_under.
  - vm_compute. reflexivity.
  - by split.
  - by intros k v ?%lookup_empty_Some.
  - apply (bool_decide_eq_true_1 _). vm_compute. reflexivity.
  - intros i Hi. replace (relative_bindings _ _) with (@nil BucketTuple) in * by (vm_compute; reflexivity).
    rewrite take_nil. apply Bindings.sound_spec. vm_compute. reflexivity.
Qed.

Lemma tracked_root_is_rebuild_witness :
  exists r st', (forall k, run_hook ops (Root "data/" k) start None = run_hook ops (k (Some r)) start None)
    /\ forall k, run_hook ops (BuildTrieForPrefix sample_peer sample_peer "data/" k) start None = run_hook ops (k (Ok r)) st' None.
Proof.
  destruct (tracked_root_is_rebuild (L := MemoryLocationIndex) (text_ok := any_text) sample_peer ops start None "data/")
    as (r & st' & st'' & Hr & Hb & _).
  - exact start_in_step.
  - apply lookup_singleton_eq.
  - exact start_buildable.
  - exists r, st'. exact (conj Hr Hb).
Defined.
End RootSample.
