(* ===== verification/TreeOps.v ===== *)
(** * Snapshot, diff, merge and extract ([core/tree/operations.go])

    The bulk operations of the tree handler, over the snapshot trie.  [None] is
    a trie walk that does not return.  The order in which a range visits the
    bindings of a snapshot is given by [BindingOrder]. *)

From Stdlib Require Import Ascii.
From S2P Require Import Prelude GoStrings Errors Hash Entity PeerID Paths CapTypes Patterns Check Delegation Revoked Store Notifying Handlers TreeIndex Trie RootTracker TreeHandler.

Open Scope Z_scope.

Class BindingOrder := {
  bindings_range : nat -> gmap string Hash -> list (string * Hash);
  bindings_range_perm site m : bindings_range site m ≡ₚ map_to_list m
}.

Definition no_snapshot : SnapshotRequestData := {| sr_Prefix := "" |}.
Definition no_diff_req : DiffRequestData := {| dr_Base := zero_hash; dr_Target := zero_hash |}.
Definition no_merge : MergeRequestData := {|
  mr_Source := zero_hash; SourceEnvelope := []; Strategy := ""; SourcePrefix := ""; TargetPrefix := ""; DryRun := None |}.
Definition no_extract : ExtractRequestData := {| er_Prefix := ""; er_Paths := []; Since := zero_hash |}.

Definition TypeTreeSnapshot : string := "system/tree/snapshot".

(** ** Prefixes *)

Definition validatePrefix (prefix : string) : bool := String.eqb prefix "" || HasSuffix prefix "/".

Definition remap (fullPath sourcePrefix targetPrefix : string) : string :=
  if String.eqb sourcePrefix "" || String.eqb targetPrefix "" then fullPath
  else if HasPrefix fullPath sourcePrefix then targetPrefix +:+ str_drop (slen sourcePrefix) fullPath
  else fullPath.

Definition applyPrefix (relPath sourcePrefix targetPrefix : string) : string :=
  if negb (String.eqb targetPrefix "") then targetPrefix +:+ relPath
  else if negb (String.eqb sourcePrefix "") then sourcePrefix +:+ relPath
  else relPath.

Definition resolveAbsolutePrefix (prefix localPeerID : string) : string :=
  if HasPrefix prefix "/" then prefix else "/" +:+ localPeerID +:+ "/" +:+ prefix.

Section ops.
Context {CS L IX : Type} `{ContentStoreLaws CS} `{LocationIndex L} `{CapabilityIndex IX} `{Base58, DataCodec, TreeCodec, NodeCodec}.
Context `{MapOrder, BindingOrder}.
Implicit Types (hctx : HandlerContext) (st : TreeState CS L IX).

Definition snapshot_of (ent : Entity) : option Hash :=
  if String.eqb (Type_ ent) TypeTreeSnapshot then DecodeSnapshot (Data ent) else None.

Definition resolveSnapshot hctx (cs : CS) (h : Hash) : option Hash :=
  match cs_Get cs h ≫= snapshot_of with
  | Some root => Some root
  | None => hc_Included hctx !! h ≫= snapshot_of
  end.

(** [SnapshotData.ToEntity]. *)
Definition snapshot_entity (root : Hash) : result Entity :=
  match EncodeSnapshot root with
  | None => Err []
  | Some raw => Ent.NewEntity node_format TypeTreeSnapshot raw
  end.

(** The prefix of a broad operation: the first effective target, or the one of
    the parameters; [None] when every target was excluded. *)
Definition broad_prefix hctx (fallback : string) : option string :=
  if all_excluded hctx then None
  else Some (match hc_EffectiveTargets hctx with [] => fallback | t :: _ => t end).

(** The bindings below a prefix that the caller may get. *)
Definition visible_bindings (now : Z) hctx st (prefix : string) : list BucketTuple :=
  let q := QualifyPath (hc_LocalPeerID hctx) prefix in
  omap (fun e => let rel := TrimPrefix (le_Path e) q in
                 if String.eqb rel "" then None
                 else if checkPathPerm now hctx (ts_Store st) "get" (le_Path e) then Some (mkTuple rel (le_Hash e)) else None)
       (List_ (ts_Index st) prefix).

(** ** Snapshot *)

(** [RootTracker.Root], read through the index of the context. *)
Definition tracker_root (t : option RootTracker) (li : L) (prefix : string) : Hash :=
  match t with
  | Some t =>
      match rt_li t with
      | Some _ =>
          if enabled_in (tracked t) prefix then match Get li (root_path prefix) with Some r => r | None => zero_hash end
          else zero_hash
      | None => zero_hash
      end
  | None => zero_hash
  end.

Definition handleSnapshot (now : Z) (tracker : option RootTracker) hctx st (params : list byte)
  : option (TreeState CS L IX * Answer) :=
  match decode_params no_snapshot DecodeSnapshotRequest params with
  | None => Some (st, refuse 400 "invalid_params")
  | Some snapReq =>
  match broad_prefix hctx (sr_Prefix snapReq) with
  | None => Some (st, refuse 400 "path_required")
  | Some prefix =>
  if negb (validatePrefix prefix) then Some (st, refuse 400 "invalid_prefix")
  else if negb (checkPathPerm now hctx (ts_Store st) "get" prefix) then Some (st, refuse 403 "capability_denied")
  else
    let root := if has_caller hctx then zero_hash else tracker_root tracker (ts_Index st) prefix in
    if negb (IsZero root) then Some (st, let! _ := snapshot_entity root in serve (RSnapshot root))
    else
      let '(cs, r) := BuildTrie (ts_Store st) (visible_bindings now hctx st prefix) in
      let st := with_store st cs in
      match r with
      | Err TriePanic | Err TrieDiverges => None
      | Err _ => Some (st, refuse 500 "internal_error")
      | Ok root => Some (st, let! _ := snapshot_entity root in serve (RSnapshot root))
      end
  end
  end.

(** ** Diff *)

Definition handleDiff hctx st (params : list byte) : option Answer :=
  match decode_params no_diff_req DecodeDiffRequest params with
  | None => Some (refuse 400 "invalid_params")
  | Some req =>
  if IsZero (dr_Base req) || IsZero (dr_Target req) then Some (refuse 400 "invalid_params")
  else match resolveSnapshot hctx (ts_Store st) (dr_Base req) with
  | None => Some (refuse 404 "snapshot_not_found")
  | Some base =>
  match resolveSnapshot hctx (ts_Store st) (dr_Target req) with
  | None => Some (refuse 404 "snapshot_not_found")
  | Some target =>
      match TrieDiff (ts_Store st) base target with
      | Err _ => None
      | Ok d => Some (serve (RDiff (dr_Base req) (dr_Target req) d))
      end
  end
  end
  end.

(** ** Merge *)

(** The envelope of [source_envelope]: an entity around an envelope, or an envelope. *)
Definition decode_source (raw : list byte) : option Envelope :=
  let bare := match DecodeEnvelopeData raw with
              | Some env => if String.eqb (Type_ (Entity.Root env)) "" then None else Some env
              | None => None
              end in
  match DecodeEntityErr raw with
  | Ok ent => if String.eqb (Type_ ent) "" then bare else DecodeEnvelopeData (Data ent)
  | Err _ => bare
  end.

Fixpoint ingest (cs : CS) (l : list (Hash * Entity)) : CS * bool :=
  match l with
  | [] => (cs, true)
  | (_, ent) :: rest =>
      match cs_Put cs ent with
      | (cs, Ok _) => ingest cs rest
      | (cs, Err _) => (cs, false)
      end
  end.

(** The source of the merge: its snapshot, or the answer. *)
Definition merge_source (cs : CS) (req : MergeRequestData) : CS * res Answer Hash :=
  match SourceEnvelope req with
  | [] => (cs, Ok (mr_Source req))
  | raw =>
      match decode_source raw with
      | None => (cs, Err (refuse 400 "invalid_params"))
      | Some env =>
          if negb (is_ok (Env.VerifyIncludedKeyBinding (Included env))) then (cs, Err (refuse 400 "invalid_params"))
          else match ingest cs (map_range 2 [] (Included env)) with
          | (cs, false) => (cs, Err (refuse 400 "invalid_params"))
          | (cs, true) =>
              match cs_Put cs (Entity.Root env) with
              | (cs, Err _) => (cs, Err (refuse 500 "internal_error"))
              | (cs, Ok h) => (cs, Ok h)
              end
          end
      end
  end.

Definition target_path (req : MergeRequestData) (relPath : string) : string :=
  applyPrefix relPath (SourcePrefix req) (TargetPrefix req).

(** The first target path that is malformed or that the caller may not put to. *)
Fixpoint merge_precheck (now : Z) hctx (cs : CS) (req : MergeRequestData) (l : list (string * Hash)) : option Answer :=
  match l with
  | [] => None
  | (relPath, _) :: rest =>
      let p := target_path req relPath in
      if negb (is_ok (ValidateAbsolutePath (Canonicalize p (hc_LocalPeerID hctx)))) then Some (refuse 400 "invalid_path")
      else if negb (checkPathPerm now hctx cs "put" p) then Some (refuse 403 "capability_denied")
      else merge_precheck now hctx cs req rest
  end.

Record MergeState := {
  ms_State : TreeState CS L IX; ms_Applied : Z; ms_Skipped : Z; ms_Conflicts : gmap string MergeConflictData;
  cascadeIncomplete : list CascadeResult
}.

(** [TreeSet] unless it is a dry run, and the count; a failure keeps the state
    it left. *)
Definition merge_write (now : Z) (cw : option (ContextualWriter L)) hctx (dryRun : bool) (m : MergeState) (p : string) (h : Hash)
  : res (TreeState CS L IX) MergeState :=
  let m' st cr := {| ms_State := st; ms_Applied := u64 (ms_Applied m + 1); ms_Skipped := ms_Skipped m;
                     ms_Conflicts := ms_Conflicts m;
                     cascadeIncomplete := cascadeIncomplete m ++ match cr with
                       | Some c => if IsComplete cr then [] else [c] | None => [] end |} in
  if dryRun then Ok (m' (ms_State m) None)
  else match TreeSet now cw hctx (ms_State m) p h "merge" with
  | (st, cr, Ok _) => Ok (m' st cr)
  | (st, _, Err _) => Err st
  end.

Definition merge_skip (m : MergeState) : MergeState := {|
  ms_State := ms_State m; ms_Applied := ms_Applied m; ms_Skipped := u64 (ms_Skipped m + 1); ms_Conflicts := ms_Conflicts m;
  cascadeIncomplete := cascadeIncomplete m |}.

Definition merge_conflict (m : MergeState) (p : string) (existing incoming : Hash) (resolution : string) : MergeState := {|
  ms_State := ms_State m; ms_Applied := ms_Applied m; ms_Skipped := ms_Skipped m;
  ms_Conflicts := <[p := {| ExistingHash := existing; IncomingHash := incoming; Resolution := resolution |}]> (ms_Conflicts m);
  cascadeIncomplete := cascadeIncomplete m |}.

(** One binding of the source. *)
Definition merge_binding (now : Z) (cw : option (ContextualWriter L)) hctx (strategy : string) (dryRun : bool) (m : MergeState)
    (p : string) (incoming : Hash) : res (TreeState CS L IX) MergeState :=
  match Get (ts_Index (ms_State m)) p with
  | None => merge_write now cw hctx dryRun m p incoming
  | Some existing =>
      if decide (existing = incoming) then Ok (merge_skip m)
      else if String.eqb strategy "source-wins" then
        let! m := merge_write now cw hctx dryRun m p incoming in Ok (merge_conflict m p existing incoming "used-incoming")
      else if String.eqb strategy "target-wins" then Ok (merge_conflict (merge_skip m) p existing incoming "kept-existing")
      else Ok (merge_conflict (merge_skip m) p existing incoming "unresolved")
  end.

(** The loop; an error leaves the writes made so far. *)
Fixpoint merge_loop (now : Z) (cw : option (ContextualWriter L)) hctx (req : MergeRequestData) (strategy : string) (dryRun : bool)
    (m : MergeState) (l : list (string * Hash)) : res (TreeState CS L IX) MergeState :=
  match l with
  | [] => Ok m
  | (relPath, incoming) :: rest =>
      match merge_binding now cw hctx strategy dryRun m (target_path req relPath) incoming with
      | Err st => Err st
      | Ok m => merge_loop now cw hctx req strategy dryRun m rest
      end
  end.

Definition merge_strategy (req : MergeRequestData) : string :=
  if String.eqb (Strategy req) "" then "no-overwrite" else Strategy req.
Definition known_strategy (s : string) : bool :=
  String.eqb s "no-overwrite" || String.eqb s "source-wins" || String.eqb s "target-wins".
Definition dry_run (req : MergeRequestData) : bool := match DryRun req with Some b => b | None => false end.

Definition merge_result (strategy : string) (m : MergeState) : TreeResult :=
  RMerge {| Applied := ms_Applied m; mr_Skipped := ms_Skipped m; Conflicts := ms_Conflicts m; mr_Strategy := strategy |}.

Definition merge_start st : MergeState := {|
  ms_State := st; ms_Applied := 0; ms_Skipped := 0; ms_Conflicts := ∅; cascadeIncomplete := [] |}.

Definition handleMerge (now : Z) (cw : option (ContextualWriter L)) hctx st (params : list byte)
  : option (TreeState CS L IX * Answer) :=
  match decode_params no_merge DecodeMergeRequest params with
  | None => Some (st, refuse 400 "invalid_params")
  | Some req =>
  let '(cs, src) := merge_source (ts_Store st) req in
  let st := with_store st cs in
  match src with
  | Err a => Some (st, a)
  | Ok source =>
  if IsZero source then Some (st, refuse 400 "invalid_params")
  else if negb (known_strategy (merge_strategy req)) then Some (st, refuse 400 "invalid_params")
  else match resolveSnapshot hctx cs source with
  | None => Some (st, refuse 404 "snapshot_not_found")
  | Some root =>
  match CollectAllBindings cs root "" with
  | None => None
  | Some sourceBindings =>
  match merge_precheck now hctx cs req (bindings_range 0 sourceBindings) with
  | Some a => Some (st, a)
  | None =>
  match merge_loop now cw hctx req (merge_strategy req) (dry_run req) (merge_start st) (bindings_range 1 sourceBindings) with
  | Err st => Some (st, Err [])
  | Ok m =>
      Some (ms_State m,
        match cascadeIncomplete m with
        | cr :: _ => finish (Some cr) (merge_result (merge_strategy req) m)
        | [] => serve (merge_result (merge_strategy req) m)
        end)
  end
  end
  end
  end
  end
  end.

(** ** Closures of a trie *)

(** The recursion of the three collectors: [pre] is what a node does before it
    is decoded ([None] returns at once), [on_bucket] what its buckets do. *)
Fixpoint visit_trie {A} (pre : Hash -> A -> option A) (on_bucket : A -> list BucketTuple -> A) (fuel : nat) (cs : CS)
    (nodeHash : Hash) (acc : A) : option A :=
  match fuel with
  | O => None
  | S fuel' =>
      match pre nodeHash acc with
      | None => Some acc
      | Some acc =>
          match LoadTrieNode cs nodeHash with
          | None => Some acc
          | Some node =>
              (fix go (acc : A) (entries : list NodeEntry) : option A :=
                 match entries with
                 | [] => Some acc
                 | BucketEntry b :: rest => go (on_bucket acc b) rest
                 | LinkEntry h :: rest =>
                     match visit_trie pre on_bucket fuel' cs h acc with None => None | Some acc => go acc rest end
                 end) acc (Data_ node)
          end
      end
  end.

Definition closure_fuel (cs : CS) : nat := S (links_fuel cs).

Definition collectTrieEntities (cs : CS) (nodeHash : Hash) (collected : gmap Hash Entity) : option (gmap Hash Entity) :=
  visit_trie (fun h acc => match cs_Get cs h with None => None | Some ent => Some (<[h := ent]> acc) end)
    (fun acc _ => acc) (closure_fuel cs) cs nodeHash collected.

Definition CollectReachableHashes (cs : CS) (nodeHash : Hash) (collected : gset Hash) : option (gset Hash) :=
  visit_trie (fun h acc => if decide (h ∈ acc) then None else Some ({[h]} ∪ acc))
    (fun acc b => foldl (fun acc t => {[ValueHash t]} ∪ acc) acc b) (closure_fuel cs) cs nodeHash collected.

Definition CollectTrieEntitiesExcept (cs : CS) (nodeHash : Hash) (skip : gset Hash) (collected : gmap Hash Entity)
  : option (gmap Hash Entity) :=
  visit_trie
    (fun h acc =>
       if decide (h ∈ skip) then None
       else match acc !! h with
       | Some _ => None
       | None => match cs_Get cs h with None => None | Some ent => Some (<[h := ent]> acc) end
       end)
    (fun acc b =>
       foldl (fun acc t =>
         if decide (ValueHash t ∈ skip) then acc
         else match cs_Get cs (ValueHash t) with Some ent => <[ValueHash t := ent]> acc | None => acc end) acc b)
    (closure_fuel cs) cs nodeHash collected.

(** ** Extract *)

(** The bindings named by [paths], that the caller may get. *)
Definition named_bindings (now : Z) hctx st (prefix : string) (paths : list string) : list BucketTuple :=
  omap (fun relPath =>
          let fullPath := prefix +:+ relPath in
          if checkPathPerm now hctx (ts_Store st) "get" fullPath then
            match Get (ts_Index st) fullPath with Some h => Some (mkTuple relPath h) | None => None end
          else None) paths.

(** The envelope of a snapshot root. *)
Definition envelope_answer (root : Hash) (included : gmap Hash Entity) : Answer :=
  let! snap := snapshot_entity root in serve (RExtract (mkEnvelope snap included)).

Definition bundle_values (cs : CS) (bs : list BucketTuple) (included : gmap Hash Entity) : gmap Hash Entity :=
  foldl (fun included b => match cs_Get cs (ValueHash b) with Some ent => <[ValueHash b := ent]> included | None => included end) included bs.

Definition extract_bindings st (bs : list BucketTuple) : option (TreeState CS L IX * Answer) :=
  let '(cs, r) := BuildTrie (ts_Store st) bs in
  let st := with_store st cs in
  match r with
  | Err TriePanic | Err TrieDiverges => None
  | Err _ => Some (st, refuse 500 "internal_error")
  | Ok root =>
      match snapshot_entity root with
      | Err e => Some (st, Err e)
      | Ok _ =>
          match collectTrieEntities cs root ∅ with
          | None => None
          | Some included => Some (st, envelope_answer root (bundle_values cs bs included))
          end
      end
  end.

Definition revisionHeadPath (absPrefix : string) : string :=
  let h := match Compute_ "system/tree/path" (EncodeText absPrefix) with Ok h => h | Err _ => zero_hash end in
  "system/revision/" +:+ hex_encode (Bytes h) +:+ "/head".

Definition revision_of (cs : CS) (h : Hash) : option (Hash * list Hash) := cs_Get cs h ≫= fun ent => DecodeRevision (Data ent).

(** The current root and whether it is a revision's. *)
Definition resolveCurrentTrieRoot hctx st (prefix : string) : CS * res TrieErr (Hash * bool) :=
  let headPath := revisionHeadPath (resolveAbsolutePrefix prefix (hc_LocalPeerID hctx)) in
  match Get (ts_Index st) headPath with
  | Some headHash =>
      (ts_Store st, match revision_of (ts_Store st) headHash with
                    | Some (root, _) => Ok (root, true)
                    | None => Err (TrieMissing headHash)
                    end)
  | None =>
      let q := QualifyPath (hc_LocalPeerID hctx) prefix in
      match relative_bindings q (List_ (ts_Index st) prefix) with
      | [] => (ts_Store st, Ok (zero_hash, false))
      | bs => let '(cs, r) := BuildTrie (ts_Store st) bs in (cs, let! root := r in Ok (root, false))
      end
  end.

(** One level of the breadth-first walk: the found verdict, or the next queue. *)
Fixpoint dag_level (cs : CS) (since : Hash) (visited : gset Hash) (queue next : list Hash) : bool * gset Hash * list Hash :=
  match queue with
  | [] => (false, visited, next)
  | vh :: rest =>
      if decide (vh ∈ visited) then dag_level cs since visited rest next
      else
        let visited := {[vh]} ∪ visited in
        match revision_of cs vh with
        | None => dag_level cs since visited rest next
        | Some (root, parents) =>
            if decide (root = since) then (true, visited, next) else dag_level cs since visited rest (next ++ parents)
        end
  end.

Fixpoint dag_walk (depth : nat) (cs : CS) (since : Hash) (visited : gset Hash) (queue : list Hash) : bool :=
  match depth with
  | O => false
  | S depth' =>
      match queue with
      | [] => false
      | _ =>
          let '(found, visited, next) := dag_level cs since visited queue [] in
          if found then true else dag_walk depth' cs since visited next
      end
  end.

Definition maxDepth : nat := 1000.

Definition revisionDAGContainsRoot hctx (cs : CS) (li : L) (prefix : string) (since currentRoot : Hash) : bool :=
  if decide (since = currentRoot) then true
  else match Get li (revisionHeadPath (resolveAbsolutePrefix prefix (hc_LocalPeerID hctx))) with
  | None => false
  | Some headHash => dag_walk maxDepth cs since ∅ [headHash]
  end.

Definition handleExtractSince hctx st (prefix : string) (sinceRoot : Hash) : option (TreeState CS L IX * Answer) :=
  let '(cs, r) := resolveCurrentTrieRoot hctx st prefix in
  let st := with_store st cs in
  match r with
  | Err TriePanic | Err TrieDiverges => None
  | Err _ => Some (st, refuse 500 "internal_error")
  | Ok (currentRoot, hasCanonicalRoot) =>
  if IsZero currentRoot then Some (st, refuse 404 "no_local_state")
  else match cs_Get cs sinceRoot with
  | None => Some (st, refuse 404 "since_not_found")
  | Some _ =>
  if hasCanonicalRoot && negb (revisionDAGContainsRoot hctx cs (ts_Index st) prefix sinceRoot currentRoot)
  then Some (st, refuse 400 "scope_mismatch")
  else match CollectReachableHashes cs sinceRoot ∅ with
  | None => None
  | Some skip =>
      match CollectTrieEntitiesExcept cs currentRoot skip ∅ with
      | None => None
      | Some included => Some (st, envelope_answer currentRoot included)
      end
  end
  end
  end.

Definition handleExtract (now : Z) hctx st (params : list byte) : option (TreeState CS L IX * Answer) :=
  match decode_params no_extract DecodeExtractRequest params with
  | None => Some (st, refuse 400 "invalid_params")
  | Some req =>
  match broad_prefix hctx (er_Prefix req) with
  | None => Some (st, refuse 400 "path_required")
  | Some prefix =>
  if negb (validatePrefix prefix) then Some (st, refuse 400 "invalid_prefix")
  else if negb (checkPathPerm now hctx (ts_Store st) "get" prefix) then Some (st, refuse 403 "capability_denied")
  else if negb (IsZero (Since req)) then
    match er_Paths req with
    | [] => handleExtractSince hctx st prefix (Since req)
    | _ => Some (st, refuse 400 "conflicting_filters")
    end
  else match er_Paths req with
  | [] => extract_bindings st (visible_bindings now hctx st prefix)
  | paths =>
      if forallb (fun relPath => is_ok (ValidateAbsolutePath (Canonicalize (prefix +:+ relPath) (hc_LocalPeerID hctx)))) paths
      then extract_bindings st (named_bindings now hctx st prefix paths)
      else Some (st, refuse 400 "invalid_path")
  end
  end
  end.

(** ** The dispatch of an operation ([Handler.Handle]) *)

Definition Handle (now : Z) (cw : option (ContextualWriter L)) (tracker : option RootTracker) hctx st (operation : string)
    (params : list byte) : option (TreeState CS L IX * Answer) :=
  if String.eqb operation "get" then Some (st, handleGet now hctx st params)
  else if String.eqb operation "put" then Some (handlePut now cw hctx st params)
  else if String.eqb operation "snapshot" then handleSnapshot now tracker hctx st params
  else if String.eqb operation "diff" then match handleDiff hctx st params with None => None | Some a => Some (st, a) end
  else if String.eqb operation "merge" then handleMerge now cw hctx st params
  else if String.eqb operation "extract" then handleExtract now hctx st params
  else Some (st, refuse 501 "unsupported_operation").
End ops.
