(* ===== verification/TreeMerge.v ===== *)
(** * What a merge does

    The merge of [core/tree/operations.go] on an index that keeps the promise
    of [TreeIndex]: which bindings are taken, what is counted and reported, and
    what is left alone, whatever the order in which the source is visited. *)

From Stdlib Require Import Ascii.
From S2P Require Import Prelude GoStrings Errors Hash Entity PeerID Paths CapTypes Patterns Check Delegation Revoked Store Notifying Handlers TreeIndex Trie TreeHandler RootTracker TreeOps.

Open Scope Z_scope.

(** ** The decision for one binding *)

(** Whether the incoming hash is bound, and the conflict that is reported. *)
Definition takes (strategy : string) (existing : option Hash) (incoming : Hash) : bool :=
  match existing with
  | None => true
  | Some e => negb (bool_decide (e = incoming)) && String.eqb strategy "source-wins"
  end.

Definition resolution (strategy : string) : string :=
  if String.eqb strategy "source-wins" then "used-incoming"
  else if String.eqb strategy "target-wins" then "kept-existing" else "unresolved".

Definition conflict_of (strategy : string) (existing : option Hash) (incoming : Hash) : option MergeConflictData :=
  match existing with
  | Some e =>
      if decide (e = incoming) then None
      else Some {| ExistingHash := e; IncomingHash := incoming; Resolution := resolution strategy |}
  | None => None
  end.

(** The binding afterwards. *)
Definition resolved (strategy : string) (dryRun : bool) (existing : option Hash) (incoming : Hash) : option Hash :=
  if negb dryRun && takes strategy existing incoming then Some incoming else existing.

Lemma target_path_inj req a b : target_path req a = target_path req b -> a = b.
Proof.
  unfold target_path, applyPrefix. destruct (negb _); [apply append_inj_l|]. destruct (negb _); [apply append_inj_l|done].
Qed.

Section merge.
Context {CS L IX : Type} `{ContentStoreLaws CS} `{LocationIndex L} `{CapabilityIndex IX} `{Base58, DataCodec, TreeCodec, NodeCodec}.
Context `{MapOrder, BindingOrder}.
Context {cw : option (ContextualWriter L)} `{!TreeIndex L cw}.
Implicit Types (hctx : HandlerContext) (st : TreeState CS L IX) (m : @MergeState CS L IX).

Definition outside_cascade hctx : Prop :=
  bd_CascadeDepth <$> hc_Bounds hctx = None \/ bd_CascadeDepth <$> hc_Bounds hctx = Some None.

Definition tree_ms m : gmap string Hash := tree_of (cw := cw) (ms_State m).
Definition names_ms m : string -> option string := names (ts_Index (ms_State m)).

Lemma Get_tree st p k : names (ts_Index st) p = Some k -> Get (ts_Index st) p = tree_of (cw := cw) st !! k.
Proof. intros Hk. by rewrite tree_Get, Hk. Qed.

Lemma merge_write_spec now hctx dryRun m p h k m' :
  outside_cascade hctx -> names_ms m p = Some k -> merge_write now cw hctx dryRun m p h = Ok m' ->
  names_ms m' = names_ms m /\ ts_Store (ms_State m') = ts_Store (ms_State m)
  /\ tree_ms m' = (if dryRun then tree_ms m else <[k := h]> (tree_ms m))
  /\ ms_Applied m' = u64 (ms_Applied m + 1) /\ ms_Skipped m' = ms_Skipped m /\ ms_Conflicts m' = ms_Conflicts m.
Proof.
  intros Hc Hk. unfold merge_write. destruct dryRun; [by intros [= <-]|].
  destruct (TreeSet _ _ _ _ _ _ _) as [[st' cr] r] eqn:Hs. destruct r as [[]|e]; [|done]. intros [= <-].
  apply TreeSet_tree in Hs as (Hst & Hn & Ht & Hw). unfold names_ms in *. rewrite Hk in Ht. rewrite (Hw Hc) in Ht.
  unfold tree_ms. cbn [ms_State ms_Applied ms_Skipped ms_Conflicts]. by split_and!.
Qed.

Lemma merge_binding_spec now hctx strategy dryRun m p incoming k m' :
  outside_cascade hctx -> known_strategy strategy = true -> names_ms m p = Some k ->
  merge_binding now cw hctx strategy dryRun m p incoming = Ok m' ->
  let existing := tree_ms m !! k in
  names_ms m' = names_ms m /\ ts_Store (ms_State m') = ts_Store (ms_State m)
  /\ tree_ms m' !! k = resolved strategy dryRun existing incoming
  /\ (forall k', k' <> k -> tree_ms m' !! k' = tree_ms m !! k')
  /\ ms_Applied m' = (if takes strategy existing incoming then u64 (ms_Applied m + 1) else ms_Applied m)
  /\ ms_Skipped m' = (if takes strategy existing incoming then ms_Skipped m else u64 (ms_Skipped m + 1))
  /\ ms_Conflicts m' = match conflict_of strategy existing incoming with Some c => <[p := c]> (ms_Conflicts m) | None => ms_Conflicts m end.
Proof.
  intros Hc Hkn Hk. unfold merge_binding. unfold names_ms in Hk. rewrite (Get_tree _ _ _ Hk). fold (tree_ms m).
  assert (Hwrite : forall m1, merge_write now cw hctx dryRun m p incoming = Ok m1 ->
    names_ms m1 = names_ms m /\ ts_Store (ms_State m1) = ts_Store (ms_State m)
    /\ tree_ms m1 !! k = (if dryRun then tree_ms m !! k else Some incoming)
    /\ (forall k', k' <> k -> tree_ms m1 !! k' = tree_ms m !! k')
    /\ ms_Applied m1 = u64 (ms_Applied m + 1) /\ ms_Skipped m1 = ms_Skipped m /\ ms_Conflicts m1 = ms_Conflicts m).
  { intros m1 (Hn & Hst & Ht & Ha & Hsk & Hco)%(merge_write_spec _ _ _ _ _ _ k); [|done|done]. rewrite Ht.
    split_and!; [done|done| | |done|done|done].
    - destruct dryRun; [done|]. by rewrite lookup_insert_eq.
    - intros k' Hne. destruct dryRun; [done|]. by rewrite lookup_insert_ne. }
  destruct (tree_ms m !! k) as [e|] eqn:He; cbn [takes conflict_of].
  - case_decide as Heq.
    + intros [= <-]. rewrite bool_decide_true by done. unfold resolved. cbn [takes]. rewrite bool_decide_true by done.
      rewrite andb_false_r. by split_and!.
    + rewrite bool_decide_false by done. unfold resolved, resolution. cbn [takes]. rewrite bool_decide_false by done. cbn [negb andb].
      unfold known_strategy in Hkn. destruct (String.eqb strategy "source-wins") eqn:Hsw.
      * destruct (merge_write _ _ _ _ _ _ _) as [m1|] eqn:Hw; [|done]. cbn [res_bind]. intros [= <-].
        destruct (Hwrite m1 eq_refl) as (? & ? & Hl & ? & ? & ? & Hco). cbn [ms_State ms_Applied ms_Skipped ms_Conflicts merge_conflict].
        split_and!; [done|done| |done|done|done|by rewrite Hco]. unfold tree_ms in *. cbn [ms_State merge_conflict]. rewrite Hl. by destruct dryRun.
      * destruct (String.eqb strategy "target-wins"); intros [= <-]; rewrite andb_false_r; by split_and!.
  - intros Hw. destruct (Hwrite m' Hw) as (? & ? & Hl & ? & ? & ? & ?). split_and!; try done.
    rewrite Hl. unfold resolved. cbn [takes]. by destruct dryRun.
Qed.

(** ** The loop *)

Section loop.
Context (now : Z) (hctx : HandlerContext) (req : MergeRequestData) (strategy : string) (dryRun : bool).
Context (quiet_ctx : outside_cascade hctx) (known : known_strategy strategy = true).
(** The absolute path of a source binding, and the tree before the merge. *)
Context (key : string -> string) (t0 : gmap string Hash).

Definition taken (l : list (string * Hash)) : nat :=
  length (List.filter (fun b => takes strategy (t0 !! key (fst b)) (snd b)) l).

Lemma taken_cons b l : Z.of_nat (taken (b :: l)) = (if takes strategy (t0 !! key (fst b)) (snd b) then 1 else 0) + Z.of_nat (taken l).
Proof. unfold taken. cbn [List.filter]. destruct (takes _ _ _); cbn [length]; lia. Qed.

Lemma u64_add a b : u64 (u64 a + b) = u64 (a + b).
Proof. unfold u64. by rewrite Z.add_mod_idemp_l. Qed.

(** What the loop does to the bindings it visits, to the others, and to the counts. *)
Record loop_effect (l : list (string * Hash)) m m' : Prop := {
  le_names : names_ms m' = names_ms m;
  le_store : ts_Store (ms_State m') = ts_Store (ms_State m);
  le_bound rel h : (rel, h) ∈ l -> tree_ms m' !! key rel = resolved strategy dryRun (t0 !! key rel) h;
  le_other k : (forall rel h, (rel, h) ∈ l -> key rel <> k) -> tree_ms m' !! k = tree_ms m !! k;
  le_applied : ms_Applied m' = u64 (ms_Applied m + Z.of_nat (taken l));
  le_skipped : ms_Skipped m' = u64 (ms_Skipped m + (Z.of_nat (length l) - Z.of_nat (taken l)));
  le_conflict rel h : (rel, h) ∈ l -> ms_Conflicts m !! target_path req rel = None ->
    ms_Conflicts m' !! target_path req rel = conflict_of strategy (t0 !! key rel) h;
  le_quiet p : (forall rel h, (rel, h) ∈ l -> target_path req rel <> p) -> ms_Conflicts m' !! p = ms_Conflicts m !! p
}.

Lemma merge_loop_effect l m m' :
  NoDup (map fst l) -> (forall a b, a ∈ map fst l -> b ∈ map fst l -> key a = key b -> a = b) ->
  (forall rel h, (rel, h) ∈ l -> names_ms m (target_path req rel) = Some (key rel) /\ tree_ms m !! key rel = t0 !! key rel) ->
  ms_Applied m = u64 (ms_Applied m) -> ms_Skipped m = u64 (ms_Skipped m) ->
  merge_loop now cw hctx req strategy dryRun m l = Ok m' -> loop_effect l m m'.
Proof.
  revert m. induction l as [|[rel h] l IH]; intros m Hnd Hinj Hkeys Ha Hs.
  { intros [= <-]. split; try done.
    - by intros rel h ?%elem_of_nil.
    - unfold taken. cbn. by rewrite Z.add_0_r.
    - unfold taken. cbn. by rewrite Z.add_0_r.
    - by intros rel h ?%elem_of_nil. }
  cbn [merge_loop]. destruct (merge_binding _ _ _ _ _ _ _ _) as [m1|] eqn:Hb; [|done]. intros Hl.
  destruct (Hkeys rel h ltac:(left)) as [Hk Ht].
  apply (merge_binding_spec now hctx strategy dryRun m _ h (key rel)) in Hb as (Hn & Hst & Hbound & Hother & Happ & Hsk & Hco); [|done..].
  rewrite Ht in *. cbn [map fst] in *. apply NoDup_cons in Hnd as [Hrel Hnd].
  assert (Hin : forall x y, (x, y) ∈ l -> x ∈ map fst l) by (intros x y Hxy; apply list_elem_of_fmap; by exists (x, y)).
  assert (Hkne : forall x y, (x, y) ∈ l -> key x <> key rel).
  { intros x y Hxy He. apply Hrel. assert (x = rel) as <- by (apply Hinj; [right; by eapply Hin|left|done]). by eapply Hin. }
  assert (Htne : forall x y, (x, y) ∈ l -> target_path req x <> target_path req rel).
  { intros x y Hxy ->%target_path_inj. by apply Hrel, (Hin _ y). }
  destruct (IH m1) as [Ln Ls Lb Lo La Lsk Lc Lq]; [done|intros a b Ha' Hb'; apply Hinj; by right| | | |exact Hl|].
  { intros x y Hxy. destruct (Hkeys x y ltac:(by right)) as [Hkx Htx]. rewrite Hn. split; [done|].
    rewrite Hother; [done|by eapply Hkne]. }
  { rewrite Happ. destruct (takes _ _ _); [|done]. unfold u64. by rewrite Z.mod_mod. }
  { rewrite Hsk. destruct (takes _ _ _); [done|]. unfold u64. by rewrite Z.mod_mod. }
  split.
  - congruence.
  - congruence.
  - intros x y [[= -> ->]|Hxy]%elem_of_cons; [|by apply Lb]. rewrite Lo by exact Hkne. exact Hbound.
  - intros k Hk'. rewrite Lo by (intros x y Hxy; apply (Hk' x y); by right). apply Hother.
    intros ->. by apply (Hk' rel h ltac:(left)).
  - rewrite La, Happ, taken_cons. cbn [fst snd]. destruct (takes _ _ _); [|f_equal; lia]. rewrite u64_add. f_equal. lia.
  - rewrite Lsk, Hsk, taken_cons. cbn [fst snd length]. destruct (takes _ _ _); [f_equal; lia|]. rewrite u64_add. f_equal. lia.
  - intros x y [[= -> ->]|Hxy]%elem_of_cons Hnone.
    + rewrite Lq by exact Htne. rewrite Hco. destruct (conflict_of _ _ _); [by rewrite lookup_insert_eq|done].
    + apply Lc; [done|]. rewrite Hco. pose proof (Htne x y Hxy). destruct (conflict_of _ _ _); [by rewrite lookup_insert_ne|done].
  - intros p Hp. rewrite Lq by (intros x y Hxy; apply (Hp x y); by right). rewrite Hco.
    pose proof (Hp rel h ltac:(left)). destruct (conflict_of _ _ _); [by rewrite lookup_insert_ne|done].
Qed.
End loop.

(** ** The handler *)

(** The outcome of a merge of the bindings [src], bound at the paths [key],
    into the tree [t]. *)
Record merge_effect (req : MergeRequestData) (src : gmap string Hash) (key : string -> string) (t t' : gmap string Hash)
    (r : MergeResultData) : Prop := {
  me_bound rel h : src !! rel = Some h ->
    t' !! key rel = resolved (merge_strategy req) (dry_run req) (t !! key rel) h;
  me_other k : (forall rel, is_Some (src !! rel) -> key rel <> k) -> t' !! k = t !! k;
  me_count : Z.of_nat (size src) < 2 ^ 64 -> Applied r + mr_Skipped r = Z.of_nat (size src);
  me_conflicts p c : Conflicts r !! p = Some c <->
    exists rel h, src !! rel = Some h /\ p = target_path req rel
      /\ conflict_of (merge_strategy req) (t !! key rel) h = Some c
}.

Lemma merge_precheck_ok now hctx cs req l :
  merge_precheck now hctx cs req l = None ->
  forall rel h, (rel, h) ∈ l -> checkPathPerm now hctx cs "put" (target_path req rel) = true
    /\ is_ok (ValidateAbsolutePath (Canonicalize (target_path req rel) (hc_LocalPeerID hctx))) = true.
Proof.
  induction l as [|[rel0 h0] l IH]; [by intros _ rel h ?%elem_of_nil|]. cbn [merge_precheck].
  destruct (is_ok _) eqn:Hv; [|done]. destruct (checkPathPerm _ _ _ _ _) eqn:Hp; [|done]. cbn [negb].
  intros Hl rel h [[= -> ->]|Hin]%elem_of_cons; [done|by eapply IH].
Qed.

Lemma loop_merge_effect now hctx req st (src : gmap string Hash) key m' :
  outside_cascade hctx -> known_strategy (merge_strategy req) = true ->
  (forall rel h, src !! rel = Some h -> names (ts_Index st) (target_path req rel) = Some (key rel)) ->
  (forall a b, is_Some (src !! a) -> is_Some (src !! b) -> key a = key b -> a = b) ->
  merge_loop now cw hctx req (merge_strategy req) (dry_run req) (merge_start st) (bindings_range 1 src) = Ok m' ->
  merge_effect req src key (tree_of (cw := cw) st) (tree_ms m')
    {| Applied := ms_Applied m'; mr_Skipped := ms_Skipped m'; Conflicts := ms_Conflicts m'; mr_Strategy := merge_strategy req |}.
Proof.
  intros Hc Hkn Hkey Hinj Hl. set (l := bindings_range 1 src) in *.
  assert (Hmem : forall rel h, (rel, h) ∈ l <-> src !! rel = Some h).
  { intros rel h. unfold l. by rewrite bindings_range_perm, elem_of_map_to_list. }
  assert (Hdom : forall rel, rel ∈ map fst l -> is_Some (src !! rel)).
  { intros rel ([x h] & -> & Hin%Hmem)%list_elem_of_fmap. by eexists. }
  assert (Hlen : length l = size src) by (unfold l; rewrite bindings_range_perm; apply length_map_to_list).
  destruct (merge_loop_effect now hctx req (merge_strategy req) (dry_run req) Hc Hkn key (tree_of (cw := cw) st) l (merge_start st) m')
    as [Ln Ls Lb Lo La Lsk Lc Lq]; [| | |done|done|exact Hl|].
  - unfold l. rewrite (bindings_range_perm 1 src). apply NoDup_fst_map_to_list.
  - intros a b Ha Hb. apply Hinj; by apply Hdom.
  - intros rel h Hin%Hmem. split; [by eapply Hkey|done].
  - split; cbn [Applied mr_Skipped Conflicts].
    + intros rel h Hs%Hmem. by apply Lb.
    + intros k Hk. rewrite Lo; [done|]. intros rel h Hin%Hmem. apply Hk. by eexists.
    + intros Hsz. rewrite La, Lsk, Hlen. cbn [ms_Applied ms_Skipped merge_start].
      assert (Ht : (taken (merge_strategy req) key (tree_of (cw := cw) st) l <= size src)%nat).
      { rewrite <- Hlen. apply List.filter_length_le. }
      set (n := taken _ _ _ _) in *. clearbody n. unfold u64, two64. rewrite !Z.mod_small by lia. lia.
    + intros p c. split.
      * intros Hp. destruct (decide (Exists (fun b => target_path req (fst b) = p) l)) as [Hex|Hno].
        -- apply Exists_exists in Hex as ([rel h] & Hin & <-). exists rel, h. cbn [fst] in *.
           rewrite (Lc rel h) in Hp by done. split_and!; [by apply Hmem|done|done].
        -- rewrite Lq in Hp; [done|]. intros rel h Hin He. apply Hno, Exists_exists. by exists (rel, h).
      * intros (rel & h & Hs & -> & Hcf). rewrite (Lc rel h); [done|by apply Hmem|done].
Qed.

(** The state of the loop when it succeeds: the store is not written. *)
Lemma merge_write_store now hctx dryRun m p h m' :
  merge_write now cw hctx dryRun m p h = Ok m' -> ts_Store (ms_State m') = ts_Store (ms_State m).
Proof.
  unfold merge_write. destruct dryRun; [by intros [= <-]|]. destruct (TreeSet _ _ _ _ _ _ _) as [[st' cr] r] eqn:Hs.
  destruct r as [[]|]; [|done]. intros [= <-]. by apply TreeSet_tree in Hs as (Hst & _).
Qed.

Lemma merge_loop_store now hctx req strategy dryRun m l m' :
  merge_loop now cw hctx req strategy dryRun m l = Ok m' -> ts_Store (ms_State m') = ts_Store (ms_State m).
Proof.
  revert m. induction l as [|[rel h] l IH]; intros m; [by intros [= <-]|]. cbn [merge_loop].
  destruct (merge_binding _ _ _ _ _ _ _ _) as [m1|] eqn:Hb; [|done]. intros ->%IH. unfold merge_binding in Hb.
  destruct (Get _ _) as [e|]; [|by eapply merge_write_store]. case_decide; [by injection Hb as <-|].
  destruct (String.eqb strategy "source-wins"); [|destruct (String.eqb strategy "target-wins"); by injection Hb as <-].
  destruct (merge_write _ _ _ _ _ _ _) as [m2|] eqn:Hw; [|done]. injection Hb as <-. by apply merge_write_store in Hw.
Qed.

Lemma answered_merge strategy m (cr : list CascadeResult) :
  answered (match cr with c :: _ => finish (Some c) (merge_result strategy m) | [] => serve (merge_result strategy m) end)
  = Some (merge_result strategy m).
Proof. destruct cr; [done|]. by apply answered_finish. Qed.

(** A merge that answers with a result, step by step. *)
Lemma handleMerge_ok now hctx st st' params a r :
  handleMerge now cw hctx st params = Some (st', a) -> answered a = Some (RMerge r) ->
  exists req source root src m, decode_params no_merge DecodeMergeRequest params = Some req
    /\ merge_source (ts_Store st) req = (ts_Store st', Ok source)
    /\ known_strategy (merge_strategy req) = true
    /\ resolveSnapshot hctx (ts_Store st') source = Some root
    /\ CollectAllBindings (ts_Store st') root "" = Some src
    /\ merge_precheck now hctx (ts_Store st') req (bindings_range 0 src) = None
    /\ merge_loop now cw hctx req (merge_strategy req) (dry_run req) (merge_start (with_store st (ts_Store st')))
         (bindings_range 1 src) = Ok m
    /\ st' = ms_State m /\ RMerge r = merge_result (merge_strategy req) m.
Proof.
  unfold handleMerge. destruct (decode_params _ _ _) as [req|]; [|by intros [= <- <-]].
  destruct (merge_source (ts_Store st) req) as [cs src0] eqn:Hsrc. destruct src0 as [source|a0].
  2:{ intros [= <- <-] Ha. exfalso. unfold merge_source in Hsrc. destruct (SourceEnvelope req); [done|].
      destruct (decode_source _); [|by injection Hsrc as <- <-]. destruct (negb _); [by injection Hsrc as <- <-|].
      destruct (ingest _ _) as [cs1 []]; [|by injection Hsrc as <- <-]. destruct (cs_Put _ _) as [? [?|?]]; by simplify_eq. }
  destruct (IsZero source); [by intros [= <- <-]|]. destruct (known_strategy (merge_strategy req)) eqn:Hkn; [|by intros [= <- <-]].
  cbn [negb]. destruct (resolveSnapshot hctx cs source) as [root|] eqn:Hroot; [|by intros [= <- <-]].
  destruct (CollectAllBindings cs root "") as [src|] eqn:Hcol; [|done].
  destruct (merge_precheck _ _ _ _ _) as [a0|] eqn:Hpre.
  { intros [= <- <-] Ha. exfalso. clear Hcol. revert Hpre. induction (bindings_range 0 src) as [|[x y] l IH]; [done|]. cbn [merge_precheck].
    destruct (negb _); [by intros [= <-]|]. destruct (negb _); [by intros [= <-]|done]. }
  destruct (merge_loop _ _ _ _ _ _ _ _) as [m|st1] eqn:Hl; [|by intros [= <- <-]]. intros [= <- <-] Ha.
  rewrite answered_merge in Ha. injection Ha as <-. pose proof (merge_loop_store _ _ _ _ _ _ _ _ Hl) as Hst. cbn in Hst.
  exists req, source, root, src, m. rewrite Hst. by split_and!.
Qed.


(** A refused merge writes nothing to the tree. *)
Theorem merge_refusal_atomic (now : Z) (hctx : HandlerContext) (st st' : TreeState CS L IX) (params : list byte) (s : Z) (c : string) :
  handleMerge now cw hctx st params = Some (st', refuse s c) -> tree_of (cw := cw) st' = tree_of (cw := cw) st.
Proof.
  unfold handleMerge. destruct (decode_params _ _ _) as [req|]; [|by intros [= <- _]].
  destruct (merge_source (ts_Store st) req) as [cs [source|a0]]; [|by intros [= <- _]].
  destruct (IsZero source); [by intros [= <- _]|]. destruct (negb _); [by intros [= <- _]|].
  destruct (resolveSnapshot _ _ _) as [root|]; [|by intros [= <- _]]. destruct (CollectAllBindings _ _ _) as [src|]; [|done].
  destruct (merge_precheck _ _ _ _ _); [by intros [= <- _]|].
  destruct (merge_loop _ _ _ _ _ _ _ _) as [m|st1]; [|by intros [= _]]. destruct (cascadeIncomplete m) as [|cr l]; [done|].
  unfold finish. by destruct (IsComplete _).
Qed.
End merge.
