(* ===== verification/TreeExtract.v ===== *)
(** * What an extract carries

    The envelope of an extract holds the trie of the bindings the caller may
    get, complete, and nothing else; merged on another peer it gives those
    bindings back. *)

From Stdlib Require Import Ascii.
From S2P Require Import Prelude GoStrings Errors Hash Entity PeerID Paths CapTypes Patterns Check Delegation Revoked Store Notifying Handlers TreeIndex Trie TrieSpec TrieCanon TrieMap TreeHandler RootTracker TreeOps TreeMerge.

Open Scope nat_scope.

(** ** The nodes of a trie *)

Section closure.
Context {CS : Type} `{ContentStoreLaws CS, NodeCodec}.

Definition trie_hashes (ns : list SnapshotNodeData) : list Hash := omap node_hash ns.

Lemma elem_of_hashes ns h : h ∈ trie_hashes ns <-> exists n, n ∈ ns /\ node_hash n = Some h.
Proof. unfold trie_hashes. by rewrite list_elem_of_omap. Qed.

Definition take_node (cs : CS) (h : Hash) (acc : gmap Hash Entity) : option (gmap Hash Entity) :=
  match cs_Get cs h with None => None | Some ent => Some (<[h := ent]> acc) end.

(** The map [acc] extended by the entities of the hashes [hs]. *)
Definition gathered (cs : CS) (hs : list Hash) (acc acc' : gmap Hash Entity) : Prop :=
  forall k, acc' !! k = if decide (k ∈ hs) then cs_Get cs k else acc !! k.

Lemma gathered_app cs hs1 hs2 a b c : gathered cs hs1 a b -> gathered cs hs2 b c -> gathered cs (hs1 ++ hs2) a c.
Proof.
  intros Hab Hbc k. rewrite Hbc, Hab. destruct (decide (k ∈ hs2)), (decide (k ∈ hs1)), (decide (k ∈ hs1 ++ hs2)) as [Hk|Hk]; try done;
    rewrite elem_of_app in Hk; tauto.
Qed.

Lemma held_get cs n h : held cs n -> node_hash n = Some h -> exists ent, cs_Get cs h = Some ent /\ DecodeNode (Data ent) = Some n.
Proof.
  intros (h' & Hh' & Hl) Hh. rewrite Hh in Hh'. injection Hh' as <-. unfold LoadTrieNode in Hl.
  destruct (cs_Get cs h) as [ent|]; [|done]. by exists ent.
Qed.

Lemma gathered_node cs h ent acc : cs_Get cs h = Some ent -> gathered cs [h] acc (<[h := ent]> acc).
Proof.
  intros Hg k. destruct (decide (k ∈ [h])) as [Hk|Hk].
  - apply list_elem_of_singleton in Hk as ->. by rewrite lookup_insert_eq.
  - rewrite lookup_insert_ne; [done|]. intros ->. apply Hk, list_elem_of_singleton. done.
Qed.

Lemma collect_spec (cs : CS) levels level l n h acc fuel :
  reference levels level l = Some n -> node_hash n = Some h ->
  (forall m, m = n \/ m ∈ subnodes levels level l -> held cs m) -> levels <= fuel ->
  exists acc', visit_trie (take_node cs) (fun acc _ => acc) fuel cs h acc = Some acc'
    /\ gathered cs (h :: trie_hashes (subnodes levels level l)) acc acc'.
Proof.
  revert level l n h acc fuel. induction levels as [|levels IH]; intros level l n h acc fuel; [done|].
  intros Href Hh Hheld Hf. destruct fuel as [|fuel]; [lia|]. cbn [visit_trie].
  destruct (held_get cs n h (Hheld n ltac:(by left)) Hh) as (ent & Hget & Hdec).
  unfold take_node at 1. rewrite Hget. unfold LoadTrieNode. rewrite Hget, Hdec.
  apply reference_spec in Href as (es & Hes & ->). cbn [Data_ node_of subnodes].
  pose proof (slots_forall2 _ _ _ _ Hes) as Hall. clear Hes.
  assert (Hin : forall p, p ∈ seq 0 K -> p < 32) by (intros p Hp%list_elem_of_In%in_seq; unfold K in Hp; lia).
  change (h :: trie_hashes ?x) with ([h] ++ trie_hashes x).
  enough (Hgo : forall acc1, exists acc', (fix go (acc : gmap Hash Entity) (entries : list NodeEntry) : option (gmap Hash Entity) :=
      match entries with
      | [] => Some acc
      | BucketEntry _ :: rest => go acc rest
      | LinkEntry h :: rest =>
          match visit_trie (take_node cs) (fun acc _ => acc) fuel cs h acc with None => None | Some acc => go acc rest end
      end) acc1 (omap id es) = Some acc'
      /\ gathered cs (trie_hashes (concat (map (fun p => if length (group level p l) <=? BucketSize then []
           else match reference levels (level + 1) (group level p l) with
                | Some n => n :: subnodes levels (level + 1) (group level p l) | None => [] end) (seq 0 K)))) acc1 acc').
  { destruct (Hgo (<[h := ent]> acc)) as (acc' & Hrun & Hg). exists acc'. split; [exact Hrun|].
    eapply gathered_app; [by apply gathered_node|exact Hg]. }
  assert (Hsubs : forall m, m ∈ subnodes (S levels) level l -> held cs m) by auto.
  clear Hdec Hheld Hh. induction Hall as [|p o ps es' Hslot Hall IHl]; intros acc1.
  { exists acc1. split; [done|]. intros k. cbn. by rewrite decide_False by apply not_elem_of_nil. }
  cbn [map concat]. specialize (IHl ltac:(intros; apply Hin; by right)). unfold trie_hashes in *. rewrite omap_app.
  unfold slot in Hslot. destruct (group level p l) as [|t g] eqn:E.
  { injection Hslot as <-. apply IHl. }
  rewrite <- E in *. destruct (Nat.leb_spec (length (group level p l)) BucketSize) as [Hle|Hgt].
  { injection Hslot as <-. cbn [omap list_omap id]. apply IHl. }
  apply bind_Some in Hslot as (c & Hc & Hslot). apply bind_Some in Hslot as (hc & Hhc & [= <-]). rewrite Hc.
  cbn [omap list_omap id]. rewrite Hhc.
  destruct (IH (level + 1) (group level p l) c hc acc1 fuel Hc Hhc) as (acc2 & -> & Hg2); [|lia|].
  { intros m Hm. apply Hsubs, elem_of_subnodes. exists p, c. split_and!; [apply Hin; left|done..]. }
  destruct (IHl acc2) as (acc3 & Hrun3 & Hg3). exists acc3. split; [exact Hrun3|]. eapply gathered_app; [exact Hg2|exact Hg3].
Qed.

Lemma collectTrieEntities_spec (cs : CS) r m :
  represents cs r m -> exists inc, collectTrieEntities cs r ∅ = Some inc /\ gathered cs (trie_hashes (trie_nodes m)) ∅ inc.
Proof.
  intros Hrep. destruct (proj1 Hrep) as (n & Hn & Hr). unfold trie_nodes. rewrite Hn. cbn [trie_hashes omap list_omap]. rewrite Hr.
  apply (collect_spec cs MaxLevel 0 (sorted_bindings m) n r ∅ (closure_fuel cs) Hn Hr).
  - intros x Hx. apply Hrep. unfold trie_nodes. rewrite Hn. destruct Hx as [->|Hx]; [left|by right].
  - unfold closure_fuel, links_fuel. lia.
Qed.
End closure.

(** ** The envelope *)

Section extract.
Context {CS L IX : Type} `{ContentStoreLaws CS} `{LocationIndex L} `{CapabilityIndex IX} `{Base58, DataCodec, TreeCodec, NodeCodec}.
Context `{MapOrder, BindingOrder}.
Context {text_ok : string -> bool} `{!TrieStorage (CS := CS) text_ok}.
Context {cw : option (ContextualWriter L)} `{!TreeIndex L cw}.
Implicit Types (hctx : HandlerContext) (st : TreeState CS L IX).

(** The bindings an extract selects. *)
Definition selected (now : Z) hctx st (prefix : string) (req : ExtractRequestData) : list BucketTuple :=
  match er_Paths req with
  | [] => visible_bindings now hctx st prefix
  | paths => named_bindings now hctx st prefix paths
  end.

(** The bindings can be written as a trie whose nodes have distinct hashes. *)
Definition buildable_list (bs : list BucketTuple) : Prop :=
  Forall (tuple_ok text_ok) bs /\ steps_sound bs ∅ /\ is_Some (root_node (bind_all bs ∅)).

Lemma bundle_values_lookup (cs : CS) bs inc k :
  bundle_values cs bs inc !! k
  = if decide (k ∈ map ValueHash bs) then match cs_Get cs k with Some ent => Some ent | None => inc !! k end else inc !! k.
Proof.
  unfold bundle_values. revert inc. induction bs as [|b bs IH]; intros inc; [done|]. cbn [foldl map]. rewrite IH.
  assert (Hhead : match cs_Get cs (ValueHash b) with Some ent => <[ValueHash b := ent]> inc | None => inc end !! k
                  = if decide (k = ValueHash b) then match cs_Get cs k with Some ent => Some ent | None => inc !! k end else inc !! k).
  { destruct (decide (k = ValueHash b)) as [->|Hk].
    - destruct (cs_Get cs (ValueHash b)); [by rewrite lookup_insert_eq|done].
    - destruct (cs_Get cs (ValueHash b)); [by rewrite lookup_insert_ne|done]. }
  rewrite Hhead. destruct (decide (k ∈ map ValueHash bs)), (decide (k = ValueHash b)), (decide (k ∈ ValueHash b :: map ValueHash bs)) as [Hin|Hin];
    try done; rewrite elem_of_cons in Hin; try tauto; by destruct (cs_Get cs k).
Qed.

Lemma extract_bindings_exact st st' bs env :
  buildable_list bs -> extract_bindings st bs = Some (st', serve (RExtract env)) ->
  exists root, snapshot_entity root = Ok (Entity.Root env) /\ represents (ts_Store st') root (bind_all bs ∅)
    /\ ts_Index st' = ts_Index st
    /\ forall h ent, Included env !! h = Some ent <->
         cs_Get (ts_Store st') h = Some ent /\ (h ∈ trie_hashes (trie_nodes (bind_all bs ∅)) \/ h ∈ map ValueHash bs).
Proof.
  intros (Hok & Hss & [n Hn]). unfold extract_bindings.
  destruct (BuildTrie_run (ts_Store st) bs n Hok Hss Hn) as (cs & root & Hb & Hrep). rewrite Hb.
  destruct (snapshot_entity root) as [snap|e] eqn:Hsnap; [|done].
  destruct (collectTrieEntities_spec cs root _ Hrep) as (inc & -> & Hg). unfold envelope_answer. rewrite Hsnap. cbn [res_bind].
  intros [= <- <-]. exists root. cbn [Entity.Root Included ts_Store with_store ts_Index]. split_and!; [done|done|done|].
  intros h ent. rewrite bundle_values_lookup, Hg, lookup_empty. fold (trie_hashes (trie_nodes (bind_all bs ∅))).
  destruct (decide (h ∈ map ValueHash bs)), (decide (h ∈ trie_hashes _)); destruct (cs_Get cs h); intuition congruence.
Qed.

Lemma selected_permitted now hctx st prefix req b :
  b ∈ selected now hctx st prefix req -> exists path k, checkPathPerm now hctx (ts_Store st) "get" path = true
    /\ tree_of (cw := cw) st !! k = Some (ValueHash b) /\ (k = path \/ names (ts_Index st) path = Some k).
Proof.
  unfold selected. assert (Hvis : b ∈ visible_bindings now hctx st prefix -> exists path k,
      checkPathPerm now hctx (ts_Store st) "get" path = true /\ tree_of (cw := cw) st !! k = Some (ValueHash b)
      /\ (k = path \/ names (ts_Index st) path = Some k)).
  { intros ([p h] & Hin & Hb)%list_elem_of_omap. cbn [le_Path le_Hash] in Hb. destruct (String.eqb _ _); [done|].
    destruct (checkPathPerm _ _ _ _ _) eqn:Hp; [|done]. injection Hb as <-. apply tree_List in Hin as (q & _ & Ht & _).
    exists p, p. by split_and!; [..|left]. }
  destruct (er_Paths req) as [|x xs]; [exact Hvis|]. unfold named_bindings.
  intros (rel & Hin & Hb)%list_elem_of_omap. destruct (checkPathPerm _ _ _ _ _) eqn:Hp; [|done].
  rewrite tree_Get in Hb. destruct (names (ts_Index st) (prefix +:+ rel)) as [k|] eqn:Hk; [|done]. cbn [mbind option_bind] in Hb.
  destruct (tree (ts_Index st) !! k) as [h|] eqn:Ht; [|done]. injection Hb as <-. exists (prefix +:+ rel), k. by split_and!; [..|right].
Qed.

Lemma handleExtract_cases now hctx st st' params env req :
  handleExtract now hctx st params = Some (st', serve (RExtract env)) ->
  decode_params no_extract DecodeExtractRequest params = Some req -> IsZero (Since req) = true ->
  exists prefix, broad_prefix hctx (er_Prefix req) = Some prefix
    /\ checkPathPerm now hctx (ts_Store st) "get" prefix = true
    /\ extract_bindings st (selected now hctx st prefix req) = Some (st', serve (RExtract env)).
Proof.
  unfold handleExtract, selected. intros He Hd Hz. rewrite Hd in He. destruct (broad_prefix _ _) as [prefix|]; [|done]. exists prefix.
  destruct (negb (validatePrefix prefix)); [done|]. destruct (checkPathPerm _ _ _ _ prefix); [|done]. cbn [negb] in He.
  rewrite Hz in He. cbn [negb] in He. destruct (er_Paths req); [done|]. destruct (forallb _ _); [|done]. done.
Qed.


(** ** Extract, then merge *)

Lemma ingest_entities (cs cs' : CS) l :
  (forall h ent, (h, ent) ∈ l -> Ent.Validate ent = Ok tt /\ ContentHash ent = h) -> NoDup (map fst l) ->
  ingest cs l = (cs', true) ->
  (forall h ent, (h, ent) ∈ l -> entities cs' !! h = Some ent)
  /\ forall h, h ∉ map fst l -> entities cs' !! h = entities cs !! h.
Proof.
  revert cs. induction l as [|[h0 e0] l IH]; intros cs Hv Hnd; [by intros [= ->]; split; [intros ? ? ?%elem_of_nil|]|].
  cbn [map fst] in Hnd. apply NoDup_cons in Hnd as [Hnin Hnd]. destruct (Hv h0 e0 ltac:(left)) as [Hval Hch].
  cbn [ingest]. pose proof (cs_put_spec cs e0) as Hp. pose proof (fun h => valid_put cs e0 h Hval) as Hh.
  destruct (cs_Put cs e0) as [cs1 [h1|]]; [|done]. cbn [fst snd] in *. destruct (Hh h1 eq_refl) as [-> Hst]. destruct Hp as [_ Hent].
  rewrite Hst, Hch in Hent. intros Hi. destruct (IH cs1 (fun h ent Hin => Hv h ent ltac:(by right)) Hnd Hi) as [Hin Hout]. split.
  - intros h ent [[= -> ->]|Hl]%elem_of_cons; [|by apply Hin]. rewrite Hout by done. by rewrite Hent, lookup_insert_eq.
  - intros h. cbn [map fst]. rewrite not_elem_of_cons. intros [Hne Hni]. by rewrite Hout, Hent, lookup_insert_ne by done.
Qed.

(** The store after the source of a merge was taken from an envelope. *)
Lemma merge_source_env (cs cs' : CS) req env source :
  SourceEnvelope req <> [] -> decode_source (SourceEnvelope req) = Some env ->
  merge_source cs req = (cs', Ok source) ->
  put_hash (Entity.Root env) = Ok source /\ cs_Get cs' source = Some (stamped (Entity.Root env) source)
  /\ forall h ent, Included env !! h = Some ent -> h <> source -> cs_Get cs' h = Some ent.
Proof.
  unfold merge_source. destruct (SourceEnvelope req) as [|b raw] eqn:Hraw; [done|]. intros _ ->.
  destruct (Env.VerifyIncludedKeyBinding (Included env)) as [[]|] eqn:Hkb; cbn [is_ok negb]; [|done].
  apply Env.VerifyIncludedKeyBinding_iff in Hkb.
  destruct (ingest cs _) as [cs1 []] eqn:Hi; [|done]. apply ingest_entities in Hi as [Hin _].
  - pose proof (cs_put_spec cs1 (Entity.Root env)) as Hp. destruct (cs_Put cs1 (Entity.Root env)) as [cs2 [h|]]; [|done].
    cbn [fst snd] in Hp. intros [= <- <-]. destruct Hp as [Hph Hent]. split_and!; [done|by rewrite cs_get_spec, Hent, lookup_insert_eq|].
    intros k ent Hk Hne. rewrite cs_get_spec, Hent, lookup_insert_ne by done. apply Hin. by apply elem_of_map_range.
  - intros h ent Hm%elem_of_map_range. by apply Hkb.
  - rewrite (map_range_perm 2 [] (Included env)). apply NoDup_fst_map_to_list.
Qed.

Lemma snapshot_entity_ok root snap : snapshot_entity root = Ok snap ->
  Type_ snap = TypeTreeSnapshot /\ EncodeSnapshot root = Some (Data snap).
Proof.
  unfold snapshot_entity. destruct (EncodeSnapshot root) as [raw|]; [|done]. unfold Ent.NewEntity, Ent.NewEntityFormat.
  destruct (String.eqb _ _); [done|]. destruct (length raw =? 0)%nat; [done|]. destruct (_ && _); [done|]. intros Hn. by inv_ok.
Qed.

Lemma envelope_represents (csA csB : CS) m (env : Envelope) r source :
  represents csA r m ->
  (forall h ent, cs_Get csA h = Some ent -> h ∈ trie_hashes (trie_nodes m) -> Included env !! h = Some ent) ->
  source ∉ trie_hashes (trie_nodes m) ->
  (forall h ent, Included env !! h = Some ent -> h <> source -> cs_Get csB h = Some ent) -> represents csB r m.
Proof.
  intros [Hr Hheld] Hinc Hsrc HB. split; [done|]. intros n Hn. destruct (Hheld n Hn) as (h & Hh & Hl).
  exists h. split; [done|]. assert (Hin : h ∈ trie_hashes (trie_nodes m)) by (apply elem_of_hashes; by exists n).
  destruct (held_get csA n h (Hheld n Hn) Hh) as (ent & Hg & Hd). unfold LoadTrieNode.
  rewrite (HB h ent); [done|by apply Hinc|]. by intros ->.
Qed.

(** C32: what one peer extracts another peer merges. When the envelope that peer
    A answered to an extract reaches peer B as the source of a merge, and B
    answers with a result, the bindings merged are exactly the bindings A
    selected, the last of each key, with the outcome of [merge_effect], and
    every entity they bind that A holds is then in B's store. Hypotheses: a
    snapshot decodes as it was encoded, and the hash of the snapshot entity is
    not that of a node or a value it carries. *)
Theorem extract_then_merge (nowA nowB : Z) (ctxA ctxB : HandlerContext) (stA stA' stB stB' : TreeState CS L IX)
    (paramsA paramsB : list byte) (env : Envelope) (reqA : ExtractRequestData) (reqB : MergeRequestData) (a : Answer)
    (r : MergeResultData) (prefix : string) :
  let bs := selected nowA ctxA stA prefix reqA in
  (forall root raw, EncodeSnapshot root = Some raw -> DecodeSnapshot raw = Some root) ->
  handleExtract nowA ctxA stA paramsA = Some (stA', serve (RExtract env)) ->
  decode_params no_extract DecodeExtractRequest paramsA = Some reqA -> IsZero (Since reqA) = true ->
  broad_prefix ctxA (er_Prefix reqA) = Some prefix -> buildable_list bs ->
  decode_params no_merge DecodeMergeRequest paramsB = Some reqB -> SourceEnvelope reqB <> [] ->
  decode_source (SourceEnvelope reqB) = Some env ->
  handleMerge nowB cw ctxB stB paramsB = Some (stB', a) -> answered a = Some (RMerge r) -> outside_cascade ctxB ->
  (forall source, put_hash (Entity.Root env) = Ok source -> source ∉ trie_hashes (trie_nodes (bind_all bs ∅)) ++ map ValueHash bs) ->
  (forall b ent, b ∈ bs -> cs_Get (ts_Store stA') (ValueHash b) = Some ent -> cs_Get (ts_Store stB') (ValueHash b) = Some ent)
  /\ forall key, (forall rel h, bind_all bs ∅ !! rel = Some h -> names (ts_Index stB) (target_path reqB rel) = Some (key rel)) ->
         (forall x y, is_Some (bind_all bs ∅ !! x) -> is_Some (bind_all bs ∅ !! y) -> key x = key y -> x = y) ->
         merge_effect reqB (bind_all bs ∅) key (tree_of (cw := cw) stB) (tree_of (cw := cw) stB') r.
Proof.
  intros bs Hcodec He HdA Hz Hpref Hbuild HdB Hraw Hdec Hm Ha Hc Hfresh.
  destruct (handleExtract_cases nowA ctxA stA stA' paramsA env reqA He HdA Hz) as (p & Hp0 & _ & Hx).
  rewrite Hpref in Hp0. injection Hp0 as <-.
  destruct (extract_bindings_exact stA stA' bs env Hbuild Hx) as (root & Hsnap & Hrep & _ & Hinc).
  destruct (handleMerge_ok _ _ _ _ _ _ _ Hm Ha)
    as (req & source & root' & src & m & HdB' & Hsrc & Hkn & Hroot & Hcol & Hpre & Hl & Hst & Hr).
  rewrite HdB in HdB'. injection HdB' as <-.
  destruct (merge_source_env _ _ _ _ _ Hraw Hdec Hsrc) as (Hph & Hget & Hall). specialize (Hfresh source Hph).
  rewrite not_elem_of_app in Hfresh. destruct Hfresh as [Hfn Hfv].
  assert (Heq : root' = root).
  { unfold resolveSnapshot in Hroot. rewrite Hget in Hroot. cbn [mbind option_bind] in Hroot.
    destruct (snapshot_entity_ok _ _ Hsnap) as [Hty Henc]. unfold snapshot_of in Hroot. cbn [Type_ stamped Data] in Hroot.
    rewrite Hty, String.eqb_refl, (Hcodec _ _ Henc) in Hroot. congruence. }
  subst root'.
  assert (HrepB : represents (ts_Store stB') root (bind_all bs ∅)).
  { eapply envelope_represents; [exact Hrep| |exact Hfn|exact Hall]. intros h ent Hg Hin. apply Hinc. by split; [|left]. }
  rewrite (CollectAllBindings_represents _ _ _ HrepB) in Hcol. injection Hcol as <-. split.
  - intros b ent Hb Hg. apply Hall; [apply Hinc; split; [done|right; by apply list_elem_of_fmap_2]|].
    intros Heq. apply Hfv. rewrite <- Heq. by apply list_elem_of_fmap_2.
  - intros key Hkey Hinj. injection Hr as ->. rewrite Hst at 1.
    by apply (loop_merge_effect nowB ctxB reqB (with_store stB (ts_Store stB')) (bind_all bs ∅) key m).
Qed.
End extract.
