(* ===== verification/TreeSample.v ===== *)
(** * The tree handler at work

    The handler over the in-memory stores with a concrete encoding of its
    requests: the theorems on small trees, and runs in which an operation does
    not do what its comments say. *)

From Stdlib Require Import Ascii.
From S2P Require Import Prelude GoStrings Sha2 Errors Hash Entity PeerID Paths CapTypes Patterns Check Delegation Chain Revoked Store Notifying Handlers TreeIndex Trie TrieSpec TrieCanon TrieMap TrieSample RootTracker TreeHandler TreeListing TreeOps TreeMerge TreeExtract.

Open Scope Z_scope.

Module TreeSample.
#[local] Existing Instances nibble58 toy_hashable default_order Sample.codec node_codec storage.

Definition local : PeerID := Sample.local.
Definition abs (p : string) : string := "/" +:+ local +:+ "/" +:+ p.
Definition value (b : byte) : Entity := toy_entity "value" [b].

(** What peer A has under [data/], as its extract carries it. *)
Definition file (l : list Entity) : MemoryContentStore := list_to_map (map (fun e => (ContentHash e, e)) l).
Definition content : MemoryContentStore := file [Sample.peerA; Sample.rootE; value Byte.x01; value Byte.x02].
Definition carried : list BucketTuple := [mkTuple "x" (ContentHash (value Byte.x01))].
Definition carried_store : MemoryContentStore := fst (BuildTrie content carried).
Definition carried_root : Hash := match snd (BuildTrie content carried) with Ok r => r | Err _ => zero_hash end.
Definition carried_env : Envelope := mkEnvelope (toy_entity TypeTreeSnapshot (Code.enc_hash carried_root))
  (match carried_store !! carried_root with
   | Some n => {[ carried_root := n; ContentHash (value Byte.x01) := value Byte.x01 ]}
   | None => ∅
   end).

Definition put_x (b : byte) (expected : option Hash) : PutRequestData := {| pr_Entity := [Byte.x50; b]; ExpectedHash := expected |}.
Definition zero_expected : option Hash := Some zero_hash.
Definition merge_req (target strategy : string) : MergeRequestData := {|
  mr_Source := zero_hash; SourceEnvelope := [Byte.x61]; Strategy := strategy; SourcePrefix := ""; TargetPrefix := target;
  DryRun := None |}.

#[local] Instance codec : TreeCodec := {|
  DecodeGetRequest d := if decide (d = [Byte.x01]) then Some {| Mode := ""; Limit := Some 1; Offset := Some 0 |} else None;
  DecodePutRequest d :=
    match d with
    | [Byte.x10; b] => Some (put_x b None)
    | [Byte.x11; b] => Some (put_x b zero_expected)
    | [Byte.x12; b] => Some (put_x b (Some (ContentHash (value Byte.x01))))
    | [Byte.x13] => Some {| pr_Entity := []; ExpectedHash := None |}
    | _ => None
    end;
  DecodeSnapshotRequest d := None;
  DecodeDiffRequest d := None;
  DecodeMergeRequest d :=
    match d with
    | [Byte.x60] => Some (merge_req "copy/" "")
    | [Byte.x62] => Some (merge_req "" "overwrite")
    | _ => None
    end;
  DecodeExtractRequest d :=
    match d with
    | [Byte.x70] => Some {| er_Prefix := "data/"; er_Paths := []; Since := zero_hash |}
    | [Byte.x71] => Some {| er_Prefix := "data/"; er_Paths := []; Since := ContentHash Sample.peerA |}
    | _ => None
    end;
  DecodeEntityErr d := match d with [Byte.x50; b] => Ok (value b) | _ => Err [] end;
  DecodeFields d := match d with Byte.x50 :: _ => Some {[ "content_hash" := d ]} | _ => None end;
  DecodeEnvelopeData d := if decide (d = [Byte.x61]) then Some carried_env else None;
  DecodeSnapshot d := match Code.dec_hash d with Some (h, []) => Some h | _ => None end;
  EncodeSnapshot h := Some (Code.enc_hash h);
  DecodeRevision d := None;
  EncodeText s := str_bytes s |}.

#[local] Instance binding_order : BindingOrder := {|
  bindings_range _ m := map_to_list m; bindings_range_perm _ _ := reflexivity _ |}.

Definition Index : Type := NamespacedIndex MemoryLocationIndex.
Definition State : Type := TreeState MemoryContentStore Index MemoryCapabilityIndex.
Definition writer : option (ContextualWriter Index) := Some (namespaced_writer None).
#[local] Instance index_tree : TreeIndex Index writer := namespaced_tree None I.

Definition state (cs : MemoryContentStore) (t : gmap string Hash) : State := {|
  ts_Store := cs; ts_Index := mkNamespaced t local; ts_CapIndex := None |}.

(** A call for [target], by a caller with a capability or by none. *)
Definition context (cap : Entity) (target : option string) : HandlerContext := {|
  hc_Author := local; hc_AuthorHash := ContentHash Sample.peerA; hc_LocalPeerID := local; hc_CallerCapability := cap;
  hc_HandlerGrant := no_entity; hc_Resource := (fun t => {| Targets := [t]; rt_Exclude := [] |}) <$> target;
  hc_HandlerPattern := "system/tree"; hc_RequestID := "r"; hc_Bounds := None; hc_ChainDepth := 0; hc_ReactiveTrigger := false;
  hc_Included := ∅ |}.

Definition tree0 : gmap string Hash :=
  {[ abs "data/x" := ContentHash (value Byte.x01); abs "data/secret" := ContentHash (value Byte.x02) ]}.

Definition anyone : Entity := no_entity.
Definition result_of (o : option (State * Answer)) : option TreeResult := o ≫= fun r => answered (snd r).

(** ** Where the code and its comments part *)

(** A caller whose capability excludes [data/secret]: the extract of the prefix
    leaves the binding out, the incremental extract of the same prefix, since any
    entity the store has, carries its entity. *)
Definition discloses (params : list byte) : option bool :=
  match result_of (handleExtract 50 (context Sample.rootE None) (state content tree0) params) with
  | Some (RExtract env) => Some (bool_decide (is_Some (Included env !! ContentHash (value Byte.x02))))
  | _ => None
  end.
Lemma since_extract_discloses :
  checkPathPerm 50 (context Sample.rootE None) content "get" "data/secret" = false
  /\ discloses [Byte.x70] = Some false /\ discloses [Byte.x71] = Some true.
Proof. vm_compute. by split_and!. Qed.

(** Two conditional puts that expect the same binding: both are admitted before
    either writes, both answer with their binding, and one is lost. *)
Definition bound_x : State := state content {[ abs "data/x" := ContentHash (value Byte.x01) ]}.
Definition put_ctx : HandlerContext := context anyone (Some "data/x").
Definition admitted (b : byte) : bool := is_ok (put_guard 50 put_ctx bound_x [Byte.x12; b]).
Definition commit (b : byte) (st : State) : State * Answer :=
  put_commit 50 writer put_ctx st "data/x" (put_x b (Some (ContentHash (value Byte.x01)))).
Lemma conditional_puts_lose_update :
  let first := commit Byte.x03 bound_x in let second := commit Byte.x04 (fst first) in
  admitted Byte.x03 = true /\ admitted Byte.x04 = true
  /\ answered (snd first) = Some (RPut (ContentHash (value Byte.x03)))
  /\ answered (snd second) = Some (RPut (ContentHash (value Byte.x04)))
  /\ tree_of (cw := writer) (fst second) !! abs "data/x" = Some (ContentHash (value Byte.x04)).
Proof. vm_compute. by split_and!. Qed.

(** A listing of the whole tree with a binding of another peer: one of its
    children has the empty name. *)
Definition other : string := "/" +:+ sample_peer +:+ "/data/y".
Lemma root_listing_empty_name :
  match answered (handleGet 50 (context anyone None) (state content {[ other := ContentHash (value Byte.x01) ]}) []) with
  | Some (RListing l) => ld_Entries l !! "" = Some {| ci_hash := None; hasChildren := true |}
  | _ => False
  end.
Proof. vm_compute. reflexivity. Qed.

(** An absolute prefix: the listing names children relative to it, the snapshot
    and the extract key their bindings by the whole path. *)
Lemma absolute_prefix_keys :
  map Key (visible_bindings 50 (context anyone None) (state content tree0) "data/") = ["secret"; "x"]
  /\ map Key (visible_bindings 50 (context anyone None) (state content tree0) (abs "data/")) = [abs "data/secret"; abs "data/x"].
Proof. vm_compute. by split. Qed.

(** A target prefix written as a URI passes the pre-check of a merge and fails
    at the write. *)
Definition uri_prefix : string := "entity://" +:+ local +:+ "/copy/".
Definition uri_req : MergeRequestData := merge_req uri_prefix "source-wins".
Lemma uri_merge_fails_late :
  merge_precheck 50 (context anyone None) content uri_req [("x", ContentHash (value Byte.x01))] = None
  /\ match merge_loop 50 writer (context anyone None) uri_req "source-wins" false (merge_start (state content ∅))
            [("x", ContentHash (value Byte.x01))] with
     | Err st => tree_of (cw := writer) st = ∅
     | Ok _ => False
     end.
Proof. split; vm_compute; reflexivity. Qed.

(** ** The theorems on small trees *)

Lemma handlePut_spec_witness :
  let r := handlePut 50 writer put_ctx bound_x [Byte.x12; Byte.x03] in
  exists req, checkPathPerm 50 put_ctx content "put" "data/x" = true
    /\ expected_ok (ExpectedHash req) (Some (ContentHash (value Byte.x01)))
    /\ commit_effect (cw := writer) put_ctx bound_x (fst r) "data/x" req (snd r).
Proof.
  destruct (handlePut 50 writer put_ctx bound_x [Byte.x12; Byte.x03]) as [st' a] eqn:E.
  destruct (handlePut_spec (cw := writer) 50 put_ctx bound_x st' [Byte.x12; Byte.x03] a E) as [[(s & c & Ha) _]|(req & _ & _ & Hp & He & Hc)].
  - assert (Hs : answered (snd (handlePut 50 writer put_ctx bound_x [Byte.x12; Byte.x03])) = Some (RPut (ContentHash (value Byte.x03))))
      by (vm_compute; reflexivity).
    rewrite E, Ha in Hs. discriminate Hs.
  - exists req. exact (conj Hp (conj He Hc)).
Defined.

Lemma put_then_get_witness :
  exists ent, ContentHash ent = ContentHash (value Byte.x03)
    /\ handleGet 50 put_ctx (fst (handlePut 50 writer put_ctx bound_x [Byte.x12; Byte.x03])) [] = serve (REntity ent).
Proof.
  assert (Hs : answered (snd (handlePut 50 writer put_ctx bound_x [Byte.x12; Byte.x03])) = Some (RPut (ContentHash (value Byte.x03))))
    by (vm_compute; reflexivity).
  destruct (handlePut 50 writer put_ctx bound_x [Byte.x12; Byte.x03]) as [st' a] eqn:E.
  destruct (put_then_get (cw := writer) 50 50 put_ctx put_ctx bound_x st' [Byte.x12; Byte.x03] [] a (ContentHash (value Byte.x03)) no_get)
    as (req & ent & _ & _ & Hh & Hg).
  - exact E.
  - exact Hs.
  - left. reflexivity.
  - reflexivity.
  - discriminate.
  - vm_compute. reflexivity.
  - vm_compute. reflexivity.
  - reflexivity.
  - reflexivity.
  - left. reflexivity.
  - exists ent. exact (conj Hh Hg).
Defined.

(** The capability of the caller hides one of the two children. *)
Definition list_ctx : HandlerContext := context Sample.rootE (Some "data/").
Definition is_listing (a : Answer) : bool :=
  match a with Ok r => match rs_Result r with RListing l => (rs_Status r =? 200) && (ld_Count l =? 1) | _ => false end | Err _ => false end.
Lemma listed_one : is_listing (handleGet 50 list_ctx (state content tree0) [Byte.x01]) = true.
Proof. vm_compute. reflexivity. Qed.

Lemma listing_exact_witness :
  exists l (visible : gmap string childInfo), handleGet 50 list_ctx (state content tree0) [Byte.x01] = serve (RListing l)
    /\ ld_Count l = Z.of_nat (size visible).
Proof.
  pose proof listed_one as Hl.
  destruct (handleGet 50 list_ctx (state content tree0) [Byte.x01]) as [[s t]|] eqn:E; [|discriminate Hl].
  destruct t as [| | |l| | | | | | |]; try discriminate Hl. cbn [is_listing rs_Result rs_Status] in Hl.
  apply andb_prop in Hl as [Hst%Z.eqb_eq _]. subst s.
  destruct (listing_exact (cw := writer) 50 list_ctx (state content tree0) [Byte.x01] l {| Mode := ""; Limit := Some 1; Offset := Some 0 |} E
              eq_refl) as (_ & visible & names & _ & _ & _ & Hc & _).
  - vm_compute. split; discriminate.
  - vm_compute. reflexivity.
  - exists l, visible. split; [reflexivity|exact Hc].
Defined.

(** Peer A extracts for a caller that may not see the secret. *)
Definition ctxA : HandlerContext := context Sample.rootE None.
Definition stA : State := state content tree0.
Definition reqA : ExtractRequestData := {| er_Prefix := "data/"; er_Paths := []; Since := zero_hash |}.

Lemma selected_carried : selected 50 ctxA stA "data/" reqA = carried.
Proof. vm_compute. reflexivity. Qed.

Lemma carried_buildable : buildable_list (text_ok := any_text) carried.
Proof.
  split_and!.
  - apply Bindings.all_ok. intros t ->%list_elem_of_singleton. by exists Byte.x01.
  - apply Bindings.sound_steps_spec. vm_compute. reflexivity.
  - apply (bool_decide_eq_true_1 _). vm_compute. reflexivity.
Qed.

Definition extracts_carried (o : option (State * Answer)) : bool :=
  match o with
  | Some (_, Ok r) => (rs_Status r =? 200) && match rs_Result r with RExtract env => bool_decide (env = carried_env) | _ => false end
  | _ => false
  end.
Lemma extracts_carried_A : extracts_carried (handleExtract 50 ctxA stA [Byte.x70]) = true.
Proof. vm_compute. reflexivity. Qed.

Lemma extracted : exists st', handleExtract 50 ctxA stA [Byte.x70] = Some (st', serve (RExtract carried_env)).
Proof.
  pose proof extracts_carried_A as Hx. destruct (handleExtract 50 ctxA stA [Byte.x70]) as [[st' a]|]; [|discriminate Hx].
  exists st'. destruct a as [[s t]|]; [|discriminate Hx]. cbn [extracts_carried rs_Status rs_Result] in Hx.
  apply andb_prop in Hx as [->%Z.eqb_eq Ht]. destruct t; try discriminate Ht. by apply bool_decide_eq_true_1 in Ht as ->.
Qed.


(** Peer B merges what A extracted into an empty tree. *)
Definition ctxB : HandlerContext := context anyone None.
Definition stB : State := state ∅ ∅.
Definition merged_one (o : option (State * Answer)) : bool :=
  match result_of o with Some (RMerge r) => (Applied r =? 1) && (mr_Skipped r =? 0) | _ => false end.
Lemma merged_B : merged_one (handleMerge 50 writer ctxB stB [Byte.x60]) = true.
Proof. vm_compute. reflexivity. Qed.

Lemma merged : exists st' a r, handleMerge 50 writer ctxB stB [Byte.x60] = Some (st', a) /\ answered a = Some (RMerge r).
Proof.
  pose proof merged_B as Hm. destruct (handleMerge 50 writer ctxB stB [Byte.x60]) as [[st' a]|]; [|discriminate Hm].
  exists st', a. unfold merged_one in Hm. cbn [result_of mbind option_bind snd] in Hm.
  destruct (answered a) as [t|]; [|discriminate Hm]. destruct t; try discriminate Hm. by eexists.
Qed.


Lemma refused_B : match handleMerge 50 writer ctxB stB [Byte.x62] with Some (_, a) => a = refuse 400 "invalid_params" | None => False end.
Proof. vm_compute. reflexivity. Qed.

Lemma merge_refusal_atomic_witness :
  exists st', handleMerge 50 writer ctxB stB [Byte.x62] = Some (st', refuse 400 "invalid_params")
    /\ tree_of (cw := writer) st' = tree_of (cw := writer) stB.
Proof.
  pose proof refused_B as Hr. destruct (handleMerge 50 writer ctxB stB [Byte.x62]) as [[st' a]|] eqn:E; [|destruct Hr]. subst a.
  exists st'. split; [reflexivity|].
  exact (merge_refusal_atomic (cw := writer) 50 ctxB stB st' [Byte.x62] 400 "invalid_params" E).
Defined.

Lemma carried_source source :
  put_hash (Entity.Root carried_env) = Ok source -> source ∉ trie_hashes (trie_nodes (bind_all carried ∅)) ++ map ValueHash carried.
Proof.
  assert (Hp : put_hash (Entity.Root carried_env) = Ok (ContentHash (Entity.Root carried_env))) by (vm_compute; reflexivity).
  rewrite Hp. intros [= <-]. apply (bool_decide_eq_true_1 _). vm_compute. reflexivity.
Qed.

Lemma snapshot_codec root raw : EncodeSnapshot root = Some raw -> DecodeSnapshot raw = Some root.
Proof. cbn. intros [= <-]. rewrite <- (app_nil_r (Code.enc_hash root)). by rewrite Code.dec_enc_hash. Qed.

Definition copied (rel : string) : string := abs ("copy/" +:+ rel).

Lemma extract_then_merge_witness :
  exists st' a r, handleMerge 50 writer ctxB stB [Byte.x60] = Some (st', a)
    /\ merge_effect (merge_req "copy/" "") (bind_all carried ∅) copied ∅ (tree_of (cw := writer) st') r.
Proof.
  destruct extracted as [stA' EA]. destruct merged as (stB' & a & r & EB & Ha). exists stB', a, r. split; [exact EB|].
  destruct (extract_then_merge (text_ok := any_text) (cw := writer) 50 50 ctxA ctxB stA stA' stB stB' [Byte.x70] [Byte.x60] carried_env
              reqA (merge_req "copy/" "") a r "data/" snapshot_codec EA eq_refl) as [_ Hm].
  - vm_compute. reflexivity.
  - vm_compute. reflexivity.
  - rewrite selected_carried. exact carried_buildable.
  - reflexivity.
  - discriminate.
  - reflexivity.
  - exact EB.
  - exact Ha.
  - left. reflexivity.
  - rewrite selected_carried. exact carried_source.
  - rewrite selected_carried in Hm. apply Hm.
    + intros rel h. unfold carried, bind_all. cbn [fold_left Key ValueHash]. intros [<- _]%lookup_singleton_Some. vm_compute. reflexivity.
    + intros x y Hx Hy. unfold copied, abs. by intros ?%append_inj_l%append_inj_l%append_inj_l%append_inj_l.
Defined.
End TreeSample.
