(* ===== verification/RevDag.v ===== *)
(** * The history of versions ([ext/revision/dag.go])

    A version is an entity with the root of a trie and the hashes of its
    parents.  The traversals of the version graph are breadth-first loops over
    a queue; each runs on fuel, [None] is out of fuel, and the theorems give
    their results without it.  A parent that is not stored, or does not decode,
    has no parents of its own. *)

From stdpp Require Import relations.
From S2P Require Import Prelude GoStrings Errors Hash Entity PeerID Paths CapTypes Patterns Check Delegation Revoked Store Notifying Handlers TreeIndex Trie RootTracker TreeHandler TreeOps.

Open Scope Z_scope.

Lemma visit_stored (D V : gset Hash) h : h ∈ D -> h ∉ V -> D ∖ V = {[h]} ∪ (D ∖ ({[h]} ∪ V)).
Proof. intros Hd Hv. apply set_eq. intros x. destruct (decide (x = h)); set_solver. Qed.

Lemma visit_missing (D V : gset Hash) h : h ∉ D -> D ∖ V = D ∖ ({[h]} ∪ V).
Proof. intros Hd. apply set_eq. intros x. destruct (decide (x = h)) as [->|]; set_solver. Qed.

Lemma size_list_to_set_le (l : list Hash) : (size (list_to_set l : gset Hash) <= length l)%nat.
Proof.
  induction l as [|h l IH]; [done|]. rewrite list_to_set_cons, size_union_alt, size_singleton. cbn [length].
  assert (size (list_to_set l ∖ {[h]} : gset Hash) <= size (list_to_set l : gset Hash))%nat
    by (apply subseteq_size, subseteq_difference_l; reflexivity). lia.
Qed.

Section dag.
Context {CS : Type} `{ContentStoreLaws CS} `{TreeCodec}.
Implicit Types (cs : CS) (visited : gset Hash) (queue : list Hash).

(** [RevisionEntryDataFromEntity] of what the store has; no parents otherwise. *)
Definition parents_of cs (h : Hash) : list Hash :=
  match revision_of cs h with Some (_, parents) => parents | None => [] end.

(** ** Fuel: the parents named by the stored entities *)

Definition named_parents cs : list Hash := mjoin (map (parents_of cs) (elements (dom (entities cs)))).
Definition dag_fuel cs : nat := S (S (length (named_parents cs))).

(** ** Walks *)

Fixpoint walk_loop (fuel : nat) cs (limit : Z) (since : Hash) visited queue
    (versions : list (Hash * list Hash)) (hashes : list Hash) : option (list (Hash * list Hash) * list Hash) :=
  match fuel with
  | O => None
  | S fuel' =>
      match queue with
      | [] => Some (versions, hashes)
      | current :: queue =>
          if (0 <? limit) && (limit <=? Z.of_nat (length versions)) then Some (versions, hashes)
          else if decide (current ∈ visited) then walk_loop fuel' cs limit since visited queue versions hashes
          else
            let visited := {[current]} ∪ visited in
            if negb (IsZero since) && bool_decide (current = since)
            then walk_loop fuel' cs limit since visited queue versions hashes
            else match revision_of cs current with
            | None => walk_loop fuel' cs limit since visited queue versions hashes
            | Some v =>
                walk_loop fuel' cs limit since visited
                  (queue ++ filter (fun parent => parent ∉ visited) (snd v)) (versions ++ [v]) (hashes ++ [current])
            end
      end
  end.

Definition walkHistory cs (head : Hash) (limit : Z) (since : Hash) : option (list (Hash * list Hash) * list Hash) :=
  if IsZero head then Some ([], []) else walk_loop (dag_fuel cs) cs limit since ∅ [head] [] [].

Fixpoint ancestor_loop (fuel : nat) cs (potentialAncestor : Hash) visited queue : option bool :=
  match fuel with
  | O => None
  | S fuel' =>
      match queue with
      | [] => Some false
      | current :: queue =>
          if decide (current ∈ visited) then ancestor_loop fuel' cs potentialAncestor visited queue
          else
            let visited := {[current]} ∪ visited in
            if decide (potentialAncestor ∈ parents_of cs current) then Some true
            else ancestor_loop fuel' cs potentialAncestor visited
                   (queue ++ filter (fun parent => parent ∉ visited) (parents_of cs current))
      end
  end.

Definition isAncestor cs (potentialAncestor descendant : Hash) : option bool :=
  if decide (potentialAncestor = descendant) then Some true
  else ancestor_loop (dag_fuel cs) cs potentialAncestor ∅ [descendant].

Definition checkRelationship cs (local remote : Hash) : option string :=
  if decide (local = remote) then Some "in_sync"
  else if IsZero local then Some "behind"
  else if IsZero remote then Some "ahead"
  else
    behind ← isAncestor cs local remote;
    if behind : bool then Some "behind"
    else
      ahead ← isAncestor cs remote local;
      Some (if ahead : bool then "ahead" else "diverged").

(** ** The common ancestor *)

(** The parents that were not discovered yet, each once, in order. *)
Fixpoint discover visited (parents : list Hash) : list Hash * gset Hash :=
  match parents with
  | [] => ([], visited)
  | parent :: parents =>
      if decide (parent ∈ visited) then discover visited parents
      else let '(new, visited) := discover ({[parent]} ∪ visited) parents in (parent :: new, visited)
  end.

(** One side of an iteration: the hash at the front is the answer if the other
    side has discovered it; otherwise its parents are queued. *)
Definition side_step cs (other : gset Hash) (visited : gset Hash) (queue : list Hash) : Hash + (gset Hash * list Hash) :=
  match queue with
  | [] => inr (visited, [])
  | current :: queue =>
      if decide (current ∈ other) then inl current
      else let '(new, visited) := discover visited (parents_of cs current) in inr (visited, queue ++ new)
  end.

Fixpoint ancestor_search (fuel : nat) cs (visitedA visitedB : gset Hash) (queueA queueB : list Hash)
  : option (option Hash) :=
  match fuel with
  | O => None
  | S fuel' =>
      match queueA, queueB with
      | [], [] => Some None
      | _, _ =>
          match side_step cs visitedB visitedA queueA with
          | inl c => Some (Some c)
          | inr (visitedA, queueA) =>
              match side_step cs visitedA visitedB queueB with
              | inl c => Some (Some c)
              | inr (visitedB, queueB) => ancestor_search fuel' cs visitedA visitedB queueA queueB
              end
          end
      end
  end.

Definition findCommonAncestor cs (a b : Hash) : option (option Hash) :=
  if decide (a = b) then Some (Some a)
  else if IsZero a || IsZero b then Some None
  else ancestor_search (S (2 * dag_fuel cs)) cs {[a]} {[b]} [a] [b].

(** ** Reachability *)

Definition parent cs (v p : Hash) : Prop := p ∈ parents_of cs v.
Definition descends cs (d a : Hash) : Prop := rtc (parent cs) d a.

(** ** Breadth-first search *)

Section search.
Variable succ : Hash -> list Hash.
Definition edge (x y : Hash) : Prop := y ∈ succ x.

(** [visited] and [queue] are what a search from [src] has seen and still has
    to look at. *)
Record searched (src : Hash) visited queue : Prop := {
  searched_sound x : x ∈ visited \/ x ∈ queue -> rtc edge src x;
  searched_closed x y : x ∈ visited -> edge x y -> y ∈ visited \/ y ∈ queue;
  searched_src : src ∈ visited \/ src ∈ queue
}.

Lemma searched_start src : searched src ∅ [src].
Proof.
  split.
  - intros x [Hx|Hx]; [by apply elem_of_empty in Hx|]. apply list_elem_of_singleton in Hx as ->. apply rtc_refl.
  - intros x y Hx. by apply elem_of_empty in Hx.
  - right. apply list_elem_of_singleton. done.
Qed.

Lemma searched_skip src visited c queue : c ∈ visited -> searched src visited (c :: queue) -> searched src visited queue.
Proof.
  intros Hc [Hs Hcl Hsrc]. split.
  - intros x Hx. apply Hs. rewrite elem_of_cons. tauto.
  - intros x y Hx Hxy. destruct (Hcl x y Hx Hxy) as [|[->|]%elem_of_cons]; auto.
  - destruct Hsrc as [|[->|]%elem_of_cons]; auto.
Qed.

Lemma searched_expand src visited c queue :
  searched src visited (c :: queue) ->
  searched src ({[c]} ∪ visited) (queue ++ filter (fun p => p ∉ ({[c]} ∪ visited : gset Hash)) (succ c)).
Proof.
  intros [Hs Hcl Hsrc]. set (visited' := {[c]} ∪ visited : gset Hash).
  assert (Hold : forall x, x ∈ visited \/ x ∈ c :: queue -> x ∈ visited' \/ x ∈ queue).
  { intros x. unfold visited'. rewrite elem_of_union, elem_of_singleton, elem_of_cons. tauto. }
  assert (Hc : rtc edge src c) by (apply Hs; rewrite elem_of_cons; auto).
  split.
  - intros x. unfold visited'. rewrite elem_of_union, elem_of_singleton, elem_of_app, list_elem_of_filter.
    intros [[->|Hx]|[Hx|[_ Hx]]]; [done|auto|apply Hs; rewrite elem_of_cons; auto|by eapply rtc_r].
  - intros x y Hx Hxy. rewrite elem_of_app, list_elem_of_filter.
    destruct (decide (y ∈ visited')) as [|Hy]; [auto|].
    unfold visited' in Hx. rewrite elem_of_union, elem_of_singleton in Hx. destruct Hx as [->|Hx].
    + auto.
    + destruct (Hold y (Hcl x y Hx Hxy)); auto.
  - rewrite elem_of_app. destruct (Hold _ Hsrc); auto.
Qed.

Lemma searched_done src visited x : searched src visited [] -> rtc edge src x <-> x ∈ visited.
Proof.
  intros [Hs Hcl Hsrc]. split; [|auto]. intros Hx.
  assert (Hrefl : src ∈ visited) by (destruct Hsrc as [|Hn%elem_of_nil]; done).
  revert Hrefl. clear Hsrc Hs. induction Hx as [|x y z Hxy _ IH]; [done|].
  intros Hx. apply IH. destruct (Hcl x y Hx Hxy) as [|Hn%elem_of_nil]; done.
Qed.
End search.

(** *** Termination *)

(** The parents of the stored versions that were not visited. *)
Definition pending cs visited : nat :=
  sum_list_with (fun h => length (parents_of cs h)) (elements (dom (entities cs) ∖ visited)).

Lemma parents_stored cs h p : p ∈ parents_of cs h -> h ∈ dom (entities cs).
Proof.
  unfold parents_of, revision_of. rewrite cs_get_spec. destruct (entities cs !! h) eqn:E; simpl.
  - intros _. by eapply elem_of_dom_2.
  - by intros ?%elem_of_nil.
Qed.

Lemma pending_visit cs visited h :
  h ∉ visited -> pending cs visited = (length (parents_of cs h) + pending cs ({[h]} ∪ visited))%nat.
Proof.
  intros Hh. unfold pending. destruct (decide (h ∈ dom (entities cs))) as [Hd|Hd].
  - assert (E : dom (entities cs) ∖ visited = {[h]} ∪ (dom (entities cs) ∖ ({[h]} ∪ visited))).
    { by apply visit_stored. }
    rewrite E at 1. rewrite elements_union_singleton by (rewrite elem_of_difference, elem_of_union, elem_of_singleton; tauto).
    done.
  - assert (E : dom (entities cs) ∖ visited = dom (entities cs) ∖ ({[h]} ∪ visited)).
    { by apply visit_missing. }
    rewrite <- E. replace (parents_of cs h) with (@nil Hash); [done|].
    destruct (parents_of cs h) as [|p ps] eqn:Ep; [done|]. exfalso. apply Hd, (parents_stored cs h p).
    rewrite Ep. left.
Qed.

Lemma pending_start cs : length (named_parents cs) = pending cs ∅.
Proof.
  unfold named_parents, pending. rewrite difference_empty_L. induction (elements (dom (entities cs))) as [|h l IH]; [done|].
  simpl. by rewrite length_app, IH.
Qed.

Lemma length_pushed {P : Hash -> Prop} `{forall x, Decision (P x)} (queue l : list Hash) :
  (length (queue ++ filter P l) <= length queue + length l)%nat.
Proof. rewrite length_app. pose proof (length_filter P l). lia. Qed.

(** ** Ancestry *)

Lemma ancestor_loop_spec cs a d fuel visited queue :
  a <> d ->
  searched (parents_of cs) d visited queue ->
  (forall x, x ∈ visited -> a ∉ parents_of cs x) ->
  (length queue + pending cs visited < fuel)%nat ->
  exists r, ancestor_loop fuel cs a visited queue = Some r /\ (r = true <-> descends cs d a).
Proof.
  intros Hne. revert visited queue. induction fuel as [|fuel IH]; intros visited queue Hs Hno Hf; [lia|].
  destruct queue as [|c queue]; cbn [ancestor_loop].
  { exists false. split; [done|]. split; [done|]. intros Hd.
    apply rtc_inv_r in Hd as [Hd|(y & Hy & Hya)]; [by subst|].
    apply (searched_done _ _ _ _ Hs) in Hy. by destruct (Hno y Hy). }
  case_decide as Hc.
  - apply IH; [by eapply searched_skip|done|simpl in Hf; lia].
  - case_decide as Hp.
    + exists true. split; [done|]. split; [|done]. intros _. apply rtc_r with c; [|done].
      apply (searched_sound _ _ _ _ Hs). right. left.
    + apply IH.
      * by apply searched_expand.
      * intros x. rewrite elem_of_union, elem_of_singleton. intros [->|Hx]; auto.
      * rewrite (pending_visit cs visited c Hc) in Hf. simpl in Hf.
        pose proof (length_pushed (P := fun p => p ∉ ({[c]} ∪ visited : gset Hash)) queue (parents_of cs c)). lia.
Qed.

Lemma isAncestor_spec cs a d : exists r, isAncestor cs a d = Some r /\ (r = true <-> descends cs d a).
Proof.
  unfold isAncestor. case_decide as Hd.
  - exists true. subst. split; [done|]. split; [|done]. intros _. apply rtc_refl.
  - apply ancestor_loop_spec; [done|apply searched_start| |].
    + intros x Hx. by apply elem_of_empty in Hx.
    + rewrite <- pending_start. unfold dag_fuel. simpl. lia.
Qed.

(** [checkRelationship] always answers, and what it answers is the relation
    of the two heads in the version graph: a zero head precedes every other,
    ["behind"] means that the remote version descends from the local one,
    ["ahead"] the converse and not ["behind"], ["diverged"] neither. *)
Theorem checkRelationship_spec cs local remote :
  exists r, checkRelationship cs local remote = Some r
    /\ (r = "in_sync" <-> local = remote)
    /\ (r = "behind" <-> local <> remote /\ (IsZero local = true \/ IsZero remote = false /\ descends cs remote local))
    /\ (r = "ahead" <-> local <> remote /\ IsZero local = false
          /\ (IsZero remote = true \/ ~ descends cs remote local /\ descends cs local remote))
    /\ (r = "diverged" <-> IsZero local = false /\ IsZero remote = false
          /\ ~ descends cs remote local /\ ~ descends cs local remote).
Proof.
  unfold checkRelationship. case_decide as He.
  { subst. exists "in_sync". split; [done|]. assert (descends cs remote remote) by apply rtc_refl. naive_solver. }
  destruct (IsZero local) eqn:Hl; [exists "behind"; naive_solver|].
  destruct (IsZero remote) eqn:Hr; [exists "ahead"; naive_solver|].
  destruct (isAncestor_spec cs local remote) as ([|] & -> & Hb); simpl; [exists "behind"; naive_solver|].
  destruct (isAncestor_spec cs remote local) as ([|] & -> & Ha); simpl; [exists "ahead"; naive_solver|].
  exists "diverged". naive_solver.
Qed.

(** ** History *)

(** The versions a walk lists: those that decode, except [since]; it goes on to
    their parents. *)
Definition listed cs (since : Hash) (h : Hash) : Prop :=
  is_Some (revision_of cs h) /\ ~ (IsZero since = false /\ h = since).
Definition walked cs (since : Hash) (h : Hash) : list Hash :=
  if negb (IsZero since) && bool_decide (h = since) then [] else parents_of cs h.

Record walk_inv cs (since : Hash) visited (versions : list (Hash * list Hash)) (hashes : list Hash) : Prop := {
  wi_versions : map (revision_of cs) hashes = map Some versions;
  wi_NoDup : NoDup hashes;
  wi_listed h : h ∈ hashes <-> h ∈ visited /\ listed cs since h
}.

Lemma stopped_iff since h : negb (IsZero since) && bool_decide (h = since) = true <-> IsZero since = false /\ h = since.
Proof. rewrite andb_true_iff, negb_true_iff, bool_decide_eq_true. done. Qed.

Lemma walk_inv_skip cs since visited versions hashes c :
  ~ listed cs since c -> walk_inv cs since visited versions hashes ->
  walk_inv cs since ({[c]} ∪ visited) versions hashes.
Proof.
  intros Hc [Hv Hn Hl]. split; [done..|]. intros h. rewrite Hl, elem_of_union, elem_of_singleton.
  split; [tauto|]. intros [[->|] ?]; tauto.
Qed.

Lemma walk_inv_list cs since visited versions hashes c v :
  c ∉ visited -> listed cs since c -> revision_of cs c = Some v -> walk_inv cs since visited versions hashes ->
  walk_inv cs since ({[c]} ∪ visited) (versions ++ [v]) (hashes ++ [c]).
Proof.
  intros Hc Hlc Hr [Hv Hn Hl]. split.
  - rewrite !map_app, Hv. simpl. by rewrite Hr.
  - apply NoDup_app. split; [done|]. split; [|apply NoDup_singleton].
    intros x [Hx _]%Hl ->%list_elem_of_singleton. done.
  - intros h. rewrite elem_of_app, Hl, elem_of_union, elem_of_singleton, list_elem_of_singleton.
    split; [intros [?| ->]; tauto|intros [[->|] ?]; tauto].
Qed.

Lemma walk_loop_spec cs since head fuel visited queue versions hashes :
  searched (walked cs since) head visited queue ->
  walk_inv cs since visited versions hashes ->
  (length queue + pending cs visited < fuel)%nat ->
  exists vs hs, walk_loop fuel cs 0 since visited queue versions hashes = Some (vs, hs)
    /\ map (revision_of cs) hs = map Some vs /\ NoDup hs
    /\ forall h, h ∈ hs <-> rtc (edge (walked cs since)) head h /\ listed cs since h.
Proof.
  revert visited queue versions hashes. induction fuel as [|fuel IH]; intros visited queue versions hashes Hs Hw Hf; [lia|].
  destruct queue as [|c queue]; cbn [walk_loop].
  { exists versions, hashes. split; [done|]. split; [apply Hw|]. split; [apply Hw|].
    intros h. by rewrite (wi_listed _ _ _ _ _ Hw), (searched_done _ _ _ h Hs). }
  cbn [Z.ltb Z.compare andb]. case_decide as Hc; [apply IH; [by eapply searched_skip|done|simpl in Hf; lia]|].
  rewrite (pending_visit cs visited c Hc) in Hf. simpl in Hf.
  pose proof (searched_expand _ _ _ _ _ Hs) as Hs'. unfold walked at 2 in Hs'.
  destruct (negb (IsZero since) && bool_decide (c = since)) eqn:Hst.
  { rewrite filter_nil, app_nil_r in Hs'. apply IH; [done| |lia].
    apply walk_inv_skip; [|done]. apply stopped_iff in Hst. unfold listed. tauto. }
  unfold parents_of in Hs'. destruct (revision_of cs c) as [v|] eqn:Hr.
  - assert (Hlc : listed cs since c).
    { split; [eauto|]. rewrite <- stopped_iff, Hst. done. }
    unfold parents_of in Hf. rewrite Hr in Hf. destruct v as [root ps].
    apply IH; [done|by apply walk_inv_list|].
    pose proof (length_pushed (P := fun p => p ∉ ({[c]} ∪ visited : gset Hash)) queue ps). cbn [snd] in *. lia.
  - rewrite filter_nil, app_nil_r in Hs'. apply IH; [done| |lia].
    apply walk_inv_skip; [|done]. unfold listed. rewrite Hr. intros [[? [=]] _].
Qed.

Lemma walk_loop_extends cs limit since fuel visited queue versions hashes vs hs :
  walk_loop fuel cs limit since visited queue versions hashes = Some (vs, hs) ->
  exists vs' hs', vs = versions ++ vs' /\ hs = hashes ++ hs'.
Proof.
  revert visited queue versions hashes. induction fuel as [|fuel IH]; intros visited queue versions hashes; [done|].
  assert (Hend : Some (versions, hashes) = Some (vs, hs) -> exists vs' hs', vs = versions ++ vs' /\ hs = hashes ++ hs').
  { intros [= <- <-]. exists [], []. by rewrite !app_nil_r. }
  cbn [walk_loop]. destruct queue as [|c queue]; [done|]. destruct (_ && _); [done|].
  case_decide; [apply IH|]. destruct (_ && _); [apply IH|]. destruct (revision_of cs c) as [v|]; [|apply IH].
  intros (vs' & hs' & -> & ->)%IH. exists (v :: vs'), (c :: hs'). by rewrite <- !app_assoc.
Qed.

Lemma walk_loop_limit cs limit since fuel visited queue versions hashes vs hs :
  0 < limit -> length versions = length hashes -> Z.of_nat (length versions) <= limit ->
  walk_loop fuel cs 0 since visited queue versions hashes = Some (vs, hs) ->
  walk_loop fuel cs limit since visited queue versions hashes = Some (take (Z.to_nat limit) vs, take (Z.to_nat limit) hs).
Proof.
  intros Hpos. revert visited queue versions hashes.
  induction fuel as [|fuel IH]; intros visited queue versions hashes Hlen Hle; [done|].
  cbn [walk_loop]. destruct queue as [|c queue].
  { intros [= <- <-]. by rewrite !take_ge by lia. }
  cbn [Z.ltb Z.compare andb]. destruct ((0 <? limit) && (limit <=? Z.of_nat (length versions))) eqn:Hlim.
  - intros Hw. assert (Hext : exists vs' hs', vs = versions ++ vs' /\ hs = hashes ++ hs').
    { apply (walk_loop_extends cs 0 since (S fuel) visited (c :: queue)). exact Hw. }
    destruct Hext as (vs' & hs' & -> & ->). apply andb_prop in Hlim as [_ Hlim%Z.leb_le].
    by rewrite !take_app_length' by lia.
  - apply andb_false_iff in Hlim as [Hlim%Z.ltb_ge|Hlim%Z.leb_gt]; [lia|].
    case_decide; [by apply IH|]. destruct (_ && _); [by apply IH|].
    destruct (revision_of cs c) as [v|]; [|by apply IH]. apply IH; rewrite !length_app; simpl; lia.
Qed.

(** A walk of the history lists every version that is reachable from the head
    without passing [since], each once and with its data, and no other; a
    positive limit gives the first entries of that list. *)
Theorem walkHistory_exact cs head since limit :
  IsZero head = false ->
  exists vs hs, walkHistory cs head 0 since = Some (vs, hs)
    /\ map (revision_of cs) hs = map Some vs /\ NoDup hs
    /\ (forall h, h ∈ hs <-> rtc (edge (walked cs since)) head h /\ listed cs since h)
    /\ (0 < limit -> walkHistory cs head limit since = Some (take (Z.to_nat limit) vs, take (Z.to_nat limit) hs)).
Proof.
  intros Hz. unfold walkHistory. rewrite Hz.
  destruct (walk_loop_spec cs since head (dag_fuel cs) ∅ [head] [] []) as (vs & hs & Hw & Hrest).
  - apply searched_start.
  - split; [done|constructor|]. intros h. rewrite elem_of_nil, elem_of_empty. tauto.
  - rewrite <- pending_start. unfold dag_fuel. simpl. lia.
  - exists vs, hs. split; [done|]. destruct Hrest as (? & ? & ?). repeat (split; [done|]).
    intros Hpos. apply walk_loop_limit; simpl; [done|done|lia|done].
Qed.

(** ** The common ancestor *)

Lemma discover_spec visited parents new visited' :
  discover visited parents = (new, visited') ->
  NoDup new /\ (forall x, x ∈ new <-> x ∈ parents /\ x ∉ visited) /\ visited' = visited ∪ list_to_set new.
Proof.
  revert visited new. induction parents as [|p parents IH]; intros visited new; simpl.
  { intros [= <- <-]. split; [constructor|]. split; [|apply set_eq; set_solver].
    intros x. rewrite !elem_of_nil. tauto. }
  case_decide as Hp.
  - intros (Hn & Hx & ->)%IH. split; [done|]. split; [|done]. intros x. rewrite Hx, elem_of_cons.
    split; [tauto|]. intros [[->|] ?]; tauto.
  - destruct (discover _ parents) as [new' v'] eqn:E. intros [= <- <-].
    apply IH in E as (Hn & Hx & ->). split.
    + constructor; [|done]. rewrite Hx, elem_of_union, elem_of_singleton. tauto.
    + split.
      * intros x. rewrite !elem_of_cons, Hx, elem_of_union, elem_of_singleton.
        destruct (decide (x = p)) as [->|]; tauto.
      * apply set_eq. intros x. simpl. rewrite !elem_of_union, elem_of_singleton. tauto.
Qed.

(** The named parents that a side has not discovered. *)
Definition unseen cs visited : nat := size (list_to_set (named_parents cs) ∖ visited).

Lemma parents_named cs h p : p ∈ parents_of cs h -> p ∈ named_parents cs.
Proof.
  intros Hp. unfold named_parents. apply list_elem_of_join. exists (parents_of cs h). split; [done|].
  apply list_elem_of_fmap. exists h. split; [done|]. apply elem_of_elements. by eapply parents_stored.
Qed.

Lemma unseen_discover cs visited h new visited' :
  discover visited (parents_of cs h) = (new, visited') -> (length new + unseen cs visited' = unseen cs visited)%nat.
Proof.
  intros (Hn & Hx & ->)%discover_spec. unfold unseen.
  rewrite <- (size_list_to_set (C := gset Hash) new) by done. rewrite <- size_union.
  - f_equal. apply set_eq. intros x. rewrite elem_of_union, !elem_of_difference, elem_of_union, !elem_of_list_to_set.
    destruct (decide (x ∈ new)) as [Hin|Hin]; [|tauto].
    pose proof Hin as [Hp Hv]%Hx. apply parents_named in Hp. tauto.
  - intros x. rewrite elem_of_difference, elem_of_union, elem_of_list_to_set. tauto.
Qed.

(** What one side of the search has discovered, and has still to look at. *)
Record side cs (src : Hash) visited queue : Prop := {
  side_sound x : x ∈ visited -> descends cs src x;
  side_queue x : x ∈ queue -> x ∈ visited;
  side_closed x p : x ∈ visited -> x ∉ queue -> parent cs x p -> p ∈ visited;
  side_src : src ∈ visited
}.

Lemma side_start cs src : side cs src {[src]} [src].
Proof.
  split.
  - intros x ->%elem_of_singleton. apply rtc_refl.
  - intros x ->%list_elem_of_singleton. by apply elem_of_singleton.
  - intros x p Hx%elem_of_singleton Hn. rewrite list_elem_of_singleton in Hn. done.
  - by apply elem_of_singleton.
Qed.

Lemma side_done cs src visited x : side cs src visited [] -> descends cs src x -> x ∈ visited.
Proof.
  intros [_ _ Hcl Hsrc] Hx. revert Hsrc. induction Hx as [|x y z Hxy _ IH]; [done|].
  intros Hx. apply IH, (Hcl x y Hx); [apply not_elem_of_nil|done].
Qed.

Lemma side_step_found cs src other visited queue c :
  side cs src visited queue -> side_step cs other visited queue = inl c -> c ∈ other /\ descends cs src c.
Proof.
  intros Hs. unfold side_step. destruct queue as [|x queue]; [done|]. case_decide as Hx.
  - intros [= <-]. split; [done|]. apply (side_sound _ _ _ _ Hs), (side_queue _ _ _ _ Hs). left.
  - by destruct (discover _ _).
Qed.

Lemma side_step_next cs src other visited queue visited' queue' :
  side cs src visited queue -> side_step cs other visited queue = inr (visited', queue') ->
  side cs src visited' queue'
  /\ (forall x, x ∈ visited' -> x ∈ other -> x ∈ queue' \/ x ∈ visited /\ x ∉ queue)
  /\ (length queue' + unseen cs visited' = pred (length queue) + unseen cs visited)%nat.
Proof.
  intros Hs. unfold side_step. destruct queue as [|c queue].
  { intros [= <- <-]. split; [done|]. split; [|done]. intros x Hx _. right. split; [done|apply not_elem_of_nil]. }
  case_decide as Hc; [done|]. destruct (discover visited (parents_of cs c)) as [new v] eqn:E. intros [= <- <-].
  pose proof (unseen_discover _ _ _ _ _ E) as Hu. apply discover_spec in E as (Hn & Hx & ->).
  destruct Hs as [Hso Hq Hcl Hsrc].
  assert (Hcv : c ∈ visited) by (apply Hq; left).
  split; [split|split].
  - intros x. rewrite elem_of_union, elem_of_list_to_set, Hx. intros [|[Hp _]]; [auto|]. apply rtc_r with c; [by apply Hso|done].
  - intros x. rewrite elem_of_app, elem_of_union, elem_of_list_to_set. intros [|]; [|auto]. left. apply Hq. by right.
  - intros x p. rewrite !elem_of_union, !elem_of_list_to_set, elem_of_app. intros [Hv|] Hnq Hp; [|tauto].
    destruct (decide (x = c)) as [->|Hxc].
    + destruct (decide (p ∈ visited)); [auto|]. right. by apply Hx.
    + left. apply (Hcl x p Hv); [|done]. rewrite elem_of_cons. tauto.
  - apply elem_of_union. auto.
  - intros x. rewrite elem_of_union, elem_of_list_to_set, elem_of_app, elem_of_cons. intros [Hv|] Ho; [|auto].
    destruct (decide (x = c)) as [->|]; [done|]. destruct (decide (x ∈ queue)); [auto|tauto].
  - rewrite length_app. simpl. lia.
Qed.

Lemma ancestor_search_spec cs a b fuel visitedA visitedB queueA queueB :
  side cs a visitedA queueA -> side cs b visitedB queueB ->
  (forall x, x ∈ visitedA -> x ∈ visitedB -> x ∈ queueA \/ x ∈ queueB) ->
  (length queueA + unseen cs visitedA + (length queueB + unseen cs visitedB) < fuel)%nat ->
  exists r, ancestor_search fuel cs visitedA visitedB queueA queueB = Some r
    /\ match r with
       | Some c => descends cs a c /\ descends cs b c
       | None => forall c, descends cs a c -> ~ descends cs b c
       end.
Proof.
  revert visitedA visitedB queueA queueB. induction fuel as [|fuel IH]; intros visitedA visitedB queueA queueB HA HB Hm Hf; [lia|].
  cbn [ancestor_search]. destruct (decide (queueA = [] /\ queueB = [])) as [[-> ->]|Hne].
  { exists None. split; [done|]. intros c Hca Hcb.
    destruct (Hm c (side_done _ _ _ _ HA Hca) (side_done _ _ _ _ HB Hcb)) as [Hn|Hn]; by apply elem_of_nil in Hn. }
  set (body := match side_step cs visitedB visitedA queueA with inl c => _ | inr _ => _ end).
  replace (match queueA, queueB with [], [] => Some None | _, _ => body end) with body
    by (destruct queueA, queueB; [tauto|done..]).
  unfold body. destruct (side_step cs visitedB visitedA queueA) as [c|[vA qA]] eqn:EA.
  { exists (Some c). split; [done|]. apply (side_step_found _ _ _ _ _ _ HA) in EA as [Hcb Hca].
    split; [done|]. by apply (side_sound _ _ _ _ HB). }
  apply (side_step_next _ _ _ _ _ _ _ HA) in EA as (HA' & HmA & HfA).
  destruct (side_step cs vA visitedB queueB) as [c|[vB qB]] eqn:EB.
  { exists (Some c). split; [done|]. apply (side_step_found _ _ _ _ _ _ HB) in EB as [Hca Hcb].
    split; [by apply (side_sound _ _ _ _ HA')|done]. }
  apply (side_step_next _ _ _ _ _ _ _ HB) in EB as (HB' & HmB & HfB).
  apply IH; [done..| |].
  - intros x HxA HxB. destruct (HmB x HxB HxA) as [|[HvB HqB]]; [auto|].
    destruct (HmA x HxA HvB) as [|[HvA HqA]]; [auto|]. destruct (Hm x HvA HvB); tauto.
  - destruct queueA, queueB; simpl in *; [tauto|lia..].
Qed.

Lemma unseen_bound cs visited : (unseen cs visited <= length (named_parents cs))%nat.
Proof.
  unfold unseen. etransitivity; [|apply size_list_to_set_le]. apply subseteq_size, subseteq_difference_l. reflexivity.
Qed.

(** The search for a common ancestor always ends.  What it finds is an ancestor
    of both versions, and it finds one whenever two stored versions have one. *)
Theorem findCommonAncestor_spec cs a b :
  exists r, findCommonAncestor cs a b = Some r
    /\ (forall c, r = Some c -> descends cs a c /\ descends cs b c)
    /\ (r = None -> a <> b /\ (IsZero a = true \/ IsZero b = true \/ forall c, descends cs a c -> ~ descends cs b c)).
Proof.
  unfold findCommonAncestor. case_decide as Hab.
  { subst. exists (Some b). split; [done|]. split; [|done]. intros c [= <-]. split; apply rtc_refl. }
  destruct (IsZero a || IsZero b) eqn:Hz.
  { exists None. split; [done|]. split; [done|]. intros _. split; [done|]. apply orb_prop in Hz. tauto. }
  destruct (ancestor_search_spec cs a b (S (2 * dag_fuel cs)) {[a]} {[b]} [a] [b]) as (r & -> & Hr).
  - apply side_start.
  - apply side_start.
  - intros x Hx _. left. apply elem_of_singleton in Hx as ->. by apply list_elem_of_singleton.
  - pose proof (unseen_bound cs {[a]}). pose proof (unseen_bound cs {[b]}). unfold dag_fuel. simpl. lia.
  - exists r. split; [done|]. split; [by intros c ->|]. intros ->. auto.
Qed.

End dag.
