(* ===== verification/RevMerge.v ===== *)
(** * The three-way merge of versions ([ext/revision])

    [trie_merge.go] with the strategies of [strategy.go] and the markers of
    [deletion_markers.go].  A merge walks three tries together and settles each
    key: from the sides alone, by the deletion policy, or by the merge strategy
    configured for the key, which may store a merged entity or call another
    handler; the stores are therefore threaded through the walk.  [TriePanic]
    and [TrieDiverges] are as in [Trie].  The handler context is never nil
    here. *)

From Stdlib Require Import Ascii.
From S2P Require Import Prelude GoStrings Errors Hash Entity PeerID Paths CapTypes Patterns Check Delegation Revoked Store Notifying Handlers TreeIndex Trie RootTracker TreeHandler TreeOps.

Open Scope Z_scope.

(** ** Data *)

Record RevisionMergeConfigData := {
  mc_Pattern : string; mc_Strategy : string; mc_DeletionResolution : string; mc_Handler : string }.

Record RevisionConflictData := {
  cf_Path : string; cf_Base : Hash; cf_Local : Hash; cf_Remote : Hash; cf_Strategy : string;
  cf_VersionLocal : Hash; cf_VersionRemote : Hash; cf_Supersedes : Hash }.

Record RevisionConfigData := {
  rc_Prefix : string; rc_Exclude : list string; rc_ExcludeTypes : list string;
  rc_AutoVersion : option bool; rc_MergeOrder : string; rc_OscillationDepth : option Z }.

(** The encoders and decoders of the extension.  [Value] is [interface{}], the
    zero of which is nil; an encoding error leaves no bytes. *)
Class RevisionCodec := {
  DecodeMergeConfig : list byte -> option RevisionMergeConfigData;
  DecodeRevisionConfig : list byte -> option RevisionConfigData;
  Value : Type;
  nil_value : Value;
  EncodeValue : Value -> list byte;
  DecodeValues : list byte -> option (gmap string Value);
  EncodeValues : gmap string Value -> option (list byte);
  EncodeMergeRequest : Hash -> Hash -> Hash -> option (list byte);
  (** The fields [resolved] and [entity]. *)
  DecodeMergeResponse : list byte -> option (bool * Hash);
  EncodeRevision : Hash -> list Hash -> option (list byte);
  (** The head of a fetch result. *)
  DecodeFetchHead : list byte -> option Hash;
  EncodeConflict : RevisionConflictData -> option (list byte);
  (** [ecf.Decode] into a string. *)
  DecodeText : list byte -> option string
}.

(** ** Patterns *)

Definition globMatch (pattern subject : string) : bool :=
  if String.eqb pattern "*" then true
  else if HasSuffix pattern "/*" then HasPrefix subject (str_take (slen pattern - 1) pattern)
  else if HasPrefix pattern "*" then HasSuffix subject (str_drop 1 pattern)
  else String.eqb subject pattern.

Definition matchesAnyPattern (p : string) (patterns : list string) : bool := any (fun pattern => globMatch pattern p) patterns.

(** [strings.Count] of one character. *)
Definition count_char (c : ascii) (s : string) : nat :=
  length (filter (fun x => x = c) (String.list_ascii_of_string s)).

Definition validExcludePattern (pattern : string) : bool :=
  match count_char "*" pattern with
  | 0%nat => true
  | 1%nat => String.eqb pattern "*" || HasSuffix pattern "/*" || HasPrefix pattern "*"
  | _ => false
  end.

(** ** Configurations *)

Definition validMergeStrategies : list string :=
  ["three-way"; "source-wins"; "target-wins"; "lww"; "keep-both"; "manual"; "handler"].

(** [true] is a nil error. *)
Definition ValidateMergeStrategy (strategy handlerPath : string) : bool :=
  if String.eqb strategy "" then true
  else if negb (bool_decide (strategy ∈ validMergeStrategies)) then false
  else if String.eqb strategy "handler" && String.eqb handlerPath "" then false
  else if negb (String.eqb strategy "handler") && negb (String.eqb handlerPath "") then false
  else true.

Definition invalidDeletionStrategies : list string := ["keep-both"; "lww"].
Definition ValidateDeletionResolution (s : string) : bool :=
  if String.eqb s "" then true
  else if bool_decide (s ∈ invalidDeletionStrategies) then false
  else bool_decide (s ∈ ["preserve-on-conflict"; "deletion-wins"; "three-way-fallthrough"; "deterministic"]).

Record mergeConfigKey := { ck_rank : Z; ck_litLen : nat; ck_pattern : string; ck_name : string }.

Definition mergeConfigKeyOf (pattern name : string) : mergeConfigKey :=
  {| ck_rank := if String.eqb pattern "*" then 0 else if HasSuffix pattern "/*" then 2 else if HasPrefix pattern "*" then 1 else 3;
     ck_litLen := if (count_char "*" pattern =? 0)%nat then slen pattern else slen pattern - 1;
     ck_pattern := pattern; ck_name := name |}.

Definition moreSpecific (a b : mergeConfigKey) : bool :=
  if negb (ck_rank a =? ck_rank b) then ck_rank b <? ck_rank a
  else if negb (ck_litLen a =? ck_litLen b)%nat then (ck_litLen b <? ck_litLen a)%nat
  else if negb (String.eqb (ck_pattern a) (ck_pattern b)) then String.ltb (ck_pattern a) (ck_pattern b)
  else String.ltb (ck_name a) (ck_name b).

Definition mergeConfigName (storagePath : string) : string :=
  match LastIndexByte storagePath "/" with Some i => str_drop (i + 1) storagePath | None => storagePath end.

Definition mergeConfigPathScope (name : string) : string := "system/revision/config/merge/path/" +:+ name.
Definition mergeConfigTypeScope (name : string) : string := "system/revision/config/merge/type/" +:+ name.

(** The selection both lookups make: the first of the most specific. *)
Definition more_specific_of {A} (best : option (mergeConfigKey * A)) (c : mergeConfigKey * A) : option (mergeConfigKey * A) :=
  match best with
  | None => Some c
  | Some b => if moreSpecific (fst c) (fst b) then Some c else best
  end.

Record strategyChoice := { sc_strategy : string; sc_handlerPath : string }.

Record mergeStrategyResult := { resolved : bool; sr_hash : Hash; additionalBindings : list (string * Hash) }.
Definition unresolved : mergeStrategyResult := {| resolved := false; sr_hash := zero_hash; additionalBindings := [] |}.
Definition resolved_to (h : Hash) : mergeStrategyResult := {| resolved := true; sr_hash := h; additionalBindings := [] |}.

(** The first difference of two byte strings, over their common length. *)
Fixpoint byte_order (a b : list byte) : comparison :=
  match a, b with
  | x :: a, y :: b => match Z.compare (bZ x) (bZ y) with Eq => byte_order a b | c => c end
  | _, _ => Eq
  end.

Section merge.
Context {CS L IX : Type} `{ContentStoreLaws CS} `{LocationIndex L} `{CapabilityIndex IX} `{Base58, DataCodec, TreeCodec, NodeCodec, RevisionCodec}.
Abbreviation State := (TreeState CS L IX).
Implicit Types (hctx : HandlerContext) (st : State).

(** [hctx.Execute] with the operation ["merge"]: the status and the result, or
    an error; [None] when the context has no dispatch. *)
Variable Execute : option (State -> string -> Entity -> State * option (Z * Entity)).

(** *** Choosing a strategy *)

Definition lookupEntity hctx st (path : string) : option Entity :=
  let qualified := QualifyPath (hc_LocalPeerID hctx) path in
  match Get (ts_Index st) path with
  | Some h => cs_Get (ts_Store st) h
  | None =>
      if String.eqb qualified path then None
      else match Get (ts_Index st) qualified with Some h => cs_Get (ts_Store st) h | None => None end
  end.

Definition mergeConfigTypesToCheck (cs : CS) (local remote : Hash) : list string :=
  let type_of (h : Hash) : list string :=
    if IsZero h then [] else match cs_Get cs h with Some ent => [Type_ ent] | None => [] end in
  match type_of local, type_of remote with
  | t :: _, u :: _ => if String.eqb u t then [t] else [t; u]
  | ts, us => ts ++ us
  end.

(** The config a type lookup returns, if it is one that was accepted on write. *)
Definition type_config hctx st (typeName : string) : option strategyChoice :=
  match lookupEntity hctx st (mergeConfigTypeScope typeName) with
  | None => None
  | Some ent =>
      match DecodeMergeConfig (Data ent) with
      | None => None
      | Some cfg =>
          if ValidateMergeStrategy (mc_Strategy cfg) (mc_Handler cfg)
          then Some {| sc_strategy := mc_Strategy cfg; sc_handlerPath := mc_Handler cfg |} else None
      end
  end.

(** The decodable path configs that match, with their keys. *)
Definition path_configs st (relPath : string) : list (mergeConfigKey * RevisionMergeConfigData) :=
  omap (fun entry =>
          ent ← cs_Get (ts_Store st) (le_Hash entry);
          cfg ← DecodeMergeConfig (Data ent);
          if globMatch (mc_Pattern cfg) relPath
          then Some (mergeConfigKeyOf (mc_Pattern cfg) (mergeConfigName (le_Path entry)), cfg) else None)
       (List_ (ts_Index st) (mergeConfigPathScope "")).

Fixpoint first_some {A B} (f : A -> option B) (l : list A) : option B :=
  match l with [] => None | x :: l => match f x with Some y => Some y | None => first_some f l end end.

Definition findMergeStrategy hctx st (relPath override : string) (local remote : Hash) : strategyChoice :=
  if negb (String.eqb override "") then {| sc_strategy := override; sc_handlerPath := "" |}
  else match first_some (type_config hctx st) (mergeConfigTypesToCheck (ts_Store st) local remote) with
  | Some choice => choice
  | None =>
      match foldl more_specific_of None (path_configs st relPath) with
      | Some (_, cfg) => {| sc_strategy := mc_Strategy cfg; sc_handlerPath := mc_Handler cfg |}
      | None => {| sc_strategy := "three-way"; sc_handlerPath := "" |}
      end
  end.

Definition resolveDeletionStrategy st (relPath : string) : string :=
  match foldl more_specific_of None
          (filter (fun kc => negb (String.eqb (mc_DeletionResolution (snd kc)) "")
                             && ValidateDeletionResolution (mc_DeletionResolution (snd kc)) = true) (path_configs st relPath)) with
  | Some (_, cfg) => mc_DeletionResolution cfg
  | None => "preserve-on-conflict"
  end.

(** *** Applying a strategy *)

(** One field: nil stands for an absent one; [None] is a conflict. *)
Definition merge_field (baseMap localMap remoteMap : gmap string Value) (key : string) : option (string * Value) :=
  let val (m : gmap string Value) := match m !! key with Some v => v | None => nil_value end in
  let localChanged := negb (bool_decide (EncodeValue (val localMap) = EncodeValue (val baseMap))) in
  let remoteChanged := negb (bool_decide (EncodeValue (val remoteMap) = EncodeValue (val baseMap))) in
  match localChanged, remoteChanged with
  | false, false => Some (key, val baseMap)
  | true, false => Some (key, val localMap)
  | false, true => Some (key, val remoteMap)
  | true, true =>
      if bool_decide (EncodeValue (val localMap) = EncodeValue (val remoteMap)) then Some (key, val localMap) else None
  end.

Definition merge_fields (baseMap localMap remoteMap : gmap string Value) : option (gmap string Value) :=
  list_to_map <$> mapM (merge_field baseMap localMap remoteMap)
                    (elements (dom baseMap ∪ dom localMap ∪ dom remoteMap)).

Definition merged_entity (cs : CS) (base local remote : Hash) : option Entity :=
  if IsZero base || IsZero local || IsZero remote then None
  else
    baseEnt ← cs_Get cs base; localEnt ← cs_Get cs local; remoteEnt ← cs_Get cs remote;
    if negb (String.eqb (Type_ baseEnt) (Type_ localEnt)) || negb (String.eqb (Type_ baseEnt) (Type_ remoteEnt)) then None
    else
      baseMap ← DecodeValues (Data baseEnt); localMap ← DecodeValues (Data localEnt); remoteMap ← DecodeValues (Data remoteEnt);
      merged ← merge_fields baseMap localMap remoteMap;
      raw ← EncodeValues merged;
      match Ent.NewEntity node_format (Type_ baseEnt) raw with Ok ent => Some ent | Err _ => None end.

Definition applyThreeWayMerge st (base local remote : Hash) : State * mergeStrategyResult :=
  match merged_entity (ts_Store st) base local remote with
  | None => (st, unresolved)
  | Some mergedEnt =>
      let '(cs, r) := cs_Put (ts_Store st) mergedEnt in
      (with_store st cs, match r with Ok h => resolved_to h | Err _ => unresolved end)
  end.

Definition TypeRevisionMergeRequest : string := "system/revision/merge-request".
Definition TypeRevisionMergeResponse : string := "system/revision/merge-response".

Definition accepted_response st (status : Z) (result : Entity) : option Hash :=
  if negb (status =? 200) || negb (String.eqb (Type_ result) TypeRevisionMergeResponse) then None
  else match DecodeMergeResponse (Data result) with
  | Some (true, h) => if IsZero h then None else match cs_Get (ts_Store st) h with Some _ => Some h | None => None end
  | _ => None
  end.

Definition dispatchMergeHandler st (handlerPath : string) (base local remote : Hash) : State * mergeStrategyResult :=
  match Execute with
  | None => (st, unresolved)
  | Some exec =>
      if String.eqb handlerPath "" then (st, unresolved)
      else match EncodeMergeRequest base local remote with
      | None => (st, unresolved)
      | Some raw =>
          match Ent.NewEntity node_format TypeRevisionMergeRequest raw with
          | Err _ => (st, unresolved)
          | Ok reqEntity =>
              let '(st, resp) := exec st handlerPath reqEntity in
              (st, match resp with
                   | Some (status, result) =>
                       match accepted_response st status result with Some h => resolved_to h | None => unresolved end
                   | None => unresolved
                   end)
          end
      end
  end.

Definition keep_both_path (path : string) (remote : Hash) : string :=
  path +:+ ".keep-both-" +:+ hex_encode (take 4 (Digest remote)).

Definition applyMergeStrategy st (choice : strategyChoice) (path : string) (base local remote : Hash)
  : State * mergeStrategyResult :=
  let strategy := sc_strategy choice in
  if String.eqb strategy "source-wins" then (st, resolved_to remote)
  else if String.eqb strategy "target-wins" then (st, resolved_to local)
  else if String.eqb strategy "keep-both" then
    (st, if IsZero local || IsZero remote then unresolved
         else {| resolved := true; sr_hash := local; additionalBindings := [(keep_both_path path remote, remote)] |})
  else if String.eqb strategy "manual" then (st, unresolved)
  else if String.eqb strategy "three-way" then applyThreeWayMerge st base local remote
  else if String.eqb strategy "lww" then (st, unresolved)
  else if String.eqb strategy "handler" then dispatchMergeHandler st (sc_handlerPath choice) base local remote
  else (st, unresolved).

(** *** Deletion markers *)

(** A home format that cannot encode the marker panics. *)
Definition CanonicalDeletionMarkerHash : res TrieErr Hash :=
  match DeletionMarkerHashForFormat node_format with Ok h => Ok h | Err _ => Err TriePanic end.

(** [None] when the pair is left to the strategy; the sidecars of the result
    are never set. *)
Definition resolveDeletionVsEntity (strategy : string) (local remote : Hash) : res TrieErr (option Hash) :=
  let localIsMarker := IsDeletionMarker local in
  let remoteIsMarker := IsDeletionMarker remote in
  if negb localIsMarker && negb remoteIsMarker then Ok None
  else if localIsMarker && remoteIsMarker then Ok (Some local)
  else
    let entityHash := if localIsMarker then remote else local in
    let strategy := if String.eqb strategy "" then "preserve-on-conflict" else strategy in
    if String.eqb strategy "preserve-on-conflict" then Ok (Some entityHash)
    else if String.eqb strategy "deletion-wins" then let! markerHash := CanonicalDeletionMarkerHash in Ok (Some markerHash)
    else if String.eqb strategy "three-way-fallthrough" then Ok None
    else if String.eqb strategy "deterministic" then
      let! markerHash := CanonicalDeletionMarkerHash in
      Ok (Some (match byte_order (Bytes markerHash) (Bytes entityHash) with Gt => entityHash | _ => markerHash end))
    else Ok (Some entityHash).

(** *** One key *)

Record Merging := { mg_State : State; mg_merged : gmap string Hash; mg_conflicts : list RevisionConflictData }.

Definition bind_merged (m : Merging) (k : string) (h : Hash) : Merging :=
  {| mg_State := mg_State m; mg_merged := <[k := h]> (mg_merged m); mg_conflicts := mg_conflicts m |}.
Definition at_state (m : Merging) st : Merging :=
  {| mg_State := st; mg_merged := mg_merged m; mg_conflicts := mg_conflicts m |}.
Definition add_conflict (m : Merging) (c : RevisionConflictData) : Merging :=
  {| mg_State := mg_State m; mg_merged := mg_merged m; mg_conflicts := mg_conflicts m ++ [c] |}.

Definition hashFromPtr (p : option Hash) : Hash := match p with Some h => h | None => zero_hash end.

Section sides.
Variables (hctx0 : HandlerContext) (strategyOverride : string) (localVersion remoteVersion : Hash).

Definition conflict_at (relativeKey : string) (choice : strategyChoice) (base local remote : Hash) : RevisionConflictData :=
  {| cf_Path := relativeKey; cf_Base := base; cf_Local := local; cf_Remote := remote; cf_Strategy := sc_strategy choice;
     cf_VersionLocal := localVersion; cf_VersionRemote := remoteVersion; cf_Supersedes := zero_hash |}.

(** Both sides changed, to different hashes. *)
Definition merge_diverged (m : Merging) (relativeKey : string) (base : Hash) (bindLocal bindRemote : option Hash)
  : res TrieErr Merging :=
  let local := hashFromPtr bindLocal in
  let remote := hashFromPtr bindRemote in
  let st := mg_State m in
  let! settled := resolveDeletionVsEntity (resolveDeletionStrategy st relativeKey) local remote in
  match settled with
  | Some h => Ok (bind_merged m relativeKey h)
  | None =>
      let choice := findMergeStrategy hctx0 st relativeKey strategyOverride local remote in
      let '(st, result) := applyMergeStrategy st choice relativeKey base local remote in
      let m := at_state m st in
      if resolved result then
        Ok (foldl (fun m ab => bind_merged m (fst ab) (snd ab)) (bind_merged m relativeKey (sr_hash result))
              (additionalBindings result))
      else
        let m := add_conflict m (conflict_at relativeKey choice base local remote) in
        Ok (match bindLocal with Some h => bind_merged m relativeKey h | None => m end)
  end.

Definition mergeBindingAtPath (m : Merging) (relativeKey : string) (bindBase bindLocal bindRemote : option Hash)
  : res TrieErr Merging :=
  let base := hashFromPtr bindBase in
  let local := hashFromPtr bindLocal in
  let remote := hashFromPtr bindRemote in
  match bool_decide (local = base), bool_decide (remote = base) with
  | true, true => Ok (if IsZero base then m else bind_merged m relativeKey base)
  | true, false => Ok (bind_merged m relativeKey (match bindRemote with Some h => h | None => base end))
  | false, true =>
      Ok (match bindLocal with
          | Some h => bind_merged m relativeKey h
          | None => if IsZero base then m else bind_merged m relativeKey base
          end)
  | false, false =>
      if decide (local = remote) then Ok (bind_merged m relativeKey local)
      else merge_diverged m relativeKey base bindLocal bindRemote
  end.

(** *** The walk *)

Definition loadOrEmpty (cs : CS) (h : Hash) : SnapshotNodeData :=
  if IsZero h then EmptyNode else match LoadTrieNode cs h with Some node => node | None => EmptyNode end.

Definition entryAt (node : SnapshotNodeData) (p : nat) : res TrieErr (option NodeEntry) :=
  let! set := panic (BitmapGet (Map_ node) p) in
  if set : bool then let! e := entry_at node p in Ok (Some e) else Ok None.

Definition flattenEntry (cs : CS) (entry : option NodeEntry) : res TrieErr (gmap string Hash) :=
  match entry with
  | None => Ok ∅
  | Some e => let! tuples := entry_tuples cs e in Ok (add_tuples (fun k => k) ∅ tuples)
  end.

Fixpoint merge_keys (m : Merging) (tuplesB tuplesL tuplesR : gmap string Hash) (keys : list string) : res TrieErr Merging :=
  match keys with
  | [] => Ok m
  | k :: keys =>
      let! m := mergeBindingAtPath m k (tuplesB !! k) (tuplesL !! k) (tuplesR !! k) in
      merge_keys m tuplesB tuplesL tuplesR keys
  end.

Definition all_keys (tuplesB tuplesL tuplesR : gmap string Hash) : list string :=
  merge_sort string_le (elements (dom tuplesB ∪ dom tuplesL ∪ dom tuplesR)).

Definition mergeEntries (m : Merging) (eB eL eR : option NodeEntry) : res TrieErr Merging :=
  let cs := ts_Store (mg_State m) in
  let! tuplesB := flattenEntry cs eB in
  let! tuplesL := flattenEntry cs eL in
  let! tuplesR := flattenEntry cs eR in
  merge_keys m tuplesB tuplesL tuplesR (all_keys tuplesB tuplesL tuplesR).

(** The one link that all three sides have. *)
Definition shared_link (eB eL eR : option NodeEntry) : option Hash :=
  match eB, eL, eR with
  | Some (LinkEntry b), Some (LinkEntry l), Some (LinkEntry r) => if decide (b = l /\ b = r) then Some b else None
  | _, _, _ => None
  end.

Definition merge_position (base local remote : SnapshotNodeData) (m : Merging) (p : nat) : res TrieErr Merging :=
  let! eB := entryAt base p in
  let! eL := entryAt local p in
  let! eR := entryAt remote p in
  match shared_link eB eL eR with
  | Some h =>
      let! shared := of_option TrieDiverges (CollectAllBindings (ts_Store (mg_State m)) h "") in
      Ok {| mg_State := mg_State m; mg_merged := shared ∪ mg_merged m; mg_conflicts := mg_conflicts m |}
  | None => mergeEntries m eB eL eR
  end.

Fixpoint merge_positions (base local remote : SnapshotNodeData) (m : Merging) (ps : list nat) : res TrieErr Merging :=
  match ps with
  | [] => Ok m
  | p :: ps => let! m := merge_position base local remote m p in merge_positions base local remote m ps
  end.

(** The positions set in some bitmap, ascending. *)
Definition mergeNodes (base local remote : SnapshotNodeData) (m : Merging) : res TrieErr Merging :=
  let! ub := panic (BitmapU32 (Map_ base)) in
  let! ul := panic (BitmapU32 (Map_ local)) in
  let! ur := panic (BitmapU32 (Map_ remote)) in
  merge_positions base local remote m
    (List.filter (fun p => Z.testbit (Z.lor (Z.lor ub ul) ur) (Z.of_nat p)) (seq 0 K)).

Definition trieMergeBindings st (baseRoot localRoot remoteRoot : Hash) : res TrieErr Merging :=
  let cs := ts_Store st in
  if decide (baseRoot = localRoot /\ baseRoot = remoteRoot) then
    let! merged := of_option TrieDiverges (CollectAllBindings cs baseRoot "") in
    Ok {| mg_State := st; mg_merged := merged; mg_conflicts := [] |}
  else
    mergeNodes (loadOrEmpty cs baseRoot) (loadOrEmpty cs localRoot) (loadOrEmpty cs remoteRoot)
      {| mg_State := st; mg_merged := ∅; mg_conflicts := [] |}.

(** *** The merge of flat maps *)

Definition flat_binding (m : Merging) (relPath : string) (ancestor local remote : gmap string Hash) : res TrieErr Merging :=
  let baseHash := hashFromPtr (ancestor !! relPath) in
  let localHash := hashFromPtr (local !! relPath) in
  let remoteHash := hashFromPtr (remote !! relPath) in
  match bool_decide (localHash = baseHash), bool_decide (remoteHash = baseHash) with
  | true, true => Ok (if IsZero baseHash then m else bind_merged m relPath baseHash)
  | true, false => Ok (bind_merged m relPath (if IsZero remoteHash then baseHash else remoteHash))
  | false, true => Ok (bind_merged m relPath (if IsZero localHash then baseHash else localHash))
  | false, false =>
      if decide (localHash = remoteHash) then Ok (bind_merged m relPath localHash)
      else if IsZero localHash then Ok (bind_merged m relPath remoteHash)
      else if IsZero remoteHash then Ok (bind_merged m relPath localHash)
      else merge_diverged m relPath baseHash (Some localHash) (Some remoteHash)
  end.

(** [allPaths] is the order in which the range visits the union of the paths. *)
Fixpoint mergeSnapshots (m : Merging) (ancestor local remote : gmap string Hash) (allPaths : list string) : res TrieErr Merging :=
  match allPaths with
  | [] => Ok m
  | relPath :: rest => let! m := flat_binding m relPath ancestor local remote in mergeSnapshots m ancestor local remote rest
  end.
End sides.
End merge.
