(* ===== verification/RevThreeWay.v ===== *)
(** * What a three-way merge decides

    The walk of [RevMerge] settles every key of the three tries exactly once.
    [Settlement] is what the merge asks of the strategies: a key on which the
    sides diverge is settled by the key and its three hashes, and settling it
    leaves the tries in the store.  The built-in strategies that store nothing
    have it, and so has the default three-way merge of fields. *)

From Stdlib Require Import Ascii.
From S2P Require Import Prelude GoStrings Errors Hash Entity PeerID Paths CapTypes Patterns Check Delegation Revoked Store Notifying Handlers TreeIndex Trie TrieSpec TrieCanon TrieMap TrieRemove TrieDiff RootTracker TreeHandler TreeOps RevMerge.

Open Scope nat_scope.
#[local] Opaque slice.

(** ** Maps from lists of bindings *)

Definition part (p : nat) (m : gmap string Hash) : gmap string Hash := filter (fun kv => slice 0 (fst kv) = p) m.

Lemma part_lookup p m k v : part p m !! k = Some v <-> m !! k = Some v /\ slice 0 k = p.
Proof. unfold part. rewrite map_lookup_filter_Some. done. Qed.

Lemma add_tuples_spec l (f : string -> string) :
  (forall k, f k = k) -> sorted l ->
  forall k v, add_tuples f ∅ l !! k = Some v <-> mkTuple k v ∈ l.
Proof.
  intros Hf Hs k v. unfold add_tuples.
  replace (fold_left _ l ∅) with (fold_left (fun m t => <[Key t := ValueHash t]> m) l (∅ : gmap string Hash)).
  - rewrite add_tuples_lookup; [|by apply sorted_NoDup|intros t _; apply lookup_empty].
    rewrite lookup_empty. split; [by intros [?|?]|auto].
  - generalize (∅ : gmap string Hash). clear Hs. induction l as [|t l IH]; intros m; [done|]. cbn. by rewrite Hf, IH.
Qed.

(** A group of a map's bindings, as a map. *)
Lemma group_part p m g (f : string -> string) :
  (forall k, f k = k) -> g = group 0 p (sorted_bindings m) -> add_tuples f ∅ g = part p m.
Proof.
  intros Hf ->. apply map_eq. intros k. apply option_eq. intros v.
  rewrite add_tuples_spec by (done || apply group_sorted, sorted_bindings_sorted).
  by rewrite elem_of_group, elem_of_sorted_bindings, part_lookup.
Qed.

Section walk.
Context {CS : Type} `{ContentStoreLaws CS, NodeCodec}.
Implicit Types (s : CS).

Lemma node_bindings s levels level l c :
  node_for s levels level l c -> collectBindings s "" c = Some (add_tuples (fun k => k) ∅ l).
Proof.
  intros (Hs & Hr & Hlv & Hheld). unfold collectBindings.
  rewrite (walk_spec _ s levels level l c _ _ Hr Hheld) by (unfold links_fuel; lia). f_equal.
  pose proof (leaves_perm _ _ _ _ Hr) as Hperm. set (ls := leaves levels level l) in *. clearbody ls.
  assert (Hfold : forall ls acc, fold_left (add_tuples (joinKey "")) ls acc
                   = fold_left (fun m t => <[Key t := ValueHash t]> m) (concat ls) acc).
  { induction ls0 as [|b ls0 IH]; intros acc; [done|]. cbn [concat fold_left]. by rewrite fold_left_app, IH. }
  rewrite Hfold. apply map_eq. intros k. apply option_eq. intros v.
  rewrite add_tuples_spec by done. rewrite add_tuples_lookup.
  - rewrite Hperm, lookup_empty. split; [by intros [?|?]|auto].
  - rewrite Hperm. by apply sorted_NoDup.
  - intros t _. apply lookup_empty.
Qed.

(** What the merge reads at a position of a trie. *)
Lemma entryAt_spec s m es p :
  node_for s MaxLevel 0 (sorted_bindings m) (node_of es) -> slots_of (pred MaxLevel) 0 (sorted_bindings m) es -> p < 32 ->
  exists e, entryAt (node_of es) p = Ok e /\ flattenEntry s e = Ok (part p m)
    /\ (forall h, e = Some (LinkEntry h) -> CollectAllBindings s h "" = Some (part p m)).
Proof.
  intros Hn Hes Hp. pose proof (slot_entry_for s (pred MaxLevel) 0 (sorted_bindings m) (node_of es) p es Hn Hes Hp) as He.
  destruct Hes as [Hl Hes]. unfold entryAt. rewrite slot_bit by done. cbn [panic of_option res_bind].
  unfold occupied. destruct (es !! p) as [[e|]|] eqn:Ee.
  - rewrite (entry_at_spec es p e Hl Hp Ee). cbn [res_bind]. exists (Some e). split; [done|].
    unfold flattenEntry. rewrite (entry_tuples_spec _ _ _ _ _ He). cbn [res_bind]. split.
    + f_equal. by apply group_part.
    + intros h [= ->]. destruct He as [_ [[=]|(c & h' & [= <-] & Hld & Hc)]]. unfold CollectAllBindings. rewrite Hld.
      rewrite (node_bindings _ _ _ _ _ Hc). f_equal. by apply group_part.
  - exists None. split; [done|]. split; [|done]. cbn. f_equal. by apply (group_part p m [] (fun k => k)).
  - exists None. split; [done|]. split; [|done]. cbn. f_equal. by apply (group_part p m [] (fun k => k)).
Qed.
End walk.

(** ** Outcomes *)

(** The bindings that settling a key adds, in the order they are made, and the
    conflict it records. *)
Record outcome := { oc_bindings : list (string * Hash); oc_conflict : option RevisionConflictData }.
Definition binds (k : string) (h : Hash) : outcome := {| oc_bindings := [(k, h)]; oc_conflict := None |}.
Definition nothing : outcome := {| oc_bindings := []; oc_conflict := None |}.

Definition bind_pairs (m : gmap string Hash) (l : list (string * Hash)) : gmap string Hash :=
  foldl (fun m kv => <[fst kv := snd kv]> m) m l.

Lemma bind_pairs_list_to_map m l : bind_pairs m l = list_to_map (reverse l) ∪ m.
Proof.
  revert m. induction l as [|[k h] l IH]; intros m; cbn [bind_pairs foldl].
  - by rewrite reverse_nil, left_id_L by apply _.
  - fold (bind_pairs (<[k := h]> m) l). rewrite IH, reverse_cons, list_to_map_app. cbn [list_to_map foldr fst snd uncurry].
    rewrite <- (assoc_L (∪)), <- insert_union_l, (left_id_L ∅ (∪)). done.
Qed.

(** Bindings that do not contradict each other. *)
Definition consistent (l : list (string * Hash)) : Prop := forall k h h', (k, h) ∈ l -> (k, h') ∈ l -> h = h'.

Lemma bind_pairs_spec l k h : consistent l -> bind_pairs ∅ l !! k = Some h <-> (k, h) ∈ l.
Proof.
  intros Hc. rewrite bind_pairs_list_to_map, (right_id_L ∅ (∪)). split.
  - intros Hl%elem_of_list_to_map_2. by rewrite elem_of_reverse in Hl.
  - intros Hl. apply elem_of_list_to_map_1'; [|by rewrite elem_of_reverse].
    intros h' Hh'. rewrite elem_of_reverse in Hh'. by eapply Hc.
Qed.

Lemma bind_pairs_all t m : bind_pairs m (map_to_list t) = t ∪ m.
Proof.
  rewrite bind_pairs_list_to_map. f_equal. rewrite <- (list_to_map_to_list t) at 2.
  apply list_to_map_proper; [|by rewrite reverse_Permutation].
  rewrite reverse_Permutation. apply NoDup_fst_map_to_list.
Qed.

(** ** Settling the keys of three maps *)

Section three_way.
Context {CS L IX : Type} `{ContentStoreLaws CS} `{LocationIndex L} `{CapabilityIndex IX} `{Base58, DataCodec, TreeCodec, NodeCodec, RevisionCodec}.
Variable Execute : option (TreeState CS L IX -> string -> Entity -> TreeState CS L IX * option (Z * Entity)).
Variables (hctx : HandlerContext) (strategyOverride : string) (localVersion remoteVersion : Hash).
Variables (mB mL mR : gmap string Hash).
Abbreviation State := (TreeState CS L IX).
Abbreviation Merging := (Merging (CS := CS) (L := L) (IX := IX)).
Implicit Types (st : State) (m : Merging).

Definition apply_outcome m (o : outcome) : Merging :=
  {| mg_State := mg_State m; mg_merged := bind_pairs (mg_merged m) (oc_bindings o);
     mg_conflicts := mg_conflicts m ++ option_list (oc_conflict o) |}.

Definition hB (k : string) : Hash := hashFromPtr (mB !! k).
Definition hL (k : string) : Hash := hashFromPtr (mL !! k).
Definition hR (k : string) : Hash := hashFromPtr (mR !! k).

(** The sides bind the key to different hashes, and both changed it. *)
Definition diverged (k : string) : Prop := hL k <> hB k /\ hR k <> hB k /\ hL k <> hR k.

(** [settle] is how the strategies settle the diverged keys, in states [good]
    for the merge. *)
Class Settlement (good : State -> Prop) (settle : string -> outcome) := {
  settled m k :
    good (mg_State m) -> diverged k ->
    exists st', good st'
      /\ merge_diverged Execute hctx strategyOverride localVersion remoteVersion m k (hB k) (mL !! k) (mR !! k)
         = Ok (apply_outcome (at_state m st') (settle k))
}.

(** The outcome of every key: a side that did not change it leaves it to the
    other, and a side that does not have it does not change it. *)
Definition decide_key (settle : string -> outcome) (k : string) : outcome :=
  match bool_decide (hL k = hB k), bool_decide (hR k = hB k) with
  | true, true => if IsZero (hB k) then nothing else binds k (hB k)
  | true, false => binds k (match mR !! k with Some h => h | None => hB k end)
  | false, true => match mL !! k with Some h => binds k h | None => if IsZero (hB k) then nothing else binds k (hB k) end
  | false, false => if decide (hL k = hR k) then binds k (hL k) else settle k
  end.

Section settle.
Context (good : State -> Prop) (settle : string -> outcome) `{!Settlement good settle}.

Lemma mergeBindingAtPath_spec m k :
  good (mg_State m) ->
  exists st', good st'
    /\ mergeBindingAtPath Execute hctx strategyOverride localVersion remoteVersion m k (mB !! k) (mL !! k) (mR !! k)
       = Ok (apply_outcome (at_state m st') (decide_key settle k)).
Proof.
  intros Hg. unfold mergeBindingAtPath, decide_key. fold (hB k) (hL k) (hR k).
  assert (Hno : m = apply_outcome (at_state m (mg_State m)) nothing).
  { destruct m. unfold apply_outcome, at_state. cbn. by rewrite app_nil_r. }
  assert (Hone : forall h, bind_merged m k h = apply_outcome (at_state m (mg_State m)) (binds k h)).
  { intros h. destruct m. unfold apply_outcome, at_state, bind_merged. cbn. by rewrite app_nil_r. }
  destruct (bool_decide_reflect (hL k = hB k)) as [HL|HL], (bool_decide_reflect (hR k = hB k)) as [HR|HR].
  - exists (mg_State m). split; [done|]. destruct (IsZero (hB k)); f_equal; auto.
  - exists (mg_State m). split; [done|]. f_equal. auto.
  - exists (mg_State m). split; [done|]. f_equal. destruct (mL !! k); [auto|]. destruct (IsZero (hB k)); auto.
  - case_decide; [exists (mg_State m); split; [done|]; f_equal; auto|]. by apply settled.
Qed.

(** The keys [ks] settled in order from [m], the state being [st]. *)
Definition after_keys m st (ks : list string) : Merging :=
  {| mg_State := st;
     mg_merged := bind_pairs (mg_merged m) (concat (map (fun k => oc_bindings (decide_key settle k)) ks));
     mg_conflicts := mg_conflicts m ++ omap (fun k => oc_conflict (decide_key settle k)) ks |}.

Lemma after_keys_nil m : after_keys m (mg_State m) [] = m.
Proof. destruct m. unfold after_keys. cbn. by rewrite app_nil_r. Qed.

Lemma after_keys_cons m st st' k ks :
  after_keys (apply_outcome (at_state m st) (decide_key settle k)) st' ks = after_keys m st' (k :: ks).
Proof.
  unfold after_keys, apply_outcome, at_state. cbn [mg_State mg_merged mg_conflicts map concat omap list_omap]. f_equal.
  - unfold bind_pairs. by rewrite foldl_app.
  - rewrite <- app_assoc. f_equal. by destruct (oc_conflict _).
Qed.

Lemma after_keys_app m st st' ks ks' : after_keys (after_keys m st ks) st' ks' = after_keys m st' (ks ++ ks').
Proof.
  unfold after_keys. cbn [mg_State mg_merged mg_conflicts]. f_equal.
  - unfold bind_pairs. by rewrite map_app, concat_app, foldl_app.
  - by rewrite omap_app, app_assoc.
Qed.

Lemma merge_keys_spec (tB tL tR : gmap string Hash) ks m :
  (forall k, k ∈ ks -> tB !! k = mB !! k /\ tL !! k = mL !! k /\ tR !! k = mR !! k) ->
  good (mg_State m) ->
  exists st', good st'
    /\ merge_keys Execute hctx strategyOverride localVersion remoteVersion m tB tL tR ks = Ok (after_keys m st' ks).
Proof.
  revert m. induction ks as [|k ks IH]; intros m Ht Hg; cbn [merge_keys].
  { exists (mg_State m). by rewrite after_keys_nil. }
  destruct (Ht k) as (-> & -> & ->); [left|].
  destruct (mergeBindingAtPath_spec m k Hg) as (st' & Hg' & ->). cbn [res_bind].
  destruct (IH (apply_outcome (at_state m st') (decide_key settle k))) as (st'' & Hg'' & ->); [|done|].
  - intros k' Hk'. apply Ht. by right.
  - exists st''. split; [done|]. by rewrite after_keys_cons.
Qed.

(** *** The walk settles every key once *)

Definition all_merge_keys : gset string := dom mB ∪ dom mL ∪ dom mR.
Definition keys_at (p : nat) : list string := filter (fun k => slice 0 k = p) (elements all_merge_keys).

Lemma elem_of_keys_at p k : k ∈ keys_at p <-> k ∈ all_merge_keys /\ slice 0 k = p.
Proof. unfold keys_at. rewrite list_elem_of_filter, elem_of_elements. tauto. Qed.

Lemma elem_of_dom_part p (t : gmap string Hash) k : k ∈ dom (part p t) <-> k ∈ dom t /\ slice 0 k = p.
Proof.
  rewrite !elem_of_dom. unfold is_Some. setoid_rewrite part_lookup. split.
  - intros (v & Hv & Hp). eauto.
  - intros ((v & Hv) & Hp). eauto.
Qed.

Lemma all_keys_at p : all_keys (part p mB) (part p mL) (part p mR) ≡ₚ keys_at p.
Proof.
  unfold all_keys. rewrite (merge_sort_Permutation string_le). apply NoDup_Permutation.
  - apply NoDup_elements.
  - apply NoDup_filter, NoDup_elements.
  - intros k. rewrite elem_of_elements, elem_of_keys_at. unfold all_merge_keys. rewrite !elem_of_union, !elem_of_dom_part. tauto.
Qed.

Lemma part_agrees p t k : slice 0 k = p -> part p t !! k = t !! k.
Proof. intros Hk. apply option_eq. intros v. rewrite part_lookup. tauto. Qed.

(** A binding that the three sides share. *)
Definition no_zero (t : gmap string Hash) : Prop := forall k v, t !! k = Some v -> IsZero v = false.

Lemma decide_shared k v :
  no_zero mB -> mB !! k = Some v -> mL !! k = Some v -> mR !! k = Some v -> decide_key settle k = binds k v.
Proof.
  intros Hz HB HL HR. unfold decide_key, hL, hR, hB. rewrite HB, HL, HR. cbn [hashFromPtr].
  rewrite bool_decide_true by done. by rewrite (Hz k v HB).
Qed.

Lemma after_shared m (l : list (string * Hash)) :
  (forall k v, (k, v) ∈ l -> decide_key settle k = binds k v) ->
  after_keys m (mg_State m) (map fst l)
  = {| mg_State := mg_State m; mg_merged := bind_pairs (mg_merged m) l; mg_conflicts := mg_conflicts m |}.
Proof.
  intros Hl. unfold after_keys. f_equal.
  - f_equal. induction l as [|[k v] l IH]; [done|]. cbn [map concat fst]. rewrite (Hl k v) by left. cbn. f_equal.
    apply IH. intros k' v' Hin. apply Hl. by right.
  - rewrite <- (app_nil_r (mg_conflicts m)) at 2. f_equal.
    induction l as [|[k v] l IH]; [done|]. cbn [map omap list_omap fst]. rewrite (Hl k v) by left. cbn.
    apply IH. intros k' v' Hin. apply Hl. by right.
Qed.

Variables (rB rL rR : Hash).
Record tries_in (s : CS) : Prop := {
  trie_B : represents s rB mB; trie_L : represents s rL mL; trie_R : represents s rR mR }.
Hypothesis good_tries : forall st, good st -> tries_in (ts_Store st).
Hypothesis shared_no_zero : no_zero mB.

(** The slots of a root, in every store that has the trie. *)
Lemma root_slots s r t :
  represents s r t -> exists es, LoadTrieNode s r = Some (node_of es) /\ root_node t = Some (node_of es)
    /\ slots_of (pred MaxLevel) 0 (sorted_bindings t) es /\ length es = 32.
Proof.
  intros Hr. destruct (represents_node_for s r t Hr) as (c & Hl & Hn). pose proof Hn as (_ & Href & _).
  change MaxLevel with (S (pred MaxLevel)) in Href. apply reference_spec in Href as (es & Hes & ->).
  exists es. split; [done|]. split; [|split; [done|apply Hes]]. unfold root_node.
  change MaxLevel with (S (pred MaxLevel)). apply reference_spec. eauto.
Qed.

Lemma root_entry s r t es p :
  represents s r t -> root_node t = Some (node_of es) -> slots_of (pred MaxLevel) 0 (sorted_bindings t) es -> p < 32 ->
  exists e, entryAt (node_of es) p = Ok e /\ flattenEntry s e = Ok (part p t)
    /\ (forall h, e = Some (LinkEntry h) -> CollectAllBindings s h "" = Some (part p t)).
Proof.
  intros Hr Hroot Hes Hp. apply entryAt_spec; [|done..].
  destruct (represents_node_for s r t Hr) as (c & _ & Hn). pose proof Hn as (_ & Href & _).
  unfold root_node in Hroot. rewrite Hroot in Href. by injection Href as <-.
Qed.

Section positions.
Variables (esB esL esR : list (option NodeEntry)).
Hypotheses (HesB : root_node mB = Some (node_of esB) /\ slots_of (pred MaxLevel) 0 (sorted_bindings mB) esB)
  (HesL : root_node mL = Some (node_of esL) /\ slots_of (pred MaxLevel) 0 (sorted_bindings mL) esL)
  (HesR : root_node mR = Some (node_of esR) /\ slots_of (pred MaxLevel) 0 (sorted_bindings mR) esR).

Lemma merge_position_spec m p :
  good (mg_State m) -> p < 32 ->
  exists st' ks, good st' /\ ks ≡ₚ keys_at p
    /\ merge_position Execute hctx strategyOverride localVersion remoteVersion (node_of esB) (node_of esL) (node_of esR) m p
       = Ok (after_keys m st' ks).
Proof.
  intros Hg Hp. destruct (good_tries _ Hg) as [TB TL TR]. unfold merge_position.
  destruct (root_entry _ _ _ _ p TB (proj1 HesB) (proj2 HesB) Hp) as (eB & -> & FB & CB).
  destruct (root_entry _ _ _ _ p TL (proj1 HesL) (proj2 HesL) Hp) as (eL & -> & FL & CL).
  destruct (root_entry _ _ _ _ p TR (proj1 HesR) (proj2 HesR) Hp) as (eR & -> & FR & CR).
  cbn [res_bind]. destruct (shared_link eB eL eR) as [h|] eqn:Esh.
  - assert (eB = Some (LinkEntry h) /\ eL = Some (LinkEntry h) /\ eR = Some (LinkEntry h)) as (-> & -> & ->).
    { unfold shared_link in Esh. destruct eB as [[|b]|], eL as [[|l]|], eR as [[|r]|]; try done.
      case_decide as Hd; [|done]. destruct Hd as [-> ->]. by injection Esh as ->. }
    specialize (CB h eq_refl). specialize (CL h eq_refl). specialize (CR h eq_refl).
    assert (part p mL = part p mB /\ part p mR = part p mB) as [EL ER] by (split; congruence).
    rewrite CB. cbn [of_option res_bind]. exists (mg_State m), (map fst (map_to_list (part p mB))).
    split; [done|]. split.
    + rewrite <- all_keys_at, EL, ER. unfold all_keys. rewrite (merge_sort_Permutation string_le).
      apply NoDup_Permutation; [apply NoDup_fst_map_to_list|apply NoDup_elements|].
      intros k. rewrite elem_of_elements, !elem_of_union, list_elem_of_fmap, elem_of_dom. split.
      * intros ([k' v] & -> & Hin%elem_of_map_to_list). eauto.
      * intros [[[v Hv]|[v Hv]]|[v Hv]]; (exists (k, v); split; [done|by apply elem_of_map_to_list]).
    + rewrite after_shared; [by rewrite bind_pairs_all|]. intros k v Hin%elem_of_map_to_list.
      pose proof Hin as HL. pose proof Hin as HR. rewrite <- EL in HL. rewrite <- ER in HR.
      apply part_lookup in Hin as [? _]. apply part_lookup in HL as [? _]. apply part_lookup in HR as [? _].
      by apply decide_shared.
  - unfold mergeEntries. rewrite FB, FL, FR. cbn [res_bind].
    destruct (merge_keys_spec (part p mB) (part p mL) (part p mR)
                (all_keys (part p mB) (part p mL) (part p mR)) m) as (st' & Hg' & ->); [|done|].
    + intros k. rewrite all_keys_at, elem_of_keys_at. intros [_ Hk]. by rewrite !part_agrees by done.
    + exists st', (all_keys (part p mB) (part p mL) (part p mR)). split; [done|]. split; [apply all_keys_at|done].
Qed.

Lemma merge_positions_spec ps m :
  good (mg_State m) -> (forall p, p ∈ ps -> p < 32) ->
  exists st' ks, good st' /\ ks ≡ₚ concat (map keys_at ps)
    /\ merge_positions Execute hctx strategyOverride localVersion remoteVersion (node_of esB) (node_of esL) (node_of esR) m ps
       = Ok (after_keys m st' ks).
Proof.
  revert m. induction ps as [|p ps IH]; intros m Hg Hps; cbn [merge_positions map concat].
  { exists (mg_State m), []. by rewrite after_keys_nil. }
  destruct (merge_position_spec m p Hg) as (st1 & ks1 & Hg1 & Hk1 & ->); [apply Hps; left|]. cbn [res_bind].
  destruct (IH (after_keys m st1 ks1) Hg1) as (st2 & ks2 & Hg2 & Hk2 & ->); [intros q Hq; apply Hps; by right|].
  exists st2, (ks1 ++ ks2). rewrite after_keys_app. split; [done|]. split; [by rewrite Hk1, Hk2|done].
Qed.
End positions.

(** The positions the walk visits have all the keys. *)
Lemma visited_positions ps :
  NoDup ps -> (forall k, k ∈ all_merge_keys -> slice 0 k ∈ ps) -> concat (map keys_at ps) ≡ₚ elements all_merge_keys.
Proof.
  intros Hnd Hall.
  assert (Hin : forall ps k, k ∈ concat (map keys_at ps) <-> k ∈ all_merge_keys /\ slice 0 k ∈ ps).
  { clear. intros ps k. rewrite list_elem_of_In, in_concat. split.
    - intros (l & Hl & Hk). apply in_map_iff in Hl as (p & <- & Hp).
      apply list_elem_of_In, elem_of_keys_at in Hk as [? <-]. split; [done|by apply list_elem_of_In].
    - intros [Hk Hp]. exists (keys_at (slice 0 k)). split; [apply in_map_iff; exists (slice 0 k)|].
      + split; [done|by apply list_elem_of_In].
      + by apply list_elem_of_In, elem_of_keys_at. }
  apply NoDup_Permutation; [|apply NoDup_elements|].
  - clear Hall. induction Hnd as [|p ps Hp Hnd IH]; [constructor|]. cbn [map concat]. apply NoDup_app.
    split; [apply NoDup_filter, NoDup_elements|]. split; [|done].
    intros k [_ Hk]%elem_of_keys_at [_ Hk']%Hin. by rewrite Hk in Hk'.
  - intros k. rewrite Hin, elem_of_elements. split; [tauto|auto].
Qed.

Lemma entryAt_unoccupied es p : length es = 32 -> p < 32 -> occupied es p = false -> entryAt (node_of es) p = Ok None.
Proof. intros Hl Hp Ho. unfold entryAt. rewrite (slot_bit es p Hp), Ho. reflexivity. Qed.

Lemma unoccupied_part s r t es p :
  represents s r t -> root_node t = Some (node_of es) -> slots_of (pred MaxLevel) 0 (sorted_bindings t) es -> p < 32 ->
  occupied es p = false -> part p t = ∅.
Proof.
  intros Hr Hroot Hes Hp Ho. destruct (root_entry s r t es p Hr Hroot Hes Hp) as (e & He & Hf & _).
  rewrite (entryAt_unoccupied es p (proj1 Hes) Hp Ho) in He. assert (e = None) as -> by congruence.
  unfold flattenEntry in Hf. congruence.
Qed.

Lemma occupied_part s r t es k v :
  represents s r t -> root_node t = Some (node_of es) -> slots_of (pred MaxLevel) 0 (sorted_bindings t) es ->
  t !! k = Some v -> occupied es (slice 0 k) = true.
Proof.
  intros Hr Hroot Hes Hk. pose proof (slice_lt 0 k) as Hp.
  assert (Hpart : part (slice 0 k) t !! k = Some v) by (apply part_lookup; done).
  generalize dependent (slice 0 k). intros p Hp Hpart. apply not_false_iff_true. intros Ho.
  rewrite (unoccupied_part s r t es p Hr Hroot Hes Hp Ho), lookup_empty in Hpart. discriminate Hpart.
Qed.

Lemma mergeNodes_spec st m nB nL nR :
  good st -> mg_State m = st ->
  LoadTrieNode (ts_Store st) rB = Some nB -> LoadTrieNode (ts_Store st) rL = Some nL -> LoadTrieNode (ts_Store st) rR = Some nR ->
  exists st' ks, good st' /\ ks ≡ₚ elements all_merge_keys
    /\ mergeNodes Execute hctx strategyOverride localVersion remoteVersion nB nL nR m = Ok (after_keys m st' ks).
Proof.
  intros Hg Hm LB LL LR. destruct (good_tries _ Hg) as [TB TL TR].
  destruct (root_slots _ _ _ TB) as (esB & LB' & RB & SB & HB). destruct (root_slots _ _ _ TL) as (esL & LL' & RL & SL & HL).
  destruct (root_slots _ _ _ TR) as (esR & LR' & RR & SR & HR).
  assert (nB = node_of esB /\ nL = node_of esL /\ nR = node_of esR) as (-> & -> & ->) by (split_and!; congruence).
  unfold mergeNodes. cbn [Map_ node_of].
  destruct (bitmap_of_spec esB) as [Hl1 Hb1], (bitmap_of_spec esL) as [Hl2 Hb2], (bitmap_of_spec esR) as [Hl3 Hb3].
  destruct (BitmapU32_spec _ Hl1) as (u1 & -> & Hu1), (BitmapU32_spec _ Hl2) as (u2 & -> & Hu2),
    (BitmapU32_spec _ Hl3) as (u3 & -> & Hu3). cbn [panic of_option res_bind].
  set (f := fun p => Z.testbit (Z.lor (Z.lor u1 u2) u3) (Z.of_nat p)).
  assert (Hf : forall p, p < 32 -> f p = occupied esB p || occupied esL p || occupied esR p).
  { intros p Hp. unfold f. by rewrite !Z.lor_spec, Hu1, Hu2, Hu3, Hb1, Hb2, Hb3. }
  assert (Hin : forall p, p ∈ List.filter f (seq 0 K) <-> p < 32 /\ f p = true).
  { intros p. rewrite list_elem_of_In, filter_In, in_seq. unfold K. split; intros [? ?]; (split; [lia|done]). }
  destruct (merge_positions_spec esB esL esR (conj RB SB) (conj RL SL) (conj RR SR) (List.filter f (seq 0 K)) m)
    as (st' & ks & Hg' & Hks & Hrun).
  - by rewrite Hm.
  - intros p [Hp _]%Hin. done.
  - exists st', ks. split; [done|]. split; [|exact Hrun]. rewrite Hks. apply visited_positions.
    + apply NoDup_ListNoDup, List.NoDup_filter, seq_NoDup.
    + intros k Hk. apply Hin. split; [apply slice_lt|]. rewrite Hf by apply slice_lt.
      unfold all_merge_keys in Hk. rewrite !elem_of_union, !elem_of_dom in Hk.
      destruct Hk as [[[v Hv]|[v Hv]]|[v Hv]].
      * by rewrite (occupied_part _ _ _ _ k v TB RB SB Hv).
      * rewrite (occupied_part _ _ _ _ k v TL RL SL Hv). by rewrite orb_true_r.
      * rewrite (occupied_part _ _ _ _ k v TR RR SR Hv). by rewrite orb_true_r.
Qed.

Definition no_merge_yet st : Merging := {| mg_State := st; mg_merged := ∅; mg_conflicts := [] |}.

Lemma trieMergeBindings_spec st :
  good st -> IsZero rB = false -> IsZero rL = false -> IsZero rR = false ->
  exists st' ks, good st' /\ ks ≡ₚ elements all_merge_keys
    /\ trieMergeBindings Execute hctx strategyOverride localVersion remoteVersion st rB rL rR
       = Ok (after_keys (no_merge_yet st) st' ks).
Proof.
  intros Hg ZB ZL ZR. destruct (good_tries _ Hg) as [TB TL TR]. unfold trieMergeBindings. case_decide as Hsame.
  - destruct Hsame as [HBL HBR]. rewrite <- HBL in TL. rewrite <- HBR in TR.
    assert (EL : mL = mB) by (apply CollectAllBindings_represents in TB, TL; congruence).
    assert (ER : mR = mB) by (apply CollectAllBindings_represents in TB, TR; congruence).
    rewrite (CollectAllBindings_represents _ _ _ TB). cbn [of_option res_bind].
    exists st, (map fst (map_to_list mB)). split; [done|]. split.
    + apply NoDup_Permutation; [apply NoDup_fst_map_to_list|apply NoDup_elements|]. intros k.
      unfold all_merge_keys. rewrite EL, ER, elem_of_elements, !elem_of_union, list_elem_of_fmap, elem_of_dom. split.
      * intros ([k' v] & -> & Hin%elem_of_map_to_list). eauto.
      * intros [[[v Hv]|[v Hv]]|[v Hv]]; (exists (k, v); split; [done|by apply elem_of_map_to_list]).
    + change st with (mg_State (no_merge_yet st)) at 2. rewrite after_shared.
      * cbn [mg_merged no_merge_yet mg_State mg_conflicts]. by rewrite bind_pairs_all, (right_id_L ∅ (∪)).
      * intros k v Hin%elem_of_map_to_list. apply decide_shared; [done|done|by rewrite EL|by rewrite ER].
  - destruct (root_slots _ _ _ TB) as (esB & LB & _). destruct (root_slots _ _ _ TL) as (esL & LL & _).
    destruct (root_slots _ _ _ TR) as (esR & LR & _). unfold loadOrEmpty. rewrite ZB, ZL, ZR, LB, LL, LR.
    by apply (mergeNodes_spec st (no_merge_yet st)).
Qed.

(** *** The result *)

Definition settled_bindings : list (string * Hash) :=
  concat (map (fun k => oc_bindings (decide_key settle k)) (elements all_merge_keys)).

Lemma elem_of_settled ks p h :
  (p, h) ∈ concat (map (fun k => oc_bindings (decide_key settle k)) ks)
  <-> exists k, k ∈ ks /\ (p, h) ∈ oc_bindings (decide_key settle k).
Proof.
  rewrite list_elem_of_In, in_concat. split.
  - intros (l & Hl & Hp). apply in_map_iff in Hl as (k & <- & Hk). exists k. split; by apply list_elem_of_In.
  - intros (k & Hk & Hp). eexists. split; [apply in_map_iff; exists k; split; [done|by apply list_elem_of_In]|].
    by apply list_elem_of_In.
Qed.

Lemma after_keys_exact st st' ks :
  ks ≡ₚ elements all_merge_keys -> consistent settled_bindings ->
  (forall p h, mg_merged (after_keys (no_merge_yet st) st' ks) !! p = Some h <->
     exists k, k ∈ all_merge_keys /\ (p, h) ∈ oc_bindings (decide_key settle k))
  /\ mg_conflicts (after_keys (no_merge_yet st) st' ks)
     ≡ₚ omap (fun k => oc_conflict (decide_key settle k)) (elements all_merge_keys).
Proof.
  intros Hks Hc. split.
  - intros p h. cbn [after_keys no_merge_yet mg_merged]. rewrite bind_pairs_spec.
    + rewrite elem_of_settled. setoid_rewrite Hks. by setoid_rewrite elem_of_elements.
    + intros k v v'. rewrite !elem_of_settled. setoid_rewrite Hks. intros Hv Hv'. apply (Hc k); by apply elem_of_settled.
  - cbn [after_keys no_merge_yet mg_conflicts app]. by rewrite Hks.
Qed.
End settle.

(** ** The decisions *)

Section decisions.
Context (settle : string -> outcome).
Hypotheses (zB : no_zero mB) (zL : no_zero mL) (zR : no_zero mR).

Lemma decide_agreed k h : mL !! k = Some h -> mR !! k = Some h -> decide_key settle k = binds k h.
Proof.
  intros HL HR. pose proof (zL k h HL) as Hz. unfold decide_key, hL, hR. rewrite HL, HR. cbn [hashFromPtr].
  destruct (bool_decide_reflect (h = hB k)) as [Hh|Hh]; [by rewrite <- Hh, Hz|by rewrite decide_True].
Qed.

Lemma decide_remote k h : mL !! k = mB !! k -> mR !! k = Some h -> decide_key settle k = binds k h.
Proof.
  intros HL HR. pose proof (zR k h HR) as Hz. unfold decide_key, hL, hR, hB. rewrite HL, HR, bool_decide_true by done.
  cbn [hashFromPtr]. destruct (bool_decide_reflect (h = hashFromPtr (mB !! k))) as [Hh|Hh]; [by rewrite <- Hh, Hz|done].
Qed.

Lemma decide_local k h : mR !! k = mB !! k -> mL !! k = Some h -> decide_key settle k = binds k h.
Proof.
  intros HR HL. pose proof (zL k h HL) as Hz. unfold decide_key, hL, hR, hB. rewrite HL, HR. cbn [hashFromPtr].
  rewrite (bool_decide_true (hashFromPtr (mB !! k) = _)) by done.
  destruct (bool_decide_reflect (h = hashFromPtr (mB !! k))) as [Hh|Hh]; [by rewrite <- Hh, Hz|done].
Qed.

Lemma decide_kept k h :
  mB !! k = Some h -> (mL !! k = Some h /\ mR !! k = None) \/ (mL !! k = None /\ mR !! k = Some h) ->
  decide_key settle k = binds k h.
Proof.
  intros HB Hs. pose proof (zB k h HB) as Hz. assert (Hne : zero_hash <> h) by (by intros <-).
  unfold decide_key, hL, hR, hB. rewrite HB.
  destruct Hs as [[-> ->]|[-> ->]]; cbn [hashFromPtr];
    rewrite (bool_decide_true (h = h)), (bool_decide_false (zero_hash = h)) by done; [done|by rewrite Hz].
Qed.

Lemma decide_diverged k : diverged k -> decide_key settle k = settle k.
Proof. intros (HL & HR & HLR). unfold decide_key. by rewrite !bool_decide_false, decide_False by done. Qed.

Lemma decide_lost k h : mB !! k = Some h -> mL !! k = None -> mR !! k = None -> decide_key settle k = binds k zero_hash.
Proof.
  intros HB HL HR. pose proof (zB k h HB) as Hz. assert (Hne : zero_hash <> h) by (by intros <-).
  unfold decide_key, hL, hR, hB. rewrite HB, HL, HR. cbn [hashFromPtr].
  by rewrite bool_decide_false, decide_True by done.
Qed.

Lemma decide_cases k : k ∈ all_merge_keys -> diverged k \/ exists h, decide_key settle k = binds k h.
Proof.
  unfold all_merge_keys. rewrite !elem_of_union, !elem_of_dom. intros Hk.
  destruct (mB !! k) as [b|] eqn:HB, (mL !! k) as [l|] eqn:HL, (mR !! k) as [r|] eqn:HR.
  - destruct (decide (l = r)) as [->|]; [right; eauto using decide_agreed|].
    destruct (decide (l = b)) as [->|]; [right; exists r; apply decide_remote; congruence|].
    destruct (decide (r = b)) as [->|]; [right; exists l; apply decide_local; congruence|].
    left. unfold diverged, hL, hR, hB. by rewrite HB, HL, HR.
  - destruct (decide (l = b)) as [->|]; [right; exists b; apply decide_kept; auto|]. left.
    unfold diverged, hL, hR, hB. rewrite HB, HL, HR. cbn. pose proof (zB k b HB). pose proof (zL k l HL).
    split_and!; [congruence|by intros <-|by intros ->].
  - destruct (decide (r = b)) as [->|]; [right; exists b; apply decide_kept; auto|]. left.
    unfold diverged, hL, hR, hB. rewrite HB, HL, HR. cbn. pose proof (zB k b HB). pose proof (zR k r HR).
    split_and!; [by intros <-|congruence|by intros <-].
  - right. exists zero_hash. by eapply decide_lost.
  - destruct (decide (l = r)) as [->|]; [right; eauto using decide_agreed|]. left.
    unfold diverged, hL, hR, hB. rewrite HB, HL, HR. cbn. pose proof (zL k l HL). pose proof (zR k r HR).
    split_and!; [by intros ->|by intros ->|done].
  - right. exists l. apply decide_local; congruence.
  - right. exists r. apply decide_remote; congruence.
  - destruct Hk as [[[? ?]|[? ?]]|[? ?]]; done.
Qed.
End decisions.

(** A merge asks for the tries of the three versions, and that no version binds
    a path to the zero hash, which stands for an absent one. *)
Record mergeable (good : State -> Prop) (settle : string -> outcome) (rB rL rR : Hash) : Prop := {
  mergeable_settles : Settlement good settle;
  mergeable_tries st : good st -> tries_in rB rL rR (ts_Store st);
  mergeable_maps : no_zero mB /\ no_zero mL /\ no_zero mR;
  mergeable_roots : IsZero rB = false /\ IsZero rL = false /\ IsZero rR = false;
  mergeable_consistent : consistent (settled_bindings settle)
}.

Lemma merge_run good settle rB rL rR st :
  mergeable good settle rB rL rR -> good st ->
  exists m', trieMergeBindings Execute hctx strategyOverride localVersion remoteVersion st rB rL rR = Ok m'
    /\ good (mg_State m')
    /\ (forall p h, mg_merged m' !! p = Some h <->
          exists k, k ∈ all_merge_keys /\ (p, h) ∈ oc_bindings (decide_key settle k))
    /\ mg_conflicts m' ≡ₚ omap (fun k => oc_conflict (decide_key settle k)) (elements all_merge_keys).
Proof.
  intros [Hs Ht (zB & zL & zR) (ZB & ZL & ZR) Hc] Hg.
  destruct (trieMergeBindings_spec good settle rB rL rR Ht zB st Hg ZB ZL ZR) as (st' & ks & Hg' & Hks & ->).
  eexists. split; [done|]. split; [done|]. by apply after_keys_exact.
Qed.

(** A merge of three tries returns, and binds exactly this: where the sides
    agree, what they agree on; where one side is as the base, or lacks a path
    the other has as the base, the other's binding; where both changed a path to
    different hashes, what the policies settle, whose conflicts it records; a
    path of the base that both sides lack is bound to the zero hash. *)
Theorem trieMerge_exact good settle rB rL rR st :
  mergeable good settle rB rL rR -> good st ->
  exists m', trieMergeBindings Execute hctx strategyOverride localVersion remoteVersion st rB rL rR = Ok m'
    /\ good (mg_State m')
    /\ (forall k h, mL !! k = Some h -> mR !! k = Some h -> mg_merged m' !! k = Some h)
    /\ (forall k h, mL !! k = mB !! k -> mR !! k = Some h -> mg_merged m' !! k = Some h)
    /\ (forall k h, mR !! k = mB !! k -> mL !! k = Some h -> mg_merged m' !! k = Some h)
    /\ (forall k h, mB !! k = Some h -> (mL !! k = Some h /\ mR !! k = None) \/ (mL !! k = None /\ mR !! k = Some h) ->
          mg_merged m' !! k = Some h)
    /\ (forall k p h, diverged k -> (p, h) ∈ oc_bindings (settle k) -> mg_merged m' !! p = Some h)
    /\ (forall p h, mg_merged m' !! p = Some h ->
          p ∈ all_merge_keys \/ exists k, diverged k /\ (p, h) ∈ oc_bindings (settle k))
    /\ (forall k, is_Some (mB !! k) -> mL !! k = None -> mR !! k = None -> mg_merged m' !! k = Some zero_hash)
    /\ (forall c, c ∈ mg_conflicts m' <-> exists k, diverged k /\ oc_conflict (settle k) = Some c).
Proof.
  intros Hm Hg. destruct (merge_run good settle rB rL rR st Hm Hg) as (m' & Hrun & Hg' & Hmerged & Hconf).
  pose proof (mergeable_maps _ _ _ _ _ Hm) as (zB & zL & zR).
  assert (Hkey : forall k h, k ∈ all_merge_keys -> decide_key settle k = binds k h -> mg_merged m' !! k = Some h).
  { intros k h Hk Hd. apply Hmerged. exists k. split; [done|]. rewrite Hd. left. }
  assert (Hin : forall (t : gmap string Hash) k h, t !! k = Some h -> t = mB \/ t = mL \/ t = mR -> k ∈ all_merge_keys).
  { intros t k h Hl Ht. unfold all_merge_keys. rewrite !elem_of_union, !elem_of_dom. destruct Ht as [->|[->| ->]]; eauto. }
  assert (Hdiv : forall k, diverged k -> k ∈ all_merge_keys).
  { intros k (HL & HR & _). unfold all_merge_keys. rewrite !elem_of_union, !elem_of_dom.
    destruct (mB !! k) eqn:EB, (mL !! k) eqn:EL; eauto. unfold hL, hB in HL. by rewrite EB, EL in HL. }
  exists m'. split; [done|]. split; [done|]. split_and!.
  - intros k h HL HR. apply Hkey; [by eauto|by apply decide_agreed].
  - intros k h HL HR. apply Hkey; [by eauto|by apply decide_remote].
  - intros k h HR HL. apply Hkey; [by eauto|by apply decide_local].
  - intros k h HB Hs. apply Hkey; [by eauto|by apply decide_kept].
  - intros k p h Hd Hp. apply Hmerged. exists k. rewrite decide_diverged by done. auto.
  - intros p h (k & Hk & Hp)%Hmerged. destruct (decide_cases settle zB zL zR k Hk) as [Hd|[h' Hd]].
    + rewrite decide_diverged in Hp by done. right. eauto.
    + rewrite Hd in Hp. apply list_elem_of_singleton in Hp. left. by injection Hp as -> _.
  - intros k [h HB] HL HR. apply Hkey; [by eauto|by eapply decide_lost].
  - intros c. rewrite Hconf, list_elem_of_omap. setoid_rewrite elem_of_elements. split.
    + intros (k & Hk & Hc). destruct (decide_cases settle zB zL zR k Hk) as [Hd|[h' Hd]]; [|by rewrite Hd in Hc].
      rewrite decide_diverged in Hc by done. eauto.
    + intros (k & Hd & Hc). exists k. rewrite decide_diverged by done. eauto.
Qed.

(** ** The flat merge *)

(** A deletion is a marker: no side lacks a path of the base. *)
Definition deletions_marked : Prop := forall k, is_Some (mB !! k) -> is_Some (mL !! k) /\ is_Some (mR !! k).

Lemma flat_binding_spec good settle m k :
  Settlement good settle -> no_zero mL -> no_zero mR -> deletions_marked -> k ∈ all_merge_keys -> good (mg_State m) ->
  exists st', good st'
    /\ flat_binding Execute hctx strategyOverride localVersion remoteVersion m k mB mL mR
       = Ok (apply_outcome (at_state m st') (decide_key settle k)).
Proof.
  intros Hset zL zR Hmark Hk Hg. unfold flat_binding, decide_key. fold (hB k) (hL k) (hR k).
  assert (Hone : forall h, bind_merged m k h = apply_outcome (at_state m (mg_State m)) (binds k h)).
  { intros h. destruct m. unfold apply_outcome, at_state, bind_merged. cbn. by rewrite app_nil_r. }
  assert (Hno : m = apply_outcome (at_state m (mg_State m)) nothing).
  { destruct m. unfold apply_outcome, at_state. cbn. by rewrite app_nil_r. }
  assert (HL : if IsZero (hL k) then mL !! k = None else mL !! k = Some (hL k)).
  { unfold hL. destruct (mL !! k) as [h|] eqn:E; cbn; [by rewrite (zL k h E)|done]. }
  assert (HR : if IsZero (hR k) then mR !! k = None else mR !! k = Some (hR k)).
  { unfold hR. destruct (mR !! k) as [h|] eqn:E; cbn; [by rewrite (zR k h E)|done]. }
  assert (HB : mL !! k = None \/ mR !! k = None -> hB k = zero_hash).
  { intros Hn. unfold hB. destruct (mB !! k) as [h|] eqn:E; [|done]. destruct (Hmark k) as [[? ?] [? ?]]; [by eauto|].
    destruct Hn; congruence. }
  destruct (bool_decide_reflect (hL k = hB k)) as [EL|EL], (bool_decide_reflect (hR k = hB k)) as [ER|ER].
  - exists (mg_State m). split; [done|]. destruct (IsZero (hB k)); f_equal; auto.
  - exists (mg_State m). split; [done|]. f_equal. rewrite Hone. f_equal. f_equal.
    destruct (IsZero (hR k)); by rewrite HR.
  - exists (mg_State m). split; [done|]. f_equal. destruct (IsZero (hL k)) eqn:Z; rewrite HL; [|apply Hone].
    exfalso. apply EL. rewrite HB by auto. unfold hL. by rewrite HL.
  - case_decide as ELR; [exists (mg_State m); split; [done|]; f_equal; auto|].
    destruct (IsZero (hL k)); [exfalso; apply EL; rewrite HB by auto; unfold hL; by rewrite HL|].
    destruct (IsZero (hR k)); [exfalso; apply ER; rewrite HB by auto; unfold hR; by rewrite HR|].
    rewrite <- HL, <- HR. by apply settled.
Qed.

Lemma mergeSnapshots_spec good settle ks m :
  Settlement good settle -> no_zero mL -> no_zero mR -> deletions_marked -> (forall k, k ∈ ks -> k ∈ all_merge_keys) ->
  good (mg_State m) ->
  exists st', good st' /\ mergeSnapshots Execute hctx strategyOverride localVersion remoteVersion m mB mL mR ks
    = Ok (after_keys settle m st' ks).
Proof.
  intros Hset zL zR Hmark. revert m. induction ks as [|k ks IH]; intros m Hks Hg; cbn [mergeSnapshots].
  { exists (mg_State m). by rewrite after_keys_nil. }
  destruct (flat_binding_spec good settle m k Hset zL zR Hmark (Hks k ltac:(left)) Hg) as (st' & Hg' & ->). cbn [res_bind].
  destruct (IH (apply_outcome (at_state m st') (decide_key settle k))) as (st'' & Hg'' & ->); [|done|].
  - intros x Hx. apply Hks. by right.
  - exists st''. split; [done|]. by rewrite after_keys_cons.
Qed.

(** When every deletion is marked, the merge of the tries and the merge of the
    flat maps are the same: for every order in which the flat merge visits the
    paths, both return, with equal merged bindings and the same conflicts. *)
Theorem trieMerge_flat good settle rB rL rR st allPaths :
  mergeable good settle rB rL rR -> good st -> deletions_marked -> allPaths ≡ₚ elements all_merge_keys ->
  exists m m', trieMergeBindings Execute hctx strategyOverride localVersion remoteVersion st rB rL rR = Ok m
    /\ mergeSnapshots Execute hctx strategyOverride localVersion remoteVersion (no_merge_yet st) mB mL mR allPaths = Ok m'
    /\ mg_merged m = mg_merged m' /\ mg_conflicts m ≡ₚ mg_conflicts m'.
Proof.
  intros Hm Hg Hmark Hp. destruct (merge_run good settle rB rL rR st Hm Hg) as (m & Hrun & _ & Hmerged & Hconf).
  pose proof (mergeable_maps _ _ _ _ _ Hm) as (_ & zL & zR).
  destruct (mergeSnapshots_spec good settle allPaths (no_merge_yet st) (mergeable_settles _ _ _ _ _ Hm) zL zR Hmark)
    as (st' & _ & Hflat); [|done|].
  { intros k. by rewrite Hp, elem_of_elements. }
  destruct (after_keys_exact settle st st' allPaths Hp (mergeable_consistent _ _ _ _ _ Hm)) as [Hfm Hfc].
  exists m, (after_keys settle (no_merge_yet st) st' allPaths). split; [done|]. split; [done|]. split.
  - apply map_eq. intros k. apply option_eq. intros h. by rewrite Hmerged, Hfm.
  - by rewrite Hconf, Hfc.
Qed.
End three_way.
