(* ===== verification/RevSettle.v ===== *)
(** * The built-in strategies settle

    What the merge asks of the strategies in [RevThreeWay] holds for every
    configuration that delegates to no handler, on a peer that has stored the
    entities the merge reads: the store only grows while a merge runs, and what
    was read once is read again. *)

From Stdlib Require Import Ascii.
From S2P Require Import Prelude GoStrings Errors Hash Entity PeerID Paths CapTypes Patterns Check Delegation Revoked Store Notifying Handlers TreeIndex Trie TrieSpec TrieCanon TrieMap TrieRemove TrieDiff RootTracker TreeHandler TreeOps RevMerge RevThreeWay.

Lemma omap_ext_in {A B} (f g : A -> option B) (l : list A) : (forall x, x ∈ l -> f x = g x) -> omap f l = omap g l.
Proof.
  induction l as [|x l IH]; [done|]. intros Hfg. cbn [omap list_omap]. rewrite (Hfg x) by left.
  fold (omap f l) (omap g l). rewrite IH by (intros y Hy; apply Hfg; by right). done.
Qed.

Lemma first_some_ext {A B} (f g : A -> option B) (l : list A) : (forall x, x ∈ l -> f x = g x) -> first_some f l = first_some g l.
Proof.
  induction l as [|x l IH]; [done|]. intros Hfg. cbn [first_some]. rewrite (Hfg x) by left.
  by rewrite IH by (intros y Hy; apply Hfg; by right).
Qed.

Section settle.
Context {CS L IX : Type} `{ContentStoreLaws CS} `{LocationIndex L} `{CapabilityIndex IX} `{Base58, DataCodec, TreeCodec, NodeCodec, RevisionCodec}.
Variable Execute : option (TreeState CS L IX -> string -> Entity -> TreeState CS L IX * option (Z * Entity)).
Variables (hctx : HandlerContext) (strategyOverride : string) (localVersion remoteVersion : Hash).
Variables (mB mL mR : gmap string Hash).
Abbreviation State := (TreeState CS L IX).
Abbreviation Merging := (Merging (CS := CS) (L := L) (IX := IX)).
Abbreviation baseHash := (hB mB).
Abbreviation localHash := (hL mL).
Abbreviation remoteHash := (hR mR).
Implicit Types (st : State) (m : Merging).

(** ** Settling as a function of the state *)

Definition policy_at st (k : string) : option Hash :=
  match resolveDeletionVsEntity (resolveDeletionStrategy st k) (localHash k) (remoteHash k) with Ok o => o | Err _ => None end.
Definition choice_at st (k : string) : strategyChoice :=
  findMergeStrategy hctx st k strategyOverride (localHash k) (remoteHash k).
Definition strategy_at st (k : string) : State * mergeStrategyResult :=
  applyMergeStrategy Execute st (choice_at st k) k (baseHash k) (localHash k) (remoteHash k).

Definition settle_state st (k : string) : State :=
  match policy_at st k with Some _ => st | None => fst (strategy_at st k) end.

Definition settle_result (k : string) (choice : strategyChoice) (result : mergeStrategyResult) : outcome :=
  if resolved result then {| oc_bindings := (k, sr_hash result) :: additionalBindings result; oc_conflict := None |}
  else {| oc_bindings := match mL !! k with Some h => [(k, h)] | None => [] end;
          oc_conflict := Some (conflict_at localVersion remoteVersion k choice (baseHash k) (localHash k) (remoteHash k)) |}.

Definition settle_at st (k : string) : outcome :=
  match policy_at st k with
  | Some h => binds k h
  | None => settle_result k (choice_at st k) (snd (strategy_at st k))
  end.

Lemma policy_ok strategy local remote :
  is_ok CanonicalDeletionMarkerHash = true -> exists o, resolveDeletionVsEntity strategy local remote = Ok o.
Proof.
  unfold resolveDeletionVsEntity. intros Hok. destruct CanonicalDeletionMarkerHash as [h|]; [|done]. cbn [res_bind].
  repeat (case_match; [by eauto|]). eauto.
Qed.

Lemma bind_merged_foldl (m : Merging) (l : list (string * Hash)) :
  foldl (fun m ab => bind_merged m (fst ab) (snd ab)) m l
  = {| mg_State := mg_State m; mg_merged := bind_pairs (mg_merged m) l; mg_conflicts := mg_conflicts m |}.
Proof. revert m. induction l as [|ab l IH]; intros m; [by destruct m|]. cbn [foldl]. by rewrite IH. Qed.

Lemma merge_diverged_at m k :
  is_ok CanonicalDeletionMarkerHash = true ->
  merge_diverged Execute hctx strategyOverride localVersion remoteVersion m k (baseHash k) (mL !! k) (mR !! k)
  = Ok (apply_outcome (at_state m (settle_state (mg_State m) k)) (settle_at (mg_State m) k)).
Proof.
  intros Hok. unfold merge_diverged, settle_state, settle_at, policy_at. fold (localHash k) (remoteHash k).
  destruct (policy_ok (resolveDeletionStrategy (mg_State m) k) (localHash k) (remoteHash k) Hok) as [o ->]. cbn [res_bind].
  destruct o as [h|].
  - destruct m. unfold apply_outcome, at_state, bind_merged. cbn. by rewrite app_nil_r.
  - unfold strategy_at. fold (choice_at (mg_State m) k).
    destruct (applyMergeStrategy _ _ _ _ _ _ _) as [st' result]. cbn [fst snd]. unfold settle_result.
    destruct (resolved result) eqn:Er; f_equal.
    + rewrite bind_merged_foldl. unfold apply_outcome, at_state, bind_merged. cbn. by rewrite app_nil_r.
    + unfold apply_outcome, at_state, add_conflict, bind_merged. by destruct (mL !! k).
Qed.

Lemma settlement_of (good : State -> Prop) (settle : string -> outcome) :
  is_ok CanonicalDeletionMarkerHash = true ->
  (forall st k, good st -> diverged mB mL mR k -> settle_at st k = settle k /\ good (settle_state st k)) ->
  Settlement Execute hctx strategyOverride localVersion remoteVersion mB mL mR good settle.
Proof.
  intros Hok Hs. split. intros m k Hg Hd. destruct (Hs _ _ Hg Hd) as [<- Hg']. eexists. split; [exact Hg'|].
  by apply merge_diverged_at.
Qed.

(** ** A store that only grows *)

Definition keeps (st0 st : State) : Prop :=
  ts_Index st = ts_Index st0 /\ entities (ts_Store st0) ⊆ entities (ts_Store st).

Definition stored st (h : Hash) : Prop := is_Some (entities (ts_Store st) !! h).

(** What the merge reads is stored when it starts; no strategy delegates; puts
    of entities with a hash succeed, and none displaces a stored entity. *)
Record self_contained (st0 : State) : Prop := {
  sc_marker : is_ok CanonicalDeletionMarkerHash = true;
  sc_path_configs e : e ∈ List_ (ts_Index st0) (mergeConfigPathScope "") -> stored st0 (le_Hash e);
  sc_type_configs t p h : p = mergeConfigTypeScope t \/ p = QualifyPath (hc_LocalPeerID hctx) (mergeConfigTypeScope t) ->
    Get (ts_Index st0) p = Some h -> stored st0 h;
  sc_values k h : diverged mB mL mR k -> h = baseHash k \/ h = localHash k \/ h = remoteHash k -> IsZero h = true \/ stored st0 h;
  sc_builtin k : diverged mB mL mR k -> sc_strategy (choice_at st0 k) <> "handler";
  sc_puts (s : CS) e h : put_hash e = Ok h -> snd (cs_Put s e) = Ok h;
  sc_addressed k e h e' : diverged mB mL mR k ->
    merged_entity (ts_Store st0) (baseHash k) (localHash k) (remoteHash k) = Some e -> put_hash e = Ok h ->
    entities (ts_Store st0) !! h = Some e' -> e' = stamped e h
}.

Section contained.
Variable st0 : State.
Hypothesis Hsc : self_contained st0.

Lemma keeps_get st h : keeps st0 st -> stored st0 h -> cs_Get (ts_Store st) h = cs_Get (ts_Store st0) h.
Proof.
  intros [_ Hsub] [e He]. rewrite !cs_get_spec, He. by eapply lookup_weaken.
Qed.

Lemma keeps_path_configs st k : keeps st0 st -> path_configs st k = path_configs st0 k.
Proof.
  intros Hk. unfold path_configs. rewrite (proj1 Hk). apply omap_ext_in. intros e He.
  by rewrite (keeps_get st (le_Hash e) Hk (sc_path_configs _ Hsc e He)).
Qed.

Lemma keeps_value st k h :
  keeps st0 st -> diverged mB mL mR k -> h = baseHash k \/ h = localHash k \/ h = remoteHash k -> IsZero h = false ->
  cs_Get (ts_Store st) h = cs_Get (ts_Store st0) h.
Proof. intros Hk Hd Hh Hz. apply keeps_get; [done|]. destruct (sc_values _ Hsc k h Hd Hh); congruence. Qed.

Lemma keeps_types st k :
  keeps st0 st -> diverged mB mL mR k ->
  mergeConfigTypesToCheck (ts_Store st) (localHash k) (remoteHash k)
  = mergeConfigTypesToCheck (ts_Store st0) (localHash k) (remoteHash k).
Proof.
  intros Hk Hd. unfold mergeConfigTypesToCheck.
  pose proof (fun h => keeps_value st k h Hk Hd) as Hv.
  destruct (IsZero (localHash k)) eqn:EL, (IsZero (remoteHash k)) eqn:ER; rewrite ?Hv by tauto; done.
Qed.

Lemma keeps_lookup st t :
  keeps st0 st -> lookupEntity hctx st (mergeConfigTypeScope t) = lookupEntity hctx st0 (mergeConfigTypeScope t).
Proof.
  intros Hk. unfold lookupEntity. rewrite (proj1 Hk).
  destruct (Get (ts_Index st0) (mergeConfigTypeScope t)) as [h|] eqn:E1.
  - apply keeps_get; [done|]. eapply (sc_type_configs _ Hsc t); [left; reflexivity|exact E1].
  - destruct (String.eqb _ _); [done|].
    destruct (Get (ts_Index st0) (QualifyPath (hc_LocalPeerID hctx) (mergeConfigTypeScope t))) as [h|] eqn:E2; [|done].
    apply keeps_get; [done|]. eapply (sc_type_configs _ Hsc t); [right; reflexivity|exact E2].
Qed.

Lemma keeps_choice st k : keeps st0 st -> diverged mB mL mR k -> choice_at st k = choice_at st0 k.
Proof.
  intros Hk Hd. unfold choice_at, findMergeStrategy. destruct (negb _); [done|].
  rewrite (keeps_types st k Hk Hd), (keeps_path_configs st k Hk). erewrite first_some_ext; [done|].
  intros t _. unfold type_config. by rewrite (keeps_lookup st t Hk).
Qed.

Lemma keeps_merged st k :
  keeps st0 st -> diverged mB mL mR k ->
  merged_entity (ts_Store st) (baseHash k) (localHash k) (remoteHash k)
  = merged_entity (ts_Store st0) (baseHash k) (localHash k) (remoteHash k).
Proof.
  intros Hk Hd. unfold merged_entity. pose proof (fun h => keeps_value st k h Hk Hd) as Hv.
  destruct (IsZero (baseHash k)) eqn:EB, (IsZero (localHash k)) eqn:EL, (IsZero (remoteHash k)) eqn:ER; try done.
  rewrite !Hv by tauto. done.
Qed.

Lemma put_outcome s e :
  match put_hash e with
  | Ok h => snd (cs_Put s e) = Ok h /\ entities (fst (cs_Put s e)) = <[h := stamped e h]> (entities s)
  | Err er => snd (cs_Put s e) = Err er /\ entities (fst (cs_Put s e)) = entities s
  end.
Proof.
  pose proof (cs_put_spec s e) as Hspec. destruct (put_hash e) as [h|er] eqn:E.
  - rewrite (sc_puts _ Hsc s e h E) in Hspec |- *. split; [done|apply Hspec].
  - rewrite (cs_put_refused s e er E) in Hspec |- *. done.
Qed.

Lemma keeps_three_way st k :
  keeps st0 st -> diverged mB mL mR k ->
  snd (applyThreeWayMerge st (baseHash k) (localHash k) (remoteHash k))
  = snd (applyThreeWayMerge st0 (baseHash k) (localHash k) (remoteHash k))
  /\ keeps st0 (fst (applyThreeWayMerge st (baseHash k) (localHash k) (remoteHash k))).
Proof.
  intros Hk Hd. unfold applyThreeWayMerge. rewrite (keeps_merged st k Hk Hd).
  destruct (merged_entity _ _ _ _) as [e|] eqn:Em; [|done].
  pose proof (put_outcome (ts_Store st) e) as Ho. pose proof (put_outcome (ts_Store st0) e) as Ho0.
  destruct (cs_Put (ts_Store st) e) as [cs r], (cs_Put (ts_Store st0) e) as [cs0 r0]. cbn [fst snd] in *.
  destruct (put_hash e) as [h|er] eqn:Eh.
  - destruct Ho as [-> He], Ho0 as [-> _]. split; [done|]. split; [apply Hk|]. cbn. rewrite He.
    apply map_subseteq_spec. intros x ex Hx. destruct (decide (x = h)) as [->|Hne].
    + rewrite (sc_addressed _ Hsc k e h ex Hd Em Eh Hx). apply lookup_insert_eq.
    + rewrite lookup_insert_ne by done. eapply lookup_weaken; [exact Hx|apply Hk].
  - destruct Ho as [-> He], Ho0 as [-> _]. split; [done|]. split; [apply Hk|]. cbn. rewrite He. apply Hk.
Qed.

Lemma keeps_settle st k :
  keeps st0 st -> diverged mB mL mR k -> settle_at st k = settle_at st0 k /\ keeps st0 (settle_state st k).
Proof.
  intros Hk Hd. unfold settle_at, settle_state, policy_at, resolveDeletionStrategy.
  rewrite (keeps_path_configs st k Hk). destruct (resolveDeletionVsEntity _ _ _) as [[h|]|]; [done| |];
    unfold strategy_at; rewrite (keeps_choice st k Hk Hd); pose proof (sc_builtin _ Hsc k Hd) as Hb;
    pose proof (keeps_three_way st k Hk Hd) as [Hr Hs]; unfold applyMergeStrategy; cbv zeta;
    generalize dependent (choice_at st0 k); intros choice Hb;
    repeat match goal with
    | |- context [String.eqb (sc_strategy choice) ?x] => destruct (String.eqb_spec (sc_strategy choice) x); [by rewrite ?Hr|]
    end; done.
Qed.

(** *** The interface is discharged *)

#[export] Instance builtin_settlement :
  Settlement Execute hctx strategyOverride localVersion remoteVersion mB mL mR (keeps st0) (settle_at st0).
Proof. apply settlement_of; [apply (sc_marker _ Hsc)|]. intros st k. apply keeps_settle. Qed.
End contained.

Lemma represents_keeps_entities (s s' : CS) r t : entities s ⊆ entities s' -> represents s r t -> represents s' r t.
Proof.
  intros Hsub [Hroot Hheld]. split; [done|]. intros n Hn. destruct (Hheld n Hn) as (h & Hh & Hl). exists h. split; [done|].
  unfold LoadTrieNode in *. rewrite cs_get_spec in *. destruct (entities s !! h) as [e|] eqn:E; [|done].
  by rewrite (lookup_weaken _ _ _ _ E Hsub).
Qed.
(** ** Bindings that do not contradict each other *)

Lemma keep_both_path_inj k k' h h' :
  length (Digest h) = length (Digest h') -> keep_both_path k h = keep_both_path k' h' -> k = k'.
Proof.
  intros Hd He. unfold keep_both_path in He.
  set (s := ".keep-both-" +:+ hex_encode (take 4 (Digest h))) in *.
  set (s' := ".keep-both-" +:+ hex_encode (take 4 (Digest h'))) in *.
  assert (Hs : slen s = slen s') by (unfold s, s'; rewrite !slen_append, !slen_hex_encode, !length_take, Hd; done).
  assert (Hk : slen k = slen k') by (apply (f_equal slen) in He; rewrite !slen_append in He; lia).
  rewrite <- (str_take_append k s), <- (str_take_append k' s'), He, Hk. done.
Qed.

Lemma strategy_additional st choice k b l r st' result :
  applyMergeStrategy Execute st choice k b l r = (st', result) ->
  forall ph, ph ∈ additionalBindings result -> ph = (keep_both_path k r, r).
Proof.
  unfold applyMergeStrategy, applyThreeWayMerge, dispatchMergeHandler, unresolved, resolved_to. cbv zeta.
  intros He ph Hph. repeat case_match; simplify_eq/=; try (by apply elem_of_nil in Hph);
    by apply list_elem_of_singleton in Hph.
Qed.

Lemma settle_shape st k :
  exists l, oc_bindings (settle_at st k) = l
    /\ (l = [] \/ exists h rest, l = (k, h) :: rest /\ forall ph, ph ∈ rest -> ph = (keep_both_path k (remoteHash k), remoteHash k)).
Proof.
  eexists. split; [done|]. unfold settle_at. destruct (policy_at st k) as [h|].
  - right. exists h, []. split; [done|]. by intros ph ?%elem_of_nil.
  - unfold settle_result. destruct (strategy_at st k) as [st' result] eqn:E. cbn [snd].
    destruct (resolved result); cbn [oc_bindings].
    + right. eexists _, _. split; [done|]. by eapply strategy_additional.
    + destruct (mL !! k) as [h|]; [|by left]. right. exists h, []. split; [done|]. by intros ph ?%elem_of_nil.
Qed.

(** No version has a path that looks like what keep-both adds for another. *)
Definition sidecars_apart : Prop :=
  forall k, k ∈ all_merge_keys mB mL mR -> keep_both_path k (remoteHash k) ∉ all_merge_keys mB mL mR.

Lemma settled_key st k p h :
  no_zero mB -> no_zero mL -> no_zero mR -> k ∈ all_merge_keys mB mL mR ->
  (p, h) ∈ oc_bindings (decide_key mB mL mR (settle_at st) k) ->
  (p = k /\ forall h', (k, h') ∈ oc_bindings (decide_key mB mL mR (settle_at st) k) -> h' = h)
  \/ p = keep_both_path k (remoteHash k) /\ h = remoteHash k.
Proof.
  intros zB zL zR Hk Hin.
  assert (Hne : keep_both_path k (remoteHash k) <> k).
  { intros He. apply (f_equal slen) in He. unfold keep_both_path in He. rewrite !slen_append in He. cbn in He. lia. }
  destruct (decide_cases mB mL mR (settle_at st) zB zL zR k Hk) as [Hd|[h0 Hd]].
  - rewrite (decide_diverged mB mL mR (settle_at st) k Hd) in *. destruct (settle_shape st k) as (l & El & Hl). rewrite El in *.
    destruct Hl as [->|(h0 & rest & -> & Hrest)]; [by apply elem_of_nil in Hin|].
    apply elem_of_cons in Hin as [[= -> ->]|Hin].
    + left. split; [done|]. intros h' [[= ->]|Hin']%elem_of_cons; [done|]. apply Hrest in Hin' as [= He _]. done.
    + apply Hrest in Hin as [= -> ->]. by right.
  - rewrite Hd in *. apply list_elem_of_singleton in Hin as [= -> ->]. left. split; [done|].
    by intros h' [= ->]%list_elem_of_singleton.
Qed.

Lemma settled_consistent st :
  no_zero mB -> no_zero mL -> no_zero mR -> (forall k h, mR !! k = Some h -> hash_wf h) -> sidecars_apart ->
  consistent (settled_bindings mB mL mR (settle_at st)).
Proof.
  intros zB zL zR Hwf Hapart p h h'. unfold settled_bindings. rewrite !elem_of_settled.
  setoid_rewrite elem_of_elements. intros (k & Hk & Hin) (k' & Hk' & Hin').
  assert (Hlen : forall x, length (Digest (remoteHash x)) = MaxDigestSize).
  { intros x. unfold hR. destruct (mR !! x) as [r|] eqn:E; [|done]. cbn. apply wf_length. by eapply Hwf. }
  destruct (settled_key st k p h zB zL zR Hk Hin) as [[Hp Hu]|[Hp ->]],
    (settled_key st k' p h' zB zL zR Hk' Hin') as [[Hp' Hu']|[Hp' ->]].
  - subst p k'. symmetry. by apply Hu.
  - subst. by destruct (Hapart k' Hk').
  - subst. by destruct (Hapart k Hk).
  - rewrite Hp in Hp'. apply keep_both_path_inj in Hp'; [by subst|]. by rewrite !Hlen.
Qed.
End settle.
