(* ===== verification/RevPerform.v ===== *)
(** * Merging versions ([ext/revision/merge.go])

    The merge operation: it compares the local head with the remote version,
    moves the head forward, or merges the two histories into a new version and
    applies its bindings to the live tree.  The mutex of the handler and the
    lock of the auto-versioner only order whole operations and are left out.
    [TriePanic] and [TrieDiverges] are as in [Trie]. *)

From Stdlib Require Import Ascii.
From S2P Require Import Prelude GoStrings Errors Hash Entity PeerID Paths CapTypes Patterns Check Delegation Revoked Store Notifying Handlers TreeIndex Trie RootTracker TreeHandler TreeOps RevDag RevMerge.

Open Scope Z_scope.

Record RevisionMergeParamsData := {
  mp_Prefix : string; mp_RemoteVersion : Hash; mp_SourceEnvelope : list byte; mp_Strategy : string; mp_DryRun : option bool }.

(** [RevisionCascadeWarningData]. *)
Record cascade_warning := { cw_Path : string; cw_ConsumerHalted : string; cw_ErrorCode : string }.

Record RevisionMergeResultData := {
  rm_Status : string; rm_Version : Hash; rm_Conflicts : list string;
  rm_MergedCount : option Z; rm_DeletedCount : option Z; rm_CascadeWarnings : list cascade_warning }.

Inductive RevAnswer :=
| RevError (status : Z) (code : string)
| RevResult (r : RevisionMergeResultData).

Definition status_only (s : string) : RevisionMergeResultData :=
  {| rm_Status := s; rm_Version := zero_hash; rm_Conflicts := []; rm_MergedCount := None; rm_DeletedCount := None;
     rm_CascadeWarnings := [] |}.

(** ** Paths *)

Definition resolvePrefix (prefix localPeerID : string) : string :=
  if HasPrefix prefix "/" then prefix else "/" +:+ localPeerID +:+ "/" +:+ prefix.

Definition PrefixHash `{HashableCodec, TreeCodec} (prefix : string) : string :=
  hex_encode (Bytes (match Compute_ "system/tree/path" (EncodeText prefix) with Ok h => h | Err _ => zero_hash end)).

Definition headPath (ph : string) : string := "system/revision/" +:+ ph +:+ "/head".
Definition activeBranchPath (ph : string) : string := "system/revision/" +:+ ph +:+ "/active-branch".
Definition branchPath (ph name : string) : string := "system/revision/" +:+ ph +:+ "/branches/" +:+ name.
Definition conflictPath (ph path : string) : string := "system/revision/" +:+ ph +:+ "/conflicts/" +:+ path.
Definition configPath (ph : string) : string := "system/revision/" +:+ ph +:+ "/config".

(** ** Orders on hashes *)

Definition normalizeMergeSides (headA headB : Hash) : Hash * Hash :=
  match byte_order (Bytes headA) (Bytes headB) with Gt => (headB, headA) | _ => (headA, headB) end.

(** The order of [SortedParents]: the first difference, then the length. *)
Definition hash_le (a b : Hash) : Prop :=
  match byte_order (Bytes a) (Bytes b) with
  | Lt => True
  | Gt => False
  | Eq => (length (Bytes a) <= length (Bytes b))%nat
  end.
#[export] Instance hash_le_dec a b : Decision (hash_le a b).
Proof. unfold hash_le. destruct (byte_order _ _); apply _. Defined.

Definition SortedParents (parents : list Hash) : list Hash := merge_sort hash_le parents.

Definition TypeRevisionEntry : string := "system/revision/entry".
Definition TypeRevisionConflict : string := "system/revision/conflict".

Section perform.
Context {CS L IX : Type} `{ContentStoreLaws CS} `{LocationIndex L} `{CapabilityIndex IX} `{Base58, DataCodec, TreeCodec, NodeCodec, RevisionCodec}.
Context `{MapOrder} {order : BindingOrder}.
Abbreviation State := (TreeState CS L IX).
Variable Execute : option (State -> string -> Entity -> State * option (Z * Entity)).
Variables (now : Z) (cw : option (ContextualWriter L)) (hctx : HandlerContext).
Implicit Types (st : State) (ws : list cascade_warning).

(** [RevisionEntryData.ToEntity]. *)
Definition version_entity (root : Hash) (parents : list Hash) : result Entity :=
  match EncodeRevision root parents with None => Err [] | Some raw => Ent.NewEntity node_format TypeRevisionEntry raw end.

Definition conflict_entity (c : RevisionConflictData) : result Entity :=
  match EncodeConflict c with None => Err [] | Some raw => Ent.NewEntity node_format TypeRevisionConflict raw end.

(** *** Reading *)

Definition readStringEntity st (path : string) : option string :=
  h ← Get (ts_Index st) path; ent ← cs_Get (ts_Store st) h; DecodeText (Data ent).

Definition loadConfig st (ph : string) : option RevisionConfigData :=
  h ← Get (ts_Index st) (configPath ph); ent ← cs_Get (ts_Store st) h; DecodeRevisionConfig (Data ent).

(** The root of a loaded version; the zero value when it does not load. *)
Definition version_root st (v : Hash) : Hash := match revision_of (ts_Store st) v with Some (root, _) => root | None => zero_hash end.

Fixpoint oscillation_loop (depthLeft : nat) (cs : CS) (candidateHash : Hash) (visited : gset Hash) (queue : list Hash) : bool :=
  match depthLeft, queue with
  | O, _ | _, [] => false
  | S depthLeft', _ =>
      (fix level (visited : gset Hash) (nextQueue queue : list Hash) : bool :=
         match queue with
         | [] => oscillation_loop depthLeft' cs candidateHash visited nextQueue
         | current :: queue =>
             if IsZero current || bool_decide (current ∈ visited) then level visited nextQueue queue
             else if decide (current = candidateHash) then true
             else level ({[current]} ∪ visited) (nextQueue ++ parents_of cs current) queue
         end) visited [] queue
  end.

Definition detectOscillation (cs : CS) (proposedRoot : Hash) (proposedParents : list Hash) (localHead : Hash) (depthLimit : Z) : bool :=
  let depthLimit := if depthLimit <=? 0 then 4 else depthLimit in
  match version_entity proposedRoot (SortedParents proposedParents) with
  | Err _ => false
  | Ok candidateEnt => oscillation_loop (Z.to_nat depthLimit) cs (ContentHash candidateEnt) ∅ [localHead]
  end.

(** *** Writing *)

Definition collectCascadeWarning (cr : option CascadeResult) (path : string) ws : list cascade_warning :=
  match cr with
  | None => ws
  | Some c => ws ++ map (fun halt => {| cw_Path := path; cw_ConsumerHalted := he_Name halt; cw_ErrorCode := Code (he_Error halt) |}) (Halted c)
  end.

Definition bind st (path : string) (h : Hash) ws : res (State * RevAnswer) (State * list cascade_warning) :=
  let '(st, cr, r) := TreeSet now cw hctx st path h "merge" in
  match r with
  | Ok _ => Ok (st, collectCascadeWarning cr path ws)
  | Err _ => Err (st, RevError 500 "storage_error")
  end.

Definition applyMergedBindingToTree st (path : string) (h : Hash) : State * option CascadeResult * res IndexErr unit :=
  if IsDeletionMarker h then let '(st, _, cr) := TreeRemove now cw hctx st path "merge" in (st, cr, Ok tt)
  else TreeSet now cw hctx st path h "merge".

Definition bindMerged st (path : string) (h : Hash) ws : res (State * RevAnswer) (State * list cascade_warning) :=
  let '(st, cr, r) := applyMergedBindingToTree st path h in
  match r with
  | Ok _ => Ok (st, collectCascadeWarning cr path ws)
  | Err _ => Err (st, RevError 500 "storage_error")
  end.

(** The loops that apply bindings below a prefix. *)
Fixpoint bind_all_merged st (prefix : string) (l : list (string * Hash)) ws
  : res (State * RevAnswer) (State * list cascade_warning) :=
  match l with
  | [] => Ok (st, ws)
  | (relPath, h) :: l => let! (st, ws) := bindMerged st (prefix +:+ relPath) h ws in bind_all_merged st prefix l ws
  end.

Definition bind_branch st (ph : string) (version : Hash) ws : res (State * RevAnswer) (State * list cascade_warning) :=
  match readStringEntity st (activeBranchPath ph) with
  | Some branch => if String.eqb branch "" then Ok (st, ws) else bind st (branchPath ph branch) version ws
  | None => Ok (st, ws)
  end.

(** The conflict entities, each replacing the one bound before it. *)
Definition supersede (c : RevisionConflictData) (h : Hash) : RevisionConflictData :=
  {| cf_Path := cf_Path c; cf_Base := cf_Base c; cf_Local := cf_Local c; cf_Remote := cf_Remote c; cf_Strategy := cf_Strategy c;
     cf_VersionLocal := cf_VersionLocal c; cf_VersionRemote := cf_VersionRemote c; cf_Supersedes := h |}.

(** An encoding error that is not checked leaves the zero entity, a put error
    the zero hash. *)
Definition put_unchecked st (ent : result Entity) : State * Hash :=
  let '(cs, r) := cs_Put (ts_Store st) (match ent with Ok e => e | Err _ => mkEntity "" [] zero_hash end) in
  (with_store st cs, match r with Ok h => h | Err _ => zero_hash end).

Fixpoint bind_conflicts st (ph : string) (l : list RevisionConflictData) ws
  : res (State * RevAnswer) (State * list cascade_warning) :=
  match l with
  | [] => Ok (st, ws)
  | c :: l =>
      match conflict_entity c with
      | Err _ => bind_conflicts st ph l ws
      | Ok ent =>
          let '(cs, r) := cs_Put (ts_Store st) ent in
          let st := with_store st cs in
          match r with
          | Err _ => bind_conflicts st ph l ws
          | Ok conflictHash =>
              let cPath := conflictPath ph (cf_Path c) in
              let '(st, conflictHash) :=
                match Get (ts_Index st) cPath with
                | Some existing => put_unchecked st (conflict_entity (supersede c existing))
                | None => (st, conflictHash)
                end in
              let! (st, ws) := bind st cPath conflictHash ws in bind_conflicts st ph l ws
          end
      end
  end.

(** *** Merging diverged heads *)

(** The bindings of a map by path, as the apply loop visits them. *)
Definition by_path (m : gmap string Hash) : list (string * Hash) :=
  map (fun k => (k, match m !! k with Some h => h | None => zero_hash end)) (merge_sort string_le (elements (dom m))).

Definition tuples (site : nat) (m : gmap string Hash) : list BucketTuple :=
  map (fun kv => mkTuple (fst kv) (snd kv)) (bindings_range site m).

(** The base of the merge: the root of the common ancestor, or an empty trie. *)
Definition base_root st (localHead remoteVersion : Hash) : State * res TrieErr Hash :=
  match findCommonAncestor (ts_Store st) localHead remoteVersion with
  | None => (st, Err TrieDiverges)
  | Some (Some ancestor) => (st, Ok (version_root st ancestor))
  | Some None => let '(cs, r) := BuildTrie (ts_Store st) [] in (with_store st cs, r)
  end.

(** The sides in the order they are merged: version and root of each. *)
Definition merge_sides (mergeOrder : string) (localHead localRoot remoteVersion remoteRoot : Hash) : (Hash * Hash) * (Hash * Hash) :=
  if String.eqb mergeOrder "deterministic" then
    let '(l, r) := normalizeMergeSides localHead remoteVersion in
    if decide (l = localHead) then ((l, localRoot), (r, remoteRoot)) else ((l, remoteRoot), (r, localRoot))
  else ((localHead, localRoot), (remoteVersion, remoteRoot)).

Definition merge_order (cfg : option RevisionConfigData) : string :=
  match cfg with
  | Some c => if String.eqb (rc_MergeOrder c) "" then "deterministic" else rc_MergeOrder c
  | None => "deterministic"
  end.
(** [int] of an unsigned depth. *)
Definition oscillation_depth (cfg : option RevisionConfigData) : Z :=
  match cfg with Some c => match rc_OscillationDepth c with Some d => i64 d | None => 4 end | None => 4 end.

Definition merge_result (status : string) (version : Hash) (merged : gmap string Hash) (conflicts : list RevisionConflictData) ws
  : RevisionMergeResultData :=
  {| rm_Status := status; rm_Version := version; rm_Conflicts := map cf_Path conflicts;
     rm_MergedCount := Some (Z.of_nat (size merged)); rm_DeletedCount := Some 0; rm_CascadeWarnings := ws |}.

(** After the merge of the tries: the new version, the head, the live tree and
    the conflicts. *)
Definition merge_commit (params : RevisionMergeParamsData) (cfg : option RevisionConfigData) (localHead remoteVersion : Hash)
    st (merged : gmap string Hash) (conflicts : list RevisionConflictData) : res TrieErr (State * RevAnswer) :=
  let ph := PrefixHash (mp_Prefix params) in
  let '(cs, r) := BuildTrie (ts_Store st) (tuples 3 merged) in
  let st := with_store st cs in
  match r with
  | Err TriePanic => Err TriePanic
  | Err TrieDiverges => Err TrieDiverges
  | Err _ => Ok (st, RevError 500 "internal_error")
  | Ok mergeTrieRoot =>
      if detectOscillation cs mergeTrieRoot [localHead; remoteVersion] localHead (oscillation_depth cfg)
      then Ok (st, RevResult (status_only "oscillation_detected"))
      else
        let '(st, versionHash) := put_unchecked st (version_entity mergeTrieRoot (SortedParents [localHead; remoteVersion])) in
        let '(li, swapped) := CompareAndSwap (ts_Index st) (headPath ph) localHead versionHash in
        let st := with_index st li in
        match swapped with
        | Err _ => Ok (st, RevResult (status_only "stale_local_head_retry"))
        | Ok _ =>
            Ok (match (let! (st, ws) := bind_branch st ph versionHash [] in
                       let! (st, ws) := bind_all_merged st (mp_Prefix params) (by_path merged) ws in
                       bind_conflicts st ph conflicts ws) with
                | Err answer => answer
                | Ok (st, ws) =>
                    (st, RevResult (merge_result (match conflicts with [] => "merged" | _ => "merged_with_conflicts" end)
                                      versionHash merged conflicts ws))
                end)
        end
  end.

Definition performMerge (params : RevisionMergeParamsData) st (localHead remoteVersion : Hash) : res TrieErr (State * RevAnswer) :=
  let localRoot := version_root st localHead in
  let remoteRoot := version_root st remoteVersion in
  let '(st, base) := base_root st localHead remoteVersion in
  match base with
  | Err TriePanic => Err TriePanic
  | Err TrieDiverges => Err TrieDiverges
  | Err _ => Ok (st, RevError 500 "internal_error")
  | Ok ancestorRoot =>
      let cfg := loadConfig st (PrefixHash (mp_Prefix params)) in
      let '((mergeLocalHead, mergeLocalRoot), (mergeRemoteVersion, mergeRemoteRoot)) :=
        merge_sides (merge_order cfg) localHead localRoot remoteVersion remoteRoot in
      let! m := trieMergeBindings Execute hctx (mp_Strategy params) mergeLocalHead mergeRemoteVersion st
                  ancestorRoot mergeLocalRoot mergeRemoteRoot in
      if match mp_DryRun params with Some b => b | None => false end then
        Ok (mg_State m, RevResult (merge_result (match mg_conflicts m with [] => "would_merge" | _ => "would_conflict" end)
                                     zero_hash (mg_merged m) (mg_conflicts m) []))
      else merge_commit params cfg localHead remoteVersion (mg_State m) (mg_merged m) (mg_conflicts m)
  end.

(** *** Moving the head forward *)

Definition forward_head st (ph : string) (localHead remoteVersion : Hash) ws : res (State * RevAnswer) (State * list cascade_warning) :=
  if IsZero localHead then bind st (headPath ph) remoteVersion ws
  else
    let '(li, swapped) := CompareAndSwap (ts_Index st) (headPath ph) localHead remoteVersion in
    match swapped with
    | Err _ => Err (with_index st li, RevResult (status_only "stale_local_head_retry"))
    | Ok _ => Ok (with_index st li, ws)
    end.

(** The root of the local head, or an empty trie. *)
Definition local_root st (localHead : Hash) : State * res TrieErr Hash :=
  let root := if IsZero localHead then zero_hash else version_root st localHead in
  if IsZero root then let '(cs, r) := BuildTrie (ts_Store st) [] in (with_store st cs, r) else (st, Ok root).

Definition forward_result (version : Hash) ws : RevAnswer :=
  RevResult {| rm_Status := "fast_forward"; rm_Version := version; rm_Conflicts := []; rm_MergedCount := None;
               rm_DeletedCount := None; rm_CascadeWarnings := ws |}.

Definition fastForward (params : RevisionMergeParamsData) st (localHead remoteVersion : Hash) : res TrieErr (State * RevAnswer) :=
  let ph := PrefixHash (mp_Prefix params) in
  match revision_of (ts_Store st) remoteVersion with
  | None => Ok (st, RevError 500 "internal_error")
  | Some (remoteRoot, _) =>
      if match mp_DryRun params with Some b => b | None => false end then Ok (st, forward_result remoteVersion [])
      else match (let! (st, ws) := forward_head st ph localHead remoteVersion [] in bind_branch st ph remoteVersion ws) with
      | Err answer => Ok answer
      | Ok (st, ws) =>
          let '(st, r) := local_root st localHead in
          match r with
          | Err TriePanic => Err TriePanic
          | Err TrieDiverges => Err TrieDiverges
          | Err _ => Ok (st, RevError 500 "internal_error")
          | Ok localRoot =>
              let! d := TrieDiff (ts_Store st) localRoot remoteRoot in
              Ok (match (let! (st, ws) := bind_all_merged st (mp_Prefix params) (bindings_range 4 (added d)) ws in
                         bind_all_merged st (mp_Prefix params) (bindings_range 5 (TargetHash <$> changed d)) ws) with
                  | Err answer => answer
                  | Ok (st, ws) => (st, forward_result remoteVersion ws)
                  end)
          end
      end
  end.

(** *** The operation *)

(** The version named by the parameters; an envelope is ingested first. *)
Definition remote_version st (params : RevisionMergeParamsData) : State * res RevAnswer Hash :=
  match mp_SourceEnvelope params with
  | [] => (st, Ok (mp_RemoteVersion params))
  | raw =>
      match decode_source raw with
      | None => (st, Err (RevError 400 "invalid_params"))
      | Some env =>
          match ingest (ts_Store st) (map_range 6 [] (Included env)) with
          | (cs, false) => (with_store st cs, Err (RevError 500 "internal_error"))
          | (cs, true) =>
              match cs_Put cs (Entity.Root env) with
              | (cs, Err _) => (with_store st cs, Err (RevError 500 "internal_error"))
              | (cs, Ok _) =>
                  (with_store st cs,
                   match DecodeFetchHead (Data (Entity.Root env)) with
                   | None => Err (RevError 400 "invalid_params")
                   | Some head => if IsZero head then Err (RevError 400 "invalid_params") else Ok head
                   end)
              end
          end
      end
  end.

Definition handleMerge (params : option RevisionMergeParamsData) st : res TrieErr (State * RevAnswer) :=
  match params with
  | None => Ok (st, RevError 400 "invalid_params")
  | Some params =>
      if String.eqb (mp_Prefix params) "" then Ok (st, RevError 400 "invalid_params")
      else
        let '(st, remote) := remote_version st params in
        match remote with
        | Err answer => Ok (st, answer)
        | Ok remoteVersion =>
            if IsZero remoteVersion then Ok (st, RevError 400 "invalid_params")
            else
              let prefix := resolvePrefix (mp_Prefix params) (hc_LocalPeerID hctx) in
              let params := {| mp_Prefix := prefix; mp_RemoteVersion := remoteVersion; mp_SourceEnvelope := mp_SourceEnvelope params;
                               mp_Strategy := mp_Strategy params; mp_DryRun := mp_DryRun params |} in
              if negb (is_ok (CheckPathCapability now hctx "merge" prefix)) then Ok (st, RevError 403 "capability_denied")
              else match revision_of (ts_Store st) remoteVersion with
              | None => Ok (st, RevError 404 "not_found")
              | Some _ =>
                  match Get (ts_Index st) (headPath (PrefixHash prefix)) with
                  | None => fastForward params st zero_hash remoteVersion
                  | Some localHead =>
                      match checkRelationship (ts_Store st) localHead remoteVersion with
                      | None => Err TrieDiverges
                      | Some relationship =>
                          if String.eqb relationship "in_sync" then Ok (st, RevResult (status_only "already_in_sync"))
                          else if String.eqb relationship "ahead" then Ok (st, RevResult (status_only "already_ahead"))
                          else if String.eqb relationship "behind" then fastForward params st localHead remoteVersion
                          else if String.eqb relationship "diverged" then performMerge params st localHead remoteVersion
                          else Ok (st, RevError 500 "internal_error")
                      end
                  end
              end
        end
  end.
End perform.
