(* ===== verification/RevConverge.v ===== *)
(** * Peers that merge the same heads create the same version

    A merge is deterministic where it matters: the sides are ordered by hash,
    the trie depends on the merged bindings alone, and the parents are sorted.
    So two peers that merge each other's heads from the same base, and settle
    the diverged paths alike, create the same version, whatever the order in
    which they visit maps and whatever else their stores hold. *)

From Stdlib Require Import Ascii.
From S2P Require Import Prelude GoStrings Errors Hash Entity PeerID Paths CapTypes Patterns Check Delegation Revoked Store Notifying Handlers TreeIndex Trie TrieSpec TrieCanon TrieMap TrieRemove TrieDiff RootTracker RootSync TreeHandler TreeOps RevDag RevMerge RevThreeWay RevPerform.

Open Scope Z_scope.

(** ** The order of hashes *)

Lemma byte_order_opp a b : byte_order b a = CompOpp (byte_order a b).
Proof.
  revert b. induction a as [|x a IH]; intros [|y b]; cbn; try done.
  rewrite (Z.compare_antisym (bZ x) (bZ y)). destruct (bZ x ?= bZ y); cbn; auto.
Qed.

Lemma byte_order_eq a b : length a = length b -> byte_order a b = Eq -> a = b.
Proof.
  revert b. induction a as [|x a IH]; intros [|y b]; cbn; try done. intros [= Hl].
  destruct (bZ x ?= bZ y) eqn:E; try done. apply Z.compare_eq in E. apply bZ_inj in E as ->. intros ->%IH; done.
Qed.

Lemma wire_order a b : wire_hash a -> wire_hash b -> a <> b -> byte_order (Bytes a) (Bytes b) <> Eq.
Proof.
  intros [Wa Sa] [Wb Sb] Hne He. apply Hne. apply Bytes_inj; [done..|].
  destruct (decide (Algorithm a = Algorithm b)) as [Ha|Ha].
  - apply byte_order_eq; [|done]. unfold Bytes. rewrite Ha. destruct (_ =? 0)%nat; [done|]. cbn [length].
    by rewrite !length_take, !wf_length.
  - exfalso. unfold Bytes in He.
    assert (Hx : forall x y l l', byte_order (x :: l) (y :: l') = Eq -> x = y).
    { intros x y l l'. cbn. destruct (bZ x ?= bZ y) eqn:E; try done. intros _. by apply bZ_inj, Z.compare_eq. }
    destruct (_ =? 0)%nat in He; destruct (_ =? 0)%nat in He; by apply Hx in He.
Qed.

Lemma merge_sides_sym a ra b rb :
  byte_order (Bytes a) (Bytes b) <> Eq ->
  merge_sides "deterministic" a ra b rb = merge_sides "deterministic" b rb a ra.
Proof.
  intros Ho. unfold merge_sides, normalizeMergeSides. rewrite (byte_order_opp (Bytes a) (Bytes b)). cbn [String.eqb].
  assert (Hne : a <> b).
  { intros ->. pose proof (byte_order_opp (Bytes b) (Bytes b)) as Hb. destruct (byte_order (Bytes b) (Bytes b)); done. }
  destruct (byte_order (Bytes a) (Bytes b)) eqn:E; [done| |]; cbn.
  - by rewrite decide_True, decide_False by congruence.
  - by rewrite decide_False, decide_True by congruence.
Qed.

Lemma SortedParents_sym a b : byte_order (Bytes a) (Bytes b) <> Eq -> SortedParents [a; b] = SortedParents [b; a].
Proof.
  intros Ho.
  assert (Hs : forall x y, SortedParents [x; y] = if decide (hash_le x y) then [x; y] else [y; x]).
  { intros x y. unfold SortedParents. cbn. by destruct (decide (hash_le x y)). }
  assert (Hle : hash_le b a <-> ~ hash_le a b).
  { unfold hash_le. rewrite (byte_order_opp (Bytes a) (Bytes b)). by destruct (byte_order (Bytes a) (Bytes b)); cbn; tauto. }
  rewrite !Hs. destruct (decide (hash_le a b)), (decide (hash_le b a)); tauto.
Qed.

(** ** Two peers *)

Section converge.
Context {CS L IX : Type} `{ContentStoreLaws CS} `{LocationIndex L} `{CapabilityIndex IX} `{Base58, DataCodec, TreeCodec, NodeCodec, RevisionCodec}.
Context `{MapOrder} {text_ok : string -> bool} `{!TrieStorage (CS := CS) text_ok}.
Abbreviation State := (TreeState CS L IX).

(** A peer about to merge: its context, its parameters, its head and the other
    version, and the base the merge finds. *)
Record Peer := {
  p_Execute : option (State -> string -> Entity -> State * option (Z * Entity));
  p_now : Z; p_cw : option (ContextualWriter L); p_hctx : HandlerContext; p_order : BindingOrder;
  p_params : RevisionMergeParamsData; p_state : State; p_local : Hash; p_remote : Hash }.

Definition merge_at (p : Peer) : res TrieErr (State * RevAnswer) :=
  performMerge (order := p_order p) (p_Execute p) (p_now p) (p_cw p) (p_hctx p) (p_params p) (p_state p) (p_local p) (p_remote p).

Definition root_at (p : Peer) (v : Hash) : Hash := version_root (p_state p) v.

(** The sides in hash order, with their roots. *)
Definition sides_at (p : Peer) : (Hash * Hash) * (Hash * Hash) :=
  merge_sides "deterministic" (p_local p) (root_at p (p_local p)) (p_remote p) (root_at p (p_remote p)).

(** What the peer has for the merge of [mL] and [mR], the bindings of [sides],
    over [mB]. *)
Record prepared (mB mL mR : gmap string Hash) (settle : string -> outcome) (rB : Hash) (sides : (Hash * Hash) * (Hash * Hash))
    (p : Peer) : Prop := {
  pr_merge : exists st1, base_root (p_state p) (p_local p) (p_remote p) = (st1, Ok rB)
    /\ merge_order (loadConfig st1 (PrefixHash (mp_Prefix (p_params p)))) = "deterministic"
    /\ exists good : State -> Prop, good st1
      /\ mergeable (p_Execute p) (p_hctx p) (mp_Strategy (p_params p)) (fst (fst sides)) (fst (snd sides)) mB mL mR good
           settle rB (snd (fst sides)) (snd (snd sides));
  pr_sound : steps_sound (tuples (order := p_order p) 3 (bind_pairs ∅ (settled_bindings mB mL mR settle))) ∅
}.

Lemma bind_all_pairs (l : list (string * Hash)) (m : gmap string Hash) :
  bind_all (map (fun kv => mkTuple (fst kv) (snd kv)) l) m = bind_pairs m l.
Proof. revert m. induction l as [|kv l IH]; intros m; [done|]. apply IH. Qed.

Lemma bind_all_tuples (o : BindingOrder) site (m : gmap string Hash) : bind_all (tuples (order := o) site m) ∅ = m.
Proof.
  unfold tuples. rewrite bind_all_pairs. apply map_eq. intros k. apply option_eq. intros v. rewrite bind_pairs_spec.
  - by rewrite bindings_range_perm, elem_of_map_to_list.
  - intros x h h'. rewrite !bindings_range_perm, !elem_of_map_to_list. congruence.
Qed.

Lemma tuples_ok (o : BindingOrder) site m : map_ok text_ok m -> Forall (tuple_ok text_ok) (tuples (order := o) site m).
Proof.
  intros Hm. apply Forall_forall. intros t (kv & -> & Hin)%list_elem_of_fmap. rewrite bindings_range_perm in Hin.
  destruct kv as [k v]. apply elem_of_map_to_list in Hin. by apply Hm.
Qed.

Section commit.
Context {o : BindingOrder} (now : Z) (cw : option (ContextualWriter L)) (hctx : HandlerContext).

Definition refused (answer : State * RevAnswer) : Prop := snd answer = RevError 500 "storage_error".

Lemma bind_refused st path h ws answer : bind now cw hctx st path h ws = Err answer -> refused answer.
Proof. unfold bind. destruct (TreeSet _ _ _ _ _ _ _) as [[st' cr] [|]]; [done|]. by intros [= <-]. Qed.

Lemma bind_branch_refused st ph v ws answer : bind_branch now cw hctx st ph v ws = Err answer -> refused answer.
Proof. unfold bind_branch. destruct (readStringEntity _ _); [|done]. destruct (String.eqb _ _); [done|]. apply bind_refused. Qed.

Lemma bind_all_merged_refused st prefix l ws answer : bind_all_merged now cw hctx st prefix l ws = Err answer -> refused answer.
Proof.
  revert st ws. induction l as [|[k h] l IH]; intros st ws; cbn [bind_all_merged]; [done|].
  destruct (bindMerged _ _ _ _ _ _ _) as [[st' ws']|a] eqn:E; cbn [res_bind]; [apply IH|]. intros [= <-].
  unfold bindMerged in E. destruct (applyMergedBindingToTree _ _ _ _ _ _) as [[st' cr] [|]]; [done|]. by injection E as <-.
Qed.

Lemma bind_conflicts_refused st ph l ws answer : bind_conflicts now cw hctx st ph l ws = Err answer -> refused answer.
Proof.
  revert st ws. induction l as [|c l IH]; intros st ws; cbn [bind_conflicts]; [done|].
  destruct (conflict_entity c) as [ent|]; [|apply IH]. destruct (cs_Put _ ent) as [cs [h|]]; [|apply IH].
  destruct (match Get _ _ with Some _ => _ | None => _ end) as [st' h'].
  destruct (bind _ _ _ _ _ _ _) as [[st'' ws']|a] eqn:E; cbn [res_bind]; [apply IH|]. intros [= <-]. by eapply bind_refused.
Qed.

(** The version that a committed merge names. *)
Lemma merge_commit_version params cfg localHead remoteVersion (st : State) merged conflicts cs r :
  BuildTrie (ts_Store st) (tuples 3 merged) = (cs, Ok r) ->
  exists st' answer, merge_commit now cw hctx params cfg localHead remoteVersion st merged conflicts = Ok (st', answer)
    /\ forall res, answer = RevResult res -> rm_Version res <> zero_hash ->
       put_hash (match version_entity r (SortedParents [localHead; remoteVersion]) with Ok e => e | Err _ => mkEntity "" [] zero_hash end)
       = Ok (rm_Version res)
       /\ rm_MergedCount res = Some (Z.of_nat (size merged)) /\ rm_Conflicts res = map cf_Path conflicts.
Proof.
  intros Hb. unfold merge_commit. rewrite Hb.
  destruct (detectOscillation _ _ _ _ _).
  { eexists _, _. split; [done|]. intros res [= <-]. by intros []. }
  unfold put_unchecked. set (e := match version_entity _ _ with Ok e => e | Err _ => _ end).
  pose proof (cs_put_spec (ts_Store (with_store st cs)) e) as Hput. destruct (cs_Put _ e) as [cs' rp]. cbn [snd] in Hput.
  destruct (CompareAndSwap _ _ _ _) as [li [_|]].
  2:{ eexists _, _. split; [done|]. intros res [= <-]. by intros []. }
  destruct (res_bind _ _) as [[st' ws]|[st' answer]] eqn:Er.
  - eexists _, _. split; [done|]. intros res [= <-]. cbn [merge_result rm_Version rm_MergedCount rm_Conflicts].
    destruct rp as [h|]; [|by intros []]. intros _. split; [apply Hput|done].
  - eexists _, _. split; [done|]. intros res ->. exfalso.
    destruct (bind_branch _ _ _ _ _ _ _) as [[st1 ws1]|a] eqn:E1; cbn [res_bind] in Er.
    2:{ injection Er as ->. by apply bind_branch_refused in E1. }
    destruct (bind_all_merged _ _ _ _ _ _ _) as [[st2 ws2]|a] eqn:E2; cbn [res_bind] in Er.
    2:{ injection Er as ->. by apply bind_all_merged_refused in E2. }
    by apply bind_conflicts_refused in Er.
Qed.
End commit.

(** One peer: the merge returns, and the version it names is the entity of the
    settled bindings and the sorted heads. *)
Lemma merge_names mB mL mR settle rB (p : Peer) :
  prepared mB mL mR settle rB (sides_at p) p ->
  let merged := bind_pairs ∅ (settled_bindings mB mL mR settle) in
  map_ok text_ok merged -> is_Some (root_node merged) ->
  exists st' answer r, merge_at p = Ok (st', answer) /\ (exists s : CS, represents s r merged)
    /\ forall res, answer = RevResult res -> rm_Version res <> zero_hash ->
       put_hash (match version_entity r (SortedParents [p_local p; p_remote p]) with Ok e => e | Err _ => mkEntity "" [] zero_hash end)
       = Ok (rm_Version res)
       /\ rm_MergedCount res = Some (Z.of_nat (size merged))
       /\ rm_Conflicts res ≡ₚ map cf_Path (omap (fun k => oc_conflict (decide_key mB mL mR settle k)) (elements (all_merge_keys mB mL mR))).
Proof.
  intros [(st1 & Hbase & Hord & good & Hg & Hm) Hsound] merged Hok [n Hn].
  unfold merge_at, performMerge. rewrite Hbase, Hord. fold (root_at p (p_local p)) (root_at p (p_remote p)). fold (sides_at p).
  destruct (sides_at p) as [[low lowRoot] [high highRoot]]. cbn [fst snd] in Hm.
  destruct (merge_run _ _ _ _ _ _ _ _ good settle _ _ _ st1 Hm Hg) as (m' & -> & _ & Hmerged & Hconf). cbn [res_bind].
  assert (Heq : mg_merged m' = merged).
  { apply map_eq. intros k. apply option_eq. intros h. rewrite Hmerged. unfold merged.
    rewrite bind_pairs_spec by apply (mergeable_consistent _ _ _ _ _ _ _ _ _ _ _ _ _ Hm).
    unfold settled_bindings. rewrite elem_of_settled. by setoid_rewrite elem_of_elements. }
  rewrite Heq. destruct (BuildTrie_run (ts_Store (mg_State m')) (tuples (order := p_order p) 3 merged) n) as (cs & r & Hb & Hrep).
  { by apply tuples_ok. }
  { exact Hsound. }
  { by rewrite bind_all_tuples. }
  rewrite bind_all_tuples in Hrep.
  destruct (match mp_DryRun (p_params p) with Some b => b | None => false end).
  { eexists _, _, r. split; [done|]. split; [by exists cs|]. intros res [= <-]. by intros []. }
  destruct (merge_commit_version (o := p_order p) (p_now p) (p_cw p) (p_hctx p) (p_params p)
    (loadConfig st1 (PrefixHash (mp_Prefix (p_params p)))) (p_local p) (p_remote p) (mg_State m') merged (mg_conflicts m') cs r Hb)
    as (st' & answer & -> & Hans).
  exists st', answer, r. split; [done|]. split; [by exists cs|]. intros res Hr Hz.
  destruct (Hans res Hr Hz) as (Hv & Hc & ->). split; [done|]. split; [done|]. by rewrite Hconf.
Qed.

(** C35: Two peers that merge each other's heads converge.  From the same base, with
    the same two versions loaded and the diverged paths settled alike, both merges return; if both commit,
    they create the same version, with the same number of bindings and the same
    conflicts. *)
Theorem merges_converge mB mL mR settle rB (p q : Peer) :
  p_remote q = p_local p -> p_local q = p_remote p ->
  root_at q (p_local p) = root_at p (p_local p) -> root_at q (p_remote p) = root_at p (p_remote p) ->
  prepared mB mL mR settle rB (sides_at p) p -> prepared mB mL mR settle rB (sides_at p) q ->
  wire_hash (p_local p) -> wire_hash (p_remote p) -> p_local p <> p_remote p ->
  map_ok text_ok (bind_pairs ∅ (settled_bindings mB mL mR settle)) ->
  is_Some (root_node (bind_pairs ∅ (settled_bindings mB mL mR settle))) ->
  exists stp ansp stq ansq, merge_at p = Ok (stp, ansp) /\ merge_at q = Ok (stq, ansq)
    /\ forall rp rq, ansp = RevResult rp -> ansq = RevResult rq -> rm_Version rp <> zero_hash -> rm_Version rq <> zero_hash ->
       rm_Version rp = rm_Version rq /\ rm_MergedCount rp = rm_MergedCount rq /\ rm_Conflicts rp ≡ₚ rm_Conflicts rq.
Proof.
  intros Hr Hl Rl Rr Hp Hq Wl Wr Hne Hok Hn.
  assert (Hsides : sides_at p = sides_at q).
  { unfold sides_at. rewrite Hr, Hl, Rl, Rr. apply merge_sides_sym, wire_order; done. }
  rewrite Hsides in Hq.
  destruct (merge_names _ _ _ _ _ p Hp Hok Hn) as (stp & ansp & r & Hmp & [s Hs] & Hvp).
  destruct (merge_names _ _ _ _ _ q Hq Hok Hn) as (stq & ansq & r' & Hmq & [s' Hs'] & Hvq).
  rewrite (represents_unique _ _ _ _ _ Hs' Hs), Hr, Hl in Hvq.
  exists stp, ansp, stq, ansq. split; [done|]. split; [done|]. intros rp rq Ep Eq Zp Zq.
  destruct (Hvp rp Ep Zp) as (Vp & Cp & Fp). destruct (Hvq rq Eq Zq) as (Vq & Cq & Fq).
  rewrite (SortedParents_sym (p_remote p) (p_local p)) in Vq by (apply wire_order; done || congruence).
  split; [congruence|]. split; [congruence|]. by rewrite Fp, Fq.
Qed.
End converge.
