(* ===== verification/RevSample.v ===== *)
(** * Versions and merges at work

    The revision handler over the in-memory stores with a concrete encoding:
    the theorems on small histories, and runs in which the merge does not do
    what its comments say. *)

From Stdlib Require Import Ascii.
From S2P Require Import Prelude GoStrings Sha2 Errors Hash Entity PeerID Paths CapTypes Patterns Check Delegation Chain Revoked Store Notifying Handlers TreeIndex Trie TrieSpec TrieCanon TrieMap TrieSample RootTracker TreeHandler TreeOps RevDag RevMerge RevThreeWay RevSettle RevPerform RevConverge.

Open Scope Z_scope.

Module RevSample.
#[local] Existing Instances nibble58 toy_hashable default_order Sample.codec node_codec storage memory_content_store memory_content_store_laws.

(** ** An encoding *)

Definition enc_revision (root : Hash) (parents : list Hash) : list byte := Code.enc_hash root ++ Code.enc_list Code.enc_hash parents.
Definition dec_revision (d : list byte) : option (Hash * list Hash) :=
  r ← Code.dec_hash d;
  ps ← Code.dec_seq Code.dec_hash (snd r);
  match snd ps with [] => Some (fst r, fst ps) | _ => None end.

#[local] Instance tree_codec : TreeCodec := {|
  DecodeGetRequest d := None; DecodePutRequest d := None; DecodeSnapshotRequest d := None; DecodeDiffRequest d := None;
  DecodeMergeRequest d := None; DecodeExtractRequest d := None; DecodeEntityErr d := Err []; DecodeFields d := None;
  DecodeEnvelopeData d := None; DecodeSnapshot d := None; EncodeSnapshot h := None;
  DecodeRevision := dec_revision; EncodeText s := str_bytes s |}.

(** An entity is a list of fields, each a letter and a byte; the byte f6 is nil. *)
Definition key_of (k : byte) : string := bytes_str [k].
Fixpoint dec_values (d : list byte) : option (gmap string (option byte)) :=
  match d with
  | [] => Some ∅
  | k :: v :: d => m ← dec_values d; Some (<[key_of k := if decide (v = Byte.xf6) then None else Some v]> m)
  | _ => None
  end.
Definition enc_value (v : option byte) : list byte := [match v with Some b => b | None => Byte.xf6 end].
Definition enc_values (m : gmap string (option byte)) : option (list byte) :=
  Some (concat (map (fun kv => str_bytes (fst kv) ++ enc_value (snd kv)) (map_to_list m))).

Definition config (pattern strategy : string) : RevisionMergeConfigData :=
  {| mc_Pattern := pattern; mc_Strategy := strategy; mc_DeletionResolution := "deletion-wins"; mc_Handler := "" |}.

#[local] Instance revision_codec : RevisionCodec := {|
  DecodeMergeConfig d := if decide (d = [Byte.x01]) then Some (config "*" "") else None;
  DecodeRevisionConfig d := None;
  Value := option byte; nil_value := None; EncodeValue := enc_value; DecodeValues := dec_values; EncodeValues := enc_values;
  EncodeMergeRequest b l r := None; DecodeMergeResponse d := None;
  EncodeRevision root parents := Some (enc_revision root parents);
  DecodeFetchHead d := None;
  EncodeConflict c := Some (str_bytes (cf_Path c)); DecodeText d := None |}.

#[local] Instance binding_order : BindingOrder := {|
  bindings_range _ m := map_to_list m; bindings_range_perm _ _ := reflexivity _ |}.

(** ** Histories *)

Definition file (l : list Entity) : MemoryContentStore := list_to_map (map (fun e => (ContentHash e, e)) l).
Definition version (n : byte) (parents : list Entity) : Entity :=
  toy_entity TypeRevisionEntry (enc_revision (toy_hash "root" [n]) (SortedParents (map ContentHash parents))).

(** Two lines from one version, each of which has merged the other: the search
    finds the version they started from, although both heads come from later
    ones. *)
Section crossed.
Variables (b1 b2 : Entity).
Definition m1 : Entity := version Byte.x01 [b1].
Definition m2 : Entity := version Byte.x02 [b2].
Definition x1 : Entity := version Byte.x03 [m2].
Definition y1 : Entity := version Byte.x04 [m1].
Definition headA : Entity := version Byte.x05 [m1; x1].
Definition headB : Entity := version Byte.x06 [m2; y1].
Definition crossed : list Entity := [m1; m2; x1; y1; headA; headB].
End crossed.

Definition r0 : Entity := version Byte.x00 [].
Definition short_lines : MemoryContentStore := file (r0 :: crossed r0 r0).

Lemma common_ancestor_not_lowest :
  let A := ContentHash (headA r0 r0) in let B := ContentHash (headB r0 r0) in let M := ContentHash (m1 r0) in
  findCommonAncestor short_lines A B = Some (Some (ContentHash r0))
  /\ isAncestor short_lines M A = Some true /\ isAncestor short_lines M B = Some true
  /\ isAncestor short_lines (ContentHash r0) M = Some true /\ isAncestor short_lines M (ContentHash r0) = Some false.
Proof. vm_compute. by split_and!. Qed.

(** With a version between, what is found depends on the side the search starts
    from. *)
Definition p1 : Entity := version Byte.x07 [r0].
Definition p2 : Entity := version Byte.x08 [r0].
Definition long_lines : MemoryContentStore := file (r0 :: p1 :: p2 :: crossed p1 p2).

Lemma common_ancestor_asymmetric :
  let A := ContentHash (headA p1 p2) in let B := ContentHash (headB p1 p2) in
  findCommonAncestor long_lines A B = Some (Some (ContentHash (m2 p2)))
  /\ findCommonAncestor long_lines B A = Some (Some (ContentHash (m1 p1))).
Proof. vm_compute. by split. Qed.

(** ** Merges *)

Definition State : Type := TreeState MemoryContentStore MemoryLocationIndex MemoryCapabilityIndex.
Definition no_dispatch : option (State -> string -> Entity -> State * option (Z * Entity)) := None.
Definition ctx : HandlerContext := {|
  hc_Author := Sample.local; hc_AuthorHash := ContentHash Sample.peerA; hc_LocalPeerID := Sample.local;
  hc_CallerCapability := no_entity; hc_HandlerGrant := no_entity; hc_Resource := None;
  hc_HandlerPattern := "system/revision"; hc_RequestID := "r"; hc_Bounds := None; hc_ChainDepth := 0; hc_ReactiveTrigger := false;
  hc_Included := ∅ |}.

(** Entities of two fields. *)
Definition record (a b : byte) : Entity := toy_entity "record" [Byte.x61; a; Byte.x62; b].
Definition rec (a b : byte) : Hash := ContentHash (record a b).
Definition e11 : Hash := rec Byte.x01 Byte.x01.
Definition e21 : Hash := rec Byte.x02 Byte.x01.
Definition e12 : Hash := rec Byte.x01 Byte.x02.
Definition e22 : Hash := rec Byte.x02 Byte.x02.
Definition values : MemoryContentStore := file [record Byte.x01 Byte.x01; record Byte.x02 Byte.x01; record Byte.x01 Byte.x02].

Definition marker : Hash := root_of CanonicalDeletionMarkerHash.

(** The three tries in one store, and their roots. *)
Definition trie (s : MemoryContentStore) (m : gmap string Hash) : MemoryContentStore * Hash :=
  let '(s, r) := BuildTrie s (map tuple_of (map_to_list m)) in (s, root_of r).
Definition tries (mB mL mR : gmap string Hash) : MemoryContentStore * (Hash * Hash * Hash) :=
  let '(s, rB) := trie values mB in let '(s, rL) := trie s mL in let '(s, rR) := trie s mR in (s, (rB, rL, rR)).

Definition merge_of (index : gmap string Hash) (strategy : string) (mB mL mR : gmap string Hash) :=
  let '(s, (rB, rL, rR)) := tries mB mL mR in
  trieMergeBindings no_dispatch ctx strategy zero_hash zero_hash
    ({| ts_Store := s; ts_Index := index; ts_CapIndex := None |} : State) rB rL rR.

Definition merged_at (index : gmap string Hash) (strategy : string) (mB mL mR : gmap string Hash) (k : string) : option (option Hash * nat) :=
  match merge_of index strategy mB mL mR with Ok m => Some (mg_merged m !! k, length (mg_conflicts m)) | Err _ => None end.

(** The fields merge: one side changed each of them. *)
Lemma fields_merge :
  merged_at ∅ "" {["x" := e11]} {["x" := e21]} {["x" := e12]} "x" = Some (Some e22, 0%nat).
Proof. vm_compute. reflexivity. Qed.

(** *** Where the code and its comments part *)

(** A path of the base that one side lacks and the other has deleted, or that
    both lack, is bound to the zero hash. *)
Lemma lost_path_binds_zero :
  merged_at ∅ "" {["x" := e11]} {["y" := e11]} {["x" := marker]} "x" = Some (Some zero_hash, 0%nat)
  /\ merged_at ∅ "" {["x" := e11]} {["y" := e11]} {["z" := e11]} "x" = Some (Some zero_hash, 0%nat).
Proof. split; vm_compute; reflexivity. Qed.

(** A path that the first side lacks and the second has edited is a conflict and
    is bound to nothing, where the flat merge takes the edit. *)
Definition flat_at (mB mL mR : gmap string Hash) (k : string) : option (option Hash * nat) :=
  match mergeSnapshots no_dispatch ctx "" zero_hash zero_hash
          (no_merge_yet ({| ts_Store := values; ts_Index := ∅; ts_CapIndex := None |} : State)) mB mL mR
          (elements (all_merge_keys mB mL mR)) with
  | Ok m => Some (mg_merged m !! k, length (mg_conflicts m))
  | Err _ => None
  end.
Lemma absent_side_drops_edit :
  merged_at ∅ "" {["x" := e11]} {["y" := e11]} {["x" := e12]} "x" = Some (None, 1%nat)
  /\ flat_at {["x" := e11]} {["y" := e11]} {["x" := e12]} "x" = Some (Some e12, 0%nat).
Proof. split; vm_compute; reflexivity. Qed.

(** A config that leaves the strategy to its default turns the default off. *)
Definition config_entity : Entity := toy_entity "system/revision/merge-config" [Byte.x01].
Definition with_config : option (option Hash * nat) :=
  let '(s, (rB, rL, rR)) := tries {["x" := e11]} {["x" := e21]} {["x" := e12]} in
  match trieMergeBindings no_dispatch ctx "" zero_hash zero_hash
          ({| ts_Store := <[ContentHash config_entity := config_entity]> s;
              ts_Index := {[mergeConfigPathScope "all" := ContentHash config_entity]}; ts_CapIndex := None |} : State) rB rL rR with
  | Ok m => Some (mg_merged m !! "x", length (mg_conflicts m))
  | Err _ => None
  end.
Lemma default_strategy_conflicts :
  ValidateMergeStrategy "" "" = true /\ with_config = Some (Some e21, 1%nat).
Proof. split; vm_compute; reflexivity. Qed.

(** A field that one side removed is merged to nil, not removed. *)
Lemma removed_field_merges_to_nil :
  (m ← merge_fields {["a" := Some Byte.x01; "b" := Some Byte.x01]} {["a" := Some Byte.x01]} {["a" := Some Byte.x02; "b" := Some Byte.x01]};
   m !! "b") = Some None.
Proof. vm_compute. reflexivity. Qed.

(** ** Two peers merge the same heads *)

Definition mB : gmap string Hash := {["x" := e11]}.
Definition mL : gmap string Hash := {["x" := e21]}.
Definition mR : gmap string Hash := {["x" := e12]}.
Definition rB : Hash := fst (fst (snd (tries mB mL mR))).
Definition rL : Hash := snd (fst (snd (tries mB mL mR))).
Definition rR : Hash := snd (snd (tries mB mL mR)).

Definition version_at (root : Hash) (parents : list Hash) : Entity := toy_entity TypeRevisionEntry (enc_revision root parents).
Definition baseV : Entity := version_at rB [].
Definition lowV : Entity := version_at rL [ContentHash baseV].
Definition highV : Entity := version_at rR [ContentHash baseV].
Definition low : Hash := ContentHash lowV.
Definition high : Hash := ContentHash highV.
Definition history : MemoryContentStore := file [baseV; lowV; highV] ∪ fst (tries mB mL mR).

Definition prefix : string := "/" +:+ Sample.local +:+ "/data/".
Definition head : string := headPath (PrefixHash prefix).
(** A peer whose head is [h]. *)
Definition state (h : Hash) : State := {| ts_Store := history; ts_Index := {[head := h]}; ts_CapIndex := None |}.

Lemma only_x k : diverged mB mL mR k -> k = "x".
Proof.
  intros (HL & _). destruct (decide ("x" = k)) as [->|Hk]; [done|]. exfalso. apply HL. unfold hL, hB, mL, mB.
  by rewrite !lookup_singleton_ne.
Qed.

Lemma no_zeros : no_zero mB /\ no_zero mL /\ no_zero mR.
Proof.
  split_and!; intros k v; unfold mB, mL, mR; intros [_ <-]%lookup_singleton_Some; vm_compute; reflexivity.
Qed.

Lemma no_type_config h t p v :
  p = mergeConfigTypeScope t \/ p = QualifyPath (hc_LocalPeerID ctx) (mergeConfigTypeScope t) ->
  Get (ts_Index (state h)) p = Some v -> False.
Proof.
  intros Hp Hg. change (({[head := h]} : gmap string Hash) !! p = Some v) in Hg. assert (Hh : head = p) by (by apply lookup_singleton_Some in Hg as [? _]). clear Hg.
  assert (Hpre : HasPrefix head "system/revision/0" = true) by (vm_compute; reflexivity).
  rewrite Hh in Hpre. destruct Hp as [->| ->]; vm_compute in Hpre; discriminate Hpre.
Qed.

Lemma puts_succeed (s : MemoryContentStore) e h : put_hash e = Ok h -> snd (cs_Put s e) = Ok h.
Proof. cbn [cs_Put memory_content_store]. rewrite MemPut_hash. by intros ->. Qed.

Definition contains (h : Hash) : Prop :=
  self_contained (CS := MemoryContentStore) (L := MemoryLocationIndex) (IX := MemoryCapabilityIndex) ctx "" mB mL mR (state h).

Lemma state_contained h : h = low \/ h = high -> contains h.
Proof.
  intros Hh. split.
  - vm_compute. reflexivity.
  - intros e He. exfalso. assert (Hn : List_ (ts_Index (state h)) (mergeConfigPathScope "") = []).
    { destruct Hh as [->| ->]; vm_compute; reflexivity. }
    rewrite Hn in He. by apply elem_of_nil in He.
  - intros t p v Hp Hg. exfalso. by eapply no_type_config.
  - intros k v ->%only_x Hv. right. apply (bool_decide_eq_true_1 _). destruct Hv as [->|[->| ->]]; vm_compute; reflexivity.
  - intros k ->%only_x. destruct Hh as [->| ->]; vm_compute; discriminate.
  - apply puts_succeed.
  - intros k e v e' ->%only_x. change (ts_Store (state h)) with history.
    assert (Hm : merged_entity history (hB mB "x") (hL mL "x") (hR mR "x") = Some (record Byte.x02 Byte.x02)) by (vm_compute; reflexivity).
    assert (Hp : put_hash (record Byte.x02 Byte.x02) = Ok e22) by (vm_compute; reflexivity).
    assert (He : entities history !! e22 = None) by (vm_compute; reflexivity).
    rewrite Hm. intros [= <-]. rewrite Hp. intros [= <-]. rewrite He. discriminate.
Qed.

(** How both peers settle the path. *)
Definition settle : string -> outcome :=
  settle_at (CS := MemoryContentStore) (L := MemoryLocationIndex) (IX := MemoryCapabilityIndex) no_dispatch ctx "" low high mB mL mR (state low).

Lemma tries_history : tries_in mB mL mR rB rL rR history.
Proof. split; apply represented_spec; vm_compute; reflexivity. Qed.

Lemma state_mergeable h :
  h = low \/ h = high -> mergeable no_dispatch ctx "" low high mB mL mR (keeps (state h)) settle rB rL rR.
Proof.
  intros Hh. pose proof (state_contained h Hh) as Hc. destruct no_zeros as (zB & zL & zR). split.
  - apply settlement_of; [apply (sc_marker _ _ _ _ _ _ Hc)|]. intros st k Hk Hd.
    destruct (keeps_settle no_dispatch ctx "" low high mB mL mR (state h) Hc st k Hk Hd) as [-> Hk']. split; [|exact Hk'].
    apply only_x in Hd as ->. destruct Hh as [->| ->]; vm_compute; reflexivity.
  - intros st [_ Hk]. change (ts_Store (state h)) with history in Hk. destruct tries_history as [TB TL TR].
    split; [exact (represents_keeps_entities _ _ _ _ Hk TB)|exact (represents_keeps_entities _ _ _ _ Hk TL)|exact (represents_keeps_entities _ _ _ _ Hk TR)].
  - done.
  - vm_compute. done.
  - apply settled_consistent; [done..| |].
    + intros k v. unfold mR. intros [_ <-]%lookup_singleton_Some. pose proof (toy_compute "record" [Byte.x61; Byte.x01; Byte.x62; Byte.x02]) as Hx.
      by destruct (ComputeFormat_wf _ _ _ _ Hx) as (Hwf & _).
    + intros k Hk. assert (k = "x") as ->.
      { unfold all_merge_keys, mB, mL, mR in Hk. rewrite !dom_singleton_L in Hk. set_solver. }
      apply (bool_decide_eq_true_1 _). vm_compute. reflexivity.
Qed.

Lemma trieMerge_exact_witness :
  exists m', trieMergeBindings no_dispatch ctx "" low high (state low) rB rL rR = Ok m' /\ mg_merged m' !! "x" = Some e22.
Proof.
  destruct (trieMerge_exact no_dispatch ctx "" low high mB mL mR (keeps (state low)) settle rB rL rR (state low))
    as (m' & Hm & _ & _ & _ & _ & _ & Hd & _).
  - apply state_mergeable. by left.
  - split; reflexivity.
  - exists m'. split; [exact Hm|]. apply (Hd "x" "x" e22); [|vm_compute; left].
    split_and!; apply (bool_decide_eq_true_1 _); vm_compute; reflexivity.
Defined.

Lemma trieMerge_flat_witness :
  exists m m', trieMergeBindings no_dispatch ctx "" low high (state low) rB rL rR = Ok m
    /\ mergeSnapshots no_dispatch ctx "" low high (no_merge_yet (state low)) mB mL mR ["x"] = Ok m' /\ mg_merged m = mg_merged m'.
Proof.
  destruct (trieMerge_flat no_dispatch ctx "" low high mB mL mR (keeps (state low)) settle rB rL rR (state low) ["x"])
    as (m & m' & Hm & Hf & He & _).
  - apply state_mergeable. by left.
  - split; reflexivity.
  - intros k [v Hv]. unfold mB in Hv. apply lookup_singleton_Some in Hv as [<- _]. split; eexists; vm_compute; reflexivity.
  - assert (Hk : elements (all_merge_keys mB mL mR) = ["x"]) by (vm_compute; reflexivity). by rewrite Hk.
  - exists m, m'. split; [exact Hm|]. split; [exact Hf|exact He].
Defined.

(** The second visits maps in the other order. *)
Definition other_order : BindingOrder := {|
  bindings_range _ m := reverse (map_to_list m); bindings_range_perm _ _ := reverse_Permutation _ |}.
Definition merge_params : RevisionMergeParamsData := {|
  mp_Prefix := prefix; mp_RemoteVersion := zero_hash; mp_SourceEnvelope := []; mp_Strategy := ""; mp_DryRun := None |}.
Definition peer (o : BindingOrder) (local remote : Hash) : Peer := {|
  p_Execute := no_dispatch; p_now := 50; p_cw := None; p_hctx := ctx; p_order := o;
  p_params := merge_params; p_state := state local; p_local := local; p_remote := remote |}.
Definition p : Peer := peer binding_order low high.
Definition q : Peer := peer other_order high low.

Lemma peer_prepared (o : BindingOrder) local remote :
  (local = low /\ remote = high) \/ (local = high /\ remote = low) ->
  steps_sound (tuples (order := o) 3 (bind_pairs ∅ (settled_bindings mB mL mR settle))) ∅ ->
  prepared mB mL mR settle rB ((low, rL), (high, rR)) (peer o local remote).
Proof.
  intros Hlr Hs. split; [|exact Hs]. exists (state local). split.
  - cbn [p_state p_local p_remote peer]. unfold base_root.
    assert (Hf : findCommonAncestor (ts_Store (state local)) local remote = Some (Some (ContentHash baseV))).
    { destruct Hlr as [[-> ->]|[-> ->]]; vm_compute; reflexivity. }
    assert (Hr : version_root (state local) (ContentHash baseV) = rB) by (vm_compute; reflexivity).
    rewrite Hf, Hr. reflexivity.
  - split; [destruct Hlr as [[-> _]|[-> _]]; vm_compute; reflexivity|]. exists (keeps (state local)). split; [split; reflexivity|].
    apply state_mergeable. destruct Hlr as [[-> _]|[-> _]]; [left|right]; reflexivity.
Qed.

Lemma toy_wire ty d : wire_hash (toy_hash ty d).
Proof.
  destruct (ComputeFormat_wf _ _ _ _ (toy_compute ty d)) as (Hwf & Ha & Hs). split; [exact Hwf|]. by rewrite Ha.
Qed.

Definition committed_as (r : res TrieErr (State * RevAnswer)) : option Hash :=
  match r with Ok (_, RevResult res) => if IsZero (rm_Version res) then None else Some (rm_Version res) | _ => None end.

Lemma committed_result r : is_Some (committed_as r) -> exists st ans, r = Ok (st, RevResult ans) /\ rm_Version ans <> zero_hash.
Proof.
  destruct r as [[st [|ans]]|]; cbn [committed_as]; intros [v Hv]; try discriminate. exists st, ans. split; [reflexivity|].
  intros Hz. rewrite Hz in Hv. vm_compute in Hv. discriminate.
Qed.

Lemma merges_converge_witness :
  exists stp ansp stq ansq, merge_at p = Ok (stp, RevResult ansp) /\ merge_at q = Ok (stq, RevResult ansq)
    /\ rm_Version ansp <> zero_hash /\ rm_Version ansp = rm_Version ansq.
Proof.
  assert (Hm : bind_pairs ∅ (settled_bindings mB mL mR settle) = {["x" := e22]}) by (vm_compute; reflexivity).
  assert (Hsides : sides_at p = ((low, rL), (high, rR))) by (vm_compute; reflexivity).
  destruct (merges_converge (text_ok := any_text) mB mL mR settle rB p q) as (stp & ansp & stq & ansq & Hp & Hq & Hv).
  - reflexivity.
  - reflexivity.
  - vm_compute. reflexivity.
  - vm_compute. reflexivity.
  - rewrite Hsides. apply (peer_prepared binding_order low high); [left; split; reflexivity|]. rewrite Hm. apply Bindings.sound_steps_spec. vm_compute. reflexivity.
  - rewrite Hsides. apply (peer_prepared other_order high low); [right; split; reflexivity|]. rewrite Hm. apply Bindings.sound_steps_spec. vm_compute. reflexivity.
  - exact (toy_wire TypeRevisionEntry (enc_revision rL [ContentHash baseV])).
  - exact (toy_wire TypeRevisionEntry (enc_revision rR [ContentHash baseV])).
  - apply (bool_decide_eq_true_1 _). vm_compute. reflexivity.
  - rewrite Hm. intros k v [_ <-]%lookup_singleton_Some. split; [reflexivity|]. exact (toy_wire "record" [Byte.x61; Byte.x02; Byte.x62; Byte.x02]).
  - rewrite Hm. apply (bool_decide_eq_true_1 _). vm_compute. reflexivity.
  - assert (Cp : is_Some (committed_as (merge_at p))) by (apply (bool_decide_eq_true_1 _); vm_compute; reflexivity).
    assert (Cq : is_Some (committed_as (merge_at q))) by (apply (bool_decide_eq_true_1 _); vm_compute; reflexivity).
    apply committed_result in Cp as (sp & rp & Hp' & Zp). apply committed_result in Cq as (sq & rq & Hq' & Zq).
    rewrite Hp in Hp'. rewrite Hq in Hq'. injection Hp' as -> ->. injection Hq' as -> ->.
    exists sp, rp, sq, rq. split; [exact Hp|]. split; [exact Hq|]. split; [exact Zp|].
    destruct (Hv rp rq eq_refl eq_refl Zp Zq) as [Hvv _]. exact Hvv.
Defined.

(** The walk from a head of the crossed lines. *)
Lemma walkHistory_exact_witness :
  exists vs hs, walkHistory short_lines (ContentHash (headA r0 r0)) 0 zero_hash = Some (vs, hs)
    /\ NoDup hs /\ walkHistory short_lines (ContentHash (headA r0 r0)) 2 zero_hash = Some (take 2 vs, take 2 hs).
Proof.
  destruct (walkHistory_exact short_lines (ContentHash (headA r0 r0)) zero_hash 2) as (vs & hs & Hw & _ & Hn & _ & Hl).
  - vm_compute. reflexivity.
  - exists vs, hs. split; [exact Hw|]. split; [exact Hn|]. exact (Hl eq_refl).
Defined.
End RevSample.
