(* ===== verification/ComputeValues.v ===== *)
(** * Values of the expression evaluator ([ext/compute])

    The Go values an expression evaluates to, and the operations on them that
    need no evaluator: truth, arithmetic, comparison, casts and indices of
    [eval.go], [eval_arith.go] and [eval_construct.go].  A [float64] is the
    binary64 number of the Standard Library's [SpecFloat]; an [int64] or a
    [uint64] is a [Z] with its conversions written out. *)

From Stdlib Require Import Floats.SpecFloat.
From S2P Require Import Prelude GoStrings Errors Hash Entity CapTypes.

Open Scope Z_scope.

(** ** Values *)

(** What an [interface{}] holds.  [VMap] is [map[interface{}]interface{}], what
    a nested map decodes to; [VResource] the pointer that an entity-native
    handler binds; [VOther] any other type that an item may decode to, such as a
    tagged item.  The fields of a constructed value are in canonical order. *)
Inductive Value :=
| VNil
| VBool (b : bool)
| VInt (n : Z)
| VUint (n : Z)
| VFloat (f : spec_float)
| VString (s : string)
| VBytes (b : list byte)
| VArray (l : list Value)
| VMap (l : list (Value * Value))
| VHash (h : Hash)
| VEntity (e : Entity)
| VConstructed (entityType : string) (fields : list (string * Value))
| VResource (r : option ResourceTarget)
| VOther (goType : string) (data : list byte).

(** [fmt.Sprintf]: the prose of a message, which nothing reads back. *)
Class Fmt := Sprintf : string -> list Value -> string.

(** ** Errors *)

Definition ErrBudgetExhausted : string := "budget_exhausted".
Definition ErrDepthExceeded : string := "depth_exceeded".
Definition ErrTypeMismatch : string := "type_mismatch".
Definition ErrDivisionByZero : string := "division_by_zero".
Definition ErrNotFound : string := "not_found".
Definition ErrUnknownType : string := "unknown_type".
Definition ErrMissingArgument : string := "missing_argument".
Definition ErrInvalidExpression : string := "invalid_expression".
Definition ErrCascadeLimit : string := "cascade_limit".
Definition ErrPermissionDenied : string := "permission_denied".
Definition ErrIndexOutOfRange : string := "index_out_of_range".
Definition ErrCastOutOfRange : string := "cast_out_of_range".
Definition ErrCountOutOfRange : string := "count_out_of_range".
Definition ErrScopeUnreachable : string := "scope_unreachable".

Record ComputeError := { ce_Code : string; ce_Message : string; ce_At : string; ce_Expression : Hash }.

Definition newComputeError (code message : string) : ComputeError :=
  {| ce_Code := code; ce_Message := message; ce_At := ""; ce_Expression := zero_hash |}.

(** ** Floats *)

Definition prec : Z := 53.
Definition emax : Z := 1024.

(** [float64(n)] of an integer, to nearest, ties to even. *)
Definition float_of_Z (n : Z) : spec_float := binary_normalize prec emax n 0 false.

(** [math.Trunc] as an integer; [None] is NaN or an infinity. *)
Definition float_trunc (f : spec_float) : option Z :=
  match f with
  | S754_zero _ => Some 0
  | S754_infinity _ | S754_nan => None
  | S754_finite s m e =>
      let n := if 0 <=? e then Zpos m * 2 ^ e else Zpos m / 2 ^ (- e) in
      Some (if s then - n else n)
  end.

Definition toFloat64 (v : Value) : option spec_float :=
  match v with
  | VFloat f => Some f
  | VInt n | VUint n => Some (float_of_Z n)
  | _ => None
  end.

(** ** Truth *)

Definition truthy (value : Value) : bool :=
  match value with
  | VNil => false
  | VBool b => b
  | VInt n | VUint n => negb (n =? 0)
  | VFloat f => negb (SFeqb f (S754_zero false))
  | VString s => negb (String.eqb s "")
  | VArray l => match l with [] => false | _ => true end
  | _ => true
  end.

(** ** Integers *)

Definition bits64 (v : Value) : option Z :=
  match v with VInt n => Some (u64 n) | VUint n => Some n | _ => None end.

Definition signedResult (bits : Z) : Value := VInt (i64 bits).
Definition unsignedResult (bits : Z) : Value := VUint bits.

(** The integer of an index argument: [None] is not an integer, [Some None] one
    that does not fit an [int64]. *)
Definition asIndex (v : Value) : option (option Z) :=
  match v with
  | VInt n => Some (Some n)
  | VUint n => Some (if n <=? 2 ^ 63 - 1 then Some n else None)
  | _ => None
  end.

(** ** Arithmetic *)

Section arithmetic.
Context `{Fmt}.

Definition float_arithmetic (op : string) (lf rf : spec_float) : res ComputeError Value :=
  if String.eqb op "add" then Ok (VFloat (SFadd prec emax lf rf))
  else if String.eqb op "sub" then Ok (VFloat (SFsub prec emax lf rf))
  else if String.eqb op "mul" then Ok (VFloat (SFmul prec emax lf rf))
  else if String.eqb op "div" then Ok (VFloat (SFdiv prec emax lf rf))
  else Err (newComputeError ErrInvalidExpression ("Unknown arithmetic op: " +:+ op)).

(** Over the bit patterns of both operands. *)
Definition integer_arithmetic (op : string) (lBits rBits : Z) (unsignedHint : bool) : res ComputeError Value :=
  if String.eqb op "add" then Ok (signedResult (u64 (lBits + rBits)))
  else if String.eqb op "sub" then Ok (signedResult (u64 (lBits - rBits)))
  else if String.eqb op "mul" then Ok (signedResult (u64 (lBits * rBits)))
  else if String.eqb op "div" then
    if rBits =? 0 then Err (newComputeError ErrDivisionByZero "Division by zero")
    else if unsignedHint then
      if lBits mod rBits =? 0 then Ok (unsignedResult (lBits / rBits))
      else Ok (VFloat (SFdiv prec emax (float_of_Z lBits) (float_of_Z rBits)))
    else
      let l := i64 lBits in
      let r := i64 rBits in
      if Z.rem l r =? 0 then Ok (signedResult (u64 (Z.quot l r)))
      else Ok (VFloat (SFdiv prec emax (float_of_Z l) (float_of_Z r)))
  else if String.eqb op "mod" then
    if rBits =? 0 then Err (newComputeError ErrDivisionByZero "Division by zero")
    else if unsignedHint then Ok (unsignedResult (lBits mod rBits))
    else Ok (signedResult (u64 (Z.rem (i64 lBits) (i64 rBits))))
  else Err (newComputeError ErrInvalidExpression ("Unknown arithmetic op: " +:+ op)).

Definition not_numeric (v : Value) : ComputeError :=
  newComputeError ErrTypeMismatch (Sprintf "Arithmetic requires numeric operands, got %T" [v]).

Definition applyArithmeticWithIntent (op : string) (left right : Value) (unsignedHint : bool) : res ComputeError Value :=
  match toFloat64 left, toFloat64 right with
  | None, _ => Err (not_numeric left)
  | _, None => Err (not_numeric right)
  | Some lf, Some rf =>
      match bits64 left, bits64 right with
      | Some lBits, Some rBits => integer_arithmetic op lBits rBits unsignedHint
      | _, _ =>
          if String.eqb op "mod" then Err (newComputeError ErrTypeMismatch "Modulo requires integer operands")
          else float_arithmetic op lf rf
      end
  end.

(** ** Comparison *)

Definition sameTypeClass (a b : Value) : bool :=
  match toFloat64 a, toFloat64 b with
  | Some _, Some _ => true
  | _, _ =>
      match a, b with
      | VString _, VString _ | VBool _, VBool _ | VEntity _, VEntity _ => true
      | _, _ => false
      end
  end.

(** Two strings or booleans are equal when they print alike. *)
Definition compareEqual (a b : Value) : bool :=
  if negb (sameTypeClass a b) then false
  else match a, b with
  | VEntity x, VEntity y => bool_decide (ContentHash x = ContentHash y)
  | _, _ =>
      match toFloat64 a, toFloat64 b with
      | Some af, Some bf => SFeqb af bf
      | _, _ =>
          match a, b with
          | VString x, VString y => String.eqb x y
          | VBool x, VBool y => Bool.eqb x y
          | _, _ => false
          end
      end
  end.

(** One of the four orders, from a strict and a weak one. *)
Definition by_order {A} (op : string) (lt le : A -> A -> bool) (l r : A) : bool :=
  if String.eqb op "lt" then lt l r
  else if String.eqb op "gt" then lt r l
  else if String.eqb op "lte" then le l r
  else le r l.

Definition compareOrdered (op : string) (left right : Value) (unsignedHint : bool) : res ComputeError bool :=
  match bits64 left, bits64 right with
  | Some lb, Some rb =>
      Ok (if unsignedHint then by_order op Z.ltb Z.leb lb rb else by_order op Z.ltb Z.leb (i64 lb) (i64 rb))
  | _, _ =>
      match toFloat64 left, toFloat64 right with
      | Some lf, Some rf => Ok (by_order op SFltb SFleb lf rf)
      | _, _ =>
          match left, right with
          | VString ls, VString rs => Ok (by_order op String.ltb String.leb ls rs)
          | _, _ =>
              Err (newComputeError ErrTypeMismatch (Sprintf "Cannot compare %T and %T with %s" [left; right; VString op]))
          end
      end
  end.

Definition ordered_ops : list string := ["lt"; "gt"; "lte"; "gte"].

Definition applyCompareWithIntent (op : string) (left right : Value) (unsignedHint : bool) : res ComputeError Value :=
  if String.eqb op "eq" then Ok (VBool (compareEqual left right))
  else if String.eqb op "neq" then Ok (VBool (negb (compareEqual left right)))
  else if bool_decide (op ∈ ordered_ops) then let! b := compareOrdered op left right unsignedHint in Ok (VBool b)
  else Err (newComputeError ErrInvalidExpression ("Unknown compare op: " +:+ op)).

(** ** Casts *)

Definition cast_float (f : spec_float) (lo hi : Z) (ToType : string) : res ComputeError Z :=
  match float_trunc f with
  | None => Err (newComputeError ErrCastOutOfRange ("cannot cast NaN or ±Inf to " +:+ ToType))
  | Some t =>
      if (t <? lo) || (hi <=? t)
      then Err (newComputeError ErrCastOutOfRange (Sprintf ("float %v out of range for " +:+ ToType) [VFloat f]))
      else Ok t
  end.

Definition not_a_number (v : Value) : ComputeError :=
  newComputeError ErrTypeMismatch (Sprintf "compute/numeric-cast value must be numeric, got %T" [v]).

Definition numeric_cast (ToType : string) (val : Value) : res ComputeError Value :=
  if String.eqb ToType "primitive/int" then
    match val with
    | VInt n => Ok (VInt n)
    | VUint n => Ok (VInt (i64 n))
    | VFloat f => let! t := cast_float f (- 2 ^ 63) (2 ^ 63) ToType in Ok (VInt t)
    | _ => Err (not_a_number val)
    end
  else if String.eqb ToType "primitive/uint" then
    match val with
    | VInt n => Ok (VUint (u64 n))
    | VUint n => Ok (VUint n)
    | VFloat f => let! t := cast_float f 0 (2 ^ 64) ToType in Ok (VUint t)
    | _ => Err (not_a_number val)
    end
  else if String.eqb ToType "primitive/float" then
    match toFloat64 val with Some f => Ok (VFloat f) | None => Err (not_a_number val) end
  else
    Err (newComputeError ErrTypeMismatch
           ("compute/numeric-cast to_type must be primitive/int, primitive/uint, or primitive/float; got " +:+ ToType)).

(** ** Elements *)

Definition index_array (arr : list Value) (idxVal : Value) : res ComputeError nat :=
  match asIndex idxVal with
  | None => Err (newComputeError ErrTypeMismatch (Sprintf "compute/index requires an integer index, got %T" [idxVal]))
  | Some None =>
      Err (newComputeError ErrIndexOutOfRange (Sprintf "index %s out of range for array of length %d" [idxVal; VInt (Z.of_nat (length arr))]))
  | Some (Some idx) =>
      if (idx <? 0) || (Z.of_nat (length arr) <=? idx)
      then Err (newComputeError ErrIndexOutOfRange (Sprintf "index %s out of range for array of length %d" [idxVal; VInt (Z.of_nat (length arr))]))
      else Ok (Z.to_nat idx)
  end.
End arithmetic.

(** [toStringMap]: the entries with string keys. *)
Definition toStringMap (v : Value) : option (list (string * Value)) :=
  match v with
  | VMap l => Some (omap (fun kv => match fst kv with VString k => Some (k, snd kv) | _ => None end) l)
  | _ => None
  end.

Fixpoint field_of (fields : list (string * Value)) (name : string) : option Value :=
  match fields with
  | [] => None
  | (k, v) :: fields => if String.eqb k name then Some v else field_of fields name
  end.

(** The class of an element for [concat]. *)
Definition elementTypeTag (v : Value) : string :=
  match v with
  | VNil => "null"
  | VBool _ => "bool"
  | VInt _ | VUint _ => "integer"
  | VFloat _ => "float"
  | VString _ => "string"
  | VBytes _ => "bytes"
  | VArray _ => "array"
  | VEntity e => "entity:" +:+ Type_ e
  | VMap _ => "map[interface {}]interface {}"
  | VHash _ => "hash.Hash"
  | VConstructed _ _ => "*compute.constructedValue"
  | VResource _ => "*types.ResourceTarget"
  | VOther t _ => t
  end.

(** ** What the integer operations compute *)

(** The values of integer type are in the range of the type. *)
Definition in_range (v : Value) : Prop :=
  match v with
  | VInt n => - 2 ^ 63 <= n < 2 ^ 63
  | VUint n => 0 <= n < 2 ^ 64
  | _ => True
  end.

(** The number that a pattern stands for when it is read as signed. *)
Definition signed_of (v : Value) : option Z := i64 <$> bits64 v.

Lemma i64_range z : - 2 ^ 63 <= i64 z < 2 ^ 63.
Proof.
  unfold i64, u64, two64. pose proof (Z.mod_pos_bound z (2 ^ 64) ltac:(lia)).
  destruct (Z.ltb_spec (z mod 2 ^ 64) (2 ^ 63)); lia.
Qed.

Lemma u64_range z : 0 <= u64 z < 2 ^ 64.
Proof. unfold u64, two64. apply Z.mod_pos_bound. lia. Qed.

Lemma u64_i64 z : u64 (i64 z) = u64 z.
Proof.
  unfold i64, u64, two64. destruct (Z.ltb_spec (z mod 2 ^ 64) (2 ^ 63)).
  - apply Z.mod_mod. lia.
  - replace (z mod 2 ^ 64 - 2 ^ 64) with (z mod 2 ^ 64 + -1 * 2 ^ 64) by lia. rewrite Z.mod_add by lia. apply Z.mod_mod. lia.
Qed.

Lemma u64_u64 z : u64 (u64 z) = u64 z.
Proof. unfold u64, two64. apply Z.mod_mod. lia. Qed.

(** Two integers with the same residue wrap to the same [int64]. *)
Lemma i64_proper x y : u64 x = u64 y -> i64 x = i64 y.
Proof. unfold i64. by intros ->. Qed.

Lemma i64_u64 z : i64 (u64 z) = i64 z.
Proof. apply i64_proper, u64_u64. Qed.

Lemma u64_op (f : Z -> Z -> Z) x y :
  (forall a b, f a b mod 2 ^ 64 = f (a mod 2 ^ 64) (b mod 2 ^ 64) mod 2 ^ 64) ->
  u64 (f (i64 x) (i64 y)) = u64 (f x y).
Proof.
  intros Hf. unfold u64, two64. rewrite (Hf (i64 x)), (Hf x).
  pose proof (u64_i64 x) as Hx. pose proof (u64_i64 y) as Hy. unfold u64, two64 in Hx, Hy. by rewrite Hx, Hy.
Qed.

Lemma bits_numeric v b : bits64 v = Some b -> is_Some (toFloat64 v).
Proof. destruct v; try done; by eexists. Qed.

Lemma integer_case `{Fmt} op l r lb rb hint :
  bits64 l = Some lb -> bits64 r = Some rb ->
  applyArithmeticWithIntent op l r hint = integer_arithmetic op lb rb hint.
Proof.
  intros Hl Hr. unfold applyArithmeticWithIntent. rewrite Hl, Hr.
  destruct (bits_numeric _ _ Hl) as [? ->], (bits_numeric _ _ Hr) as [? ->]. done.
Qed.

Lemma signed_zero b : 0 <= b < 2 ^ 64 -> (b =? 0) = (i64 b =? 0).
Proof.
  intros Hb. unfold i64, u64, two64. rewrite Z.mod_small by lia.
  destruct (Z.ltb_spec b (2 ^ 63)); [done|]. destruct (Z.eqb_spec b 0), (Z.eqb_spec (b - 2 ^ 64) 0); lia || done.
Qed.

Lemma bits_range v b : in_range v -> bits64 v = Some b -> 0 <= b < 2 ^ 64.
Proof. destruct v; try done; cbn; intros Hr [= <-]; [apply u64_range|lia]. Qed.

Lemma rem_range x y : - 2 ^ 63 <= x < 2 ^ 63 -> y <> 0 -> - 2 ^ 63 <= Z.rem x y < 2 ^ 63.
Proof.
  intros Hx Hy. destruct (Z.le_gt_cases 0 x) as [Hp|Hn].
  - pose proof (Z.rem_nonneg x y Hy Hp). pose proof (Z.rem_le x (Z.abs y) Hp ltac:(lia)).
    destruct (Z.abs_eq_or_opp y) as [He|He]; rewrite He in *; [lia|]. rewrite Z.rem_opp_r in * by done. lia.
  - pose proof (Z.rem_nonpos x y Hy ltac:(lia)).
    assert (Z.rem (- x) y <= - x).
    { destruct (Z.abs_eq_or_opp y) as [He|He]; pose proof (Z.rem_le (- x) (Z.abs y) ltac:(lia) ltac:(lia)); rewrite He in *; [lia|].
      rewrite Z.rem_opp_r in * by done. lia. }
    rewrite Z.rem_opp_l in * by done. lia.
Qed.

(** Integer arithmetic of expressions is total and never leaves 64 bits.
    Addition, subtraction and multiplication are those of the integers modulo
    2^64, whatever signedness the operands carry; without a cast, division and
    remainder are the truncated ones of the signed readings, a quotient that is
    not exact is a float, and a zero divisor is the one error. *)
Theorem integer_arithmetic_spec `{Fmt} l r x y :
  in_range l -> in_range r -> signed_of l = Some x -> signed_of r = Some y ->
  (forall hint,
     applyArithmeticWithIntent "add" l r hint = Ok (VInt (i64 (x + y)))
     /\ applyArithmeticWithIntent "sub" l r hint = Ok (VInt (i64 (x - y)))
     /\ applyArithmeticWithIntent "mul" l r hint = Ok (VInt (i64 (x * y))))
  /\ applyArithmeticWithIntent "mod" l r false
     = (if y =? 0 then Err (newComputeError ErrDivisionByZero "Division by zero") else Ok (VInt (Z.rem x y)))
  /\ (if y =? 0 then applyArithmeticWithIntent "div" l r false = Err (newComputeError ErrDivisionByZero "Division by zero")
      else if Z.rem x y =? 0 then applyArithmeticWithIntent "div" l r false = Ok (VInt (i64 (Z.quot x y)))
      else exists f, applyArithmeticWithIntent "div" l r false = Ok (VFloat f))
  /\ forall op hint v, applyArithmeticWithIntent op l r hint = Ok v -> in_range v.
Proof.
  unfold signed_of. intros Rl Rr Hl Hr.
  apply fmap_Some in Hl as (lb & Hl & ->). apply fmap_Some in Hr as (rb & Hr & ->).
  pose proof (bits_range _ _ Rl Hl) as Bl. pose proof (bits_range _ _ Rr Hr) as Br.
  pose proof (fun op hint => integer_case op l r lb rb hint Hl Hr) as He. split_and!.
  - intros hint. rewrite !He. unfold integer_arithmetic, signedResult. cbn. rewrite !i64_u64.
    split_and!; do 2 f_equal; apply i64_proper; symmetry; apply u64_op; intros;
      [apply Z.add_mod|apply Zminus_mod|apply Z.mul_mod]; lia.
  - rewrite He. unfold integer_arithmetic, signedResult. cbn. rewrite (signed_zero rb) by done. destruct (Z.eqb_spec (i64 rb) 0) as [|Hy]; [done|].
    rewrite i64_u64, i64_small; [done|]. by apply rem_range; [apply i64_range|].
  - rewrite He. unfold integer_arithmetic, signedResult. cbn. rewrite (signed_zero rb) by done. destruct (i64 rb =? 0); [done|].
    destruct (_ =? 0); [by rewrite i64_u64|by eexists].
  - intros op hint v. rewrite He. unfold integer_arithmetic, signedResult, unsignedResult.
    assert (Hd : rb <> 0 -> 0 <= lb / rb < 2 ^ 64).
    { intros Hz. split; [apply Z.div_pos; lia|]. apply Z.div_lt_upper_bound; nia. }
    assert (Hm : rb <> 0 -> 0 <= lb mod rb < 2 ^ 64) by (intros Hz; pose proof (Z.mod_pos_bound lb rb ltac:(lia)); lia).
    repeat case_match; intros [= <-]; cbn [in_range]; try apply i64_range; try done;
      match goal with H : (rb =? 0) = false |- _ => apply Z.eqb_neq in H; auto end.
Qed.
