(* ===== verification/ComputeEval.v ===== *)
(** * The expression evaluator ([ext/compute])

    [eval.go], [eval_arith.go], [eval_construct.go], [eval_apply.go], [scope.go],
    [errors.go] and the builtins of [builtins.go] and [builtins_v324.go].  An
    evaluation threads a world: the stores, the budget, the paths registered as
    dependencies and the requests dispatched so far.  [Evaluate] is a trampoline
    on a budget; the operator name of a builtin alias is evaluated on a budget of
    its own, so the evaluator is written over the evaluation of these names and
    then tied to itself.  The store and the index of the context are never nil
    here.  The order in which a scope is visited is a parameter; the fields of a
    constructed value are visited in the order they were evaluated in, where Go
    takes any. *)

From S2P Require Import Prelude GoStrings Errors Hash Entity PeerID Paths CapTypes Patterns Check Delegation Revoked Store Notifying Handlers TreeIndex Trie ComputeValues.

Open Scope Z_scope.

(** ** Data *)

Definition TypeComputeLiteral : string := "compute/literal".
Definition TypeComputeLookupScope : string := "compute/lookup/scope".
Definition TypeComputeLookupTree : string := "compute/lookup/tree".
Definition TypeComputeLookupHash : string := "compute/lookup/hash".
Definition TypeComputeApply : string := "compute/apply".
Definition TypeComputeIf : string := "compute/if".
Definition TypeComputeLet : string := "compute/let".
Definition TypeComputeLambda : string := "compute/lambda".
Definition TypeComputeArithmetic : string := "compute/arithmetic".
Definition TypeComputeCompare : string := "compute/compare".
Definition TypeComputeLogic : string := "compute/logic".
Definition TypeComputeField : string := "compute/field".
Definition TypeComputeConstruct : string := "compute/construct".
Definition TypeComputeIndex : string := "compute/index".
Definition TypeComputeLength : string := "compute/length".
Definition TypeComputeNumericCast : string := "compute/numeric-cast".
Definition TypeComputeClosure : string := "compute/closure".
Definition TypeComputeScope : string := "compute/scope".
Definition TypeComputeResult : string := "compute/result".
Definition TypeComputeError : string := "compute/error".
Definition TypeComputeGroup : string := "system/compute/group".

Record ComputeApplyData := {
  ap_Path : string; ap_Operation : string; ap_Resource : Hash; ap_Fn : Hash; ap_Args : gmap string Hash; ap_Capability : Hash }.
Record ComputeIfData := { if_Condition : Hash; if_Then : Hash; if_Else : option Hash }.
Record ComputeLetBinding := { lb_Name : string; lb_Value : Hash }.
Record ComputeLetData := { let_Bindings : list ComputeLetBinding; let_Body : Hash }.
Record ComputeLambdaData := { la_Params : list string; la_Body : Hash }.
(** [ComputeArithmeticData] and [ComputeCompareData]. *)
Record ComputeBinaryData := { bi_Op : string; bi_Left : Hash; bi_Right : Hash }.
Record ComputeLogicData := { lo_Op : string; lo_Left : Hash; lo_Right : option Hash }.
Record ComputeFieldData := { fi_Name : string; fi_Entity : Hash }.
Record ComputeConstructData := { co_EntityType : string; co_Fields : gmap string Hash }.
Record ComputeIndexData := { in_Array : Hash; in_Index : Hash }.
Record ComputeNumericCastData := { ca_Value : Hash; ca_ToType : string }.
Record ComputeClosureData := { cl_Params : list string; cl_Body : Hash; cl_Env : option Hash }.
Record ComputeScopeBinding := { sb_Kind : string; sb_EntityHash : option Hash; sb_Value : Value }.
Record ComputeLookupTreeData := { lt_Path : string; lt_Relative : bool }.

(** The encoders and decoders of these payloads. *)
Class ComputeCodec := {
  DecodeLiteral : list byte -> option Value;
  DecodeLookupScope : list byte -> option string;
  DecodeLookupTree : list byte -> option ComputeLookupTreeData;
  DecodeLookupHash : list byte -> option Hash;
  DecodeApply : list byte -> option ComputeApplyData;
  DecodeIf : list byte -> option ComputeIfData;
  DecodeLet : list byte -> option ComputeLetData;
  DecodeLambda : list byte -> option ComputeLambdaData;
  DecodeArithmetic : list byte -> option ComputeBinaryData;
  DecodeCompare : list byte -> option ComputeBinaryData;
  DecodeLogic : list byte -> option ComputeLogicData;
  DecodeField : list byte -> option ComputeFieldData;
  DecodeConstruct : list byte -> option ComputeConstructData;
  DecodeIndex : list byte -> option ComputeIndexData;
  DecodeLength : list byte -> option Hash;
  DecodeNumericCast : list byte -> option ComputeNumericCastData;
  DecodeClosure : list byte -> option ComputeClosureData;
  DecodeScope : list byte -> option (list (string * ComputeScopeBinding));
  DecodeComputeError : list byte -> option ComputeError;
  (** [ecf.Decode] into [map[string]interface{}] and into [interface{}]. *)
  DecodeValueMap : list byte -> option (list (string * Value));
  DecodeAny : list byte -> option Value;
  (** The declared type of each field of a type definition. *)
  DecodeTypeFields : list byte -> option (list (string * string));
  (** The input and the output type of each operation of an interface. *)
  DecodeInterface : list byte -> option (list (string * (string * string)));
  DecodeResourceTarget : list byte -> option ResourceTarget;
  EncodeArithmetic : ComputeBinaryData -> option (list byte);
  EncodeCompare : ComputeBinaryData -> option (list byte);
  EncodeLogic : ComputeLogicData -> option (list byte);
  EncodeField : ComputeFieldData -> option (list byte);
  EncodeConstruct : ComputeConstructData -> option (list byte);
  EncodeClosure : ComputeClosureData -> option (list byte);
  EncodeScope : gmap string ComputeScopeBinding -> option (list byte);
  EncodeComputeResult : Value -> Hash -> option (list byte);
  EncodeComputeError : ComputeError -> option (list byte);
  (** The payload of a materialized error, its code alone. *)
  EncodeErrorCode : string -> option (list byte);
  EncodeAny : Value -> option (list byte);
  EncodeValueMap : list (string * Value) -> option (list byte);
  EncodeEntityBytes : Entity -> option (list byte);
  EncodePutEntity : list byte -> option (list byte)
}.

(** The order in which [range] visits a scope. *)
Class ScopeOrder := {
  scope_range : gmap string Value -> list (string * Value);
  scope_range_perm m : scope_range m ≡ₚ map_to_list m
}.

Definition Scope : Type := gmap string Value.

(** The other errors of Go: a payload that does not decode or encode, a refused
    put, a failed dispatch, and an error that reached [materialize]. *)
Inductive Fault := Decoding | Encoding | Storing | Dispatching | ErrorMaterialized.

Inductive EvalError :=
| Compute (e : ComputeError)
| Faulted (f : Fault).

Inductive Outcome (A : Type) :=
| Ret (a : A)
| Raise (e : EvalError)
| Diverge.
Arguments Ret {A} a.
Arguments Raise {A} e.
Arguments Diverge {A}.

(** The result of an inner evaluation: a value, or the expression to go on with. *)
Inductive Step :=
| Done (v : Value)
| tailCall (e : Entity) (s : Scope).

Record EvalContext := {
  ec_LocalPeerID : PeerID; ec_Capability : Entity; ec_Included : gmap Hash Entity; ec_HasContentStoreAccess : bool;
  ec_AuthorizedDataHashes : gset Hash; ec_SubgraphRoot : string }.

(** ** Types of expressions *)

Definition expression_types : list string :=
  [TypeComputeLiteral; TypeComputeLookupScope; TypeComputeLookupTree; TypeComputeLookupHash; TypeComputeApply; TypeComputeIf;
   TypeComputeLet; TypeComputeLambda; TypeComputeArithmetic; TypeComputeCompare; TypeComputeLogic; TypeComputeField;
   TypeComputeConstruct; TypeComputeIndex; TypeComputeLength; TypeComputeNumericCast].
Definition value_types : list string := [TypeComputeClosure; TypeComputeScope; TypeComputeResult; TypeComputeError].

Definition IsComputeExpression (ent : Entity) : bool := bool_decide (Type_ ent ∈ expression_types).
Definition isComputeType (ent : Entity) : bool :=
  bool_decide (Type_ ent ∈ expression_types ++ value_types
    ++ ["system/compute/subgraph"; "system/compute/install-request"; "system/compute/install-result"]).

(** ** Canonical order of a map *)

Definition canonical_le (a b : string * Hash) : Prop :=
  (slen (fst a) < slen (fst b))%nat \/ (slen (fst a) = slen (fst b) /\ String.leb (fst a) (fst b) = true).
#[export] Instance canonical_le_dec a b : Decision (canonical_le a b).
Proof. unfold canonical_le. apply _. Defined.

Definition canonicalSorted (m : gmap string Hash) : list (string * Hash) := merge_sort canonical_le (map_to_list m).

(** ** Builtins *)

Definition builtinPrefix : string := "system/compute/builtins/".
Definition IsBuiltinPath (path : string) : bool := HasPrefix path builtinPrefix.

(** The codes that abort a [map] or a [fold]. *)
Definition isShortCircuitLimitCode (code : string) : bool :=
  bool_decide (code ∈ [ErrBudgetExhausted; ErrCascadeLimit]).

Section eval.
Context {CS L IX : Type} `{ContentStoreLaws CS} `{LocationIndex L} `{CapabilityIndex IX} `{Base58, DataCodec, NodeCodec, ComputeCodec, Fmt}.
Context {order : ScopeOrder}.
Abbreviation State := (TreeState CS L IX).

(** A read and a request that was dispatched, with the stores at that moment. *)
Record Dependency := { d_state : State; d_path : string }.
Record Call := { c_state : State; c_path : string; c_op : string; c_resource : option ResourceTarget; c_override : option Entity }.

Record World := { w_state : State; w_Operations : Z; w_Depth : Z; w_deps : list Dependency; w_calls : list Call }.

Definition Eval (A : Type) : Type := World -> World * Outcome A.

Definition ret {A} (a : A) : Eval A := fun w => (w, Ret a).
Definition raise {A} (e : ComputeError) : Eval A := fun w => (w, Raise (Compute e)).
Definition fail {A} (f : Fault) : Eval A := fun w => (w, Raise (Faulted f)).
Definition diverge {A} : Eval A := fun w => (w, Diverge).
Definition bind_eval {A B} (m : Eval A) (k : A -> Eval B) : Eval B := fun w =>
  match m w with
  | (w, Ret a) => k a w
  | (w, Raise e) => (w, Raise e)
  | (w, Diverge) => (w, Diverge)
  end.
Notation "'let*' x ':=' c 'in' k" := (bind_eval c (fun x => k)) (at level 10, x pattern, c at level 100, k at level 200).

(** Errors as values: [Go]'s [(v, err)] in the hands of the caller. *)
Definition try_eval {A} (m : Eval A) : Eval (res EvalError A) := fun w =>
  match m w with
  | (w, Ret a) => (w, Ret (Ok a))
  | (w, Raise e) => (w, Ret (Err e))
  | (w, Diverge) => (w, Diverge)
  end.
Definition of_try {A} (r : res EvalError A) : Eval A := fun w => (w, match r with Ok a => Ret a | Err e => Raise e end).

Definition of_res {A} (r : res ComputeError A) : Eval A := match r with Ok a => ret a | Err e => raise e end.
Definition decode {A} (o : option A) : Eval A := match o with Some a => ret a | None => fail Decoding end.
Definition read {A} (f : State -> A) : Eval A := fun w => (w, Ret (f (w_state w))).

Definition with_state (w : World) (st : State) : World :=
  {| w_state := st; w_Operations := w_Operations w; w_Depth := w_Depth w; w_deps := w_deps w; w_calls := w_calls w |}.
Definition with_budget (w : World) (ops depth : Z) : World :=
  {| w_state := w_state w; w_Operations := ops; w_Depth := depth; w_deps := w_deps w; w_calls := w_calls w |}.

Definition put (e : Entity) : Eval unit := fun w =>
  let '(cs, r) := cs_Put (ts_Store (w_state w)) e in
  (with_state w (with_store (w_state w) cs), match r with Ok _ => Ret tt | Err _ => Raise (Faulted Storing) end).

Definition registerDep (path : string) : Eval unit := fun w =>
  ({| w_state := w_state w; w_Operations := w_Operations w; w_Depth := w_Depth w; 
     w_deps := w_deps w ++ [{| d_state := w_state w; d_path := path |}]; w_calls := w_calls w |}, Ret tt).

(** An entity of a type and its encoded payload. *)
Definition make_entity (ty : string) (raw : option (list byte)) : Eval Entity :=
  match raw with
  | None => fail Encoding
  | Some d => match Ent.NewEntity node_format ty d with Ok e => ret e | Err _ => fail Encoding end
  end.

Definition error_entity (e : ComputeError) : Eval Entity := make_entity TypeComputeError (EncodeComputeError e).
Definition materialized_error (e : ComputeError) : Eval Entity := make_entity TypeComputeError (EncodeErrorCode (ce_Code e)).

(** The error that a value is, if it is one. *)
Definition computeErrorFromValue (v : Value) : option ComputeError :=
  match v with
  | VEntity ent =>
      if negb (String.eqb (Type_ ent) TypeComputeError) then None
      else Some (match DecodeComputeError (Data ent) with
                 | None => newComputeError ErrInvalidExpression (Sprintf "malformed compute/error value: %v" [])
                 | Some e => e
                 end)
  | _ => None
  end.

(** An entity is referred to by its hash. *)
Definition by_reference (v : Value) : Value := match v with VEntity e => VHash (ContentHash e) | _ => v end.

Fixpoint materialize (v : Value) : Eval Value :=
  match v with
  | VConstructed entityType fields =>
      let* data := (fix each (fields : list (string * Value)) : Eval (list (string * Value)) :=
                      match fields with
                      | [] => ret []
                      | (k, fv) :: fields =>
                          let* mv := materialize fv in
                          let* rest := each fields in
                          ret ((k, by_reference mv) :: rest)
                      end) fields in
      let* ent := make_entity entityType (EncodeValueMap data) in
      let* _ := put ent in
      ret (VEntity ent)
  | VArray l =>
      let* out := (fix each (l : list Value) : Eval (list Value) :=
                     match l with
                     | [] => ret []
                     | e :: l =>
                         let* me := match computeErrorFromValue e with
                                    | Some ce => let* errEnt := materialized_error ce in let* _ := put errEnt in ret (VEntity errEnt)
                                    | None => materialize e
                                    end in
                         let* rest := each l in
                         ret (by_reference me :: rest)
                     end) l in
      ret (VArray out)
  | VEntity e => if String.eqb (Type_ e) TypeComputeError then fail ErrorMaterialized else ret v
  | _ => ret v
  end.

(** ** Scopes *)

Definition ScopeBindingKindEntity : string := "entity".
Definition ScopeBindingKindValue : string := "value".

Definition buildScopeBinding (v : Value) : Eval ComputeScopeBinding :=
  let* v := match v with VConstructed _ _ => materialize v | _ => ret v end in
  match v with
  | VEntity ev =>
      let* _ := put ev in
      ret {| sb_Kind := ScopeBindingKindEntity; sb_EntityHash := Some (ContentHash ev); sb_Value := VNil |}
  | _ => ret {| sb_Kind := ScopeBindingKindValue; sb_EntityHash := None; sb_Value := v |}
  end.

Fixpoint capture_bindings (l : list (string * Value)) : Eval (gmap string ComputeScopeBinding) :=
  match l with
  | [] => ret ∅
  | (name, v) :: l =>
      let* b := buildScopeBinding v in
      let* rest := capture_bindings l in
      ret (<[name := b]> rest)
  end.

(** [None] is the empty entity of an empty scope. *)
Definition CaptureScope (scope : Scope) : Eval (option Entity) :=
  if decide (scope = ∅) then ret None
  else
    let* bindings := capture_bindings (scope_range scope) in
    let* ent := make_entity TypeComputeScope (EncodeScope bindings) in
    let* _ := put ent in
    ret (Some ent).

Definition resolveScopeBinding (name : string) (b : ComputeScopeBinding) : Eval Value :=
  if String.eqb (sb_Kind b) ScopeBindingKindEntity then
    match sb_EntityHash b with
    | None => raise (newComputeError ErrInvalidExpression ("scope binding " +:+ name +:+ ": kind=entity missing entity_hash"))
    | Some h =>
        let* found := read (fun st => cs_Get (ts_Store st) h) in
        match found with
        | None => raise (newComputeError ErrScopeUnreachable (Sprintf ("scope binding " +:+ name +:+ ": entity %s not resolvable") [VHash h]))
        | Some ent => ret (VEntity ent)
        end
    end
  else if String.eqb (sb_Kind b) ScopeBindingKindValue then ret (sb_Value b)
  else raise (newComputeError ErrInvalidExpression ("scope binding " +:+ name +:+ ": unknown kind " +:+ sb_Kind b)).

Fixpoint load_bindings (l : list (string * ComputeScopeBinding)) : Eval Scope :=
  match l with
  | [] => ret ∅
  | (name, b) :: l =>
      let* v := resolveScopeBinding name b in
      let* rest := load_bindings l in
      ret (<[name := v]> rest)
  end.

Definition LoadScope (envHash : Hash) : Eval Scope :=
  if IsZero envHash then ret ∅
  else
    let* found := read (fun st => cs_Get (ts_Store st) envHash) in
    match found with
    | None => raise (newComputeError ErrScopeUnreachable (Sprintf "scope entity not found: %s" [VHash envHash]))
    | Some ent => let* d := decode (DecodeScope (Data ent)) in load_bindings d
    end.

(** ** Resolution *)

Variables (now : Z) (ctx : EvalContext).
(** [DispatchExecute]: the status and the result, or an error; [None] when the
    context has no dispatch. *)
Variable Dispatch : option (State -> string -> string -> option ResourceTarget -> Entity -> option Entity -> State * option (Z * Entity)).

Definition validateComputeResolvable (ent : Entity) (h : Hash) : option Entity :=
  if ec_HasContentStoreAccess ctx then Some ent
  else if isComputeType ent then Some ent
  else if decide (h ∈ ec_AuthorizedDataHashes ctx) then Some ent
  else None.

Definition resolve (st : State) (h : Hash) : option Entity :=
  match ec_Included ctx !! h with
  | Some ent => validateComputeResolvable ent h
  | None => match cs_Get (ts_Store st) h with Some ent => validateComputeResolvable ent h | None => None end
  end.

Definition resolveOrError (h : Hash) (label : string) : Eval Entity :=
  let* found := read (fun st => resolve st h) in
  match found with
  | Some ent => ret ent
  | None => raise (newComputeError ErrNotFound (Sprintf ("Cannot resolve hash for " +:+ label +:+ ": %s") [VHash h]))
  end.

(** ** Permission *)

(** The capability of the evaluation permits the read of a path; [None] when it
    has none. *)
Definition read_refusal (st : State) (path : string) : option string :=
  if IsZero (ContentHash (ec_Capability ctx)) then None
  else match CapabilityTokenDataFromEntity (ec_Capability ctx) with
  | Err _ => Some (Sprintf "cannot decode evaluation capability: %v" [])
  | Ok capData =>
      match ResolveGranterPeerID (Granter_ capData) (entities (ts_Store st)) (ec_LocalPeerID ctx) with
      | Err _ => Some (Sprintf "granter unresolvable: %v" [])
      | Ok granterPeerID =>
          if CheckPathPermission now "get" path capData "system/tree" (ec_LocalPeerID ctx) granterPeerID then None
          else Some ("capability does not cover tree read: " +:+ path)
      end
  end.

Definition apply_request (targetOp : string) (resource : option ResourceTarget) : ExecuteData :=
  {| RequestID := ""; URI_ := ""; Operation := targetOp; Resource := resource; Params := []; Author := zero_hash; Capability := zero_hash |}.

(** One of the two checks of [dualCheck]. *)
Definition covers (st : State) (cap : Entity) (targetPath targetOp : string) (resource : option ResourceTarget) (name what : string)
  : res ComputeError unit :=
  match CapabilityTokenDataFromEntity cap with
  | Err _ => Err (newComputeError ErrPermissionDenied (Sprintf ("cannot decode " +:+ name +:+ ": %v") []))
  | Ok data =>
      match ResolveGranterPeerID (Granter_ data) (entities (ts_Store st)) (ec_LocalPeerID ctx) with
      | Err _ => Err (newComputeError ErrPermissionDenied (Sprintf "granter unresolvable: %v" []))
      | Ok granter =>
          if CheckPermission now (apply_request targetOp resource) data targetPath (ec_LocalPeerID ctx) granter then Ok tt
          else Err (newComputeError ErrPermissionDenied (what +:+ " does not cover target: " +:+ targetPath +:+ ":" +:+ targetOp))
      end
  end.

Definition dualCheck (st : State) (provided : Entity) (targetPath targetOp : string) (resource : option ResourceTarget) : res ComputeError unit :=
  let! _ := (if IsZero (ContentHash (ec_Capability ctx)) then Ok tt
             else covers st (ec_Capability ctx) targetPath targetOp resource "evaluation capability" "handler grant") in
  if IsZero (ContentHash provided)
  then Err (newComputeError ErrPermissionDenied "compute/apply capability field resolved to an empty capability")
  else covers st provided targetPath targetOp resource "provided capability" "provided capability".

(** The dispatch of a request, and what a failed one raises. *)
Definition dispatch (path op : string) (resource : option ResourceTarget) (params : Entity) (override : option Entity) : Eval (Z * Entity) :=
  match Dispatch with
  | None => raise (newComputeError ErrInvalidExpression "handler dispatch not available")
  | Some d => fun w =>
      let call := {| c_state := w_state w; c_path := path; c_op := op; c_resource := resource; c_override := override |} in
      let '(st, r) := d (w_state w) path op resource params override in
      ({| w_state := st; w_Operations := w_Operations w; w_Depth := w_Depth w; w_deps := w_deps w; w_calls := w_calls w ++ [call] |},
       match r with Some resp => Ret resp | None => Raise (Faulted Dispatching) end)
  end.

Definition response_value (code msg : string) (resp : Z * Entity) : Eval Entity :=
  let '(status, result) := resp in
  if 400 <=? status then
    match (if String.eqb (Type_ result) TypeComputeError then DecodeComputeError (Data result) else None) with
    | Some e => raise {| ce_Code := ce_Code e; ce_Message := ce_Message e; ce_At := ce_At e; ce_Expression := zero_hash |}
    | None => raise (newComputeError code (Sprintf msg [VUint status]))
    end
  else ret result.

(** ** Types of arguments *)

Definition resolveInputFieldTypes (st : State) (typeName : string) : option (list (string * string)) :=
  if String.eqb typeName "" || String.eqb typeName "primitive/any" then None
  else
    h ← Get (ts_Index st) ("system/type/" +:+ typeName);
    ent ← cs_Get (ts_Store st) h;
    if negb (String.eqb (Type_ ent) "system/type") then None
    else match DecodeTypeFields (Data ent) with Some (f :: fs) => Some (f :: fs) | _ => None end.

Definition interface_types (st : State) (path operation : string) : option (string * string) :=
  h ← Get (ts_Index st) ("system/handler/" +:+ path);
  ent ← cs_Get (ts_Store st) h;
  ops ← DecodeInterface (Data ent);
  snd <$> (snd <$> list_find (fun o => fst o = operation) ops).

(** The zero value is the empty string. *)
Definition resolveHandlerInputType (st : State) (path operation : string) : string :=
  match interface_types st path operation with Some (i, _) => i | None => "" end.

Definition encodeArgForField (name : string) (value : Value) (fieldTypes : option (list (string * string))) : Eval Value :=
  match fieldTypes ≫= fun l => snd <$> (snd <$> list_find (fun f => fst f = name) l) with
  | None => ret value
  | Some fieldType =>
      if negb (String.eqb fieldType "system/hash") then ret value
      else match value with
      | VEntity ent =>
          let* r := try_eval (put ent) in
          match r with
          | Ok _ => ret (VHash (ContentHash ent))
          | Err _ => raise (newComputeError ErrInvalidExpression (Sprintf ("arg " +:+ name +:+ ": store failed: %v") []))
          end
      | _ => raise (newComputeError ErrTypeMismatch (Sprintf ("arg " +:+ name +:+ " expects system/hash (entity), got %T") [value]))
      end
  end.

(** A value that names a resource; [Ok None] is a nil pointer. *)
Definition coerceResourceTarget (value : Value) : res ComputeError (option ResourceTarget) :=
  match value with
  | VNil => Err (newComputeError ErrInvalidExpression "compute/apply resource field resolved to nil")
  | VResource r => Ok r
  | VEntity v =>
      if negb (String.eqb (Type_ v) "system/protocol/resource-target")
      then Err (newComputeError ErrTypeMismatch ("compute/apply resource entity must be system/protocol/resource-target, got " +:+ Type_ v))
      else match DecodeResourceTarget (Data v) with
      | None => Err (newComputeError ErrInvalidExpression (Sprintf "cannot decode resource-target entity: %v" []))
      | Some rt => Ok (Some rt)
      end
  | _ =>
      match EncodeAny value with
      | None => Err (newComputeError ErrInvalidExpression "compute/apply resource field has unsupported value type")
      | Some raw =>
      match DecodeResourceTarget raw with
      | None => Err (newComputeError ErrInvalidExpression (Sprintf "compute/apply resource field must yield a resource-target struct: %v" []))
      | Some rt =>
          match Targets rt with
          | [] => Err (newComputeError ErrInvalidExpression "compute/apply resource-target must have at least one target")
          | _ => Ok (Some rt)
          end
      end
      end
  end.

(** ** Expressions *)

Section inner.
(** [Evaluate], and the evaluation of an operator name on its own budget. *)
Variables (Evaluate : Entity -> Scope -> Eval Value) (EvaluateName : Entity -> Scope -> Eval Value).
Implicit Types (scope : Scope) (ent : Entity) (args : gmap string Hash).

Definition evalOperand ent scope : Eval Value :=
  let* v := Evaluate ent scope in
  match computeErrorFromValue v with Some ce => raise ce | None => ret v end.

(** The operand behind a hash. *)
Definition operand (h : Hash) (label : string) scope : Eval Value :=
  let* target := resolveOrError h label in evalOperand target scope.

Definition evalLiteral ent : Eval Step := let* v := decode (DecodeLiteral (Data ent)) in ret (Done v).

Definition evalLookupScope ent scope : Eval Step :=
  let* name := decode (DecodeLookupScope (Data ent)) in
  match scope !! name with
  | Some v => ret (Done v)
  | None => raise (newComputeError ErrNotFound ("No scope binding: " +:+ name))
  end.

Definition lookup_path (d : ComputeLookupTreeData) : string :=
  if lt_Relative d && negb (String.eqb (ec_SubgraphRoot ctx) "") then CleanPath (ec_SubgraphRoot ctx +:+ "/" +:+ lt_Path d)
  else if negb (HasPrefix (lt_Path d) "/") && negb (String.eqb (ec_LocalPeerID ctx) "") then QualifyPath (ec_LocalPeerID ctx) (lt_Path d)
  else lt_Path d.

Definition evalLookupTree ent scope : Eval Step :=
  let* d := decode (DecodeLookupTree (Data ent)) in
  let path := lookup_path d in
  let* refusal := read (fun st => read_refusal st path) in
  match refusal with
  | Some message => raise (newComputeError ErrPermissionDenied message)
  | None =>
      let* _ := registerDep path in
      let* found := read (fun st => h ← Get (ts_Index st) path; cs_Get (ts_Store st) h) in
      match found with
      | None => raise (newComputeError ErrNotFound ("No entity at path: " +:+ path))
      | Some treeEnt => ret (if IsComputeExpression treeEnt then tailCall treeEnt scope else Done (VEntity treeEnt))
      end
  end.

Definition evalLookupHash ent scope : Eval Step :=
  let* h := decode (DecodeLookupHash (Data ent)) in
  let* target := resolveOrError h "hash lookup" in
  ret (if IsComputeExpression target then tailCall target scope else Done (VEntity target)).

Definition evalIf ent scope : Eval Step :=
  let* d := decode (DecodeIf (Data ent)) in
  let* condition := operand (if_Condition d) "if condition" scope in
  if truthy condition then
    let* thenTarget := resolveOrError (if_Then d) "if then" in ret (tailCall thenTarget scope)
  else match if_Else d with
  | Some e => let* elseTarget := resolveOrError e "if else" in ret (tailCall elseTarget scope)
  | None => ret (Done VNil)
  end.

Fixpoint let_bindings (bs : list ComputeLetBinding) (newScope : Scope) : Eval Scope :=
  match bs with
  | [] => ret newScope
  | b :: bs =>
      let* valueTarget := resolveOrError (lb_Value b) ("let binding " +:+ lb_Name b) in
      let* value := Evaluate valueTarget newScope in
      let_bindings bs (<[lb_Name b := value]> newScope)
  end.

Definition evalLet ent scope : Eval Step :=
  let* d := decode (DecodeLet (Data ent)) in
  let* newScope := let_bindings (let_Bindings d) scope in
  let* bodyTarget := resolveOrError (let_Body d) "let body" in
  ret (tailCall bodyTarget newScope).

Definition evalLambda ent scope : Eval Step :=
  let* d := decode (DecodeLambda (Data ent)) in
  let* envEnt := CaptureScope scope in
  let env := match envEnt with Some e => if IsZero (ContentHash e) then None else Some (ContentHash e) | None => None end in
  let* closure := make_entity TypeComputeClosure (EncodeClosure {| cl_Params := la_Params d; cl_Body := la_Body d; cl_Env := env |}) in
  ret (Done (VEntity closure)).

Definition castIntent ent : bool :=
  if negb (String.eqb (Type_ ent) TypeComputeNumericCast) then false
  else match DecodeNumericCast (Data ent) with Some d => String.eqb (ca_ToType d) "primitive/uint" | None => false end.

(** Both operands, and whether one is a cast to [uint]. *)
Definition operands (what : string) (d : ComputeBinaryData) scope : Eval (Value * Value * bool) :=
  let* leftTarget := resolveOrError (bi_Left d) (what +:+ " left") in
  let* lv := evalOperand leftTarget scope in
  let* rightTarget := resolveOrError (bi_Right d) (what +:+ " right") in
  let* rv := evalOperand rightTarget scope in
  ret (lv, rv, castIntent leftTarget || castIntent rightTarget).

Definition evalArithmetic ent scope : Eval Step :=
  let* d := decode (DecodeArithmetic (Data ent)) in
  let* (l, r, hint) := operands "arithmetic" d scope in
  let* v := of_res (applyArithmeticWithIntent (bi_Op d) l r hint) in
  ret (Done v).

Definition evalCompare ent scope : Eval Step :=
  let* d := decode (DecodeCompare (Data ent)) in
  let* (l, r, hint) := operands "compare" d scope in
  let* v := of_res (applyCompareWithIntent (bi_Op d) l r hint) in
  ret (Done v).

Definition evalLogic ent scope : Eval Step :=
  let* d := decode (DecodeLogic (Data ent)) in
  let* lv := operand (lo_Left d) "logic left" scope in
  if String.eqb (lo_Op d) "not" then ret (Done (VBool (negb (truthy lv))))
  else match lo_Right d with
  | None => raise (newComputeError ErrInvalidExpression ("logic op " +:+ lo_Op d +:+ " requires right operand"))
  | Some rh =>
      let* rv := operand rh "logic right" scope in
      if String.eqb (lo_Op d) "and" then ret (Done (VBool (truthy lv && truthy rv)))
      else if String.eqb (lo_Op d) "or" then ret (Done (VBool (truthy lv || truthy rv)))
      else raise (newComputeError ErrInvalidExpression ("Unknown logic op: " +:+ lo_Op d))
  end.

Definition evalNumericCast ent scope : Eval Step :=
  let* d := decode (DecodeNumericCast (Data ent)) in
  let* val := operand (ca_Value d) "numeric-cast value" scope in
  let* v := of_res (numeric_cast (ca_ToType d) val) in
  ret (Done v).

(** The fields of a target. *)
Definition target_fields (target : Value) : res ComputeError (list (string * Value)) :=
  match target with
  | VConstructed _ fields => Ok fields
  | VEntity t => of_option (newComputeError ErrTypeMismatch "Field access requires an entity with map data") (DecodeValueMap (Data t))
  | _ =>
      of_option (newComputeError ErrTypeMismatch (Sprintf "Field access requires an entity or record value, got: %T" [target]))
        (toStringMap target)
  end.

Definition evalField ent scope : Eval Step :=
  let* d := decode (DecodeField (Data ent)) in
  let* target := operand (fi_Entity d) "field target" scope in
  let* fields := of_res (target_fields target) in
  match field_of fields (fi_Name d) with
  | Some v => ret (Done v)
  | None => raise (newComputeError ErrNotFound ("Field not found: " +:+ fi_Name d))
  end.

Fixpoint construct_fields (l : list (string * Hash)) scope : Eval (list (string * Value)) :=
  match l with
  | [] => ret []
  | (k, h) :: l =>
      let* value := operand h ("construct field " +:+ k) scope in
      let* rest := construct_fields l scope in
      ret ((k, value) :: rest)
  end.

Definition evalConstruct ent scope : Eval Step :=
  let* d := decode (DecodeConstruct (Data ent)) in
  let* fields := construct_fields (canonicalSorted (co_Fields d)) scope in
  ret (Done (VConstructed (co_EntityType d) fields)).

Definition evalIndex ent scope : Eval Step :=
  let* d := decode (DecodeIndex (Data ent)) in
  let* arrVal := operand (in_Array d) "index array" scope in
  match arrVal with
  | VArray arr =>
      let* idxVal := operand (in_Index d) "index value" scope in
      let* i := of_res (index_array arr idxVal) in
      ret (Done (match arr !! i with Some v => v | None => VNil end))
  | _ => raise (newComputeError ErrTypeMismatch (Sprintf "compute/index requires an array, got %T" [arrVal]))
  end.

Definition evalLength ent scope : Eval Step :=
  let* h := decode (DecodeLength (Data ent)) in
  let* arrVal := operand h "length array" scope in
  match arrVal with
  | VArray arr => ret (Done (VInt (Z.of_nat (length arr))))
  | _ => raise (newComputeError ErrTypeMismatch (Sprintf "compute/length requires an array, got %T" [arrVal]))
  end.

(** The cases of [evaluateInner] other than [compute/apply]. *)
Definition evaluate_inline ent scope : Eval Step :=
  let ty := Type_ ent in
  if String.eqb ty TypeComputeLiteral then evalLiteral ent
  else if String.eqb ty TypeComputeLookupScope then evalLookupScope ent scope
  else if String.eqb ty TypeComputeLookupTree then evalLookupTree ent scope
  else if String.eqb ty TypeComputeLookupHash then evalLookupHash ent scope
  else if String.eqb ty TypeComputeIf then evalIf ent scope
  else if String.eqb ty TypeComputeLet then evalLet ent scope
  else if String.eqb ty TypeComputeLambda then evalLambda ent scope
  else if String.eqb ty TypeComputeArithmetic then evalArithmetic ent scope
  else if String.eqb ty TypeComputeCompare then evalCompare ent scope
  else if String.eqb ty TypeComputeLogic then evalLogic ent scope
  else if String.eqb ty TypeComputeField then evalField ent scope
  else if String.eqb ty TypeComputeConstruct then evalConstruct ent scope
  else if String.eqb ty TypeComputeIndex then evalIndex ent scope
  else if String.eqb ty TypeComputeLength then evalLength ent scope
  else if String.eqb ty TypeComputeNumericCast then evalNumericCast ent scope
  else if bool_decide (ty ∈ value_types) then ret (Done (VEntity ent))
  else raise (newComputeError ErrUnknownType ("Unknown compute type: " +:+ ty)).

(** *** Closures *)

Definition invokeClosure (closureEnt : Entity) (vals : list Value) : Eval Value :=
  let* d := decode (DecodeClosure (Data closureEnt)) in
  if negb (length vals =? length (cl_Params d))%nat then
    raise (newComputeError ErrMissingArgument
             (Sprintf "closure expects %d args, got %d" [VInt (Z.of_nat (length (cl_Params d))); VInt (Z.of_nat (length vals))]))
  else
    let* newScope := LoadScope (match cl_Env d with Some h => h | None => zero_hash end) in
    let newScope := foldl (fun s kv => <[fst kv := snd kv]> s) newScope (zip (cl_Params d) vals) in
    let* bodyTarget := resolveOrError (cl_Body d) "closure body" in
    Evaluate bodyTarget newScope.

Fixpoint bind_params (params : list string) args scope (newScope : Scope) : Eval Scope :=
  match params with
  | [] => ret newScope
  | param :: params =>
      match args !! param with
      | None => raise (newComputeError ErrMissingArgument ("Missing argument: " +:+ param))
      | Some argHash =>
          let* argVal := operand argHash ("closure arg " +:+ param) scope in
          bind_params params args scope (<[param := argVal]> newScope)
      end
  end.

(** The value is a closure. *)
Definition as_closure (v : Value) : option Entity :=
  match v with VEntity e => if String.eqb (Type_ e) TypeComputeClosure then Some e else None | _ => None end.

Definition evalApplyClosure (d : ComputeApplyData) scope : Eval Step :=
  let* fnTarget := resolveOrError (ap_Fn d) "closure fn" in
  let* closureEnt :=
    (if String.eqb (Type_ fnTarget) TypeComputeClosure then ret fnTarget
     else
       let* fnValue := evalOperand fnTarget scope in
       match as_closure fnValue with
       | Some e => ret e
       | None => raise (newComputeError ErrTypeMismatch "Apply target is not a closure")
       end) in
  let* closureData := decode (DecodeClosure (Data closureEnt)) in
  let* newScope := LoadScope (match cl_Env closureData with Some h => h | None => zero_hash end) in
  let* newScope := bind_params (cl_Params closureData) (ap_Args d) scope newScope in
  let* bodyTarget := resolveOrError (cl_Body closureData) "closure body" in
  ret (tailCall bodyTarget newScope).

(** *** Builtins *)

(** A string argument; the empty string when there is none. *)
Definition mustStringArg args (key : string) scope : Eval string :=
  match args !! key with
  | None => ret ""
  | Some h =>
      let* found := read (fun st => resolve st h) in
      match found with
      | None => ret ""
      | Some ent =>
          let* r := try_eval (EvaluateName ent scope) in
          ret (match r with Ok (VString s) => s | _ => "" end)
      end
  end.

(** The zero hash stands for an absent argument. *)
Definition arg args (key : string) : Hash := match args !! key with Some h => h | None => zero_hash end.

(** The inline expression that a builtin is an alias of; a failed encoding is
    reported as an invalid expression. *)
Definition via_inline (ty : string) (raw : option (list byte)) (what : string) scope : Eval Step :=
  let* built := try_eval (make_entity ty raw) in
  match built with
  | Err _ => raise (newComputeError ErrInvalidExpression (Sprintf (what +:+ " alias build failed: %v") []))
  | Ok ent => evaluate_inline ent scope
  end.

Definition builtinArithmetic args scope : Eval Step :=
  let* op := mustStringArg args "op" scope in
  via_inline TypeComputeArithmetic (EncodeArithmetic {| bi_Op := op; bi_Left := arg args "left"; bi_Right := arg args "right" |}) "builtin" scope.

Definition builtinCompare args scope : Eval Step :=
  let* op := mustStringArg args "op" scope in
  via_inline TypeComputeCompare (EncodeCompare {| bi_Op := op; bi_Left := arg args "left"; bi_Right := arg args "right" |}) "builtin" scope.

Definition builtinField args scope : Eval Step :=
  let* name := mustStringArg args "name" scope in
  via_inline TypeComputeField (EncodeField {| fi_Name := name; fi_Entity := arg args "entity" |}) "builtin" scope.

Definition builtinConstruct args scope : Eval Step :=
  let* entityType := mustStringArg args "entity_type" scope in
  if String.eqb entityType "" then
    raise (newComputeError ErrInvalidExpression "system/compute/builtins/construct requires entity_type arg")
  else via_inline TypeComputeConstruct (EncodeConstruct {| co_EntityType := entityType; co_Fields := delete "entity_type" args |}) "construct" scope.

Definition builtinLogic args scope : Eval Step :=
  let* op := mustStringArg args "op" scope in
  via_inline TypeComputeLogic (EncodeLogic {| lo_Op := op; lo_Left := arg args "left"; lo_Right := args !! "right" |}) "logic" scope.

Definition resolveCollection args scope : Eval (list Value) :=
  match args !! "collection" with
  | None => raise (newComputeError ErrInvalidExpression "missing collection arg")
  | Some h =>
      let* val := operand h "collection" scope in
      match val with
      | VArray arr => ret arr
      | _ => raise (newComputeError ErrTypeMismatch (Sprintf "collection must be an array, got %T" [val]))
      end
  end.

Definition resolveClosureArg args (key : string) scope : Eval Entity :=
  match args !! key with
  | None => raise (newComputeError ErrInvalidExpression ("missing " +:+ key +:+ " arg"))
  | Some h =>
      let* target := resolveOrError h key in
      if String.eqb (Type_ target) TypeComputeClosure then ret target
      else
        let* val := Evaluate target scope in
        match as_closure val with
        | Some e => ret e
        | None => raise (newComputeError ErrTypeMismatch (Sprintf (key +:+ " must resolve to a closure, got %T") [val]))
        end
  end.

Definition containOrPropagate (err : EvalError) : Eval Value :=
  match err with
  | Compute ce =>
      if isShortCircuitLimitCode (ce_Code ce) then of_try (Err err)
      else let* errEnt := error_entity ce in ret (VEntity errEnt)
  | Faulted _ => of_try (Err err)
  end.

Definition containClosureResult (r : res EvalError Value) : Eval Value :=
  match r with
  | Err err => containOrPropagate err
  | Ok v =>
      match computeErrorFromValue v with
      | Some ce => if isShortCircuitLimitCode (ce_Code ce) then raise ce else ret v
      | None => ret v
      end
  end.

Fixpoint map_elements (fn : Entity) (arr : list Value) : Eval (list Value) :=
  match arr with
  | [] => ret []
  | elt :: arr =>
      let* r := try_eval (invokeClosure fn [elt]) in
      let* contained := containClosureResult r in
      let* rest := map_elements fn arr in
      ret (contained :: rest)
  end.

Definition builtinMap args scope : Eval Step :=
  let* arr := resolveCollection args scope in
  let* fn := resolveClosureArg args "fn" scope in
  let* out := map_elements fn arr in
  ret (Done (VArray out)).

Fixpoint filter_elements (pred : Entity) (arr : list Value) : Eval (list Value) :=
  match arr with
  | [] => ret []
  | elt :: arr =>
      let* v := invokeClosure pred [elt] in
      match computeErrorFromValue v with
      | Some ce => raise ce
      | None =>
          let* rest := filter_elements pred arr in
          ret (if truthy v then elt :: rest else rest)
      end
  end.

Definition builtinFilter args scope : Eval Step :=
  let* arr := resolveCollection args scope in
  let* pred := resolveClosureArg args "fn" scope in
  let* out := filter_elements pred arr in
  ret (Done (VArray out)).

Fixpoint fold_elements (fn : Entity) (acc : Value) (arr : list Value) : Eval Value :=
  match arr with
  | [] => ret acc
  | elt :: arr =>
      let* r := try_eval (invokeClosure fn [acc; elt]) in
      let* next := containClosureResult r in
      fold_elements fn next arr
  end.

Definition builtinFold args scope : Eval Step :=
  let* arr := resolveCollection args scope in
  let* fn := resolveClosureArg args "fn" scope in
  match args !! "initial" with
  | None => raise (newComputeError ErrInvalidExpression "missing initial arg")
  | Some initialHash =>
      let* initialTarget := resolveOrError initialHash "initial" in
      let* r := try_eval (Evaluate initialTarget scope) in
      let* acc := containClosureResult r in
      let* v := fold_elements fn acc arr in
      ret (Done v)
  end.

(** An argument that steers the computation, and one that is placed into the
    result. *)
Definition evalControlArg args (key : string) scope : Eval Value :=
  match args !! key with
  | None => raise (newComputeError ErrMissingArgument ("missing " +:+ key +:+ " arg"))
  | Some h => operand h key scope
  end.
Definition evalDataArg args (key : string) scope : Eval Value :=
  match args !! key with
  | None => raise (newComputeError ErrMissingArgument ("missing " +:+ key +:+ " arg"))
  | Some h => let* target := resolveOrError h key in Evaluate target scope
  end.

Definition count_out_of_range (nVal : Value) : ComputeError :=
  newComputeError ErrCountOutOfRange (Sprintf "range n must be non-negative and representable, got %s" [nVal]).

(** The elements are charged to the budget. *)
Definition charge (n : Z) : Eval unit := fun w =>
  if w_Operations w <? n
  then (w, Raise (Compute (newComputeError ErrBudgetExhausted (Sprintf "range(%d) exceeds remaining budget %d" [VInt n; VInt (w_Operations w)]))))
  else (with_budget w (w_Operations w - n) (w_Depth w), Ret tt).

Definition builtinRange args scope : Eval Step :=
  let* nVal := evalControlArg args "n" scope in
  match asIndex nVal with
  | None => raise (newComputeError ErrTypeMismatch (Sprintf "range n must be an integer, got %T" [nVal]))
  | Some None => raise (count_out_of_range nVal)
  | Some (Some n) =>
      if n <? 0 then raise (count_out_of_range nVal)
      else
        let* _ := charge n in
        ret (Done (VArray (map (fun i => VInt (Z.of_nat i)) (seq 0 (Z.to_nat n)))))
  end.

Definition canonicalKeyBytes (v : Value) : Eval (list byte) :=
  let* mv := materialize v in
  match EncodeAny mv with
  | Some raw => ret raw
  | None => raise (newComputeError ErrTypeMismatch (Sprintf "group-by key is not encodable (%T)" [v]))
  end.

(** The groups so far, in the order of their first element. *)
Fixpoint add_to_group (groups : list (list byte * (Value * list Value))) (k : list byte) (keyVal elt : Value)
  : list (list byte * (Value * list Value)) :=
  match groups with
  | [] => [(k, (keyVal, [elt]))]
  | (k', (kv, members)) :: groups =>
      if decide (k' = k) then (k', (kv, members ++ [elt])) :: groups else (k', (kv, members)) :: add_to_group groups k keyVal elt
  end.

Fixpoint group_elements (fn : Entity) (arr : list Value) (groups : list (list byte * (Value * list Value)))
  : Eval (list (list byte * (Value * list Value))) :=
  match arr with
  | [] => ret groups
  | elt :: arr =>
      let* keyVal := invokeClosure fn [elt] in
      match computeErrorFromValue keyVal with
      | Some ce => raise ce
      | None =>
          let* k := canonicalKeyBytes keyVal in
          group_elements fn arr (add_to_group groups k keyVal elt)
      end
  end.

Definition builtinGroupBy args scope : Eval Step :=
  let* arr := resolveCollection args scope in
  let* fn := resolveClosureArg args "fn" scope in
  let* groups := group_elements fn arr [] in
  ret (Done (VArray (map (fun g => VConstructed TypeComputeGroup [("key", fst (snd g)); ("members", VArray (snd (snd g)))]) groups))).

(** The elements of one collection; [tag] is the type of those before it. *)
Fixpoint concat_elements (sub : list Value) (tag : option string) (out : list Value) : res ComputeError (option string * list Value) :=
  match sub with
  | [] => Ok (tag, out)
  | elt :: sub =>
      match computeErrorFromValue elt, tag with
      | Some _, _ => concat_elements sub tag (out ++ [elt])
      | None, None => concat_elements sub (Some (elementTypeTag elt)) (out ++ [elt])
      | None, Some t =>
          if String.eqb (elementTypeTag elt) t then concat_elements sub tag (out ++ [elt])
          else Err (newComputeError ErrTypeMismatch
                      (Sprintf "concat: element type %q does not match %q" [VString (elementTypeTag elt); VString t]))
      end
  end.

Fixpoint concat_collections (colls : list Value) (tag : option string) (out : list Value) : res ComputeError (list Value) :=
  match colls with
  | [] => Ok out
  | c :: colls =>
      match computeErrorFromValue c, c with
      | Some ce, _ => Err ce
      | None, VArray sub => let! (tag, out) := concat_elements sub tag out in concat_collections colls tag out
      | None, _ => Err (newComputeError ErrTypeMismatch (Sprintf "concat: each collection must be an array, got %T" [c]))
      end
  end.

Definition builtinConcat args scope : Eval Step :=
  let* collsVal := evalControlArg args "collections" scope in
  match collsVal with
  | VArray colls => let* out := of_res (concat_collections colls None []) in ret (Done (VArray out))
  | _ => raise (newComputeError ErrTypeMismatch (Sprintf "concat collections must be an array of arrays, got %T" [collsVal]))
  end.

Definition builtinAssoc args scope : Eval Step :=
  let* arr := resolveCollection args scope in
  let* idxVal := evalControlArg args "index" scope in
  let* i := of_res (index_array arr idxVal) in
  let* val := evalDataArg args "value" scope in
  ret (Done (VArray (<[i := val]> arr))).

(** The entity that is written: an error by its code, a value by its bare form. *)
Definition stored_entity (r : res EvalError Value) : Eval Entity :=
  match r with
  | Err (Faulted f) => fail f
  | Err (Compute ce) => materialized_error ce
  | Ok v =>
      match computeErrorFromValue v with
      | Some ce => materialized_error ce
      | None =>
          let* mv := materialize v in
          match mv with
          | VEntity e => ret e
          | _ =>
              match EncodeAny mv with
              | None => raise (newComputeError ErrTypeMismatch (Sprintf "cannot encode store value: %v" []))
              | Some raw => make_entity "primitive/any" (Some raw)
              end
          end
      end
  end.

Definition builtinStore args scope : Eval Step :=
  match Dispatch with
  | None => raise (newComputeError ErrInvalidExpression "system/compute/builtins/store requires dispatch capability")
  | Some _ =>
      match args !! "path", args !! "value" with
      | None, _ => raise (newComputeError ErrInvalidExpression "store missing path arg")
      | _, None => raise (newComputeError ErrInvalidExpression "store missing value arg")
      | Some pathHash, Some valueHash =>
          let* pathVal := operand pathHash "store path" scope in
          match pathVal with
          | VString pathStr =>
              let* valueTarget := resolveOrError valueHash "store value" in
              let* r := try_eval (Evaluate valueTarget scope) in
              let* valueEnt := stored_entity r in
              match EncodeEntityBytes valueEnt with
              | None => raise (newComputeError ErrInvalidExpression (Sprintf "encode store value: %v" []))
              | Some entBytes =>
                  let* built := try_eval (make_entity "system/tree/put-request" (EncodePutEntity entBytes)) in
                  match built with
                  | Err _ => raise (newComputeError ErrInvalidExpression (Sprintf "build put-request: %v" []))
                  | Ok paramsEnt =>
                      let* resp := dispatch "system/tree" "put" (Some {| Targets := [pathStr]; rt_Exclude := [] |}) paramsEnt None in
                      let* result := response_value ErrPermissionDenied "store dispatch to system/tree:put failed: status %d" resp in
                      ret (Done (VEntity result))
                  end
              end
          | _ => raise (newComputeError ErrTypeMismatch (Sprintf "store path must be a string, got %T" [pathVal]))
          end
      end
  end.

Definition evalBuiltin (d : ComputeApplyData) scope : Eval Step :=
  let args := ap_Args d in
  let at_ (name : string) := String.eqb (ap_Path d) (builtinPrefix +:+ name) in
  if negb (String.eqb (ap_Operation d) "eval") then
    raise (newComputeError ErrInvalidExpression (Sprintf ("builtin " +:+ ap_Path d +:+ " requires operation eval, got %s") [VString (ap_Operation d)]))
  else if at_ "arithmetic" then builtinArithmetic args scope
  else if at_ "compare" then builtinCompare args scope
  else if at_ "field" then builtinField args scope
  else if at_ "construct" then builtinConstruct args scope
  else if at_ "logic" then builtinLogic args scope
  else if at_ "map" then builtinMap args scope
  else if at_ "filter" then builtinFilter args scope
  else if at_ "fold" then builtinFold args scope
  else if at_ "range" then builtinRange args scope
  else if at_ "group-by" then builtinGroupBy args scope
  else if at_ "concat" then builtinConcat args scope
  else if at_ "assoc" then builtinAssoc args scope
  else if at_ "store" then builtinStore args scope
  else raise (newComputeError ErrInvalidExpression ("unknown builtin: " +:+ ap_Path d)).

(** *** Handlers *)

Fixpoint resolve_args (l : list (string * Hash)) (fieldTypes : option (list (string * string))) scope : Eval (list (string * Value)) :=
  match l with
  | [] => ret []
  | (k, h) :: l =>
      let* value := operand h ("arg " +:+ k) scope in
      let* value := materialize value in
      let* encoded := encodeArgForField k value fieldTypes in
      let* rest := resolve_args l fieldTypes scope in
      ret ((k, encoded) :: rest)
  end.

Definition apply_resource (d : ComputeApplyData) scope : Eval (option ResourceTarget) :=
  if IsZero (ap_Resource d) then ret None
  else let* v := operand (ap_Resource d) "resource" scope in of_res (coerceResourceTarget v).

(** The capability that overrides, after both checks. *)
Definition apply_override (d : ComputeApplyData) (resource : option ResourceTarget) scope : Eval (option Entity) :=
  if IsZero (ap_Capability d) then ret None
  else
    let* capValue := operand (ap_Capability d) "capability" scope in
    match capValue with
    | VEntity capEnt =>
        let* checked := read (fun st => dualCheck st capEnt (ap_Path d) (ap_Operation d) resource) in
        let* _ := of_res checked in
        ret (Some capEnt)
    | _ => raise (newComputeError ErrTypeMismatch (Sprintf "compute/apply capability field must resolve to an entity, got %T" [capValue]))
    end.

Definition wrapHandlerReturnSA4 (result : Entity) (applyHash : Hash) : Eval Value :=
  if negb (String.eqb (Type_ result) "primitive/any") then ret (VEntity result)
  else match DecodeAny (Data result) with
  | None => ret (VEntity result)
  | Some bare => let* e := make_entity TypeComputeResult (EncodeComputeResult bare applyHash) in ret (VEntity e)
  end.

Definition evalApplyHandler (d : ComputeApplyData) (applyHash : Hash) scope : Eval Step :=
  if String.eqb (ap_Operation d) "" then raise (newComputeError ErrInvalidExpression "compute/apply handler mode requires operation")
  else if IsBuiltinPath (ap_Path d) then
    if negb (IsZero (ap_Capability d)) || negb (IsZero (ap_Resource d)) then
      raise (newComputeError ErrInvalidExpression "compute/apply on a builtin path MUST NOT carry capability or resource")
    else evalBuiltin d scope
  else match Dispatch with
  | None => raise (newComputeError ErrInvalidExpression "handler dispatch not available")
  | Some _ =>
      if negb (IsZero (ap_Capability d)) && IsZero (ap_Resource d) then
        raise (newComputeError ErrInvalidExpression "compute/apply with capability field MUST also have resource field")
      else
        let* declared := read (fun st => resolveHandlerInputType st (ap_Path d) (ap_Operation d)) in
        let paramsType := if String.eqb declared "" then "primitive/any" else declared in
        let* fieldTypes := read (fun st => resolveInputFieldTypes st paramsType) in
        let* resolvedArgs := resolve_args (canonicalSorted (ap_Args d)) fieldTypes scope in
        let* paramsEnt := make_entity paramsType (EncodeValueMap resolvedArgs) in
        let* resource := apply_resource d scope in
        let* override := apply_override d resource scope in
        let* resp := dispatch (ap_Path d) (ap_Operation d) resource paramsEnt override in
        let* result := response_value ErrNotFound "handler dispatch failed: status %d" resp in
        let* v := wrapHandlerReturnSA4 result applyHash in
        ret (Done v)
  end.

Definition evalApply ent scope : Eval Step :=
  let* d := decode (DecodeApply (Data ent)) in
  if negb (String.eqb (ap_Path d) "") then evalApplyHandler d (ContentHash ent) scope
  else if negb (IsZero (ap_Fn d)) then evalApplyClosure d scope
  else raise (newComputeError ErrInvalidExpression "compute/apply requires path or fn").

Definition evaluateInner ent scope : Eval Step :=
  if String.eqb (Type_ ent) TypeComputeApply then evalApply ent scope else evaluate_inline ent scope.
End inner.

(** ** The trampoline *)

(** Entering an evaluation takes a level of depth, which the trampoline gives
    back when it leaves. *)
Definition enter (run : Entity -> Scope -> Eval Value) (ent : Entity) (scope : Scope) : Eval Value := fun w =>
  if w_Depth w <=? 0 then (w, Raise (Compute (newComputeError ErrDepthExceeded "Maximum evaluation depth exceeded")))
  else run ent scope (with_budget w (w_Operations w) (w_Depth w - 1)).

Definition leave (w : World) : World := with_budget w (w_Operations w) (w_Depth w + 1).

Fixpoint trampoline (EvaluateName : Entity -> Scope -> Eval Value) (fuel : nat) (ent : Entity) (scope : Scope) : Eval Value := fun w =>
  match fuel with
  | O => (w, Diverge)
  | S fuel' =>
      let w := with_budget w (w_Operations w - 1) (w_Depth w) in
      if w_Operations w <=? 0 then (leave w, Raise (Compute (newComputeError ErrBudgetExhausted "Computation budget exhausted")))
      else match evaluateInner (enter (trampoline EvaluateName fuel')) EvaluateName ent scope w with
      | (w, Diverge) => (leave w, Diverge)
      | (w, Raise e) => (leave w, Raise e)
      | (w, Ret (Done v)) => (leave w, Ret v)
      | (w, Ret (tailCall ent scope)) => trampoline EvaluateName fuel' ent scope w
      end
  end.

(** [Evaluate], given how the names of operators are evaluated. *)
Definition EvaluateWith (EvaluateName : Entity -> Scope -> Eval Value) (ent : Entity) (scope : Scope) : Eval Value := fun w =>
  enter (trampoline EvaluateName (S (Z.to_nat (w_Operations w)))) ent scope w.

(** [Evaluate(ent, scope, NewBudget(64, 16), ctx)]. *)
Definition own_budget (run : Eval Value) : Eval Value := fun w =>
  let '(w', r) := run (with_budget w 64 16) in (with_budget w' (w_Operations w) (w_Depth w), r).

(** [Evaluate] with at most [nesting] evaluations of names inside each other. *)
Fixpoint Evaluate (nesting : nat) (ent : Entity) (scope : Scope) : Eval Value :=
  EvaluateWith (match nesting with
                | O => fun _ _ => diverge
                | S n => fun ent scope => own_budget (Evaluate n ent scope)
                end) ent scope.
End eval.
