(* ===== verification/ComputeSound.v ===== *)
(** * What an evaluation does to its world

    A small program logic for [Eval]: from every world that the fuel covers, a
    computation leaves the depth as it was and spends operations, reads and
    dispatches only what the capability permits, yields well-formed values, and
    raises nothing but ordinary errors.  The evaluator satisfies it, whatever
    the evaluation of operator names does within the same bounds. *)

From S2P Require Import Prelude GoStrings Errors Hash Entity PeerID Paths CapTypes Patterns Check Delegation Revoked Store Notifying Handlers TreeIndex Trie ComputeValues ComputeEval.

Open Scope Z_scope.

(** ** Values *)

(** A value with nothing in it but what a decoder produces. *)
Fixpoint plain (v : Value) : Prop :=
  match v with
  | VArray l => (fix each l := match l with [] => True | v :: l => plain v /\ each l end) l
  | VMap l => (fix each l := match l with [] => True | (k, v) :: l => plain k /\ plain v /\ each l end) l
  | VEntity _ | VConstructed _ _ | VHash _ | VResource _ => False
  | _ => True
  end.

Definition is_error (v : Value) : bool :=
  match v with VEntity e => String.eqb (Type_ e) TypeComputeError | _ => false end.

(** No field of a constructed value is itself an error. *)
Fixpoint wf (v : Value) : Prop :=
  match v with
  | VArray l => (fix each l := match l with [] => True | v :: l => wf v /\ each l end) l
  | VMap l => (fix each l := match l with [] => True | (k, v) :: l => wf k /\ wf v /\ each l end) l
  | VConstructed _ fields => (fix each l := match l with [] => True | (_, v) :: l => (wf v /\ is_error v = false) /\ each l end) fields
  | _ => True
  end.

Lemma wf_array l : wf (VArray l) <-> Forall wf l.
Proof. induction l as [|v l IH]; [by split|]. rewrite Forall_cons, <- IH. done. Qed.

Lemma wf_map l : wf (VMap l) <-> Forall (fun kv => wf (fst kv) /\ wf (snd kv)) l.
Proof. induction l as [|[k v] l IH]; [by split|]. rewrite Forall_cons, <- IH. cbn. tauto. Qed.

Lemma wf_constructed t l : wf (VConstructed t l) <-> Forall (fun kv => wf (snd kv) /\ is_error (snd kv) = false) l.
Proof. induction l as [|[k v] l IH]; [by split|]. rewrite Forall_cons, <- IH. done. Qed.

Fixpoint plain_wf (v : Value) : plain v -> wf v.
Proof.
  destruct v; cbn; try done.
  - induction l as [|v l IH]; [done|]. intros [Hv Hl]. split; [by apply plain_wf|by apply IH].
  - induction l as [|[k v] l IH]; [done|]. intros (Hk & Hv & Hl). split_and!; [by apply plain_wf|by apply plain_wf|by apply IH].
Qed.

Definition wf_scope (s : Scope) : Prop := map_Forall (fun _ v => wf v) s.

Lemma wf_scope_empty : wf_scope ∅.
Proof. apply map_Forall_empty. Qed.

Lemma wf_scope_insert s k v : wf v -> wf_scope s -> wf_scope (<[k := v]> s).
Proof. intros Hv Hs. by apply (map_Forall_insert_2 (fun _ v => wf v)). Qed.

Lemma field_of_elem fields name v : field_of fields name = Some v -> exists k, (k, v) ∈ fields.
Proof.
  induction fields as [|[k u] fields IH]; cbn [field_of]; [done|]. destruct (String.eqb k name).
  - intros [= ->]. exists k. left.
  - intros (k' & Hk)%IH. exists k'. by right.
Qed.

Definition wf_step (st : Step) : Prop := match st with Done v => wf v | tailCall _ s => wf_scope s end.

(** What the model relies on of the decoders: what they produce is plain. *)
Class ComputeCodecLaws `{ComputeCodec} := {
  literal_plain d v : DecodeLiteral d = Some v -> plain v;
  any_plain d v : DecodeAny d = Some v -> plain v;
  value_map_plain d l : DecodeValueMap d = Some l -> Forall (fun kv => plain (snd kv)) l;
  scope_plain d l : DecodeScope d = Some l -> Forall (fun nb => plain (sb_Value (snd nb))) l
}.

Create HintDb eval.
#[export] Hint Resolve wf_scope_empty wf_scope_insert plain_wf : eval.
#[export] Hint Extern 1 (wf _) => exact I : eval.

Section sound.
Context {CS L IX : Type} `{ContentStoreLaws CS} `{LocationIndex L} `{CapabilityIndex IX} `{Base58, DataCodec, NodeCodec} `{!ComputeCodec, !ComputeCodecLaws, Fmt}.
Context {order : ScopeOrder} (now : Z) (ctx : EvalContext).
Abbreviation State := (TreeState CS L IX).
Variable Dispatch : option (State -> string -> string -> option ResourceTarget -> Entity -> option Entity -> State * option (Z * Entity)).
Abbreviation World := (@World CS L IX).
Implicit Types (w : World) (scope : Scope).

(** ** Worlds *)

(** The read was permitted by the capability of the evaluation. *)
Definition permitted (d : @Dependency CS L IX) : Prop := read_refusal now ctx (d_state d) (d_path d) = None.

(** A capability that overrides was checked, and so was the one it overrides. *)
Definition allowed (c : @Call CS L IX) : Prop :=
  forall cap, c_override c = Some cap -> dualCheck now ctx (c_state c) cap (c_path c) (c_op c) (c_resource c) = Ok tt.

Record grows w w' : Prop := {
  grows_depth : w_Depth w' = w_Depth w;
  grows_ops : w_Operations w' <= w_Operations w;
  grows_deps : exists l, w_deps w' = w_deps w ++ l /\ Forall permitted l;
  grows_calls : exists l, w_calls w' = w_calls w ++ l /\ Forall allowed l
}.

#[export] Instance grows_preorder : PreOrder grows.
Proof.
  split.
  - intros w. split; [done|lia|exists []; by rewrite app_nil_r|exists []; by rewrite app_nil_r].
  - intros w1 w2 w3 [D1 O1 (l1 & E1 & F1) (c1 & G1 & A1)] [D2 O2 (l2 & E2 & F2) (c2 & G2 & A2)]. split; [congruence|lia|..].
    + exists (l1 ++ l2). rewrite E2, E1, app_assoc. split; [done|]. by apply Forall_app.
    + exists (c1 ++ c2). rewrite G2, G1, app_assoc. split; [done|]. by apply Forall_app.
Qed.

(** ** Computations *)

Section logic.
(** [D] holds if evaluations may diverge; [F] bounds the operations. *)
Context (D : Prop) (F : Z).

Definition benign (e : EvalError) : Prop := e <> Faulted ErrorMaterialized.

Definition good_at {A} (Q : A -> World -> Prop) (m : Eval A) w : Prop :=
  let '(w', r) := m w in
  grows w w' /\ match r with Ret a => Q a w' | Raise e => benign e | Diverge => D end.

Definition Good {A} (Q : A -> World -> Prop) (m : Eval A) : Prop := forall w, w_Operations w <= F -> good_at Q m w.
Definition yields {A} (Q : A -> Prop) (m : Eval A) : Prop := Good (fun a _ => Q a) m.

Lemma good_bind_at {A B} (m : Eval A) (k : A -> Eval B) Q Q' :
  Good Q m -> (forall a w, w_Operations w <= F -> Q a w -> good_at Q' (k a) w) -> Good Q' (bind_eval m k).
Proof.
  intros Hm Hk w Hw. specialize (Hm w Hw). unfold good_at, bind_eval in *. destruct (m w) as [w1 [a|e|]]; [|done..].
  destruct Hm as [G HQ]. specialize (Hk a w1 ltac:(pose proof (grows_ops _ _ G); lia) HQ). destruct (k a w1) as [w2 r].
  split; [by etrans; [|apply Hk]|apply Hk].
Qed.

Lemma good_bind {A B} (m : Eval A) (k : A -> Eval B) (Q : A -> Prop) (Q' : B -> Prop) :
  yields Q m -> (forall a, Q a -> yields Q' (k a)) -> yields Q' (bind_eval m k).
Proof. intros Hm Hk. eapply good_bind_at; [exact Hm|]. intros a w Hw Ha. by apply Hk. Qed.

Lemma good_ret {A} (Q : A -> Prop) a : Q a -> yields Q (ret a).
Proof. intros Ha w Hw. by split. Qed.
Lemma good_raise {A} (Q : A -> Prop) e : yields Q (raise e).
Proof. intros w Hw. by split. Qed.
Lemma good_fail {A} (Q : A -> Prop) f : f <> ErrorMaterialized -> yields Q (fail f).
Proof. intros Hf w Hw. split; [done|]. intros [=]. done. Qed.
Lemma good_read {A} (f : State -> A) : yields (fun a => exists st, a = f st) (read f).
Proof. intros w Hw. split; [done|]. by eexists. Qed.
Lemma good_of_res {A} (r : res ComputeError A) : yields (fun a => r = Ok a) (of_res r).
Proof. destruct r; [by apply good_ret|apply good_raise]. Qed.
Lemma good_decode {A} (o : option A) : yields (fun a => o = Some a) (decode o).
Proof. destruct o; [by apply good_ret|by apply good_fail]. Qed.
Lemma good_weaken {A} (Q Q' : A -> Prop) m : yields Q m -> (forall a, Q a -> Q' a) -> yields Q' m.
Proof. intros Hm HQ w Hw. specialize (Hm w Hw). unfold good_at in *. destruct (m w) as [w' [a| |]]; naive_solver. Qed.

Lemma good_try {A} (Q : A -> Prop) (m : Eval A) :
  yields Q m -> yields (fun r => match r with Ok a => Q a | Err e => benign e end) (try_eval m).
Proof. intros Hm w Hw. specialize (Hm w Hw). unfold good_at, try_eval in *. by destruct (m w) as [w' [a| |]]. Qed.
Lemma good_of_try {A} (Q : A -> Prop) (r : res EvalError A) :
  match r with Ok a => Q a | Err e => benign e end -> yields Q (of_try r).
Proof. intros Hr w Hw. split; [done|]. by destruct r. Qed.

Lemma grows_state w st : grows w (with_state w st).
Proof. split; [done|cbn; lia|exists []; by rewrite app_nil_r|exists []; by rewrite app_nil_r]. Qed.

Lemma good_put e : yields (fun _ : unit => True) (put e).
Proof.
  intros w Hw. unfold good_at, put. destruct (cs_Put _ e) as [cs [h|]]; (split; [apply grows_state|done]).
Qed.

Lemma good_make_entity ty raw : yields (fun e => Type_ e = ty) (make_entity ty raw).
Proof.
  unfold make_entity. destruct raw as [d|]; [|by apply good_fail].
  destruct (Ent.NewEntity node_format ty d) as [e|] eqn:E; [|by apply good_fail]. apply good_ret.
  unfold Ent.NewEntity, Ent.NewEntityFormat in E. repeat (case_match; [done|]).
  destruct (ComputeFormat _ _ _); [|done]. by injection E as <-.
Qed.

Lemma good_entity ty raw : yields (fun _ => True) (make_entity ty raw).
Proof. eapply good_weaken; [apply good_make_entity|done]. Qed.
End logic.


#[local] Hint Resolve good_raise good_read good_of_res good_decode good_try good_of_try good_put good_make_entity : eval.
#[local] Hint Extern 1 (yields _ _ _ (fail _)) => by apply good_fail : eval.

(** Split a computation at its binds and matches, and solve what is known. *)
Ltac good_with tac :=
  repeat first
    [ progress intros
    | progress cbn beta iota in *
    | match goal with
      | H : exists _, _ |- _ => destruct H
      | |- yields _ _ _ (bind_eval _ _) => eapply good_bind; [solve [eauto with eval]|]
      | |- yields _ _ _ (ret _) => apply good_ret
      | |- yields _ _ _ (match ?x with _ => _ end) => destruct x eqn:?
      end
    | solve [eauto with eval]
    | tac ].
Ltac good := good_with ltac:(fail).

(** ** Helpers of the evaluator *)

Section helpers.
Context (D : Prop) (F : Z).
Abbreviation yields := (yields D F).

Lemma error_from_value v : (computeErrorFromValue v = None) <-> is_error v = false.
Proof. destruct v as [| | | | | | | | | | e| | |]; cbn; try done. by destruct (String.eqb _ _). Qed.

Lemma wf_by_reference v : wf v -> wf (by_reference v).
Proof. by destruct v. Qed.

Lemma good_materialize v : wf v -> is_error v = false -> yields wf (materialize v).
Proof.
  revert v. fix IH 1. intros v Hv He.
  destruct v as [| | | | | | |l| | |e|ty fields| |]; cbn [materialize]; try (by apply good_ret).
  - apply good_bind with (Q := Forall wf); [|intros out Hout; apply good_ret; by apply wf_array].
    clear He. induction l as [|v l IHl]; [by apply good_ret|]. destruct Hv as [Hv Hl].
    apply good_bind with (Q := wf).
    + destruct (computeErrorFromValue v) eqn:Ev; [unfold materialized_error; good; done|].
      apply IH; [done|by apply error_from_value].
    + intros me Hme. eapply good_bind; [by apply IHl|]. intros rest Hr. apply good_ret. constructor; [by apply wf_by_reference|done].
  - cbn in He. rewrite He. by apply good_ret.
  - apply good_bind with (Q := fun _ => True); [|good; done].
    clear He. induction fields as [|[k v] fields IHf]; [by apply good_ret|]. destruct Hv as [[Hv Hev] Hf].
    eapply good_bind; [by apply IH|]. intros mv _. eapply good_bind; [by apply IHf|]. intros rest _. by apply good_ret.
Qed.
#[local] Hint Resolve good_materialize wf_by_reference : eval.

Lemma good_any_materialize v : wf v -> is_error v = false -> yields (fun _ => True) (materialize v).
Proof. intros. eapply good_weaken; [by apply good_materialize|done]. Qed.

Lemma good_buildScopeBinding v : wf v -> yields (fun _ => True) (buildScopeBinding v).
Proof.
  intros Hv. unfold buildScopeBinding. apply good_bind with (Q := fun _ => True); [|good; done].
  destruct v; try (by apply good_ret). by apply good_any_materialize.
Qed.

Lemma good_CaptureScope scope : wf_scope scope -> yields (fun _ => True) (CaptureScope scope).
Proof.
  intros Hs. unfold CaptureScope. case_decide; [by apply good_ret|].
  apply good_bind with (Q := fun _ => True); [|good; done].
  assert (Hall : Forall (fun kv => wf (snd kv)) (scope_range scope)).
  { rewrite scope_range_perm. apply Forall_forall. intros [k v] Hin%elem_of_map_to_list. by apply (Hs k). }
  induction Hall as [|[k v] l Hv Hl IH]; cbn [capture_bindings]; [by apply good_ret|].
  eapply good_bind; [by apply good_buildScopeBinding|]. intros b _. eapply good_bind; [exact IH|]. intros rest _. by apply good_ret.
Qed.

Lemma good_LoadScope h : yields wf_scope (LoadScope h).
Proof.
  unfold LoadScope. destruct (IsZero h); [apply good_ret, wf_scope_empty|]. eapply good_bind; [apply good_read|]. intros found _.
  destruct found as [ent|]; [|apply good_raise]. eapply good_bind; [apply good_decode|]. intros d Hd.
  apply scope_plain in Hd. induction Hd as [|[name b] l Hb Hl IH]; cbn [load_bindings]; [apply good_ret, wf_scope_empty|].
  apply good_bind with (Q := wf).
  - unfold resolveScopeBinding. good.
  - intros v Hv. eapply good_bind; [exact IH|]. intros rest Hr. apply good_ret. by apply wf_scope_insert.
Qed.

Lemma good_resolve h label : yields (fun _ => True) (resolveOrError ctx h label).
Proof. unfold resolveOrError. good; done. Qed.

Lemma good_response code msg resp : yields (fun _ => True) (response_value code msg resp).
Proof. unfold response_value. good; done. Qed.

Lemma good_encodeArg name v ft : wf v -> yields (fun _ => True) (encodeArgForField name v ft).
Proof. intros Hv. unfold encodeArgForField. good; done. Qed.

Lemma good_wrap result h : yields wf (wrapHandlerReturnSA4 result h).
Proof. unfold wrapHandlerReturnSA4. good; done. Qed.

Lemma good_contain r : match r with Ok v => wf v | Err e => benign e end -> yields wf (containClosureResult r).
Proof.
  intros Hr. unfold containClosureResult, containOrPropagate, error_entity. good; try done; by apply good_of_try.
Qed.

Lemma good_register w path :
  read_refusal now ctx (w_state w) path = None -> good_at D (fun _ _ => True) (registerDep path) w.
Proof.
  intros Hp. split; [|done]. split; [done|cbn; lia|..].
  - eexists. split; [done|]. by apply Forall_singleton.
  - exists []. by rewrite app_nil_r.
Qed.

Lemma good_dispatch w path op resource params override :
  (forall cap, override = Some cap -> dualCheck now ctx (w_state w) cap path op resource = Ok tt) ->
  good_at D (fun _ _ => True) (dispatch Dispatch path op resource params override) w.
Proof.
  intros Ho. unfold good_at, dispatch. destruct Dispatch as [d|]; [|by split].
  destruct (d _ _ _ _ _ _) as [st r]. split; [|by destruct r]. split; [done|cbn; lia|exists []; by rewrite app_nil_r|].
  eexists. split; [done|]. by apply Forall_singleton.
Qed.

Lemma good_dispatch_plain path op resource params : yields (fun _ => True) (dispatch Dispatch path op resource params None).
Proof. intros w Hw. by apply good_dispatch. Qed.

Lemma good_charge n : 0 <= n -> yields (fun _ => True) (charge n).
Proof.
  intros Hn w Hw. unfold good_at, charge. destruct (w_Operations w <? n); [by split|]. split; [|done].
  split; [done|cbn; lia|exists []; by rewrite app_nil_r|exists []; by rewrite app_nil_r].
Qed.
End helpers.

#[local] Hint Resolve good_CaptureScope good_LoadScope good_resolve good_response good_encodeArg good_wrap good_contain good_dispatch_plain good_any_materialize : eval.

(** ** Expressions *)

Section inner.
Context (D : Prop) (F : Z).
Abbreviation yields := (yields D F).
Variables (Evaluate EvaluateName : Entity -> Scope -> @Eval CS L IX Value).
Hypothesis rec_good : forall ent scope, wf_scope scope -> yields wf (Evaluate ent scope).
Hypothesis name_good : forall ent scope, wf_scope scope -> yields (fun _ => True) (EvaluateName ent scope).
Implicit Types (ent : Entity) (args : gmap string Hash).

Lemma good_operand_of ent scope : wf_scope scope -> yields (fun v => wf v /\ is_error v = false) (evalOperand Evaluate ent scope).
Proof.
  intros Hs. unfold evalOperand. eapply good_bind; [by apply rec_good|]. intros v Hv.
  destruct (computeErrorFromValue v) eqn:E; [apply good_raise|]. apply good_ret. split; [done|by apply error_from_value].
Qed.

Lemma good_operand h label scope : wf_scope scope -> yields (fun v => wf v /\ is_error v = false) (operand ctx Evaluate h label scope).
Proof. intros Hs. unfold operand. eapply good_bind; [apply good_resolve|]. intros ? _. by apply good_operand_of. Qed.

Lemma good_operands what d scope : wf_scope scope -> yields (fun _ => True) (operands ctx Evaluate what d scope).
Proof.
  intros Hs. unfold operands. eapply good_bind; [apply good_resolve|]. intros lt _.
  eapply good_bind; [by apply good_operand_of|]. intros lv _. eapply good_bind; [apply good_resolve|]. intros rt _.
  eapply good_bind; [by apply good_operand_of|]. intros rv _. by apply good_ret.
Qed.
#[local] Hint Resolve good_operand good_operand_of good_operands : eval.

Lemma arithmetic_wf op l r hint v : applyArithmeticWithIntent op l r hint = Ok v -> wf v.
Proof.
  unfold applyArithmeticWithIntent, integer_arithmetic, float_arithmetic, signedResult, unsignedResult.
  intros Hv. repeat case_match; try done; by injection Hv as <-.
Qed.
Lemma compare_wf op l r hint v : applyCompareWithIntent op l r hint = Ok v -> wf v.
Proof.
  unfold applyCompareWithIntent. intros Hv. repeat case_match; try done; try (by injection Hv as <-).
  destruct (compareOrdered _ _ _ _); [|done]. by injection Hv as <-.
Qed.
Lemma cast_wf t x v : numeric_cast t x = Ok v -> wf v.
Proof.
  unfold numeric_cast. intros Hv. repeat case_match; try done; try (by injection Hv as <-);
    destruct (cast_float _ _ _ _); try done; by injection Hv as <-.
Qed.
#[local] Hint Resolve arithmetic_wf compare_wf cast_wf : eval.

Lemma good_LookupTree ent scope : wf_scope scope -> yields wf_step (evalLookupTree now ctx ent scope).
Proof.
  intros Hs. unfold evalLookupTree. eapply good_bind; [apply good_decode|]. intros d _ w Hw.
  unfold good_at, bind_eval, read at 1. destruct (read_refusal _ _ _ _) eqn:Hr; [by split|].
  pose proof (good_register D _ _ Hr) as Hreg. unfold good_at in Hreg.
  change (good_at D (fun a _ => wf_step a) (bind_eval (registerDep (lookup_path ctx d)) (fun _ =>
    bind_eval (read (fun st => h ← Get (ts_Index st) (lookup_path ctx d); cs_Get (ts_Store st) h)) (fun found =>
      match found with
      | Some treeEnt => ret (if IsComputeExpression treeEnt then tailCall treeEnt scope else Done (VEntity treeEnt))
      | None => raise (newComputeError ErrNotFound ("No entity at path: " +:+ lookup_path ctx d))
      end))) w).
  unfold good_at, bind_eval. destruct (registerDep _ w) as [w' r]. destruct Hreg as [Hg Hr']. destruct r as [u|e|]; try done.
  cbn. destruct (Get _ _ ≫= _) as [t|]; cbn; (split; [done|]); [|done]. by destruct (IsComputeExpression t).
Qed.

Lemma good_let bs scope : wf_scope scope -> yields wf_scope (let_bindings ctx Evaluate bs scope).
Proof.
  revert scope. induction bs as [|b bs IH]; intros scope Hs; cbn [let_bindings]; [by apply good_ret|].
  eapply good_bind; [apply good_resolve|]. intros t _. eapply good_bind; [by apply rec_good|]. intros v Hv.
  apply IH. by apply wf_scope_insert.
Qed.

Lemma good_construct l scope :
  wf_scope scope -> yields (Forall (fun kv => wf (snd kv) /\ is_error (snd kv) = false)) (construct_fields ctx Evaluate l scope).
Proof.
  intros Hs. induction l as [|[k h] l IH]; cbn [construct_fields]; [by apply good_ret|].
  eapply good_bind; [by apply good_operand|]. intros v Hv. eapply good_bind; [exact IH|]. intros rest Hr.
  apply good_ret. by constructor.
Qed.
#[local] Hint Resolve good_LookupTree good_let good_construct : eval.

Lemma fields_wf target fields : wf target -> target_fields target = Ok fields -> Forall (fun kv => wf (snd kv)) fields.
Proof.
  destruct target as [| | | | | | | |l| |e|t fs| |]; cbn; intros Hw; try discriminate.
  - intros [= <-]. apply wf_map in Hw. induction Hw as [|[k v] l [_ Hv] Hl IH]; [constructor|]. cbn. destruct k; try exact IH. by constructor.
  - destruct (DecodeValueMap _) as [m|] eqn:E; [|done]. intros [= <-]. apply value_map_plain in E.
    eapply Forall_impl; [exact E|]. intros kv Hk. by apply plain_wf.
  - intros [= <-]. apply (wf_constructed t) in Hw. eapply Forall_impl; [exact Hw|]. by intros kv [].
Qed.

Lemma good_inline ent scope : wf_scope scope -> yields wf_step (evaluate_inline now ctx Evaluate ent scope).
Proof.
  intros Hs. unfold evaluate_inline. repeat (match goal with |- yields _ (if ?b then _ else _) => destruct b end).
  - unfold evalLiteral. good. cbn. by apply plain_wf, (literal_plain (Data ent)).
  - unfold evalLookupScope. good. cbn. by apply (Hs a).
  - good.
  - unfold evalLookupHash. good. by destruct (IsComputeExpression _).
  - unfold evalIf. good; done.
  - unfold evalLet. good; done.
  - unfold evalLambda. good; done.
  - unfold evalArithmetic. good. cbn. eauto with eval.
  - unfold evalCompare. good. cbn. eauto with eval.
  - unfold evalLogic. good; done.
  - unfold evalField. eapply good_bind; [apply good_decode|]. intros d _. eapply good_bind; [by apply good_operand|]. intros t [Ht _].
    eapply good_bind; [apply good_of_res|]. intros fs Hf. destruct (field_of fs (fi_Name d)) as [v|] eqn:E; [|apply good_raise].
    apply good_ret. apply field_of_elem in E as [k Hk]. apply (fields_wf _ _ Ht) in Hf. rewrite Forall_forall in Hf. by apply (Hf _ Hk).
  - unfold evalConstruct. good. by apply wf_constructed.
  - unfold evalIndex. eapply good_bind; [apply good_decode|]. intros d _. eapply good_bind; [by apply good_operand|]. intros t [Ht _].
    destruct t; try apply good_raise. eapply good_bind; [by apply good_operand|]. intros iv _. eapply good_bind; [apply good_of_res|].
    intros i _. apply good_ret. cbn. apply wf_array in Ht. destruct (_ !! i) as [v|] eqn:E; [|done]. by eapply Forall_lookup_1.
  - unfold evalLength. good; done.
  - unfold evalNumericCast. good. cbn. eauto with eval.
  - by apply good_ret.
  - apply good_raise.
Qed.

(** *** Closures *)

Lemma wf_bind_values params vals scope :
  Forall wf vals -> wf_scope scope -> wf_scope (foldl (fun s kv => <[fst kv := snd kv]> s) scope (zip params vals)).
Proof.
  intros Hv. revert params scope. induction Hv as [|v vals Hv Hl IH]; intros [|p params] scope Hs; cbn; try done.
  apply IH. by apply wf_scope_insert.
Qed.

Lemma good_invokeClosure fn vals : Forall wf vals -> yields wf (invokeClosure ctx Evaluate fn vals).
Proof.
  intros Hv. unfold invokeClosure. eapply good_bind; [apply good_decode|]. intros d _. case_match; [apply good_raise|].
  eapply good_bind; [apply good_LoadScope|]. intros env Henv. eapply good_bind; [apply good_resolve|]. intros body _.
  apply rec_good. by apply wf_bind_values.
Qed.

Lemma good_bind_params params args scope env :
  wf_scope scope -> wf_scope env -> yields wf_scope (bind_params ctx Evaluate params args scope env).
Proof.
  intros Hs. revert env. induction params as [|p params IH]; intros env He; cbn [bind_params]; [by apply good_ret|].
  destruct (args !! p); [|apply good_raise]. eapply good_bind; [by apply good_operand|]. intros v [Hv _].
  apply IH. by apply wf_scope_insert.
Qed.
#[local] Hint Resolve good_invokeClosure good_bind_params : eval.

Lemma good_applyClosure d scope : wf_scope scope -> yields wf_step (evalApplyClosure ctx Evaluate d scope).
Proof.
  intros Hs. unfold evalApplyClosure. eapply good_bind; [apply good_resolve|]. intros t _.
  apply good_bind with (Q := fun _ => True); [good; done|]. good.
Qed.

(** *** Builtins *)

Lemma good_mustStringArg args key scope : wf_scope scope -> yields (fun _ => True) (mustStringArg ctx EvaluateName args key scope).
Proof.
  intros Hs. unfold mustStringArg. destruct (args !! key); [|by apply good_ret]. eapply good_bind; [apply good_read|].
  intros [e|] _; [|by apply good_ret]. eapply good_bind; [apply good_try, name_good, Hs|]. intros r _. by apply good_ret.
Qed.

Lemma good_via_inline ty raw what scope : wf_scope scope -> yields wf_step (via_inline now ctx Evaluate ty raw what scope).
Proof.
  intros Hs. unfold via_inline. eapply good_bind; [apply good_try, good_make_entity|]. intros [e|] _; [|apply good_raise].
  by apply good_inline.
Qed.
#[local] Hint Resolve good_mustStringArg good_via_inline : eval.

Lemma good_collection args scope : wf_scope scope -> yields (Forall wf) (resolveCollection ctx Evaluate args scope).
Proof.
  intros Hs. unfold resolveCollection. destruct (args !! _); [|apply good_raise]. eapply good_bind; [by apply good_operand|].
  intros v [Hv _]. destruct v; try apply good_raise. apply good_ret. by apply wf_array.
Qed.

Lemma good_closureArg args key scope : wf_scope scope -> yields (fun _ => True) (resolveClosureArg ctx Evaluate args key scope).
Proof. intros Hs. unfold resolveClosureArg. good; done. Qed.

Lemma good_controlArg args key scope :
  wf_scope scope -> yields (fun v => wf v /\ is_error v = false) (evalControlArg ctx Evaluate args key scope).
Proof. intros Hs. unfold evalControlArg. good. Qed.

Lemma good_dataArg args key scope : wf_scope scope -> yields wf (evalDataArg ctx Evaluate args key scope).
Proof. intros Hs. unfold evalDataArg. good. Qed.
#[local] Hint Resolve good_collection good_closureArg good_controlArg good_dataArg : eval.

(** A closure that is called on elements, its errors contained. *)
Lemma good_contained fn vals :
  Forall wf vals -> yields wf (bind_eval (try_eval (invokeClosure ctx Evaluate fn vals)) containClosureResult).
Proof. intros Hv. eapply good_bind; [by apply good_try, good_invokeClosure|]. intros r Hr. by apply good_contain. Qed.

Lemma good_map_elements fn arr : Forall wf arr -> yields (Forall wf) (map_elements ctx Evaluate fn arr).
Proof.
  induction 1 as [|v arr Hv Ha IH]; cbn [map_elements]; [by apply good_ret|].
  eapply good_bind; [apply good_try, good_invokeClosure; by constructor|]. intros r Hr.
  eapply good_bind; [by apply good_contain|]. intros c Hc. eapply good_bind; [exact IH|]. intros rest Hrest.
  apply good_ret. by constructor.
Qed.

Lemma good_filter_elements fn arr : Forall wf arr -> yields (Forall wf) (filter_elements ctx Evaluate fn arr).
Proof.
  induction 1 as [|v arr Hv Ha IH]; cbn [filter_elements]; [by apply good_ret|].
  eapply good_bind; [apply good_invokeClosure; by constructor|]. intros c _. case_match; [apply good_raise|].
  eapply good_bind; [exact IH|]. intros rest Hrest. apply good_ret. case_match; [by constructor|done].
Qed.

Lemma good_fold_elements fn arr acc : Forall wf arr -> wf acc -> yields wf (fold_elements ctx Evaluate fn acc arr).
Proof.
  intros Ha. revert acc. induction Ha as [|v arr Hv Ha IH]; intros acc Hacc; cbn [fold_elements]; [by apply good_ret|].
  eapply good_bind; [apply good_try, good_invokeClosure; by repeat constructor|]. intros r Hr.
  eapply good_bind; [by apply good_contain|]. intros c Hc. by apply IH.
Qed.

Abbreviation group_wf := (fun g : list byte * (Value * list Value) => (wf (fst (snd g)) /\ is_error (fst (snd g)) = false) /\ Forall wf (snd (snd g))).

Lemma wf_add_to_group groups k v elt :
  Forall group_wf groups -> wf v -> is_error v = false -> wf elt -> Forall group_wf (add_to_group groups k v elt).
Proof.
  intros Hg Hv He Hw. induction Hg as [|[k' [kv ms]] groups [Hkv Hms] Hg IH]; cbn [add_to_group].
  - constructor; [|done]. split; [done|]. by constructor.
  - case_decide; constructor; try done. split; [done|]. apply Forall_app. split; [done|]. by constructor.
Qed.

Lemma good_key v : wf v -> is_error v = false -> yields (fun _ => True) (canonicalKeyBytes v).
Proof. intros. unfold canonicalKeyBytes. good; done. Qed.

Lemma good_group_elements fn arr groups :
  Forall wf arr -> Forall group_wf groups -> yields (Forall group_wf) (group_elements ctx Evaluate fn arr groups).
Proof.
  intros Ha. revert groups. induction Ha as [|v arr Hv Ha IH]; intros groups Hg; cbn [group_elements]; [by apply good_ret|].
  eapply good_bind; [apply good_invokeClosure; by constructor|]. intros c Hc. case_match; [apply good_raise|].
  assert (is_error c = false) by (by apply error_from_value). eapply good_bind; [by apply good_key|]. intros k _.
  apply IH. by apply wf_add_to_group.
Qed.

Lemma concat_elements_wf sub tag out tag' out' :
  Forall wf sub -> Forall wf out -> concat_elements sub tag out = Ok (tag', out') -> Forall wf out'.
Proof.
  intros Hs. revert tag out. induction Hs as [|v sub Hv Hs IH]; intros tag out Ho; cbn [concat_elements]; [by intros [= _ <-]|].
  assert (Forall wf (out ++ [v])) by (apply Forall_app; split; [done|]; by constructor).
  repeat case_match; try done; by apply IH.
Qed.

Lemma concat_collections_wf colls tag out out' :
  Forall wf colls -> Forall wf out -> concat_collections colls tag out = Ok out' -> Forall wf out'.
Proof.
  intros Hc. revert tag out. induction Hc as [|c colls Hv Hc IH]; intros tag out Ho; cbn [concat_collections]; [by intros [= <-]|].
  destruct (computeErrorFromValue c); [done|]. destruct c; try done. apply wf_array in Hv.
  destruct (concat_elements l tag out) as [[tag' mid]|] eqn:E; [|done]. apply IH. exact (concat_elements_wf _ _ _ _ _ Hv Ho E).
Qed.
#[local] Hint Resolve good_map_elements good_filter_elements good_fold_elements good_group_elements : eval.

Lemma good_aliases args scope :
  wf_scope scope ->
  yields wf_step (builtinArithmetic now ctx Evaluate EvaluateName args scope)
  /\ yields wf_step (builtinCompare now ctx Evaluate EvaluateName args scope)
  /\ yields wf_step (builtinField now ctx Evaluate EvaluateName args scope)
  /\ yields wf_step (builtinConstruct now ctx Evaluate EvaluateName args scope)
  /\ yields wf_step (builtinLogic now ctx Evaluate EvaluateName args scope).
Proof.
  intros Hs. unfold builtinArithmetic, builtinCompare, builtinField, builtinConstruct, builtinLogic. split_and!; good.
Qed.

Lemma wf_done_array l : Forall wf l -> wf_step (Done (VArray l)).
Proof. apply wf_array. Qed.
#[local] Hint Resolve wf_done_array : eval.

Lemma good_map args scope : wf_scope scope -> yields wf_step (builtinMap ctx Evaluate args scope).
Proof. intros Hs. unfold builtinMap. good. Qed.

Lemma good_filter args scope : wf_scope scope -> yields wf_step (builtinFilter ctx Evaluate args scope).
Proof. intros Hs. unfold builtinFilter. good. Qed.

Lemma good_fold args scope : wf_scope scope -> yields wf_step (builtinFold ctx Evaluate args scope).
Proof.
  intros Hs. unfold builtinFold. eapply good_bind; [by apply good_collection|]. intros arr Ha.
  eapply good_bind; [by apply good_closureArg|]. intros fn _. destruct (args !! _); [|apply good_raise].
  eapply good_bind; [apply good_resolve|]. intros t _. eapply good_bind; [by apply good_try, rec_good|]. intros r Hr.
  eapply good_bind; [by apply good_contain|]. intros acc Hacc. good.
Qed.

Lemma good_range args scope : wf_scope scope -> yields wf_step (builtinRange ctx Evaluate args scope).
Proof.
  intros Hs. unfold builtinRange. eapply good_bind; [by apply good_controlArg|]. intros v _.
  destruct (asIndex v) as [[n|]|]; try apply good_raise. destruct (n <? 0) eqn:En; [apply good_raise|].
  eapply good_bind; [apply good_charge; lia|]. intros _ _. apply good_ret, wf_done_array, Forall_map, Forall_forall. done.
Qed.

Lemma good_groupBy args scope : wf_scope scope -> yields wf_step (builtinGroupBy ctx Evaluate args scope).
Proof.
  intros Hs. unfold builtinGroupBy. eapply good_bind; [by apply good_collection|]. intros arr Ha.
  eapply good_bind; [by apply good_closureArg|]. intros fn _. eapply good_bind; [by apply good_group_elements|].
  intros groups Hg. apply good_ret, wf_done_array, Forall_map. eapply Forall_impl; [exact Hg|]. intros g [[Hk He] Hm].
  apply wf_constructed. repeat constructor; try done. by apply wf_array.
Qed.

Lemma good_concat args scope : wf_scope scope -> yields wf_step (builtinConcat ctx Evaluate args scope).
Proof.
  intros Hs. unfold builtinConcat. eapply good_bind; [by apply good_controlArg|]. intros v [Hv _].
  destruct v; try apply good_raise. eapply good_bind; [apply good_of_res|]. intros out Hout.
  apply good_ret, wf_done_array. apply wf_array in Hv. exact (concat_collections_wf _ _ _ _ Hv (Forall_nil_2 _) Hout).
Qed.

Lemma good_assoc args scope : wf_scope scope -> yields wf_step (builtinAssoc ctx Evaluate args scope).
Proof.
  intros Hs. unfold builtinAssoc. eapply good_bind; [by apply good_collection|]. intros arr Ha.
  eapply good_bind; [by apply good_controlArg|]. intros iv _. eapply good_bind; [apply good_of_res|]. intros i _.
  eapply good_bind; [by apply good_dataArg|]. intros v Hv. apply good_ret, wf_done_array. by apply Forall_insert.
Qed.

Lemma good_stored r : match r with Ok v => wf v | Err e => benign e end -> yields (fun _ => True) (stored_entity r).
Proof.
  intros Hr. unfold stored_entity, materialized_error. destruct r as [v|[ce|f]].
  - destruct (computeErrorFromValue v) eqn:E; [by apply good_entity|]. eapply good_bind; [apply good_materialize; [done|]|].
    { by apply error_from_value. } intros mv _. destruct mv; good; try done; by apply good_entity.
  - by apply good_entity.
  - apply good_fail. intros ->. by apply Hr.
Qed.

Lemma good_store args scope : wf_scope scope -> yields wf_step (builtinStore ctx Dispatch Evaluate args scope).
Proof.
  intros Hs. unfold builtinStore. destruct Dispatch as [dsp|] eqn:Ed; [rewrite <- Ed|apply good_raise].
  destruct (args !! "path"); [|apply good_raise]. destruct (args !! "value"); [|apply good_raise].
  eapply good_bind; [by apply good_operand|]. intros p _. destruct p; try apply good_raise.
  eapply good_bind; [apply good_resolve|]. intros t _. eapply good_bind; [by apply good_try, rec_good|]. intros r Hr.
  eapply good_bind; [by apply good_stored|]. intros e _. destruct (EncodeEntityBytes e); [|apply good_raise].
  eapply good_bind; [apply good_try, good_make_entity|]. intros [pe|] _; [|apply good_raise].
  eapply good_bind; [apply good_dispatch_plain|]. intros resp _. eapply good_bind; [apply good_response|]. intros res _. by apply good_ret.
Qed.

Lemma good_builtin d scope : wf_scope scope -> yields wf_step (evalBuiltin now ctx Dispatch Evaluate EvaluateName d scope).
Proof.
  intros Hs. destruct (good_aliases (ap_Args d) scope Hs) as (? & ? & ? & ? & ?). unfold evalBuiltin.
  repeat (match goal with |- yields _ (if ?b then _ else _) => destruct b end);
    auto using good_raise, good_map, good_filter, good_fold, good_range, good_groupBy, good_concat, good_assoc, good_store.
Qed.

(** *** Handlers *)

Lemma good_args l fieldTypes scope : wf_scope scope -> yields (fun _ => True) (resolve_args ctx Evaluate l fieldTypes scope).
Proof.
  intros Hs. induction l as [|[k h] l IH]; cbn [resolve_args]; [by apply good_ret|].
  eapply good_bind; [by apply good_operand|]. intros v [Hv He]. eapply good_bind; [by apply good_materialize|]. intros mv Hmv.
  eapply good_bind; [by apply good_encodeArg|]. intros enc _. eapply good_bind; [exact IH|]. intros rest _. by apply good_ret.
Qed.

Lemma good_resource d scope : wf_scope scope -> yields (fun _ => True) (apply_resource ctx Evaluate d scope).
Proof. intros Hs. unfold apply_resource. good; try done. eapply good_weaken; [apply good_of_res|done]. Qed.

(** The capability that overrides passes both checks in the world that is left. *)
Lemma good_override d resource scope :
  wf_scope scope ->
  Good D F (fun o w => forall cap, o = Some cap -> dualCheck now ctx (w_state w) cap (ap_Path d) (ap_Operation d) resource = Ok tt)
    (apply_override now ctx Evaluate d resource scope).
Proof.
  intros Hs. unfold apply_override. destruct (IsZero _); [by intros w Hw; split|].
  eapply good_bind_at; [by apply good_operand|]. intros v w Hw _. destruct v; try (by split).
  unfold good_at, bind_eval, read. destruct (dualCheck _ _ _ _ _ _ _) as [[]|ce] eqn:E; cbn; (split; [done|]); [|done].
  by intros cap [= <-].
Qed.

Lemma good_applyHandler d h scope :
  wf_scope scope -> yields wf_step (evalApplyHandler now ctx Dispatch Evaluate EvaluateName d h scope).
Proof.
  intros Hs. unfold evalApplyHandler. destruct (String.eqb _ _); [apply good_raise|]. destruct (IsBuiltinPath _).
  { destruct (_ || _); [apply good_raise|by apply good_builtin]. }
  destruct Dispatch as [dsp|] eqn:Ed; [|apply good_raise]. destruct (_ && _); [apply good_raise|].
  eapply good_bind; [apply good_read|]. intros ? _. eapply good_bind; [apply good_read|]. intros ? _.
  eapply good_bind; [by apply good_args|]. intros ? _. eapply good_bind; [apply good_make_entity|]. intros pe _.
  eapply good_bind; [by apply good_resource|]. intros resource _. eapply good_bind_at; [by apply good_override|].
  intros o w Hw Ho. cbn beta in Ho.
  assert (Hk : forall resp, yields wf_step (bind_eval (response_value ErrNotFound "handler dispatch failed: status %d" resp) (fun result =>
            bind_eval (wrapHandlerReturnSA4 result h) (fun v => ret (Done v))))) by (intros resp; good; done).
  rewrite <- Ed. pose proof (good_dispatch D w _ _ _ pe o Ho) as Hd. unfold good_at in Hd |- *. unfold bind_eval at 1.
  destruct (dispatch _ _ _ _ _ _ w) as [w1 [resp|e|]]; [|done..]. destruct Hd as [G _].
  specialize (Hk resp w1 ltac:(pose proof (grows_ops _ _ G); lia)). unfold good_at in Hk. destruct (bind_eval _ _ w1) as [w2 r].
  split; [by etrans; [|apply Hk]|apply Hk].
Qed.

Lemma good_inner ent scope : wf_scope scope -> yields wf_step (evaluateInner now ctx Dispatch Evaluate EvaluateName ent scope).
Proof.
  intros Hs. unfold evaluateInner. destruct (String.eqb _ _); [|by apply good_inline]. unfold evalApply.
  eapply good_bind; [apply good_decode|]. intros d _. destruct (negb _); [by apply good_applyHandler|].
  destruct (negb _); [by apply good_applyClosure|apply good_raise].
Qed.
End inner.

(** ** The trampoline *)

Section trampoline.
Context (D : Prop) (EvaluateName : Entity -> Scope -> @Eval CS L IX Value).
(** The evaluation of a name spends nothing of the caller's budget. *)
Hypothesis name_good : forall F ent scope, wf_scope scope -> yields D F (fun _ => True) (EvaluateName ent scope).

Lemma grows_leave w w' : grows w w' -> grows (leave w) (leave w').
Proof. intros [Hd Ho Hdeps Hcalls]. split; [cbn; lia|done..]. Qed.

Lemma good_enter F (run : Entity -> Scope -> Eval Value) ent scope :
  (forall w, w_Operations w <= F -> let '(w', r) := run ent scope w in
     grows (leave w) w' /\ match r with Ret v => wf v | Raise e => benign e | Diverge => D end) ->
  yields D F wf (enter run ent scope).
Proof.
  intros Hrun w Hw. unfold good_at, enter. destruct (w_Depth w <=? 0); [by split|].
  specialize (Hrun (with_budget w (w_Operations w) (w_Depth w - 1)) Hw). destruct (run _ _ _) as [w' r].
  destruct Hrun as [G Hr]. split; [|done]. etrans; [|exact G]. split; [cbn; lia|cbn; lia|exists []; by rewrite app_nil_r|exists []; by rewrite app_nil_r].
Qed.

Lemma trampoline_good f ent scope w :
  wf_scope scope -> w_Operations w <= Z.of_nat f ->
  let '(w', r) := trampoline now ctx Dispatch EvaluateName (S f) ent scope w in
  grows (leave w) w' /\ match r with Ret v => wf v | Raise e => benign e | Diverge => D end.
Proof.
  revert ent scope w. induction f as [|f IH]; intros ent scope w Hs Hw.
  { cbn. replace (w_Operations w - 1 <=? 0) with true by lia. cbn. split; [|done].
    split; [done|cbn; lia|exists []; by rewrite app_nil_r|exists []; by rewrite app_nil_r]. }
  set (w0 := with_budget w (w_Operations w - 1) (w_Depth w)).
  assert (G0 : grows (leave w) (leave w0)).
  { split; [done|cbn; lia|exists []; by rewrite app_nil_r|exists []; by rewrite app_nil_r]. }
  assert (Hrec : forall ent scope, wf_scope scope -> yields D (Z.of_nat f) wf (enter (trampoline now ctx Dispatch EvaluateName (S f)) ent scope)).
  { intros e sc Hsc. apply good_enter. intros w1 Hw1. by apply IH. }
  assert (Hw0 : w_Operations w0 <= Z.of_nat f) by (cbn; lia).
  pose proof (good_inner D (Z.of_nat f) _ _ Hrec (name_good _) ent scope Hs w0 Hw0) as Hi.
  remember (S f) as g eqn:Eg. cbn [trampoline]. fold w0. destruct (w_Operations w0 <=? 0); [by split|]. unfold good_at in Hi.
  destruct (evaluateInner _ _ _ _ _ _ _ w0) as [w1 [[v|e sc]|err|]]; destruct Hi as [G Hr].
  - split; [|done]. etrans; [exact G0|by apply grows_leave].
  - specialize (IH e sc w1 Hr ltac:(pose proof (grows_ops _ _ G); lia)). destruct (trampoline _ _ _ _ _ _ _ w1) as [w2 r].
    split; [|apply IH]. etrans; [exact G0|]. etrans; [by apply grows_leave|apply IH].
  - split; [|done]. etrans; [exact G0|by apply grows_leave].
  - split; [|done]. etrans; [exact G0|by apply grows_leave].
Qed.

Lemma EvaluateWith_good F ent scope : wf_scope scope -> yields D F wf (EvaluateWith now ctx Dispatch EvaluateName ent scope).
Proof.
  intros Hs w _. unfold EvaluateWith.
  apply (good_enter (Z.of_nat (Z.to_nat (w_Operations w)))); [|lia]. intros w1 Hw1. by apply trampoline_good.
Qed.
End trampoline.

Lemma own_budget_good (D : Prop) F run : (forall F, yields D F wf run) -> yields D F (fun _ => True) (own_budget run).
Proof.
  intros Hrun w Hw. specialize (Hrun 64 (with_budget w 64 16) ltac:(cbn; lia)). unfold good_at, own_budget in *.
  destruct (run _) as [w' r]. destruct Hrun as [G Hr]. split; [|by destruct r]. split; [done|cbn; lia|apply G|apply G].
Qed.

Lemma Evaluate_good F n ent scope : wf_scope scope -> yields True F wf (Evaluate now ctx Dispatch n ent scope).
Proof.
  revert F ent scope. induction n as [|n IH]; intros F ent scope Hs; cbn [Evaluate]; apply EvaluateWith_good; try done.
  intros F' e sc Hsc. apply own_budget_good. intros F''. by apply IH.
Qed.

(** ** What evaluation guarantees *)

(** C37: Evaluation terminates, by its budget.  Whatever the entities of the
    store, however expressions refer to each other, and whatever the dispatcher
    does, [Evaluate] returns a value or an error after finitely many steps,
    provided the evaluations of operator names that it starts return; it gives
    back every level of depth it took, and never hands back more operations than
    it was given. *)
Theorem Evaluate_returns (EvaluateName : Entity -> Scope -> @Eval CS L IX Value) ent scope w :
  wf_scope scope ->
  (forall F e s, wf_scope s -> yields False F (fun _ => True) (EvaluateName e s)) ->
  exists w' r, EvaluateWith now ctx Dispatch EvaluateName ent scope w = (w', r) /\ r <> Diverge
    /\ w_Depth w' = w_Depth w /\ w_Operations w' <= w_Operations w.
Proof.
  intros Hs Hn. pose proof (EvaluateWith_good False EvaluateName Hn (w_Operations w) ent scope Hs w ltac:(lia)) as Hg.
  unfold good_at in Hg. destruct (EvaluateWith _ _ _ _ _ _ _) as [w' r]. destruct Hg as [[Hd Ho _ _] Hr].
  exists w', r. split_and!; try done. by intros ->.
Qed.


(** An error never hides inside a value.  Evaluation never raises the
    internal fault of an error that reached materialization, and a value it
    returns that is not itself an error can be materialized, in any later state
    of the stores, without that fault. *)
Theorem Evaluate_no_hidden_error nesting ent scope w w' r :
  wf_scope scope -> Evaluate now ctx Dispatch nesting ent scope w = (w', r) ->
  match r with
  | Ret v => is_error v = false -> forall w1, snd (materialize (CS := CS) (L := L) (IX := IX) v w1) <> Raise (Faulted ErrorMaterialized)
  | Raise e => e <> Faulted ErrorMaterialized
  | Diverge => True
  end.
Proof.
  intros Hs He. pose proof (Evaluate_good (w_Operations w) nesting ent scope Hs w ltac:(lia)) as Hg.
  unfold good_at in Hg. rewrite He in Hg. destruct Hg as [_ Hr]. destruct r as [v|e|]; [|done|done].
  intros Hv w1. pose proof (good_materialize True (w_Operations w1) v Hr Hv w1 ltac:(lia)) as Hm. unfold good_at in Hm.
  destruct (materialize v w1) as [w2 r2]. cbn. intros ->. by destruct Hm.
Qed.
End sound.
