(* ===== verification/ComputeScope.v ===== *)
(** * Captured scopes and aliases

    A scope that a lambda captures is the scope its closure later runs in, and a
    builtin that is an alias of an expression evaluates as that expression. *)

From S2P Require Import Prelude GoStrings Errors Hash Entity PeerID Paths CapTypes Patterns Check Delegation Revoked Store Notifying Handlers TreeIndex Trie ComputeValues ComputeEval.

Open Scope Z_scope.

(** ** Captured values *)

Section values.
Context `{HashableCodec, ComputeCodec}.

(** The value is what its own encoding decodes to. *)
Definition survives (v : Value) : Prop := exists raw, EncodeAny v = Some raw /\ DecodeAny raw = Some v.

(** What the model relies on of the encoding of scopes: bindings whose values
    survive encoding are read back, each name once. *)
Class ScopeCodecLaws := {
  decode_encode_scope m raw :
    EncodeScope m = Some raw ->
    map_Forall (fun _ b => if String.eqb (sb_Kind b) ScopeBindingKindValue then survives (sb_Value b) else sb_Value b = VNil) m ->
    exists l, DecodeScope raw = Some l /\ NoDup (map fst l) /\ list_to_map l = m
}.

(** An entity under its own hash, or a value that survives encoding. *)
Definition capturable (v : Value) : Prop :=
  match v with
  | VEntity e => ContentHash e <> zero_hash
  | VConstructed _ _ => False
  | _ => survives v
  end.

Definition entities_of (scope : Scope) : list Entity :=
  omap (fun nv => match snd nv with VEntity e => Some e | _ => None end) (map_to_list scope).

Definition distinct_addresses (l : list Entity) : Prop :=
  forall e e', e ∈ l -> e' ∈ l -> ContentHash e = ContentHash e' -> e = e'.

(** The binding of a captured value. *)
Definition binding_of (v : Value) : ComputeScopeBinding :=
  match v with
  | VEntity e => {| sb_Kind := ScopeBindingKindEntity; sb_EntityHash := Some (ContentHash e); sb_Value := VNil |}
  | _ => {| sb_Kind := ScopeBindingKindValue; sb_EntityHash := None; sb_Value := v |}
  end.

Lemma elem_of_entities scope n e : scope !! n = Some (VEntity e) -> e ∈ entities_of scope.
Proof. intros Hl. apply list_elem_of_omap. exists (n, VEntity e). split; [by apply elem_of_map_to_list|done]. Qed.
End values.

Section scope.
Context {CS L IX : Type} `{ContentStoreLaws CS} `{LocationIndex L} `{CapabilityIndex IX} `{Base58, DataCodec, NodeCodec} `{!ComputeCodec, !ScopeCodecLaws, Fmt}.
Context {order : ScopeOrder}.
Abbreviation World := (@World CS L IX).
Implicit Types (w : World) (scope : Scope).

Definition keeps (e : Entity) w : Prop := entities (ts_Store (w_state w)) !! ContentHash e = Some e.

(** A put that succeeds files the entity, and keeps the others. *)
Lemma put_keeps e w w' :
  ContentHash e <> zero_hash -> put e w = (w', Ret tt) ->
  keeps e w' /\ forall e', keeps e' w -> (ContentHash e' = ContentHash e -> e' = e) -> keeps e' w'.
Proof.
  intros Hz. unfold put, keeps. pose proof (cs_put_spec (ts_Store (w_state w)) e) as Hp. destruct (cs_Put _ e) as [cs r].
  destruct r as [h|er]; [|by intros [=]]. intros [= <-]. cbn in *. destruct Hp as [Hh ->].
  apply put_hash_ok in Hh as (_ & _ & [?|Hh]); [done|]. subst h. assert (Hst : stamped e (ContentHash e) = e) by (by destruct e).
  rewrite Hst. split; [by rewrite lookup_insert_eq|]. intros e' Hk Hd. destruct (decide (ContentHash e' = ContentHash e)) as [He|Hne].
  - rewrite He, lookup_insert_eq. by rewrite Hd.
  - by rewrite lookup_insert_ne.
Qed.

Lemma build_binding v w w' b :
  capturable v -> buildScopeBinding v w = (w', Ret b) ->
  b = binding_of v
  /\ (forall e, v = VEntity e -> keeps e w')
  /\ (forall e', keeps e' w -> (forall e, v = VEntity e -> ContentHash e' = ContentHash e -> e' = e) -> keeps e' w').
Proof.
  intros Hc. unfold buildScopeBinding, bind_eval.
  destruct v as [| | | | | | | | | |e| | |]; cbn [ret]; try (by intros [= <- <-]); [|done].
  destruct (put e w) as [w1 [[]| |]] eqn:Hp; try (by intros [=]). intros [= <- <-].
  destruct (put_keeps e w w1 Hc Hp) as [Hk Ho]. split_and!; [done|by intros e' [= <-]|].
  intros e' He' Hd. apply Ho; [done|]. by apply Hd.
Qed.

Lemma capture_spec l w w' m :
  Forall (fun nv => capturable (snd nv)) l ->
  (forall n n' e e', (n, VEntity e) ∈ l -> (n', VEntity e') ∈ l -> ContentHash e = ContentHash e' -> e = e') ->
  capture_bindings l w = (w', Ret m) ->
  m = list_to_map (map (fun nv => (fst nv, binding_of (snd nv))) l)
  /\ (forall n e, (n, VEntity e) ∈ l -> keeps e w')
  /\ (forall e', keeps e' w -> (forall n e, (n, VEntity e) ∈ l -> ContentHash e' = ContentHash e -> e' = e) -> keeps e' w').
Proof.
  intros Hc. revert w m. induction Hc as [|[n v] l Hv Hl IH]; intros w m Hd; cbn [capture_bindings].
  { intros [= <- <-]. split_and!; [done|by intros ? ? ?%not_elem_of_nil|done]. }
  unfold bind_eval. destruct (buildScopeBinding v w) as [w1 [b| |]] eqn:Hb; try (by intros [=]).
  destruct (capture_bindings l w1) as [w2 [rest| |]] eqn:Hr; try (by intros [=]). intros [= -> <-].
  destruct (build_binding v w w1 b Hv Hb) as (-> & Hk & Ho).
  destruct (IH w1 rest) as (-> & Hkl & Hol).
  { intros n1 n2 e e' H1' H2'. apply (Hd n1 n2); by right. } { done. }
  split_and!; [done|..].
  - intros n' e [[= Hnn Hve]|Hin]%elem_of_cons; [|by eapply Hkl]. subst. apply Hol; [by apply Hk|].
    intros n2 e2 Hin. apply (Hd n n2); [left|by right].
  - intros e' He' Hne. apply Hol.
    + apply Ho; [done|]. intros e -> . by apply (Hne n); left.
    + intros n2 e2 Hin. apply (Hne n2). by right.
Qed.

(** What is read back for the binding of a captured value. *)
Lemma resolve_binding n v w :
  capturable v -> (forall e, v = VEntity e -> keeps e w) -> resolveScopeBinding n (binding_of v) w = (w, Ret v).
Proof.
  intros Hc Hk. unfold resolveScopeBinding. destruct v as [| | | | | | | | | |e| | |]; try done.
  cbn. unfold bind_eval, read. rewrite cs_get_spec. by rewrite Hk.
Qed.

Lemma load_spec scope w l :
  NoDup (map fst l) ->
  (forall n b, (n, b) ∈ l -> exists v, b = binding_of v /\ scope !! n = Some v) ->
  (forall n v, scope !! n = Some v -> capturable v /\ forall e, v = VEntity e -> keeps e w) ->
  load_bindings l w = (w, Ret (list_to_map (map (fun nb => (fst nb, default VNil (scope !! fst nb))) l))).
Proof.
  intros Hnd Hl Hs. induction l as [|[n b] l IH]; [done|]. inversion Hnd as [|? ? Hn Hnd']; subst.
  destruct (Hl n b) as (v & -> & Hv); [left|]. destruct (Hs n v Hv) as [Hc Hk].
  cbn [load_bindings]. unfold bind_eval. rewrite resolve_binding by done. rewrite IH by (try done; intros n' b' Hin; apply Hl; by right).
  cbn [map fst]. by rewrite Hv.
Qed.

Lemma make_entity_inv ty raw w w' e :
  make_entity ty raw w = (w', Ret e) -> exists d, raw = Some d /\ w' = w /\ Type_ e = ty /\ Data e = d.
Proof.
  unfold make_entity. destruct raw as [d|]; [|by intros [=]]. destruct (Ent.NewEntity _ _ _) as [e'|] eqn:He; [|by intros [=]].
  intros [= <- <-]. apply Ent.NewEntityFormat_ok in He as [Ht Hd]. by exists d.
Qed.

Lemma captured_bindings scope :
  list_to_map (map (fun nv => (fst nv, binding_of (snd nv))) (scope_range scope)) = binding_of <$> scope.
Proof.
  assert (Hnd : NoDup (map fst (scope_range scope))).
  { rewrite scope_range_perm. apply NoDup_fst_map_to_list. }
  apply map_eq. intros n. apply option_eq. intros b.
  rewrite <- elem_of_list_to_map by (by rewrite map_map). rewrite list_elem_of_fmap, lookup_fmap_Some. split.
  - intros ([n' v] & [= -> ->] & Hv). exists v. split; [done|]. rewrite scope_range_perm in Hv. by apply elem_of_map_to_list.
  - intros (v & <- & Hv). exists (n, v). split; [done|]. rewrite scope_range_perm. by apply elem_of_map_to_list.
Qed.

(** A closure runs in the scope it was made in.  When a scope whose
    constructed values have been materialized is captured into an entity, then
    loading that entity gives back the same bindings and changes nothing: every
    captured entity is still in the store, under its own hash, and every other
    value survives as it is encoded; provided none of the entities captured
    collide on their hash. *)
Theorem LoadScope_CaptureScope scope w w' ent :
  map_Forall (fun _ v => capturable v) scope -> ContentHash ent <> zero_hash ->
  distinct_addresses (ent :: entities_of scope) ->
  CaptureScope scope w = (w', Ret (Some ent)) -> LoadScope (ContentHash ent) w' = (w', Ret scope).
Proof.
  intros Hc Hz Hd. unfold CaptureScope. case_decide as Hne; [by intros [=]|]. unfold bind_eval at 1.
  destruct (capture_bindings (scope_range scope) w) as [w1 [m| |]] eqn:Hcap; try (by intros [=]).
  assert (Hin : forall n v, (n, v) ∈ scope_range scope <-> scope !! n = Some v).
  { intros n v. rewrite scope_range_perm. apply elem_of_map_to_list. }
  destruct (capture_spec (scope_range scope) w w1 m) as (Hm & Hk & _); [|..|done|].
  { apply Forall_forall. intros [n v] Hn%Hin. by apply (Hc n). }
  { intros n n' e e' Hn%Hin%elem_of_entities Hn'%Hin%elem_of_entities. apply Hd; by right. }
  intros Hput. unfold bind_eval in Hput. destruct (make_entity _ _ w1) as [w2 [e2| |]] eqn:Hmk; try done.
  destruct (put e2 w2) as [w3 [[]| |]] eqn:Hp; try done. injection Hput as <- <-.
  apply make_entity_inv in Hmk as (raw & Hraw & -> & _ & Hdata).
  destruct (put_keeps e2 w1 w3 Hz Hp) as [Hke Ho].
  assert (Hmb : m = binding_of <$> scope) by (by rewrite Hm, captured_bindings).
  destruct (decode_encode_scope m raw Hraw) as (l & Hdec & Hnd & Hl).
  { rewrite Hmb. apply map_Forall_fmap. intros n v Hv. apply Hc in Hv. by destruct v. }
  unfold LoadScope. unfold IsZero. rewrite bool_decide_false by done. unfold bind_eval, read. rewrite cs_get_spec, Hke, Hdata, Hdec.
  cbn [decode ret]. assert (Hlm : forall n b, (n, b) ∈ l <-> (binding_of <$> scope) !! n = Some b).
  { intros n b. rewrite <- Hmb, <- Hl. by apply elem_of_list_to_map. }
  rewrite (load_spec scope w3 l); [|done|..].
  - do 2 f_equal. apply map_eq. intros n. apply option_eq. intros v.
    rewrite <- elem_of_list_to_map by (by rewrite map_map). rewrite list_elem_of_fmap. split.
    + intros ([n' b] & [= -> ->] & Hb%Hlm). apply lookup_fmap_Some in Hb as (v & _ & Hv). cbn [fst]. rewrite Hv. f_equal. exact (eq_sym (f_equal (default VNil) Hv)).
    + intros Hv. exists (n, binding_of v). split; [exact (f_equal (fun o => (n, default VNil o)) (eq_sym Hv))|]. apply Hlm. by rewrite lookup_fmap, Hv.
  - intros n b Hb%Hlm. apply lookup_fmap_Some in Hb as (v & <- & Hv). by exists v.
  - intros n v Hv. split; [by apply (Hc n)|]. intros e ->. apply Ho; [by apply (Hk n), Hin|].
    apply Hd; [right; by eapply elem_of_entities|left].
Qed.
End scope.

(** ** Aliases *)

Section alias.
Context {CS L IX : Type} `{ContentStoreLaws CS} `{LocationIndex L} `{CapabilityIndex IX} `{Base58, DataCodec, NodeCodec, ComputeCodec, Fmt}.
Context {order : ScopeOrder} (now : Z) (ctx : EvalContext).
Abbreviation State := (TreeState CS L IX).
Variable Dispatch : option (State -> string -> string -> option ResourceTarget -> Entity -> option Entity -> State * option (Z * Entity)).
Abbreviation World := (@World CS L IX).
Implicit Types (w : World) (scope : Scope).

(** For the path of a builtin that is an alias: the argument that is read as a
    name, and the type and the payload of the expression. *)
Definition alias_of (d : ComputeApplyData) (text : string) : option (string * string * option (list byte)) :=
  let args := ap_Args d in
  let at_ (name : string) := String.eqb (ap_Path d) (builtinPrefix +:+ name) in
  let binary := {| bi_Op := text; bi_Left := arg args "left"; bi_Right := arg args "right" |} in
  if at_ "arithmetic" then Some ("op", TypeComputeArithmetic, EncodeArithmetic binary)
  else if at_ "compare" then Some ("op", TypeComputeCompare, EncodeCompare binary)
  else if at_ "field" then Some ("name", TypeComputeField, EncodeField {| fi_Name := text; fi_Entity := arg args "entity" |})
  else if at_ "construct" then
    if String.eqb text "" then None
    else Some ("entity_type", TypeComputeConstruct, EncodeConstruct {| co_EntityType := text; co_Fields := delete "entity_type" args |})
  else if at_ "logic" then Some ("op", TypeComputeLogic, EncodeLogic {| lo_Op := text; lo_Left := arg args "left"; lo_Right := args !! "right" |})
  else None.

Definition name_evaluator (nesting : nat) (ent : Entity) (scope : Scope) : @Eval CS L IX Value :=
  own_budget (Evaluate now ctx Dispatch nesting ent scope).

(** A literal costs one operation. *)
Lemma literal_evaluates EvaluateName lit scope w v :
  Type_ lit = TypeComputeLiteral -> DecodeLiteral (Data lit) = Some v -> 1 < w_Operations w -> 0 < w_Depth w ->
  EvaluateWith now ctx Dispatch EvaluateName lit scope w = (with_budget w (w_Operations w - 1) (w_Depth w), Ret v).
Proof.
  intros Ht Hd Ho Hw. unfold EvaluateWith, enter. replace (w_Depth w <=? 0) with false by lia.
  generalize (Z.to_nat (w_Operations w)). intros fuel. cbn [trampoline with_budget w_Operations w_Depth].
  replace (w_Operations w - 1 <=? 0) with false by lia. unfold evaluateInner, evaluate_inline. rewrite Ht.
  change (String.eqb TypeComputeLiteral TypeComputeApply) with false. rewrite String.eqb_refl. cbn iota.
  unfold evalLiteral, bind_eval. rewrite Hd. cbn. unfold leave, with_budget. cbn. by replace (w_Depth w - 1 + 1) with (w_Depth w) by lia.
Qed.

Lemma name_literal nesting lit scope w v :
  Type_ lit = TypeComputeLiteral -> DecodeLiteral (Data lit) = Some v -> name_evaluator nesting lit scope w = (w, Ret v).
Proof.
  intros Ht Hd. unfold name_evaluator, own_budget.
  assert (He : Evaluate now ctx Dispatch nesting lit scope (with_budget w 64 16) = (with_budget (with_budget w 64 16) 63 16, Ret v))
    by (destruct nesting; cbn [Evaluate]; exact (literal_evaluates _ lit scope (with_budget w 64 16) v Ht Hd eq_refl eq_refl)).
  rewrite He. by destruct w.
Qed.

Lemma name_of_literal nesting args key h lit scope w text :
  args !! key = Some h -> resolve ctx (w_state w) h = Some lit ->
  Type_ lit = TypeComputeLiteral -> DecodeLiteral (Data lit) = Some (VString text) ->
  mustStringArg ctx (name_evaluator nesting) args key scope w = (w, Ret text).
Proof.
  intros Ha Hr Ht Hd. unfold mustStringArg. rewrite Ha. unfold bind_eval, read, try_eval. rewrite Hr.
  by rewrite (name_literal _ _ _ _ _ Ht Hd).
Qed.

(** The alias evaluates the expression. *)
Lemma alias_inline Evaluate nesting d key ty raw h lit inl scope w text :
  ap_Operation d = "eval" -> alias_of d text = Some (key, ty, Some raw) ->
  ap_Args d !! key = Some h -> resolve ctx (w_state w) h = Some lit ->
  Type_ lit = TypeComputeLiteral -> DecodeLiteral (Data lit) = Some (VString text) ->
  Ent.NewEntity node_format ty raw = Ok inl ->
  evalBuiltin now ctx Dispatch Evaluate (name_evaluator nesting) d scope w = evaluate_inline now ctx Evaluate inl scope w.
Proof.
  intros Ho Ha Hk Hr Ht Hd He. pose proof (name_of_literal nesting (ap_Args d) key h lit scope w text Hk Hr Ht Hd) as Hn.
  unfold evalBuiltin. rewrite Ho. cbn [String.eqb Ascii.eqb Bool.eqb negb]. unfold alias_of in Ha.
  repeat case_match; try done; injection Ha as <- <- Hraw;
    unfold builtinArithmetic, builtinCompare, builtinField, builtinConstruct, builtinLogic, bind_eval, via_inline; rewrite Hn;
    try match goal with Ht : String.eqb text "" = false |- _ => rewrite Ht end;
    unfold bind_eval, try_eval, make_entity; rewrite Hraw, He; done.
Qed.

Lemma alias_type d text key ty raw : alias_of d text = Some (key, ty, raw) -> ty <> TypeComputeApply /\ IsBuiltinPath (ap_Path d) = true.
Proof.
  unfold alias_of, IsBuiltinPath.
  repeat (match goal with |- context [String.eqb (ap_Path d) ?p] => destruct (String.eqb_spec (ap_Path d) p) as [->|_] end;
    [|cbn iota]); intros Ha; repeat case_match; try done; injection Ha as _ <- _; done.
Qed.

(** The builtins that exist as expressions are those expressions.  An apply
    of one of the builtins arithmetic, compare, field, construct and logic, whose
    operator name is a literal, evaluates exactly as the inline expression with
    that name and the same operands: the same value or error, from the same reads
    and requests, and at the same cost in operations and depth. *)
Theorem alias_is_expression nesting ent inl d key ty raw h lit scope w text :
  Type_ ent = TypeComputeApply -> DecodeApply (Data ent) = Some d ->
  ap_Operation d = "eval" -> IsZero (ap_Capability d) = true -> IsZero (ap_Resource d) = true ->
  alias_of d text = Some (key, ty, Some raw) -> Ent.NewEntity node_format ty raw = Ok inl ->
  ap_Args d !! key = Some h -> resolve ctx (w_state w) h = Some lit ->
  Type_ lit = TypeComputeLiteral -> DecodeLiteral (Data lit) = Some (VString text) ->
  Evaluate now ctx Dispatch (S nesting) ent scope w = Evaluate now ctx Dispatch (S nesting) inl scope w.
Proof.
  intros Hty Hdec Hop Hcap Hres Ha He Hk Hr Hlt Hld. destruct (alias_type _ _ _ _ _ Ha) as [Hne Hpath].
  assert (Hi : forall Ev w', w_state w' = w_state w ->
    evaluateInner now ctx Dispatch Ev (name_evaluator nesting) ent scope w'
    = evaluateInner now ctx Dispatch Ev (name_evaluator nesting) inl scope w').
  { intros Ev w' Hw. unfold evaluateInner. destruct (Ent.NewEntityFormat_ok _ _ _ _ He) as [Hti _].
    rewrite Hty, String.eqb_refl, Hti. destruct (String.eqb_spec ty TypeComputeApply) as [|_]; [done|].
    unfold evalApply, bind_eval, decode. rewrite Hdec. cbn [ret].
    assert (Hne' : String.eqb (ap_Path d) "" = false) by (by destruct (ap_Path d)).
    rewrite Hne'. cbn [negb]. unfold evalApplyHandler. rewrite Hop, Hpath, Hcap, Hres. cbn [String.eqb Ascii.eqb Bool.eqb negb orb].
    eapply alias_inline; [done|exact Ha|exact Hk|by rewrite Hw|done|done|exact He]. }
  cbn [Evaluate]. change (fun e s => own_budget (Evaluate now ctx Dispatch nesting e s)) with (name_evaluator nesting).
  unfold EvaluateWith, enter. destruct (_ <=? 0); [done|]. cbn [trampoline]. destruct (_ <=? 0); [done|]. by rewrite Hi.
Qed.
End alias.
