(* ===== verification/ComputeHandler.v ===== *)
(** * The compute handler ([ext/compute/handler.go], [budget.go])

    An evaluation on request ([handleEval]) and the evaluation of a handler that
    is itself an expression ([EvaluateAtPath]): the budget from the request and
    the capability, the evaluation in the caller's or in the handler's authority,
    and the reply.  [hctx.Execute] is a parameter; what a conversion to [int]
    makes of a float outside its range is one too, as Go leaves it open. *)

From Stdlib Require Import SpecFloat.
From S2P Require Import Prelude GoStrings Errors Hash Entity PeerID Paths CapTypes Patterns Check Delegation Revoked Store Notifying Handlers TreeIndex Trie ComputeValues ComputeEval ComputeSound ComputeScope.

Open Scope Z_scope.

(** ** Budgets *)

Definition DefaultMaxOps : Z := 100000.
Definition DefaultMaxDepth : Z := 1024.

Section budget.
Context `{DataCodec, ComputeCodec}.
Variable float_out_of_range : spec_float -> Z.

Definition toIntValue (v : Value) : Z :=
  match v with
  | VUint n | VInt n => i64 n
  | VFloat f =>
      match float_trunc f with
      | Some t => if (- 2 ^ 63 <=? t) && (t <? 2 ^ 63) then t else i64 (float_out_of_range f)
      | None => i64 (float_out_of_range f)
      end
  | _ => 0
  end.

(** [None]: the caller asks for no limit. *)
Definition requestBudget (params : Entity) : option Z :=
  if (length (Data params) =? 0)%nat then None
  else match DecodeValueMap (Data params) with
  | None => None
  | Some m =>
      match field_of m "budget" with
      | None => None
      | Some v => let n := toIntValue v in if n <=? 0 then None else Some n
      end
  end.

Definition limit_of (m : list (string * Value)) (key : string) : Z :=
  match field_of m key with Some v => toIntValue v | None => 0 end.

Definition computeLimitsFrom (constraints : list (string * Value)) : Z * Z :=
  match field_of constraints "system/compute" ≫= toStringMap with
  | None => (0, 0)
  | Some computeMap => (limit_of computeMap "max_compute_operations", limit_of computeMap "max_compute_depth")
  end.

Definition computeConstraintsOfGrant (g : GrantEntry) : Z * Z :=
  if (length (Constraints g) =? 0)%nat then (0, 0)
  else match DecodeValueMap (Constraints g) with
  | None => (0, 0)
  | Some constraints => computeLimitsFrom constraints
  end.

(** The tighter of two limits, where zero is none. *)
Definition tighten (limit g : Z) : Z := if (0 <? g) && ((limit =? 0) || (g <? limit)) then g else limit.

Definition computeConstraintsOfToken (tokenEnt : Entity) : Z * Z :=
  match CapabilityTokenDataFromEntity tokenEnt with
  | Err _ => (0, 0)
  | Ok td =>
      foldl (fun acc g => let '(gOps, gDepth) := computeConstraintsOfGrant g in (tighten (fst acc) gOps, tighten (snd acc) gDepth))
        (0, 0) (Grants td)
  end.

(** A limit applies when it is positive and below what is left. *)
Definition lower (limit n : Z) : Z := if (0 <? limit) && (limit <? n) then limit else n.

Definition initBudget (hctx : HandlerContext) (matchingGrant : option GrantEntry) (params : Entity) : Z * Z :=
  let ops := match hc_Bounds hctx ≫= Budget with Some b => if b <? DefaultMaxOps then b else DefaultMaxOps | None => DefaultMaxOps end in
  let ops := match requestBudget params with Some n => if n <? ops then n else ops | None => ops end in
  let '(capOps, capDepth) :=
    match matchingGrant with
    | Some g => computeConstraintsOfGrant g
    | None => if IsZero (ContentHash (hc_CallerCapability hctx)) then (0, 0) else computeConstraintsOfToken (hc_CallerCapability hctx)
    end in
  (lower capOps ops, lower capDepth DefaultMaxDepth).

(** ** The budget is the least of the limits *)

Definition positive (n : Z) : list Z := if 0 <? n then [n] else [].

(** The limits that the capability states, those of each of its grants. *)
Definition capability_grants (hctx : HandlerContext) (matchingGrant : option GrantEntry) : list GrantEntry :=
  match matchingGrant with
  | Some g => [g]
  | None =>
      if IsZero (ContentHash (hc_CallerCapability hctx)) then []
      else match CapabilityTokenDataFromEntity (hc_CallerCapability hctx) with Ok td => Grants td | Err _ => [] end
  end.

Definition least (l : list Z) (n : Z) : Z := foldr Z.min n l.

Lemma least_app l l' n : least (l ++ l') n = least l (least l' n).
Proof. apply foldr_app. Qed.

Lemma least_min l n m : least l (Z.min n m) = Z.min (least l n) m.
Proof. induction l as [|x l IH]; cbn; [done|]. unfold least in IH. rewrite IH. lia. Qed.

(** A scan for the tightest limit, read as a limit, is the least of them all. *)
Lemma tighten_scan (f : GrantEntry -> Z) gs acc n :
  0 <= acc -> lower (foldl (fun a g => tighten a (f g)) acc gs) n = least (concat (map (fun g => positive (f g)) gs)) (lower acc n).
Proof.
  revert acc. induction gs as [|g gs IH]; intros acc Ha; cbn [foldl map concat]; [done|].
  rewrite IH by (unfold tighten; case_match; bool_prop; lia). rewrite least_app. unfold positive at 2. unfold tighten, lower.
  set (ls := concat _). destruct (Z.ltb_spec 0 (f g)); cbn [andb].
  - assert (He : least [f g] (least ls (if (0 <? acc) && (acc <? n) then acc else n)) = least ls (Z.min (if (0 <? acc) && (acc <? n) then acc else n) (f g))).
    { rewrite least_min. cbn. lia. }
    rewrite He. f_equal. destruct (Z.eqb_spec acc 0), (Z.ltb_spec (f g) acc), (Z.ltb_spec 0 acc); cbn [orb andb]; repeat case_match; lia.
  - done.
Qed.

Lemma scan_pair (gs : list GrantEntry) acc :
  foldl (fun acc g => let '(gOps, gDepth) := computeConstraintsOfGrant g in (tighten (fst acc) gOps, tighten (snd acc) gDepth)) acc gs
  = (foldl (fun a g => tighten a (fst (computeConstraintsOfGrant g))) (fst acc) gs,
     foldl (fun a g => tighten a (snd (computeConstraintsOfGrant g))) (snd acc) gs).
Proof.
  revert acc. induction gs as [|g gs IH]; intros [a b]; cbn [foldl]; [done|]. rewrite IH.
  destruct (computeConstraintsOfGrant g) as [x y]. done.
Qed.

Lemma lower_positive limit n : lower limit n = least (positive limit) n.
Proof. unfold lower, positive. destruct (Z.ltb_spec 0 limit); cbn; [|done]. case_match; lia. Qed.

(** An evaluation on request runs on the tightest budget that anyone set.
    The operations are the least of the peer's default, the budget in the bounds
    of the request, the budget that its parameters ask for and the positive
    operation limits among the constraints of the grant that matched, or of every
    grant of the caller's capability when none is known; the depth is the least
    of the default and the positive depth limits there.  A limit that is absent,
    malformed, or not positive changes nothing. *)
Theorem initBudget_least hctx matchingGrant params :
  let limits := fun f => concat (map (fun g => positive (f (computeConstraintsOfGrant g))) (capability_grants hctx matchingGrant)) in
  initBudget hctx matchingGrant params
  = (least (limits fst ++ option_list (requestBudget params) ++ option_list (hc_Bounds hctx ≫= Budget)) DefaultMaxOps,
     least (limits snd) DefaultMaxDepth).
Proof.
  cbn beta zeta. unfold initBudget.
  set (asked := option_list (requestBudget params) ++ option_list (hc_Bounds hctx ≫= Budget)).
  assert (Hops : match requestBudget params with
      | Some n => if n <? match hc_Bounds hctx ≫= Budget with Some b => if b <? DefaultMaxOps then b else DefaultMaxOps | None => DefaultMaxOps end then n
          else match hc_Bounds hctx ≫= Budget with Some b => if b <? DefaultMaxOps then b else DefaultMaxOps | None => DefaultMaxOps end
      | None => match hc_Bounds hctx ≫= Budget with Some b => if b <? DefaultMaxOps then b else DefaultMaxOps | None => DefaultMaxOps end
      end = least asked DefaultMaxOps).
  { subst asked. destruct (requestBudget params), (hc_Bounds hctx ≫= Budget); cbn; repeat case_match; lia. }
  rewrite Hops, least_app. fold asked. unfold capability_grants. destruct matchingGrant as [g|].
  - destruct (computeConstraintsOfGrant g) as [x y] eqn:Eg. cbn [map concat]. rewrite Eg, !app_nil_r, !lower_positive. done.
  - destruct (IsZero _); [done|]. unfold computeConstraintsOfToken.
    destruct (CapabilityTokenDataFromEntity _) as [td|]; [|done]. rewrite scan_pair. cbn [fst snd].
    rewrite !tighten_scan by lia. done.
Qed.
End budget.

(** ** Replies *)

(** A reply: an error with its status and code, or a result with status 200. *)
Inductive Reply :=
| ErrorReply (status : Z) (code : string)
| ResultReply (result : Entity).

Section handler.
Context {CS L IX : Type} `{ContentStoreLaws CS} `{LocationIndex L} `{CapabilityIndex IX} `{Base58, DataCodec, NodeCodec} `{!ComputeCodec, !ComputeCodecLaws, Fmt}.
Context {order : ScopeOrder} (float_out_of_range : spec_float -> Z) (now : Z) (nesting : nat).
Abbreviation State := (TreeState CS L IX).
Abbreviation World := (@World CS L IX).
Implicit Types (w : World).
(** [hctx.Execute] with a capability and a resource. *)
Variable Execute : State -> string -> string -> Entity -> Entity -> ResourceTarget -> State * option (Z * Entity).
Notation "'let*' x ':=' c 'in' k" := (bind_eval c (fun x => k)) (at level 10, x pattern, c at level 100, k at level 200).

Definition internal_error : @Eval CS L IX Reply := ret (ErrorReply 500 "internal_error").

(** Without a resource the request carries an empty one. *)
Definition DispatchExecute (cap : Entity) (st : State) (path op : string) (resource : option ResourceTarget) (params : Entity) (override : option Entity)
  : State * option (Z * Entity) :=
  Execute st path op params (match override with Some o => o | None => cap end)
    (match resource with Some r => r | None => {| Targets := []; rt_Exclude := [] |} end).

Definition evaluation (hctx : HandlerContext) (cap : Entity) (exprPath : string) : EvalContext :=
  {| ec_LocalPeerID := hc_LocalPeerID hctx; ec_Capability := cap; ec_Included := hc_Included hctx; ec_HasContentStoreAccess := false;
     ec_AuthorizedDataHashes := ∅; ec_SubgraphRoot := exprPath |}.

Definition world (st : State) (budget : Z * Z) : World :=
  {| w_state := st; w_Operations := fst budget; w_Depth := snd budget; w_deps := []; w_calls := [] |}.

Definition error_reply (ce : ComputeError) : @Eval CS L IX Reply :=
  let* r := try_eval (error_entity ce) in
  match r with Ok errEnt => ret (ResultReply errEnt) | Err _ => internal_error end.

(** The reply to the result of an evaluation. *)
Definition reply_to (wrap : Value -> Eval Entity) (r : res EvalError Value) : @Eval CS L IX Reply :=
  match r with
  | Err (Compute ce) => error_reply ce
  | Err (Faulted _) => internal_error
  | Ok result =>
      match computeErrorFromValue result with
      | Some ce => error_reply ce
      | None =>
          let* m := try_eval (materialize result) in
          match m with
          | Err _ => internal_error
          | Ok result =>
              let* e := try_eval (wrap result) in
              match e with Ok resultEnt => ret (ResultReply resultEnt) | Err _ => internal_error end
          end
      end
  end.

Definition wrapResult (expressionHash : Hash) (result : Value) : @Eval CS L IX Entity :=
  match result with
  | VEntity ent => ret ent
  | _ => make_entity TypeComputeResult (EncodeComputeResult result expressionHash)
  end.

Definition unwrapEntityNativeResult (outputType : string) (result : Value) : @Eval CS L IX Entity :=
  match result with
  | VEntity ent => ret ent
  | _ => make_entity (if String.eqb outputType "" then "primitive/any" else outputType) (EncodeAny result)
  end.

Definition lookupOperationOutputType (hctx : HandlerContext) (st : State) (operation : string) : string :=
  match interface_types st (hc_HandlerPattern hctx) operation with Some (_, o) => o | None => "" end.

Definition looksLikeExpressionPath (path : string) (hctx : HandlerContext) : bool :=
  negb (String.eqb path (hc_HandlerPattern hctx)
        || String.eqb path ("/" +:+ hc_LocalPeerID hctx +:+ "/" +:+ hc_HandlerPattern hctx)).

(** The expression at a path, or why there is none. *)
Definition expression_at (st : State) (exprPath : string) : res (Z * string) Entity :=
  match h ← Get (ts_Index st) exprPath; cs_Get (ts_Store st) h with
  | None => Err (404, ErrNotFound)
  | Some expression => if IsComputeExpression expression then Ok expression else Err (400, ErrInvalidExpression)
  end.

Definition handleEval (hctx : HandlerContext) (matchingGrant : option GrantEntry) (params : Entity) (st : State) : World * Outcome Reply :=
  let budget := initBudget float_out_of_range hctx matchingGrant params in
  let w := world st budget in
  match ResourceSubject hctx with
  | Err (status, code) => ret (ErrorReply status code) w
  | Ok exprPath =>
      if negb (looksLikeExpressionPath exprPath hctx) then ret (ErrorReply 400 "ambiguous_resource") w
      else match expression_at st exprPath with
      | Err (status, code) => ret (ErrorReply status code) w
      | Ok expression =>
          let cap := hc_CallerCapability hctx in
          (let* r := try_eval (Evaluate now (evaluation hctx cap exprPath) (Some (DispatchExecute cap)) nesting expression ∅) in
           reply_to (wrapResult (ContentHash expression)) r) w
      end
  end.

Definition native_scope (hctx : HandlerContext) (operation : string) (params : Entity) : Scope :=
  {["operation" := VString operation; "params" := VEntity params; "resource" := VResource (hc_Resource hctx);
    "caller_capability" := VEntity (hc_CallerCapability hctx)]}.

Definition native_budget (grant : Entity) : Z * Z :=
  let '(capOps, capDepth) := computeConstraintsOfToken float_out_of_range grant in (lower capOps DefaultMaxOps, lower capDepth DefaultMaxDepth).

Definition EvaluateAtPath (hctx : HandlerContext) (exprPath operation : string) (params : Entity) (st : State) : World * Outcome Reply :=
  let grant := hc_HandlerGrant hctx in
  let w := world st (native_budget grant) in
  if IsZero (ContentHash grant) then ret (ErrorReply 403 ErrPermissionDenied) w
  else match expression_at st exprPath with
  | Err (status, code) => ret (ErrorReply status code) w
  | Ok expression =>
      (let* r := try_eval (Evaluate now (evaluation hctx grant exprPath) (Some (DispatchExecute grant)) nesting expression
                             (native_scope hctx operation params)) in
       reply_to (fun result =>
         let* outputType := read (fun st => lookupOperationOutputType hctx st operation) in
         unwrapEntityNativeResult outputType result) r) w
  end.

(** ** Errors of an evaluation in replies *)

Definition fails {A} (m : @Eval CS L IX A) w : Prop := exists e, snd (m w) = Raise e.

(** The reply to an error: the error as an entity, if there is one. *)
Definition answers_error (ce : ComputeError) w (r : Reply) : Prop :=
  match r with
  | ResultReply x => Type_ x = TypeComputeError /\ EncodeComputeError ce = Some (Data x)
  | ErrorReply status code => status = 500 /\ code = "internal_error" /\ fails (error_entity ce) w
  end.

(** The reply to a value [v] that is not an error: it, materialized and wrapped. *)
Definition answers_value (h : Hash) (v : Value) w w' (r : Reply) : Prop :=
  match r with
  | ResultReply x => Type_ x <> TypeComputeError \/ exists fields, v = VConstructed TypeComputeError fields
  | ErrorReply status code =>
      status = 500 /\ code = "internal_error"
      /\ (fails (materialize v) w \/ exists v', materialize v w = (w', Ret v') /\ fails (wrapResult h v') w')
  end.

Lemma make_entity_outcome ty raw w :
  (exists x, make_entity ty raw w = (w, Ret x) /\ Type_ x = ty /\ raw = Some (Data x)) \/ exists e, make_entity ty raw w = (w, Raise e).
Proof.
  destruct (make_entity ty raw w) as [w' [x|e|]] eqn:Hm.
  - left. exists x. apply make_entity_inv in Hm as (d & -> & -> & <- & <-). done.
  - right. exists e. unfold make_entity in Hm. repeat case_match; try done; by injection Hm as <- <-.
  - unfold make_entity in Hm. by repeat case_match.
Qed.

Lemma error_reply_spec ce w : exists r, error_reply ce w = (w, Ret r) /\ answers_error ce w r.
Proof.
  unfold error_reply, bind_eval, try_eval, answers_error, fails. unfold error_entity at 1.
  destruct (make_entity_outcome TypeComputeError (EncodeComputeError ce) w) as [(x & Hm & Ht & Hd)|[e Hm]]; rewrite Hm; eexists; (split; [done|]).
  - by split.
  - split_and!; [done..|]. exists e. unfold error_entity. by rewrite Hm.
Qed.

Lemma materialized_entity v w w' e :
  is_error v = false -> materialize v w = (w', Ret (VEntity e)) ->
  Type_ e <> TypeComputeError \/ exists fields, v = VConstructed TypeComputeError fields.
Proof.
  destruct v as [| | | | | | |l| | |x|ty fields| |]; cbn [materialize is_error]; try (by intros _ [=]).
  - intros _. unfold bind_eval. match goal with |- context [?f l w] => destruct (f l w) as [? []] end; by intros [=].
  - intros Hx. rewrite Hx. intros [= _ <-]. left. by apply String.eqb_neq.
  - intros _. unfold bind_eval. match goal with |- context [?f fields w] => destruct (f fields w) as [w1 [data| |]] end; try (by intros [=]).
    destruct (make_entity ty _ w1) as [w2 [x| |]] eqn:Hm; try (by intros [=]). destruct (put x w2) as [w3 []]; try (by intros [=]).
    intros [= _ <-]. apply make_entity_inv in Hm as (_ & _ & _ & <- & _).
    destruct (decide (Type_ x = TypeComputeError)) as [->|]; [right; by eexists|by left].
Qed.

Lemma wrap_outcome h v w :
  (exists x, wrapResult h v w = (w, Ret x) /\ (Type_ x <> TypeComputeError \/ v = VEntity x)) \/ exists e, wrapResult h v w = (w, Raise e).
Proof.
  assert (Hother : forall raw,
    (exists x, make_entity TypeComputeResult raw w = (w, Ret x) /\ (Type_ x <> TypeComputeError \/ v = VEntity x))
    \/ exists e, make_entity TypeComputeResult raw w = (w, Raise e)).
  { intros raw. destruct (make_entity_outcome TypeComputeResult raw w) as [(x & Hm & Ht & _)|[e Hm]]; [left|right; by exists e].
    exists x. split; [done|left; by rewrite Ht]. }
  destruct v as [| | | | | | | | | |e| | |]; try exact (Hother _). left. exists e. split; [done|by right].
Qed.

Lemma value_reply (ctx : EvalContext) h v w :
  wf v -> is_error v = false -> exists w' r, reply_to (wrapResult h) (Ok v) w = (w', Ret r) /\ answers_value h v w w' r.
Proof.
  intros Hw Hv. unfold reply_to, answers_value, fails. apply error_from_value in Hv as Hc. rewrite Hc. unfold bind_eval, try_eval.
  pose proof (good_materialize now ctx False (w_Operations w) v Hw Hv w ltac:(lia)) as Hg. unfold good_at in Hg.
  destruct (materialize v w) as [w1 [m|e|]] eqn:Hm; [| |by destruct Hg].
  - destruct (wrap_outcome h m w1) as [(x & Hx & Ht)|[e Hx]]; rewrite Hx; eexists _, _; (split; [done|]).
    + destruct Ht as [Ht | ->]; [by left|]. by eapply materialized_entity.
    + split_and!; [done..|]. right. exists m. split; [done|]. exists e. by rewrite Hx.
  - eexists _, _. split; [done|]. split_and!; [done..|]. left. by exists e.
Qed.

(** C38: A failed computation is an answer, not a failed request.  Once a request
    has named an expression, the reply to a computation that ends in an error,
    whether raised or returned as its value, has status 200 and carries that
    error as an entity of type compute/error; the reply to any other value
    carries an entity that is not a compute/error, unless the expression built
    one with construct.  Nothing but an encoding, a put or a dispatch that failed
    makes a reply an internal error, and no reply has a status of the 400s. *)
Theorem eval_error_is_answer hctx matchingGrant params st exprPath expression w1 r :
  ResourceSubject hctx = Ok exprPath -> looksLikeExpressionPath exprPath hctx = true ->
  expression_at st exprPath = Ok expression ->
  Evaluate now (evaluation hctx (hc_CallerCapability hctx) exprPath) (Some (DispatchExecute (hc_CallerCapability hctx))) nesting expression ∅
    (world st (initBudget float_out_of_range hctx matchingGrant params)) = (w1, r) ->
  match r with
  | Diverge => handleEval hctx matchingGrant params st = (w1, Diverge)
  | Raise (Faulted f) => f <> ErrorMaterialized /\ handleEval hctx matchingGrant params st = (w1, Ret (ErrorReply 500 "internal_error"))
  | Raise (Compute ce) => exists reply, handleEval hctx matchingGrant params st = (w1, Ret reply) /\ answers_error ce w1 reply
  | Ret v =>
      exists w2 reply, handleEval hctx matchingGrant params st = (w2, Ret reply)
      /\ match computeErrorFromValue v with
         | Some ce => answers_error ce w1 reply
         | None => answers_value (ContentHash expression) v w1 w2 reply
         end
  end.
Proof.
  intros Hs Hl He Hev.
  assert (Hh : handleEval hctx matchingGrant params st
    = match r with
      | Ret v => reply_to (wrapResult (ContentHash expression)) (Ok v) w1
      | Raise e => reply_to (wrapResult (ContentHash expression)) (Err e) w1
      | Diverge => (w1, Diverge)
      end).
  { unfold handleEval. rewrite Hs, Hl, He. cbn [negb]. unfold bind_eval at 1, try_eval at 1. rewrite Hev. by destruct r. }
  rewrite Hh. clear Hh.
  pose proof (Evaluate_good now (evaluation hctx (hc_CallerCapability hctx) exprPath) (Some (DispatchExecute (hc_CallerCapability hctx)))
    (fst (initBudget float_out_of_range hctx matchingGrant params)) nesting expression ∅ wf_scope_empty
    (world st (initBudget float_out_of_range hctx matchingGrant params)) (Z.le_refl _)) as Hg.
  unfold good_at in Hg. rewrite Hev in Hg. destruct Hg as [_ Hr]. destruct r as [v|[ce|f]|]; [| |split; [by intros ->; apply Hr|reflexivity]|reflexivity].
  - destruct (computeErrorFromValue v) as [ce|] eqn:Hc.
    + cbn [reply_to]. rewrite Hc. destruct (error_reply_spec ce w1) as (reply & -> & Hreply). by exists w1, reply.
    + apply error_from_value in Hc as Hv. by apply (value_reply (evaluation hctx (hc_CallerCapability hctx) exprPath)).
  - apply error_reply_spec.
Qed.
End handler.
