(* ===== verification/ComputeSample.v ===== *)
(** * Expressions at work

    A concrete encoding of expressions over the in-memory stores: the theorems on
    small programs, and programs on which the evaluator does not do what its
    comments say. *)

From Stdlib Require Import Ascii SpecFloat.
From S2P Require Import Prelude GoStrings Sha2 Errors Hash Entity PeerID Paths CapTypes Patterns Check Delegation Chain Revoked Store Notifying Handlers TreeIndex Trie TrieSample ComputeValues ComputeEval ComputeSound ComputeScope ComputeHandler.

Open Scope Z_scope.

(** ** A program that names its own operator *)

(** The operator name of an alias is evaluated on a budget of its own, so an
    alias whose name is read from the path that the alias itself is at starts an
    evaluation inside each evaluation, without end. *)
Section self_naming.
Context {CS L IX : Type} `{ContentStoreLaws CS} `{LocationIndex L} `{CapabilityIndex IX} `{Base58, DataCodec, NodeCodec, ComputeCodec, Fmt}.
Context {order : ScopeOrder} (now : Z) (ctx : EvalContext).
Abbreviation State := (TreeState CS L IX).
Variable Dispatch : option (State -> string -> string -> option ResourceTarget -> Entity -> option Entity -> State * option (Z * Entity)).
Variables (st : State) (self name : Entity) (d : ComputeApplyData) (at_ : ComputeLookupTreeData) (h h' : Hash).
Hypothesis (self_apply : Type_ self = TypeComputeApply) (self_data : DecodeApply (Data self) = Some d).
Hypothesis (self_path : ap_Path d = builtinPrefix +:+ "arithmetic") (self_operation : ap_Operation d = "eval").
Hypothesis (self_plain : IsZero (ap_Capability d) = true /\ IsZero (ap_Resource d) = true).
Hypothesis (self_name : ap_Args d !! "op" = Some h) (name_found : resolve ctx st h = Some name).
Hypothesis (name_lookup : Type_ name = TypeComputeLookupTree) (name_data : DecodeLookupTree (Data name) = Some at_).
Hypothesis (readable : read_refusal now ctx st (lookup_path ctx at_) = None).
Hypothesis (self_at : Get (ts_Index st) (lookup_path ctx at_) = Some h') (self_stored : cs_Get (ts_Store st) h' = Some self).

Definition names (n : nat) : Entity -> Scope -> @Eval CS L IX Value :=
  match n with O => fun _ _ => diverge | S n => name_evaluator now ctx Dispatch n end.

Lemma self_step fuel n w :
  w_state w = st -> 1 < w_Operations w ->
  (forall w', w_state w' = st -> snd (names n name ∅ w') = Diverge) ->
  snd (trampoline now ctx Dispatch (names n) (S fuel) self ∅ w) = Diverge.
Proof.
  intros Hst Ho Hn. destruct self_plain as [Hcap Hres]. cbn [trampoline]. replace (_ <=? 0) with false by (cbn; lia).
  unfold evaluateInner. rewrite self_apply, String.eqb_refl. unfold evalApply, bind_eval, decode. rewrite self_data. cbn [ret].
  rewrite self_path. change (String.eqb (builtinPrefix +:+ "arithmetic") "") with false. cbn [negb].
  unfold evalApplyHandler. rewrite self_operation, self_path, Hcap, Hres.
  change (IsBuiltinPath (builtinPrefix +:+ "arithmetic")) with true. cbn [String.eqb negb orb].
  unfold evalBuiltin. rewrite self_operation, self_path. cbn [String.eqb negb Ascii.eqb Bool.eqb].
  rewrite String.eqb_refl. unfold builtinArithmetic, mustStringArg, bind_eval, read, try_eval. rewrite self_name. cbn [with_budget w_state].
  rewrite Hst, name_found.
  match goal with |- context [names n name ∅ ?u] => specialize (Hn u Hst); destruct (names n name ∅ u) as [w1 r] end.
  cbn in Hn. by subst r.
Qed.

Lemma name_step fuel n w :
  w_state w = st -> 2 < w_Operations w ->
  (forall w', w_state w' = st -> snd (names n name ∅ w') = Diverge) ->
  snd (trampoline now ctx Dispatch (names n) (S (S fuel)) name ∅ w) = Diverge.
Proof.
  intros Hst Ho Hn. remember (S fuel) as f eqn:Ef. cbn [trampoline]. replace (_ <=? 0) with false by (cbn; lia).
  unfold evaluateInner. rewrite name_lookup. change (String.eqb TypeComputeLookupTree TypeComputeApply) with false.
  unfold evaluate_inline. rewrite name_lookup.
  change (String.eqb TypeComputeLookupTree TypeComputeLiteral) with false. change (String.eqb TypeComputeLookupTree TypeComputeLookupScope) with false.
  rewrite String.eqb_refl. unfold evalLookupTree, bind_eval, decode.
  rewrite name_data. unfold read. cbn [ret with_budget w_state]. rewrite Hst, readable.
  unfold registerDep. cbn [w_state with_budget]. rewrite Hst, self_at. cbn [mbind option_bind]. rewrite self_stored.
  assert (Hs : IsComputeExpression self = true) by (unfold IsComputeExpression; by rewrite self_apply).
  rewrite Hs. subst f. apply self_step; [done|cbn; lia|done].
Qed.

(** Whatever the bound on nested evaluations, it is reached: the evaluator never
    returns, whatever its budget. *)
Theorem self_naming_diverges n w :
  w_state w = st -> 1 < w_Operations w -> 0 < w_Depth w -> snd (Evaluate now ctx Dispatch n self ∅ w) = Diverge.
Proof.
  intros Hst Ho Hd.
  assert (Hn : forall n w', w_state w' = st -> snd (names n name ∅ w') = Diverge).
  { intros m. induction m as [|m IH]; intros w' Hw'; [done|]. cbn [names]. unfold name_evaluator, own_budget.
    assert (He : snd (Evaluate now ctx Dispatch m name ∅ (with_budget w' 64 16)) = Diverge).
    { assert (Hs : snd (trampoline now ctx Dispatch (names m) (S (S 63)) name ∅ (with_budget w' 64 15)) = Diverge)
        by (apply name_step; [done|cbn; lia|done]).
      destruct m; exact Hs. }
    destruct (Evaluate _ _ _ m name ∅ _) as [w2 r]. done. }
  assert (Hs : snd (EvaluateWith now ctx Dispatch (names n) self ∅ w) = Diverge).
  { unfold EvaluateWith, enter. replace (w_Depth w <=? 0) with false by lia. by apply self_step; [| |apply Hn]. }
  destruct n; exact Hs.
Qed.
End self_naming.

(** ** An encoding *)

Module ComputeSample.
#[local] Existing Instances nibble58 toy_hashable default_order Sample.codec node_codec memory_content_store memory_content_store_laws.

Definition enc_text (s : string) : list byte := Code.enc_list Code.enc_byte (str_bytes s).
Definition dec_text (d : list byte) : option (string * list byte) := t ← Code.dec_seq Code.dec_byte d; Some (bytes_str (fst t), snd t).

Definition dec_literal (d : list byte) : option Value :=
  match d with
  | Byte.x01 :: n :: [] => Some (VUint (Z.of_N (Byte.to_N n)))
  | Byte.x02 :: s => Some (VString (bytes_str s))
  | _ => None
  end.

Definition enc_binary (d : ComputeBinaryData) : list byte := enc_text (bi_Op d) ++ Code.enc_hash (bi_Left d) ++ Code.enc_hash (bi_Right d).
Definition dec_binary (d : list byte) : option ComputeBinaryData :=
  o ← dec_text d; l ← Code.dec_hash (snd o); r ← Code.dec_hash (snd l);
  Some {| bi_Op := fst o; bi_Left := fst l; bi_Right := fst r |}.

(** An apply of a builtin with an operator and two operands. *)
Definition enc_apply (path : string) (op l r : Hash) : list byte := enc_text path ++ Code.enc_hash op ++ Code.enc_hash l ++ Code.enc_hash r.
Definition dec_apply (d : list byte) : option ComputeApplyData :=
  p ← dec_text d; o ← Code.dec_hash (snd p); l ← Code.dec_hash (snd o); r ← Code.dec_hash (snd l);
  Some {| ap_Path := fst p; ap_Operation := "eval"; ap_Resource := zero_hash; ap_Fn := zero_hash;
          ap_Args := {["op" := fst o; "left" := fst l; "right" := fst r]}; ap_Capability := zero_hash |}.

(** A scope of one entity. *)
Definition the_binding (h : Hash) : ComputeScopeBinding := {| sb_Kind := ScopeBindingKindEntity; sb_EntityHash := Some h; sb_Value := VNil |}.
Definition enc_scope (m : gmap string ComputeScopeBinding) : option (list byte) :=
  match map_to_list m with
  | [(n, {| sb_Kind := k; sb_EntityHash := Some h; sb_Value := _ |})] =>
      if decide (k = ScopeBindingKindEntity) then Some (enc_text n ++ Code.enc_hash h) else None
  | _ => None
  end.
Definition dec_scope (d : list byte) : option (list (string * ComputeScopeBinding)) :=
  n ← dec_text d; h ← Code.dec_hash (snd n); Some [(fst n, the_binding (fst h))].

#[local] Instance compute_codec : ComputeCodec := {|
  DecodeLiteral := dec_literal; DecodeLookupScope d := Some (bytes_str d);
  DecodeLookupTree d := Some {| lt_Path := bytes_str d; lt_Relative := false |};
  DecodeLookupHash d := fst <$> Code.dec_hash d; DecodeApply := dec_apply; DecodeIf d := None; DecodeLet d := None; DecodeLambda d := None;
  DecodeArithmetic := dec_binary; DecodeCompare := dec_binary; DecodeLogic d := None; DecodeField d := None; DecodeConstruct d := None;
  DecodeIndex d := None; DecodeLength d := None; DecodeNumericCast d := None; DecodeClosure d := None; DecodeScope := dec_scope;
  DecodeComputeError d := Some (newComputeError (bytes_str d) ""); DecodeValueMap d := None; DecodeAny d := None; DecodeTypeFields d := None;
  DecodeInterface d := None; DecodeResourceTarget d := None;
  EncodeArithmetic d := Some (enc_binary d); EncodeCompare d := Some (enc_binary d); EncodeLogic d := None; EncodeField d := None;
  EncodeConstruct d := None; EncodeClosure d := None; EncodeScope := enc_scope; EncodeComputeResult v h := Some [Byte.x00];
  EncodeComputeError e := Some (str_bytes (ce_Code e)); EncodeErrorCode c := Some (str_bytes c); EncodeAny v := None;
  EncodeValueMap l := None; EncodeEntityBytes e := None; EncodePutEntity d := None |}.

#[local] Instance compute_codec_laws : ComputeCodecLaws.
Proof.
  split; try done.
  - intros d v Hd. cbn in Hd. unfold dec_literal in Hd. repeat case_match; try done; by injection Hd as <-.
  - intros d l Hd. cbn in Hd. unfold dec_scope in Hd. apply bind_Some in Hd as (n & _ & Hd). apply bind_Some in Hd as (h & _ & Hd).
    injection Hd as <-. by repeat constructor.
Qed.

Lemma dec_enc_text s rest : dec_text (enc_text s ++ rest) = Some (s, rest).
Proof.
  unfold dec_text, enc_text. rewrite Code.dec_enc_seq by apply Code.dec_enc_byte. cbn [mbind option_bind fst snd].
  unfold bytes_str, str_bytes. by rewrite String.string_of_list_byte_of_string.
Qed.

#[local] Instance scope_codec_laws : ScopeCodecLaws.
Proof.
  split. intros m raw He Hm. cbn in He. unfold enc_scope in He.
  destruct (map_to_list m) as [|[n b] [|? ?]] eqn:El; [done| |by repeat case_match].
  assert (Hmb : m = {[n := b]}) by (by rewrite <- (list_to_map_to_list m), El). destruct b as [k [h|] v]; [|done].
  case_decide as Hk; [|done]. injection He as <-. cbn [DecodeScope compute_codec]. unfold dec_scope. rewrite dec_enc_text.
  cbn [mbind option_bind fst snd]. rewrite <- (app_nil_r (Code.enc_hash h)), Code.dec_enc_hash. cbn [fst].
  eexists. split; [done|]. split; [repeat constructor; by intros ?%not_elem_of_nil|].
  assert (Hv : v = VNil).
  { specialize (Hm n {| sb_Kind := k; sb_EntityHash := Some h; sb_Value := v |}). cbn in Hm. subst k. apply Hm. rewrite Hmb. apply lookup_singleton_eq. }
  rewrite Hmb. unfold the_binding. by subst.
Qed.

#[local] Instance scope_order : ScopeOrder := {| scope_range m := map_to_list m; scope_range_perm _ := reflexivity _ |}.
#[local] Instance fmt : Fmt := fun format args => format.

(** ** Programs *)

Definition literal (n : byte) : Entity := toy_entity TypeComputeLiteral [Byte.x01; n].
Definition text (s : string) : Entity := toy_entity TypeComputeLiteral (Byte.x02 :: str_bytes s).
Definition lookup (path : string) : Entity := toy_entity TypeComputeLookupTree (str_bytes path).
Definition arithmetic (op : string) (l r : Entity) : Entity :=
  toy_entity TypeComputeArithmetic (enc_binary {| bi_Op := op; bi_Left := ContentHash l; bi_Right := ContentHash r |}).
Definition builtin (name : string) (op l r : Entity) : Entity :=
  toy_entity TypeComputeApply (enc_apply (builtinPrefix +:+ name) (ContentHash op) (ContentHash l) (ContentHash r)).

Definition State : Type := TreeState MemoryContentStore MemoryLocationIndex MemoryCapabilityIndex.
Definition place (rel : string) : string := "/" +:+ Sample.local +:+ "/" +:+ rel.
Definition file (l : list Entity) : MemoryContentStore := list_to_map (map (fun e => (ContentHash e, e)) l).
Definition stores (l : list Entity) (tree : list (string * Entity)) : State :=
  {| ts_Store := file ([Sample.peerA; Sample.peerB] ++ l ++ map snd tree);
     ts_Index := list_to_map (map (fun ne => (place (fst ne), ContentHash (snd ne))) tree); ts_CapIndex := None |}.

Definition two : Entity := literal Byte.x02.
Definition three : Entity := literal Byte.x03.
Definition zero : Entity := literal Byte.x00.
Definition add_op : Entity := text "add".
(** What is at a path plus three. *)
Definition program : Entity := arithmetic "add" (lookup "data/two") three.
Definition failing : Entity := arithmetic "div" two zero.
Definition alias : Entity := builtin "arithmetic" add_op two three.
Definition st : State :=
  stores [two; three; zero; add_op; lookup "data/two"] [("data/two", two); ("data/failing", failing); ("data/alias", alias)].

(** Under a capability for [data/*]. *)
Definition ctx : EvalContext :=
  {| ec_LocalPeerID := Sample.local; ec_Capability := Sample.rootE; ec_Included := ∅; ec_HasContentStoreAccess := false;
     ec_AuthorizedDataHashes := ∅; ec_SubgraphRoot := "" |}.
Definition now : Z := 50.
Definition Dispatch : option (State -> string -> string -> option ResourceTarget -> Entity -> option Entity -> State * option (Z * Entity)) := None.
Definition start : @World MemoryContentStore MemoryLocationIndex MemoryCapabilityIndex :=
  {| w_state := st; w_Operations := 20; w_Depth := 5; w_deps := []; w_calls := [] |}.
Definition run (e : Entity) := Evaluate now ctx Dispatch 2 e ∅ start.

Lemma program_runs :
  snd (run program) = Ret (VInt 5) /\ map d_path (w_deps (fst (run program))) = [place "data/two"] /\ w_Operations (fst (run program)) = 16.
Proof. vm_compute. by split_and!. Qed.

(** ** The theorems at work *)

Lemma integer_arithmetic_spec_witness :
  applyArithmeticWithIntent "add" (VInt (2 ^ 63 - 1)) (VUint 1) false = Ok (VInt (- 2 ^ 63)).
Proof.
  destruct (integer_arithmetic_spec (VInt (2 ^ 63 - 1)) (VUint 1) (2 ^ 63 - 1) 1) as (Ha & _);
    [cbn; lia|cbn; lia|vm_compute; reflexivity|vm_compute; reflexivity|]. destruct (Ha false) as (-> & _). vm_compute. reflexivity.
Defined.

(** Operator names that are evaluated once, and not inside each other. *)
Definition flat_names (e : Entity) (s : Scope) := own_budget (EvaluateWith now ctx Dispatch (fun _ _ => ret VNil) e s).

Lemma Evaluate_returns_witness :
  exists w' r, EvaluateWith now ctx Dispatch flat_names alias ∅ start = (w', r) /\ r <> Diverge
    /\ w_Depth w' = w_Depth start /\ w_Operations w' <= w_Operations start.
Proof.
  apply (Evaluate_returns now ctx Dispatch flat_names alias ∅ start); [exact wf_scope_empty|].
  intros F e s Hs. apply own_budget_good. intros F'. apply EvaluateWith_good; [|exact Hs]. intros F'' e' s' Hs'. by apply good_ret.
Defined.


Lemma Evaluate_no_hidden_error_witness :
  snd (run failing) <> Raise (Faulted ErrorMaterialized).
Proof.
  pose proof (Evaluate_no_hidden_error now ctx Dispatch 2 failing ∅ start (fst (run failing)) (snd (run failing)) wf_scope_empty
    (surjective_pairing _)) as Hn.
  destruct (snd (run failing)) as [v|e|]; [discriminate|intros [= ->]; by apply Hn|discriminate].
Defined.

Definition scope : Scope := {["x" := VEntity two]}.
Definition captured : Entity := toy_entity TypeComputeScope (enc_text "x" ++ Code.enc_hash (ContentHash two)).

Lemma LoadScope_CaptureScope_witness :
  LoadScope (ContentHash captured) (fst (CaptureScope scope start)) = (fst (CaptureScope scope start), Ret scope).
Proof.
  apply (LoadScope_CaptureScope scope start (fst (CaptureScope scope start)) captured).
  - apply map_Forall_singleton. cbn. apply (bool_decide_eq_true_1 _). vm_compute. reflexivity.
  - apply (bool_decide_eq_true_1 _). vm_compute. reflexivity.
  - change (entities_of scope) with [two]. intros e e' He He'.
    apply elem_of_cons in He as [->|He%list_elem_of_singleton]; apply elem_of_cons in He' as [->|He'%list_elem_of_singleton];
      subst; try reflexivity; intros Hh; vm_compute in Hh; discriminate Hh.
  - transitivity (fst (CaptureScope scope start), snd (CaptureScope scope start)); [apply surjective_pairing|].
    apply (f_equal (pair _)). vm_compute. reflexivity.
Defined.

Definition alias_data : ComputeApplyData := {|
  ap_Path := builtinPrefix +:+ "arithmetic"; ap_Operation := "eval"; ap_Resource := zero_hash; ap_Fn := zero_hash;
  ap_Args := {["op" := ContentHash add_op; "left" := ContentHash two; "right" := ContentHash three]}; ap_Capability := zero_hash |}.
Definition add_data : list byte := enc_binary {| bi_Op := "add"; bi_Left := ContentHash two; bi_Right := ContentHash three |}.

Lemma alias_is_expression_witness :
  run alias = run (arithmetic "add" two three).
Proof.
  apply (alias_is_expression now ctx Dispatch 1 alias (arithmetic "add" two three) alias_data "op" TypeComputeArithmetic add_data
           (ContentHash add_op) add_op ∅ start "add"); vm_compute; reflexivity.
Defined.

Definition bounds : BoundsData :=
  {| TTL := None; Budget := Some 50; bd_CascadeDepth := None; bd_ChainDepth := None; bd_ChainID := ""; bd_ParentChainID := ""; Visited := [] |}.
Definition hctx : HandlerContext := {|
  hc_Author := Sample.local; hc_AuthorHash := ContentHash Sample.peerA; hc_LocalPeerID := Sample.local;
  hc_CallerCapability := Sample.rootE; hc_HandlerGrant := no_entity; hc_Resource := Some {| Targets := [place "data/failing"]; rt_Exclude := [] |};
  hc_HandlerPattern := "system/compute"; hc_RequestID := "r"; hc_Bounds := Some bounds; hc_ChainDepth := 0; hc_ReactiveTrigger := false;
  hc_Included := ∅ |}.
Definition Execute (s : State) (path op : string) (params cap : Entity) (resource : ResourceTarget) : State * option (Z * Entity) := (s, None).
Definition open_conversion (f : spec_float) : Z := 0.

(** A division by zero is answered with status 200 and the error. *)
Lemma eval_error_is_answer_witness :
  exists w reply, handleEval open_conversion now 2 Execute hctx None no_entity st = (w, Ret reply)
    /\ answers_error (newComputeError ErrDivisionByZero "Division by zero") w reply.
Proof.
  set (ev := Evaluate now (evaluation hctx Sample.rootE (place "data/failing")) (Some (DispatchExecute Execute Sample.rootE)) 2 failing ∅
    (world st (initBudget open_conversion hctx None no_entity))).
  assert (Hr : snd ev = Raise (Compute (newComputeError ErrDivisionByZero "Division by zero"))) by (vm_compute; reflexivity).
  exists (fst ev).
  exact (eval_error_is_answer open_conversion now 2 Execute hctx None no_entity st (place "data/failing") failing (fst ev) _
    ltac:(vm_compute; reflexivity) ltac:(vm_compute; reflexivity) ltac:(vm_compute; reflexivity)
    (eq_trans (surjective_pairing ev) (f_equal (pair (fst ev)) Hr))).
Defined.

(** ** Where the code and its comments part *)

(** Integers that differ are equal once both are floats, while the order tells
    them apart; and two integers that the order takes for one are not equal. *)
Lemma equality_is_not_order :
  let eq := fun a b => applyCompareWithIntent "eq" a b false in let lt := fun a b => applyCompareWithIntent "lt" a b false in
  eq (VInt (2 ^ 53)) (VInt (2 ^ 53 + 1)) = Ok (VBool true) /\ lt (VInt (2 ^ 53)) (VInt (2 ^ 53 + 1)) = Ok (VBool true)
  /\ eq (VInt (- 1)) (VUint (2 ^ 64 - 1)) = Ok (VBool false)
  /\ applyCompareWithIntent "lte" (VInt (- 1)) (VUint (2 ^ 64 - 1)) false = Ok (VBool true)
  /\ applyCompareWithIntent "gte" (VInt (- 1)) (VUint (2 ^ 64 - 1)) false = Ok (VBool true).
Proof. vm_compute. by split_and!. Qed.

(** A stored error in the place of a closure is reported as a wrong type, where a
    stored error in the place of a collection is reported as itself. *)
Definition stored_error : Entity := toy_entity TypeComputeError (str_bytes ErrNotFound).
Definition error_st : State := stores [stored_error] [].
Definition raised {W A} (r : W * Outcome A) : string := match snd r with Raise (Compute e) => ce_Code e | _ => "" end.
Lemma closure_error_masked :
  let w := {| w_state := error_st; w_Operations := 20; w_Depth := 5; w_deps := []; w_calls := [] |} in
  let eval := Evaluate now ctx Dispatch 1 in
  raised (resolveClosureArg ctx eval {["fn" := ContentHash stored_error]} "fn" ∅ w) = ErrTypeMismatch
  /\ raised (resolveCollection ctx eval {["collection" := ContentHash stored_error]} ∅ w) = ErrNotFound.
Proof. vm_compute. by split. Qed.

(** An alias at a path that takes its operator name from that path. *)
Definition self_name : Entity := lookup "data/self".
Definition self : Entity := builtin "arithmetic" self_name two three.
Definition self_st : State := stores [self_name; two; three] [("data/self", self)].

Definition self_data : ComputeApplyData := {|
  ap_Path := builtinPrefix +:+ "arithmetic"; ap_Operation := "eval"; ap_Resource := zero_hash; ap_Fn := zero_hash;
  ap_Args := {["op" := ContentHash self_name; "left" := ContentHash two; "right" := ContentHash three]}; ap_Capability := zero_hash |}.

Lemma name_of_self_diverges n ops depth :
  1 < ops -> 0 < depth ->
  snd (Evaluate now ctx Dispatch n self ∅ {| w_state := self_st; w_Operations := ops; w_Depth := depth; w_deps := []; w_calls := [] |}) = Diverge.
Proof.
  intros Ho Hd.
  apply (self_naming_diverges now ctx Dispatch self_st self self_name self_data {| lt_Path := "data/self"; lt_Relative := false |}
           (ContentHash self_name) (ContentHash self)); [..|reflexivity|exact Ho|exact Hd]; vm_compute; try reflexivity. by split.
Qed.
End ComputeSample.
