(* ===== verification/Session.v ===== *)
(** * Session, status and connection records

    [core/protocol/session.go], [peer_status.go] and [connection_state.go]: what
    a peer keeps in its tree about a peer it is or was connected to, one entity
    per remote identity and kind.  The session entity has two capability fields,
    the one the remote granted and the one this peer minted, written by the two
    sides of the handshake; each write reads the entity first and keeps the field
    it does not own.  The data types and paths are those of [core/types]. *)

From S2P Require Import Prelude GoStrings Errors Hash PeerID Entity Paths CapTypes Patterns Delegation Chain Requests Store.
Open Scope string_scope.

Definition TypePeerSession : string := "system/peer/session".
Definition TypePeerStatus : string := "system/peer/status".
Definition TypeConnection : string := "system/connection".
Definition PeerStatusConnected : string := "connected".
Definition ConnectionStatusClosed : string := "closed".

Record SessionCapability := { sc_Hash : Hash; sc_Chain : list Hash }.

(** The two times are [uint64] milliseconds. *)
Record SessionData := {
  RemotePeerID : string;
  RemoteIdentityHash : Hash;
  RemotePublicKey : list byte;
  HeldCapability : option SessionCapability;
  MintedCapability : option SessionCapability;
  GrantedAt : Z;
  sd_ExpiresAt : Z
}.

Record PeerStatusData := {
  ps_PeerID : string;
  ps_Status : string;
  ps_Reason : string;
  ps_LastError : string;
  ps_ConnectedAt : Z;
  ps_LastSeen : Z;
  ps_Connection : string;
  ps_FailingSince : Z
}.

(** The values of [Parameters] are opaque: they are only copied. *)
Record ConnectionData := {
  cd_PeerID : string;
  cd_Transport : string;
  cd_Address : string;
  cd_Status : string;
  cd_EstablishedAt : Z;
  cd_Parameters : gmap string (list byte)
}.

(** The CBOR encoders and decoders of these data types. *)
Class SessionCodec := {
  EncodeSession : SessionData -> option (list byte);
  DecodeSession : list byte -> option SessionData;
  EncodeStatus : PeerStatusData -> option (list byte);
  DecodeStatus : list byte -> option PeerStatusData;
  EncodeConnection : ConnectionData -> option (list byte);
  DecodeConnection : list byte -> option ConnectionData;
  EncodePeer : PeerData -> option (list byte)
}.

Class SessionCodecLaws `{SessionCodec} := {
  session_roundtrip d raw : EncodeSession d = Some raw -> DecodeSession raw = Some d;
  status_roundtrip d raw : EncodeStatus d = Some raw -> DecodeStatus raw = Some d;
  connection_roundtrip d raw : EncodeConnection d = Some raw -> DecodeConnection raw = Some d
}.

Definition SessionPath (localPeerID : string) (remoteIdentityHash : Hash) : string :=
  "/" +:+ localPeerID +:+ "/" +:+ TypePeerSession +:+ "/" +:+ hex_encode (Bytes remoteIdentityHash).
Definition PeerStatusPath (localPeerID : string) (remoteIdentityHash : Hash) : string :=
  "/" +:+ localPeerID +:+ "/" +:+ TypePeerStatus +:+ "/" +:+ hex_encode (Bytes remoteIdentityHash).
Definition ConnectionPath (localPeerID : string) (remoteIdentityHash : Hash) : string :=
  "/" +:+ localPeerID +:+ "/" +:+ TypeConnection +:+ "/" +:+ hex_encode (Bytes remoteIdentityHash).

(** ** Operations

    [alg] is the process-wide authoring format of [entity.NewEntity].  A writer
    returns the store and the index it leaves behind, also when it fails: a put
    is not undone when the binding that follows it is refused. *)

Section session.
Context {CS L : Type} `{ContentStore CS} `{LocationIndex L}.
Context `{HashableCodec, DataCodec, SessionCodec} (alg : byte).

Definition Session_ToEntity (d : SessionData) : result Entity :=
  let! raw := of_option [] (EncodeSession d) in Ent.NewEntity alg TypePeerSession raw.
Definition Status_ToEntity (d : PeerStatusData) : result Entity :=
  let! raw := of_option [] (EncodeStatus d) in Ent.NewEntity alg TypePeerStatus raw.
Definition Connection_ToEntity (d : ConnectionData) : result Entity :=
  let! raw := of_option [] (EncodeConnection d) in Ent.NewEntity alg TypeConnection raw.
Definition Peer_ToEntity (d : PeerData) : result Entity :=
  let! raw := of_option [] (EncodePeer d) in Ent.NewEntityFormat AlgorithmSHA256 TypePeer raw.

Definition SessionDataFromEntity (e : Entity) : result SessionData := of_option [] (DecodeSession (Data e)).
Definition PeerStatusDataFromEntity (e : Entity) : result PeerStatusData := of_option [] (DecodeStatus (Data e)).
Definition ConnectionDataFromEntity (e : Entity) : result ConnectionData :=
  of_option [] (DecodeConnection (Data e)).

Definition sessionCapBlock (leaf : Entity) (cs : CS) : result SessionCapability :=
  let! chain := CollectAuthorityChain leaf (cs_Get cs) in
  Ok {| sc_Hash := ContentHash leaf; sc_Chain := map ContentHash chain |}.

(** [cs.Put] and then [li.Set], as each of the writers does. *)
Definition put_and_bind (cs : CS) (li : L) (path : string) (built : result Entity) : CS * L * result Hash :=
  match built with
  | Err e => (cs, li, Err e)
  | Ok ent =>
      let '(cs, put) := cs_Put cs ent in
      match put with
      | Err e => (cs, li, Err e)
      | Ok h =>
          let '(li, bound) := Set_ li path h in
          match bound with
          | Err _ => (cs, li, Err [])
          | Ok _ => (cs, li, Ok h)
          end
      end
  end.

(** The data and the entity a path holds, when both can be read. *)
Definition bound_entity (cs : CS) (li : L) (path : string) : option Entity :=
  match Get li path with None => None | Some h => cs_Get cs h end.

Definition loadSessionData (cs : CS) (li : L) (localPeerID : string) (remoteIdentityHash : Hash)
  : option (SessionData * Entity) :=
  match bound_entity cs li (SessionPath localPeerID remoteIdentityHash) with
  | None => None
  | Some sessionEntity =>
      match SessionDataFromEntity sessionEntity with
      | Err _ => None
      | Ok data => Some (data, sessionEntity)
      end
  end.

Definition commitSession (cs : CS) (li : L) (localPeerID : string) (remoteIdentityHash : Hash)
    (data : SessionData) : CS * L * result Hash :=
  put_and_bind cs li (SessionPath localPeerID remoteIdentityHash) (Session_ToEntity data).

(** [if len(data.RemotePublicKey) == 0 { data.RemotePublicKey = prev... }] *)
Definition key_or (key prev : list byte) : list byte := match key with [] => prev | _ => key end.

Definition WriteHeldSession (cs : CS) (li : L) (localPeerID remotePeerID : string) (remotePublicKey : list byte)
    (remoteIdentityHash : Hash) (capEntity : Entity) (grantedAt expiresAt : Z) : CS * L * result Hash :=
  if String.eqb remotePeerID localPeerID then (cs, li, Ok zero_hash)
  else if IsZero remoteIdentityHash then (cs, li, Err [])
  else match sessionCapBlock capEntity cs with
  | Err e => (cs, li, Err e)
  | Ok held =>
      let data := match loadSessionData cs li localPeerID remoteIdentityHash with
        | Some (prev, _) => {|
            RemotePeerID := remotePeerID; RemoteIdentityHash := remoteIdentityHash;
            RemotePublicKey := key_or remotePublicKey (RemotePublicKey prev);
            HeldCapability := Some held; MintedCapability := MintedCapability prev;
            GrantedAt := grantedAt; sd_ExpiresAt := expiresAt |}
        | None => {|
            RemotePeerID := remotePeerID; RemoteIdentityHash := remoteIdentityHash;
            RemotePublicKey := remotePublicKey; HeldCapability := Some held; MintedCapability := None;
            GrantedAt := grantedAt; sd_ExpiresAt := expiresAt |}
        end in
      commitSession cs li localPeerID remoteIdentityHash data
  end.

(** The session data with a new minted capability. *)
Definition minted_data (cs : CS) (li : L) (localPeerID remotePeerID : string) (remotePublicKey : list byte)
    (remoteIdentityHash : Hash) (minted : SessionCapability) (grantedAt expiresAt : Z) : SessionData :=
  match loadSessionData cs li localPeerID remoteIdentityHash with
  | Some (prev, _) => {|
      RemotePeerID := remotePeerID; RemoteIdentityHash := remoteIdentityHash;
      RemotePublicKey := key_or remotePublicKey (RemotePublicKey prev);
      HeldCapability := HeldCapability prev; MintedCapability := Some minted;
      GrantedAt := grantedAt; sd_ExpiresAt := expiresAt |}
  | None => {|
      RemotePeerID := remotePeerID; RemoteIdentityHash := remoteIdentityHash;
      RemotePublicKey := remotePublicKey; HeldCapability := None; MintedCapability := Some minted;
      GrantedAt := grantedAt; sd_ExpiresAt := expiresAt |}
  end.

Definition WriteMintedSession (cs : CS) (li : L) (localPeerID remotePeerID : string) (remotePublicKey : list byte)
    (remoteIdentityHash : Hash) (capEntity : Entity) (grantedAt expiresAt : Z) : CS * L * result Hash :=
  if String.eqb remotePeerID localPeerID then (cs, li, Ok zero_hash)
  else if IsZero remoteIdentityHash then (cs, li, Err [])
  else match sessionCapBlock capEntity cs with
  | Err e => (cs, li, Err e)
  | Ok minted =>
      commitSession cs li localPeerID remoteIdentityHash
        (minted_data cs li localPeerID remotePeerID remotePublicKey remoteIdentityHash minted grantedAt expiresAt)
  end.

Definition ReadHeldCapability (cs : CS) (li : L) (localPeerID : string) (remoteIdentityHash : Hash)
  : option Entity :=
  if IsZero remoteIdentityHash then None
  else match loadSessionData cs li localPeerID remoteIdentityHash with
  | None => None
  | Some (data, _) => match HeldCapability data with None => None | Some c => cs_Get cs (sc_Hash c) end
  end.

Definition ReadMintedCapability (cs : CS) (li : L) (localPeerID : string) (remoteIdentityHash : Hash)
  : option Entity :=
  if IsZero remoteIdentityHash then None
  else match loadSessionData cs li localPeerID remoteIdentityHash with
  | None => None
  | Some (data, _) => match MintedCapability data with None => None | Some c => cs_Get cs (sc_Hash c) end
  end.

Definition ReadSessionEntity (cs : CS) (li : L) (localPeerID : string) (remoteIdentityHash : Hash)
  : option (SessionData * Entity) :=
  if IsZero remoteIdentityHash then None else loadSessionData cs li localPeerID remoteIdentityHash.

(** ** Identity hashes *)

Definition ComputePeerIdentityHash (pub : list byte) (keyType : byte) : result Hash :=
  let ktString := KeyTypeString keyType in
  if String.eqb ktString "" then Err []
  else let! ent := Peer_ToEntity {| PublicKey := pub; pd_KeyType := ktString |} in Ok (ContentHash ent).

Definition ComputePeerIdentityHashFromPeerID `{Base58} (pid : PeerID) : result Hash :=
  match DerivePeerFromPeerID pid with
  | None => Err auth_failed
  | Some (pub, keyType) => ComputePeerIdentityHash pub keyType
  end.

Definition ResolveRemoteIdentityHash `{Base58} (remotePeerID : PeerID) (remotePublicKey : list byte)
  : result Hash :=
  match ComputePeerIdentityHashFromPeerID remotePeerID with
  | Ok h => Ok h
  | Err _ =>
      if (length remotePublicKey =? 0)%nat then Err []
      else let! dec := Decode remotePeerID in ComputePeerIdentityHash remotePublicKey (KeyType dec)
  end.

(** ** Status and connection *)

Definition WritePeerStatus (cs : CS) (li : L) (localPeerID : string) (remoteIdentityHash : Hash)
    (data : PeerStatusData) : CS * L * result Hash :=
  if String.eqb (ps_PeerID data) localPeerID then (cs, li, Ok zero_hash)
  else if IsZero remoteIdentityHash then (cs, li, Err [])
  else put_and_bind cs li (PeerStatusPath localPeerID remoteIdentityHash) (Status_ToEntity data).

Definition ReadPeerStatus (cs : CS) (li : L) (localPeerID : string) (remoteIdentityHash : Hash)
  : option PeerStatusData :=
  if IsZero remoteIdentityHash then None
  else match bound_entity cs li (PeerStatusPath localPeerID remoteIdentityHash) with
  | None => None
  | Some ent => match PeerStatusDataFromEntity ent with Ok d => Some d | Err _ => None end
  end.

Definition WriteConnectionState (cs : CS) (li : L) (localPeerID : string) (remoteIdentityHash : Hash)
    (data : ConnectionData) : CS * L * result Hash :=
  if String.eqb (cd_PeerID data) localPeerID then (cs, li, Ok zero_hash)
  else if IsZero remoteIdentityHash then (cs, li, Err [])
  else put_and_bind cs li (ConnectionPath localPeerID remoteIdentityHash) (Connection_ToEntity data).

(** The boolean and the error are returned together. *)
Definition MarkConnectionClosed (cs : CS) (li : L) (localPeerID : string) (remoteIdentityHash : Hash)
  : CS * L * result bool :=
  match bound_entity cs li (ConnectionPath localPeerID remoteIdentityHash) with
  | None => (cs, li, Ok false)
  | Some ent =>
      match ConnectionDataFromEntity ent with
      | Err e => (cs, li, Err e)
      | Ok data =>
          if String.eqb (cd_Status data) ConnectionStatusClosed then (cs, li, Ok true)
          else
            let '(cs, li, r) := WriteConnectionState cs li localPeerID remoteIdentityHash {|
              cd_PeerID := cd_PeerID data; cd_Transport := cd_Transport data; cd_Address := cd_Address data;
              cd_Status := ConnectionStatusClosed; cd_EstablishedAt := cd_EstablishedAt data;
              cd_Parameters := cd_Parameters data |} in
            match r with Ok _ => (cs, li, Ok true) | Err e => (cs, li, Err e) end
      end
  end.
End session.

(** ** Properties *)

Section session_spec.
Context {CS L : Type} `{ContentStoreLaws CS} `{LocationIndexLaws L}.
Context `{DataCodec, SessionCodecLaws} (alg : byte).

Lemma put_and_bind_ok (cs : CS) (li : L) path built cs' li' h :
  put_and_bind cs li path built = (cs', li', Ok h) ->
  exists e, built = Ok e /\ put_hash e = Ok h
    /\ entities cs' = <[h := stamped e h]> (entities cs) /\ bindings li' = <[path := h]> (bindings li).
Proof.
  unfold put_and_bind. destruct built as [e|er]; [|done]. intros Hp.
  pose proof (cs_put_spec cs e) as Hs. destruct (cs_Put cs e) as [cs1 [h1|er]] eqn:Hput; [|done].
  cbn [fst snd] in Hs. destruct Hs as [Hh Hent].
  pose proof (set_spec li path h1) as Hset. destruct (Set_ li path h1) as [li1 [u|er]]; [|done].
  injection Hp as <- <- <-. cbn [fst snd committed] in Hset. by exists e.
Qed.

Lemma bound_entity_put (cs : CS) (li : L) path e h cs' li' :
  entities cs' = <[h := stamped e h]> (entities cs) -> bindings li' = <[path := h]> (bindings li) ->
  bound_entity cs' li' path = Some (stamped e h).
Proof.
  intros Hc Hl. unfold bound_entity. rewrite get_spec, Hl, lookup_insert_eq, cs_get_spec, Hc.
  by rewrite lookup_insert_eq.
Qed.

(** A commit makes the data it is given the data that is loaded. *)
Lemma commitSession_load (cs : CS) (li : L) lp rid data cs' li' h :
  commitSession alg cs li lp rid data = (cs', li', Ok h) ->
  fst <$> loadSessionData cs' li' lp rid = Some data.
Proof.
  intros (e & He & _ & Hc & Hl)%put_and_bind_ok. unfold loadSessionData.
  erewrite bound_entity_put by eassumption. unfold Session_ToEntity, Ent.NewEntity in He. inv_ok.
  apply Ent.NewEntityFormat_ok in He as [_ Hd].
  match goal with Hx : EncodeSession _ = Some _ |- _ => apply session_roundtrip in Hx end.
  unfold SessionDataFromEntity, stamped. cbn [Data]. rewrite Hd.
  match goal with Hx : DecodeSession _ = Some _ |- _ => by rewrite Hx end.
Qed.

Lemma put_and_bind_elsewhere (cs : CS) (li : L) path built p :
  p <> path -> Get (snd (fst (put_and_bind cs li path built))) p = Get li p.
Proof.
  intros Hne. unfold put_and_bind. destruct built as [e|er]; [|done].
  destruct (cs_Put cs e) as [cs1 [h1|er]]; [|done].
  pose proof (set_spec li path h1) as Hset. destruct (Set_ li path h1) as [li1 [u|er]];
    cbn [fst snd] in *; rewrite !get_spec, Hset; [by apply lookup_insert_ne|].
  destruct (committed _); [by apply lookup_insert_ne|done].
Qed.

(** *** The two sides of a session

    What a session holds, and a write of either side as an operation on it. *)

Record session_view := {
  v_held : option SessionCapability; v_minted : option SessionCapability; v_key : list byte
}.

Definition view_of (cs : CS) (li : L) (lp : string) (rid : Hash) : session_view :=
  match loadSessionData cs li lp rid with
  | Some (d, _) => {| v_held := HeldCapability d; v_minted := MintedCapability d; v_key := RemotePublicKey d |}
  | None => {| v_held := None; v_minted := None; v_key := [] |}
  end.

Record session_write := {
  w_held_side : bool; w_peer : string; w_key : list byte; w_cap : Entity; w_granted : Z; w_expires : Z
}.

Definition perform_write (lp : string) (rid : Hash) (w : session_write) (cs : CS) (li : L) : CS * L * result Hash :=
  (if w_held_side w then WriteHeldSession alg else WriteMintedSession alg)
    cs li lp (w_peer w) (w_key w) rid (w_cap w) (w_granted w) (w_expires w).

Definition apply_write (w : session_write) (block : SessionCapability) (v : session_view) : session_view := {|
  v_held := if w_held_side w then Some block else v_held v;
  v_minted := if w_held_side w then v_minted v else Some block;
  v_key := key_or (w_key w) (v_key v) |}.

Lemma key_or_nil k : key_or k [] = k.
Proof. by destruct k. Qed.

Lemma perform_write_view (cs : CS) (li : L) lp rid w cs' li' h :
  w_peer w <> lp -> perform_write lp rid w cs li = (cs', li', Ok h) ->
  exists block, sessionCapBlock (w_cap w) cs = Ok block
    /\ view_of cs' li' lp rid = apply_write w block (view_of cs li lp rid).
Proof.
  intros Hne Hw. unfold perform_write in Hw.
  assert (exists block data, sessionCapBlock (w_cap w) cs = Ok block
    /\ commitSession alg cs li lp rid data = (cs', li', Ok h)
    /\ {| v_held := HeldCapability data; v_minted := MintedCapability data; v_key := RemotePublicKey data |}
       = apply_write w block (view_of cs li lp rid)) as (block & data & Hb & Hc & Hv).
  { unfold apply_write, view_of.
    destruct (w_held_side w); [unfold WriteHeldSession in Hw|unfold WriteMintedSession, minted_data in Hw];
      (destruct (String.eqb_spec (w_peer w) lp) as [|_]; [done|]); (destruct (IsZero rid); [done|]);
      (destruct (sessionCapBlock (w_cap w) cs) as [block|]; [|done]);
      destruct (loadSessionData cs li lp rid) as [[prev pe]|];
      eexists block, _; (split; [done|]); (split; [exact Hw|]); cbn; by rewrite ?key_or_nil. }
  exists block. split; [done|]. rewrite <- Hv. unfold view_of.
  apply commitSession_load in Hc. destruct (loadSessionData cs' li' lp rid) as [[d e]|]; [|done].
  cbn in Hc. by injection Hc as ->.
Qed.

(** A sequence of writes that all succeed, with the store and the index free to
    change in between as long as the session entity does not. *)
Inductive session_run (lp : string) (rid : Hash) : list session_write -> session_view -> session_view -> Prop :=
| run_nil v : session_run lp rid [] v v
| run_write w ws (cs cs' : CS) (li li' : L) h v :
    w_peer w <> lp -> perform_write lp rid w cs li = (cs', li', Ok h) ->
    session_run lp rid ws (view_of cs' li' lp rid) v ->
    session_run lp rid (w :: ws) (view_of cs li lp rid) v.

(** The block that the last write of a side left, if that side wrote. *)
Definition side_last (held : bool) (ws : list (session_write * SessionCapability))
    (v0 : option SessionCapability) : option SessionCapability :=
  foldl (fun v p => if Bool.eqb (w_held_side (fst p)) held then Some (snd p) else v) v0 ws.

(** The block of a capability whose chain was read from the store [cs]. *)
Definition block_of (cap : Entity) (b : SessionCapability) : Prop :=
  sc_Hash b = ContentHash cap
  /\ exists (cs : CS) chain, CollectAuthorityChain cap (cs_Get cs) = Ok chain /\ sc_Chain b = map ContentHash chain.

End session_spec.
