(* ===== verification/Connect.v ===== *)
(** * The handshake

    [core/protocol/connect.go]: the connect handler.  A connection is opened by
    two requests, [hello], which negotiates the protocol, the hash format and the
    key types and issues a nonce, and [authenticate], which echoes the nonce under
    a signature of the claimed key and is answered with a capability; [ping]
    probes an open connection.  The grants of that capability are assembled from
    the handler's configuration and the policy table, and filtered by what the
    peer advertises.  The initiator's half, which builds the two requests, is
    here too, and so is the reciprocal grant of [reentry_grant.go].

    The nonce that [crypto/rand] returns and the clock are arguments, and so is
    [alg], the process-wide authoring format of [entity.NewEntity]. *)

From S2P Require Import Prelude GoStrings Errors Hash PeerID Entity Paths CapTypes Patterns Delegation Chain Requests Store Revoked Dispatch Session.
Open Scope string_scope.

(** ** Data *)

Definition TypeHello : string := "system/protocol/connect/hello".
Definition TypeAuthenticate : string := "system/protocol/connect/authenticate".
Definition TypeCapGrant : string := "system/capability/grant".
Definition TypeNetworkPing : string := "system/network/ping".
Definition TypeNetworkPong : string := "system/network/pong".

Record HelloData := {
  hd_PeerID : string;
  hd_Nonce : list byte;
  hd_Protocols : list string;
  hd_Timestamp : Z;
  hd_HashFormats : list string;
  hd_KeyTypes : list string;
  hd_Compression : list string;
  hd_Encryption : list string
}.

Record AuthenticateData := {
  ad_PeerID : string; ad_PublicKey : list byte; ad_KeyType : string; ad_Nonce : list byte
}.

Record PingData := { ping_Timestamp : Z; ping_Sequence : Z }.
Record PongData := { pong_Timestamp : Z; pong_Sequence : Z; pong_ServerTime : Z }.

Record CapabilityPolicyEntryData := {
  pe_PeerPattern : string; pe_Grants : list GrantEntry; pe_TTLMs : option Z; pe_Notes : string
}.

(** The connection as the handshake sees it; the dispatcher reads three of the
    fields ([gate_view]). *)
Record ConnState := mkConnState {
  st_Completed : bool;
  st_Phase : string;
  st_RemotePeerID : PeerID;
  st_HelloPeerID : string;
  st_OurNonce : list byte;
  st_TheirNonce : list byte;
  st_GrantedCapability : option Entity;
  st_FrameBudget : Z;
  st_ActiveHashFormat : byte;
  st_ObservedAddress : string
}.

Definition NewConnectionState : ConnState := {|
  st_Completed := false; st_Phase := "init"; st_RemotePeerID := ""; st_HelloPeerID := "";
  st_OurNonce := []; st_TheirNonce := []; st_GrantedCapability := None; st_FrameBudget := 0;
  st_ActiveHashFormat := Byte.x00; st_ObservedAddress := "" |}.

Definition gate_view (s : ConnState) : ConnectionState := {|
  conn_Completed := st_Completed s; conn_Phase := st_Phase s; conn_RemotePeerID := st_RemotePeerID s |}.

Definition defaultFrameBudget : Z := 16 * 1024 * 1024.

Definition EffectiveFrameBudget (s : option ConnState) : Z :=
  match s with
  | Some s => if (0 <? st_FrameBudget s)%Z then st_FrameBudget s else defaultFrameBudget
  | None => defaultFrameBudget
  end.

(** The CBOR encoders and decoders of the handshake.  [DecodeHello] returns what
    the decoder leaves in the variable, also when it fails, and whether it
    succeeded: the code goes on with the variable in both cases. *)
Class ConnectCodec := {
  EncodeHello : HelloData -> option (list byte);
  DecodeHello : list byte -> HelloData * bool;
  EncodeAuthenticate : AuthenticateData -> option (list byte);
  DecodeAuthenticate : list byte -> option AuthenticateData;
  DecodePing : list byte -> option PingData;
  EncodePong : PongData -> option (list byte);
  EncodeCapGrant : Hash -> option (list byte);
  EncodeGrants : list GrantEntry -> option (list byte);
  DecodePolicyEntry : list byte -> option CapabilityPolicyEntryData;
  EncodeExecute : ExecuteData -> option (list byte);
  EncodeRawEntity : Entity -> option (list byte)
}.

(** ** The handler *)

(** [ch_connectionGrants]: [None] is the nil slice, which selects the defaults.
    [ch_grantResolver] answers [None] to fall through.  [ch_advertisedScope] is
    what the function that is wired returns at the request. *)
Record ConnectHandler := mkConnectHandler {
  ch_localKeypair : Keypair;
  ch_localPeerID : PeerID;
  ch_localIdentity : Entity;
  ch_protocols : list string;
  ch_connectionGrants : option (list GrantEntry);
  ch_grantResolver : option (PeerID -> Hash -> option (list GrantEntry));
  ch_advertisedScope : option (list GrantEntry);
  ch_advertisedHashFormats : list string;
  ch_advertisedKeyTypes : list string
}.

Definition DefaultAdvertisedHashFormats (alg : byte) : list string :=
  if decide (alg = AlgorithmSHA384) then ["ecfv1-sha384"; "ecfv1-sha256"] else ["ecfv1-sha256"].

Definition DefaultAdvertisedKeyTypes : list string :=
  [KeyTypeString KeyTypeEd25519; KeyTypeString KeyTypeEd448].

Definition SetAdvertisedHashFormats (alg : byte) (formats : option (list string)) (h : ConnectHandler)
  : ConnectHandler :=
  mkConnectHandler (ch_localKeypair h) (ch_localPeerID h) (ch_localIdentity h) (ch_protocols h)
    (ch_connectionGrants h) (ch_grantResolver h) (ch_advertisedScope h)
    (match formats with None => DefaultAdvertisedHashFormats alg | Some f => f end) (ch_advertisedKeyTypes h).

Definition SetAdvertisedKeyTypes (kts : option (list string)) (h : ConnectHandler) : ConnectHandler :=
  mkConnectHandler (ch_localKeypair h) (ch_localPeerID h) (ch_localIdentity h) (ch_protocols h)
    (ch_connectionGrants h) (ch_grantResolver h) (ch_advertisedScope h) (ch_advertisedHashFormats h)
    (match kts with None => DefaultAdvertisedKeyTypes | Some k => k end).

Definition hashFormatStringToAlgorithm (s : string) : option byte :=
  if String.eqb s "ecfv1-sha256" then Some AlgorithmSHA256
  else if String.eqb s "ecfv1-sha384" then Some AlgorithmSHA384
  else None.

Definition containsString (list_ : list string) (s : string) : bool := existsb (fun v => String.eqb v s) list_.

(** The empty string is returned when there is no overlap. *)
Definition firstMatchInOrder (orderedList acceptSet : list string) : string :=
  match List.find (containsString acceptSet) orderedList with Some v => v | None => "" end.

Definition anyInBoth (a b : list string) : bool := existsb (containsString b) a.

(** The default of an absent list of formats. *)
Definition or_sha256 (formats : list string) : list string :=
  match formats with [] => ["ecfv1-sha256"] | _ => formats end.

(** [(alg, match, ok)] of the code, [None] when [ok] is false. *)
Definition NegotiateActiveHashFormat (initiatorPrefs responderAdvertised : list string) : option (byte * string) :=
  let initiatorPrefs := or_sha256 initiatorPrefs in
  let responderAdvertised := or_sha256 responderAdvertised in
  let m := firstMatchInOrder initiatorPrefs responderAdvertised in
  if String.eqb m "" then None
  else match hashFormatStringToAlgorithm m with None => None | Some alg => Some (alg, m) end.

Definition supported_key_type (kt : byte) : bool :=
  bool_decide (kt = KeyTypeEd25519) || bool_decide (kt = KeyTypeEd448).

(** An error response, or a result with the entities that travel with it. *)
Inductive ConnectReply :=
| Refused (status : Z) (code : string)
| Served (result : Entity) (included : gmap Hash Entity).

(** ** Grants *)

Definition plain_grant (handler : string) (resources : list string) (operation : string) : GrantEntry := {|
  Handlers := mkScope [handler] []; Resources := mkScope resources []; Operations := mkScope [operation] [];
  Peers := None; Constraints := []; Allowances := [] |}.

Definition DefaultConnectionGrants : list GrantEntry := [
  plain_grant "system/tree" ["system/type/*"; "system/handler/*"] "get";
  plain_grant "system/capability" [] "request";
  plain_grant "system/network" [] "observe-address"].

Definition scopeCovered (entry advertised : list string) (canon : option (string -> string)) : bool :=
  let c := match canon with None => fun s => s | Some f => f end in
  all (fun claimed => existsb (fun offered => MatchesPattern (c claimed) (c offered)) advertised) entry.

Definition coversFourAxes (advertised g : GrantEntry) (localPeerID : PeerID) : bool :=
  if negb (scopeCovered (Include_ (Handlers g)) (Include_ (Handlers advertised)) None) then false
  else if negb (scopeCovered (Include_ (Operations g)) (Include_ (Operations advertised)) None) then false
  else if negb (scopeCovered (Include_ (Resources g)) (Include_ (Resources advertised))
                  (Some (fun s => Canonicalize s localPeerID))) then false
  else match Peers g, Peers advertised with
  | Some pg, Some pa => scopeCovered (Include_ pg) (Include_ pa) None
  | _, _ => true
  end.

Definition isUniversalHandlerClaim (g : GrantEntry) : bool := existsb (String.eqb "*") (Include_ (Handlers g)).

Definition advertisedCovers (advertised : list GrantEntry) (g : GrantEntry) (localPeerID : PeerID) : bool :=
  if isUniversalHandlerClaim g then (0 <? length advertised)%nat
  else existsb (fun adv => coversFourAxes adv g localPeerID) advertised.

Definition filterAdvertisedGrants (grants advertised : list GrantEntry) (localPeerID : PeerID) : list GrantEntry :=
  List.filter (fun g => advertisedCovers advertised g localPeerID) grants.

Definition handshakePolicyPathPrefix : string := "system/capability/policy".
Definition handshakePolicyFallbackSegment : string := "default".

(** ** The operations *)

Section connect.
Context {CS L : Type} `{ContentStore CS} `{LocationIndex L}.
Context `{Base58, Signing, HashableCodec, DataCodec, MapOrder, TokenEncoding, KeySigning, SessionCodec, ConnectCodec}.
Context (alg : byte).

(** [crypto.Keypair.IdentityEntity]. *)
Definition IdentityEntity (k : Keypair) : result Entity :=
  let ktString := KeyTypeString (kp_KeyType k) in
  if String.eqb ktString "" then Err []
  else
    let! raw := of_option [] (EncodePeer {| PublicKey := kp_PublicKey k; pd_KeyType := ktString |}) in
    Ent.NewEntityFormat AlgorithmSHA256 TypePeer raw.

(** [None] is the panic of [Keypair.PeerID]. *)
Definition NewConnectHandler (kp : Keypair) (protocols : list string) : option (result ConnectHandler) :=
  match IdentityEntity kp with
  | Err e => Some (Err e)
  | Ok identity =>
      match PeerIDFromKeypair kp with
      | None => None
      | Some pid => Some (Ok {|
          ch_localKeypair := kp; ch_localPeerID := pid; ch_localIdentity := identity;
          ch_protocols := match protocols with [] => ["entity-core/1.0"] | l => l end;
          ch_connectionGrants := None; ch_grantResolver := None; ch_advertisedScope := None;
          ch_advertisedHashFormats := DefaultAdvertisedHashFormats alg;
          ch_advertisedKeyTypes := DefaultAdvertisedKeyTypes |})
      end
  end.

Definition handlePing (serverTime : Z) (params : Entity) : result ConnectReply :=
  if negb (String.eqb (Type_ params) TypeNetworkPing) then Ok (Refused 400 "invalid_params")
  else match DecodePing (Data params) with
  | None => Ok (Refused 400 "invalid_params")
  | Some ping =>
      let! raw := of_option [] (EncodePong {|
        pong_Timestamp := ping_Timestamp ping; pong_Sequence := ping_Sequence ping; pong_ServerTime := serverTime |}) in
      let! ent := Ent.NewEntity alg TypeNetworkPong raw in
      Ok (Served ent ∅)
  end.

(** The state a processed hello leaves, on a connection that has one. *)
Definition hello_state (s : ConnState) (nonce : list byte) (activeFormat : byte) (peerID : string) : ConnState := {|
  st_Completed := st_Completed s; st_Phase := "awaiting_authenticate"; st_RemotePeerID := st_RemotePeerID s;
  st_HelloPeerID := peerID; st_OurNonce := nonce; st_TheirNonce := st_TheirNonce s;
  st_GrantedCapability := st_GrantedCapability s; st_FrameBudget := st_FrameBudget s;
  st_ActiveHashFormat := activeFormat; st_ObservedAddress := st_ObservedAddress s |}.

(** The key type of the peer id that a hello claims is refused, when it decodes. *)
Definition hello_key_refused (hello : HelloData) (decoded : bool) : bool :=
  if decoded && negb (String.eqb (hd_PeerID hello) "") then
    match Decode (hd_PeerID hello) with Ok dec => negb (supported_key_type (KeyType dec)) | Err _ => false end
  else false.

(** [rand] is what [rand.Read] yields, [None] a failure of the source. *)
Definition handleHello (h : ConnectHandler) (now : Z) (rand : option (list byte)) (params : Entity)
    (cs : option ConnState) : option ConnState * result ConnectReply :=
  let '(helloDataIn, helloDecoded) := DecodeHello (Data params) in
  if hello_key_refused helloDataIn helloDecoded then (cs, Ok (Refused 400 "unsupported_key_type"))
  else if (length (hd_Protocols helloDataIn) =? 0)%nat then (cs, Ok (Refused 400 "invalid_request"))
  else if negb (anyInBoth (hd_Protocols helloDataIn) (ch_protocols h))
  then (cs, Ok (Refused 400 "incompatible_protocol"))
  else
    let initiatorHashFormats := or_sha256 (hd_HashFormats helloDataIn) in
    let activeFormatString := firstMatchInOrder initiatorHashFormats (ch_advertisedHashFormats h) in
    if String.eqb activeFormatString "" then (cs, Ok (Refused 400 "incompatible_hash_format"))
    else match hashFormatStringToAlgorithm activeFormatString with
    | None => (cs, Ok (Refused 400 "incompatible_hash_format"))
    | Some activeFormat =>
        let initiatorKeyTypes := match hd_KeyTypes helloDataIn with [] => ["ed25519"] | l => l end in
        if negb (containsString initiatorKeyTypes (KeyTypeString (kp_KeyType (ch_localKeypair h))))
        then (cs, Ok (Refused 400 "unsupported_key_type"))
        else match rand with
        | None => (cs, Err [])
        | Some nonce =>
            let cs := (fun s => hello_state s nonce activeFormat (hd_PeerID helloDataIn)) <$> cs in
            (cs,
              let! rawHello := of_option [] (EncodeHello {|
                hd_PeerID := ch_localPeerID h; hd_Nonce := nonce; hd_Protocols := ch_protocols h;
                hd_Timestamp := now; hd_HashFormats := ch_advertisedHashFormats h;
                hd_KeyTypes := ch_advertisedKeyTypes h; hd_Compression := []; hd_Encryption := [] |}) in
              let! helloEntity := Ent.NewEntityFormat activeFormat TypeHello rawHello in
              Ok (Served helloEntity ∅))
        end
    end.

(** *** Grants of the connection *)

Definition readHandshakePolicyEntry (cs : CS) (li : L) (pattern : string) : option CapabilityPolicyEntryData :=
  match Get li (handshakePolicyPathPrefix +:+ "/" +:+ pattern) with
  | None => None
  | Some h => match cs_Get cs h with None => None | Some ent => DecodePolicyEntry (Data ent) end
  end.

Definition readHandshakePolicyGrants (cs : CS) (li : L) (callerIdentityHash : Hash) (callerPeerID : PeerID)
  : list GrantEntry :=
  let callerHex := hex_encode (Bytes callerIdentityHash) in
  match readHandshakePolicyEntry cs li callerHex with
  | Some entry => pe_Grants entry
  | None =>
      match (if (0 <? slen callerPeerID)%nat then readHandshakePolicyEntry cs li callerPeerID else None) with
      | Some entry => pe_Grants entry
      | None =>
          match readHandshakePolicyEntry cs li handshakePolicyFallbackSegment with
          | Some entry => pe_Grants entry
          | None => []
          end
      end
  end.

(** The floor: dynamic resolver, then static override, then the defaults. *)
Definition floor_grants (h : ConnectHandler) (remotePeerID : PeerID) (remoteIdentityHash : Hash) : list GrantEntry :=
  match match ch_grantResolver h with Some f => f remotePeerID remoteIdentityHash | None => None end with
  | Some grants => grants
  | None => match ch_connectionGrants h with Some grants => grants | None => DefaultConnectionGrants end
  end.

Definition AssembleInboundGrants (h : ConnectHandler) (store : option CS) (index : option L)
    (remotePeerID : PeerID) (remoteIdentityHash : Hash) : list GrantEntry :=
  let grants := floor_grants h remotePeerID remoteIdentityHash in
  let grants := match store, index with
    | Some cs, Some li => (grants ++ readHandshakePolicyGrants cs li remoteIdentityHash remotePeerID)%list
    | _, _ => grants
    end in
  match ch_advertisedScope h with
  | Some advertised => filterAdvertisedGrants grants advertised (ch_localPeerID h)
  | None => grants
  end.

Definition capGrantsEqual (a b : list GrantEntry) : result bool :=
  let! aRaw := of_option [] (EncodeGrants a) in
  let! bRaw := of_option [] (EncodeGrants b) in
  Ok (bool_decide (aRaw = bRaw)).

(** *** Minting *)

(** The capability and the signature of the session, when it can be used again. *)
Definition cached_capability (h : ConnectHandler) (cs : CS) (li : L) (remote : Hash) (grants : list GrantEntry)
    (now : Z) (activeFormat : byte) : option (Entity * Entity) :=
  match ReadMintedCapability cs li (ch_localPeerID h) remote with
  | None => None
  | Some mintedCap =>
      match CapabilityTokenDataFromEntity mintedCap with
      | Err _ => None
      | Ok cachedTok =>
          let grantsMatch := match capGrantsEqual (Grants cachedTok) grants with Ok b => b | Err _ => false end in
          let live := match ExpiresAt cachedTok with None => true | Some t => (now <? t)%Z end in
          let formatMatches := bool_decide (Algorithm (ContentHash mintedCap) = activeFormat) in
          if grantsMatch && live && formatMatches then
            match bound_entity cs li (InvariantSignaturePath (ch_localPeerID h) (ContentHash mintedCap)) with
            | None => None
            | Some sigEnt => Some (mintedCap, sigEnt)
            end
          else None
      end
  end.

(** A signature of [target] by the handler's key, in the given format; [None] is
    a panic. *)
Definition sign_entity (k : Keypair) (identity : Entity) (activeFormat : byte) (target : Entity)
  : option (result Entity) :=
  match Sign k (Bytes (ContentHash target)) with
  | None => None
  | Some sig => Some (
      let! raw := of_option [] (EncodeSignature {|
        Target := ContentHash target; Signer := ContentHash identity;
        sig_Algorithm := KeyTypeString (kp_KeyType k); Signature := sig |}) in
      Ent.NewEntityFormat activeFormat TypeSignature raw)
  end.

Definition connection_token (identity : Entity) (grants : list GrantEntry) (remote : Hash) (now : Z)
  : CapabilityTokenData := {|
  Grants := grants; Granter_ := SingleSigGranter (ContentHash identity); Grantee := remote; Parent := None;
  CreatedAt := now; ExpiresAt := None; NotBefore := None; DelegationCaveats := None |}.

Definition mint_capability (k : Keypair) (identity : Entity) (grants : list GrantEntry) (remote : Hash) (now : Z)
    (activeFormat : byte) : option (result (Entity * Entity)) :=
  match (let! raw := of_option [] (EncodeToken (connection_token identity grants remote now)) in
         Ent.NewEntityFormat activeFormat TypeCapToken raw) with
  | Err e => Some (Err e)
  | Ok capEntity =>
      match sign_entity k identity activeFormat capEntity with
      | None => None
      | Some sig => Some (let! capSigEntity := sig in Ok (capEntity, capSigEntity))
      end
  end.

Definition connected_status (peerID : PeerID) (now : Z) : PeerStatusData := {|
  ps_PeerID := peerID; ps_Status := PeerStatusConnected; ps_Reason := ""; ps_LastError := "";
  ps_ConnectedAt := now; ps_LastSeen := 0; ps_Connection := ""; ps_FailingSince := 0 |}.

(** What is written for a fresh capability; every error but that of the first
    put is dropped. *)
Definition persist_minted (h : ConnectHandler) (claimedPeerID : PeerID) (publicKey : list byte) (remote : Hash)
    (capEntity capSigEntity : Entity) (now : Z) (cs : CS) (li : L) : CS * L :=
  let '(cs, put) := cs_Put cs capEntity in
  match put with
  | Err _ => (cs, li)
  | Ok _ =>
      let '(cs, _) := cs_Put cs capSigEntity in
      let '(li, _) := Set_ li (InvariantSignaturePath (ch_localPeerID h) (ContentHash capEntity))
                        (ContentHash capSigEntity) in
      let '(cs, li, _) := WriteMintedSession alg cs li (ch_localPeerID h) claimedPeerID publicKey remote capEntity now 0 in
      let '(cs, li, _) := WritePeerStatus alg cs li (ch_localPeerID h) remote (connected_status claimedPeerID now) in
      (cs, li)
  end.

(** What the handler is given besides the parameters.  The two stores are
    present together or not at all where the code tests them. *)
Record ConnectContext := mkContext {
  cx_Store : option CS;
  cx_Index : option L;
  cx_Included : gmap Hash Entity;
  cx_State : option ConnState
}.

Definition auth_state (s : ConnState) (remotePeerID : PeerID) (capEntity : Entity) : ConnState := {|
  st_Completed := true; st_Phase := "completed"; st_RemotePeerID := remotePeerID;
  st_HelloPeerID := st_HelloPeerID s; st_OurNonce := st_OurNonce s; st_TheirNonce := st_TheirNonce s;
  st_GrantedCapability := Some capEntity; st_FrameBudget := st_FrameBudget s;
  st_ActiveHashFormat := st_ActiveHashFormat s; st_ObservedAddress := st_ObservedAddress s |}.

Definition zero_entity : Entity := mkEntity "" [] zero_hash.

(** The checks of [handleAuthenticate], in the order of the code: the
    authenticate data, the signature data and the state of the connection. *)
Definition check_authenticate (params : Entity) (included : gmap Hash Entity) (cs : option ConnState)
  : res (Z * string) (AuthenticateData * SignatureData * ConnState) :=
  let! authenticateData := of_option (400%Z, "invalid_authenticate") (DecodeAuthenticate (Data params)) in
  let claimedPeerID := ad_PeerID authenticateData in
  let claimedKeyType := match Decode claimedPeerID with Ok dec => KeyType dec | Err _ => Byte.x00 end in
  guard (is_ok (Decode claimedPeerID) && negb (supported_key_type claimedKeyType)) (400%Z, "unsupported_key_type")
  (let! s := of_option (401%Z, "invalid_nonce") cs in
   guard (length (st_OurNonce s) =? 0)%nat (401%Z, "invalid_nonce")
   (guard (negb (bool_decide (ad_Nonce authenticateData = st_OurNonce s))) (401%Z, "invalid_nonce")
   (let! authSig := of_option (401%Z, "authentication_failed")
      (Env.FindSignatureFor DecodeSigTarget (mkEnvelope zero_entity included) (ContentHash params)) in
    let! authSigData := res_map_err (fun _ => (401%Z, "authentication_failed")) (SignatureDataFromEntity authSig) in
    guard (negb (Verify claimedKeyType (ad_PublicKey authenticateData) (Bytes (ContentHash params))
                   (Signature authSigData))) (401%Z, "authentication_failed")
    (guard (negb (VerifyPublicKey claimedPeerID (ad_PublicKey authenticateData))) (401%Z, "identity_mismatch")
    (guard (negb (String.eqb (st_HelloPeerID s) "") && negb (String.eqb (ad_PeerID authenticateData) (st_HelloPeerID s)))
       (401%Z, "identity_mismatch")
    (Ok (authenticateData, authSigData, s))))))).

(** The rest of [handleAuthenticate]: the grants, the capability, the records and
    the answer. *)
Definition grant_connection (h : ConnectHandler) (now : Z) (ad : AuthenticateData) (sd : SignatureData) (s : ConnState)
    (cx : ConnectContext) : ConnectContext * option (result ConnectReply) :=
  let remote := Signer sd in
  let grants := AssembleInboundGrants h (cx_Store cx) (cx_Index cx) (ad_PeerID ad) remote in
  let cached := match cx_Store cx, cx_Index cx with
    | Some cs, Some li => cached_capability h cs li remote grants now (st_ActiveHashFormat s)
    | _, _ => None
    end in
  let answer (cx : ConnectContext) (capEntity capSigEntity : Entity) : ConnectContext * option (result ConnectReply) :=
    match (let! raw := of_option [] (EncodeCapGrant (ContentHash capEntity)) in Ent.NewEntity alg TypeCapGrant raw) with
    | Err e => (cx, Some (Err e))
    | Ok grantEntity =>
        (mkContext (cx_Store cx) (cx_Index cx) (cx_Included cx) (Some (auth_state s (ad_PeerID ad) capEntity)),
         Some (Ok (Served grantEntity
           (<[ContentHash capSigEntity := capSigEntity]>
             (<[ContentHash capEntity := capEntity]>
               {[ContentHash (ch_localIdentity h) := ch_localIdentity h]})))))
    end in
  match cached with
  | Some (capEntity, capSigEntity) => answer cx capEntity capSigEntity
  | None =>
      match mint_capability (ch_localKeypair h) (ch_localIdentity h) grants remote now (st_ActiveHashFormat s) with
      | None => (cx, None)
      | Some (Err e) => (cx, Some (Err e))
      | Some (Ok (capEntity, capSigEntity)) =>
          let cx := match cx_Store cx, cx_Index cx with
            | Some cs, Some li =>
                let '(cs, li) := persist_minted h (ad_PeerID ad) (ad_PublicKey ad) remote capEntity capSigEntity now cs li in
                mkContext (Some cs) (Some li) (cx_Included cx) (cx_State cx)
            | _, _ => cx
            end in
          answer cx capEntity capSigEntity
      end
  end.

Definition handleAuthenticate (h : ConnectHandler) (now : Z) (params : Entity) (cx : ConnectContext)
  : ConnectContext * option (result ConnectReply) :=
  match check_authenticate params (cx_Included cx) (cx_State cx) with
  | Err (status, code) => (cx, Some (Ok (Refused status code)))
  | Ok (ad, sd, s) => grant_connection h now ad sd s cx
  end.

Definition ConnectHandler_Handle (h : ConnectHandler) (now : Z) (rand : option (list byte)) (operation : string) (params : Entity)
    (cx : ConnectContext) : ConnectContext * option (result ConnectReply) :=
  if String.eqb operation "hello" then
    let '(cs, r) := handleHello h now rand params (cx_State cx) in
    (mkContext (cx_Store cx) (cx_Index cx) (cx_Included cx) cs, Some r)
  else if String.eqb operation "authenticate" then handleAuthenticate h now params cx
  else if String.eqb operation "ping" then (cx, Some (handlePing now params))
  else (cx, Some (Ok (Refused 400 "invalid_request"))).

(** ** The initiator *)

Definition Execute_entity (format : byte) (d : ExecuteData) : result Entity :=
  let! raw := of_option [] (EncodeExecute d) in Ent.NewEntityFormat format TypeExecute raw.

Definition connect_execute (requestID operation : string) (paramsRaw : list byte) : ExecuteData := {|
  RequestID := requestID; URI_ := connectPath; Operation := operation; Resource := None; Params := paramsRaw;
  Author := zero_hash; Capability := zero_hash |}.

(** The hello entity that is sent. *)
Definition initiator_hello (pid : PeerID) (protocols : list string) (nonce : list byte) (now : Z) : result Entity :=
  let! raw := of_option [] (EncodeHello {|
    hd_PeerID := pid; hd_Nonce := nonce; hd_Protocols := match protocols with [] => ["entity-core/1.0"] | l => l end;
    hd_Timestamp := now; hd_HashFormats := DefaultAdvertisedHashFormats alg; hd_KeyTypes := DefaultAdvertisedKeyTypes;
    hd_Compression := []; hd_Encryption := [] |}) in
  Ent.NewEntity alg TypeHello raw.

(** [None] is the panic of [Keypair.PeerID]. *)
Definition CreateHelloExecute (kp : Keypair) (protocols : list string) (rand : option (list byte)) (now : Z)
  : option (result (Envelope * list byte)) :=
  match rand with
  | None => Some (Err [])
  | Some nonce =>
      match PeerIDFromKeypair kp with
      | None => None
      | Some pid => Some (
          let! helloEntity := initiator_hello pid protocols nonce now in
          let! paramsRaw := of_option [] (EncodeRawEntity helloEntity) in
          let! execEntity := Execute_entity alg (connect_execute "connect-hello" "hello" paramsRaw) in
          Ok (mkEnvelope execEntity ∅, nonce))
      end
  end.

(** The authenticate entity with its identity and signature entities. *)
Definition initiator_authenticate (kp : Keypair) (theirNonce : list byte) (activeFormat : byte)
  : option (result (Entity * Entity * Entity)) :=
  match IdentityEntity kp with
  | Err e => Some (Err e)
  | Ok identity =>
      match PeerIDFromKeypair kp with
      | None => None
      | Some pid =>
          match (let! raw := of_option [] (EncodeAuthenticate {|
                   ad_PeerID := pid; ad_PublicKey := kp_PublicKey kp;
                   ad_KeyType := KeyTypeString (kp_KeyType kp); ad_Nonce := theirNonce |}) in
                 Ent.NewEntityFormat activeFormat TypeAuthenticate raw) with
          | Err e => Some (Err e)
          | Ok authenticateEntity =>
              match sign_entity kp identity activeFormat authenticateEntity with
              | None => None
              | Some sig => Some (let! sigEntity := sig in Ok (authenticateEntity, identity, sigEntity))
              end
          end
      end
  end.

Definition CreateAuthenticateExecuteFormat (kp : Keypair) (theirNonce : list byte) (activeFormat : byte)
  : option (result Envelope) :=
  match initiator_authenticate kp theirNonce activeFormat with
  | None => None
  | Some r => Some (
      let! (authenticateEntity, identity, sigEntity) := r in
      let! paramsRaw := of_option [] (EncodeRawEntity authenticateEntity) in
      let! execEntity := Execute_entity activeFormat (connect_execute "connect-authenticate" "authenticate" paramsRaw) in
      Ok (mkEnvelope execEntity (<[ContentHash sigEntity := sigEntity]> {[ContentHash identity := identity]})))
  end.

Definition CreateAuthenticateExecute (kp : Keypair) (theirNonce : list byte) : option (result Envelope) :=
  CreateAuthenticateExecuteFormat kp theirNonce alg.
End connect.
Arguments ConnectContext : clear implicits.
Arguments mkContext {CS L} _ _ _ _.
