(* ===== verification/Handshake.v ===== *)
(** * Connections over their frames

    A responder serves the frames of a connection one after the other: the
    dispatcher's gate ([Dispatch.connect_gate]) lets the connect operation of the
    current phase through, [dispatchToHandler] of [core/protocol/execute.go] hands
    it to the connect handler, and the handler moves the state of the connection.
    This file composes the three and proves, over all sequences of frames, what a
    completed handshake stands for; and that the two requests the initiator
    builds complete it. *)

From S2P Require Import Prelude GoStrings Errors Hash PeerID Entity Paths CapTypes Patterns Delegation Chain Requests Store Revoked Dispatch Session Connect.
Open Scope string_scope.

(** ** A frame *)

Section frames.
Context {CS L IX : Type} `{ContentStoreLaws CS} `{LocationIndex L} `{CapabilityIndex IX}.
Context `{Base58, Signing, DataCodec, MapOrder, HandlerCodec, TokenEncoding, KeySigning, SessionCodec, ConnectCodec}.
Context (alg : byte).

(** What becomes of a connect request: an answer, an expression that is bound in
    place of the handler, or a panic of the handler. *)
Inductive ConnectOutcome :=
| Answered (r : ConnectReply)
| Evaluated (exprPath : string)
| Panicked.

(** The compiled implementation of the connect pattern is the connect handler. *)
Definition dispatchToHandler (h : ConnectHandler) (now : Z) (rand : option (list byte)) (d : Dispatcher CS L IX)
    (handlerPath : string) (execData : ExecuteData) (env : Envelope) (connState : option ConnState)
  : Dispatcher CS L IX * option ConnState * ConnectOutcome :=
  match resolveHandler d handlerPath with
  | Err code =>
      (d, connState, Answered (if String.eqb code "no_impl" then Refused 404 "not_found"
                               else if String.eqb code "decode_failed" then Refused 500 "internal_error"
                               else Refused 404 "handler_not_found"))
  | Ok res =>
      match decode_params execData with
      | Err _ => (d, connState, Answered (Refused 400 "invalid_params"))
      | Ok params =>
          if negb (String.eqb (ExpressionPath (res_handlerData res)) "") then
            if negb (EvaluateExpression d) then (d, connState, Answered (Refused 501 "unsupported_operation"))
            else (d, connState, Evaluated (qualifyIfRelative (LocalPeerID d) (ExpressionPath (res_handlerData res))))
          else
            let '(cx, r) := ConnectHandler_Handle alg h now rand (Operation execData) (default zero_entity params)
                  (mkContext (Some (d_Store d)) (Some (d_LocationIndex d)) (Included env) connState) in
            let d := match cx_Store cx, cx_Index cx with
                     | Some cs, Some li => with_stores d cs li
                     | _, _ => d
                     end in
            (d, cx_State cx, match r with
                             | None => Panicked
                             | Some (Err _) => Answered (Refused 500 "handler_error")
                             | Some (Ok reply) => Answered reply
                             end)
      end
  end.

(** A frame with the state of the peer it meets: between two frames of one
    connection the stores may change in any way. *)
Record Frame := {
  f_dispatcher : Dispatcher CS L IX;
  f_env : Envelope;
  f_clock : nat -> Z;
  f_now : Z;
  f_gnow : Z;
  f_rand : option (list byte)
}.

Definition serve_connect (h : ConnectHandler) (f : Frame) (s : ConnState)
  : option (Dispatcher CS L IX * option ConnState * ConnectOutcome) :=
  match DispatchEnvelope (f_clock f) (f_now f) (f_gnow f) (f_dispatcher f) (f_env f) (Some (gate_view s)) with
  | (d, ToConnect path op) =>
      match ExecuteDataFromEntity (Root (f_env f)) with
      | Ok execData => Some (dispatchToHandler h (f_now f) (f_rand f) d path execData (f_env f) (Some s))
      | Err _ => None
      end
  | _ => None
  end.

(** The state of the connection after a frame; other requests leave it alone. *)
Definition next_state (h : ConnectHandler) (s : ConnState) (f : Frame) : ConnState :=
  match serve_connect h f s with
  | Some (_, Some s', _) => s'
  | _ => s
  end.

Definition connection (h : ConnectHandler) (fs : list Frame) : ConnState := foldl (next_state h) NewConnectionState fs.

(** The parameters of the request in a frame. *)
Definition frame_params (f : Frame) : option Entity :=
  match ExecuteDataFromEntity (Root (f_env f)) with
  | Ok ex => match decode_params ex with Ok p => Some (default zero_entity p) | Err _ => None end
  | Err _ => None
  end.

Definition frame_operation (f : Frame) : string :=
  match ExecuteDataFromEntity (Root (f_env f)) with Ok ex => Operation ex | Err _ => "" end.
End frames.
Arguments Frame : clear implicits.

Global Instance ConnState_eq_dec : EqDecision ConnState.
Proof. solve_decision. Defined.

(** ** What a completed handshake stands for *)

Section possession.
Context {CS L IX : Type} `{ContentStoreLaws CS} `{LocationIndex L} `{CapabilityIndex IX}.
Context `{Base58, Signing, DataCodecLaws, MapOrder, HandlerCodec, TokenEncoding, KeySigning, SessionCodec, ConnectCodec}.
Context (alg : byte) (h : ConnectHandler).
Abbreviation Frame_ := (Frame CS L IX).

(** A frame that this connection took as its hello: it issued the nonce [n],
    chose the format [fmt], and named the peer [pid]. *)
Definition hello_frame (f : Frame_) (n : list byte) (fmt : byte) (pid : string) : Prop :=
  frame_operation f = "hello" /\ f_rand f = Some n
  /\ exists params hello ok, frame_params f = Some params /\ DecodeHello (Data params) = (hello, ok)
       /\ hd_PeerID hello = pid
       /\ anyInBoth (hd_Protocols hello) (ch_protocols h) = true
       /\ NegotiateActiveHashFormat (hd_HashFormats hello) (ch_advertisedHashFormats h)
          = Some (fmt, firstMatchInOrder (or_sha256 (hd_HashFormats hello))
                         (ch_advertisedHashFormats h)).

(** A frame whose authenticate request proves possession of the key of [pid]:
    its data echo the nonce and name [pid], and a signature that came with it
    verifies, over the hash that the request's entity carries, under a key that
    [pid] binds. *)
Definition proof_frame (f : Frame_) (n : list byte) (pid : string) (params : Entity) : Prop :=
  frame_operation f = "authenticate" /\ frame_params f = Some params
  /\ exists ad sd dec k e, DecodeAuthenticate (Data params) = Some ad
       /\ ad_Nonce ad = n /\ ad_PeerID ad = pid
       /\ Decode pid = Ok dec /\ supported_key_type (KeyType dec) = true
       /\ VerifyPublicKey pid (ad_PublicKey ad) = true
       /\ Included (f_env f) !! k = Some e /\ Type_ e = TypeSignature
       /\ SignatureDataFromEntity e = Ok sd /\ Target sd = ContentHash params
       /\ Verify (KeyType dec) (ad_PublicKey ad) (Bytes (ContentHash params)) (Signature sd) = true.

Lemma gate_operation (f : Frame_) s d path op :
  DispatchEnvelope (f_clock f) (f_now f) (f_gnow f) (f_dispatcher f) (f_env f) (Some (gate_view s)) = (d, ToConnect path op) ->
  op = frame_operation f
  /\ op = (if st_Completed s then "ping"
           else if String.eqb (st_Phase s) "awaiting_authenticate" then "authenticate" else "hello").
Proof.
  intros Hd. pose proof (connection_gate (f_clock f) (f_now f) (f_gnow f) (f_dispatcher f) (f_env f) (gate_view s)) as Hg.
  rewrite Hd in Hg. cbn [conn_Completed conn_Phase gate_view] in Hg. split.
  - unfold DispatchEnvelope in Hd. destruct (Env.ValidateAll _); [|done]. destruct (String.eqb _ _); [|done].
    unfold handleExecute in Hd. unfold frame_operation. destruct (ExecuteDataFromEntity _) as [ex|]; [|done].
    destruct (negb _); [done|]. cbv zeta in Hd. destruct (is_connect_path _).
    + unfold connect_gate in Hd. by repeat (destr_in Hd; try done; try (by injection Hd as <- <- <-)).
    + cbv beta iota in Hd. destruct (negb (conn_Completed _)); [done|].
      destruct (VerifyRequestWithBinding _ _ _ _ _) as [[]|e]; [|unfold auth_refusal in Hd; by repeat destr_in Hd].
      destruct (match Env.FindIncluded _ _ with Some _ => _ | None => _ end); [done|].
      destruct (IngestEnvelopeSignatures _ _ _) as [[cs li] [[]|e]]; [|done].
      unfold authorize in Hd. by repeat (destr_in Hd; try done).
  - destruct (st_Completed s); [by destruct Hg as [_ Hg]; apply (Hg eq_refl path op)|].
    destruct Hg as [Hg _]. by destruct (Hg eq_refl) as [_ [_ ?]].
Qed.

(** A change of the state of the connection comes from the handler. *)
Lemma next_state_handled (f : Frame_) s s' :
  next_state alg h s f = s' -> s' <> s ->
  exists params cx,
    frame_params f = Some params /\ cx_Included cx = Included (f_env f) /\ cx_State cx = Some s
    /\ cx_State (fst (ConnectHandler_Handle alg h (f_now f) (f_rand f) (frame_operation f) params (cx : ConnectContext CS L))) = Some s'
    /\ frame_operation f = (if st_Completed s then "ping"
           else if String.eqb (st_Phase s) "awaiting_authenticate" then "authenticate" else "hello").
Proof.
  unfold next_state, serve_connect. intros Hn Hne.
  destruct (DispatchEnvelope _ _ _ _ _ _) as [d v] eqn:Hd. destruct v as [| |path op| |]; try congruence.
  apply gate_operation in Hd as [Hop Hph]. rewrite <- Hop. unfold frame_operation in Hop. unfold frame_params.
  destruct (ExecuteDataFromEntity _) as [ex|]; [|congruence]. unfold dispatchToHandler in Hn.
  destruct (resolveHandler _ _) as [res|]; [|congruence]. destruct (decode_params ex) as [p|]; [|congruence].
  destruct (negb (String.eqb (ExpressionPath _) "")); [by destruct (negb _)|].
  rewrite <- Hop in Hn.
  destruct (ConnectHandler_Handle alg h (f_now f) (f_rand f) op _ _) as [cx r] eqn:Hh. 
  exists (default zero_entity p), (mkContext (Some (d_Store d)) (Some (d_LocationIndex d)) (Included (f_env f)) (Some s)).
  rewrite Hh. cbn [fst]. split_and!; try done. by destruct (cx_State cx) as [s''|]; [rewrite Hn|congruence].
Qed.

Lemma handleHello_state now rand params s s' :
  fst (handleHello h now rand params (Some s)) = Some s' -> s' <> s ->
  exists n fmt hello ok, rand = Some n /\ DecodeHello (Data params) = (hello, ok)
    /\ anyInBoth (hd_Protocols hello) (ch_protocols h) = true
    /\ firstMatchInOrder (or_sha256 (hd_HashFormats hello))
         (ch_advertisedHashFormats h) <> ""
    /\ hashFormatStringToAlgorithm (firstMatchInOrder (or_sha256 (hd_HashFormats hello))
         (ch_advertisedHashFormats h)) = Some fmt
    /\ s' = hello_state s n fmt (hd_PeerID hello).
Proof.
  unfold handleHello. destruct (DecodeHello (Data params)) as [hello ok].
  destruct (hello_key_refused _ _); [cbn; congruence|]. destruct (length _ =? 0)%nat; [cbn; congruence|].
  destruct (anyInBoth _ _) eqn:Hp; cbn [negb]; [|cbn; congruence]. cbv zeta.
  destruct (String.eqb_spec (firstMatchInOrder (or_sha256 (hd_HashFormats hello))
    (ch_advertisedHashFormats h)) "") as [|Hm]; [cbn; congruence|].
  destruct (hashFormatStringToAlgorithm _) as [fmt|] eqn:Hf; [|cbn; congruence].
  destruct (negb (containsString _ _)); [cbn; congruence|]. destruct rand as [n|]; [|cbn; congruence].
  cbn [fst fmap option_fmap option_map]. intros [= <-] _. exists n, fmt, hello, ok. split_and!; done.
Qed.

Lemma negotiate_of_match prefs adv fmt :
  adv <> [] ->
  firstMatchInOrder (or_sha256 prefs) adv <> "" ->
  hashFormatStringToAlgorithm (firstMatchInOrder (or_sha256 prefs) adv) = Some fmt ->
  NegotiateActiveHashFormat prefs adv
  = Some (fmt, firstMatchInOrder (or_sha256 prefs) adv).
Proof.
  intros Hne Hm Hf. unfold NegotiateActiveHashFormat. assert (or_sha256 adv = adv) as -> by (by destruct adv).
  destruct (String.eqb_spec (firstMatchInOrder (or_sha256 prefs) adv) ""); [done|]. by rewrite Hf.
Qed.

Lemma firstMatch_nonempty l acc : firstMatchInOrder l acc <> "" -> acc <> [].
Proof.
  intros Hm ->. apply Hm. unfold firstMatchInOrder.
  destruct (List.find _ _) as [v|] eqn:Hf; [|done]. by apply find_some in Hf as [_ ?].
Qed.

Lemma check_authenticate_ok params included cs ad sd s :
  check_authenticate params included cs = Ok (ad, sd, s) ->
  cs = Some s /\ DecodeAuthenticate (Data params) = Some ad /\ st_OurNonce s <> []
  /\ ad_Nonce ad = st_OurNonce s
  /\ (exists k e, included !! k = Some e /\ Type_ e = TypeSignature /\ SignatureDataFromEntity e = Ok sd
        /\ Target sd = ContentHash params)
  /\ VerifyPublicKey (ad_PeerID ad) (ad_PublicKey ad) = true
  /\ (exists dec, Decode (ad_PeerID ad) = Ok dec /\ supported_key_type (KeyType dec) = true
        /\ Verify (KeyType dec) (ad_PublicKey ad) (Bytes (ContentHash params)) (Signature sd) = true)
  /\ (st_HelloPeerID s = "" \/ st_HelloPeerID s = ad_PeerID ad).
Proof.
  unfold check_authenticate. intros Hc.
  destruct (DecodeAuthenticate (Data params)) as [ad0|] eqn:Had; [|done]. cbn [of_option res_bind] in Hc. cbv zeta in Hc.
  destruct (Decode (ad_PeerID ad0)) as [dec|er] eqn:Hdec; cbn [is_ok andb guard] in Hc.
  2:{ exfalso. inv_ok. bool_prop.
      match goal with Hv : VerifyPublicKey _ _ = true |- _ => unfold VerifyPublicKey in Hv; by rewrite Hdec in Hv end. }
  destruct (supported_key_type (KeyType dec)) eqn:Hsup; cbn [negb guard] in Hc; [|done].
  destruct cs as [s0|]; [|done]. cbn [of_option res_bind] in Hc. inv_ok. bool_prop.
  match goal with Hf : Env.FindSignatureFor _ _ _ = Some ?e |- _ =>
    apply Env.FindSignatureFor_sound in Hf as (k & Hk & Hty & Htg) end.
  split_and!; try done.
  - intros Hnil. match goal with Hl : length (st_OurNonce s) <> 0%nat |- _ => by rewrite Hnil in Hl end.
  - eexists k, _. split_and!; [exact Hk|exact Hty|eassumption|].
    match goal with Hs : SignatureDataFromEntity _ = Ok _ |- _ => unfold SignatureDataFromEntity in Hs end. inv_ok.
    by eapply sig_target_agrees.
  - by exists dec.
  - match goal with Hb : negb (String.eqb (st_HelloPeerID s) "") && _ = false |- _ =>
      apply andb_false_iff in Hb as [Hb|Hb]; apply negb_false_iff, String.eqb_eq in Hb; auto end.
Qed.

Lemma grant_connection_state now ad sd s (cx : ConnectContext CS L) s' :
  cx_State cx = Some s -> cx_State (fst (grant_connection alg h now ad sd s cx)) = Some s' ->
  s' = s \/ exists cap, s' = auth_state s (ad_PeerID ad) cap.
Proof.
  intros Hs. unfold grant_connection. cbv zeta.
  destruct (match cx_Store cx, cx_Index cx with
    | Some cs, Some li => cached_capability h cs li (Signer sd) _ now (st_ActiveHashFormat s)
    | _, _ => None end) as [[capE sigE]|].
  - destruct (res_bind _ _) as [g|]; cbn [fst cx_State]; [|rewrite Hs; intros [= <-]; by left].
    intros [= <-]. right. by eexists.
  - destruct (mint_capability _ _ _ _ _ _) as [[[capE sigE]|]|]; [|cbn [fst]; rewrite Hs; intros [= <-]; by left..].
    destruct (res_bind _ _) as [g|]; cbn [fst cx_State].
    + intros [= <-]. right. by eexists.
    + intros Hx. left. destruct (cx_Store cx), (cx_Index cx); cbn in Hx; try destruct (persist_minted _ _ _ _ _ _ _ _ _ _);
        cbn in Hx; congruence.
Qed.

Definition issued (fs : list Frame_) (n : list byte) (fmt : byte) (pid : string) : Prop :=
  exists fs1 fh fs2, fs = (fs1 ++ fh :: fs2)%list /\ connection alg h fs1 = NewConnectionState /\ hello_frame fh n fmt pid.

Lemma issued_snoc fs f n fmt pid : issued fs n fmt pid -> issued (fs ++ [f]) n fmt pid.
Proof.
  intros (fs1 & fh & fs2 & -> & Hn & Hh). exists fs1, fh, (fs2 ++ [f])%list.
  by rewrite <- app_assoc.
Qed.

(** The states of a connection, with the frames that led to them. *)
Inductive connection_at (fs : list Frame_) : ConnState -> Prop :=
| at_init : connection_at fs NewConnectionState
| at_hello n fmt pid : issued fs n fmt pid -> connection_at fs (hello_state NewConnectionState n fmt pid)
| at_completed n fmt pid rpid cap fs1 fa fs2 params :
    fs = (fs1 ++ fa :: fs2)%list -> issued fs1 n fmt pid -> n <> [] -> (pid = "" \/ pid = rpid) ->
    proof_frame fa n rpid params ->
    connection_at fs (auth_state (hello_state NewConnectionState n fmt pid) rpid cap).

Lemma connection_at_snoc fs f s : connection_at fs s -> connection_at (fs ++ [f]) s.
Proof.
  intros [|n fmt pid Hi|n fmt pid rpid cap fs1 fa fs2 params -> Hi Hn Hp Hf]; [constructor..|].
  - by apply issued_snoc.
  - eapply at_completed; [|done..]. by rewrite <- app_assoc.
Qed.

(** One more frame. *)
Lemma connection_step fs f s :
  connection alg h fs = s -> connection_at fs s -> connection_at (fs ++ [f]) (next_state alg h s f).
Proof.
  intros Hc Hat. destruct (decide (next_state alg h s f = s)) as [->|Hne]; [by apply connection_at_snoc|].
  destruct (next_state_handled f _ _ eq_refl Hne) as (params & cx & Hp & Hinc & Hst & Hh & Hop).
  revert Hne Hh. generalize (next_state alg h s f) as s'. intros s' Hne Hh. rewrite Hop in Hh.
  destruct Hat as [|n fmt pid Hi|n fmt pid rpid cap fs1 fa fs2 params' Hfs Hi Hn Hpid Hf].
  - cbn in Hop, Hh. rewrite Hst in Hh.
    destruct (handleHello h (f_now f) (f_rand f) params (Some NewConnectionState)) as [cs' r] eqn:He. cbn in Hh.
    destruct (handleHello_state (f_now f) (f_rand f) params NewConnectionState s')
      as (n & fmt & hello & ok & Hr & Hd & Ha & Hm & Hf & ->); [by rewrite He|done|].
    apply at_hello. exists fs, f, []. do 4 (split; [done|]).
    exists params, hello, ok. split_and!; try done. apply negotiate_of_match; [by eapply firstMatch_nonempty|done|done].
  - cbn in Hop. unfold ConnectHandler_Handle in Hh. cbn [st_Completed st_Phase hello_state NewConnectionState String.eqb Ascii.eqb Bool.eqb] in Hh.
    unfold handleAuthenticate in Hh. destruct (check_authenticate _ _ _) as [[[ad sd] s0]|[st code]] eqn:Hck;
      [|cbn in Hh; congruence].
    apply check_authenticate_ok in Hck as (Hs0 & Had & Hnn & Hnonce & (k & e & Hk & Hty & Hsd & Htg) & Hvp & (dec & Hdec & Hsup & Hv) & Hpid).
    rewrite Hst in Hs0. injection Hs0 as <-.
    apply grant_connection_state in Hh as [?|[cap ->]]; [congruence| |done].
    eapply (at_completed _ n fmt pid (ad_PeerID ad) cap fs f [] params); try done.
    do 2 (split; [done|]). exists ad, sd, dec, k, e. rewrite Hinc in Hk. by split_and!.
  - cbn in Hop, Hh. congruence.
Qed.

Lemma connection_states fs : connection_at fs (connection alg h fs).
Proof.
  induction fs as [|f fs IH] using rev_ind; [constructor|].
  unfold connection. rewrite foldl_app. cbn [foldl]. fold (connection alg h fs). by apply connection_step.
Qed.

(** C5: a completed handshake proves possession of a key. Whatever frames a
    connection served, and however the stores changed between them, if the
    connection counts as completed then one of the frames was its hello, which
    met the connection in its initial state, agreed on a protocol and a hash
    format and issued a nonce, and a later frame was an authenticate request
    that echoed this nonce and came with a signature which verifies, over the
    hash that the request's entity carries, under a key that the peer id of the
    connection binds and whose type is supported; and this peer id is the one
    that the hello named, if it named one.  Before that the connection has no
    remote peer and no capability. *)
Theorem handshake_proves_possession (fs : list Frame_) :
  let s := connection alg h fs in
  (st_Completed s = true ->
     st_Phase s = "completed" /\ is_Some (st_GrantedCapability s)
     /\ exists fs1 fh fs2 fa fs3 pid params,
          fs = (fs1 ++ fh :: fs2 ++ fa :: fs3)%list
          /\ connection alg h fs1 = NewConnectionState
          /\ hello_frame fh (st_OurNonce s) (st_ActiveHashFormat s) pid /\ st_OurNonce s <> []
          /\ proof_frame fa (st_OurNonce s) (st_RemotePeerID s) params
          /\ (pid = "" \/ pid = st_RemotePeerID s))
  /\ (st_Completed s = false -> st_RemotePeerID s = "" /\ st_GrantedCapability s = None).
Proof.
  cbv zeta. destruct (connection_states fs) as [|n fmt pid Hi|n fmt pid rpid cap fs1 fa fs2 params -> Hi Hn Hpid Hf];
    [by split..|].
  split; [|done]. intros _. split; [done|]. split; [by eexists|].
  destruct Hi as (fs0 & fh & fs3 & -> & Hnew & Hh). exists fs0, fh, fs3, fa, fs2, pid, params.
  split_and!; [by rewrite <- app_assoc|done..].
Qed.
End possession.

(** ** Encoders that do not fail

    What the handshake relies on of the CBOR codec: the encoders accept the data
    that the code builds, and the decoders give it back. *)
Class HandshakeCodecLaws `{HashableCodec, DataCodec, TokenEncoding, SessionCodec, ConnectCodec} := {
  hello_encodes d : exists raw, EncodeHello d = Some raw /\ raw <> [] /\ DecodeHello raw = (d, true);
  authenticate_encodes d : exists raw, EncodeAuthenticate d = Some raw /\ raw <> [] /\ DecodeAuthenticate raw = Some d;
  signature_encodes d : exists raw, EncodeSignature d = Some raw /\ raw <> [] /\ DecodeSignature raw = Some d
    /\ DecodeSigTarget raw = Some (Target d);
  token_encodes d : exists raw, EncodeToken d = Some raw /\ raw <> [] /\ DecodeToken raw = Some d;
  peer_encodes d : exists raw, EncodePeer d = Some raw /\ raw <> [] /\ DecodePeer raw = Some d;
  cap_grant_encodes t : exists raw, EncodeCapGrant t = Some raw /\ raw <> [];
  execute_encodes d : exists raw, EncodeExecute d = Some raw /\ raw <> [];
  raw_entity_encodes e : is_Some (EncodeRawEntity e);
  hashable_encodes ty d : is_Some (EncodeHashable ty d)
}.

(** A key pair of a supported type whose signatures verify under its public key. *)
Definition signing_pair `{Signing, KeySigning} (kp : Keypair) : Prop :=
  supported_key_type (kp_KeyType kp) = true
  /\ forall msg sig, Sign kp msg = Some sig -> Verify (kp_KeyType kp) (kp_PublicKey kp) msg sig = true.

Section honest.
Context {CS L : Type} `{ContentStore CS} `{LocationIndex L}.
Context `{Base58Laws, Signing, MapOrder, KeySigning, HandshakeCodecLaws}.

Lemma NewEntityFormat_builds fmt ty data :
  supported fmt -> ty <> "" -> data <> [] -> ty <> "system/peer" \/ fmt = AlgorithmSHA256 ->
  exists e, Ent.NewEntityFormat fmt ty data = Ok e /\ Type_ e = ty /\ Data e = data /\ Algorithm (ContentHash e) = fmt.
Proof.
  intros Hs Ht Hd Hp. pose proof (Ent.NewEntityFormat_spec fmt ty data) as Hn.
  destruct (Ent.NewEntityFormat fmt ty data) as [e|er]; [destruct Hn as (? & ? & _ & ? & _); by exists e|].
  exfalso. destruct Hn as [[_ [?|[?|[? ?]]]]|Hc]; [done|done|tauto|].
  unfold ComputeFormat in Hc. destruct (hashable_encodes ty data) as [enc He]. rewrite He in Hc.
  cbn in Hc. unfold OfBytes in Hc. destruct Hs as [-> | ->]; done.
Qed.

Lemma Sign_supported kp msg : supported_key_type (kp_KeyType kp) = true -> is_Some (Sign kp msg).
Proof.
  unfold supported_key_type, Sign. intros Hk. case_decide as H25; [by eexists|]. case_decide as H448; [by eexists|].
  rewrite !bool_decide_false in Hk by done. done.
Qed.

Lemma format_supported s fmt : hashFormatStringToAlgorithm s = Some fmt -> supported fmt.
Proof.
  unfold hashFormatStringToAlgorithm. destruct (String.eqb s _); [intros [= <-]; by left|].
  destruct (String.eqb s _); [intros [= <-]; by right|done].
Qed.

Lemma KeyTypeString_supported kt : supported_key_type kt = true -> String.eqb (KeyTypeString kt) "" = false.
Proof.
  unfold supported_key_type, KeyTypeString. intros Hk. repeat (case_decide; [done|]). by rewrite !bool_decide_false in Hk.
Qed.

Lemma IdentityEntity_builds kp :
  supported_key_type (kp_KeyType kp) = true -> exists ide, IdentityEntity kp = Ok ide /\ Type_ ide = TypePeer
    /\ PeerDataFromEntity ide = Ok {| PublicKey := kp_PublicKey kp; pd_KeyType := KeyTypeString (kp_KeyType kp) |}.
Proof.
  intros Hk. unfold IdentityEntity. rewrite KeyTypeString_supported by done.
  destruct (peer_encodes {| PublicKey := kp_PublicKey kp; pd_KeyType := KeyTypeString (kp_KeyType kp) |}) as (raw & -> & Hne & Hdec).
  cbn [of_option res_bind].
  destruct (NewEntityFormat_builds AlgorithmSHA256 TypePeer raw) as (e & He & Hty & Hd & _); [by left|done|done|by right|].
  exists e. split_and!; [done|done|]. unfold PeerDataFromEntity. by rewrite Hd, Hdec.
Qed.

Lemma sign_entity_builds kp ide fmt target :
  supported_key_type (kp_KeyType kp) = true -> supported fmt ->
  exists sig se, Sign kp (Bytes (ContentHash target)) = Some sig /\ sign_entity kp ide fmt target = Some (Ok se)
    /\ Type_ se = TypeSignature
    /\ DecodeSigTarget (Data se) = Some (ContentHash target)
    /\ SignatureDataFromEntity se = Ok {| Target := ContentHash target; Signer := ContentHash ide;
         sig_Algorithm := KeyTypeString (kp_KeyType kp); Signature := sig |}.
Proof.
  intros Hk Hf. destruct (Sign_supported kp (Bytes (ContentHash target)) Hk) as [sig Hs]. unfold sign_entity. rewrite Hs.
  match goal with |- context [EncodeSignature ?d] => destruct (signature_encodes d) as (raw & -> & Hne & Hdec & Htg) end.
  cbn [of_option res_bind].
  destruct (NewEntityFormat_builds fmt TypeSignature raw) as (e & He & Hty & Hd & _); [done|done|done|by left|].
  exists sig, e. rewrite He. split_and!; try done; [by rewrite Hd|]. unfold SignatureDataFromEntity. by rewrite Hd, Hdec.
Qed.

Lemma mint_capability_builds kp ide grants remote now fmt :
  supported_key_type (kp_KeyType kp) = true -> supported fmt ->
  exists capE sigE, mint_capability kp ide grants remote now fmt = Some (Ok (capE, sigE))
    /\ CapabilityTokenDataFromEntity capE = Ok (connection_token ide grants remote now)
    /\ Algorithm (ContentHash capE) = fmt.
Proof.
  intros Hk Hf. unfold mint_capability.
  destruct (token_encodes (connection_token ide grants remote now)) as (raw & -> & Hne & Hdec). cbn [of_option res_bind].
  destruct (NewEntityFormat_builds fmt TypeCapToken raw) as (e & -> & Hty & Hd & Ha); [done|done|done|by left|].
  destruct (sign_entity_builds kp ide fmt e Hk Hf) as (sig & se & _ & -> & _). cbn [res_bind].
  exists e, se. split_and!; [done| |done]. unfold CapabilityTokenDataFromEntity. by rewrite Hd, Hdec.
Qed.

(** Past the checks, the handler answers with a capability. *)
Lemma grant_connection_completes alg h now ad sd s (cx : ConnectContext CS L) :
  supported alg -> supported (st_ActiveHashFormat s) -> supported_key_type (kp_KeyType (ch_localKeypair h)) = true ->
  exists cx' capE g inc, grant_connection alg h now ad sd s cx = (cx', Some (Ok (Served g inc)))
    /\ cx_State cx' = Some (auth_state s (ad_PeerID ad) capE)
    /\ EncodeCapGrant (ContentHash capE) = Some (Data g).
Proof.
  intros Ha Hf Hk. unfold grant_connection. cbv zeta.
  assert (Hg : forall capE, exists g, (let! raw := of_option [] (EncodeCapGrant (ContentHash capE)) in
      Ent.NewEntity alg TypeCapGrant raw) = Ok g /\ EncodeCapGrant (ContentHash capE) = Some (Data g)).
  { intros capE. destruct (cap_grant_encodes (ContentHash capE)) as (raw & Hr & Hne). rewrite Hr. cbn [of_option res_bind].
    destruct (NewEntityFormat_builds alg TypeCapGrant raw) as (g & Hg & _ & Hd & _); [done|done|done|by left|].
    exists g. by rewrite Hd. }
  destruct (match cx_Store cx, cx_Index cx with
    | Some cs, Some li => cached_capability h cs li (Signer sd) _ now (st_ActiveHashFormat s)
    | _, _ => None end) as [[capE sigE]|].
  - destruct (Hg capE) as (g & -> & Hd). by eexists _, capE, g, _.
  - destruct (mint_capability_builds (ch_localKeypair h) (ch_localIdentity h)
      (AssembleInboundGrants h (cx_Store cx) (cx_Index cx) (ad_PeerID ad) (Signer sd)) (Signer sd) now (st_ActiveHashFormat s))
      as (capE & sigE & -> & _); [done|done|].
    destruct (Hg capE) as (g & -> & Hd). by eexists _, capE, g, _.
Qed.

(** The one signature entity among a peer's identity and its signature. *)
Lemma FindSignatureFor_pair ide se target :
  Type_ ide = TypePeer -> Type_ se = TypeSignature -> DecodeSigTarget (Data se) = Some target ->
  Env.FindSignatureFor DecodeSigTarget
    (mkEnvelope zero_entity (<[ContentHash se := se]> {[ContentHash ide := ide]})) target = Some se.
Proof.
  intros Hi Hs Ht. unfold Env.FindSignatureFor.
  match goal with |- snd <$> List.find ?p ?l = _ => destruct (List.find p l) as [[k e]|] eqn:Hf end; cbn [fmap option_fmap option_map snd].
  - apply find_some in Hf as [Hin Hp]. apply list_elem_of_In, elem_of_map_range in Hin. cbn [Included] in Hin.
    apply lookup_insert_Some in Hin as [[_ <-]|[_ [_ <-]%lookup_singleton_Some]]; [done|]. cbn [snd] in Hp. by rewrite Hi in Hp.
  - exfalso. eapply find_none in Hf.
    2:{ apply list_elem_of_In, (elem_of_map_range _ _ _ (ContentHash se) se). apply lookup_insert_eq. }
    cbn [snd] in Hf. rewrite Hs, Ht in Hf. by rewrite bool_decide_true in Hf.
Qed.
(** The responder accepts the hello that an initiator sends. *)
Lemma handleHello_accepts h now nonce he hello s fmt m :
  DecodeHello (Data he) = (hello, true) -> hello_key_refused hello true = false ->
  hd_Protocols hello <> [] -> anyInBoth (hd_Protocols hello) (ch_protocols h) = true ->
  ch_advertisedHashFormats h <> [] ->
  NegotiateActiveHashFormat (hd_HashFormats hello) (ch_advertisedHashFormats h) = Some (fmt, m) ->
  containsString (match hd_KeyTypes hello with [] => ["ed25519"] | l => l end)
    (KeyTypeString (kp_KeyType (ch_localKeypair h))) = true ->
  exists re rd, handleHello h now (Some nonce) he (Some s) = (Some (hello_state s nonce fmt (hd_PeerID hello)), Ok (Served re ∅))
    /\ DecodeHello (Data re) = (rd, true) /\ hd_Nonce rd = nonce /\ hd_PeerID rd = ch_localPeerID h
    /\ hd_HashFormats rd = ch_advertisedHashFormats h.
Proof.
  intros Hd Hk Hne Hp Hadv Hn Hkt. unfold handleHello. rewrite Hd, Hk.
  destruct (hd_Protocols hello) as [|p0 ps] eqn:Hps; [done|]. cbn [length Nat.eqb]. rewrite <- Hps, Hps, Hp. cbn [negb]. cbv zeta.
  unfold NegotiateActiveHashFormat in Hn. assert (or_sha256 (ch_advertisedHashFormats h) = ch_advertisedHashFormats h) as Hor
    by (by destruct (ch_advertisedHashFormats h)). rewrite Hor in Hn.
  destruct (String.eqb (firstMatchInOrder _ _) ""); [done|].
  destruct (hashFormatStringToAlgorithm _) as [fmt'|] eqn:Hf; [|done]. injection Hn as <- <-. rewrite Hkt. cbn [negb].
  match goal with |- context [EncodeHello ?d] => destruct (hello_encodes d) as (raw & -> & Hrne & Hdec) end.
  cbn [of_option res_bind].
  destruct (NewEntityFormat_builds fmt' TypeHello raw) as (re & -> & _ & Hdr & _);
    [by eapply format_supported|done|done|by left|].
  cbn [res_bind fmap option_fmap option_map]. eexists re, _. rewrite Hdr. by split_and!.
Qed.

(** The checks pass on the authenticate entity of a key pair that signed it. *)
Lemma check_authenticate_accepts kp pid nonce s ae ide se sig ht :
  DecodeAuthenticate (Data ae) = Some {| ad_PeerID := pid; ad_PublicKey := kp_PublicKey kp;
    ad_KeyType := KeyTypeString (kp_KeyType kp); ad_Nonce := nonce |} ->
  Decode pid = Ok {| KeyType := kp_KeyType kp; HashType := ht; dec_Digest := peer_digest (kp_PublicKey kp) ht |} ->
  supported_key_type (kp_KeyType kp) = true -> VerifyPublicKey pid (kp_PublicKey kp) = true ->
  nonce <> [] -> st_OurNonce s = nonce ->
  Type_ ide = TypePeer -> Type_ se = TypeSignature -> DecodeSigTarget (Data se) = Some (ContentHash ae) ->
  SignatureDataFromEntity se = Ok {| Target := ContentHash ae; Signer := ContentHash ide;
    sig_Algorithm := KeyTypeString (kp_KeyType kp); Signature := sig |} ->
  st_HelloPeerID s = "" \/ st_HelloPeerID s = pid ->
  Verify (kp_KeyType kp) (kp_PublicKey kp) (Bytes (ContentHash ae)) sig = true ->
  check_authenticate ae (<[ContentHash se := se]> {[ContentHash ide := ide]}) (Some s)
  = Ok ({| ad_PeerID := pid; ad_PublicKey := kp_PublicKey kp; ad_KeyType := KeyTypeString (kp_KeyType kp); ad_Nonce := nonce |},
        {| Target := ContentHash ae; Signer := ContentHash ide; sig_Algorithm := KeyTypeString (kp_KeyType kp); Signature := sig |},
        s).
Proof.
  intros Had Hdec Hkp Hvpk Hnn Hn Hidt Hset Hstg Hsd Hhp Hver. unfold check_authenticate. rewrite Had.
  cbn [of_option res_bind ad_PeerID ad_PublicKey ad_Nonce]. cbv zeta. rewrite Hdec. cbn [is_ok KeyType andb]. rewrite Hkp, Hn.
  cbn [negb guard]. destruct nonce as [|b0 nonce0]; [done|]. cbn [length Nat.eqb guard].
  rewrite bool_decide_true by done. cbn [negb guard].
  rewrite (FindSignatureFor_pair ide se (ContentHash ae)) by done. cbn [of_option res_bind]. rewrite Hsd.
  cbn [res_map_err res_bind Signature]. rewrite Hver, Hvpk. cbn [negb guard].
  destruct Hhp as [-> | ->]; [done|]. rewrite String.eqb_refl. by rewrite andb_false_r.
Qed.

(** C6: an honest handshake completes. When initiator and responder share a
    protocol and a hash format, the responder's key type is one the initiator
    verifies, and the initiator's key pair signs, then the hello and the
    authenticate request that the initiator's code builds are served: the
    responder's hello carries its nonce, both ends settle on the same hash
    format, and the authenticate request is answered with a capability, after
    which the connection is completed for the initiator's peer id, whatever is
    in the responder's stores. *)
Theorem honest_handshake_completes (alg_i alg_r : byte) (kp : Keypair) (pid : PeerID) (h : ConnectHandler)
    (protocols : list string) (nonce_i nonce : list byte) (t now now' : Z) (fmt : byte) (m : string) :
  supported alg_i -> supported alg_r -> signing_pair kp -> PeerIDFromKeypair kp = Some pid ->
  supported_key_type (kp_KeyType (ch_localKeypair h)) = true ->
  anyInBoth (match protocols with [] => ["entity-core/1.0"] | l => l end) (ch_protocols h) = true ->
  ch_advertisedHashFormats h <> [] ->
  NegotiateActiveHashFormat (DefaultAdvertisedHashFormats alg_i) (ch_advertisedHashFormats h) = Some (fmt, m) ->
  nonce <> [] ->
  exists he re rd s ae ide se,
    initiator_hello alg_i pid protocols nonce_i t = Ok he
    /\ handleHello h now (Some nonce) he (Some NewConnectionState) = (Some s, Ok (Served re ∅))
    /\ DecodeHello (Data re) = (rd, true) /\ hd_Nonce rd = nonce
    /\ NegotiateActiveHashFormat (DefaultAdvertisedHashFormats alg_i) (hd_HashFormats rd) = Some (st_ActiveHashFormat s, m)
    /\ initiator_authenticate kp (hd_Nonce rd) fmt = Some (Ok (ae, ide, se))
    /\ forall (store : option CS) (index : option L), exists cx capE g inc,
         handleAuthenticate alg_r h now' ae
           (mkContext store index (<[ContentHash se := se]> {[ContentHash ide := ide]}) (Some s))
         = (cx, Some (Ok (Served g inc)))
         /\ cx_State cx = Some (auth_state s pid capE) /\ EncodeCapGrant (ContentHash capE) = Some (Data g).
Proof.
  intros Hai Har [Hkp Hver] Hpid Hkr Hprot Hadv Hneg Hnonce.
  assert (Hmint : PeerIDFromPublicKey (kp_PublicKey kp) (kp_KeyType kp) = Ok pid).
  { unfold PeerIDFromKeypair in Hpid. destruct (PeerIDFromPublicKey _ _); [|done]. by injection Hpid as ->. }
  destruct (peer_id_mint_roundtrip _ _ _ Hmint) as (ht & _ & Hdec & _ & Hvpk & _).
  destruct (hello_encodes {| hd_PeerID := pid; hd_Nonce := nonce_i;
    hd_Protocols := match protocols with [] => ["entity-core/1.0"] | l => l end; hd_Timestamp := t;
    hd_HashFormats := DefaultAdvertisedHashFormats alg_i; hd_KeyTypes := DefaultAdvertisedKeyTypes;
    hd_Compression := []; hd_Encryption := [] |}) as (raw & Hraw & Hrne & Hrdec).
  destruct (NewEntityFormat_builds alg_i TypeHello raw) as (he & Hhe & _ & Hhd & _); [done|done|done|by left|].
  edestruct (handleHello_accepts h now nonce he) as (re & rd & Hhello & Hrd & Hrn & _ & Hrf).
  { by rewrite Hhd. } { unfold hello_key_refused. cbn [hd_PeerID andb negb]. destruct (String.eqb pid ""); [done|].
    cbn [negb]. rewrite Hdec. cbn [KeyType]. by rewrite Hkp. }
  { by destruct protocols. } { exact Hprot. } { exact Hadv. } { exact Hneg. }
  { cbn [hd_KeyTypes DefaultAdvertisedKeyTypes]. unfold supported_key_type in Hkr. apply orb_true_iff in Hkr as [Hb|Hb];
      bool_prop; by rewrite Hb. }
  assert (Hfs : supported fmt).
  { unfold NegotiateActiveHashFormat in Hneg. destruct (String.eqb _ ""); [done|].
    destruct (hashFormatStringToAlgorithm _) as [f|] eqn:Hf; [|done]. injection Hneg as <- _. by eapply format_supported. }
  destruct (IdentityEntity_builds kp Hkp) as (ide & Hide & Hidt & _).
  destruct (authenticate_encodes {| ad_PeerID := pid; ad_PublicKey := kp_PublicKey kp;
    ad_KeyType := KeyTypeString (kp_KeyType kp); ad_Nonce := nonce |}) as (araw & Haraw & Harne & Hardec).
  destruct (NewEntityFormat_builds fmt TypeAuthenticate araw) as (ae & Hae & _ & Had & _); [done|done|done|by left|].
  destruct (sign_entity_builds kp ide fmt ae Hkp Hfs) as (sig & se & Hsig & Hse & Hset & Hstg & Hsd).
  eexists he, re, rd, _, ae, ide, se. split_and!.
  - unfold initiator_hello. rewrite Hraw. exact Hhe.
  - exact Hhello.
  - exact Hrd.
  - exact Hrn.
  - rewrite Hrf. exact Hneg.
  - unfold initiator_authenticate. rewrite Hide, Hpid, Hrn, Haraw. cbn [of_option res_bind]. by rewrite Hae, Hse.
  - intros store index. unfold handleAuthenticate. cbn [cx_Included cx_State hd_PeerID].
    rewrite (check_authenticate_accepts kp pid nonce (hello_state NewConnectionState nonce fmt pid) ae ide se sig ht);
      [|by rewrite Had|done..|by right|by apply Hver].
    by apply grant_connection_completes.
Qed.
End honest.

(** ** Identities and replays *)

Section identities.
Context `{Base58Laws, HashableCodec, SessionCodec}.

(** The path key that a peer derives for a remote from its peer id, or from its
    peer id and key where the id does not contain the key, is the hash of the
    identity entity that the remote itself builds. *)
Theorem remote_identity_hash_agrees (kp : Keypair) (pid : PeerID) (ide : Entity) :
  PeerIDFromKeypair kp = Some pid -> IdentityEntity kp = Ok ide ->
  ResolveRemoteIdentityHash pid (kp_PublicKey kp) = Ok (ContentHash ide)
  /\ (kp_KeyType kp = KeyTypeEd25519 -> ResolveRemoteIdentityHash pid [] = Ok (ContentHash ide)).
Proof.
  intros Hpid Hide. unfold PeerIDFromKeypair in Hpid.
  destruct (PeerIDFromPublicKey _ _) as [p|] eqn:Hm; [|done]. injection Hpid as ->.
  destruct (peer_id_mint_roundtrip _ _ _ Hm) as (ht & Hht & Hdec & _). apply PeerIDFromPublicKey_inv in Hm as (Hknown & Hlen & _).
  assert (Hhash : ComputePeerIdentityHash (kp_PublicKey kp) (kp_KeyType kp) = Ok (ContentHash ide)).
  { unfold ComputePeerIdentityHash, IdentityEntity in *. destruct (String.eqb _ _); [done|].
    unfold Peer_ToEntity. by rewrite Hide. }
  unfold ResolveRemoteIdentityHash, ComputePeerIdentityHashFromPeerID, DerivePeerFromPeerID. rewrite Hdec. cbn [HashType KeyType dec_Digest].
  apply CanonicalHashType_ok in Hht as [[Hk ->]|[Hk ->]].
  - rewrite decide_False by (intros Hx; by apply Hx). change (peer_digest (kp_PublicKey kp) HashTypeIdentity) with (kp_PublicKey kp).
    rewrite (proj2 (validatePublicKeyLen_ok _ _)) by done. by rewrite Hhash.
  - rewrite decide_True by done. split; [|intros Hk'; rewrite Hk' in Hk; by destruct Hk].
    pose proof (key_len_pos (kp_KeyType kp)). destruct (Nat.eqb_spec (length (kp_PublicKey kp)) 0); [lia|]. exact Hhash.
Qed.
End identities.

Section replay.
Context {CS L IX : Type} `{ContentStoreLaws CS} `{LocationIndex L} `{CapabilityIndex IX}.
Context `{Base58, Signing, DataCodecLaws, MapOrder, HandlerCodec, TokenEncoding, KeySigning, SessionCodec, ConnectCodec}.

(** A signature serves one challenge: where the requests' entities carry the
    hashes of their own content, two connections that accept the same signed
    hash issued the same nonce, or two contents collide under the digest. *)
Theorem authenticate_binds_nonce (fa fa' : Frame CS L IX) (n n' : list byte) (pid pid' : string) (params params' : Entity) :
  (forall ty ty' d d' e, EncodeHashable ty d = Some e -> EncodeHashable ty' d' = Some e -> d = d') ->
  proof_frame fa n pid params -> proof_frame fa' n' pid' params' ->
  Ent.Validate params = Ok tt -> Ent.Validate params' = Ok tt -> ContentHash params = ContentHash params' ->
  n = n' \/ exists b b', EncodeHashable (Type_ params) (Data params) = Some b
                      /\ EncodeHashable (Type_ params') (Data params') = Some b'
                      /\ digest_collision (Algorithm (ContentHash params)) b b'.
Proof.
  intros Hinj (_ & _ & ad & ? & ? & ? & ? & Had & <- & _) (_ & _ & ad' & ? & ? & ? & ? & Had' & <- & _) Hv Hv' Heq.
  assert (Hb : Hash.Validate (Type_ params) (Data params) (ContentHash params) = Ok tt)
    by (apply Ent.Validate_iff in Hv as (_ & _ & Hc); by apply Validate_ok).
  assert (Hb' : Hash.Validate (Type_ params') (Data params') (ContentHash params) = Ok tt)
    by (rewrite Heq; apply Ent.Validate_iff in Hv' as (_ & _ & Hc); by apply Validate_ok).
  destruct (Validate_binding _ _ _ _ _ Hb Hb') as (_ & _ & enc & enc' & He & He' & [->|Hcol]); [left|right; by exists enc, enc'].
  rewrite (Hinj _ _ _ _ _ He He') in Had. by rewrite Had in Had'; injection Had' as ->.
Qed.
End replay.
