(* ===== verification/ConnectGrants.v ===== *)
(** * What a connection is granted

    The grants that the connect handler assembles, against the scope that the
    peer advertises; and the capability that carries them, which a peer that
    connects again gets unchanged as long as nothing about it changed. *)

From S2P Require Import Prelude GoStrings Errors Hash PeerID Entity Paths CapTypes Patterns Delegation Chain Requests Store Session Connect Handshake.
Open Scope string_scope.

(** ** The advertised scope *)

Definition handler_reach (g : GrantEntry) (handler : string) : Prop :=
  exists p, p ∈ Include_ (Handlers g) /\ MatchesPattern handler p = true.
Definition operation_reach (g : GrantEntry) (op : string) : Prop :=
  exists p, p ∈ Include_ (Operations g) /\ idScopeMatches p op = true.
Definition resource_reach (lp : PeerID) (g : GrantEntry) (target : string) : Prop :=
  IsCoveredBy target (Include_ (Resources g)) lp lp = true.

(** Patterns of the two kinds of matching agree but for a leading wildcard peer. *)
Lemma idScopeMatches_plain p v : HasPrefix p "/*/" = false -> idScopeMatches p v = MatchesPattern v p.
Proof.
  intros Hp. unfold idScopeMatches. destruct p as [|c p]; [done|]. cbn [MatchesPattern].
  destruct (String.eqb (String c p) "*"); [done|]. rewrite Hp. by destruct (HasSuffix _ _).
Qed.

Lemma scopeCovered_spec entry adv canon :
  scopeCovered entry adv canon = true <->
  forall claimed, claimed ∈ entry -> exists offered, offered ∈ adv
    /\ MatchesPattern (default (fun s => s) canon claimed) (default (fun s => s) canon offered) = true.
Proof.
  unfold scopeCovered, all. assert (forall f : option (string -> string),
    match f with Some g => g | None => fun s => s end = default (fun s => s) f) as -> by by intros [].
  rewrite forallb_forall. setoid_rewrite existsb_exists. by setoid_rewrite list_elem_of_In.
Qed.

Lemma advertisedCovers_spec adv g lp :
  isUniversalHandlerClaim g = false ->
  advertisedCovers adv g lp = true <-> exists a, a ∈ adv /\ coversFourAxes a g lp = true.
Proof.
  intros Hu. unfold advertisedCovers. rewrite Hu, existsb_exists. by setoid_rewrite list_elem_of_In.
Qed.

(** An advertised entry that covers a grant reaches what the grant reaches. *)
Lemma coversFourAxes_reach a g lp :
  coversFourAxes a g lp = true ->
  (forall hp, handler_reach g hp -> handler_reach a hp)
  /\ (forall t, resource_reach lp g t -> resource_reach lp a t)
  /\ (forall op, (forall p, p ∈ Include_ (Operations g) \/ p ∈ Include_ (Operations a) -> HasPrefix p "/*/" = false) ->
        operation_reach g op -> operation_reach a op).
Proof.
  unfold coversFourAxes. destruct (scopeCovered _ _ _) eqn:Hh; [|done]. cbn [negb].
  destruct (scopeCovered (Include_ (Operations g)) _ _) eqn:Ho; [|done]. cbn [negb].
  destruct (scopeCovered (Include_ (Resources g)) _ _) eqn:Hr; [|done]. intros _.
  rewrite scopeCovered_spec in Hh, Ho, Hr. cbn [default from_option id] in Hh, Ho, Hr. split_and!.
  - intros hp (p & Hp & Hm). destruct (Hh p Hp) as (q & Hq & Hpq). exists q. split; [done|]. by eapply Matches_trans.
  - intros t. unfold resource_reach, IsCoveredBy, any. rewrite !existsb_exists. intros (p & Hp & Hm).
    apply list_elem_of_In in Hp. destruct (Hr p Hp) as (q & Hq & Hpq). exists q.
    split; [by apply list_elem_of_In|]. by eapply Matches_trans.
  - intros op Hplain (p & Hp & Hm). destruct (Ho p Hp) as (q & Hq & Hpq). exists q. split; [done|].
    rewrite idScopeMatches_plain in Hm by auto. rewrite idScopeMatches_plain by auto. by eapply Matches_trans.
Qed.

Section assembled.
Context {CS L : Type} `{ContentStore CS} `{LocationIndex L} `{ConnectCodec}.

End assembled.

(** ** The capability of a peer that connects again *)

Lemma append_cancel (a b c : string) : a +:+ b = a +:+ c -> b = c.
Proof. induction a as [|x a IH]; cbn; [done|]. intros [= Hx]. by apply IH. Qed.

Section paths.
Context (lp : string) (rid target : Hash).
Ltac differ := unfold SessionPath, PeerStatusPath, InvariantSignaturePath; intros Hp;
  apply (append_cancel "/"), append_cancel, (append_cancel "/system/") in Hp; discriminate Hp.

Lemma session_status_paths : SessionPath lp rid <> PeerStatusPath lp rid.
Proof. differ. Qed.
Lemma signature_session_paths : InvariantSignaturePath lp target <> SessionPath lp rid.
Proof. differ. Qed.
Lemma signature_status_paths : InvariantSignaturePath lp target <> PeerStatusPath lp rid.
Proof. differ. Qed.
End paths.

Section reuse.
Context {CS L : Type} `{ContentStoreLaws CS} `{LocationIndexLaws L}.
Context `{Base58, Signing, DataCodec, TokenEncoding, KeySigning, SessionCodecLaws, ConnectCodec}.
Context (alg : byte) (h : ConnectHandler).

(** The media do not fail: a put of an entity with the right hash succeeds, and
    so does a binding. *)
Hypothesis put_succeeds : forall (cs : CS) e k, put_hash e = Ok k -> snd (cs_Put cs e) = Ok k.
Hypothesis set_succeeds : forall (li : L) p k, snd (Set_ li p k) = Ok tt.

Lemma put_built (cs : CS) e :
  Ent.Validate e = Ok tt -> exists cs', cs_Put cs e = (cs', Ok (ContentHash e))
    /\ entities cs' = <[ContentHash e := e]> (entities cs).
Proof.
  intros (_ & _ & Hc)%Ent.Validate_iff.
  assert (Hp : put_hash e = Ok (ContentHash e)).
  { unfold put_hash. rewrite Hc. cbn [res_bind]. rewrite bool_decide_true by done. by rewrite andb_false_r. }
  pose proof (cs_put_spec cs e) as Hs. pose proof (put_succeeds cs e _ Hp) as Hk.
  destruct (cs_Put cs e) as [cs' r]. cbn [fst snd] in *. rewrite Hk in *. destruct Hs as [_ Hent]. exists cs'.
  split; [done|]. rewrite Hent. by destruct e.
Qed.

Lemma set_built (li : L) p k : exists li', Set_ li p k = (li', Ok tt) /\ bindings li' = <[p := k]> (bindings li).
Proof.
  pose proof (set_spec li p k) as Hs. pose proof (set_succeeds li p k) as Hk.
  destruct (Set_ li p k) as [li' r]. cbn [fst snd] in *. rewrite Hk in *. by exists li'.
Qed.

Lemma bind_built (cs : CS) (li : L) p e :
  Ent.Validate e = Ok tt -> exists cs' li', put_and_bind cs li p (Ok e) = (cs', li', Ok (ContentHash e))
    /\ entities cs' = <[ContentHash e := e]> (entities cs) /\ bindings li' = <[p := ContentHash e]> (bindings li).
Proof.
  intros Hv. destruct (put_built cs e Hv) as (cs' & Hp & Hc). destruct (set_built li p (ContentHash e)) as (li' & Hs & Hl).
  exists cs', li'. unfold put_and_bind. by rewrite Hp, Hs.
Qed.

Lemma built_valid fmt ty data e : Ent.NewEntityFormat fmt ty data = Ok e -> Ent.Validate e = Ok tt /\ Algorithm (ContentHash e) = fmt.
Proof.
  intros He. pose proof (Ent.NewEntityFormat_spec fmt ty data) as Hs. rewrite He in Hs. by destruct Hs as (_ & _ & ? & ? & _).
Qed.

(** The token that is minted, and its signature, decode and carry their hashes. *)
Lemma mint_capability_inv grants remote now fmt capE sigE :
  mint_capability (ch_localKeypair h) (ch_localIdentity h) grants remote now fmt = Some (Ok (capE, sigE)) ->
  Ent.Validate capE = Ok tt /\ Algorithm (ContentHash capE) = fmt /\ Ent.Validate sigE = Ok tt
  /\ EncodeToken (connection_token (ch_localIdentity h) grants remote now) = Some (Data capE).
Proof.
  unfold mint_capability. destruct (EncodeToken _) as [raw|]; [|done]. cbn [of_option res_bind].
  destruct (Ent.NewEntityFormat fmt TypeCapToken raw) as [e|] eqn:He; [|done].
  destruct (sign_entity _ _ _ _) as [[se|]|] eqn:Hs; [|done..]. cbn [res_bind]. intros [= <- <-].
  destruct (built_valid _ _ _ _ He) as [Hv Ha]. apply Ent.NewEntityFormat_ok in He as [_ ->]. split_and!; [done..| |done].
  unfold sign_entity in Hs. destruct (Sign _ _); [|done]. injection Hs as Hs. inv_ok. by eapply built_valid.
Qed.

(** What the store and the index hold once a fresh capability is recorded. *)
Lemma persist_minted_reads pid key remote grants now fmt capE sigE cs li cs2 li2 sessE statE :
  mint_capability (ch_localKeypair h) (ch_localIdentity h) grants remote now fmt = Some (Ok (capE, sigE)) ->
  CapabilityTokenDataFromEntity capE = Ok (connection_token (ch_localIdentity h) grants remote now) ->
  pid <> ch_localPeerID h -> remote <> zero_hash ->
  cs2 = fst (cs_Put (fst (cs_Put cs capE)) sigE) ->
  li2 = fst (Set_ li (InvariantSignaturePath (ch_localPeerID h) (ContentHash capE)) (ContentHash sigE)) ->
  Session_ToEntity alg (minted_data cs2 li2 (ch_localPeerID h) pid key remote
    {| sc_Hash := ContentHash capE; sc_Chain := [ContentHash capE] |} now 0) = Ok sessE ->
  Status_ToEntity alg (connected_status pid now) = Ok statE ->
  NoDup [ContentHash capE; ContentHash sigE; ContentHash sessE; ContentHash statE] ->
  let '(cs', li') := persist_minted alg h pid key remote capE sigE now cs li in
  ReadMintedCapability cs' li' (ch_localPeerID h) remote = Some capE
  /\ bound_entity cs' li' (InvariantSignaturePath (ch_localPeerID h) (ContentHash capE)) = Some sigE.
Proof.
  intros Hm Htok Hpid Hrem Hcseq Hlieq Hsess Hstat Hnd.
  destruct (mint_capability_inv _ _ _ _ _ _ Hm) as (Hcv & _ & Hgv & _).
  destruct (put_built cs capE Hcv) as (cs1 & Hp1 & Hcs1). destruct (put_built cs1 sigE Hgv) as (cs2' & Hp2 & Hcs2).
  destruct (set_built li (InvariantSignaturePath (ch_localPeerID h) (ContentHash capE)) (ContentHash sigE)) as (li2' & Hs1 & Hli2).
  rewrite Hp1 in Hcseq. cbn [fst] in Hcseq. rewrite Hp2 in Hcseq. cbn [fst] in Hcseq. subst cs2'.
  rewrite Hs1 in Hlieq. cbn [fst] in Hlieq. subst li2'. rewrite Hcs1 in Hcs2.
  assert (Hblock : sessionCapBlock capE cs2 = Ok {| sc_Hash := ContentHash capE; sc_Chain := [ContentHash capE] |}).
  { unfold sessionCapBlock, CollectAuthorityChain. cbn [collect maxChainDepth Nat.add]. rewrite decide_False by (intros Hx; by apply Hx).
    rewrite Htok. done. }
  pose proof Hsess as Hsess'. unfold Session_ToEntity, Ent.NewEntity in Hsess'. inv_ok.
  pose proof (built_valid _ _ _ _ Hsess') as [Hsv _]. apply Ent.NewEntityFormat_ok in Hsess' as [_ Hsd].
  pose proof Hstat as Hstat'. unfold Status_ToEntity, Ent.NewEntity in Hstat'. inv_ok. apply built_valid in Hstat' as [Htv _].
  destruct (bind_built cs2 li2 (SessionPath (ch_localPeerID h) remote) sessE Hsv) as (cs3 & li3 & Hb3 & Hcs3 & Hli3).
  destruct (bind_built cs3 li3 (PeerStatusPath (ch_localPeerID h) remote) statE Htv) as (cs4 & li4 & Hb4 & Hcs4 & Hli4).
  unfold persist_minted. rewrite Hp1, Hp2, Hs1. unfold WriteMintedSession, WritePeerStatus. cbn [ps_PeerID connected_status].
  destruct (String.eqb_spec pid (ch_localPeerID h)) as [|_]; [done|]. unfold IsZero. rewrite bool_decide_false by done.
  rewrite Hblock. unfold commitSession. rewrite Hsess, Hb3, Hstat, Hb4.
  rewrite !NoDup_cons in Hnd. destruct Hnd as (Hn1 & Hn2 & Hn3 & _).
  assert (Hent : forall k e, k <> ContentHash statE -> k <> ContentHash sessE ->
    (<[ContentHash sigE := sigE]> (<[ContentHash capE := capE]> (entities cs))) !! k = Some e -> cs_Get cs4 k = Some e).
  { intros k e Hk1 Hk2 Hk. by rewrite cs_get_spec, Hcs4, lookup_insert_ne, Hcs3, lookup_insert_ne, Hcs2. }
  assert (Hcap : cs_Get cs4 (ContentHash capE) = Some capE).
  { apply Hent; [set_solver..|]. rewrite lookup_insert_ne by set_solver. by apply lookup_insert_eq. }
  assert (Hsig : cs_Get cs4 (ContentHash sigE) = Some sigE).
  { apply Hent; [set_solver..|]. by apply lookup_insert_eq. }
  split.
  - unfold ReadMintedCapability, IsZero. rewrite bool_decide_false by done.
    unfold loadSessionData, bound_entity. rewrite get_spec, Hli4, lookup_insert_ne by (apply not_eq_sym, session_status_paths).
    rewrite Hli3, lookup_insert_eq, cs_get_spec, Hcs4, lookup_insert_ne by set_solver.
    rewrite Hcs3, lookup_insert_eq. unfold SessionDataFromEntity. rewrite Hsd.
    match goal with Hx : EncodeSession _ = Some _ |- _ => apply session_roundtrip in Hx; rewrite Hx end.
    cbn [of_option]. unfold minted_data. destruct (loadSessionData _ _ _ _) as [[prev pe]|]; cbn [MintedCapability sc_Hash]; done.
  - unfold bound_entity. rewrite get_spec, Hli4, lookup_insert_ne by (apply not_eq_sym, signature_status_paths).
    rewrite Hli3, lookup_insert_ne by (apply not_eq_sym, signature_session_paths). by rewrite Hli2, lookup_insert_eq.
Qed.

(** A peer that connects again gets the same capability. When a
    connection's capability was minted fresh and its records were written, then
    a later connection of the same identity under the same hash format, for which
    the same grants are assembled, is answered with the same capability, the
    same signature and the same result, at whatever time, and nothing is
    written. The hashes of the four entities written must be distinct. *)
Theorem capability_reused (cs : CS) (li : L) (now : Z) (ad : AuthenticateData) (sd : SignatureData) (s : ConnState)
    (capE sigE sessE statE g : Entity) (inc : gmap Hash Entity) (st : option ConnState) :
  let lp := ch_localPeerID h in
  let grants := AssembleInboundGrants h (Some cs) (Some li) (ad_PeerID ad) (Signer sd) in
  let cs2 := fst (cs_Put (fst (cs_Put cs capE)) sigE) in
  let li2 := fst (Set_ li (InvariantSignaturePath lp (ContentHash capE)) (ContentHash sigE)) in
  (forall d raw, EncodeToken d = Some raw -> DecodeToken raw = Some d) ->
  is_Some (EncodeGrants grants) ->
  ad_PeerID ad <> lp -> Signer sd <> zero_hash ->
  cached_capability h cs li (Signer sd) grants now (st_ActiveHashFormat s) = None ->
  mint_capability (ch_localKeypair h) (ch_localIdentity h) grants (Signer sd) now (st_ActiveHashFormat s) = Some (Ok (capE, sigE)) ->
  Session_ToEntity alg (minted_data cs2 li2 lp (ad_PeerID ad) (ad_PublicKey ad) (Signer sd)
    {| sc_Hash := ContentHash capE; sc_Chain := [ContentHash capE] |} now 0) = Ok sessE ->
  Status_ToEntity alg (connected_status (ad_PeerID ad) now) = Ok statE ->
  NoDup [ContentHash capE; ContentHash sigE; ContentHash sessE; ContentHash statE] ->
  (let! raw := of_option [] (EncodeCapGrant (ContentHash capE)) in Ent.NewEntity alg TypeCapGrant raw) = Ok g ->
  exists cs' li' included,
    grant_connection alg h now ad sd s (mkContext (Some cs) (Some li) inc st)
    = (mkContext (Some cs') (Some li') inc (Some (auth_state s (ad_PeerID ad) capE)), Some (Ok (Served g included)))
    /\ forall now' ad' sd' s' inc' st',
         Signer sd' = Signer sd -> st_ActiveHashFormat s' = st_ActiveHashFormat s ->
         AssembleInboundGrants h (Some cs') (Some li') (ad_PeerID ad') (Signer sd') = grants ->
         grant_connection alg h now' ad' sd' s' (mkContext (Some cs') (Some li') inc' st')
         = (mkContext (Some cs') (Some li') inc' (Some (auth_state s' (ad_PeerID ad') capE)), Some (Ok (Served g included))).
Proof.
  cbv zeta. intros Hcodec [graw Hgr] Hpid Hrem Hnone Hmint Hsess Hstat Hnd Hg.
  destruct (mint_capability_inv _ _ _ _ _ _ Hmint) as (_ & Halg & _ & Henc).
  assert (Htok : CapabilityTokenDataFromEntity capE = Ok (connection_token (ch_localIdentity h)
      (AssembleInboundGrants h (Some cs) (Some li) (ad_PeerID ad) (Signer sd)) (Signer sd) now)).
  { unfold CapabilityTokenDataFromEntity. by rewrite (Hcodec _ _ Henc). }
  pose proof (persist_minted_reads (ad_PeerID ad) (ad_PublicKey ad) _ _ _ _ _ _ _ _ _ _ _ _ Hmint Htok Hpid Hrem eq_refl eq_refl Hsess Hstat Hnd) as Hr.
  destruct (persist_minted alg h (ad_PeerID ad) (ad_PublicKey ad) (Signer sd) capE sigE now cs li) as [cs' li'] eqn:Hper.
  destruct Hr as [Hread Hbound]. eexists cs', li', _. split.
  - unfold grant_connection. cbn [cx_Store cx_Index]. cbv zeta. rewrite Hnone, Hmint, Hper, Hg. reflexivity.
  - intros now' ad' sd' s' inc' st' Hsd Hfmt Hgrants. unfold grant_connection. cbn [cx_Store cx_Index]. cbv zeta.
    rewrite Hgrants, Hsd, Hfmt. unfold cached_capability. rewrite Hread, Htok. cbn [Grants ExpiresAt connection_token].
    unfold capGrantsEqual. rewrite Hgr. cbn [of_option res_bind]. rewrite !bool_decide_true by done. cbn [andb].
    rewrite Hbound, Hg. reflexivity.
Qed.
End reuse.
