(* ===== verification/Reentry.v ===== *)
(** * The reciprocal grant

    [core/protocol/reentry_grant.go]: on a connection that two peers reached by
    meeting at a rendezvous, the dialer mints a capability for the acceptor and
    sends it in a frame that carries no authority of its own; the acceptor takes
    it if the frame proves that the peer it authenticated issued it. *)

From S2P Require Import Prelude GoStrings Errors Hash PeerID Entity Paths CapTypes Patterns Delegation Chain Requests Store Revoked Dispatch Session Connect Handshake ConnectGrants.
Open Scope string_scope.

Definition ReentryGrantOperation : string := "reentry-grant".
Definition ReentryGrantRequestID : string := "connect-reentry-grant".

(** Numbers of the two [range] statements. *)
Definition site_reentry_cap : nat := 20.
Definition site_reentry_signature : nat := 21.

Section reentry.
Context `{Base58, Signing, HashableCodec, DataCodec, MapOrder, TokenEncoding, KeySigning, SessionCodec, ConnectCodec}.
Context (alg : byte).

(** [None] is a panic of the signature. *)
Definition BuildReentryGrantEnvelope (kp : Keypair) (granteeHash : Hash) (grants : list GrantEntry)
    (activeFormat : byte) (now : Z) : option (result Envelope) :=
  if IsZero granteeHash then Some (Err [])
  else if (length grants =? 0)%nat then Some (Err [])
  else match IdentityEntity kp with
  | Err e => Some (Err e)
  | Ok localIdentity =>
      match mint_capability kp localIdentity grants granteeHash now activeFormat with
      | None => None
      | Some r => Some (
          let! (capEntity, sigEntity) := r in
          let! paramsRaw := of_option [] (EncodeRawEntity capEntity) in
          let! execEntity := Execute_entity alg (connect_execute ReentryGrantRequestID ReentryGrantOperation paramsRaw) in
          Ok (mkEnvelope execEntity
                (<[ContentHash localIdentity := localIdentity]>
                  (<[ContentHash sigEntity := sigEntity]> {[ContentHash capEntity := capEntity]}))))
      end
  end.

Definition IsReentryGrant (env : Envelope) : bool :=
  if negb (String.eqb (Type_ (Root env)) TypeExecute) then false
  else match ExecuteDataFromEntity (Root env) with
  | Err _ => false
  | Ok execData => String.eqb (Operation execData) ReentryGrantOperation
  end.

(** The signature that is checked: the first one over the capability by the
    granter. *)
Definition grant_signature (capHash granterHash : Hash) (ent : Entity) : bool :=
  String.eqb (Type_ ent) TypeSignature
  && match SignatureDataFromEntity ent with
     | Err _ => false
     | Ok sigData => bool_decide (Target sigData = capHash) && bool_decide (Signer sigData = granterHash)
     end.

Definition verifyGrantSignature (env : Envelope) (capEntity : Entity) (granterHash : Hash) : result unit :=
  let! granterEntity := of_option [] (Included env !! granterHash) in
  let! granterData := PeerDataFromEntity granterEntity in
  let! ktByte := of_option [] (PeerData_KeyTypeByte granterData) in
  match List.find (fun p => grant_signature (ContentHash capEntity) granterHash (snd p))
          (map_range site_reentry_signature [ContentHash capEntity; granterHash] (Included env)) with
  | None => Err []
  | Some (_, ent) =>
      let! sigData := SignatureDataFromEntity ent in
      guard (negb (Verify ktByte (PublicKey granterData) (Bytes (ContentHash capEntity)) (Signature sigData))) [] (Ok tt)
  end.

(** The capability tokens among the included entities. *)
Definition included_tokens (env : Envelope) : list Entity :=
  List.filter (fun e => String.eqb (Type_ e) TypeCapToken) (map snd (map_range site_reentry_cap [] (Included env))).

Definition AcceptReentryGrant (env : Envelope) (remoteIdentityHash : Hash) : result (Entity * gmap Hash Entity) :=
  match included_tokens env with
  | [capEntity] =>
      let! rebuilt := Ent.NewEntityFormat (Algorithm (ContentHash capEntity)) (Type_ capEntity) (Data capEntity) in
      guard (negb (bool_decide (ContentHash rebuilt = ContentHash capEntity))) []
      (let! capData := CapabilityTokenDataFromEntity capEntity in
       guard (match SingleHash (Granter_ capData) with
              | Some granterHash => negb (bool_decide (granterHash = remoteIdentityHash))
              | None => true
              end) []
       (check! verifyGrantSignature env capEntity remoteIdentityHash;
        Ok (capEntity, delete (ContentHash capEntity) (Included env))))
  | _ => Err []
  end.

End reentry.

Section reentry_spec.
Context `{Base58, Signing, HashableCodec, DataCodec, MapOrder, TokenEncoding, KeySigning, SessionCodec, ConnectCodec}.

Lemma included_tokens_elem env e :
  e ∈ included_tokens env <-> (exists k, Included env !! k = Some e) /\ Type_ e = TypeCapToken.
Proof.
  unfold included_tokens. rewrite list_elem_of_In, filter_In, <- list_elem_of_In, list_elem_of_fmap.
  rewrite <- String.eqb_eq. apply and_iff_compat_r. split.
  - intros ([k e'] & -> & Hin). exists k. by apply elem_of_map_range in Hin.
  - intros [k Hk]. exists (k, e). split; [done|]. by apply elem_of_map_range.
Qed.

(** An accepted reciprocal grant was issued by the authenticated peer.
    When the frame passed the envelope checks and its grant is accepted for the
    peer with the identity hash [rid], then the capability is the only token of
    the frame, its hash is that of its content, its single granter is [rid], the
    frame carries the identity entity of [rid], whose content has that hash, and
    a signature over the capability's hash verifies under its key; the
    supporting entities are the rest of the frame. *)
Theorem AcceptReentryGrant_sound (env : Envelope) (rid : Hash) (capE : Entity) (supporting : gmap Hash Entity) :
  Env.VerifyIncludedKeyBinding (Included env) = Ok tt ->
  AcceptReentryGrant env rid = Ok (capE, supporting) ->
  Included env !! ContentHash capE = Some capE
  /\ (forall k e, Included env !! k = Some e -> Type_ e = TypeCapToken -> e = capE)
  /\ supporting = delete (ContentHash capE) (Included env)
  /\ (exists d, CapabilityTokenDataFromEntity capE = Ok d /\ Granter_ d = SingleSigGranter rid)
  /\ (exists ide pd kt se sd, Included env !! rid = Some ide
        /\ ComputeFormat (Algorithm rid) (Type_ ide) (Data ide) = Ok rid
        /\ PeerDataFromEntity ide = Ok pd /\ PeerData_KeyTypeByte pd = Some kt
        /\ (exists k, Included env !! k = Some se) /\ SignatureDataFromEntity se = Ok sd
        /\ Target sd = ContentHash capE /\ Signer sd = rid
        /\ Verify kt (PublicKey pd) (Bytes (ContentHash capE)) (Signature sd) = true).
Proof.
  intros Hbind Ha. apply Env.VerifyIncludedKeyBinding_iff in Hbind. unfold AcceptReentryGrant in Ha.
  destruct (included_tokens env) as [|e [|]] eqn:Htok; [done| |done]. inv_ok.
  destruct (proj1 (included_tokens_elem env capE)) as [[k Hk] Hty]; [rewrite Htok; by left|].
  destruct (Hbind k capE Hk) as [Hval Hkey]. rewrite <- Hkey in Hk. split_and!.
  - exact Hk.
  - intros k' e Hk' Hty'. assert (Hin : e ∈ included_tokens env) by (apply included_tokens_elem; eauto).
    rewrite Htok in Hin. by apply list_elem_of_singleton in Hin.
  - done.
  - eexists. split; [eassumption|]. destruct (Granter_ _) as [gh|mg]; cbn [SingleHash] in *; [|done]. bool_prop. by subst.
  - match goal with Hv : verifyGrantSignature _ _ _ = Ok _ |- _ => unfold verifyGrantSignature in Hv end. inv_ok.
    destruct (List.find _ _) as [[k' se]|] eqn:Hf; [|done]. inv_ok. apply find_some in Hf as [Hin Hp].
    apply list_elem_of_In, elem_of_map_range in Hin. cbn [snd] in Hp. unfold grant_signature in Hp.
    match goal with Hs : SignatureDataFromEntity se = Ok _ |- _ => rewrite Hs in Hp end. bool_prop.
    match goal with Hr : Included env !! rid = Some ?ide |- _ =>
      destruct (Hbind _ _ Hr) as [(_ & _ & Hcf)%Ent.Validate_iff Hkr]; rewrite Hkr in Hcf end.
    eexists _, _, _, se, _. split_and!; try eassumption. by exists k'.
Qed.
End reentry_spec.

(** ** The frame that is built is the one that is accepted *)

Section reciprocal.
Context `{Base58, Signing, MapOrder, KeySigning, HandshakeCodecLaws}.

Lemma signing_key_type kp : supported_key_type (kp_KeyType kp) = true -> KeyTypeByte (KeyTypeString (kp_KeyType kp)) = Some (kp_KeyType kp).
Proof.
  unfold supported_key_type, KeyTypeString. intros Hk. apply orb_true_iff in Hk as [Hk|Hk]; bool_prop; by rewrite Hk.
Qed.

(** The tokens of a frame with one capability, a signature and an identity. *)
Lemma included_tokens_built root capE sigE ide :
  Type_ capE = TypeCapToken -> Type_ sigE = TypeSignature -> Type_ ide = TypePeer ->
  ContentHash capE <> ContentHash sigE -> ContentHash capE <> ContentHash ide ->
  included_tokens (mkEnvelope root (<[ContentHash ide := ide]> (<[ContentHash sigE := sigE]> {[ContentHash capE := capE]})))
  = [capE].
Proof.
  intros Hc Hs Hi Hcs Hci. set (env := mkEnvelope root _).
  assert (Hlook : Included env !! ContentHash capE = Some capE).
  { cbn [Included env]. rewrite !lookup_insert_ne by done. apply lookup_singleton_eq. }
  assert (Hall : forall p, p ∈ map_range site_reentry_cap [] (Included env) -> String.eqb (Type_ (snd p)) TypeCapToken = true ->
    p = (ContentHash capE, capE)).
  { intros [k e] Hin%elem_of_map_range Hty. cbn [Included env] in Hin. cbn [snd] in Hty.
    apply lookup_insert_Some in Hin as [[<- <-]|[_ Hin]]; [by rewrite Hi in Hty|].
    apply lookup_insert_Some in Hin as [[<- <-]|[_ Hin]]; [by rewrite Hs in Hty|].
    apply lookup_singleton_Some in Hin as [<- <-]. done. }
  assert (Hnd : NoDup (map_range site_reentry_cap [] (Included env)))
    by (rewrite map_range_perm; apply NoDup_map_to_list).
  unfold included_tokens. assert (Hin : (ContentHash capE, capE) ∈ map_range site_reentry_cap [] (Included env))
    by by apply elem_of_map_range.
  revert Hin Hall Hnd. generalize (map_range site_reentry_cap [] (Included env)) as l.
  induction l as [|[k e] l IH]; intros Hin Hall Hnd; [by apply not_elem_of_nil in Hin|].
  cbn [map snd List.filter]. apply NoDup_cons in Hnd as [Hk Hnd].
  destruct (String.eqb (Type_ e) TypeCapToken) eqn:Hty.
  - assert (Heq : (k, e) = (ContentHash capE, capE)) by (apply Hall; [by left|done]). injection Heq as -> ->. f_equal.
    assert (Hno : forall e', e' ∈ List.filter (fun e => String.eqb (Type_ e) TypeCapToken) (map snd l) -> False).
    { intros e' He'. apply list_elem_of_In, filter_In in He' as [[p [<- Hp]]%in_map_iff Ht]. apply list_elem_of_In in Hp.
      assert (p = (ContentHash capE, capE)) as -> by (apply Hall; [by right|done]). done. }
    destruct (List.filter _ _) as [|e' l']; [done|]. exfalso. eapply Hno. by left.
  - apply IH; [|intros p Hp; apply Hall; by right|done].
    apply elem_of_cons in Hin as [Heq|?]; [|done]. injection Heq as <- <-. by rewrite Hc in Hty.
Qed.

Lemma verifyGrantSignature_built kp root capE sigE ide sig :
  supported_key_type (kp_KeyType kp) = true -> Type_ capE = TypeCapToken -> Type_ sigE = TypeSignature -> Type_ ide = TypePeer ->
  PeerDataFromEntity ide = Ok {| PublicKey := kp_PublicKey kp; pd_KeyType := KeyTypeString (kp_KeyType kp) |} ->
  SignatureDataFromEntity sigE = Ok {| Target := ContentHash capE; Signer := ContentHash ide;
    sig_Algorithm := KeyTypeString (kp_KeyType kp); Signature := sig |} ->
  ContentHash sigE <> ContentHash ide ->
  Verify (kp_KeyType kp) (kp_PublicKey kp) (Bytes (ContentHash capE)) sig = true ->
  verifyGrantSignature
    (mkEnvelope root (<[ContentHash ide := ide]> (<[ContentHash sigE := sigE]> {[ContentHash capE := capE]}))) capE (ContentHash ide)
  = Ok tt.
Proof.
  intros Hk Hct Hst Hit Hpd Hsd Hne Hver. unfold verifyGrantSignature. cbn [Included]. rewrite lookup_insert_eq.
  cbn [of_option res_bind]. rewrite Hpd. cbn [res_bind]. unfold PeerData_KeyTypeByte. cbn [pd_KeyType]. rewrite signing_key_type by done.
  cbn [of_option res_bind PublicKey].
  match goal with |- context [List.find ?p ?l] => destruct (List.find p l) as [[k e]|] eqn:Hf end.
  - apply find_some in Hf as [Hin Hp]. apply list_elem_of_In, elem_of_map_range in Hin. cbn [snd] in Hp.
    assert (e = sigE) as ->.
    { apply lookup_insert_Some in Hin as [[_ <-]|[_ Hin]]; [unfold grant_signature in Hp; by rewrite Hit in Hp|].
      apply lookup_insert_Some in Hin as [[_ <-]|[_ Hin]]; [done|].
      apply lookup_singleton_Some in Hin as [_ <-]. unfold grant_signature in Hp. by rewrite Hct in Hp. }
    rewrite Hsd. cbn [res_bind Signature]. by rewrite Hver.
  - exfalso. eapply find_none in Hf.
    2:{ apply list_elem_of_In, (elem_of_map_range _ _ _ (ContentHash sigE) sigE).
        rewrite lookup_insert_ne by done. apply lookup_insert_eq. }
    cbn [snd] in Hf. unfold grant_signature in Hf. rewrite Hst, Hsd in Hf. cbn in Hf.
    by rewrite !bool_decide_true in Hf.
Qed.

(** C9: the reciprocal grant that a peer builds is accepted by the other one.
    For a grantee and a non-empty set of grants, and a key pair that signs, the
    dialer's frame is built; and an acceptor that authenticated the dialer
    accepts it: it gets the capability, which gives exactly these grants to this
    grantee, with its signature and the dialer's identity as the supporting
    entities, whatever the order in which the frame is visited. The hashes of
    the three entities of the frame must be distinct. *)
Theorem reciprocal_grant_accepted (alg : byte) (kp : Keypair) (grantee : Hash) (grants : list GrantEntry) (fmt : byte)
    (now : Z) :
  supported alg -> supported fmt -> signing_pair kp -> grantee <> zero_hash -> grants <> [] ->
  exists env ide capE sigE, BuildReentryGrantEnvelope alg kp grantee grants fmt now = Some (Ok env)
    /\ IdentityEntity kp = Ok ide
    /\ Included env = <[ContentHash ide := ide]> (<[ContentHash sigE := sigE]> {[ContentHash capE := capE]})
    /\ CapabilityTokenDataFromEntity capE = Ok (connection_token ide grants grantee now)
    /\ (NoDup [ContentHash capE; ContentHash sigE; ContentHash ide] ->
        AcceptReentryGrant env (ContentHash ide)
        = Ok (capE, <[ContentHash ide := ide]> {[ContentHash sigE := sigE]})).
Proof.
  intros Ha Hf [Hk Hver] Hz Hg. unfold BuildReentryGrantEnvelope, IsZero. rewrite bool_decide_false by done.
  destruct grants as [|g0 gs] eqn:Hgs; [done|]. cbn [length Nat.eqb]. rewrite <- Hgs.
  destruct (IdentityEntity_builds kp Hk) as (ide & Hide & Hit & Hpd). rewrite Hide. unfold mint_capability.
  destruct (token_encodes (connection_token ide grants grantee now)) as (raw & Hraw & Hne & Hdec). rewrite Hraw.
  cbn [of_option res_bind].
  destruct (NewEntityFormat_builds fmt TypeCapToken raw) as (capE & Hcap & Hct & Hcd & Hca); [done|done|done|by left|].
  rewrite Hcap. destruct (sign_entity_builds kp ide fmt capE Hk Hf) as (sig & sigE & Hsig & Hse & Hst & _ & Hsd).
  rewrite Hse. cbn [res_bind]. destruct (raw_entity_encodes capE) as [praw Hpraw]. rewrite Hpraw. cbn [of_option res_bind].
  unfold Execute_entity.
  destruct (execute_encodes (connect_execute ReentryGrantRequestID ReentryGrantOperation praw)) as (eraw & Heraw & Hene).
  rewrite Heraw. cbn [of_option res_bind].
  destruct (NewEntityFormat_builds alg TypeExecute eraw) as (execE & Hexec & _); [done|done|done|by left|]. rewrite Hexec.
  cbn [res_bind]. eexists _, ide, capE, sigE. split; [reflexivity|]. split; [done|]. split; [done|].
  assert (Htok : CapabilityTokenDataFromEntity capE = Ok (connection_token ide grants grantee now)).
  { unfold CapabilityTokenDataFromEntity. by rewrite Hcd, Hdec. }
  split; [exact Htok|]. rewrite !NoDup_cons. intros (Hn1 & Hn2 & _).
  assert (ContentHash capE <> ContentHash sigE /\ ContentHash capE <> ContentHash ide /\ ContentHash sigE <> ContentHash ide)
    as (Hd1 & Hd2 & Hd3) by (split_and!; set_solver).
  unfold AcceptReentryGrant. rewrite included_tokens_built by done. rewrite Hct, Hcd, Hca, Hcap. cbn [res_bind].
  rewrite bool_decide_true by done. cbn [negb guard]. rewrite Htok. cbn [res_bind Granter_ connection_token SingleHash].
  rewrite bool_decide_true by done. cbn [negb guard].
  rewrite (verifyGrantSignature_built kp _ capE sigE ide sig) by (done || by apply Hver).
  cbn [res_bind Included]. do 2 f_equal.
  rewrite delete_insert_ne, delete_insert_ne, delete_singleton_eq by done. done.
Qed.
End reciprocal.
