(* ===== verification/ConnectSample.v ===== *)
(** * The handshake on concrete parameters

    [Wide] is a codec that satisfies every law the handshake relies on, for all
    data; [Small] tables a few messages, so that whole connections can be run.
    The last part records what the handshake lets through. *)

From S2P Require Import Prelude GoStrings Sha2 Errors Hash PeerID Entity Paths CapTypes Patterns Delegation Chain Requests Store Revoked Dispatch Session Connect Handshake ConnectGrants Reentry.
Open Scope string_scope.

(** ** A codec for all data

    The bits of the number that [Countable] assigns to a value, one per byte. *)

Module Wide.
Fixpoint pos_bytes (p : positive) : list byte :=
  match p with xH => [Byte.x01] | xO p => Byte.x00 :: pos_bytes p | xI p => Byte.x02 :: pos_bytes p end.

Fixpoint bytes_pos (l : list byte) : option positive :=
  match l with
  | [] => None
  | Byte.x00 :: l => xO <$> bytes_pos l
  | Byte.x01 :: _ => Some xH
  | Byte.x02 :: l => xI <$> bytes_pos l
  | _ => None
  end.

Lemma bytes_pos_bytes p : bytes_pos (pos_bytes p) = Some p.
Proof. induction p as [p IH|p IH|]; cbn; [by rewrite IH..|done]. Qed.

Definition enc {A} `{Countable A} (a : A) : list byte := pos_bytes (encode a).
Definition dec {A} `{Countable A} (l : list byte) : option A := p ← bytes_pos l; decode p.

Lemma dec_enc {A} `{Countable A} (a : A) : dec (enc a) = Some a.
Proof. unfold dec, enc. rewrite bytes_pos_bytes. cbn. apply decode_encode. Qed.

Lemma enc_nonempty {A} `{Countable A} (a : A) : enc a <> [].
Proof. unfold enc. by destruct (encode a). Qed.

#[local] Instance HelloData_eq : EqDecision HelloData.
Proof. solve_decision. Defined.
#[local] Instance HelloData_countable : Countable HelloData.
Proof.
  refine (inj_countable'
    (fun d => (hd_PeerID d, hd_Nonce d, hd_Protocols d, hd_Timestamp d, (hd_HashFormats d, hd_KeyTypes d, hd_Compression d, hd_Encryption d)))
    (fun '(a, b, c, d, (e, f, g, h)) => Build_HelloData a b c d e f g h) _). by intros [].
Defined.
#[local] Instance AuthenticateData_eq : EqDecision AuthenticateData.
Proof. solve_decision. Defined.
#[local] Instance AuthenticateData_countable : Countable AuthenticateData.
Proof.
  refine (inj_countable' (fun d => (ad_PeerID d, ad_PublicKey d, ad_KeyType d, ad_Nonce d))
    (fun '(a, b, c, d) => Build_AuthenticateData a b c d) _). by intros [].
Defined.
#[local] Instance SignatureData_countable : Countable SignatureData.
Proof.
  refine (inj_countable' (fun d => (Target d, Signer d, sig_Algorithm d, Signature d))
    (fun '(a, b, c, d) => Build_SignatureData a b c d) _). by intros [].
Defined.
#[local] Instance PeerData_eq : EqDecision PeerData.
Proof. solve_decision. Defined.
#[local] Instance PeerData_countable : Countable PeerData.
Proof. refine (inj_countable' (fun d => (PublicKey d, pd_KeyType d)) (fun '(a, b) => Build_PeerData a b) _). by intros []. Defined.
#[local] Instance CapabilityScope_countable : Countable CapabilityScope.
Proof. refine (inj_countable' (fun d => (Include_ d, Exclude_ d)) (fun '(a, b) => mkScope a b) _). by intros []. Defined.
#[local] Instance GrantEntry_countable : Countable GrantEntry.
Proof.
  refine (inj_countable' (fun d => (Handlers d, Resources d, Operations d, Peers d, Constraints d, Allowances d))
    (fun '(a, b, c, d, e, f) => Build_GrantEntry a b c d e f) _). by intros [].
Defined.
#[local] Instance MultiGranter_eq : EqDecision MultiGranter.
Proof. solve_decision. Defined.
#[local] Instance MultiGranter_countable : Countable MultiGranter.
Proof. refine (inj_countable' (fun d => (Signers d, Threshold d)) (fun '(a, b) => Build_MultiGranter a b) _). by intros []. Defined.
#[local] Instance Granter_eq : EqDecision Granter.
Proof. solve_decision. Defined.
#[local] Instance Granter_countable : Countable Granter.
Proof.
  refine (inj_countable' (fun g => match g with SingleSigGranter h => inl h | MultiSigGranter m => inr m end)
    (fun s => match s with inl h => SingleSigGranter h | inr m => MultiSigGranter m end) _). by intros [].
Defined.
#[local] Instance Caveats_countable : Countable DelegationCaveats_.
Proof.
  refine (inj_countable' (fun d => (NoDelegation d, MaxDelegationDepth d, MaxDelegationTTL d))
    (fun '(a, b, c) => Build_DelegationCaveats_ a b c) _). by intros [].
Defined.
#[local] Instance Token_countable : Countable CapabilityTokenData.
Proof.
  refine (inj_countable' (fun d => (Grants d, Granter_ d, Grantee d, Parent d, (CreatedAt d, ExpiresAt d, NotBefore d, DelegationCaveats d)))
    (fun '(a, b, c, d, (e, f, g, h)) => Build_CapabilityTokenData a b c d e f g h) _). by intros [].
Defined.

Definition data_codec : DataCodec := {|
  DecodeToken := dec; DecodePeer := dec; DecodeSignature := dec; DecodeSigTarget d := Target <$> (dec d);
  DecodeExecute _ := None; DecodeRawMap _ := None |}.
Definition token_encoding : TokenEncoding := {| EncodeToken d := Some (enc d); EncodeSignature d := Some (enc d) |}.
Definition session_codec : SessionCodec := {|
  EncodeSession _ := None; DecodeSession _ := None; EncodeStatus _ := None; DecodeStatus _ := None;
  EncodeConnection _ := None; DecodeConnection _ := None; EncodePeer d := Some (enc d) |}.
Definition connect_codec : ConnectCodec := {|
  EncodeHello d := Some (enc d);
  DecodeHello l := match dec l with Some d => (d, true) | None => (Build_HelloData "" [] [] 0 [] [] [] [], false) end;
  EncodeAuthenticate d := Some (enc d); DecodeAuthenticate := dec; DecodePing _ := None; EncodePong _ := None;
  EncodeCapGrant t := Some (enc t); EncodeGrants gs := Some (enc gs); DecodePolicyEntry _ := None;
  EncodeExecute _ := Some [Byte.x01]; EncodeRawEntity _ := Some [Byte.x01] |}.

Definition laws : @HandshakeCodecLaws toy_hashable data_codec token_encoding session_codec connect_codec.
Proof.
  constructor; cbn.
  - intros d. exists (enc d). split_and!; [done|apply enc_nonempty|by rewrite dec_enc].
  - intros d. exists (enc d). split_and!; [done|apply enc_nonempty|apply dec_enc].
  - intros d. exists (enc d). split_and!; [done|apply enc_nonempty|apply dec_enc|by rewrite dec_enc].
  - intros d. exists (enc d). split_and!; [done|apply enc_nonempty|apply dec_enc].
  - intros d. exists (enc d). split_and!; [done|apply enc_nonempty|apply dec_enc].
  - intros t. exists (enc t). split; [done|apply enc_nonempty].
  - intros d. by exists [Byte.x01].
  - intros e. by eexists.
  - intros ty d. by eexists.
Qed.

(** A signature is the key followed by the message. *)
Definition key_signing : KeySigning := {|
  ed25519_Sign priv msg := (priv ++ msg)%list; ed448_Sign _ _ := [] |}.

Definition pair_of (b : byte) : Keypair := {|
  kp_KeyType := KeyTypeEd25519; kp_PrivateKey := Sample.key b; kp_PublicKey := Sample.key b |}.

Lemma pair_signs b : @signing_pair Sample.signing key_signing (pair_of b).
Proof.
  split; [done|]. intros msg sig. unfold Sign. cbn [kp_KeyType pair_of]. rewrite decide_True by done.
  intros [= <-]. unfold Verify. rewrite decide_True by done. cbn [kp_PublicKey pair_of ed25519_Verify Sample.signing].
  cbn. by rewrite bool_decide_true.
Qed.
End Wide.

Section wide_witnesses.
#[local] Existing Instances nibble58 nibble58_laws Sample.signing toy_hashable default_order Wide.data_codec
  Wide.token_encoding Wide.session_codec Wide.connect_codec Wide.laws Wide.key_signing.

Definition responder : ConnectHandler := {|
  ch_localKeypair := Wide.pair_of Byte.x42; ch_localPeerID := Sample.local; ch_localIdentity := Sample.peerB;
  ch_protocols := ["entity-core/1.0"]; ch_connectionGrants := None; ch_grantResolver := None; ch_advertisedScope := None;
  ch_advertisedHashFormats := ["ecfv1-sha256"; "ecfv1-sha384"]; ch_advertisedKeyTypes := DefaultAdvertisedKeyTypes |}.

(** The initiator prefers SHA-384, the responder lists SHA-256 first; the
    connection is completed. *)
Lemma honest_handshake_completes_witness :
  exists he re rd s ae inc0 cx g inc,
    handleHello responder 7 (Some [Byte.x0e]) he (Some NewConnectionState) = (Some s, Ok (Served re ∅))
    /\ NegotiateActiveHashFormat ["ecfv1-sha384"; "ecfv1-sha256"] (hd_HashFormats rd)
       = Some (st_ActiveHashFormat s, "ecfv1-sha384")
    /\ handleAuthenticate (CS := MemoryContentStore) (L := MemoryLocationIndex) AlgorithmSHA256 responder 8 ae
         (mkContext (Some ∅) (Some ∅) inc0 (Some s)) = (cx, Some (Ok (Served g inc)))
    /\ (st_Completed <$> cx_State cx) = Some true /\ (st_RemotePeerID <$> cx_State cx) = Some Sample.local.
Proof.
  destruct (honest_handshake_completes (CS := MemoryContentStore) (L := MemoryLocationIndex)
    AlgorithmSHA384 AlgorithmSHA256 (Wide.pair_of Byte.x41) Sample.local responder [] [Byte.x0d] [Byte.x0e] 6 7 8
    AlgorithmSHA384 "ecfv1-sha384") as (he & re & rd & s & ae & ide & se & _ & Hh & _ & _ & Hn & _ & Hauth).
  { by right. } { by left. } { apply Wide.pair_signs. } { reflexivity. } { reflexivity. } { reflexivity. } { done. }
  { reflexivity. } { done. }
  destruct (Hauth (Some ∅) (Some ∅)) as (cx & capE & g & inc & Ha & Hst & _).
  exists he, re, rd, s, ae, (<[ContentHash se := se]> {[ContentHash ide := ide]}), cx, g, inc.
  rewrite Hst. split_and!; [exact Hh|exact Hn|exact Ha|reflexivity|reflexivity].
Defined.

Lemma peerB_nonzero : ContentHash Sample.peerB <> zero_hash.
Proof. apply (bool_decide_eq_false (ContentHash Sample.peerB = zero_hash)). vm_compute. reflexivity. Qed.

Definition served_grants : list GrantEntry := [plain_grant "system/tree" ["system/type/*"] "get"].

Lemma reciprocal_grant_accepted_witness :
  exists env ide capE sigE,
    BuildReentryGrantEnvelope AlgorithmSHA256 (Wide.pair_of Byte.x41) (ContentHash Sample.peerB) served_grants AlgorithmSHA384 9
    = Some (Ok env)
    /\ (NoDup [ContentHash capE; ContentHash sigE; ContentHash ide] ->
        AcceptReentryGrant env (ContentHash ide) = Ok (capE, <[ContentHash ide := ide]> {[ContentHash sigE := sigE]})).
Proof.
  destruct (reciprocal_grant_accepted AlgorithmSHA256 (Wide.pair_of Byte.x41) (ContentHash Sample.peerB) served_grants
    AlgorithmSHA384 9) as (env & ide & capE & sigE & Hb & _ & _ & _ & Ha).
  { by left. } { by right. } { apply Wide.pair_signs. } { apply peerB_nonzero. } { done. }
  exists env, ide, capE, sigE. split; [exact Hb|exact Ha].
Defined.
End wide_witnesses.

(** ** Connections that run

    A tabled codec: the data of an entity is one byte that names the message. *)

Module Small.
Definition pid_of (b : byte) : PeerID :=
  match @PeerIDFromPublicKey nibble58 (Sample.key b) KeyTypeEd25519 with Ok p => p | Err _ => "" end.
(** The responder, a peer that connects, and another one. *)
Definition pidB : PeerID := pid_of Byte.x42.
Definition pidA : PeerID := pid_of Byte.x41.
Definition pidM : PeerID := pid_of Byte.x43.

Definition nonce : list byte := [Byte.x0e].
Definition helloE : Entity := toy_entity TypeHello [Byte.x10].
Definition helloME : Entity := toy_entity TypeHello [Byte.x12].
Definition authE : Entity := toy_entity TypeAuthenticate [Byte.x11].
Definition authME : Entity := toy_entity TypeAuthenticate [Byte.x13].
(** A note that the peer signed and published, and an authenticate request that
    carries the hash of the note instead of its own. *)
Definition noteE : Entity := toy_entity "note" [Byte.x09].
Definition forgedE : Entity := mkEntity TypeAuthenticate [Byte.x11] (ContentHash noteE).

Definition sigAuth : Entity := toy_entity TypeSignature [Byte.x14].
Definition sigNote : Entity := toy_entity TypeSignature [Byte.x15].
Definition sigM : Entity := toy_entity TypeSignature [Byte.x16].
(** A reciprocal grant and its signature. *)
Definition reciprocalE : Entity := toy_entity TypeCapToken [Byte.x19].
Definition sigReciprocal : Entity := toy_entity TypeSignature [Byte.x17].

Definition decode_sig (d : list byte) : option SignatureData :=
  if decide (d = [Byte.x14]) then Some (Sample.sig_over authE Sample.peerA Byte.x41)
  else if decide (d = [Byte.x15]) then Some (Sample.sig_over noteE Sample.peerA Byte.x41)
  else if decide (d = [Byte.x16]) then Some (Sample.sig_over authME Sample.peerA Byte.x43)
  else if decide (d = [Byte.x17]) then Some (Sample.sig_over reciprocalE Sample.peerA Byte.x41)
  else None.

Definition decode_execute (d : list byte) : option ExecuteData :=
  if decide (d = [Byte.x31]) then Some (connect_execute "1" "hello" [Byte.x21])
  else if decide (d = [Byte.x32]) then Some (connect_execute "2" "authenticate" [Byte.x22])
  else if decide (d = [Byte.x33]) then Some (connect_execute "3" "authenticate" [Byte.x23])
  else if decide (d = [Byte.x34]) then Some (connect_execute "4" "hello" [Byte.x24])
  else if decide (d = [Byte.x35]) then Some (connect_execute "5" "authenticate" [Byte.x25])
  else None.

Definition hello_of (pid : PeerID) : HelloData := {|
  hd_PeerID := pid; hd_Nonce := [Byte.x0d]; hd_Protocols := ["entity-core/1.0"]; hd_Timestamp := 1;
  hd_HashFormats := []; hd_KeyTypes := []; hd_Compression := []; hd_Encryption := [] |}.

Definition grants : list GrantEntry := [plain_grant "system/tree" ["system/type/*"] "get"].
Definition token : CapabilityTokenData := connection_token Sample.peerB grants (ContentHash Sample.peerA) 8.
Definition session_with (held : option SessionCapability) (cap : Hash) : SessionData := {|
  RemotePeerID := pidA; RemoteIdentityHash := ContentHash Sample.peerA; RemotePublicKey := Sample.key Byte.x41;
  HeldCapability := held; MintedCapability := Some {| sc_Hash := cap; sc_Chain := [cap] |}; GrantedAt := 8; sd_ExpiresAt := 0 |}.
Definition session0 (cap : Hash) : SessionData := session_with None cap.
Definition session1 (cap : Hash) : SessionData :=
  session_with (Some {| sc_Hash := ContentHash reciprocalE; sc_Chain := [ContentHash reciprocalE] |}) cap.
Definition capE : Entity := toy_entity TypeCapToken [Byte.x02].

Definition data_codec : DataCodec := {|
  DecodeToken d := if decide (d = [Byte.x02]) then Some token
                   else if decide (d = [Byte.x19]) then Some (connection_token Sample.peerA grants (ContentHash Sample.peerB) 9)
                   else None;
  DecodePeer d := if decide (d = [Byte.x0a]) then Some {| PublicKey := Sample.key Byte.x41; pd_KeyType := "ed25519" |} else None;
  DecodeSignature := decode_sig; DecodeSigTarget d := Target <$> decode_sig d;
  DecodeExecute := decode_execute; DecodeRawMap _ := None |}.

Definition data_laws : @DataCodecLaws data_codec.
Proof. constructor. intros d sd t. cbn. intros ->. cbn. by intros [= <-]. Qed.

Definition raw_entity (d : list byte) : option Entity :=
  if decide (d = [Byte.x21]) then Some helloE else if decide (d = [Byte.x22]) then Some authE
  else if decide (d = [Byte.x23]) then Some forgedE else if decide (d = [Byte.x24]) then Some helloME
  else if decide (d = [Byte.x25]) then Some authME else None.

Definition handler_codec : HandlerCodec := {|
  DecodeHandler d := if decide (d = [Byte.x07])
    then Some {| Interface := ""; MaxScope := []; InternalScope := []; ExpressionPath := "" |} else None;
  DecodeInterfaceOps _ := None; DecodeRawEntity := raw_entity |}.

Definition token_encoding : TokenEncoding := {|
  EncodeToken d := if decide (d = token) then Some [Byte.x02] else None;
  EncodeSignature _ := Some [Byte.x03] |}.

#[local] Instance SessionCapability_eq : EqDecision SessionCapability.
Proof. solve_decision. Defined.
#[local] Instance SessionData_eq : EqDecision SessionData.
Proof. solve_decision. Defined.
#[local] Instance PeerStatusData_eq : EqDecision PeerStatusData.
Proof. solve_decision. Defined.

Definition session_codec : SessionCodec := {|
  EncodeSession d := if decide (d = session0 (ContentHash capE)) then Some [Byte.x05]
                     else if decide (d = session1 (ContentHash capE)) then Some [Byte.x18] else None;
  DecodeSession l := if decide (l = [Byte.x05]) then Some (session0 (ContentHash capE))
                     else if decide (l = [Byte.x18]) then Some (session1 (ContentHash capE)) else None;
  EncodeStatus d := if decide (d = connected_status pidA 8) then Some [Byte.x06]
                    else if decide (d = connected_status pidM 8) then Some [Byte.x08] else None;
  DecodeStatus l := if decide (l = [Byte.x06]) then Some (connected_status pidA 8)
                    else if decide (l = [Byte.x08]) then Some (connected_status pidM 8) else None;
  EncodeConnection _ := None; DecodeConnection _ := None; EncodePeer _ := None |}.

Definition session_laws : @SessionCodecLaws session_codec.
Proof.
  constructor; cbn.
  - intros d raw. case_decide as Hd; [intros [= <-]; by rewrite decide_True, Hd by done|].
    case_decide as Hd'; [|done]. intros [= <-]. by rewrite decide_False, decide_True, Hd' by done.
  - intros d raw. case_decide as Hd; [intros [= <-]; by rewrite decide_True, Hd by done|].
    case_decide as Hd'; [|done]. intros [= <-]. by rewrite decide_False, decide_True, Hd' by done.
  - done.
Qed.

Definition connect_codec : ConnectCodec := {|
  EncodeHello _ := Some [Byte.x01];
  DecodeHello l := if decide (l = [Byte.x10]) then (hello_of pidA, true) else if decide (l = [Byte.x12]) then (hello_of pidM, true)
                   else (Build_HelloData "" [] [] 0 [] [] [] [], false);
  EncodeAuthenticate _ := None;
  DecodeAuthenticate l :=
    if decide (l = [Byte.x11]) then Some {| ad_PeerID := pidA; ad_PublicKey := Sample.key Byte.x41; ad_KeyType := "ed25519"; ad_Nonce := nonce |}
    else if decide (l = [Byte.x13]) then Some {| ad_PeerID := pidM; ad_PublicKey := Sample.key Byte.x43; ad_KeyType := "ed25519"; ad_Nonce := nonce |}
    else None;
  DecodePing _ := None; EncodePong _ := None; EncodeCapGrant _ := Some [Byte.x04]; EncodeGrants _ := Some [Byte.x0f];
  DecodePolicyEntry _ := None; EncodeExecute _ := None; EncodeRawEntity _ := None |}.

Definition handler : ConnectHandler := {|
  ch_localKeypair := Wide.pair_of Byte.x42; ch_localPeerID := pidB; ch_localIdentity := Sample.peerB;
  ch_protocols := ["entity-core/1.0"]; ch_connectionGrants := Some grants; ch_grantResolver := None;
  ch_advertisedScope := Some (plain_grant "system/tree" ["system/*"] "*" :: DefaultConnectionGrants);
  ch_advertisedHashFormats := ["ecfv1-sha256"]; ch_advertisedKeyTypes := DefaultAdvertisedKeyTypes |}.

#[local] Existing Instances nibble58 Sample.signing toy_hashable default_order data_codec data_laws handler_codec
  token_encoding Wide.key_signing session_codec session_laws connect_codec.

Definition handlerE : Entity := toy_entity TypeHandler [Byte.x07].

Definition dispatcher : Dispatcher MemoryContentStore MemoryLocationIndex MemoryCapabilityIndex := {|
  LocalPeerID := pidB; LocalIdentityHash := ContentHash Sample.peerB;
  d_Store := Sample.file [handlerE];
  d_LocationIndex := {[ "/" +:+ pidB +:+ "/" +:+ connectPath := ContentHash handlerE ]};
  d_CapabilityIndex := None;
  Registry p := if String.eqb p connectPath then Some {| manifest_Operations := None |} else None;
  EvaluateExpression := false; IdentityBindingChecker := None; AuthoredGrantSupplier := None |}.

Definition frame (exec : byte) (included : list Entity) : Frame MemoryContentStore MemoryLocationIndex MemoryCapabilityIndex := {|
  f_dispatcher := dispatcher;
  f_env := mkEnvelope (toy_entity TypeExecute [exec]) (Sample.file included);
  f_clock _ := 8; f_now := 8; f_gnow := 8; f_rand := Some nonce |}.

Definition state_after := connection (CS := MemoryContentStore) (L := MemoryLocationIndex) (IX := MemoryCapabilityIndex)
  AlgorithmSHA256 handler.

Lemma handshake_proves_possession_witness :
  let fs := [frame Byte.x31 []; frame Byte.x32 [Sample.peerA; sigAuth]] in
  st_Completed (state_after fs) = true
  /\ (exists params (fa : Frame MemoryContentStore MemoryLocationIndex MemoryCapabilityIndex),
        proof_frame fa (st_OurNonce (state_after fs)) (st_RemotePeerID (state_after fs)) params)
  /\ st_RemotePeerID (state_after fs) = pidA.
Proof.
  cbv zeta. assert (Hc : st_Completed (state_after [frame Byte.x31 []; frame Byte.x32 [Sample.peerA; sigAuth]]) = true)
    by (vm_compute; reflexivity).
  split; [exact Hc|]. split; [|vm_compute; reflexivity].
  destruct (handshake_proves_possession AlgorithmSHA256 handler [frame Byte.x31 []; frame Byte.x32 [Sample.peerA; sigAuth]]) as [Hp _].
  destruct (Hp Hc) as (_ & _ & fs1 & fh & fs2 & fa & fs3 & pid & params & _ & _ & _ & _ & Hf & _).
  exists params, fa. exact Hf.
Defined.

(** A connection is completed for a peer that did not authenticate: the
    authenticate request carries the hash of a note that the peer signed once,
    and nothing compares this hash with the request's content.  A signature of
    the peer over any entity, which is public, is enough. *)
Theorem forged_authenticate_completes :
  let fs := [frame Byte.x31 []; frame Byte.x33 [Sample.peerA; sigNote]] in
  st_Completed (state_after fs) = true /\ st_RemotePeerID (state_after fs) = pidA
  /\ frame_params (frame Byte.x33 [Sample.peerA; sigNote]) = Some forgedE
  /\ is_ok (Ent.Validate forgedE) = false /\ is_ok (Ent.Validate noteE) = true
  /\ (Target <$> decode_sig (Data sigNote)) = Some (ContentHash noteE) /\ Type_ noteE = "note".
Proof. cbv zeta. split_and!; vm_compute; reflexivity. Qed.

(** The records of a connection are kept under an identity that the connecting
    peer chooses: a peer that authenticates with its own key, in a signature
    entity that names another peer as its signer, is given a capability for that
    peer, and that peer's status entity says that it is the one connected. *)
Definition after_named_signer :=
  serve_connect (CS := MemoryContentStore) (L := MemoryLocationIndex) (IX := MemoryCapabilityIndex) AlgorithmSHA256 handler
    (frame Byte.x35 [Sample.peerA; sigM]) (state_after [frame Byte.x34 []]).

Theorem chosen_signer_keys_records :
  match after_named_signer with
  | Some (d, Some s, Answered (Served _ _)) =>
      st_RemotePeerID s = pidM
      /\ (match st_GrantedCapability s with Some c => Grantee <$> DecodeToken (Data c) | None => None end)
         = Some (ContentHash Sample.peerA)
      /\ ps_PeerID <$> ReadPeerStatus (d_Store d) (d_LocationIndex d) pidB (ContentHash Sample.peerA) = Some pidM
      /\ ReadPeerStatus (d_Store d) (d_LocationIndex d) pidB (ContentHash Sample.peerB) = None
  | _ => False
  end.
Proof.
  assert (Hs : match after_named_signer with
    | Some (d, Some s, Answered (Served _ _)) =>
        bool_decide (st_RemotePeerID s = pidM)
        && bool_decide ((match st_GrantedCapability s with Some c => Grantee <$> DecodeToken (Data c) | None => None end)
             = Some (ContentHash Sample.peerA))
        && bool_decide (ps_PeerID <$> ReadPeerStatus (d_Store d) (d_LocationIndex d) pidB (ContentHash Sample.peerA) = Some pidM)
        && bool_decide (ReadPeerStatus (d_Store d) (d_LocationIndex d) pidB (ContentHash Sample.peerB) = None)
    | _ => false
    end = true) by (vm_compute; reflexivity).
  destruct after_named_signer as [[[d [s|]] [[] | |]]|]; try discriminate Hs. bool_prop. by split_and!.
Qed.

(** *** Witnesses *)

Lemma put_total (cs : MemoryContentStore) e k : put_hash e = Ok k -> snd (cs_Put cs e) = Ok k.
Proof. intros Hp. cbn [cs_Put memory_content_store]. by rewrite MemPut_hash, Hp. Qed.

Lemma set_total (li : MemoryLocationIndex) p k : snd (Set_ li p k) = Ok tt.
Proof. reflexivity. Qed.

(** No policy is tabled. *)
Lemma same_grants (cs : MemoryContentStore) (li : MemoryLocationIndex) pid rid :
  AssembleInboundGrants handler (Some cs) (Some li) pid rid = grants.
Proof.
  assert (He : forall p, readHandshakePolicyEntry cs li p = None).
  { intros p. unfold readHandshakePolicyEntry. by destruct (Get li _) as [k|]; [destruct (cs_Get cs k)|]. }
  unfold AssembleInboundGrants, readHandshakePolicyGrants. rewrite !He. destruct (0 <? slen pid)%nat; rewrite ?He; vm_compute; reflexivity.
Qed.

Definition ad0 : AuthenticateData :=
  {| ad_PeerID := pidA; ad_PublicKey := Sample.key Byte.x41; ad_KeyType := "ed25519"; ad_Nonce := nonce |}.
Definition sd0 : SignatureData := Sample.sig_over authE Sample.peerA Byte.x41.
Definition s0 : ConnState := hello_state NewConnectionState nonce AlgorithmSHA256 pidA.

(** The peer connects at 8 and again at 99: the same answer, and the stores are
    what they were. *)
Lemma capability_reused_witness :
  exists (cs' : MemoryContentStore) (li' : MemoryLocationIndex) included,
    grant_connection AlgorithmSHA256 handler 8 ad0 sd0 s0 (mkContext (Some ∅) (Some ∅) ∅ None)
    = (mkContext (Some cs') (Some li') ∅ (Some (auth_state s0 pidA capE)), Some (Ok (Served (toy_entity TypeCapGrant [Byte.x04]) included)))
    /\ grant_connection AlgorithmSHA256 handler 99 ad0 sd0 s0 (mkContext (Some cs') (Some li') ∅ None)
       = (mkContext (Some cs') (Some li') ∅ (Some (auth_state s0 pidA capE)), Some (Ok (Served (toy_entity TypeCapGrant [Byte.x04]) included))).
Proof.
  destruct (capability_reused (CS := MemoryContentStore) (L := MemoryLocationIndex) AlgorithmSHA256 handler put_total
    set_total ∅ ∅ 8 ad0 sd0 s0 capE (toy_entity TypeSignature [Byte.x03])
    (toy_entity TypePeerSession [Byte.x05]) (toy_entity TypePeerStatus [Byte.x06]) (toy_entity TypeCapGrant [Byte.x04]) ∅ None)
    as (cs' & li' & included & Hfirst & Hagain).
  { intros d raw. cbn. case_decide as Hd; [|done]. intros [= <-]. by rewrite decide_True, Hd by done. }
  { by eexists. }
  { by vm_compute. }
  { vm_compute. discriminate. }
  { vm_compute. reflexivity. }
  { vm_compute. reflexivity. }
  { vm_compute. reflexivity. }
  { vm_compute. reflexivity. }
  { apply (bool_decide_unpack _). vm_compute. exact I. }
  { vm_compute. reflexivity. }
  exists cs', li', included. split; [exact Hfirst|].
  refine (Hagain 99%Z ad0 sd0 s0 ∅ None eq_refl eq_refl _). rewrite !same_grants. reflexivity.
Defined.


(** The granter's side writes, then the dialer's side without a key. *)
Definition mint_write : session_write :=
  {| w_held_side := false; w_peer := pidA; w_key := Sample.key Byte.x41; w_cap := capE; w_granted := 8; w_expires := 0 |}.
Definition hold_write : session_write :=
  {| w_held_side := true; w_peer := pidA; w_key := []; w_cap := reciprocalE; w_granted := 8; w_expires := 0 |}.
Definition write_on (w : session_write) (st : MemoryContentStore * MemoryLocationIndex) : MemoryContentStore * MemoryLocationIndex * result Hash :=
  perform_write AlgorithmSHA256 pidB (ContentHash Sample.peerA) w (fst st) (snd st).
Definition minted_st := fst (write_on mint_write (∅, ∅)).
Definition held_st := fst (write_on hold_write minted_st).
Definition view_st (st : MemoryContentStore * MemoryLocationIndex) : session_view := view_of (fst st) (snd st) pidB (ContentHash Sample.peerA).

Lemma write_succeeds w st : is_ok (snd (write_on w st)) = true ->
  exists h, write_on w st = (fst (fst (write_on w st)), snd (fst (write_on w st)), Ok h).
Proof. destruct (write_on w st) as [[cs li] [h|e]]; [|done]. intros _. by exists h. Qed.


Definition reciprocal_frame : Envelope :=
  mkEnvelope (toy_entity TypeExecute [Byte.x36]) (Sample.file [reciprocalE; sigReciprocal; Sample.peerA]).

Lemma AcceptReentryGrant_sound_witness :
  exists supporting, AcceptReentryGrant reciprocal_frame (ContentHash Sample.peerA) = Ok (reciprocalE, supporting)
    /\ Included reciprocal_frame !! ContentHash reciprocalE = Some reciprocalE.
Proof.
  destruct (AcceptReentryGrant reciprocal_frame (ContentHash Sample.peerA)) as [[c supporting]|e] eqn:Ha.
  - assert (Hc : fst <$> (match AcceptReentryGrant reciprocal_frame (ContentHash Sample.peerA) with Ok p => Some p | Err _ => None end)
      = Some reciprocalE) by (vm_compute; reflexivity).
    rewrite Ha in Hc. cbn in Hc. injection Hc as ->. exists supporting. split; [reflexivity|].
    eapply (AcceptReentryGrant_sound reciprocal_frame (ContentHash Sample.peerA) reciprocalE supporting); [vm_compute; reflexivity|exact Ha].
  - exfalso. assert (Hc : is_ok (AcceptReentryGrant reciprocal_frame (ContentHash Sample.peerA)) = true) by (vm_compute; reflexivity).
    by rewrite Ha in Hc.
Defined.
End Small.
