(* ===== verification/Chunker.v ===== *)
(** * Chunking ([ext/content/chunker])

    The two ways content is cut into chunks: every [chunkSize] bytes
    ([fixed.go]), or where a rolling fingerprint of the content says so
    ([fastcdc.go], over the table of [gear.go]).  Offsets and sizes are [uint64],
    with the wrap of every addition written out; a length is below 2^63, as a
    Go slice's is, and where that is not enough the bound is stated.

    The loops are fuelled.  [None] is an index out of range or the end of the
    fuel; the theorems show that neither happens, and the one input on which
    the loop of the code runs forever is [ChunkFastCDC_zero_target]. *)

From S2P Require Import Prelude GoStrings Sha2.

Open Scope Z_scope.

Record ChunkRange := mkRange { Start : Z; End_ : Z }.

Global Instance ChunkRange_eq_dec : EqDecision ChunkRange.
Proof. solve_decision. Defined.

Definition data_len (data : list byte) : Z := Z.of_nat (length data).

(** Go's [x << s] on [uint64]: a shift of 64 or more gives zero. *)
Definition shl64 (x s : Z) : Z := if s <? 64 then u64 (Z.shiftl x s) else 0.

(** ** Fixed-size chunks *)

(** The loop; the pair of the fuel with [offset < n] is its condition. *)
Fixpoint fixed_loop (fuel : nat) (n chunkSize offset : Z) : option (list ChunkRange) :=
  if offset <? n then
    match fuel with
    | O => None
    | S fuel =>
        let end_ := u64 (offset + chunkSize) in
        let end_ := if n <? end_ then n else end_ in
        (fun out => mkRange offset end_ :: out) <$> fixed_loop fuel n chunkSize (u64 (offset + chunkSize))
    end
  else Some [].

Definition ChunkFixed (data : list byte) (chunkSize : Z) : option (list ChunkRange) :=
  if (chunkSize =? 0) || (data_len data =? 0) then Some []
  else fixed_loop (length data) (data_len data) chunkSize 0.

(** ** The gear table *)

Definition le_uint64 (l : list byte) : Z := be_combine (rev l).

Definition gear_entry (i : byte) : Z := le_uint64 (firstn 8 (sha256_sum (str_bytes "FastCDC" ++ [i])%list)).

(** The table that [init] fills. *)
Definition GearTable : list Z := Eval vm_compute in map (fun i => gear_entry (Zb (Z.of_nat i))) (seq 0 256).

Definition Gear (b : byte) : Z := nth (Z.to_nat (bZ b)) GearTable 0.

(** ** FastCDC *)

Record FastCDCParams := mkParams { cdc_Target : Z; cdc_Min : Z; cdc_Max : Z; MaskS : Z; MaskL : Z }.

(** [bits.Len64(target) - 1] is the logarithm of a positive [target]. *)
Definition DeriveFastCDC (target : Z) : FastCDCParams :=
  if target =? 0 then mkParams 0 0 0 0 0
  else
    let logBits := Z.log2 target in
    let nc := 2 in {|
    cdc_Target := target;
    cdc_Min := target / 4;
    cdc_Max := u64 (target * 2);
    MaskS := u64 (shl64 1 (u64 (logBits + nc)) - 1);
    MaskL := u64 (shl64 1 (u64 (logBits - nc)) - 1) |}.

Definition gear_step (fp : Z) (b : byte) : Z := u64 (u64 (Z.shiftl fp 1) + Gear b).

(** What a phase of the scan ends with: a boundary, or the position and the
    fingerprint the next phase goes on from. *)
Inductive scan_end := Boundary (i : Z) | Limit (i fp : Z).

(** A phase: [for i < limit].  [fuel] is [limit - i], the number of its rounds. *)
Fixpoint scan_phase (fuel : nat) (data : list byte) (limit mask i fp : Z) : option scan_end :=
  if i <? limit then
    match fuel with
    | O => None
    | S fuel =>
        match data !! Z.to_nat i with
        | None => None
        | Some b =>
            let fp := gear_step fp b in
            if Z.land fp mask =? 0 then Some (Boundary (u64 (i + 1)))
            else scan_phase fuel data limit mask (u64 (i + 1)) fp
        end
    end
  else Some (Limit i fp).

Definition clip (n limit : Z) : Z := if n <? limit then n else limit.

Definition findBoundary (data : list byte) (offset : Z) (p : FastCDCParams) : option Z :=
  let n := data_len data in
  let i := u64 (offset + cdc_Min p) in
  let limit1 := clip n (u64 (offset + cdc_Target p)) in
  match scan_phase (Z.to_nat (limit1 - i)) data limit1 (MaskS p) i 0 with
  | None => None
  | Some (Boundary e) => Some e
  | Some (Limit i fp) =>
      let limit2 := clip n (u64 (offset + cdc_Max p)) in
      match scan_phase (Z.to_nat (limit2 - i)) data limit2 (MaskL p) i fp with
      | None => None
      | Some (Boundary e) => Some e
      | Some (Limit i _) => Some i
      end
  end.

Fixpoint cdc_loop (fuel : nat) (data : list byte) (p : FastCDCParams) (offset : Z) : option (list ChunkRange) :=
  let n := data_len data in
  if offset <? n then
    match fuel with
    | O => None
    | S fuel =>
        let remaining := n - offset in
        match (if remaining <=? cdc_Min p then Some (u64 (offset + remaining)) else findBoundary data offset p) with
        | None => None
        | Some end_ => (fun out => mkRange offset end_ :: out) <$> cdc_loop fuel data p end_
        end
    end
  else Some [].

Definition ChunkFastCDC (data : list byte) (target : Z) : option (list ChunkRange) :=
  if data_len data =? 0 then Some [] else cdc_loop (length data) data (DeriveFastCDC target) 0.

(** ** What a list of ranges should be *)

Definition slice (data : list byte) (r : ChunkRange) : list byte :=
  firstn (Z.to_nat (End_ r - Start r)) (skipn (Z.to_nat (Start r)) data).

(** The payloads of a list of ranges. *)
Definition payloads (data : list byte) (ranges : list ChunkRange) : list (list byte) := map (slice data) ranges.

(** [tiles lo hi rs]: the ranges are non-empty, adjacent, and cover [lo, hi). *)
Fixpoint tiles (lo hi : Z) (rs : list ChunkRange) : Prop :=
  match rs with
  | [] => lo = hi
  | r :: rs => Start r = lo /\ lo < End_ r <= hi /\ tiles (End_ r) hi rs
  end.

Lemma tiles_payloads data lo hi rs : 0 <= lo -> hi <= data_len data -> tiles lo hi rs ->
  concat (payloads data rs) = firstn (Z.to_nat (hi - lo)) (skipn (Z.to_nat lo) data).
Proof.
  intros Hlo Hhi. revert lo Hlo. induction rs as [|r rs IH]; intros lo Hlo; cbn [tiles payloads map concat].
  - intros ->. by rewrite Z.sub_diag.
  - intros (Hs & He & Ht). unfold payloads in IH. rewrite (IH (End_ r) ltac:(lia) Ht). unfold slice. rewrite Hs.
    replace (Z.to_nat (hi - lo)) with (Z.to_nat (End_ r - lo) + Z.to_nat (hi - End_ r))%nat by lia.
    replace (Z.to_nat (End_ r)) with (Z.to_nat lo + Z.to_nat (End_ r - lo))%nat by lia.
    rewrite <- drop_drop. apply take_take_drop.
Qed.

Lemma tiles_concat data rs : tiles 0 (data_len data) rs -> concat (payloads data rs) = data.
Proof.
  intros Ht. rewrite (tiles_payloads data 0 (data_len data)) by (done || lia).
  unfold data_len. rewrite Z.sub_0_r, Nat2Z.id. apply firstn_all.
Qed.

(** ** Fixed-size chunks, the specification *)

(** The cut at [offset], as the specification has it, without the wrap. *)
Lemma fixed_loop_spec fuel n cs offset :
  0 < cs < two64 -> 0 <= offset <= n -> n < 2 ^ 63 -> (Z.to_nat (n - offset) <= fuel)%nat ->
  (offset = 0 \/ cs <= n) ->
  exists rs, fixed_loop fuel n cs offset = Some rs /\ tiles offset n rs
    /\ forall i r, rs !! i = Some r ->
         Start r = offset + Z.of_nat i * cs /\ End_ r = Z.min (offset + (Z.of_nat i + 1) * cs) n.
Proof.
  intros Hcs. revert offset. induction fuel as [|fuel IH]; intros offset Ho Hn Hf Hsmall; cbn [fixed_loop].
  { destruct (Z.ltb_spec offset n); [lia|]. exists []. cbn [tiles]. split_and!; [done|lia|by intros ? ? ?]. }
  destruct (Z.ltb_spec offset n) as [Hlt|].
  2: { exists []. cbn [tiles]. split_and!; [done|lia|by intros ? ? ?]. }
  assert (Hw : u64 (offset + cs) = offset + cs) by (apply u64_small; unfold two64 in *; lia). rewrite Hw.
  destruct (Z.ltb_spec n (offset + cs)) as [Hover|Hfit].
  - assert (Hend : fixed_loop fuel n cs (offset + cs) = Some []).
    { destruct fuel; cbn [fixed_loop]; by replace (offset + cs <? n) with false by (symmetry; apply Z.ltb_ge; lia). }
    rewrite Hend. exists [mkRange offset n]. cbn [tiles Start End_ fmap option_fmap option_map]. split_and!; try (done || lia).
    intros [|i] r; cbn [lookup list_lookup]; [|done]. intros [= <-]. cbn [Start End_]. lia.
  - destruct (IH (offset + cs)) as (rs & Hrs & Ht & Hi); try lia. rewrite Hrs.
    exists (mkRange offset (offset + cs) :: rs). cbn [tiles Start End_ fmap option_fmap option_map]. split_and!; try (done || lia).
    intros [|i] r; cbn [lookup list_lookup].
    + intros [= <-]. cbn [Start End_]. lia.
    + intros [-> ->]%Hi. lia.
Qed.

(** ** FastCDC, the specification *)

Section cdc_spec.
Context (p : FastCDCParams).

Abbreviation tmin := (Z.to_nat (cdc_Min p)).
Abbreviation tmax := (Z.to_nat (cdc_Max p)).

(** The fingerprint after the first [k] bytes; the first [Min] are skipped. *)
Definition fingerprint (rest : list byte) (k : nat) : Z := fold_left gear_step (drop tmin (take k rest)) 0.

(** A chunk may end after [k] bytes: the harder mask up to the target size, the
    easier one above it. *)
Definition hit (rest : list byte) (k : nat) : bool :=
  Z.land (fingerprint rest k) (if Z.of_nat k <=? cdc_Target p then MaskS p else MaskL p) =? 0.

(** The length of the first chunk of [rest]: all of it when it is short, else the
    least length above [Min] at which the fingerprint hits, at most [Max]. *)
Definition cut (rest : list byte) : nat :=
  if data_len rest <=? cdc_Min p then length rest
  else
    let longest := (tmax `min` length rest)%nat in
    match find (hit rest) (seq (S tmin) (longest - tmin)) with Some k => k | None => longest end.

(** The chunks of [rest], one after the other. *)
Fixpoint split_chunks (fuel : nat) (rest : list byte) : list (list byte) :=
  match rest, fuel with
  | [], _ | _, O => []
  | _, S fuel => take (cut rest) rest :: split_chunks fuel (drop (cut rest) rest)
  end.

(** Parameters under which nothing wraps. *)
Record params_ok : Prop := {
  ok_min : 0 <= cdc_Min p <= cdc_Target p;
  ok_target : 0 < cdc_Target p <= cdc_Max p;
  ok_max : cdc_Max p < 2 ^ 63;
  ok_progress : cdc_Min p < cdc_Max p
}.

Lemma find_app {A} (f : A -> bool) (l l' : list A) :
  find f (l ++ l') = match find f l with Some x => Some x | None => find f l' end.
Proof. induction l as [|x l IH]; cbn [find app]; [done|]. by destruct (f x). Qed.

Lemma fingerprint_step rest k b : (tmin <= k)%nat -> rest !! k = Some b ->
  fingerprint rest (S k) = gear_step (fingerprint rest k) b.
Proof.
  intros Hk Hb. unfold fingerprint. rewrite (take_S_r _ _ _ Hb), drop_app_le, fold_left_app; [done|].
  rewrite length_take. apply lookup_lt_Some in Hb. lia.
Qed.

(** A phase finds the first hit of its part of the window. *)
Lemma scan_phase_spec data (o : nat) mask (m : nat) fuel k :
  let rest := drop o data in
  data_len data < 2 ^ 63 -> (o + m <= length data)%nat -> (tmin <= k)%nat -> (m - k <= fuel)%nat ->
  (forall j, (k < j <= m)%nat -> hit rest j = (Z.land (fingerprint rest j) mask =? 0)) ->
  scan_phase fuel data (Z.of_nat (o + m)) mask (Z.of_nat (o + k)) (fingerprint rest k)
  = Some match find (hit rest) (seq (S k) (m - k)) with
         | Some j => Boundary (Z.of_nat (o + j))
         | None => Limit (Z.of_nat (o + k `max` m)) (fingerprint rest (k `max` m))
         end.
Proof.
  cbv zeta. intros Hlen Hm. revert k. induction fuel as [|fuel IH]; intros k Hk Hf Hhit; cbn [scan_phase].
  { destruct (Z.ltb_spec (Z.of_nat (o + k)) (Z.of_nat (o + m))); [lia|].
    replace (m - k)%nat with O by lia. cbn [seq find]. by replace (k `max` m)%nat with k by lia. }
  destruct (Z.ltb_spec (Z.of_nat (o + k)) (Z.of_nat (o + m))).
  2: { replace (m - k)%nat with O by lia. cbn [seq find]. by replace (k `max` m)%nat with k by lia. }
  rewrite Nat2Z.id. destruct (data !! (o + k)%nat) as [b|] eqn:Hb.
  2: { apply lookup_ge_None in Hb. lia. }
  rewrite <- (fingerprint_step (drop o data) k b) by (done || by rewrite lookup_drop).
  replace (m - k)%nat with (S (m - S k)) by lia. cbn [seq find]. rewrite (Hhit (S k)) by lia.
  assert (Hw : u64 (Z.of_nat (o + k) + 1) = Z.of_nat (o + S k)).
  { rewrite u64_small; [lia|]. unfold two64. unfold data_len in Hlen. lia. }
  rewrite Hw. destruct (Z.land _ mask =? 0) eqn:Hh.
  - done.
  - rewrite IH by (lia || (intros; apply Hhit; lia)). by replace (S k `max` m)%nat with (k `max` m)%nat by lia.
Qed.

Lemma clip_add (n o : nat) z : 0 <= z -> clip (Z.of_nat n) (Z.of_nat o + z) = Z.of_nat (n `min` (o + Z.to_nat z)).
Proof. intros Hz. unfold clip. destruct (Z.ltb_spec (Z.of_nat n) (Z.of_nat o + z)); lia. Qed.

(** The two phases together find the length that [cut] specifies. *)
Lemma findBoundary_cut data (o : nat) :
  params_ok -> data_len data < 2 ^ 63 -> (o <= length data)%nat -> cdc_Min p < data_len (drop o data) ->
  findBoundary data (Z.of_nat o) p = Some (Z.of_nat (o + cut (drop o data))).
Proof.
  intros [Hmin Htgt Hmax Hprog] Hlen Ho Hlong. unfold findBoundary, cut.
  replace (data_len (drop o data) <=? cdc_Min p) with false by (symmetry; apply Z.leb_gt; lia).
  unfold data_len in *. rewrite length_drop in Hlong |- *.
  rewrite !u64_small by (unfold two64; lia). rewrite !clip_add by lia.
  set (m1 := ((length data - o) `min` Z.to_nat (cdc_Target p))%nat).
  set (m2 := (tmax `min` (length data - o))%nat).
  replace (length data `min` (o + Z.to_nat (cdc_Target p)))%nat with (o + m1)%nat by lia.
  replace (length data `min` (o + tmax))%nat with (o + m2)%nat by lia.
  replace (Z.of_nat o + cdc_Min p) with (Z.of_nat (o + tmin)) by lia.
  assert (Hf0 : fingerprint (drop o data) tmin = 0).
  { unfold fingerprint. rewrite skipn_firstn_comm, Nat.sub_diag. done. }
  rewrite <- Hf0 at 1. rewrite (scan_phase_spec data o (MaskS p) m1); unfold data_len; try lia.
  2: { intros j Hj. unfold hit. replace (Z.of_nat j <=? cdc_Target p) with true by (symmetry; apply Z.leb_le; lia). done. }
  replace (m2 - tmin)%nat with ((m1 - tmin) + (m2 - m1))%nat by lia.
  rewrite seq_app, find_app. replace (S tmin + (m1 - tmin))%nat with (S m1) by lia.
  destruct (find _ (seq (S tmin) (m1 - tmin))) as [j|]; [done|].
  replace (tmin `max` m1)%nat with m1 by lia.
  rewrite (scan_phase_spec data o (MaskL p) m2); unfold data_len; try lia.
  2: { intros j Hj. unfold hit. replace (Z.of_nat j <=? cdc_Target p) with false by (symmetry; apply Z.leb_gt; lia). done. }
  destruct (find _ (seq (S m1) (m2 - m1))) as [j|]; [done|].
  by replace (m1 `max` m2)%nat with m2 by lia.
Qed.

Lemma cut_bounds rest : params_ok -> rest <> [] ->
  (0 < cut rest <= length rest)%nat /\ ((cut rest < length rest)%nat -> cdc_Min p < Z.of_nat (cut rest))
  /\ Z.of_nat (cut rest) <= cdc_Max p.
Proof.
  intros [Hmin Htgt Hmax Hprog] Hne. unfold cut, data_len.
  assert (0 < length rest)%nat by (destruct rest; [done|cbn; lia]).
  destruct (Z.leb_spec (Z.of_nat (length rest)) (cdc_Min p)); [lia|].
  destruct (find _ _) as [k|] eqn:Hf; [|lia].
  apply find_some in Hf as [Hin%in_seq _]. lia.
Qed.

(** The ranges of consecutive chunks, from offset [o]. *)
Fixpoint ranges_of (o : Z) (chunks : list (list byte)) : list ChunkRange :=
  match chunks with
  | [] => []
  | c :: chunks => mkRange o (o + data_len c) :: ranges_of (o + data_len c) chunks
  end.

Lemma ranges_of_tiles o chunks : Forall (fun c => c <> []) chunks -> tiles o (o + data_len (concat chunks)) (ranges_of o chunks).
Proof.
  intros Hne. revert o. induction Hne as [|c l Hc Hl IH]; intros o; cbn [ranges_of concat tiles Start End_].
  - unfold data_len. cbn. lia.
  - unfold data_len in *. rewrite length_app. specialize (IH (o + Z.of_nat (length c))).
    replace (o + Z.of_nat (length c + length (concat l))) with (o + Z.of_nat (length c) + Z.of_nat (length (concat l))) by lia.
    destruct c; [done|]. cbn [length] in *. split_and!; [done|lia|lia|done].
Qed.

Lemma ranges_of_payloads data (o : nat) chunks : drop o data = concat chunks ->
  payloads data (ranges_of (Z.of_nat o) chunks) = chunks.
Proof.
  revert o. induction chunks as [|c l IH]; intros o Hd; cbn [ranges_of payloads map concat] in *; [done|].
  unfold slice at 1. cbn [Start End_]. unfold data_len at 1. replace (_ + _ - _) with (Z.of_nat (length c)) by lia.
  rewrite !Nat2Z.id, Hd, take_app_length. f_equal. unfold data_len. rewrite <- Nat2Z.inj_add. apply IH.
  by rewrite <- drop_drop, Hd, drop_app_length.
Qed.

(** The parameters are in range, or the input is a single chunk in any case. *)
Definition sized (len : Z) : Prop := params_ok \/ len <= cdc_Min p.

Lemma cut_pos rest : sized (data_len rest) -> rest <> [] -> (0 < cut rest <= length rest)%nat.
Proof.
  intros [Hok|Hs] Hne; [by apply cut_bounds|]. unfold cut. apply Z.leb_le in Hs as ->. destruct rest; [done|cbn; lia].
Qed.

Lemma sized_le len len' : sized len -> len' <= len -> sized len'.
Proof. intros [?|?] ?; [by left|right; lia]. Qed.

Lemma drop_len o (data : list byte) : data_len (drop o data) = Z.of_nat (length data - o).
Proof. unfold data_len. by rewrite length_drop. Qed.

(** The loop of the code cuts what the specification cuts. *)
Lemma cdc_loop_split fuel data (o : nat) :
  sized (data_len data) -> data_len data < 2 ^ 63 -> (o <= length data)%nat -> (length data - o <= fuel)%nat ->
  cdc_loop fuel data p (Z.of_nat o) = Some (ranges_of (Z.of_nat o) (split_chunks fuel (drop o data))).
Proof.
  intros Hs Hlen. revert o. induction fuel as [|fuel IH]; intros o Ho Hf; cbn [cdc_loop].
  { rewrite drop_ge by lia. cbn [split_chunks ranges_of].
    unfold data_len. destruct (Z.ltb_spec (Z.of_nat o) (Z.of_nat (length data))); [lia|done]. }
  destruct (Z.ltb_spec (Z.of_nat o) (data_len data)) as [Hlt|Hge].
  2: { unfold data_len in Hge. by rewrite drop_ge by lia. }
  assert (Hne : drop o data <> []).
  { intros E. apply (f_equal length) in E. rewrite length_drop in E. cbn in E. unfold data_len in Hlt. lia. }
  assert (Hsz : sized (data_len (drop o data))) by (eapply sized_le; [exact Hs|]; rewrite drop_len; unfold data_len; lia).
  pose proof (cut_pos _ Hsz Hne) as Hc. rewrite length_drop in Hc.
  assert (Hend : (if data_len data - Z.of_nat o <=? cdc_Min p then Some (u64 (Z.of_nat o + (data_len data - Z.of_nat o)))
                  else findBoundary data (Z.of_nat o) p) = Some (Z.of_nat (o + cut (drop o data)))).
  { assert (Hdl : data_len (drop o data) = data_len data - Z.of_nat o) by (rewrite drop_len; unfold data_len; lia).
    destruct (Z.leb_spec (data_len data - Z.of_nat o) (cdc_Min p)) as [Hshort|Hlong].
    - unfold cut. rewrite Hdl. apply Z.leb_le in Hshort as ->. rewrite u64_small by (unfold two64, data_len in *; lia).
      rewrite length_drop. f_equal. unfold data_len in *. lia.
    - apply findBoundary_cut; try (done || lia). destruct Hs as [?|?]; [done|lia]. }
  rewrite Hend, IH by lia. cbn [fmap option_fmap option_map].
  destruct (drop o data) as [|b l] eqn:Hd; [done|]. cbn [split_chunks ranges_of]. rewrite <- Hd in *.
  rewrite drop_drop. unfold data_len. rewrite length_take, length_drop.
  replace (Z.of_nat o + Z.of_nat (cut (drop o data) `min` (length data - o))) with (Z.of_nat (o + cut (drop o data))) by lia.
  done.
Qed.

Lemma split_chunks_concat fuel rest : sized (data_len rest) -> (length rest <= fuel)%nat ->
  concat (split_chunks fuel rest) = rest /\ Forall (fun c => c <> []) (split_chunks fuel rest).
Proof.
  revert rest. induction fuel as [|fuel IH]; intros rest Hs Hf.
  { destruct rest; [by split|cbn in Hf; lia]. }
  destruct (decide (rest = [])) as [->|Hne]; [by split|]. pose proof (cut_pos _ Hs Hne) as Hc.
  assert (Hsp : split_chunks (S fuel) rest = take (cut rest) rest :: split_chunks fuel (drop (cut rest) rest)) by by destruct rest.
  rewrite Hsp. cbn [concat]. destruct (IH (drop (cut rest) rest)) as [Hcat Hfor].
  { eapply sized_le; [exact Hs|]. rewrite drop_len. unfold data_len. lia. }
  { rewrite length_drop. lia. }
  rewrite Hcat, take_drop. split; [done|]. constructor; [|done].
  intros E. apply (f_equal length) in E. rewrite length_take in E. cbn in E. lia.
Qed.

(** The chunks do not depend on the fuel. *)
Lemma split_chunks_fuel fuel fuel' rest : sized (data_len rest) -> (length rest <= fuel)%nat -> (length rest <= fuel')%nat ->
  split_chunks fuel rest = split_chunks fuel' rest.
Proof.
  revert fuel' rest. induction fuel as [|fuel IH]; intros fuel' rest Hs Hf Hf'.
  { destruct rest; [by destruct fuel'|cbn in Hf; lia]. }
  destruct rest as [|b rest]; [by destruct fuel'|]. destruct fuel' as [|fuel']; [cbn in Hf'; lia|].
  assert (Hc := cut_pos (b :: rest) Hs ltac:(done)). cbn [split_chunks]. f_equal. apply IH; rewrite ?length_drop; try lia.
  eapply sized_le; [exact Hs|]. rewrite drop_len. unfold data_len. lia.
Qed.
End cdc_spec.

(** ** The theorems *)

Lemma derive_ok target : 0 < target < 2 ^ 62 -> params_ok (DeriveFastCDC target).
Proof.
  intros Ht. unfold DeriveFastCDC. replace (target =? 0) with false by (symmetry; apply Z.eqb_neq; lia).
  assert (Hmax : u64 (target * 2) = target * 2) by (apply u64_small; unfold two64; lia).
  pose proof (Z.div_mod target 4 ltac:(lia)). pose proof (Z.mod_pos_bound target 4 ltac:(lia)).
  constructor; cbn [cdc_Min cdc_Target cdc_Max]; rewrite ?Hmax; lia.
Qed.

(** A target so large that twice its size wraps is above four times any input. *)
Lemma derive_sized target len : 0 < target < two64 -> len <= 2 ^ 60 -> sized (DeriveFastCDC target) len.
Proof.
  intros Ht Hl. destruct (Z_lt_le_dec target (2 ^ 62)) as [Hlt|Hge]; [left; apply derive_ok; lia|right].
  unfold DeriveFastCDC. replace (target =? 0) with false by (symmetry; apply Z.eqb_neq; lia). cbn [cdc_Min].
  transitivity (2 ^ 62 / 4); [|apply Z.div_le_mono; lia]. change (2 ^ 62 / 4) with (2 ^ 60). done.
Qed.

Lemma ChunkFastCDC_split data target : 0 < target < two64 -> data_len data <= 2 ^ 60 ->
  ChunkFastCDC data target = Some (ranges_of 0 (split_chunks (DeriveFastCDC target) (length data) data)).
Proof.
  intros Ht Hl. unfold ChunkFastCDC. destruct (Z.eqb_spec (data_len data) 0) as [H0|_].
  - unfold data_len in H0. by destruct data.
  - rewrite (cdc_loop_split _ _ _ O); [by rewrite drop_0|by apply derive_sized|lia|lia|lia].
Qed.

Lemma ChunkFastCDC_payloads data target ranges : 0 < target < two64 -> data_len data <= 2 ^ 60 ->
  ChunkFastCDC data target = Some ranges ->
  payloads data ranges = split_chunks (DeriveFastCDC target) (length data) data /\ concat (payloads data ranges) = data
  /\ tiles 0 (data_len data) ranges.
Proof.
  intros Ht Hl. rewrite (ChunkFastCDC_split data target Ht Hl). intros [= <-].
  destruct (split_chunks_concat (DeriveFastCDC target) (length data) data) as [Hcat Hne]; [by apply derive_sized|lia|].
  assert (Hp : payloads data (ranges_of 0 (split_chunks (DeriveFastCDC target) (length data) data))
               = split_chunks (DeriveFastCDC target) (length data) data).
  { apply (ranges_of_payloads data O). by rewrite drop_0, Hcat. }
  rewrite Hp. split_and!; [done|done|]. pose proof (ranges_of_tiles 0 _ Hne) as Hti. by rewrite Hcat in Hti.
Qed.

(** C19: content-defined chunking terminates and is what its specification says.
    On every input of up to 2^60 bytes and for every target size but zero, the
    scan of the code, with its offsets and limits that wrap at 64 bits, returns;
    its ranges are non-empty, adjacent and cover the input, so that the payloads
    put together again are the input; and every chunk is the one the reference
    cut gives: the rest of the input when it is short, else the shortest piece
    above the minimum at which the fingerprint meets the mask, or the maximum. *)
Theorem ChunkFastCDC_reference (data : list byte) (target : Z) :
  0 < target < two64 -> data_len data <= 2 ^ 60 ->
  exists ranges, ChunkFastCDC data target = Some ranges
    /\ tiles 0 (data_len data) ranges
    /\ payloads data ranges = split_chunks (DeriveFastCDC target) (length data) data
    /\ concat (payloads data ranges) = data.
Proof.
  intros Ht Hl. pose proof (ChunkFastCDC_split data target Ht Hl) as Hc. eexists. split; [exact Hc|].
  destruct (ChunkFastCDC_payloads data target _ Ht Hl Hc) as (? & ? & ?). by split_and!.
Qed.

(** A sample of 24 bytes with a target of 8, cut by its content. *)
Definition sample_bytes : list byte := map (fun i => Zb (Z.of_nat (i * 37 + i * i))) (seq 0 24).

Lemma ChunkFastCDC_reference_witness :
  (exists ranges, ChunkFastCDC sample_bytes 8 = Some ranges /\ tiles 0 24 ranges
     /\ concat (payloads sample_bytes ranges) = sample_bytes)
  /\ ChunkFastCDC sample_bytes 8 = Some [mkRange 0 9; mkRange 9 18; mkRange 18 21; mkRange 21 24].
Proof.
  split.
  - destruct (ChunkFastCDC_reference sample_bytes 8) as (rs & Hrs & Ht & _ & Hc); [done|done|].
    exists rs. exact (conj Hrs (conj Ht Hc)).
  - vm_compute. reflexivity.
Defined.

(** A chunk of the reference cut, with what is left of the input at its start. *)
Lemma ranges_of_elem p fuel rest o r : sized p (data_len rest) -> (length rest <= fuel)%nat ->
  r ∈ ranges_of o (split_chunks p fuel rest) ->
  exists k, (k <= length rest)%nat /\ drop k rest <> [] /\ Start r = o + Z.of_nat k
    /\ End_ r = Start r + Z.of_nat (cut p (drop k rest))
    /\ exists before, split_chunks p fuel rest = before ++ split_chunks p fuel (drop k rest) /\ concat before = take k rest.
Proof.
  revert rest o. induction fuel as [|fuel IH]; intros rest o Hs Hf Hr.
  { destruct rest; [by apply elem_of_nil in Hr|cbn in Hf; lia]. }
  destruct (decide (rest = [])) as [->|Hne]; [by apply elem_of_nil in Hr|].
  pose proof (cut_pos p rest Hs Hne) as Hc.
  assert (Hsp : split_chunks p (S fuel) rest = take (cut p rest) rest :: split_chunks p fuel (drop (cut p rest) rest)) by by destruct rest.
  assert (Hlen : data_len (take (cut p rest) rest) = Z.of_nat (cut p rest)) by (unfold data_len; rewrite length_take; lia).
  assert (Hs' : sized p (data_len (drop (cut p rest) rest))).
  { eapply sized_le; [exact Hs|]. rewrite drop_len. unfold data_len. lia. }
  rewrite Hsp in Hr. cbn [ranges_of] in Hr. rewrite Hlen in Hr. apply elem_of_cons in Hr as [->|Hr].
  - exists O. rewrite drop_0. cbn [Start End_]. split_and!; [lia|done|lia|done|]. by exists [].
  - apply IH in Hr as (k & Hk & Hne' & Hst & He & before & Hb & Hcat); [|done|rewrite length_drop; lia].
    rewrite length_drop in Hk. rewrite drop_drop in Hne', He, Hb. exists (cut p rest + k)%nat.
    split_and!; [lia|done|lia|done|]. exists (take (cut p rest) rest :: before).
    rewrite Hsp. cbn [concat app]. rewrite Hb, Hcat, take_take_drop. split; [|done]. do 2 f_equal.
    apply split_chunks_fuel; rewrite ?length_drop; try lia.
    eapply sized_le; [exact Hs|]. rewrite drop_len. unfold data_len. lia.
Qed.

(** Chunk sizes: no chunk is empty or longer than twice the target, and only the
    last one may be as short as a quarter of it. *)
Theorem ChunkFastCDC_bounds data target ranges r :
  0 < target < two64 -> data_len data <= 2 ^ 60 -> ChunkFastCDC data target = Some ranges -> r ∈ ranges ->
  0 < End_ r - Start r <= 2 * target /\ (End_ r < data_len data -> target / 4 < End_ r - Start r).
Proof.
  intros Ht Hl Hr Hin. rewrite (ChunkFastCDC_split data target Ht Hl) in Hr. injection Hr as <-.
  pose proof (derive_sized target _ Ht Hl) as Hs.
  apply ranges_of_elem in Hin as (k & Hk & Hne & Hst & He & _); [|done|lia].
  assert (Hsk : sized (DeriveFastCDC target) (data_len (drop k data))).
  { eapply sized_le; [exact Hs|]. rewrite drop_len. unfold data_len. lia. }
  pose proof (cut_pos _ _ Hsk Hne) as Hc. rewrite length_drop in Hc. unfold data_len in *.
  assert (Hmin : cdc_Min (DeriveFastCDC target) = target / 4).
  { unfold DeriveFastCDC. by replace (target =? 0) with false by (symmetry; apply Z.eqb_neq; lia). }
  destruct (Z_lt_le_dec target (2 ^ 62)) as [Hlt|Hge].
  - destruct (cut_bounds _ _ (derive_ok target ltac:(lia)) Hne) as (_ & Hlo & Hhi). rewrite length_drop, Hmin in Hlo.
    assert (Hmax : cdc_Max (DeriveFastCDC target) = target * 2).
    { unfold DeriveFastCDC. replace (target =? 0) with false by (symmetry; apply Z.eqb_neq; lia). cbn [cdc_Max].
      apply u64_small. unfold two64. lia. }
    rewrite Hmax in Hhi. split; [lia|]. intros Hend. replace (End_ r - Start r) with (Z.of_nat (cut (DeriveFastCDC target) (drop k data))) by lia.
    apply Hlo. lia.
  - split; [lia|]. unfold cut in Hc, He. rewrite drop_len, Hmin in Hc, He.
    assert (2 ^ 60 <= target / 4) by (apply Z.div_le_lower_bound; lia).
    replace (Z.of_nat (length data - k) <=? target / 4) with true in He by (symmetry; apply Z.leb_le; lia).
    rewrite length_drop in He. lia.
Qed.

(** *** Edits *)

Lemma cut_prefix p (a x y : list byte) : params_ok p -> cdc_Max p <= data_len a -> cut p (a ++ x) = cut p (a ++ y).
Proof.
  intros [Hmin Htgt Hmax Hprog] Ha. unfold cut, data_len in *. rewrite !length_app.
  replace (Z.of_nat (length a + length x) <=? cdc_Min p) with false by (symmetry; apply Z.leb_gt; lia).
  replace (Z.of_nat (length a + length y) <=? cdc_Min p) with false by (symmetry; apply Z.leb_gt; lia).
  rewrite !Nat.min_l by lia.
  assert (Hh : forall l, Forall (fun k => (k <= length a)%nat) l -> find (hit p (a ++ x)) l = find (hit p (a ++ y)) l).
  { intros l Hl. induction Hl as [|k l Hk _ IH]; cbn [find]; [done|].
    replace (hit p (a ++ x) k) with (hit p (a ++ y) k); [by destruct (hit p (a ++ y) k)|].
    unfold hit, fingerprint. by rewrite !take_app_le by lia. }
  rewrite Hh; [done|]. apply Forall_forall. intros k [? ?]%elem_of_seq. lia.
Qed.

(** Chunks well inside a common prefix are chunks of both inputs. *)
Lemma common_prefix_chunks p (m : list byte) x y fuel fuel' (o : nat) r : params_ok p ->
  (o <= length m)%nat -> (length (m ++ x) - o <= fuel)%nat -> (length (m ++ y) - o <= fuel')%nat ->
  r ∈ ranges_of (Z.of_nat o) (split_chunks p fuel (drop o (m ++ x))) -> Start r + cdc_Max p <= data_len m ->
  r ∈ ranges_of (Z.of_nat o) (split_chunks p fuel' (drop o (m ++ y))).
Proof.
  intros Hok. revert fuel' o. induction fuel as [|fuel IH]; intros fuel' o Ho Hf Hf' Hr Hst.
  { rewrite drop_ge in Hr by lia. by apply elem_of_nil in Hr. }
  pose proof Hok as [Hmin Htgt Hmax Hprog].
  assert (Hle : Z.of_nat o <= Start r).
  { apply ranges_of_elem in Hr as (k & _ & _ & -> & _); [lia|by left|rewrite length_drop; lia]. }
  assert (Hrest : forall z, drop o (m ++ z) = drop o m ++ z) by (intros z; by rewrite drop_app_le by lia).
  unfold data_len in Hst.
  assert (Hc : cut p (drop o (m ++ x)) = cut p (drop o (m ++ y))).
  { rewrite !Hrest. apply cut_prefix; [done|]. rewrite drop_len. lia. }
  assert (Hne : forall z, drop o (m ++ z) <> []).
  { intros z E. apply (f_equal length) in E. rewrite length_drop, length_app in E. cbn in E. lia. }
  assert (Hsplit : forall f z, split_chunks p (S f) (drop o (m ++ z))
            = take (cut p (drop o (m ++ z))) (drop o (m ++ z)) :: split_chunks p f (drop (o + cut p (drop o (m ++ z))) (m ++ z))).
  { intros f z. rewrite <- drop_drop. specialize (Hne z). by destruct (drop o (m ++ z)). }
  assert (Hlen : forall z, data_len (take (cut p (drop o (m ++ z))) (drop o (m ++ z))) = Z.of_nat (cut p (drop o (m ++ z)))).
  { intros z. unfold data_len. rewrite length_take. pose proof (cut_bounds p _ Hok (Hne z)). lia. }
  destruct fuel' as [|fuel']; [rewrite length_app in Hf'; lia|].
  rewrite Hsplit in Hr |- *. cbn [ranges_of] in Hr |- *. rewrite Hlen in Hr |- *. rewrite Hc in Hr.
  pose proof (cut_bounds p _ Hok (Hne y)) as (Hpos & _ & Hcmax).
  apply elem_of_cons in Hr as [->|Hr]; [apply elem_of_cons; by left|]. apply elem_of_cons. right.
  rewrite <- Nat2Z.inj_add in Hr |- *. rewrite length_app in Hf, Hf'. apply IH; rewrite ?length_app; lia || done.
Qed.

(** Edits stay local.  Two inputs that share a prefix have the same chunks in
    it, but for those that start within one maximal chunk of its end; two inputs
    that share a suffix, and both have a chunk that starts where it does, have
    the same payloads from there on, which are the chunks of the suffix alone.
    So the chunks of an edited file are those of the original up to the edit,
    and again from the first boundary the two have in common. *)
Theorem ChunkFastCDC_local (target : Z) (pre x y suf : list byte) rx ry :
  0 < target < 2 ^ 62 -> data_len (pre ++ x ++ suf) <= 2 ^ 60 -> data_len (pre ++ y ++ suf) <= 2 ^ 60 ->
  ChunkFastCDC (pre ++ x ++ suf) target = Some rx -> ChunkFastCDC (pre ++ y ++ suf) target = Some ry ->
  (forall r, Start r + 2 * target <= data_len pre -> r ∈ rx <-> r ∈ ry)
  /\ (forall a b, a ∈ rx -> b ∈ ry -> Start a = data_len (pre ++ x) -> Start b = data_len (pre ++ y) ->
      exists bx by_ rs, ChunkFastCDC suf target = Some rs
        /\ payloads (pre ++ x ++ suf) rx = bx ++ payloads suf rs /\ concat bx = pre ++ x
        /\ payloads (pre ++ y ++ suf) ry = by_ ++ payloads suf rs /\ concat by_ = pre ++ y).
Proof.
  intros Ht Hlx Hly Hx Hy. assert (Ht' : 0 < target < two64) by (unfold two64; lia).
  pose proof (derive_ok target Ht) as Hok. set (p := DeriveFastCDC target) in *.
  assert (Hmax : cdc_Max p = 2 * target).
  { unfold p, DeriveFastCDC. replace (target =? 0) with false by (symmetry; apply Z.eqb_neq; lia). cbn [cdc_Max].
    rewrite u64_small by (unfold two64; lia). lia. }
  rewrite (ChunkFastCDC_split _ _ Ht' Hlx) in Hx. rewrite (ChunkFastCDC_split _ _ Ht' Hly) in Hy.
  injection Hx as <-. injection Hy as <-. fold p. split.
  - intros r Hr. rewrite <- Hmax in Hr.
    split; intros Hin; eapply (common_prefix_chunks p pre _ _ _ _ O); rewrite ?drop_0; try eassumption; lia.
  - assert (Hsuf : data_len suf <= 2 ^ 60) by (unfold data_len in *; rewrite !length_app in Hlx; lia).
    assert (Hpay : forall d, data_len d <= 2 ^ 60 ->
              payloads d (ranges_of 0 (split_chunks p (length d) d)) = split_chunks p (length d) d).
    { intros d Hd. apply (ranges_of_payloads d O). rewrite drop_0. symmetry. by apply split_chunks_concat; [left|lia]. }
    assert (Hside : forall z r, data_len (pre ++ z ++ suf) <= 2 ^ 60 ->
              r ∈ ranges_of 0 (split_chunks p (length (pre ++ z ++ suf)) (pre ++ z ++ suf)) -> Start r = data_len (pre ++ z) ->
              exists before, split_chunks p (length (pre ++ z ++ suf)) (pre ++ z ++ suf) = before ++ split_chunks p (length suf) suf
                /\ concat before = pre ++ z).
    { intros z r Hz Hin Hst. apply ranges_of_elem in Hin as (k & Hk & _ & Hsk & _ & before & Hb & Hcat); [|by left|lia].
      unfold data_len in Hst. assert (k = length (pre ++ z)) as -> by lia. exists before.
      rewrite app_assoc, take_app_length in Hcat. split; [|done]. rewrite Hb at 1. f_equal.
      rewrite (app_assoc pre z suf), drop_app_length. apply split_chunks_fuel; [by left| |lia].
      rewrite length_app. lia. }
    intros a b Ha Hb Hsa Hsb. destruct (Hside x a Hlx Ha Hsa) as (bx & Hbx & Hcx). destruct (Hside y b Hly Hb Hsb) as (by_ & Hby & Hcy).
    exists bx, by_, (ranges_of 0 (split_chunks p (length suf) suf)). rewrite !Hpay by done.
    split; [exact (ChunkFastCDC_split _ _ Ht' Hsuf)|]. done.
Qed.

(** Five bytes are inserted into the sample after its first chunk. *)
Lemma ChunkFastCDC_local_witness :
  exists rx ry, ChunkFastCDC (take 18 sample_bytes ++ [] ++ drop 18 sample_bytes) 8 = Some rx
    /\ ChunkFastCDC (take 18 sample_bytes ++ [Zb 1; Zb 2; Zb 3; Zb 5; Zb 8] ++ drop 18 sample_bytes) 8 = Some ry
    /\ (mkRange 0 9 ∈ rx <-> mkRange 0 9 ∈ ry).
Proof.
  eexists _, _. split; [vm_compute; reflexivity|]. split; [vm_compute; reflexivity|].
  refine (proj1 (ChunkFastCDC_local 8 (take 18 sample_bytes) [] [Zb 1; Zb 2; Zb 3; Zb 5; Zb 8] (drop 18 sample_bytes) _ _
                  ltac:(lia) ltac:(vm_compute; discriminate) ltac:(vm_compute; discriminate) _ _) (mkRange 0 9) _).
  - vm_compute. reflexivity.
  - vm_compute. reflexivity.
  - vm_compute. discriminate.
Defined.

(** *** The boundary cases *)

(** For a target size of zero the scan makes no progress: every boundary is the
    offset it starts from, and the loop of the code never ends. *)
Theorem ChunkFastCDC_zero_target (data : list byte) (o : nat) fuel :
  data_len data < 2 ^ 63 -> (o < length data)%nat ->
  findBoundary data (Z.of_nat o) (DeriveFastCDC 0) = Some (Z.of_nat o)
  /\ cdc_loop fuel data (DeriveFastCDC 0) (Z.of_nat o) = None.
Proof.
  intros Hl Ho. unfold data_len in Hl.
  assert (Hb : findBoundary data (Z.of_nat o) (DeriveFastCDC 0) = Some (Z.of_nat o)).
  { unfold findBoundary. cbn [DeriveFastCDC Z.eqb cdc_Min cdc_Target cdc_Max]. rewrite Z.add_0_r, u64_small by (unfold two64; lia).
    unfold clip, data_len. replace (Z.of_nat (length data) <? Z.of_nat o) with false by (symmetry; apply Z.ltb_ge; lia).
    rewrite Z.sub_diag. change (Z.to_nat 0) with O. cbn [scan_phase]. rewrite !Z.ltb_irrefl, Z.sub_diag.
    change (Z.to_nat 0) with O. cbn [scan_phase]. by rewrite Z.ltb_irrefl. }
  split; [done|]. induction fuel as [|fuel IH]; cbn [cdc_loop].
  - unfold data_len. by replace (Z.of_nat o <? Z.of_nat (length data)) with true by (symmetry; apply Z.ltb_lt; lia).
  - unfold data_len. replace (Z.of_nat o <? Z.of_nat (length data)) with true by (symmetry; apply Z.ltb_lt; lia).
    replace (Z.of_nat (length data) - Z.of_nat o <=? cdc_Min (DeriveFastCDC 0)) with false
      by (symmetry; apply Z.leb_gt; cbn; lia).
    by rewrite Hb, IH.
Qed.

(** Fixed-size chunking for every size but zero, those included at which
    [offset + chunkSize] is not below 2^64: chunk [i] is the bytes from
    [i * chunkSize] on, all of that size but the last. *)
Theorem ChunkFixed_spec (data : list byte) (chunkSize : Z) :
  0 < chunkSize < two64 -> data_len data < 2 ^ 63 ->
  exists ranges, ChunkFixed data chunkSize = Some ranges /\ tiles 0 (data_len data) ranges
    /\ concat (payloads data ranges) = data
    /\ forall i r, ranges !! i = Some r ->
         Start r = Z.of_nat i * chunkSize /\ End_ r = Z.min ((Z.of_nat i + 1) * chunkSize) (data_len data).
Proof.
  intros Hc Hl. unfold ChunkFixed. replace (chunkSize =? 0) with false by (symmetry; apply Z.eqb_neq; lia). cbn [orb].
  destruct (Z.eqb_spec (data_len data) 0) as [H0|H0].
  - exists []. rewrite H0. cbn [tiles payloads map concat]. unfold data_len in H0.
    split_and!; [done|done|destruct data; [done|cbn in H0; lia]|done].
  - destruct (fixed_loop_spec (length data) (data_len data) chunkSize 0) as (rs & Hrs & Hti & Hi);
      [done|unfold data_len; lia|done|unfold data_len; lia|by left|].
    exists rs. rewrite Hrs. split_and!; [done|done|by apply tiles_concat|]. intros i r [-> ->]%Hi. lia.
Qed.
