(* ===== verification/Content.v ===== *)
(** * Content ([ext/content]: [builder.go], [handler.go], [descriptor.go])

    Content is a blob entity that lists chunks, each an entity with a part of the
    bytes.  [BuildBlob], [IngestBlob] and [Reassemble] are [builder.go];
    [handleGet] and [handleIngest] are the two operations of the content handler;
    [PublishDescriptor] and [LookupDescriptors] bind and find descriptors of a
    blob.  The payloads are those of [core/types/content.go].

    [maxAlloc] is the largest slice the Go runtime allocates; [None] is a panic
    of the runtime. *)

From Stdlib Require Import Ascii.
From S2P Require Import Prelude GoStrings Errors Hash Entity PeerID Paths CapTypes Patterns Check Delegation Revoked Store Handlers Chunker.

Open Scope Z_scope.

(** ** What the code uses of [strings] *)

(** [strings.TrimRight] for one character. *)
Fixpoint TrimRight (s : string) (c : ascii) : string :=
  match s with
  | EmptyString => EmptyString
  | String a s' =>
      match TrimRight s' c with
      | EmptyString => if Ascii.eqb a c then EmptyString else String a EmptyString
      | t => String a t
      end
  end.

(** [strings.Index]. *)
Fixpoint StrIndex (s sub : string) : option nat :=
  if HasPrefix s sub then Some O else match s with EmptyString => None | String _ s' => S <$> StrIndex s' sub end.

(** ** Data *)

Definition TypeContentBlob : string := "system/content/blob".
Definition TypeContentChunk : string := "system/content/chunk".
Definition TypeContentDescriptor : string := "system/content/descriptor".

Definition ChunkingFixed : Z := 0.
Definition ChunkingFastCDC : Z := 1.
Definition DefaultChunkSize : Z := 1 * 1024 * 1024.
Definition MinChunkSize : Z := 64 * 1024.

Record ContentBlobData := { TotalSize : Z; ChunkSize : Z; Chunking : Z; Chunks : list Hash }.

Record ContentDescriptorData := {
  cd_Content : Hash; MediaType : option string; TypeRef : option Hash; cd_Name : option string; Metadata : option (list byte)
}.

Record ContentIngestRequestData := { ir_Envelope : option (list byte); ir_Entity : option (list byte) }.

(** The CBOR encoders and decoders.  [EncodedSize] is the length of the encoding of
    an entity; the decoders of an envelope and of an entity are those of
    [core/entity]. *)
Class ContentCodec := {
  EncodeBlob : ContentBlobData -> option (list byte);
  DecodeBlob : list byte -> option ContentBlobData;
  EncodeChunk : list byte -> option (list byte);
  DecodeChunk : list byte -> option (list byte);
  DecodeDescriptor : list byte -> option ContentDescriptorData;
  EncodeGetHashes : list Hash -> option (list byte);
  DecodeGetHashes : list byte -> option (list Hash);
  DecodeIngest : list byte -> option ContentIngestRequestData;
  DecodeEntityRaw : list byte -> option Entity;
  DecodeEnvelopeRaw : list byte -> option Envelope;
  EncodedSize : Entity -> option Z
}.

(** What is documented of the codec: decoding gives back what was encoded. *)
Class ContentCodecLaws `{ContentCodec} := {
  blob_roundtrip d raw : EncodeBlob d = Some raw -> DecodeBlob raw = Some d;
  chunk_roundtrip d raw : EncodeChunk d = Some raw -> DecodeChunk raw = Some d
}.

Section builder.
Context `{HashableCodec, ContentCodec} (alg : byte) (maxAlloc : Z).

Definition Blob_ToEntity (d : ContentBlobData) : result Entity :=
  let! raw := of_option [] (EncodeBlob d) in Ent.NewEntity alg TypeContentBlob raw.

Definition Chunk_ToEntity (payload : list byte) : result Entity :=
  let! raw := of_option [] (EncodeChunk payload) in Ent.NewEntity alg TypeContentChunk raw.

(** ** Building and reassembling *)

(** [data[r.Start:r.End]]. *)
Definition go_slice (data : list byte) (r : ChunkRange) : option (list byte) :=
  if (Start r <=? End_ r) && (End_ r <=? data_len data) then Some (slice data r) else None.

(** The loop over the ranges: the chunk entities in order. *)
Fixpoint build_chunks (data : list byte) (ranges : list ChunkRange) : option (result (list Entity)) :=
  match ranges with
  | [] => Some (Ok [])
  | r :: ranges =>
      match go_slice data r with
      | None => None
      | Some payload =>
          match Chunk_ToEntity payload with
          | Err e => Some (Err e)
          | Ok chunkEnt =>
              (fun rest => let! rest := rest in Ok (chunkEnt :: rest)) <$> build_chunks data ranges
          end
      end
  end.

Definition BuildBlob (data : list byte) (ranges : list ChunkRange) (chunking chunkSize : Z)
  : option (result (Entity * list Entity)) :=
  match build_chunks data ranges with
  | None => None
  | Some (Err e) => Some (Err e)
  | Some (Ok chunkEntities) =>
      Some (let! blobEnt := Blob_ToEntity {| TotalSize := data_len data; ChunkSize := chunkSize; Chunking := chunking;
                                             Chunks := map ContentHash chunkEntities |} in
            Ok (blobEnt, chunkEntities))
  end.

Context {CS : Type} `{ContentStore CS}.

Fixpoint put_all (cs : CS) (l : list Entity) : CS * result unit :=
  match l with
  | [] => (cs, Ok tt)
  | e :: l =>
      match cs_Put cs e with
      | (cs, Err er) => (cs, Err er)
      | (cs, Ok _) => put_all cs l
      end
  end.

Definition IngestBlob (data : list byte) (ranges : list ChunkRange) (chunking chunkSize : Z) (contentStore : CS)
  : option (CS * result Hash) :=
  match BuildBlob data ranges chunking chunkSize with
  | None => None
  | Some (Err e) => Some (contentStore, Err e)
  | Some (Ok (blobEnt, chunkEntities)) =>
      Some match put_all contentStore chunkEntities with
           | (cs, Err er) => (cs, Err er)
           | (cs, Ok _) => cs_Put cs blobEnt
           end
  end.

Inductive ReassembleErr : Set := BlobMissing | NotABlob | BadBlob | ChunkMissing (i : nat) | BadChunk (i : nat) | SizeMismatch.

Fixpoint append_chunks (cs : CS) (i : nat) (chunks : list Hash) (buf : list byte) : res ReassembleErr (list byte) :=
  match chunks with
  | [] => Ok buf
  | h :: chunks =>
      match cs_Get cs h with
      | None => Err (ChunkMissing i)
      | Some ent =>
          match DecodeChunk (Data ent) with
          | None => Err (BadChunk i)
          | Some payload => append_chunks cs (S i) chunks (buf ++ payload)%list
          end
      end
  end.

Definition Reassemble (cs : CS) (blobHash : Hash) : option (res ReassembleErr (list byte)) :=
  match cs_Get cs blobHash with
  | None => Some (Err BlobMissing)
  | Some blobEnt =>
      if negb (String.eqb (Type_ blobEnt) TypeContentBlob) then Some (Err NotABlob)
      else match DecodeBlob (Data blobEnt) with
      | None => Some (Err BadBlob)
      | Some blob =>
          if maxAlloc <? TotalSize blob then None
          else Some (
            let! buf := append_chunks cs 0 (Chunks blob) [] in
            if data_len buf =? TotalSize blob then Ok buf else Err SizeMismatch)
      end
  end.
End builder.

(** ** The handler *)

Inductive ContentResult :=
| CError (code : string)
| CGet (found missing : list Hash)
| CIngest (root : option Entity) (rootHash : Hash) (count : Z).

Record ContentResponse := mkContentResponse { cr_Status : Z; cr_Result : ContentResult; cr_Included : gmap Hash Entity }.

Definition content_error (status : Z) (code : string) : ContentResponse := mkContentResponse status (CError code) ∅.

Record MissResult := { mr_Found : option Entity; CapDenied : bool }.

Section handler.
Context {CS L IX : Type} `{ContentStoreLaws CS} `{LocationIndex L} `{CapabilityIndex IX}.
Context `{Base58, DataCodec, ContentCodec, MapOrder}.
Abbreviation State := (TreeState CS L IX).

(** The miss hook reads and may fill the store. *)
Context (missResolver : option (CS -> Hash -> CS * MissResult)).

Definition requireResource (hctx : HandlerContext) : option ContentResponse :=
  match ResourceSubject hctx with
  | Ok _ => None
  | Err (status, code) => Some (content_error status code)
  end.

(** [EffectiveFrameBudget] of the connection state, when the context has one. *)
Definition frameBudget (connection : option Z) : Z :=
  match connection with Some b => b | None => 16 * 1024 * 1024 end.

Definition safetyMargin : Z := 64 * 1024.

Definition response_limit (budget : Z) : Z :=
  (if budget <=? safetyMargin then safetyMargin + 1 else budget) - safetyMargin.

(** The chunks of a small blob that are not there yet. *)
Fixpoint group_chunks (cs : CS) (existing : gmap Hash Entity) (chunks : list Hash) (group : gmap Hash Entity) (total : Z)
  : result (gmap Hash Entity * Z) :=
  match chunks with
  | [] => Ok (group, total)
  | ch :: chunks =>
      if bool_decide (is_Some (existing !! ch)) then group_chunks cs existing chunks group total
      else if bool_decide (is_Some (group !! ch)) then group_chunks cs existing chunks group total
      else match cs_Get cs ch with
      | None => group_chunks cs existing chunks group total
      | Some chEnt =>
          let! raw := of_option [] (EncodedSize chEnt) in
          group_chunks cs existing chunks (<[ch := chEnt]> group) (u64 (total + raw))
      end
  end.

Definition inline_chunks (ent : Entity) : list Hash :=
  if String.eqb (Type_ ent) TypeContentBlob then
    match DecodeBlob (Data ent) with
    | Some blob => if TotalSize blob <=? MinChunkSize then Chunks blob else []
    | None => []
    end
  else [].

Definition buildIncludeGroup (cs : CS) (h : Hash) (ent : Entity) (existing : gmap Hash Entity)
  : result (gmap Hash Entity * Z) :=
  let! start :=
    (if bool_decide (is_Some (existing !! h)) then Ok (∅, 0)
     else let! raw := of_option [] (EncodedSize ent) in Ok ({[ h := ent ]}, raw)) in
  group_chunks cs existing (inline_chunks ent) (fst start) (snd start).

(** What the loop over the requested hashes has collected. *)
Record Collected := mkCollected { c_found : list Hash; c_missing : list Hash; c_included : gmap Hash Entity; c_running : Z }.

(** The entity for a requested hash; the flag is a refusal by the miss hook. *)
Definition resolve_hash (cs : CS) (h : Hash) : CS * (bool * option Entity) :=
  match cs_Get cs h, missResolver with
  | Some ent, _ => (cs, (false, Some ent))
  | None, None => (cs, (false, None))
  | None, Some resolve =>
      let '(cs, r) := resolve cs h in (cs, (CapDenied r, if CapDenied r then None else mr_Found r))
  end.

(** The loop; [Err None] is the refusal of the whole request. *)
Fixpoint collect_hashes (limit : Z) (cs : CS) (hashes : list Hash) (c : Collected) : CS * res (option GoErr) Collected :=
  match hashes with
  | [] => (cs, Ok c)
  | h :: rest =>
      match resolve_hash cs h with
      | (cs, (true, _)) => (cs, Err None)
      | (cs, (false, None)) =>
          collect_hashes limit cs rest (mkCollected (c_found c) (c_missing c ++ [h])%list (c_included c) (c_running c))
      | (cs, (false, Some ent)) =>
          match buildIncludeGroup cs h ent (c_included c) with
          | Err e => (cs, Err (Some e))
          | Ok (group, groupSize) =>
              if limit <? u64 (c_running c + groupSize)
              then (cs, Ok (mkCollected (c_found c) (c_missing c ++ h :: rest)%list (c_included c) (c_running c)))
              else collect_hashes limit cs rest
                     (mkCollected (c_found c ++ [h])%list (c_missing c) (group ∪ c_included c) (u64 (c_running c + groupSize)))
          end
      end
  end.

Definition decode_hashes (params : list byte) : option (list Hash) :=
  match params with [] => Some [] | _ => DecodeGetHashes params end.

Definition handleGet (connection : option Z) (hctx : HandlerContext) (params : list byte) (st : State)
  : State * result ContentResponse :=
  match requireResource hctx with
  | Some r => (st, Ok r)
  | None =>
      match decode_hashes params with
      | None => (st, Ok (content_error 400 "invalid_params"))
      | Some [] => (st, Ok (content_error 400 "invalid_params"))
      | Some hashes =>
          let '(cs, r) := collect_hashes (response_limit (frameBudget connection)) (ts_Store st) hashes (mkCollected [] [] ∅ 0) in
          (with_store st cs,
           match r with
           | Err None => Ok (content_error 403 "capability_denied")
           | Err (Some e) => Err e
           | Ok c => Ok (mkContentResponse 200 (CGet (c_found c) (c_missing c)) (c_included c))
           end)
      end
  end.

(** *** Ingest *)

Context (now : Z) (cw : option (ContextualWriter L)).

Definition bindingPath (namespace : string) (h : Hash) : string :=
  TrimRight namespace "/" +:+ "/" +:+ hex_encode (Bytes h).

(** [Some] is the error response. *)
Definition bindHashTreePresence (hctx : HandlerContext) (st : State) (namespace : string) (h : Hash) : State * option ContentResponse :=
  if String.eqb namespace "" || IsZero h then (st, None)
  else
    let '(st, _, r) := TreeSet now cw hctx st (bindingPath namespace h) h "ingest" in
    (st, match r with Ok _ => None | Err _ => Some (content_error 500 "internal_error") end).

(** One entity: stored, then bound. *)
Definition ingest_one (hctx : HandlerContext) (st : State) (namespace : string) (ent : Entity) : State * res ContentResponse Hash :=
  match cs_Put (ts_Store st) ent with
  | (cs, Err _) => (with_store st cs, Err (content_error 500 "internal_error"))
  | (cs, Ok h) =>
      match bindHashTreePresence hctx (with_store st cs) namespace h with
      | (st, Some r) => (st, Err r)
      | (st, None) => (st, Ok h)
      end
  end.

Fixpoint ingest_included (hctx : HandlerContext) (st : State) (namespace : string) (l : list Entity) (count : Z)
  : State * res ContentResponse Z :=
  match l with
  | [] => (st, Ok count)
  | ent :: l =>
      match ingest_one hctx st namespace ent with
      | (st, Err r) => (st, Err r)
      | (st, Ok _) => ingest_included hctx st namespace l (u64 (count + 1))
      end
  end.

Definition site_ingest_content : nat := 30.

(** The two shapes of the envelope argument. *)
Definition ingest_envelope (raw : list byte) : option Envelope :=
  let bare :=
    match DecodeEnvelopeRaw raw with
    | Some env => if String.eqb (Type_ (Root env)) "" then None else Some env
    | None => None
    end in
  match DecodeEntityRaw raw with
  | Some ent => if negb (String.eqb (Type_ ent) "") then DecodeEnvelopeRaw (Data ent) else bare
  | None => bare
  end.

Definition ingestEnvelope (hctx : HandlerContext) (st : State) (raw : list byte) : State * ContentResponse :=
  match ingest_envelope raw with
  | None => (st, content_error 400 "invalid_params")
  | Some env =>
      let namespace := ExtractResourcePath hctx in
      let has_root := negb (String.eqb (Type_ (Root env)) "") in
      let '(st, r) := (if has_root then ingest_one hctx st namespace (Root env) else (st, Ok zero_hash)) in
      match r with
      | Err resp => (st, resp)
      | Ok rootHash =>
          let included := map snd (map_range site_ingest_content [] (Included env)) in
          let '(st, r) := ingest_included hctx st namespace included (if has_root then 1 else 0) in
          (st, match r with
               | Err resp => resp
               | Ok count => mkContentResponse 200 (CIngest (if has_root then Some (Root env) else None) rootHash count) ∅
               end)
      end
  end.

Definition ingestEntity (hctx : HandlerContext) (st : State) (raw : list byte) : State * ContentResponse :=
  match DecodeEntityRaw raw with
  | None => (st, content_error 400 "invalid_params")
  | Some ent =>
      let '(st, r) := ingest_one hctx st (ExtractResourcePath hctx) ent in
      (st, match r with Err resp => resp | Ok h => mkContentResponse 200 (CIngest None h 1) ∅ end)
  end.

(** The check of the caller's capability; [true] is a refusal. *)
Definition ingest_denied (hctx : HandlerContext) (cs : CS) : bool :=
  if negb (has_caller hctx) then false
  else match CapabilityTokenDataFromEntity (hc_CallerCapability hctx) with
  | Err _ => false
  | Ok capData =>
      match ResolveGranterPeerID (Granter_ capData) (entities cs) (hc_LocalPeerID hctx) with
      | Err _ => true
      | Ok granterPeerID =>
          negb (CheckPathPermission now "ingest" "" capData (hc_HandlerPattern hctx) (hc_LocalPeerID hctx) granterPeerID)
      end
  end.

Definition decode_ingest (params : list byte) : option ContentIngestRequestData :=
  match params with [] => Some {| ir_Envelope := None; ir_Entity := None |} | _ => DecodeIngest params end.

(** A field that is set and not empty. *)
Definition present (o : option (list byte)) : option (list byte) :=
  match o with Some [] | None => None | Some raw => Some raw end.

Definition handleIngest (hctx : HandlerContext) (params : list byte) (st : State) : State * ContentResponse :=
  match requireResource hctx with
  | Some r => (st, r)
  | None =>
      if ingest_denied hctx (ts_Store st) then (st, content_error 403 "capability_denied")
      else match decode_ingest params with
      | None => (st, content_error 400 "invalid_params")
      | Some req =>
          match present (ir_Envelope req), present (ir_Entity req) with
          | Some _, Some _ => (st, content_error 400 "ambiguous_input")
          | None, None => (st, content_error 400 "missing_input")
          | Some raw, None => ingestEnvelope hctx st raw
          | None, Some raw => ingestEntity hctx st raw
          end
      end
  end.

Definition content_Handle (connection : option Z) (hctx : HandlerContext) (operation : string) (params : list byte) (st : State)
  : State * result ContentResponse :=
  if String.eqb operation "get" then handleGet connection hctx params st
  else if String.eqb operation "ingest" then let '(st, r) := handleIngest hctx params st in (st, Ok r)
  else (st, Ok (content_error 501 "unsupported_operation")).
End handler.

(** ** Descriptors *)

Section descriptors.
Context {CS L : Type} `{ContentStore CS} `{LocationIndex L} `{ContentCodec}.

Definition descriptor_marker : string := "/system/content/descriptor/".

Definition DescriptorPath (publisher : PeerID) (blob descriptorHash : Hash) : string :=
  "/" +:+ publisher +:+ descriptor_marker +:+ hex_encode (Bytes blob) +:+ "/" +:+ hex_encode (Bytes descriptorHash).

Inductive DescriptorErr := ErrDescriptorPresence | ErrDescriptorIntegrity | WrongType | BadDescriptor | PutFailed (e : GoErr)
  | BindFailed (e : IndexErr).

Definition ValidateDescriptor (d : ContentDescriptorData) (blob : Hash) : res DescriptorErr unit :=
  match MediaType d, TypeRef d with
  | None, None => Err ErrDescriptorPresence
  | _, _ => if bool_decide (cd_Content d = blob) then Ok tt else Err ErrDescriptorIntegrity
  end.

Definition PublishDescriptor (publisher : PeerID) (descriptor : Entity) (cs : CS) (index : L)
  : CS * L * res DescriptorErr string :=
  if negb (String.eqb (Type_ descriptor) TypeContentDescriptor) then (cs, index, Err WrongType)
  else match DecodeDescriptor (Data descriptor) with
  | None => (cs, index, Err BadDescriptor)
  | Some data =>
      match ValidateDescriptor data (cd_Content data) with
      | Err e => (cs, index, Err e)
      | Ok _ =>
          match cs_Put cs descriptor with
          | (cs, Err e) => (cs, index, Err (PutFailed e))
          | (cs, Ok dHash) =>
              let path := DescriptorPath publisher (cd_Content data) dHash in
              match Set_ index path dHash with
              | (index, Err e) => (cs, index, Err (BindFailed e))
              | (index, Ok _) => (cs, index, Ok path)
              end
          end
      end
  end.

Record DescriptorRef := mkDescriptorRef { dr_Publisher : PeerID; Descriptor : Entity }.

(** One binding of the listing. *)
Definition descriptor_at (cs : CS) (blob : Hash) (p : PeerID) (e : LocationEntry) : option DescriptorRef :=
  if IsZero (le_Hash e) then None
  else match cs_Get cs (le_Hash e) with
  | None => None
  | Some descriptor =>
      match DecodeDescriptor (Data descriptor) with
      | None => None
      | Some data => if bool_decide (cd_Content data = blob) then Some (mkDescriptorRef p descriptor) else None
      end
  end.

Definition LookupDescriptors (publishers : list PeerID) (blob : Hash) (cs : CS) (index : L) : list DescriptorRef :=
  flat_map (fun p =>
    let prefix := "/" +:+ p +:+ descriptor_marker +:+ hex_encode (Bytes blob) +:+ "/" in
    omap (descriptor_at cs blob p) (List_ index prefix)) publishers.

Definition ParseDescriptorPath (path : string) : option (string * string) :=
  match StrIndex path descriptor_marker with
  | None => None
  | Some i =>
      let rest := str_drop (i + slen descriptor_marker)%nat path in
      match IndexByte rest "/" with
      | None => None
      | Some slash =>
          let bHex := str_take slash rest in
          let dHex := str_drop (slash + 1)%nat rest in
          if String.eqb bHex "" || String.eqb dHex "" || Contains dHex "/" then None else Some (bHex, dHex)
      end
  end.
End descriptors.
