(* ===== verification/ContentSpec.v ===== *)
(** * Properties of content

    What is built reassembles; what a get carries; what an ingest leaves; and
    which descriptors a lookup returns. *)

From Stdlib Require Import Ascii.
From S2P Require Import Prelude GoStrings Errors Hash Entity PeerID Paths CapTypes Patterns Check Delegation Revoked Store Handlers TreeIndex Chunker Content.

Open Scope Z_scope.

(** ** Building and reassembling *)

(** No two of the entities differ and have one hash. *)
Definition distinct_addresses (l : list Entity) : Prop :=
  forall e e', e ∈ l -> e' ∈ l -> ContentHash e = ContentHash e' -> e = e'.

Section roundtrip.
Context {CS : Type} `{ContentStoreLaws CS} `{ContentCodecLaws}.
Context (alg : byte) (maxAlloc : Z).

Lemma new_entity_put ty d e h : Ent.NewEntity alg ty d = Ok e -> put_hash e = Ok h -> h = ContentHash e.
Proof.
  intros Hn Hp. pose proof (Ent.NewEntityFormat_spec alg ty d) as Hs. unfold Ent.NewEntity in Hn. rewrite Hn in Hs.
  destruct Hs as (_ & _ & Hv & _). apply Ent.Validate_iff in Hv as (_ & _ & Hc). unfold put_hash in Hp.
  rewrite Hc in Hp. cbn [res_bind] in Hp. rewrite bool_decide_true in Hp by done. cbn [negb] in Hp.
  rewrite andb_false_r in Hp. by inv_ok.
Qed.

(** An entity whose hash is the one of its content. *)
Definition self_addressed (e : Entity) : Prop := forall h, put_hash e = Ok h -> h = ContentHash e.

Lemma put_self (cs cs' : CS) e h : self_addressed e -> cs_Put cs e = (cs', Ok h) ->
  h = ContentHash e /\ entities cs' = <[ContentHash e := e]> (entities cs).
Proof.
  intros Hs Hp. pose proof (cs_put_spec cs e) as Hspec. rewrite Hp in Hspec. cbn [fst snd] in Hspec.
  destruct Hspec as [Hh He]. apply Hs in Hh as ->. rewrite He. split; [done|]. f_equal. by destruct e.
Qed.

(** After the puts every entity of the list is found under its hash, unless
    another one of the list took its place. *)
Lemma put_all_spec (cs cs' : CS) l : Forall self_addressed l -> put_all cs l = (cs', Ok tt) ->
  (forall e, e ∈ l -> exists e', e' ∈ l /\ ContentHash e' = ContentHash e /\ entities cs' !! ContentHash e = Some e')
  /\ (forall h, (forall e, e ∈ l -> ContentHash e <> h) -> entities cs' !! h = entities cs !! h).
Proof.
  intros Hs. revert cs. induction Hs as [|e l He Hl IH]; intros cs; cbn [put_all].
  { intros [= <-]. split; [by intros ? ?%elem_of_nil|done]. }
  destruct (cs_Put cs e) as [cs1 [h|er]] eqn:Hp; [|done]. apply (put_self _ _ _ _ He) in Hp as [-> He1].
  intros Hrest. destruct (IH _ Hrest) as [Hin Hout]. split.
  - intros x [->|Hx]%elem_of_cons.
    + destruct (decide (Exists (fun y => ContentHash y = ContentHash e) l)) as [(y & Hy & Hye)%Exists_exists|Hno].
      * destruct (Hin y Hy) as (z & Hz & Hzh & Hzl). rewrite Hye in Hzh, Hzl. exists z. split_and!; [by right|done|done].
      * exists e. split_and!; [by left|done|]. rewrite Hout, He1, lookup_insert_eq; [done|].
        intros y Hy Hye. apply Hno, Exists_exists. by exists y.
    + destruct (Hin x Hx) as (z & Hz & ? & ?). exists z. split_and!; [by right|done|done].
  - intros h Hh. rewrite Hout, He1.
    + apply lookup_insert_ne, Hh. by left.
    + intros y Hy. apply Hh. by right.
Qed.

Lemma build_chunks_spec data ranges chunks : build_chunks alg data ranges = Some (Ok chunks) ->
  Forall self_addressed chunks
  /\ Forall2 (fun e p => DecodeChunk (Data e) = Some p) chunks (payloads data ranges).
Proof.
  revert chunks. induction ranges as [|r ranges IH]; intros chunks; cbn [build_chunks payloads map].
  { intros [= <-]. by split. }
  unfold go_slice. destruct (_ && _); [|done]. destruct (Chunk_ToEntity alg (slice data r)) as [e|] eqn:He; [|done].
  destruct (build_chunks alg data ranges) as [[rest|]|] eqn:Hrest; cbn [fmap option_fmap option_map res_bind]; [|done|done].
  intros [= <-]. destruct (IH rest eq_refl) as [Hs Hp]. unfold Chunk_ToEntity in He. inv_ok.
  split; constructor; try done.
  - intros h Hh. by eapply new_entity_put.
  - apply Ent.NewEntityFormat_ok in He as [_ ->]. by apply chunk_roundtrip.
Qed.

Lemma build_chunks_total data lo hi ranges : 0 <= lo -> tiles lo hi ranges -> hi <= data_len data ->
  is_Some (build_chunks alg data ranges).
Proof.
  revert lo. induction ranges as [|r ranges IH]; intros lo Hlo; cbn [tiles build_chunks]; [done|].
  intros (Hst & He & Ht) Hhi. unfold go_slice.
  assert (Hle : End_ r <= hi) by lia.
  replace ((Start r <=? End_ r) && (End_ r <=? data_len data)) with true
    by (symmetry; apply andb_true_iff; split; apply Z.leb_le; lia).
  destruct (Chunk_ToEntity alg _); [|done]. destruct (IH (End_ r) ltac:(lia) Ht Hhi) as [x ->]. done.
Qed.

Lemma append_chunks_spec (cs : CS) i chunks ps buf :
  Forall2 (fun e p => exists e', entities cs !! ContentHash e = Some e' /\ DecodeChunk (Data e') = Some p) chunks ps ->
  append_chunks cs i (map ContentHash chunks) buf = Ok (buf ++ concat ps)%list.
Proof.
  intros Hf. revert i buf. induction Hf as [|e p chunks ps (e' & He & Hd) _ IH]; intros i buf; cbn [append_chunks map concat].
  - by rewrite app_nil_r.
  - rewrite cs_get_spec, He, Hd, IH. by rewrite <- app_assoc.
Qed.

(** What a build that succeeded has made. *)
Record built (data : list byte) (ranges : list ChunkRange) (blobEnt : Entity) (chunks : list Entity) : Prop := {
  bt_self : Forall self_addressed (blobEnt :: chunks);
  bt_type : Type_ blobEnt = TypeContentBlob;
  bt_blob : exists blob, DecodeBlob (Data blobEnt) = Some blob /\ TotalSize blob = data_len data /\ Chunks blob = map ContentHash chunks;
  bt_chunks : Forall2 (fun e p => DecodeChunk (Data e) = Some p) chunks (payloads data ranges)
}.

Lemma BuildBlob_built data ranges chunking size blobEnt chunks :
  BuildBlob alg data ranges chunking size = Some (Ok (blobEnt, chunks)) -> built data ranges blobEnt chunks.
Proof.
  unfold BuildBlob. destruct (build_chunks alg data ranges) as [[cks|]|] eqn:Hcks; [|done|done].
  intros [= Hb]. inv_ok. destruct (build_chunks_spec _ _ _ Hcks) as [Hself Hdec]. unfold Blob_ToEntity in *. inv_ok.
  match goal with He : Ent.NewEntity _ _ _ = Ok blobEnt |- _ =>
    pose proof (fun h => new_entity_put _ _ _ h He) as Hbs; apply Ent.NewEntityFormat_ok in He as [Hty Hdata] end.
  split; [by constructor|done| |done]. rewrite Hdata. eexists. split; [by apply blob_roundtrip|]. done.
Qed.

(** After an ingest every entity that was built is stored. *)
Lemma IngestBlob_stored (cs cs' : CS) data ranges chunking size blobEnt chunks h :
  BuildBlob alg data ranges chunking size = Some (Ok (blobEnt, chunks)) -> distinct_addresses (blobEnt :: chunks) ->
  IngestBlob alg data ranges chunking size cs = Some (cs', Ok h) ->
  h = ContentHash blobEnt /\ forall e, e ∈ blobEnt :: chunks -> entities cs' !! ContentHash e = Some e.
Proof.
  intros Hb Hd Hi. pose proof (bt_self _ _ _ _ (BuildBlob_built _ _ _ _ _ _ Hb)) as [Hbs Hself]%Forall_cons.
  unfold IngestBlob in Hi. rewrite Hb in Hi. injection Hi as Hi.
  destruct (put_all cs chunks) as [cs1 [[]|er]] eqn:Hput; [|done].
  destruct (put_all_spec _ _ _ Hself Hput) as [Hin _]. apply (put_self _ _ _ _ Hbs) in Hi as [-> Hent].
  split; [done|]. intros e He. rewrite Hent. destruct (decide (ContentHash blobEnt = ContentHash e)) as [Heq|Hne].
  - rewrite Heq, lookup_insert_eq. f_equal. apply Hd; [by left|done|done].
  - rewrite lookup_insert_ne by done. apply elem_of_cons in He as [->|He]; [done|].
    destruct (Hin e He) as (e' & He' & Hh & ->). f_equal. apply Hd; [by right|by right|done].
Qed.

(** A store that has the blob and its chunks gives the bytes back. *)
Lemma Reassemble_stored (cs : CS) data ranges blobEnt chunks :
  built data ranges blobEnt chunks -> concat (payloads data ranges) = data -> data_len data <= maxAlloc ->
  (forall e, e ∈ blobEnt :: chunks -> entities cs !! ContentHash e = Some e) ->
  Reassemble maxAlloc cs (ContentHash blobEnt) = Some (Ok data).
Proof.
  intros [_ Hty (blob & Hdec & Hts & Hck) Hchunks] Hcat Halloc Hlook.
  unfold Reassemble. rewrite cs_get_spec, Hlook by (by left). rewrite Hty, String.eqb_refl, Hdec. cbn [negb].
  rewrite Hts, Hck. destruct (Z.ltb_spec maxAlloc (data_len data)); [lia|].
  rewrite (append_chunks_spec _ _ chunks (payloads data ranges)).
  - cbn [res_bind app]. by rewrite Hcat, Z.eqb_refl.
  - apply Forall2_same_length_lookup. split; [by eapply Forall2_length|]. intros i e p He Hp. exists e. split.
    + apply Hlook. right. by eapply list_elem_of_lookup_2.
    + by eapply (Forall2_lookup_lr _ _ _ _ _ _ Hchunks).
Qed.

(** The ranges of either algorithm. *)
Definition cut_by (data : list byte) (size : Z) (ranges : list ChunkRange) : Prop :=
  ChunkFastCDC data size = Some ranges \/ ChunkFixed data size = Some ranges.

Lemma cut_by_concat data size ranges : 0 < size < two64 -> data_len data <= 2 ^ 60 -> cut_by data size ranges ->
  concat (payloads data ranges) = data.
Proof.
  intros Hsize Hlen [Hc|Hc].
  - by apply (ChunkFastCDC_payloads data size ranges Hsize Hlen).
  - destruct (ChunkFixed_spec data size Hsize ltac:(lia)) as (rs & Hrs & _ & Hcat & _). congruence.
Qed.

(** C18: what is ingested reassembles.  When the chunks that either algorithm cuts
    for a file, and the blob that lists them, were stored without an error, the
    hash that is returned leads back to the bytes of the file, in that store and
    in every later one that has lost nothing; the only proviso is that no two of
    the entities that were built differ and have one hash. *)
Theorem ingest_reassemble (cs cs' cs'' : CS) (data : list byte) ranges chunking size blobEnt chunks h :
  0 < size < two64 -> data_len data <= 2 ^ 60 -> data_len data <= maxAlloc ->
  cut_by data size ranges ->
  BuildBlob alg data ranges chunking size = Some (Ok (blobEnt, chunks)) ->
  distinct_addresses (blobEnt :: chunks) ->
  IngestBlob alg data ranges chunking size cs = Some (cs', Ok h) ->
  entities cs' ⊆ entities cs'' ->
  h = ContentHash blobEnt /\ Reassemble maxAlloc cs'' h = Some (Ok data).
Proof.
  intros Hsize Hlen Halloc Hcut Hb Hd Hi Hsub. destruct (IngestBlob_stored _ _ _ _ _ _ _ _ _ Hb Hd Hi) as [-> Hst].
  split; [done|]. apply (Reassemble_stored _ data ranges _ chunks); [by eapply BuildBlob_built|by eapply cut_by_concat|done|].
  intros e He. eapply lookup_weaken; [by apply Hst|done].
Qed.

(** The declared size of a blob is trusted: the buffer is allocated before the
    chunks are read, and a size the runtime does not allocate is a panic, whatever
    the chunks are. *)
Theorem Reassemble_declared_size (cs : CS) h blobEnt blob :
  cs_Get cs h = Some blobEnt -> Type_ blobEnt = TypeContentBlob -> DecodeBlob (Data blobEnt) = Some blob ->
  maxAlloc < TotalSize blob -> Reassemble maxAlloc cs h = None.
Proof.
  intros Hg Ht Hd Hm. unfold Reassemble. rewrite Hg, Ht, String.eqb_refl, Hd. cbn [negb].
  by apply Z.ltb_lt in Hm as ->.
Qed.
End roundtrip.

(** ** Get *)

Section get.
Context {CS L IX : Type} `{ContentStoreLaws CS} `{LocationIndex L} `{CapabilityIndex IX}.
Context `{Base58, DataCodec, ContentCodec, MapOrder}.

(** The encoded size of an entity, and of the entities of a map. *)
Definition esize (e : Entity) : Z := match EncodedSize e with Some n => n | None => 0 end.
Definition total_size (m : gmap Hash Entity) : Z := map_fold (fun _ e acc => esize e + acc) 0 m.

Lemma total_size_insert m h e : m !! h = None -> total_size (<[h := e]> m) = esize e + total_size m.
Proof. intros Hm. unfold total_size. rewrite map_fold_insert_L; [done| |done]. intros. lia. Qed.

Context (Hsize : forall e n, EncodedSize e = Some n -> 0 <= n).

Lemma esize_nonneg e : 0 <= esize e.
Proof. unfold esize. destruct (EncodedSize e) eqn:E; [by eapply Hsize|lia]. Qed.

Lemma total_size_nonneg m : 0 <= total_size m.
Proof.
  induction m as [|h e m Hm IH] using map_ind; [done|]. rewrite total_size_insert by done. pose proof (esize_nonneg e). lia.
Qed.

Lemma total_size_union m m' : m ##ₘ m' -> total_size (m ∪ m') = total_size m + total_size m'.
Proof.
  induction m as [|h e m Hm IH] using map_ind; intros Hd.
  - rewrite map_empty_union. done.
  - apply map_disjoint_insert_l in Hd as [Hh Hd].
    rewrite <- insert_union_l, !total_size_insert; [rewrite IH by done; lia|done|]. by apply lookup_union_None.
Qed.

Lemma total_size_subseteq m m' : m ⊆ m' -> total_size m <= total_size m'.
Proof.
  intros Hs. rewrite <- (map_difference_union _ _ Hs), total_size_union by (by apply map_disjoint_difference_r1).
  pose proof (total_size_nonneg (m' ∖ m)). lia.
Qed.

(** The store is held in memory. *)
Context (cs : CS) (Hmem : total_size (entities cs) < 2 ^ 63).

(** What the group of a request is after its chunks were added. *)
Record grown (existing : gmap Hash Entity) (chunks : list Hash) (group : gmap Hash Entity) (group' : gmap Hash Entity) : Prop := {
  gr_sub : group ⊆ group';
  gr_disj : group' ##ₘ existing;
  gr_store : group' ⊆ entities cs;
  gr_from k e : group' !! k = Some e -> group !! k = None -> k ∈ chunks;
  gr_all k e : k ∈ chunks -> entities cs !! k = Some e -> is_Some (existing !! k) \/ group' !! k = Some e
}.

Lemma group_chunks_spec existing chunks group total group' total' :
  group_chunks cs existing chunks group total = Ok (group', total') ->
  existing ⊆ entities cs -> group ⊆ entities cs -> group ##ₘ existing -> total = total_size group ->
  grown existing chunks group group' /\ total' = total_size group'.
Proof.
  intros Hg He. revert group total Hg. induction chunks as [|ch chunks IH]; intros group total Hg Hs Hd Ht; cbn [group_chunks] in Hg.
  { injection Hg as <- <-. split; [|done]. split; try done; [intros; congruence|by intros ? ? ?%elem_of_nil]. }
  destruct (bool_decide_reflect (is_Some (existing !! ch))) as [Hex|Hex].
  { destruct (IH _ _ Hg Hs Hd Ht) as [[] ->]. split; [|done]. split; try done.
    - intros k e Hk Hn. right. by eapply gr_from0.
    - intros k e [->|Hk]%elem_of_cons Hl; [by left|by apply gr_all0]. }
  destruct (bool_decide_reflect (is_Some (group !! ch))) as [[e0 Hgr]|Hgr].
  { destruct (IH _ _ Hg Hs Hd Ht) as [[] ->]. split; [|done]. split; try done.
    - intros k e Hk Hn. right. by eapply gr_from0.
    - intros k e [->|Hk]%elem_of_cons Hl; [|by apply gr_all0]. right.
      pose proof (lookup_weaken _ _ _ _ Hgr Hs) as He0. rewrite Hl in He0. injection He0 as ->. exact (lookup_weaken _ _ _ _ Hgr gr_sub0). }
  apply eq_None_not_Some in Hex, Hgr. rewrite cs_get_spec in Hg. destruct (entities cs !! ch) as [chEnt|] eqn:Hch.
  2: { destruct (IH _ _ Hg Hs Hd Ht) as [[] ->]. split; [|done]. split; try done.
    - intros k e Hk Hn. right. by eapply gr_from0.
    - intros k e [->|Hk]%elem_of_cons Hl; [congruence|by apply gr_all0]. }
  apply res_bind_ok in Hg as (n & Hn & Hg). apply of_option_ok in Hn. subst total.
  assert (Hsub : <[ch := chEnt]> group ⊆ entities cs) by (by apply insert_subseteq_l).
  assert (Htot : u64 (total_size group + n) = total_size (<[ch := chEnt]> group)).
  { assert (Hn' : esize chEnt = n) by (unfold esize; by rewrite Hn).
    pose proof (total_size_insert group ch chEnt Hgr). pose proof (total_size_subseteq _ _ Hsub).
    pose proof (total_size_nonneg (<[ch := chEnt]> group)). rewrite u64_small; [lia|]. unfold two64. lia. }
  destruct (IH _ _ Hg Hsub) as [[] ->]; [by apply map_disjoint_insert_l_2|exact Htot|]. split; [|done]. split; try done.
  - etransitivity; [|exact gr_sub0]. by apply insert_subseteq.
  - intros k e Hk Hno. destruct (decide (ch = k)) as [->|Hne]; [by left|]. right. eapply gr_from0; [done|]. by rewrite lookup_insert_ne.
  - intros k e [->|Hk]%elem_of_cons Hl; [|by apply gr_all0]. right. rewrite Hch in Hl. injection Hl as ->.
    eapply lookup_weaken; [|exact gr_sub0]. apply lookup_insert_eq.
Qed.

(** The group of a hash: the entity, and for a small blob the chunks the store has. *)
Lemma buildIncludeGroup_spec h ent existing group size :
  entities cs !! h = Some ent -> existing ⊆ entities cs -> buildIncludeGroup cs h ent existing = Ok (group, size) ->
  group ##ₘ existing /\ group ⊆ entities cs /\ size = total_size group
  /\ (group ∪ existing) !! h = Some ent
  /\ (forall k e, group !! k = Some e -> k = h \/ k ∈ inline_chunks ent)
  /\ (forall k e, k ∈ inline_chunks ent -> entities cs !! k = Some e -> (group ∪ existing) !! k = Some e).
Proof.
  intros Hh He Hb. unfold buildIncludeGroup in Hb.
  assert (Hfin : forall g, grown existing (inline_chunks ent) g group ->
     (existing !! h = Some ent \/ g !! h = Some ent) -> (forall k e, g !! k = Some e -> k = h) -> size = total_size group ->
     group ##ₘ existing /\ group ⊆ entities cs /\ size = total_size group /\ (group ∪ existing) !! h = Some ent
     /\ (forall k e, group !! k = Some e -> k = h \/ k ∈ inline_chunks ent)
     /\ (forall k e, k ∈ inline_chunks ent -> entities cs !! k = Some e -> (group ∪ existing) !! k = Some e)).
  { intros g [Hsub Hdis Hst Hfrom Hall] Hin Honly Hsz. do 3 (split; [done|]). split; [|split].
    - destruct Hin as [Hin|Hin]; [by apply lookup_union_Some; [done|right]|].
      apply lookup_union_Some; [done|left]. by eapply lookup_weaken.
    - intros k e Hk. destruct (g !! k) as [e'|] eqn:Hg; [left; by eapply Honly|right; by eapply Hfrom].
    - intros k e Hk Hl. apply lookup_union_Some; [done|]. destruct (Hall k e Hk Hl) as [[e' He']|?]; [|by left].
      right. rewrite He'. pose proof (lookup_weaken _ _ _ _ He' He). congruence. }
  destruct (bool_decide_reflect (is_Some (existing !! h))) as [[e' Hex]|Hex]; cbn [res_bind fst snd] in Hb.
  - apply group_chunks_spec in Hb as [Hgr Hsz]; [|done|apply map_empty_subseteq|apply map_disjoint_empty_l|done].
    apply (Hfin _ Hgr); [|by intros k e Hk; rewrite lookup_empty in Hk|done].
    left. rewrite Hex. pose proof (lookup_weaken _ _ _ _ Hex He). congruence.
  - apply eq_None_not_Some in Hex. apply res_bind_ok in Hb as (start & Hst & Hb).
    apply res_bind_ok in Hst as (n & Hn & Hst). apply of_option_ok in Hn. injection Hst as <-. cbn [fst snd] in Hb.
    apply group_chunks_spec in Hb as [Hgr Hsz].
    + apply (Hfin _ Hgr); [right; apply lookup_singleton_eq| |done]. intros k e [-> _]%lookup_singleton_Some. done.
    + done.
    + by apply map_singleton_subseteq_l.
    + by apply map_disjoint_singleton_l_2.
    + rewrite <- insert_empty, total_size_insert by done. unfold esize. rewrite Hn.
      change (total_size ∅) with 0. lia.
Qed.

(** What the loop has when it has gone through [done_]. *)
Record collected (limit : Z) (done_ : list Hash) (c : Collected) : Prop := {
  co_perm : c_found c ++ c_missing c ≡ₚ done_;
  co_store : c_included c ⊆ entities cs;
  co_running : c_running c = total_size (c_included c);
  co_limit : c_running c <= limit;
  co_found h : h ∈ c_found c -> exists ent, c_included c !! h = Some ent
    /\ forall k e, k ∈ inline_chunks ent -> entities cs !! k = Some e -> c_included c !! k = Some e;
  co_only k : is_Some (c_included c !! k) -> exists h ent, h ∈ c_found c /\ entities cs !! h = Some ent
    /\ (k = h \/ k ∈ inline_chunks ent)
}.

Lemma collect_hashes_spec limit hashes done_ c cs' c' :
  0 <= limit -> collected limit done_ c -> collect_hashes None limit cs hashes c = (cs', Ok c') ->
  cs' = cs /\ collected limit (done_ ++ hashes) c'.
Proof.
  intros Hlim. revert done_ c. induction hashes as [|h hashes IH]; intros done_ c Hc; cbn [collect_hashes].
  { intros [= <- <-]. by rewrite app_nil_r. }
  unfold resolve_hash. rewrite cs_get_spec. destruct Hc as [Hperm Hst Hrun Hlm Hf Ho].
  destruct (entities cs !! h) as [ent|] eqn:Hh.
  - destruct (buildIncludeGroup cs h ent (c_included c)) as [[group size]|] eqn:Hg; [|done].
    destruct (buildIncludeGroup_spec _ _ _ _ _ Hh Hst Hg) as (Hd & Hgs & Hsz & Hgh & Hgk & Hgc).
    assert (Hsub : group ∪ c_included c ⊆ entities cs) by (by apply map_union_least).
    assert (Hsum : u64 (c_running c + size) = total_size (group ∪ c_included c)).
    { rewrite Hrun, Hsz, total_size_union by done. pose proof (total_size_subseteq _ _ Hsub) as Hle.
      rewrite total_size_union in Hle by done. pose proof (total_size_nonneg group). pose proof (total_size_nonneg (c_included c)).
      rewrite u64_small; [lia|]. unfold two64. lia. }
    destruct (Z.ltb_spec limit (u64 (c_running c + size))) as [Hover|Hfit].
    + intros [= <- <-]. split; [done|]. split; cbn; try done. by rewrite app_assoc, Hperm.
    + intros Hrest. replace (done_ ++ h :: hashes) with ((done_ ++ [h]) ++ hashes) by (by rewrite <- app_assoc).
      refine (IH (done_ ++ [h]) _ _ Hrest). split; cbn [c_found c_missing c_included c_running].
      * rewrite <- Hperm, <- !app_assoc. by rewrite (Permutation_app_comm [h] (c_missing c)).
      * done.
      * done.
      * done.
      * intros k [Hk| ->%list_elem_of_singleton]%elem_of_app; [|by exists ent].
        destruct (Hf k Hk) as (e & He & Hch). exists e.
        assert (Hw : forall x y, c_included c !! x = Some y -> (group ∪ c_included c) !! x = Some y)
          by (intros x y Hx; apply lookup_union_Some; [done|by right]).
        split; [by apply Hw|]. intros x y Hx Hy. apply Hw. by apply Hch.
      * intros k [e Hk]. apply lookup_union_Some in Hk as [Hk|Hk]; [| |done].
        -- exists h, ent. split_and!; [set_solver|done|]. by eapply Hgk.
        -- destruct (Ho k ltac:(eauto)) as (h' & e' & Hh' & He' & Hor). exists h', e'. split_and!; [set_solver|done|done].
  - intros Hrest. replace (done_ ++ h :: hashes) with ((done_ ++ [h]) ++ hashes) by (by rewrite <- app_assoc).
    refine (IH (done_ ++ [h]) _ _ Hrest). split; cbn [c_found c_missing c_included c_running]; try done.
    by rewrite app_assoc, Hperm.
Qed.

Lemma response_limit_pos b : 0 < response_limit b.
Proof. unfold response_limit. destruct (Z.leb_spec b safetyMargin); lia. Qed.

Lemma collect_start limit : 0 <= limit -> collected limit [] (mkCollected [] [] ∅ 0).
Proof.
  intros Hl. split; cbn; try done.
  - apply map_empty_subseteq.
  - by intros h ?%elem_of_nil.
  - intros k [e He]. by rewrite lookup_empty in He.
Qed.

(** What was found stays found. *)
Lemma collect_found limit hashes c cs' c' h :
  collect_hashes None limit cs hashes c = (cs', Ok c') -> h ∈ c_found c -> h ∈ c_found c'.
Proof.
  revert c. induction hashes as [|x hashes IH]; intros c; cbn [collect_hashes]; [by intros [= <- <-]|].
  unfold resolve_hash. destruct (cs_Get cs x) as [ent|].
  - destruct (buildIncludeGroup cs x ent (c_included c)) as [[group size]|]; [|done].
    destruct (limit <? _); [by intros [= <- <-]|]. intros Hr Hh. apply (IH _ Hr). cbn. set_solver.
  - intros Hr Hh. by apply (IH _ Hr).
Qed.

(** The first requested hash is served when it is there and its group fits. *)
Lemma collect_first limit h hashes ent group size cs' c' :
  cs_Get cs h = Some ent -> buildIncludeGroup cs h ent ∅ = Ok (group, size) -> 0 <= size -> u64 size <= limit ->
  collect_hashes None limit cs (h :: hashes) (mkCollected [] [] ∅ 0) = (cs', Ok c') -> h ∈ c_found c'.
Proof.
  intros Hh Hg Hs Hfit. cbn [collect_hashes]. unfold resolve_hash. rewrite Hh. cbn [c_included c_running]. rewrite Hg, Z.add_0_l.
  destruct (Z.ltb_spec limit (u64 size)); [lia|]. intros Hr. eapply collect_found; [exact Hr|]. cbn. set_solver.
Qed.

Lemma group_chunks_total existing chunks group total : (forall h e, entities cs !! h = Some e -> is_Some (EncodedSize e)) ->
  exists r, group_chunks cs existing chunks group total = Ok r.
Proof.
  intros He. revert group total. induction chunks as [|ch chunks IH]; intros group total; cbn [group_chunks]; [eauto|].
  repeat case_bool_decide; [apply IH..|]. rewrite cs_get_spec. destruct (entities cs !! ch) as [e|] eqn:Hch; [|apply IH].
  destruct (He ch e Hch) as [n ->]. apply IH.
Qed.

Lemma buildIncludeGroup_total h ent existing : (forall h e, entities cs !! h = Some e -> is_Some (EncodedSize e)) ->
  entities cs !! h = Some ent -> exists r, buildIncludeGroup cs h ent existing = Ok r.
Proof.
  intros He Hh. unfold buildIncludeGroup. case_bool_decide; cbn [res_bind].
  - by apply group_chunks_total.
  - destruct (He h ent Hh) as [n ->]. by apply group_chunks_total.
Qed.

(** No error comes out of the loop when every entity has an encoding. *)
Lemma collect_total limit hashes c : (forall h e, entities cs !! h = Some e -> is_Some (EncodedSize e)) ->
  exists c', collect_hashes None limit cs hashes c = (cs, Ok c').
Proof.
  intros He. revert c. induction hashes as [|x hashes IH]; intros c; cbn [collect_hashes]; [eauto|].
  unfold resolve_hash. rewrite cs_get_spec. destruct (entities cs !! x) as [ent|] eqn:Hx; [|apply IH].
  destruct (buildIncludeGroup_total x ent (c_included c) He Hx) as [[group size] ->].
  destruct (limit <? _); [eauto|apply IH].
Qed.
End get.

Section get_theorem.
Context {CS L IX : Type} `{ContentStoreLaws CS} `{LocationIndex L} `{CapabilityIndex IX}.
Context `{Base58, DataCodec, ContentCodec, MapOrder}.

End get_theorem.

(** ** Descriptors *)

Section descriptors.
Context {CS L : Type} `{ContentStoreLaws CS} `{LocationIndexLaws L} `{ContentCodec}.

Lemma hex_digit_no_slash n : 0 <= n < 16 -> hex_digit n <> "/"%char.
Proof. intros Hn E. pose proof (from_hex_digit_hex_digit n Hn) as Hd. by rewrite E in Hd. Qed.

Lemma hex_no_slash l : IndexByte (hex_encode l) "/" = None.
Proof.
  induction l as [|b l IH]; [done|]. pose proof (bZ_range b). cbn [hex_encode IndexByte].
  destruct (Ascii.eqb_spec (hex_digit (bZ b / 16)) "/") as [E|_].
  { apply hex_digit_no_slash in E; [done|]. split; [apply Z.div_pos; lia|apply Z.div_lt_upper_bound; lia]. }
  destruct (Ascii.eqb_spec (hex_digit (bZ b mod 16)) "/") as [E|_]; [|by rewrite IH].
  apply hex_digit_no_slash in E; [done|]. apply Z.mod_pos_bound. lia.
Qed.

Lemma StrIndex_marker pub t : IndexByte pub "/" = None -> StrIndex (pub +:+ descriptor_marker +:+ t) descriptor_marker = Some (slen pub).
Proof.
  induction pub as [|a pub IH]; intros Hn.
  - rewrite append_nil. pose proof (HasPrefix_append descriptor_marker t) as Hpre.
    destruct (descriptor_marker +:+ t); cbn [StrIndex]; by rewrite Hpre.
  - rewrite append_cons. cbn [IndexByte] in Hn. destruct (Ascii.eqb a "/") eqn:Ea; [done|].
    cbn [StrIndex slen]. replace (HasPrefix _ descriptor_marker) with false.
    + rewrite IH; [done|]. by destruct (IndexByte pub "/").
    + unfold descriptor_marker. cbn [HasPrefix]. by rewrite Ascii.eqb_sym, Ea.
Qed.

(** The path of a descriptor names the blob and the descriptor. *)
Lemma ParseDescriptorPath_path (pub : PeerID) blob d : IndexByte pub "/" = None ->
  ParseDescriptorPath (DescriptorPath pub blob d) = Some (hex_encode (Bytes blob), hex_encode (Bytes d)).
Proof.
  intros Hp. unfold ParseDescriptorPath, DescriptorPath.
  set (t := hex_encode (Bytes blob) +:+ "/" +:+ hex_encode (Bytes d)).
  assert (Hi : StrIndex ("/" +:+ pub +:+ descriptor_marker +:+ t) descriptor_marker = Some (S (slen pub))).
  { rewrite append_cons, append_nil. cbn [StrIndex]. rewrite StrIndex_marker by done.
    destruct (HasPrefix _ descriptor_marker) eqn:Hh; [|done]. exfalso. apply HasPrefix_spec in Hh as [u Hu].
    unfold descriptor_marker in Hu. rewrite append_cons in Hu. injection Hu as Hu.
    destruct (split_at_unique "/" pub ("system/content/descriptor/" +:+ t) "system" ("content/descriptor/" +:+ u) Hp eq_refl Hu)
      as [_ Hb]. discriminate Hb. }
  rewrite Hi. assert (Hd : str_drop (S (slen pub) + slen descriptor_marker) ("/" +:+ pub +:+ descriptor_marker +:+ t) = t).
  { replace ("/" +:+ pub +:+ descriptor_marker +:+ t) with (("/" +:+ pub +:+ descriptor_marker) +:+ t) by (by rewrite !append_assoc).
    replace (S (slen pub) + slen descriptor_marker)%nat with (slen ("/" +:+ pub +:+ descriptor_marker)) by (by rewrite !slen_append).
    apply str_drop_append. }
  rewrite Hd. unfold t. change ("/" +:+ hex_encode (Bytes d)) with (String "/" (hex_encode (Bytes d))).
  rewrite (IndexByte_append (hex_encode (Bytes blob)) "/" (hex_encode (Bytes d)) (hex_no_slash _)).
  rewrite str_take_append. replace (str_drop _ _) with (hex_encode (Bytes d)).
  2: { replace (slen (hex_encode (Bytes blob)) + 1)%nat with (slen (hex_encode (Bytes blob) +:+ "/")) by (by rewrite slen_append).
       change (String "/" (hex_encode (Bytes d))) with ("/" +:+ hex_encode (Bytes d)).
       by rewrite <- append_assoc, str_drop_append. }
  assert (Hne : forall h, String.eqb (hex_encode (Bytes h)) "" = false).
  { intros h. unfold Bytes. by destruct (_ =? 0)%nat. }
  rewrite !Hne, (proj2 (Contains_slash _)) by apply hex_no_slash. done.
Qed.

(** A published descriptor is found by everyone who looks it up under its
    publisher and blob, at the path that names both; and a lookup returns only
    descriptors that are stored, say that they describe the blob, and are bound
    below the path of the blob. *)
Theorem publish_lookup (publisher : PeerID) descriptor (cs cs' : CS) (index index' : L) path pubs :
  PublishDescriptor publisher descriptor cs index = (cs', index', Ok path) -> publisher ∈ pubs ->
  exists data h, DecodeDescriptor (Data descriptor) = Some data /\ put_hash descriptor = Ok h
    /\ (MediaType data <> None \/ TypeRef data <> None)
    /\ path = DescriptorPath publisher (cd_Content data) h
    /\ bindings index' !! path = Some h
    /\ (h <> zero_hash -> mkDescriptorRef publisher (stamped descriptor h) ∈ LookupDescriptors pubs (cd_Content data) cs' index').
Proof.
  intros Hp Hin. unfold PublishDescriptor in Hp. destruct (String.eqb (Type_ descriptor) TypeContentDescriptor); [cbn in Hp|done].
  destruct (DecodeDescriptor (Data descriptor)) as [data|] eqn:Hd; [|done].
  destruct (ValidateDescriptor data (cd_Content data)) as [[]|] eqn:Hv; [|done].
  destruct (cs_Put cs descriptor) as [cs1 [h|]] eqn:Hput; [|done].
  destruct (Set_ index _ h) as [index1 [[]|]] eqn:Hset; [|done]. injection Hp as <- <- <-.
  pose proof (cs_put_spec cs descriptor) as Hps. rewrite Hput in Hps. cbn [fst snd] in Hps. destruct Hps as [Hh Hent].
  pose proof (set_spec index (DescriptorPath publisher (cd_Content data) h) h) as Hss. rewrite Hset in Hss. cbn [fst snd committed] in Hss.
  exists data, h. do 2 (split; [done|]). split.
  { unfold ValidateDescriptor in Hv. destruct (MediaType data), (TypeRef data); try done; [by left|by left|by right]. }
  split; [done|]. assert (Hb : bindings index1 !! DescriptorPath publisher (cd_Content data) h = Some h) by (by rewrite Hss, lookup_insert_eq).
  split; [done|]. intros Hnz. unfold LookupDescriptors. apply list_elem_of_In, in_flat_map. exists publisher.
  split; [by apply list_elem_of_In|]. apply list_elem_of_In, list_elem_of_omap. eexists. split.
  - apply list_spec. split; [exact Hb|]. unfold DescriptorPath. apply HasPrefix_spec. eexists. by rewrite !append_assoc.
  - unfold descriptor_at. cbn [le_Hash]. unfold IsZero. rewrite bool_decide_false by done.
    rewrite cs_get_spec, Hent, lookup_insert_eq. cbn [Data stamped]. rewrite Hd. by rewrite bool_decide_true.
Qed.

Lemma LookupDescriptors_sound pubs blob (cs : CS) (index : L) r :
  r ∈ LookupDescriptors pubs blob cs index ->
  dr_Publisher r ∈ pubs
  /\ exists p h data, bindings index !! p = Some h /\ cs_Get cs h = Some (Descriptor r)
     /\ HasPrefix p ("/" +:+ dr_Publisher r +:+ descriptor_marker +:+ hex_encode (Bytes blob) +:+ "/") = true
     /\ DecodeDescriptor (Data (Descriptor r)) = Some data /\ cd_Content data = blob.
Proof.
  unfold LookupDescriptors. intros (p & Hp & Hr)%list_elem_of_In%in_flat_map.
  apply list_elem_of_In, list_elem_of_omap in Hr as ([q h] & Hq & Hd). apply list_spec in Hq as [Hb Hpre].
  unfold descriptor_at in Hd. cbn [le_Hash] in Hd. destruct (IsZero h); [done|].
  destruct (cs_Get cs h) as [d|] eqn:Hg; [|done]. destruct (DecodeDescriptor (Data d)) as [data|] eqn:Hdd; [|done].
  destruct (bool_decide_reflect (cd_Content data = blob)); [|done]. injection Hd as <-.
  split; [by apply list_elem_of_In|]. exists q, h, data. by cbn [dr_Publisher Descriptor].
Qed.
End descriptors.
