(* ===== verification/ContentSync.v ===== *)
(** * Completing a closure ([ext/content/sequencer.go])

    [EnsureClosure] fetches a blob and its chunks through a dispatcher, in batches,
    until the local store has them all.  A dispatcher is what [core/handler] calls
    one: it executes a request, with effects on the world [W] and on the local
    store, and gives access to that store.  [ctx_err] says whether the context of
    the call is cancelled.

    The loop over the missing chunks is fuelled with their number; the theorems
    show that it never runs out, whatever the dispatcher does. *)

From Stdlib Require Import Ascii.
From S2P Require Import Prelude GoStrings Errors Hash Entity PeerID Paths CapTypes Patterns Check Delegation Revoked Store Handlers Chunker Content ContentSpec.

Open Scope Z_scope.

Definition GetBatchSize : nat := 16.
Definition MaxPendingSyncRetries : nat := 3.
Definition TypeContentGetRequest : string := "system/content/get-request".
Definition TypeError : string := "system/protocol/error".

(** ** Dispatchers *)

Record ExecuteRequest := {
  xr_URI : string; xr_Operation : string; xr_Resource : option ResourceTarget; xr_Params : Entity; xr_Capability : Entity
}.

Record ExecuteResponse := { xs_Status : Z; xs_Result : Entity; xs_Included : gmap Hash Entity }.

(** [d_carriesStore]: the dispatcher has a [Store] method. *)
Record ExecDispatcher (W CS : Type) := {
  d_Execute : W -> CS -> ExecuteRequest -> W * CS * result ExecuteResponse;
  d_carriesStore : bool
}.
Arguments d_Execute {W CS} _ _ _ _.
Arguments d_carriesStore {W CS} _.

Definition entity_scheme : string := "entity://".

Definition qualifyURIWithPeer (uri : string) (peer : PeerID) : string :=
  if HasPrefix uri entity_scheme then
    let rest := TrimPrefix uri entity_scheme in
    match IndexByte rest "/" with
    | Some (S _) => uri
    | _ => entity_scheme +:+ peer +:+ "/" +:+ rest
    end
  else entity_scheme +:+ peer +:+ "/" +:+ TrimPrefix uri "/".

Definition AtPeer {W CS} (inner : ExecDispatcher W CS) (sourcePeer : PeerID) : ExecDispatcher W CS := {|
  d_Execute w cs req := d_Execute inner w cs {|
    xr_URI := qualifyURIWithPeer (xr_URI req) sourcePeer; xr_Operation := xr_Operation req; xr_Resource := xr_Resource req;
    xr_Params := xr_Params req; xr_Capability := xr_Capability req |};
  d_carriesStore := d_carriesStore inner |}.

(** ** The sequencer *)

Inductive ClosureErr :=
| NilDispatcher
| ZeroBlobHash
| EmptyNamespace
| NoContentStore
| Cancelled
| EncodeRequestFailed
| ExecuteFailed (e : GoErr)
| StatusError (status : Z) (code : string)
| StashFailed (e : GoErr)
| HashNotABlob
| BlobUndecodable.

Section sequencer.
Context {W CS : Type} `{ContentStore CS} `{HashableCodec, ContentCodec, MapOrder}.
Context (alg : byte) (DecodeErrorData : list byte -> option (string * string)) (ctx_err : W -> bool).

Definition site_stash_included : nat := 31.

Definition missingFromStore (cs : CS) (hashes : list Hash) : list Hash :=
  List.filter (fun h => match cs_Get cs h with Some _ => false | None => true end) hashes.

Definition errorCodeFromResult (result : Entity) : string :=
  if negb (String.eqb (Type_ result) TypeError) then ""
  else match DecodeErrorData (Data result) with Some (code, _) => code | None => "" end.

Definition get_request (namespace : string) (hashes : list Hash) : res ClosureErr ExecuteRequest :=
  let! params := res_map_err (fun _ => EncodeRequestFailed)
    (let! raw := of_option [] (EncodeGetHashes hashes) in Ent.NewEntity alg TypeContentGetRequest raw) in
  Ok {| xr_URI := "system/content"; xr_Operation := "get"; xr_Resource := Some {| Targets := [namespace]; rt_Exclude := [] |};
        xr_Params := params; xr_Capability := no_entity |}.

Definition fetchOnce (d : ExecDispatcher W CS) (namespace : string) (hashes : list Hash) (w : W) (cs : CS) : W * CS * res ClosureErr unit :=
  match get_request namespace hashes with
  | Err e => (w, cs, Err e)
  | Ok req =>
      match d_Execute d w cs req with
      | (w, cs, Err e) => (w, cs, Err (ExecuteFailed e))
      | (w, cs, Ok resp) =>
          if negb (xs_Status resp =? 200) then (w, cs, Err (StatusError (xs_Status resp) (errorCodeFromResult (xs_Result resp))))
          else if negb (d_carriesStore d) then (w, cs, Err NoContentStore)
          else
            let '(cs, r) := put_all cs (map snd (map_range site_stash_included [] (xs_Included resp))) in
            (w, cs, res_map_err StashFailed r)
      end
  end.

(** The attempts that are left, and the error of the last one. *)
Fixpoint retry_fetch (attempts : nat) (d : ExecDispatcher W CS) (namespace : string) (hashes : list Hash) (w : W) (cs : CS)
    (lastErr : res ClosureErr unit) : W * CS * res ClosureErr unit :=
  match attempts with
  | O => (w, cs, lastErr)
  | S attempts =>
      if ctx_err w then (w, cs, Err Cancelled)
      else match fetchOnce d namespace hashes w cs with
      | (w, cs, Err (StatusError status code)) =>
          if status =? 503 then retry_fetch attempts d namespace hashes w cs (Err (StatusError status code))
          else (w, cs, Err (StatusError status code))
      | r => r
      end
  end.

Definition fetchWithPendingRetry (d : ExecDispatcher W CS) (namespace : string) (hashes : list Hash) (w : W) (cs : CS)
  : W * CS * res ClosureErr unit :=
  retry_fetch (S MaxPendingSyncRetries) d namespace hashes w cs (Ok tt).

(** The loop; [None] is the end of the fuel. *)
Fixpoint drain (fuel : nat) (d : ExecDispatcher W CS) (namespace : string) (needed : list Hash) (w : W) (cs : CS)
  : option (W * CS * res ClosureErr unit) :=
  match needed, fuel with
  | [], _ => Some (w, cs, Ok tt)
  | _, O => None
  | _, S fuel =>
      if ctx_err w then Some (w, cs, Err Cancelled)
      else
        let batch := take GetBatchSize needed in
        match fetchWithPendingRetry d namespace batch w cs with
        | (w, cs, Err e) => Some (w, cs, Err e)
        | (w, cs, Ok _) =>
            if (length (missingFromStore cs batch) =? length batch)%nat then Some (w, cs, Err (StatusError 404 "not_found"))
            else drain fuel d namespace (missingFromStore cs needed) w cs
        end
  end.

Definition blobChunkHashes (blobEnt : Entity) : option (list Hash) := Chunks <$> DecodeBlob (Data blobEnt).

(** The blob itself, fetched when the store does not have it. *)
Definition ensure_blob (d : ExecDispatcher W CS) (namespace : string) (blobHash : Hash) (w : W) (cs : CS) : W * CS * res ClosureErr unit :=
  match cs_Get cs blobHash with
  | Some _ => (w, cs, Ok tt)
  | None =>
      match fetchWithPendingRetry d namespace [blobHash] w cs with
      | (w, cs, Err e) => (w, cs, Err e)
      | (w, cs, Ok _) =>
          match cs_Get cs blobHash with
          | None => (w, cs, Err (StatusError 404 "not_found"))
          | Some _ => (w, cs, Ok tt)
          end
      end
  end.

Definition EnsureClosure (dispatcher : option (ExecDispatcher W CS)) (blobHash : Hash) (namespace : string) (w : W) (cs : CS)
  : option (W * CS * res ClosureErr unit) :=
  match dispatcher with
  | None => Some (w, cs, Err NilDispatcher)
  | Some d =>
      if IsZero blobHash then Some (w, cs, Err ZeroBlobHash)
      else if String.eqb namespace "" then Some (w, cs, Err EmptyNamespace)
      else if negb (d_carriesStore d) then Some (w, cs, Err NoContentStore)
      else match ensure_blob d namespace blobHash w cs with
      | (w, cs, Err e) => Some (w, cs, Err e)
      | (w, cs, Ok _) =>
          match cs_Get cs blobHash with
          | None => Some (w, cs, Err HashNotABlob)
          | Some blobEnt =>
              if negb (String.eqb (Type_ blobEnt) TypeContentBlob) then Some (w, cs, Err HashNotABlob)
              else match blobChunkHashes blobEnt with
              | None => Some (w, cs, Err BlobUndecodable)
              | Some chunkHashes =>
                  let needed := missingFromStore cs chunkHashes in
                  drain (length needed) d namespace needed w cs
              end
          end
      end
  end.
End sequencer.

(** ** Termination and soundness *)

Section sequencer_spec.
Context {W CS : Type} `{ContentStoreLaws CS} `{ContentCodec, MapOrder}.
Context (alg : byte) (DecodeErrorData : list byte -> option (string * string)) (ctx_err : W -> bool).

Abbreviation fetch_once := (fetchOnce alg DecodeErrorData).
Abbreviation retrying := (retry_fetch alg DecodeErrorData ctx_err).
Abbreviation drain_ := (drain alg DecodeErrorData ctx_err).

Lemma missing_le (cs : CS) l : (length (missingFromStore cs l) <= length l)%nat.
Proof. apply List.filter_length_le. Qed.

Lemma missing_app (cs : CS) l l' : missingFromStore cs (l ++ l') = missingFromStore cs l ++ missingFromStore cs l'.
Proof. apply List.filter_app. Qed.

Lemma elem_of_missing (cs : CS) l h : h ∈ missingFromStore cs l <-> h ∈ l /\ entities cs !! h = None.
Proof.
  unfold missingFromStore. rewrite !list_elem_of_In, filter_In, cs_get_spec.
  destruct (entities cs !! h); split; intros [? ?]; done.
Qed.

(** A round that delivers something leaves less to fetch. *)
Lemma missing_shrinks (cs : CS) needed n :
  (length (missingFromStore cs (take n needed)) =? length (take n needed))%nat = false ->
  (length (missingFromStore cs needed) < length needed)%nat.
Proof.
  intros Hne%Nat.eqb_neq. rewrite <- (take_drop n needed) at 1. rewrite missing_app, length_app.
  pose proof (missing_le cs (take n needed)). pose proof (missing_le cs (drop n needed)).
  rewrite <- (take_drop n needed) at 3. rewrite length_app. lia.
Qed.

Lemma drain_returns fuel d ns needed w cs : (length needed <= fuel)%nat -> is_Some (drain_ fuel d ns needed w cs).
Proof.
  revert needed w cs. induction fuel as [|fuel IH]; intros [|h needed] w cs Hf; cbn [drain]; try done; [cbn in Hf; lia|].
  destruct (ctx_err w); [done|]. destruct (fetchWithPendingRetry _ _ _ _ _ _ _ _) as [[w' cs'] [[]|e]]; [|done].
  destruct (_ =? _)%nat eqn:Hm; [done|]. apply IH. apply missing_shrinks in Hm. lia.
Qed.

(** What the response of a dispatcher may do to the store: nothing that is there
    is lost or replaced. *)
Definition consistent (m : gmap Hash Entity) (l : list Entity) : Prop :=
  forall e h, e ∈ l -> put_hash e = Ok h ->
    (m !! h = None \/ m !! h = Some (stamped e h)) /\ forall e', e' ∈ l -> put_hash e' = Ok h -> stamped e' h = stamped e h.

Definition lossless (d : ExecDispatcher W CS) : Prop := forall w cs req,
  let '(w', cs', r) := d_Execute d w cs req in
  entities cs ⊆ entities cs'
  /\ match r with Ok resp => consistent (entities cs') (map snd (map_to_list (xs_Included resp))) | Err _ => True end.

Lemma put_all_grows (cs cs' : CS) l r : consistent (entities cs) l -> put_all cs l = (cs', r) -> entities cs ⊆ entities cs'.
Proof.
  revert cs. induction l as [|e l IH]; intros cs Hc; cbn [put_all]; [by intros [= <- <-]|].
  pose proof (cs_put_spec cs e) as Hp. destruct (cs_Put cs e) as [cs1 [h|er]]; cbn [fst snd] in Hp.
  - destruct Hp as [Hh He]. intros Hr. destruct (Hc e h ltac:(by left) Hh) as [Hm _].
    assert (Hsub : entities cs ⊆ entities cs1).
    { rewrite He. destruct Hm as [Hm|Hm]; [by apply insert_subseteq|by rewrite insert_id]. }
    etransitivity; [exact Hsub|]. refine (IH _ _ Hr). intros x k Hx Hk.
    destruct (Hc x k ltac:(by right) Hk) as [Hx1 Hx2]. split; [|intros; by apply Hx2; [right|]].
    rewrite He. destruct (decide (h = k)) as [->|Hne].
    + right. rewrite lookup_insert_eq. f_equal. apply Hx2; [by left|done].
    + by rewrite lookup_insert_ne.
  - intros [= <- <-]. by rewrite Hp.
Qed.

Lemma consistent_perm m l l' : l ≡ₚ l' -> consistent m l -> consistent m l'.
Proof.
  intros Hp Hc e h He Hh. rewrite <- Hp in He. destruct (Hc e h He Hh) as [? Hx]. split; [done|].
  intros e' He'. rewrite <- Hp in He'. by apply Hx.
Qed.

Lemma fetchOnce_grows d ns hashes w cs w' cs' r : lossless d ->
  fetch_once d ns hashes w cs = (w', cs', r) -> entities cs ⊆ entities cs'.
Proof.
  intros Hl. unfold fetchOnce. destruct (get_request alg ns hashes) as [req|]; [|by intros [= <- <- <-]].
  specialize (Hl w cs req). destruct (d_Execute d w cs req) as [[w1 cs1] [resp|e]]; destruct Hl as [Hs Hc].
  - destruct (negb (xs_Status resp =? 200)); [by intros [= <- <- <-]|]. destruct (negb _); [by intros [= <- <- <-]|].
    destruct (put_all cs1 _) as [cs2 r2] eqn:Hp. intros [= <- <- <-]. etransitivity; [exact Hs|].
    refine (put_all_grows _ _ _ _ _ Hp). eapply consistent_perm; [|exact Hc].
    apply Permutation_map. symmetry. apply map_range_perm.
  - by intros [= <- <- <-].
Qed.

Lemma retry_grows n d ns hashes w cs last w' cs' r : lossless d ->
  retrying n d ns hashes w cs last = (w', cs', r) -> entities cs ⊆ entities cs'.
Proof.
  intros Hl. revert w cs last. induction n as [|n IH]; intros w cs last; cbn [retry_fetch]; [by intros [= <- <- <-]|].
  destruct (ctx_err w); [by intros [= <- <- <-]|].
  destruct (fetch_once d ns hashes w cs) as [[w1 cs1] r1] eqn:Hf. pose proof (fetchOnce_grows _ _ _ _ _ _ _ _ Hl Hf) as Hs.
  destruct r1 as [[]|e]; [by intros [= <- <- <-]|]. destruct e; try by intros [= <- <- <-].
  destruct (status =? 503); [|by intros [= <- <- <-]]. intros Hr. etransitivity; [exact Hs|]. by eapply IH.
Qed.

Lemma drain_sound fuel d ns needed w cs w' cs' : lossless d ->
  drain_ fuel d ns needed w cs = Some (w', cs', Ok tt) ->
  entities cs ⊆ entities cs' /\ forall h, h ∈ needed -> is_Some (entities cs' !! h).
Proof.
  intros Hl. revert needed w cs. induction fuel as [|fuel IH]; intros [|h needed] w cs; cbn [drain];
    try (intros [= <- <-]; split; [done|by intros ? ?%elem_of_nil]); try done.
  destruct (ctx_err w); [done|].
  destruct (fetchWithPendingRetry _ _ _ _ _ _ _ _) as [[w1 cs1] [[]|e]] eqn:Hf; [|done].
  apply retry_grows in Hf; [|done]. destruct (_ =? _)%nat; [done|]. intros Hr. apply IH in Hr as [Hs Hin].
  split; [by etransitivity|]. intros x Hx. destruct (entities cs1 !! x) as [e|] eqn:Hx1.
  - exists e. by eapply lookup_weaken.
  - apply Hin, elem_of_missing. done.
Qed.

Lemma ensure_blob_grows d ns bh w cs w' cs' r : lossless d ->
  ensure_blob alg DecodeErrorData ctx_err d ns bh w cs = (w', cs', r) -> entities cs ⊆ entities cs'.
Proof.
  intros Hl. unfold ensure_blob. destruct (cs_Get cs bh); [by intros [= <- <- <-]|].
  destruct (fetchWithPendingRetry _ _ _ _ _ _ _ _) as [[w1 cs1] r1] eqn:Hf. apply retry_grows in Hf; [|done].
  destruct r1; [|by intros [= <- <- <-]]. destruct (cs_Get cs1 bh); by intros [= <- <- <-].
Qed.

End sequencer_spec.

(** ** Fetching from another peer *)

(** A dispatcher whose other end is the content handler of a peer: the transport
    between them is left out. *)
Section transfer.
Context {W CS RS L IX : Type} `{ContentStoreLaws CS}.
Context {HRS : ContentStore RS} {HRSL : ContentStoreLaws RS} `{LocationIndex L} `{CapabilityIndex IX}.
Context `{Base58, DataCodec} {HC : ContentCodec} {HCL : ContentCodecLaws} `{MapOrder}.
Context (alg : byte) (maxAlloc : Z) (DecodeErrorData : list byte -> option (string * string)) (ctx_err : W -> bool).

Definition with_resource (hctx : HandlerContext) (r : option ResourceTarget) : HandlerContext := {|
  hc_Author := hc_Author hctx; hc_AuthorHash := hc_AuthorHash hctx; hc_LocalPeerID := hc_LocalPeerID hctx;
  hc_CallerCapability := hc_CallerCapability hctx; hc_HandlerGrant := hc_HandlerGrant hctx; hc_Resource := r;
  hc_HandlerPattern := hc_HandlerPattern hctx; hc_RequestID := hc_RequestID hctx; hc_Bounds := hc_Bounds hctx;
  hc_ChainDepth := hc_ChainDepth hctx; hc_ReactiveTrigger := hc_ReactiveTrigger hctx; hc_Included := hc_Included hctx |}.

Definition peer_dispatcher (connection : option Z) (hctx : HandlerContext) (remote : TreeState RS L IX) : ExecDispatcher W CS := {|
  d_Execute w cs req :=
    (w, cs,
     match snd (handleGet None connection (with_resource hctx (xr_Resource req)) (Data (xr_Params req)) remote) with
     | Err e => Err e
     | Ok resp => Ok {| xs_Status := cr_Status resp; xs_Result := no_entity; xs_Included := cr_Included resp |}
     end);
  d_carriesStore := true |}.

Context (connection : option Z) (hctx : HandlerContext) (remote : TreeState RS L IX) (ns : string).
Abbreviation rents := (entities (ts_Store remote)).
Abbreviation limit := (response_limit (frameBudget connection)).

(** The peer: its store is content addressed, held in memory, and every entity of
    it has an encoding; it serves the namespace. *)
Record serving : Prop := {
  sv_sizes e n : EncodedSize e = Some n -> 0 <= n;
  sv_memory : total_size rents < 2 ^ 63;
  sv_encodes h e : rents !! h = Some e -> is_Some (EncodedSize e);
  sv_addressed : addressed rents;
  sv_resource : requireResource (with_resource hctx (Some {| Targets := [ns]; rt_Exclude := [] |})) = None
}.

(** The local side: the request of a batch can be written and is read as what it
    is, the medium of the store does not fail, and the call is not cancelled. *)
Record fetching : Prop := {
  ft_request l : l <> [] -> exists req raw, get_request alg ns l = Ok req /\ EncodeGetHashes l = Some raw;
  ft_decodes l raw : EncodeGetHashes l = Some raw -> decode_hashes raw = Some l;
  ft_reliable (cs : CS) e h : put_hash e = Ok h -> snd (cs_Put cs e) = Ok h;
  ft_alive w : ctx_err w = false
}.

(** Two stores do not disagree. *)
Definition agree (m m' : gmap Hash Entity) : Prop := forall h e e', m !! h = Some e -> m' !! h = Some e' -> e = e'.

(** The hash can be answered: the peer has it, and its group fits a frame. *)
Definition fits (h : Hash) : Prop := exists ent group size,
  rents !! h = Some ent /\ buildIncludeGroup (ts_Store remote) h ent ∅ = Ok (group, size) /\ size <= limit.

Context (Hserve : serving) (Hfetch : fetching).
Abbreviation d := (peer_dispatcher connection hctx remote).

Lemma remote_self h e : rents !! h = Some e -> ContentHash e = h /\ put_hash e = Ok h /\ self_addressed e.
Proof.
  intros He. destruct (sv_addressed Hserve h e He) as [Hh Hc].
  assert (Hp : put_hash e = Ok h).
  { unfold put_hash. rewrite Hh, Hc. cbn [res_bind]. rewrite bool_decide_true by done. cbn [negb]. by rewrite andb_false_r. }
  split_and!; [done|done|]. intros k Hk. congruence.
Qed.

Lemma put_all_reliable (cs : CS) l : (forall e, e ∈ l -> exists h, put_hash e = Ok h) -> exists cs', put_all cs l = (cs', Ok tt).
Proof.
  revert cs. induction l as [|e l IH]; intros cs Hl; cbn [put_all]; [eauto|].
  destruct (Hl e ltac:(by left)) as [h Hh]. pose proof (ft_reliable Hfetch cs e h Hh) as Hr.
  destruct (cs_Put cs e) as [cs1 r]. cbn in Hr. subst r. apply IH. intros x Hx. apply Hl. by right.
Qed.

(** One request: the first hash that is asked for arrives, and the local store
    takes over only what the peer has. *)
Lemma fetch_from_peer b bs w cs : fits b -> agree (entities cs) rents ->
  exists cs', fetchOnce alg DecodeErrorData d ns (b :: bs) w cs = (w, cs', Ok tt)
    /\ entities cs ⊆ entities cs' /\ agree (entities cs') rents /\ entities cs' !! b = rents !! b.
Proof.
  intros (ent & group & size & Hb & Hg & Hfit) Hag. unfold fetchOnce.
  destruct (ft_request Hfetch (b :: bs) ltac:(done)) as (req & raw & Hreq & Henc). rewrite Hreq.
  assert (Hdata : Data (xr_Params req) = raw /\ xr_Resource req = Some {| Targets := [ns]; rt_Exclude := [] |}).
  { unfold get_request in Hreq. rewrite Henc in Hreq. inv_ok. cbn [of_option] in *. inv_ok.
    match goal with He : Ent.NewEntity _ _ _ = Ok _ |- _ => apply Ent.NewEntityFormat_ok in He as [_ He] end.
    cbn [xr_Params xr_Resource]. split; [|done]. simpl in *. congruence. }
  destruct Hdata as [Hraw Hres]. cbn [d_Execute peer_dispatcher]. rewrite Hraw, Hres.
  unfold handleGet. rewrite (sv_resource Hserve), (ft_decodes Hfetch _ _ Henc).
  destruct (collect_total (ts_Store remote) limit (b :: bs) (mkCollected [] [] ∅ 0) (sv_encodes Hserve)) as [c Hc]. rewrite Hc.
  cbn [snd cr_Status cr_Included xs_Status xs_Included d_carriesStore peer_dispatcher Z.eqb negb].
  pose proof (Z.lt_le_incl _ _ (response_limit_pos (frameBudget connection))) as Hlim.
  destruct (collect_hashes_spec (sv_sizes Hserve) _ (sv_memory Hserve) _ _ [] _ _ _ Hlim (collect_start _ _ Hlim) Hc) as [_ Hcol].
  destruct (buildIncludeGroup_spec (sv_sizes Hserve) _ (sv_memory Hserve) _ _ _ _ _ Hb (map_empty_subseteq _) Hg) as (_ & Hgs & Hsz & _).
  assert (Hin : b ∈ c_found c).
  { eapply (collect_first (sv_sizes Hserve) (ts_Store remote) (sv_memory Hserve)); [by rewrite cs_get_spec|exact Hg| | |exact Hc].
    - rewrite Hsz. apply total_size_nonneg, (sv_sizes Hserve).
    - pose proof (total_size_nonneg (sv_sizes Hserve) group). pose proof (total_size_subseteq (sv_sizes Hserve) _ _ Hgs).
      pose proof (sv_memory Hserve). rewrite u64_small; [lia|]. unfold two64. lia. }
  destruct (co_found _ _ _ _ Hcol b Hin) as (ent' & Hent' & _). pose proof (co_store _ _ _ _ Hcol) as Hsub.
  assert (ent' = ent) as -> by (pose proof (lookup_weaken _ _ _ _ Hent' Hsub); congruence).
  set (l := map snd (map_range site_stash_included [] (c_included c))).
  assert (Hl : forall e, e ∈ l -> rents !! ContentHash e = Some e /\ (exists h, put_hash e = Ok h) /\ self_addressed e).
  { intros e He. unfold l in He. apply list_elem_of_In, in_map_iff in He as ([h e0] & Heq & He). cbn in Heq. subst e0.
    apply list_elem_of_In, elem_of_map_range in He. pose proof (lookup_weaken _ _ _ _ He Hsub) as Hr.
    destruct (remote_self _ _ Hr) as (Hh & Hp & Hs). rewrite Hh. eauto. }
  destruct (put_all_reliable cs l) as [cs' Hput]; [intros e He; by apply Hl|].
  destruct (put_all_spec cs cs' l) as [Hst Hout]; [|done|].
  { apply Forall_forall. intros e He. by apply Hl. }
  exists cs'. rewrite Hput. split; [done|].
  assert (Hkey : forall e, e ∈ l -> entities cs' !! ContentHash e = Some e).
  { intros e He. destruct (Hst e He) as (e' & He' & Hh & Hlk). rewrite Hlk. f_equal.
    destruct (Hl e He) as [Hr _]. destruct (Hl e' He') as [Hr' _]. rewrite Hh in Hr'. congruence. }
  assert (Hcase : forall h, (exists e, e ∈ l /\ ContentHash e = h) \/ entities cs' !! h = entities cs !! h).
  { intros h. destruct (decide (Exists (fun e => ContentHash e = h) l)) as [(e & ? & ?)%Exists_exists|Hno]; [left; eauto|right].
    apply Hout. intros e He Hh. apply Hno, Exists_exists. eauto. }
  split; [|split].
  - apply map_subseteq_spec. intros h e He. destruct (Hcase h) as [(x & Hx & <-)| ->]; [|done].
    rewrite (Hkey x Hx). f_equal. symmetry. eapply Hag; [exact He|]. by apply Hl.
  - intros h e e' He He'. destruct (Hcase h) as [(x & Hx & <-)|Hsame].
    + rewrite (Hkey x Hx) in He. destruct (Hl x Hx) as [Hr _]. congruence.
    + rewrite Hsame in He. by eapply Hag.
  - rewrite Hb. destruct (remote_self _ _ Hb) as (Hh & _ & _). rewrite <- Hh. apply Hkey. unfold l.
    apply list_elem_of_In, in_map_iff. exists (b, ent). split; [done|]. by apply list_elem_of_In, elem_of_map_range.
Qed.

Lemma retry_from_peer b bs w cs : fits b -> agree (entities cs) rents ->
  exists cs', fetchWithPendingRetry alg DecodeErrorData ctx_err d ns (b :: bs) w cs = (w, cs', Ok tt)
    /\ entities cs ⊆ entities cs' /\ agree (entities cs') rents /\ entities cs' !! b = rents !! b.
Proof.
  intros Hf Hag. destruct (fetch_from_peer b bs w cs Hf Hag) as (cs' & Hfetched & Hrest). exists cs'. split; [|done].
  unfold fetchWithPendingRetry. cbn [retry_fetch]. rewrite (ft_alive Hfetch). by rewrite Hfetched.
Qed.

Lemma drain_from_peer fuel needed w cs : (length needed <= fuel)%nat -> (forall h, h ∈ needed -> fits h) ->
  agree (entities cs) rents ->
  exists cs', drain alg DecodeErrorData ctx_err fuel d ns needed w cs = Some (w, cs', Ok tt)
    /\ entities cs ⊆ entities cs' /\ agree (entities cs') rents /\ forall h, h ∈ needed -> entities cs' !! h = rents !! h.
Proof.
  revert needed cs. induction fuel as [|fuel IH]; intros [|b needed] cs Hf Hfit Hag; cbn [drain].
  1, 3: exists cs; split_and!; [done|done|done|by intros ? ?%elem_of_nil].
  { cbn in Hf. lia. }
  rewrite (ft_alive Hfetch). cbn [GetBatchSize take].
  destruct (retry_from_peer b (take 15 needed) w cs (Hfit b ltac:(by left)) Hag) as (cs1 & -> & Hs1 & Hag1 & Hb1).
  destruct (Hfit b ltac:(by left)) as (ent & ? & ? & Hrb & _).
  destruct (_ =? _)%nat eqn:Hstill.
  { exfalso. apply Nat.eqb_eq in Hstill. unfold missingFromStore in Hstill. cbn [List.filter] in Hstill.
    rewrite cs_get_spec, Hb1, Hrb in Hstill.
    pose proof (List.filter_length_le (fun h => match cs_Get cs1 h with Some _ => false | None => true end) (take 15 needed)).
    cbn [length] in Hstill. lia. }
  pose proof (missing_shrinks cs1 (b :: needed) 16 Hstill) as Hshrink. cbn [length] in Hshrink, Hf.
  destruct (IH (missingFromStore cs1 (b :: needed)) cs1) as (cs2 & -> & Hs2 & Hag2 & Hin2); [lia| |done|].
  { intros h [Hh _]%elem_of_missing. by apply Hfit. }
  exists cs2. split_and!; [done|by etransitivity|done|]. intros h Hh.
  destruct (entities cs1 !! h) as [e|] eqn:Hh1.
  - pose proof (lookup_weaken _ _ _ _ Hh1 Hs2) as Hh2. destruct (Hfit h Hh) as (ent' & ? & ? & Hr & _).
    rewrite Hh2, Hr. f_equal. by eapply Hag2.
  - apply Hin2, elem_of_missing. done.
Qed.

(** The closure of a blob of which everything fits arrives. *)
Lemma closure_from_peer blobHash blobEnt chunks w cs :
  rents !! blobHash = Some blobEnt -> Type_ blobEnt = TypeContentBlob -> blobChunkHashes blobEnt = Some chunks ->
  (forall h, h ∈ blobHash :: chunks -> fits h) -> agree (entities cs) rents ->
  IsZero blobHash = false -> ns <> "" ->
  exists cs', EnsureClosure alg DecodeErrorData ctx_err (Some d) blobHash ns w cs = Some (w, cs', Ok tt)
    /\ entities cs ⊆ entities cs' /\ forall h, h ∈ blobHash :: chunks -> entities cs' !! h = rents !! h.
Proof.
  intros Hb Hty Hch Hfit Hag Hz Hns. unfold EnsureClosure. rewrite Hz. apply String.eqb_neq in Hns as ->.
  cbn [d_carriesStore peer_dispatcher negb].
  assert (Hblob : exists cs1, ensure_blob alg DecodeErrorData ctx_err d ns blobHash w cs = (w, cs1, Ok tt)
            /\ entities cs ⊆ entities cs1 /\ agree (entities cs1) rents /\ entities cs1 !! blobHash = Some blobEnt).
  { unfold ensure_blob. rewrite cs_get_spec. destruct (entities cs !! blobHash) as [e|] eqn:He.
    - exists cs. split_and!; [done|done|done|]. rewrite He. f_equal. by eapply Hag.
    - destruct (retry_from_peer blobHash [] w cs (Hfit blobHash ltac:(by left)) Hag) as (cs1 & -> & Hs & Hag1 & Hl).
      rewrite cs_get_spec, Hl, Hb. exists cs1. by rewrite Hl. }
  destruct Hblob as (cs1 & -> & Hs1 & Hag1 & Hb1). rewrite cs_get_spec, Hb1, Hty, String.eqb_refl, Hch. cbn [negb].
  destruct (drain_from_peer (length (missingFromStore cs1 chunks)) (missingFromStore cs1 chunks) w cs1) as (cs2 & -> & Hs2 & Hag2 & Hin).
  { lia. } { intros h [Hh _]%elem_of_missing. apply Hfit. by right. } { done. }
  exists cs2. split_and!; [done|by etransitivity|]. intros h [->|Hh]%elem_of_cons.
  - rewrite Hb. by eapply lookup_weaken.
  - destruct (entities cs1 !! h) as [e|] eqn:Hh1.
    + pose proof (lookup_weaken _ _ _ _ Hh1 Hs2) as Hh2. destruct (Hfit h ltac:(by right)) as (ent' & ? & ? & Hr & _).
      rewrite Hh2, Hr. f_equal. by eapply Hag2.
    + apply Hin, elem_of_missing. done.
Qed.

(** C16: content travels.  A peer ingests a file, cut by either algorithm; another
    peer that asks it for the blob, in batches and within the frame budget of the
    connection, completes the closure, and its own store then gives the bytes of
    the file back.  What is asked of the two: every group of entities of the blob
    fits a frame, the stores do not hold different entities under one hash, the
    local medium does not fail and the call is not cancelled. *)
Theorem content_transfer (r0 : RS) (cs : CS) (w : W) (data : list byte) ranges chunking size blobEnt chunks h :
  0 < size < two64 -> data_len data <= 2 ^ 60 -> data_len data <= maxAlloc -> cut_by data size ranges ->
  BuildBlob alg data ranges chunking size = Some (Ok (blobEnt, chunks)) -> distinct_addresses (blobEnt :: chunks) ->
  IngestBlob alg data ranges chunking size r0 = Some (ts_Store remote, Ok h) ->
  (forall e, e ∈ blobEnt :: chunks -> fits (ContentHash e)) -> agree (entities cs) rents -> IsZero h = false -> ns <> "" ->
  exists cs', EnsureClosure alg DecodeErrorData ctx_err (Some d) h ns w cs = Some (w, cs', Ok tt)
    /\ entities cs ⊆ entities cs' /\ Reassemble maxAlloc cs' h = Some (Ok data).
Proof.
  intros Hsize Hlen Halloc Hcut Hb Hd Hi Hfit Hag Hz Hns.
  destruct (IngestBlob_stored alg _ _ _ _ _ _ _ _ _ Hb Hd Hi) as [-> Hst].
  pose proof (BuildBlob_built alg _ _ _ _ _ _ Hb) as Hbt. destruct (bt_blob _ _ _ _ Hbt) as (blob & Hdec & _ & Hck).
  destruct (closure_from_peer (ContentHash blobEnt) blobEnt (map ContentHash chunks) w cs) as (cs' & He & Hs & Hin);
    [by apply Hst; left|exact (bt_type _ _ _ _ Hbt)|unfold blobChunkHashes; rewrite Hdec; cbn; by rewrite Hck| |done|done|done|].
  { intros k [->|Hk]%elem_of_cons; [by apply Hfit; left|]. apply list_elem_of_In, in_map_iff in Hk as (e & <- & Hk).
    apply Hfit. right. by apply list_elem_of_In. }
  exists cs'. split_and!; [done|done|]. apply (Reassemble_stored maxAlloc cs' data ranges _ chunks Hbt); [by eapply cut_by_concat|done|].
  intros e Hel. rewrite Hin; [by apply Hst|]. apply elem_of_cons in Hel as [->|Hel]; [by left|right].
  apply list_elem_of_In, in_map_iff. exists e. split; [done|]. by apply list_elem_of_In.
Qed.
End transfer.
