(* ===== verification/ContentSample.v ===== *)
(** * Content on concrete parameters

    Two peers with in-memory stores and a codec for all data: a file is cut,
    stored, fetched in several requests and reassembled.  The last part records
    what the code lets through. *)

From S2P Require Import Prelude GoStrings Sha2 Errors Hash Entity PeerID Paths CapTypes Patterns Check Delegation Chain Revoked Store Handlers TreeIndex ConnectSample Chunker Content ContentSpec ContentSync.

Open Scope Z_scope.

Module ContentSample.
#[local] Existing Instances nibble58 toy_hashable default_order Sample.codec.

#[local] Instance Blob_eq : EqDecision ContentBlobData.
Proof. solve_decision. Defined.
#[local] Instance Blob_countable : Countable ContentBlobData.
Proof.
  refine (inj_countable' (fun d => (TotalSize d, ChunkSize d, Chunking d, Chunks d))
    (fun '(a, b, c, d) => Build_ContentBlobData a b c d) _). by intros [].
Defined.

(** The size of an entity is its number of data bytes. *)
#[local] Instance codec : ContentCodec := {|
  EncodeBlob d := Some (Wide.enc d); DecodeBlob := Wide.dec;
  EncodeChunk p := Some (Byte.x01 :: p); DecodeChunk d := match d with Byte.x01 :: p => Some p | _ => None end;
  DecodeDescriptor _ := None;
  EncodeGetHashes l := Some (Wide.enc l); DecodeGetHashes := Wide.dec;
  DecodeIngest d := match d with Byte.x02 :: raw => Some {| ir_Envelope := None; ir_Entity := Some raw |} | _ => None end;
  DecodeEntityRaw d := Some (toy_entity "value" d);
  DecodeEnvelopeRaw _ := None;
  EncodedSize e := Some (data_len (Data e)) |}.

#[local] Instance laws : ContentCodecLaws.
Proof. split; [intros d raw [= <-]; apply Wide.dec_enc|by intros d raw [= <-]]. Qed.

Abbreviation State := (TreeState MemoryContentStore MemoryLocationIndex MemoryCapabilityIndex).

(** A file of 24 bytes, in four chunks. *)
Definition file : list byte := sample_bytes.
Definition cuts : list ChunkRange := [mkRange 0 9; mkRange 9 18; mkRange 18 21; mkRange 21 24].
Definition made : Entity * list Entity :=
  Eval vm_compute in
  match BuildBlob AlgorithmSHA256 file cuts ChunkingFastCDC 8 with Some (Ok r) => r | _ => (no_entity, []) end.
Definition blobE : Entity := Eval vm_compute in fst made.
Definition chunkEs : list Entity := Eval vm_compute in snd made.
Definition rstore : MemoryContentStore :=
  list_to_map (map (fun e => (ContentHash e, e)) (reverse (chunkEs ++ [blobE]))).

Lemma made_built : BuildBlob AlgorithmSHA256 file cuts ChunkingFastCDC 8 = Some (Ok (blobE, chunkEs)).
Proof. vm_compute. reflexivity. Qed.

Lemma cuts_file : ChunkFastCDC file 8 = Some cuts.
Proof. vm_compute. reflexivity. Qed.

Lemma made_distinct : distinct_addresses (blobE :: chunkEs).
Proof.
  assert (Hnd : NoDup (map ContentHash (blobE :: chunkEs))) by (apply (bool_decide_unpack _); vm_compute; reflexivity).
  intros e e' [i Hi]%list_elem_of_lookup [j Hj]%list_elem_of_lookup Hh.
  assert (i = j) as <-; [|congruence].
  eapply (NoDup_lookup _ i j (ContentHash e) Hnd); rewrite list_lookup_fmap; [by rewrite Hi|by rewrite Hj, Hh].
Qed.

(** The store of the peer that ingests the file. *)
Definition stored : MemoryContentStore :=
  match IngestBlob AlgorithmSHA256 file cuts ChunkingFastCDC 8 (∅ : MemoryContentStore) with Some (cs, _) => cs | None => ∅ end.

Lemma ingested : IngestBlob AlgorithmSHA256 file cuts ChunkingFastCDC 8 (∅ : MemoryContentStore) = Some (stored, Ok (ContentHash blobE)).
Proof.
  unfold stored.
  assert (Hr : snd <$> IngestBlob AlgorithmSHA256 file cuts ChunkingFastCDC 8 (∅ : MemoryContentStore) = Some (Ok (ContentHash blobE)))
    by (vm_compute; reflexivity).
  destruct (IngestBlob AlgorithmSHA256 file cuts ChunkingFastCDC 8 ∅) as [[cs r]|]; [|discriminate Hr].
  cbn in Hr. injection Hr as ->. reflexivity.
Qed.

Definition maxAlloc : Z := 2 ^ 48.

Lemma ingest_reassemble_witness :
  Reassemble maxAlloc stored (ContentHash blobE) = Some (Ok file).
Proof.
  refine (proj2 (ingest_reassemble AlgorithmSHA256 maxAlloc ∅ stored stored file cuts ChunkingFastCDC 8 blobE chunkEs (ContentHash blobE)
    _ _ _ _ made_built made_distinct ingested _)).
  - done.
  - vm_compute. discriminate.
  - vm_compute. discriminate.
  - left. exact cuts_file.
  - reflexivity.
Defined.

(** *** Between two peers *)

Definition hctx : HandlerContext := {|
  hc_Author := Sample.local; hc_AuthorHash := zero_hash; hc_LocalPeerID := Sample.local; hc_CallerCapability := no_entity;
  hc_HandlerGrant := no_entity; hc_Resource := None; hc_HandlerPattern := "system/content"; hc_RequestID := "r";
  hc_Bounds := None; hc_ChainDepth := 0; hc_ReactiveTrigger := false; hc_Included := ∅ |}.
Definition remote : State := {| ts_Store := stored; ts_Index := ∅; ts_CapIndex := None |}.
Definition ns : string := "system/content".
Definition no_error_data (_ : list byte) : option (string * string) := None.
Definition never (_ : unit) : bool := false.

Lemma sizes_nonneg e n : EncodedSize e = Some n -> 0 <= n.
Proof. intros [= <-]. unfold data_len. lia. Qed.

Lemma serves : serving hctx remote ns.
Proof.
  split.
  - exact sizes_nonneg.
  - apply Z.ltb_lt. vm_compute. reflexivity.
  - intros h e _. by eexists.
  - assert (Hm : map_Forall (fun h e => ContentHash e = h /\ ComputeFormat (Algorithm h) (Type_ e) (Data e) = Ok h) stored)
      by (apply (bool_decide_unpack _); vm_compute; reflexivity).
    intros h e He. exact (Hm h e He).
  - vm_compute. reflexivity.
Qed.

Lemma fetches : @fetching unit MemoryContentStore _ _ _ AlgorithmSHA256 never ns.
Proof.
  split.
  - intros l _. unfold get_request. cbn [EncodeGetHashes codec of_option res_bind res_map_err]. unfold Ent.NewEntity, Ent.NewEntityFormat.
    change (String.eqb TypeContentGetRequest "") with false. change (String.eqb TypeContentGetRequest Ent.typeFloorPinned) with false.
    destruct (Wide.enc l) as [|b raw] eqn:He; [by apply Wide.enc_nonempty in He|]. cbn [length Nat.eqb andb].
    unfold ComputeFormat, OfBytes. cbn [EncodeHashable toy_hashable of_option res_bind]. rewrite decide_True by done.
    eexists _, _. split; reflexivity.
  - intros l raw [= <-]. unfold decode_hashes. destruct (Wide.enc l) as [|b raw] eqn:He; [by apply Wide.enc_nonempty in He|].
    rewrite <- He. apply Wide.dec_enc.
  - intros cs e h Hh. cbn [cs_Put memory_content_store]. rewrite MemPut_hash. by rewrite Hh.
  - done.
Qed.

Definition fits_b (h : Hash) : bool :=
  match stored !! h with
  | Some ent => match buildIncludeGroup stored h ent ∅ with Ok (_, size) => size <=? response_limit (frameBudget None) | Err _ => false end
  | None => false
  end.

Lemma fits_fits h : fits_b h = true -> fits None remote h.
Proof.
  unfold fits_b, fits. cbn [ts_Store remote]. intros Hf. change (entities stored) with stored.
  destruct (stored !! h) as [ent|]; [|done].
  destruct (buildIncludeGroup stored h ent ∅) as [[group size]|] eqn:Hg; [|done]. apply Z.leb_le in Hf.
  exists ent, group, size. rewrite Hg. done.
Qed.

Lemma all_fit : all (fun e => fits_b (ContentHash e)) (blobE :: chunkEs) = true.
Proof. vm_compute. reflexivity. Qed.

(** A peer with an empty store asks for the file. *)
Lemma content_transfer_witness :
  exists cs', EnsureClosure AlgorithmSHA256 no_error_data never (Some (peer_dispatcher None hctx remote)) (ContentHash blobE) ns tt
                (∅ : MemoryContentStore) = Some (tt, cs', Ok tt)
    /\ Reassemble maxAlloc cs' (ContentHash blobE) = Some (Ok file).
Proof.
  destruct (content_transfer AlgorithmSHA256 maxAlloc no_error_data never None hctx remote ns serves fetches (∅ : MemoryContentStore)
    (∅ : MemoryContentStore) tt file cuts ChunkingFastCDC 8 blobE chunkEs (ContentHash blobE)) as (cs' & He & _ & Hr).
  - done.
  - vm_compute. discriminate.
  - vm_compute. discriminate.
  - left. exact cuts_file.
  - exact made_built.
  - exact made_distinct.
  - exact ingested.
  - intros e Hin. apply fits_fits. exact (proj1 (all_true _ _) all_fit e Hin).
  - intros h e e' He. discriminate He.
  - vm_compute. reflexivity.
  - discriminate.
  - exists cs'. exact (conj He Hr).
Defined.

(** The handler at the other end, asked for the blob: the four chunks travel with it. *)
Definition ask : list byte := Wide.enc [ContentHash blobE; zero_hash].
Definition asked : State * result ContentResponse :=
  handleGet None None (with_resource hctx (Some {| Targets := [ns]; rt_Exclude := [] |})) ask remote.
Definition reply : ContentResponse := match snd asked with Ok r => r | Err _ => content_error 0 "" end.

Lemma asked_reply : asked = (fst asked, Ok reply).
Proof.
  assert (Hok : is_ok (snd asked) = true) by (vm_compute; reflexivity).
  unfold reply. destruct asked as [st [r|e]]; [reflexivity|discriminate Hok].
Qed.


(** ** What the code lets through *)

(** The capability check of an ingest is made for the empty path, whatever the
    resource of the request is: a caller whose capability covers the namespace and
    nothing else passes the check of that namespace and fails the one that is made. *)
Definition public_grant : GrantEntry := {|
  Handlers := mkScope ["system/content"] []; Resources := mkScope ["system/content/public"; "system/content/public/*"] [];
  Operations := mkScope ["ingest"] []; Peers := None; Constraints := []; Allowances := [] |}.
Definition public_cap : CapabilityTokenData := {|
  Grants := [public_grant]; Granter_ := SingleSigGranter zero_hash; Grantee := zero_hash; Parent := None; CreatedAt := 0;
  ExpiresAt := None; NotBefore := None; DelegationCaveats := None |}.

Lemma ingest_check_path :
  (forall (cs : MemoryContentStore) now r, ingest_denied now (with_resource hctx r) cs = ingest_denied now hctx cs)
  /\ CheckPathPermission 0 "ingest" "system/content/public" public_cap "system/content" Sample.local Sample.local = true
  /\ CheckPathPermission 0 "ingest" "" public_cap "system/content" Sample.local Sample.local = false.
Proof. split; [reflexivity|]. split; vm_compute; reflexivity. Qed.
End ContentSample.
