(* ===== verification/CapHandler.v ===== *)
(** * The capability handler ([ext/capability/handler.go])

    The handler of [system/capability]: [request] mints a root token within the
    capability of the caller and the policy entry of the peer, [delegate] a child
    of a token the local peer holds, [revoke] writes a marker and unbinds the
    token, [configure] writes a policy entry.  A policy entry that is bound under
    the Base58 form of a peer is moved to the hexadecimal form when it is first
    used.

    [ready] is the authority that [SetupAuthority] wires.  The clock readings are
    arguments: [now_check] is read by the path checks of a write, [createdAt] and
    [revokedAt] by the operation.  [alg] is the authoring format of
    [entity.NewEntity].  The entity that carries the payload of a response is
    left out; [None] is the panic of a signature with a key of unknown type. *)

From Stdlib Require Import Ascii.
From S2P Require Import Prelude GoStrings Errors Hash Entity PeerID Paths CapTypes Patterns Check Delegation Chain Requests Revoked Store Handlers TreeIndex Connect.

Open Scope Z_scope.

(** ** Data *)

Definition TypeCapRevocation : string := "system/capability/revocation".
Definition TypeCapPolicyEntry : string := "system/capability/policy-entry".
Definition PolicyPathPrefix : string := "system/capability/policy".
Definition policyFallbackSegment : string := "default".
Definition peerPatternHexLenSHA256 : nat := 66.
Definition peerPatternHexLenSHA384 : nat := 98.

(** The [ttl_ms] fields are [uint64]. *)
Record CapabilityRequestData := { cq_Grants : list GrantEntry; cq_TTLMs : option Z }.
Record CapabilityDelegateRequestData := { dq_Parent : Hash; dq_Grants : list GrantEntry; dq_TTLMs : option Z }.
Record CapabilityRevokeRequestData := { vq_Token : Hash; vq_Reason : string }.
Record CapabilityRevocationData := { rv_Token : Hash; rv_Reason : string; RevokedAt : Z }.

Class CapHandlerCodec := {
  DecodeCapRequest : list byte -> option CapabilityRequestData;
  DecodeDelegateRequest : list byte -> option CapabilityDelegateRequestData;
  DecodeRevokeRequest : list byte -> option CapabilityRevokeRequestData;
  EncodeRevocation : CapabilityRevocationData -> option (list byte);
  EncodePolicyEntry : CapabilityPolicyEntryData -> option (list byte);
  DecodePolicyData : list byte -> option CapabilityPolicyEntryData
}.

(** What is documented of the codec. *)
Class PolicyCodecLaws `{CapHandlerCodec} := {
  policy_roundtrip d raw : EncodePolicyEntry d = Some raw -> DecodePolicyData raw = Some d
}.

Inductive CapResult :=
| CapError (code : string)
| CapGranted (token : Hash)
| CapRevoked (marker : CapabilityRevocationData)
| CapConfigured (entry : CapabilityPolicyEntryData).

Record CapResponse := mkCapResponse { cp_Status : Z; cp_Result : CapResult; cp_Included : gmap Hash Entity }.

Definition cap_error (status : Z) (code : string) : CapResponse := mkCapResponse status (CapError code) ∅.

(** ** Expiry *)

Definition clamp (out : option Z) (candidate : Z) : option Z :=
  match out with None => Some candidate | Some o => if candidate <? o then Some candidate else out end.

Definition addTTL (createdAt ttl : Z) : option Z :=
  let sum := u64 (createdAt + ttl) in if sum <? createdAt then None else Some sum.

Definition clamp_term (createdAt : Z) (out : option Z) (ttl : option Z) : option Z :=
  match ttl with
  | None => out
  | Some ttl => match addTTL createdAt ttl with Some v => clamp out v | None => out end
  end.

Definition clampMintExpiry (createdAt : Z) (callerExp policyTTLMs reqTTLMs : option Z) : option Z :=
  let out := match callerExp with Some e => clamp None e | None => None end in
  clamp_term createdAt (clamp_term createdAt out policyTTLMs) reqTTLMs.

(** ** Patterns of policy entries *)

Definition isHexChar (c : ascii) : bool :=
  let n := N_of_ascii c in ((48 <=? n) && (n <=? 57) || (97 <=? n) && (n <=? 102))%N.

Definition isHexString (s : string) : bool := str_forallb isHexChar s.

Section handler.
Context {CS L IX : Type} `{ContentStoreLaws CS} `{LocationIndex L} `{CapabilityIndex IX}.
Context `{Base58, DataCodec, TokenEncoding, KeySigning, CapHandlerCodec}.
Context (alg : byte) (now_check : Z) (cw : option (ContextualWriter L)).
Abbreviation State := (TreeState CS L IX).
Implicit Types (hctx : HandlerContext) (st : State).

Definition validatePeerPattern (p : string) : bool :=
  if String.eqb p policyFallbackSegment then true
  else if Contains p "*" then false
  else if ((slen p =? peerPatternHexLenSHA256) || (slen p =? peerPatternHexLenSHA384))%nat then isHexString p
  else is_ok (PeerID_Validate p).

(** ** Policy entries *)

Definition policy_path (pattern : string) : string := PolicyPathPrefix +:+ "/" +:+ pattern.

Definition readPolicyEntry st (pattern : string) : option CapabilityPolicyEntryData :=
  match Get (ts_Index st) (policy_path pattern) with
  | None => None
  | Some h => match cs_Get (ts_Store st) h with None => None | Some ent => DecodePolicyData (Data ent) end
  end.

Definition Policy_ToEntity (d : CapabilityPolicyEntryData) : result Entity :=
  let! raw := of_option [] (EncodePolicyEntry d) in Ent.NewEntity alg TypeCapPolicyEntry raw.

Definition with_pattern (d : CapabilityPolicyEntryData) (pattern : string) : CapabilityPolicyEntryData := {|
  pe_PeerPattern := pattern; pe_Grants := pe_Grants d; pe_TTLMs := pe_TTLMs d; pe_Notes := pe_Notes d |}.

Definition canonicalizePolicyEntry hctx st (entry : CapabilityPolicyEntryData) (hexPattern base58Pattern : string) : State :=
  match Policy_ToEntity (with_pattern entry hexPattern) with
  | Err _ => st
  | Ok canonicalEnt =>
      match cs_Put (ts_Store st) canonicalEnt with
      | (cs, Err _) => with_store st cs
      | (cs, Ok _) =>
          match TreeSet now_check cw hctx (with_store st cs) (policy_path hexPattern) (ContentHash canonicalEnt) "capability-canonicalize" with
          | (st, _, Err _) => st
          | (st, _, Ok _) =>
              fst (fst (TreeRemove now_check cw hctx st (policy_path base58Pattern) "capability-canonicalize"))
          end
      end
  end.

Definition lookupPolicy hctx st (caller : Hash) (callerPeerID : PeerID) : State * option CapabilityPolicyEntryData :=
  let callerHex := hex_encode (Bytes caller) in
  match readPolicyEntry st callerHex with
  | Some entry => (st, Some entry)
  | None =>
      match (if (0 <? slen callerPeerID)%nat then readPolicyEntry st callerPeerID else None) with
      | Some entry => (canonicalizePolicyEntry hctx st entry callerHex callerPeerID, Some entry)
      | None => (st, readPolicyEntry st policyFallbackSegment)
      end
  end.

(** ** Minting *)

Definition grants_only (grants : list GrantEntry) : CapabilityTokenData := {|
  Grants := grants; Granter_ := SingleSigGranter zero_hash; Grantee := zero_hash; Parent := None; CreatedAt := 0;
  ExpiresAt := None; NotBefore := None; DelegationCaveats := None |}.

Definition requireAttenuation (child parent : list GrantEntry) (localPeerID : PeerID) : bool :=
  IsAttenuated (grants_only child) (grants_only parent) localPeerID localPeerID localPeerID.

Definition capabilityChainResolver hctx st (h : Hash) : option Entity :=
  match cs_Get (ts_Store st) h with Some ent => Some ent | None => hc_Included hctx !! h end.

(** The peer id of the identity entity of a granter. *)
Definition granter_peer_id (granterEnt : Entity) : option PeerID :=
  match PeerDataFromEntity granterEnt with
  | Err _ => None
  | Ok granterData =>
      match PeerData_KeyTypeByte granterData with
      | None => None
      | Some ktByte => match PeerIDFromPublicKey (PublicKey granterData) ktByte with Ok p => Some p | Err _ => None end
      end
  end.

(** What a link of the chain adds. *)
Definition link_included hctx st (included : gmap Hash Entity) (link : Entity) : gmap Hash Entity :=
  let resolve := capabilityChainResolver hctx st in
  let included := <[ContentHash link := link]> included in
  match CapabilityTokenDataFromEntity link with
  | Err _ => included
  | Ok capData =>
      match SingleHash (Granter_ capData) with
      | None => included
      | Some granterHash =>
          match resolve granterHash with
          | None => included
          | Some granterEnt =>
              let included := <[granterHash := granterEnt]> included in
              match granter_peer_id granterEnt with
              | None => included
              | Some granterPID =>
                  match Get (ts_Index st) (InvariantSignaturePath granterPID (ContentHash link)) with
                  | None => included
                  | Some sigHash => match resolve sigHash with Some sigEnt => <[sigHash := sigEnt]> included | None => included end
                  end
              end
          end
      end
  end.

Definition addChainToIncluded hctx st (included : gmap Hash Entity) (cap : Entity) : gmap Hash Entity :=
  match CollectAuthorityChain cap (capabilityChainResolver hctx st) with
  | Err _ => included
  | Ok chain => fold_left (link_included hctx st) chain included
  end.

(** The three puts, in order; the store of the first failure is kept. *)
Fixpoint put_entities (cs : CS) (l : list Entity) : CS * bool :=
  match l with
  | [] => (cs, true)
  | e :: l => match cs_Put cs e with (cs, Err _) => (cs, false) | (cs, Ok _) => put_entities cs l end
  end.

Definition mintAndReturn hctx st (keypair : Keypair) (identity : Entity) (childData : CapabilityTokenData)
  : option (State * CapResponse) :=
  match Token_ToEntity alg childData with
  | Err _ => Some (st, cap_error 500 "internal_error")
  | Ok capEnt =>
      match Sign keypair (Bytes (ContentHash capEnt)) with
      | None => None
      | Some sig =>
          Some match Signature_ToEntity alg {|
                       Target := ContentHash capEnt; Signer := ContentHash identity;
                       sig_Algorithm := KeyTypeString (kp_KeyType keypair); Signature := sig |} with
          | Err _ => (st, cap_error 500 "internal_error")
          | Ok sigEnt =>
              let '(cs, stored) := put_entities (ts_Store st) [identity; capEnt; sigEnt] in
              let st := with_store st cs in
              if negb stored then (st, cap_error 500 "internal_error")
              else
                let leaf := <[ContentHash identity := identity]> (<[ContentHash sigEnt := sigEnt]> {[ ContentHash capEnt := capEnt ]}) in
                let included :=
                  match Parent childData with
                  | None => leaf
                  | Some p => match capabilityChainResolver hctx st p with
                              | Some parentEnt => addChainToIncluded hctx st leaf parentEnt
                              | None => leaf
                              end
                  end in
                (st, mkCapResponse 200 (CapGranted (ContentHash capEnt)) included)
          end
      end
  end.

(** ** The operations *)

Context (ready : option (Keypair * Entity)).

Definition requested_token (identity : Entity) (grantee : Hash) (grants : list GrantEntry) (parent : option Hash)
    (createdAt : Z) (expiresAt : option Z) : CapabilityTokenData := {|
  Grants := grants; Granter_ := SingleSigGranter (ContentHash identity); Grantee := grantee; Parent := parent;
  CreatedAt := createdAt; ExpiresAt := expiresAt; NotBefore := None; DelegationCaveats := None |}.

Definition cap_handleRequest hctx st (params : list byte) (createdAt : Z) : option (State * CapResponse) :=
  match ready with
  | None => Some (st, cap_error 503 "authority_not_ready")
  | Some (keypair, identity) =>
      if negb (has_caller hctx) then Some (st, cap_error 401 "unauthenticated")
      else match DecodeCapRequest params with
      | None => Some (st, cap_error 400 "invalid_params")
      | Some rr =>
          if (length (cq_Grants rr) =? 0)%nat then Some (st, cap_error 400 "invalid_params")
          else if negb (String.eqb (FirstUnmatchableScopePattern (cq_Grants rr)) "") then Some (st, cap_error 400 "invalid_path")
          else match CapabilityTokenDataFromEntity (hc_CallerCapability hctx) with
          | Err _ => Some (st, cap_error 500 "internal_error")
          | Ok parentCap =>
              if negb (requireAttenuation (cq_Grants rr) (Grants parentCap) (hc_LocalPeerID hctx))
              then Some (st, cap_error 403 "scope_exceeds_authority")
              else
                let '(st, policy) := lookupPolicy hctx st (hc_AuthorHash hctx) (hc_Author hctx) in
                if match policy with
                   | Some p => negb (requireAttenuation (cq_Grants rr) (pe_Grants p) (hc_LocalPeerID hctx))
                   | None => false
                   end
                then Some (st, cap_error 403 "scope_exceeds_authority")
                else
                  let expiresAt := clampMintExpiry createdAt (ExpiresAt parentCap) (policy ≫= pe_TTLMs) (cq_TTLMs rr) in
                  mintAndReturn hctx st keypair identity
                    (requested_token identity (hc_AuthorHash hctx) (cq_Grants rr) None createdAt expiresAt)
          end
      end
  end.

Definition cap_handleDelegate hctx st (params : list byte) (createdAt : Z) : option (State * CapResponse) :=
  match ready with
  | None => Some (st, cap_error 503 "authority_not_ready")
  | Some (keypair, identity) =>
      if negb (has_caller hctx) then Some (st, cap_error 401 "unauthenticated")
      else if negb (bool_decide (hc_AuthorHash hctx = ContentHash identity)) then Some (st, cap_error 501 "unsupported_operation")
      else match DecodeDelegateRequest params with
      | None => Some (st, cap_error 400 "invalid_params")
      | Some dr =>
          if IsZero (dq_Parent dr) then Some (st, cap_error 400 "invalid_params")
          else if (length (dq_Grants dr) =? 0)%nat then Some (st, cap_error 400 "invalid_params")
          else if negb (String.eqb (FirstUnmatchableScopePattern (dq_Grants dr)) "") then Some (st, cap_error 400 "invalid_path")
          else match capabilityChainResolver hctx st (dq_Parent dr) with
          | None => Some (st, cap_error 404 "parent_not_found")
          | Some parentEnt =>
              if negb (String.eqb (Type_ parentEnt) TypeCapToken) then Some (st, cap_error 400 "invalid_parent")
              else match CapabilityTokenDataFromEntity parentEnt with
              | Err _ => Some (st, cap_error 500 "internal_error")
              | Ok parentData =>
                  if negb (bool_decide (Grantee parentData = hc_AuthorHash hctx)) then Some (st, cap_error 403 "scope_exceeds_authority")
                  else if negb (requireAttenuation (dq_Grants dr) (Grants parentData) (hc_LocalPeerID hctx))
                  then Some (st, cap_error 403 "scope_exceeds_authority")
                  else
                    let expiresAt := clampMintExpiry createdAt (ExpiresAt parentData) None (dq_TTLMs dr) in
                    mintAndReturn hctx st keypair identity
                      (requested_token identity (hc_AuthorHash hctx) (dq_Grants dr) (Some (ContentHash parentEnt)) createdAt expiresAt)
              end
          end
      end
  end.

Definition Revocation_ToEntity (d : CapabilityRevocationData) : result Entity :=
  let! raw := of_option [] (EncodeRevocation d) in Ent.NewEntity alg TypeCapRevocation raw.

Definition cap_handleRevoke hctx st (params : list byte) (revokedAt : Z) : State * CapResponse :=
  match ready with
  | None => (st, cap_error 503 "authority_not_ready")
  | Some _ =>
      match DecodeRevokeRequest params with
      | None => (st, cap_error 400 "invalid_params")
      | Some rr =>
          if IsZero (vq_Token rr) then (st, cap_error 400 "invalid_params")
          else
            let marker := {| rv_Token := vq_Token rr; rv_Reason := vq_Reason rr; RevokedAt := revokedAt |} in
            match Revocation_ToEntity marker with
            | Err _ => (st, cap_error 500 "internal_error")
            | Ok markerEnt =>
                match cs_Put (ts_Store st) markerEnt with
                | (cs, Err _) => (with_store st cs, cap_error 500 "internal_error")
                | (cs, Ok _) =>
                    match TreeSet now_check cw hctx (with_store st cs) (RevocationPathFor (vq_Token rr)) (ContentHash markerEnt) "capability-revoke" with
                    | (st, _, Err _) => (st, cap_error 500 "internal_error")
                    | (st, _, Ok _) =>
                        let st := match CapabilityPathFor (ts_CapIndex st) (vq_Token rr) with
                                  | Some capPath => fst (fst (TreeRemove now_check cw hctx st capPath "capability-revoke"))
                                  | None => st
                                  end in
                        (st, mkCapResponse 200 (CapRevoked marker) ∅)
                    end
                end
            end
      end
  end.

Definition cap_handleConfigure hctx st (params : list byte) : State * CapResponse :=
  match ready with
  | None => (st, cap_error 503 "authority_not_ready")
  | Some _ =>
      match DecodePolicyData params with
      | None => (st, cap_error 400 "invalid_params")
      | Some pe =>
          if negb (validatePeerPattern (pe_PeerPattern pe)) then (st, cap_error 400 "invalid_params")
          else match Policy_ToEntity pe with
          | Err _ => (st, cap_error 500 "internal_error")
          | Ok entryEnt =>
              match cs_Put (ts_Store st) entryEnt with
              | (cs, Err _) => (with_store st cs, cap_error 500 "internal_error")
              | (cs, Ok _) =>
                  match TreeSet now_check cw hctx (with_store st cs) (policy_path (pe_PeerPattern pe)) (ContentHash entryEnt) "capability-configure" with
                  | (st, _, Err _) => (st, cap_error 500 "internal_error")
                  | (st, _, Ok _) => (st, mkCapResponse 200 (CapConfigured pe) ∅)
                  end
              end
          end
      end
  end.

(** [now_op] is the reading of the clock by the operation. *)
Definition cap_Handle hctx st (operation : string) (params : list byte) (now_op : Z) : option (State * CapResponse) :=
  if String.eqb operation "request" then cap_handleRequest hctx st params now_op
  else if String.eqb operation "delegate" then cap_handleDelegate hctx st params now_op
  else if String.eqb operation "revoke" then Some (cap_handleRevoke hctx st params now_op)
  else if String.eqb operation "configure" then Some (cap_handleConfigure hctx st params)
  else Some (st, cap_error 501 "unsupported_operation").
End handler.
