(* ===== verification/CapMint.v ===== *)
(** * What the capability handler mints, revokes and configures *)

From Stdlib Require Import Ascii.
From S2P Require Import Prelude GoStrings Errors Hash Entity PeerID Paths CapTypes Patterns Check Delegation Chain Requests Revoked Store Handlers TreeIndex TreeHandler Connect Chunker Content ContentSpec CapHandler.

Open Scope Z_scope.

(** ** Expiry *)

(** The terms that are defined: the expiry of the bound, and the lifetimes that do
    not overflow, counted from the creation. *)
Definition expiry_term (createdAt : Z) (callerExp policyTTL reqTTL : option Z) (t : Z) : Prop :=
  callerExp = Some t
  \/ exists ttl, (policyTTL = Some ttl \/ reqTTL = Some ttl) /\ createdAt + ttl < two64 /\ t = createdAt + ttl.

Lemma addTTL_spec createdAt ttl : 0 <= createdAt < two64 -> 0 <= ttl < two64 ->
  addTTL createdAt ttl = if createdAt + ttl <? two64 then Some (createdAt + ttl) else None.
Proof.
  intros Hc Ht. unfold addTTL, u64. destruct (Z.ltb_spec (createdAt + ttl) two64).
  - rewrite Z.mod_small by lia. destruct (Z.ltb_spec (createdAt + ttl) createdAt); [lia|done].
  - rewrite <- (Z_mod_plus_full _ (-1)). rewrite Z.mod_small by lia.
    destruct (Z.ltb_spec (createdAt + ttl + -1 * two64) createdAt); [done|lia].
Qed.

(** [least P o]: [o] is the least number that satisfies [P], [None] when none does. *)
Definition least (P : Z -> Prop) (o : option Z) : Prop :=
  match o with Some e => P e /\ forall t, P t -> e <= t | None => forall t, ~ P t end.

Lemma clamp_term_least P createdAt out ttl : 0 <= createdAt < two64 -> (forall t, ttl = Some t -> 0 <= t < two64) ->
  least P out ->
  least (fun t => P t \/ exists x, ttl = Some x /\ createdAt + x < two64 /\ t = createdAt + x) (clamp_term createdAt out ttl).
Proof.
  intros Hc Ht Hl. unfold clamp_term. destruct ttl as [x|].
  2: { destruct out as [o|]; cbn in *.
       - destruct Hl as [Ho Hmin]. split; [by left|]. intros t [?|(? & ? & _)]; [auto|done].
       - intros t [?|(? & ? & _)]; [by eapply Hl|done]. }
  rewrite addTTL_spec by auto. destruct (Z.ltb_spec (createdAt + x) two64) as [Hfit|Hover].
  2: { destruct out as [o|]; cbn in *.
       - destruct Hl as [Ho Hmin]. split; [by left|]. intros t [?|(y & [= <-] & ? & _)]; [auto|lia].
       - intros t [?|(y & [= <-] & ? & _)]; [by eapply Hl|lia]. }
  unfold clamp. destruct out as [o|]; cbn [least] in *.
  - destruct Hl as [Ho Hmin]. destruct (Z.ltb_spec (createdAt + x) o); cbn [least].
    + split; [right; eauto|]. intros t [Hp|(y & [= <-] & _ & ->)]; [|lia]. specialize (Hmin t Hp). lia.
    + split; [by left|]. intros t [Hp|(y & [= <-] & _ & ->)]; [auto|lia].
  - split; [right; eauto|]. intros t [Hp|(y & [= <-] & _ & ->)]; [by apply Hl in Hp|lia].
Qed.

Lemma least_ext P Q o : (forall t, P t <-> Q t) -> least P o -> least Q o.
Proof.
  intros He. destruct o as [e|]; cbn.
  - intros [Hp Hm]. split; [by apply He|]. intros t Ht. by apply Hm, He.
  - intros Hn t Ht. by apply (Hn t), He.
Qed.

(** The expiry of a minted token is the least term that is defined: a lifetime of
    zero is a term, one that overflows is not, and without any term the token
    does not expire. *)
Theorem clampMintExpiry_least createdAt callerExp policyTTL reqTTL :
  0 <= createdAt < two64 ->
  (forall t, policyTTL = Some t -> 0 <= t < two64) -> (forall t, reqTTL = Some t -> 0 <= t < two64) ->
  least (expiry_term createdAt callerExp policyTTL reqTTL) (clampMintExpiry createdAt callerExp policyTTL reqTTL).
Proof.
  intros Hc Hp Hr. unfold clampMintExpiry.
  assert (H0 : least (fun t => callerExp = Some t) (match callerExp with Some e => clamp None e | None => None end)).
  { destruct callerExp as [e|]; cbn; [|done]. split; [done|]. intros t [= ->]. lia. }
  apply (clamp_term_least _ createdAt _ policyTTL Hc Hp) in H0. apply (clamp_term_least _ createdAt _ reqTTL Hc Hr) in H0.
  eapply least_ext; [|exact H0]. intros t. unfold expiry_term. cbn. split.
  - intros [[?|(x & ? & ? & ?)]|(x & ? & ? & ?)]; [by left|right; exists x; auto..].
  - intros [?|(x & [?|?] & ? & ?)]; [by left; left|left; right; eauto|right; eauto].
Qed.

Lemma clampMintExpiry_caller createdAt pe policyTTL reqTTL : exists e,
  clampMintExpiry createdAt (Some pe) policyTTL reqTTL = Some e /\ e <= pe.
Proof.
  unfold clampMintExpiry. cbn [clamp].
  assert (Hs : forall o ttl, o <= pe -> exists e, clamp_term createdAt (Some o) ttl = Some e /\ e <= pe).
  { intros o ttl Ho. unfold clamp_term. destruct ttl as [x|]; [|eauto]. destruct (addTTL createdAt x) as [v|]; [|eauto].
    unfold clamp. destruct (Z.ltb_spec v o); [|eauto]. exists v. split; [done|lia]. }
  destruct (Hs pe policyTTL ltac:(lia)) as (e1 & -> & H1). destruct (Hs e1 reqTTL H1) as (e2 & -> & H2). eauto.
Qed.

(** ** Minting *)

Section mint.
Context {CS L IX : Type} `{ContentStoreLaws CS} `{LocationIndex L} `{CapabilityIndex IX}.
Context `{Base58Laws, DataCodec, TokenEncoding, KeySigning, CapHandlerCodec}.
Context (alg : byte) (now_check : Z) (cw : option (ContextualWriter L)) (ready : option (Keypair * Entity)).
Implicit Types (hctx : HandlerContext) (st : TreeState CS L IX).

(** The subset check against the bound, with an expiry that it bounds, is the
    check of the chain. *)
Lemma require_attenuated child parent lp :
  requireAttenuation (Grants child) (Grants parent) lp = true ->
  (forall pe, ExpiresAt parent = Some pe -> exists e, ExpiresAt child = Some e /\ e <= pe) ->
  IsAttenuated child parent lp lp lp = true.
Proof.
  unfold requireAttenuation. rewrite !IsAttenuated_iff. intros [Hg _] He. split; [exact Hg|].
  intros pe Hpe. destruct (He pe Hpe) as (e & ? & ?). eauto.
Qed.

(** What minting returns: the hash of the token, with an entity of that hash in the
    response. *)
Lemma mint_returns hctx st kp ide d st' resp tok :
  mintAndReturn alg hctx st kp ide d = Some (st', resp) -> cp_Result resp = CapGranted tok ->
  exists capEnt, Token_ToEntity alg d = Ok capEnt /\ tok = ContentHash capEnt /\ cp_Status resp = 200
    /\ (Parent d = None -> exists e, cp_Included resp !! tok = Some e /\ ContentHash e = tok).
Proof.
  unfold mintAndReturn. destruct (Token_ToEntity alg d) as [capEnt|]; [|by intros [= <- <-]].
  destruct (Sign _ _) as [sig|]; [|done]. destruct (Signature_ToEntity _ _) as [sigEnt|]; [|by intros [= <- <-]].
  destruct (put_entities _ _) as [cs [|]]; cbn [negb]; [|by intros [= <- <-]].
  intros [= <- <-] [= <-]. exists capEnt. split_and!; [done|done|done|]. intros ->. cbn [cp_Included].
  destruct (decide (ContentHash ide = ContentHash capEnt)) as [He|Hne]; [exists ide; by rewrite He, lookup_insert_eq|].
  rewrite lookup_insert_ne by done.
  destruct (decide (ContentHash sigEnt = ContentHash capEnt)) as [He|Hns]; [exists sigEnt; by rewrite He, lookup_insert_eq|].
  rewrite lookup_insert_ne by done. exists capEnt. by rewrite lookup_singleton_eq.
Qed.


(** [delegate] mints a child of a token that the local peer holds itself: the
    grants are a subset of that token's, the child does not outlive it, and is
    accepted as a link below it, both granted by the local peer. *)
Theorem delegate_within_parent hctx st params createdAt st' resp tok :
  cap_handleDelegate alg ready hctx st params createdAt = Some (st', resp) -> cp_Result resp = CapGranted tok ->
  exists ide dr parentEnt parentData capEnt d,
    snd <$> ready = Some ide /\ DecodeDelegateRequest params = Some dr /\ capabilityChainResolver hctx st (dq_Parent dr) = Some parentEnt
    /\ CapabilityTokenDataFromEntity parentEnt = Ok parentData /\ Grantee parentData = ContentHash ide
    /\ hc_AuthorHash hctx = ContentHash ide
    /\ Token_ToEntity alg d = Ok capEnt /\ tok = ContentHash capEnt
    /\ Parent d = Some (ContentHash parentEnt) /\ Grantee d = ContentHash ide /\ EqualsHash (Granter_ d) (ContentHash ide) = true
    /\ IsAttenuated d parentData (hc_LocalPeerID hctx) (hc_LocalPeerID hctx) (hc_LocalPeerID hctx) = true.
Proof.
  unfold cap_handleDelegate. destruct ready as [[kp ide]|]; [|by intros [= <- <-]].
  destruct (has_caller hctx); [|by intros [= <- <-]]. cbn [negb].
  destruct (bool_decide_reflect (hc_AuthorHash hctx = ContentHash ide)) as [Hau|]; [|by intros [= <- <-]]. cbn [negb].
  destruct (DecodeDelegateRequest params) as [dr|]; [|by intros [= <- <-]].
  destruct (IsZero _); [by intros [= <- <-]|]. destruct (length (dq_Grants dr) =? 0)%nat; [by intros [= <- <-]|].
  destruct (negb _); [by intros [= <- <-]|]. destruct (capabilityChainResolver hctx st (dq_Parent dr)) as [pe|] eqn:Hp; [|by intros [= <- <-]].
  destruct (negb _); [by intros [= <- <-]|]. destruct (CapabilityTokenDataFromEntity pe) as [pd|] eqn:Hpd; [|by intros [= <- <-]].
  destruct (bool_decide_reflect (Grantee pd = hc_AuthorHash hctx)) as [Hgr|]; [|by intros [= <- <-]]. cbn [negb].
  destruct (requireAttenuation _ _ _) eqn:Hatt; [|by intros [= <- <-]]. cbn [negb].
  intros Hm Hr. destruct (mint_returns _ _ _ _ _ _ _ _ Hm Hr) as (capEnt & Htok & -> & _ & _).
  exists ide, dr, pe, pd, capEnt. eexists. split_and!; [done|done|done|done|congruence|done|exact Htok|done|done|exact Hau| |].
  - cbn. by apply bool_decide_eq_true.
  - apply require_attenuated; [exact Hatt|]. intros x Hx. cbn [ExpiresAt requested_token]. rewrite Hx. apply clampMintExpiry_caller.
Qed.
End mint.

(** ** Revoking and configuring *)

Section tree.
Context {CS L IX : Type} `{ContentStoreLaws CS} `{LocationIndex L} `{CapabilityIndex IX}.
Context `{Base58, DataCodec, CapHandlerCodec}.
Context {cw : option (ContextualWriter L)} `{!TreeIndex L cw}.
Context (alg : byte) (now_check : Z) (ready : option (Keypair * Entity)).
Implicit Types (hctx : HandlerContext) (st : TreeState CS L IX).

(** The request carries no cascade depth. *)
Definition undepthed hctx : Prop := bd_CascadeDepth <$> hc_Bounds hctx = None \/ bd_CascadeDepth <$> hc_Bounds hctx = Some None.

Lemma get_named st p k : names (ts_Index st) p = Some k -> Get (ts_Index st) p = tree_of st !! k.
Proof. intros Hk. unfold tree_of. rewrite tree_Get, Hk. done. Qed.

(** A put of an entity that was just built. *)
Lemma put_new_entity st ty raw e cs h : Ent.NewEntity alg ty raw = Ok e -> cs_Put (ts_Store st) e = (cs, Ok h) ->
  h = ContentHash e /\ entities cs = <[ContentHash e := e]> (entities (ts_Store st)).
Proof. intros Hn Hp. eapply put_self; [|exact Hp]. intros k Hk. by eapply (new_entity_put alg). Qed.

Lemma TreeSet_capindex hctx st path h op st' cr r : is_token st h = false ->
  TreeSet now_check cw hctx st path h op = (st', cr, r) -> ts_CapIndex st' = ts_CapIndex st.
Proof.
  intros Ht. unfold TreeSet. destruct (index_set _ _ _ _ _) as [[l c] r']. intros [= <- <- <-].
  destruct r'; [|done]. unfold recordCapBinding. cbn [ts_CapIndex with_index]. destruct (ts_CapIndex st) as [ix|] eqn:Hix; [|done].
  change (is_token (with_index st l) h) with (is_token st h). by rewrite Ht.
Qed.

(** The revocation check of a peer in state [st]. *)
Definition revocation_context st (included : gmap Hash Entity) : RevocationContext := {|
  rc_ContentStore := Some (entities (ts_Store st)); rc_LocationIndex := Some (Get (ts_Index st));
  rc_Included := included; rc_CapabilityIndex := ts_CapIndex st |}.


(** ** Moving a policy entry to its canonical path *)

(** What a policy entry allows. *)
Definition policy_terms (p : CapabilityPolicyEntryData) : list GrantEntry * option Z := (pe_Grants p, pe_TTLMs p).

(** The entry at [pattern], read through the tree and the entities of a state. *)
Definition policy_in (t : gmap string Hash) (es : gmap Hash Entity) (key : option string) : option CapabilityPolicyEntryData :=
  match key ≫= (fun k => t !! k) with
  | None => None
  | Some h => match es !! h with None => None | Some e => DecodePolicyData (Data e) end
  end.

Lemma readPolicyEntry_in st pattern :
  readPolicyEntry st pattern = policy_in (tree_of st) (entities (ts_Store st)) (names (ts_Index st) (policy_path pattern)).
Proof.
  unfold readPolicyEntry, policy_in, tree_of. rewrite tree_Get. destruct (names _ _ ≫= _) as [h|]; [|done].
  by rewrite cs_get_spec.
Qed.

(** Storing an entry of the same terms leaves what a key stands for, up to those terms. *)
Lemma policy_in_put t es e c key entry : DecodePolicyData (Data e) = Some c -> policy_terms c = policy_terms entry ->
  policy_in t (<[ContentHash e := e]> es) key = policy_in t es key
  \/ policy_terms <$> policy_in t (<[ContentHash e := e]> es) key = Some (policy_terms entry).
Proof.
  intros Hd Hc. unfold policy_in. destruct (key ≫= _) as [h|]; [|by left].
  destruct (decide (h = ContentHash e)) as [->|Hne]; [|left; by rewrite lookup_insert_ne].
  right. rewrite lookup_insert_eq, Hd. cbn. by rewrite Hc.
Qed.

(** The order of precedence of the entries of a caller. *)
Definition policy_order (pid : PeerID) (hex base58 fallback : option CapabilityPolicyEntryData) : option CapabilityPolicyEntryData :=
  match hex with
  | Some e => Some e
  | None => match (if (0 <? slen pid)%nat then base58 else None) with Some e => Some e | None => fallback end
  end.

Lemma lookupPolicy_order hctx st caller pid : snd (lookupPolicy alg now_check cw hctx st caller pid)
  = policy_order pid (readPolicyEntry st (hex_encode (Bytes caller))) (readPolicyEntry st pid) (readPolicyEntry st policyFallbackSegment).
Proof.
  unfold lookupPolicy, policy_order. destruct (readPolicyEntry st (hex_encode _)); [done|].
  by destruct (if (0 <? slen pid)%nat then _ else _).
Qed.

Lemma policy_order_base pid h b f entry : (0 <? slen pid)%nat = true ->
  h = None \/ policy_terms <$> h = Some (policy_terms entry) ->
  b = Some entry \/ policy_terms <$> b = Some (policy_terms entry) ->
  policy_terms <$> policy_order pid h b f = Some (policy_terms entry).
Proof.
  intros Hp Hh Hb. unfold policy_order. rewrite Hp. destruct h as [h|]; [by destruct Hh|].
  destruct b as [b|]; destruct Hb as [[= ->]|Hb]; done.
Qed.

(** The terms a caller of peer id [pid] and hexadecimal name [hex] gets in [st]. *)
Definition caller_terms st (hex : string) (pid : PeerID) : option (list GrantEntry * option Z) :=
  policy_terms <$> policy_order pid (readPolicyEntry st hex) (readPolicyEntry st pid) (readPolicyEntry st policyFallbackSegment).

(** Nothing but an entry of the same terms was stored. *)
Lemma caller_terms_stored st s hex pid entry e c : (0 <? slen pid)%nat = true ->
  readPolicyEntry st hex = None -> readPolicyEntry st pid = Some entry ->
  DecodePolicyData (Data e) = Some c -> policy_terms c = policy_terms entry ->
  names (ts_Index s) = names (ts_Index st) -> tree_of s = tree_of st ->
  entities (ts_Store s) = <[ContentHash e := e]> (entities (ts_Store st)) ->
  caller_terms s hex pid = Some (policy_terms entry).
Proof.
  intros Hlen Hh Hb Hd Hc Hn Ht Hes. rewrite readPolicyEntry_in in Hh, Hb.
  apply policy_order_base; [done|..]; rewrite readPolicyEntry_in, Ht, Hes, Hn.
  - rewrite <- Hh. by eapply policy_in_put.
  - rewrite <- Hb. by eapply policy_in_put.
Qed.

(** The entry is bound at the canonical path. *)
Lemma caller_terms_moved s hex pid entry e c k : names (ts_Index s) (policy_path hex) = Some k ->
  tree_of s !! k = Some (ContentHash e) -> entities (ts_Store s) !! ContentHash e = Some e ->
  DecodePolicyData (Data e) = Some c -> policy_terms c = policy_terms entry ->
  caller_terms s hex pid = Some (policy_terms entry).
Proof.
  intros Hk Ht He Hd Hc. unfold caller_terms. rewrite (readPolicyEntry_in s hex), Hk. unfold policy_in. cbn [mbind option_bind].
  rewrite Ht, He, Hd. cbn. by rewrite Hc.
Qed.

Lemma canonicalize_terms `{!PolicyCodecLaws} hctx st entry hex pid : undepthed hctx ->
  names (ts_Index st) (policy_path hex) <> names (ts_Index st) (policy_path pid) -> (0 <? slen pid)%nat = true ->
  readPolicyEntry st hex = None -> readPolicyEntry st pid = Some entry ->
  caller_terms (canonicalizePolicyEntry alg now_check cw hctx st entry hex pid) hex pid = Some (policy_terms entry).
Proof.
  intros Hud Hne Hlen Hh Hb. unfold canonicalizePolicyEntry, Policy_ToEntity.
  destruct (EncodePolicyEntry _) as [raw|] eqn:Hraw; cbn [of_option res_bind]; [|apply policy_order_base; auto].
  destruct (Ent.NewEntity alg TypeCapPolicyEntry raw) as [e|] eqn:He; [|apply policy_order_base; auto].
  destruct (cs_Put (ts_Store st) e) as [cs [h|er]] eqn:Hput.
  2: { pose proof (cs_put_spec (ts_Store st) e) as Hs. rewrite Hput in Hs. cbn in Hs.
       rewrite readPolicyEntry_in in Hh, Hb. apply policy_order_base; [done|left|left];
         rewrite readPolicyEntry_in; unfold tree_of in *; cbn [ts_Index ts_Store with_store]; by rewrite Hs. }
  destruct (put_new_entity st _ _ _ _ _ He Hput) as [_ Hent]. apply Ent.NewEntityFormat_ok in He as [_ Hdata].
  apply policy_roundtrip in Hraw. rewrite <- Hdata in Hraw.
  destruct (TreeSet now_check cw hctx (with_store st cs) _ _ _) as [[st1 cr] res] eqn:Hset.
  destruct (TreeSet_tree _ _ _ _ _ _ _ _ _ Hset) as (Hst & Hn & Htree & Hw). cbn [ts_Index ts_Store with_store] in Hst, Hn, Htree.
  change (tree_of (with_store st cs)) with (tree_of st) in Htree. rewrite (Hw Hud) in Htree.
  destruct (names (ts_Index st) (policy_path hex)) as [k|] eqn:Hk.
  2: { destruct Htree as [Ht ->]. eapply caller_terms_stored; try done. by rewrite Hst. }
  destruct res as [[]|er]; cbn [committed] in Htree.
  - destruct (TreeRemove now_check cw hctx st1 _ _) as [[st2 rm] c] eqn:Hrem.
    destruct (TreeRemove_tree _ _ _ _ _ _ _ _ Hrem) as (Hst2 & Hn2 & Htree2). rewrite Hn in Hn2, Htree2. cbn [fst].
    eapply (caller_terms_moved _ _ _ _ e _ k); [by rewrite Hn2| | |exact Hraw|done].
    2: { rewrite Hst2, Hst, Hent. apply lookup_insert_eq. }
    destruct (names (ts_Index st) (policy_path pid)) as [k'|].
    + destruct Htree2 as [_ ->]. rewrite lookup_delete_ne by congruence. by rewrite Htree, lookup_insert_eq.
    + destruct Htree2 as [-> _]. by rewrite Htree, lookup_insert_eq.
  - destruct (delivery_error er); [|eapply caller_terms_stored; try done; by rewrite Hst].
    eapply (caller_terms_moved _ _ _ _ e _ k); [by rewrite Hn|by rewrite Htree, lookup_insert_eq| |exact Hraw|done].
    rewrite Hst, Hent. apply lookup_insert_eq.
Qed.

(** Looking up the policy of a caller does not change it: what the next lookup
    finds allows the same, whether the entry was moved to its canonical path or
    one of the writes failed.  The request carries no cascade depth, and the two
    patterns name different paths. *)
Theorem lookupPolicy_stable `{!PolicyCodecLaws} hctx st caller pid : undepthed hctx ->
  names (ts_Index st) (policy_path (hex_encode (Bytes caller))) <> names (ts_Index st) (policy_path pid) ->
  let r := lookupPolicy alg now_check cw hctx st caller pid in
  policy_terms <$> snd (lookupPolicy alg now_check cw hctx (fst r) caller pid) = policy_terms <$> snd r.
Proof.
  intros Hud Hne r. subst r. rewrite lookupPolicy_order. unfold lookupPolicy. set (hex := hex_encode _) in *.
  destruct (readPolicyEntry st hex) as [e|] eqn:Hh; [cbn; by rewrite Hh|].
  destruct (0 <? slen pid)%nat eqn:Hlen; [|cbn; unfold policy_order; by rewrite Hh, Hlen].
  destruct (readPolicyEntry st pid) as [entry|] eqn:Hb; [|cbn; unfold policy_order; by rewrite Hh, Hlen, Hb].
  by apply canonicalize_terms.
Qed.
End tree.
