(* ===== verification/CapSample.v ===== *)
(** * The capability handler on concrete parameters

    A peer with in-memory stores: a capability is requested under a policy, a
    token is revoked, a policy entry is moved.  The last part records what the
    handler lets through. *)

From S2P Require Import Prelude GoStrings Sha2 Errors Hash Entity PeerID Paths CapTypes Patterns Check Delegation Chain Requests Revoked Store Notifying Handlers TreeIndex TreeHandler Connect ConnectSample CapHandler CapMint.

Open Scope Z_scope.

Module CapSample.
#[local] Existing Instances nibble58 nibble58_laws toy_hashable default_order Wide.key_signing.

(** The local peer is A; B holds what A granted; C holds what B granted. *)
Definition local : PeerID := Sample.local.
Definition pidB : PeerID := Small.pidB.
Definition identity : Entity := Sample.peerA.
Definition hashB : Hash := ContentHash Sample.peerB.
Definition hashC : Hash := ContentHash (toy_entity TypePeer [Byte.x0c]).

Definition read (resource : string) : list GrantEntry := [plain_grant "system/tree" [resource] "get"].
Definition token_of (granter grantee : Hash) (resource : string) (parent : option Hash) (expires : option Z) : CapabilityTokenData := {|
  Grants := read resource; Granter_ := SingleSigGranter granter; Grantee := grantee; Parent := parent; CreatedAt := 0;
  ExpiresAt := expires; NotBefore := None; DelegationCaveats := None |}.

(** What B holds; a token of A for the copy of the tree of B; its delegation to C. *)
Definition heldE : Entity := toy_entity TypeCapToken [Byte.x01].
Definition held : CapabilityTokenData := token_of (ContentHash identity) hashB "data/*" None (Some 100).
Definition copyE : Entity := toy_entity TypeCapToken [Byte.x02].
Definition copy : CapabilityTokenData := token_of (ContentHash identity) hashB ("/" +:+ pidB +:+ "/data/*") None None.
Definition leafE : Entity := toy_entity TypeCapToken [Byte.x03].
Definition leaf : CapabilityTokenData := token_of hashB hashC "data/*" (Some (ContentHash copyE)) None.
(** What A mints for B and for C. *)
Definition mintedB : CapabilityTokenData := requested_token identity hashB (read "data/a/*") None 20 (Some 60).
Definition mintedC : CapabilityTokenData := requested_token identity hashC (read "data/*") None 20 None.

#[local] Instance data_codec : DataCodec := {|
  DecodeToken d :=
    if decide (d = [Byte.x01]) then Some held else if decide (d = [Byte.x02]) then Some copy
    else if decide (d = [Byte.x03]) then Some leaf else if decide (d = [Byte.x04]) then Some mintedB
    else if decide (d = [Byte.x05]) then Some mintedC else None;
  DecodePeer := @DecodePeer Sample.codec; DecodeSignature := @DecodeSignature Sample.codec;
  DecodeSigTarget := @DecodeSigTarget Sample.codec; DecodeExecute _ := None; DecodeRawMap _ := None |}.

#[local] Instance token_encoding : TokenEncoding := {|
  EncodeToken d := if decide (d = mintedB) then Some [Byte.x04] else if decide (d = mintedC) then Some [Byte.x05] else None;
  EncodeSignature d := Some (Byte.x06 :: Signature d) |}.

Definition policy (pattern : string) (resource : string) : CapabilityPolicyEntryData := {|
  pe_PeerPattern := pattern; pe_Grants := read resource; pe_TTLMs := Some 40; pe_Notes := "" |}.

Definition hexB : string := hex_encode (Bytes hashB).
#[local] Instance PolicyEntry_eq : EqDecision CapabilityPolicyEntryData.
Proof. solve_decision. Defined.

#[local] Instance codec : CapHandlerCodec := {|
  DecodeCapRequest d :=
    if decide (d = [Byte.x01]) then Some {| cq_Grants := read "data/a/*"; cq_TTLMs := None |}
    else if decide (d = [Byte.x02]) then Some {| cq_Grants := read "data/*"; cq_TTLMs := None |} else None;
  DecodeDelegateRequest _ := None;
  DecodeRevokeRequest d := if decide (d = [Byte.x01]) then Some {| vq_Token := ContentHash copyE; vq_Reason := "lost" |} else None;
  EncodeRevocation d := Some (Byte.x07 :: Bytes (rv_Token d));
  EncodePolicyEntry d := if decide (d = policy hexB "data/*") then Some [Byte.x09] else None;
  DecodePolicyData d :=
    if decide (d = [Byte.x08]) then Some (policy pidB "data/*")
    else if decide (d = [Byte.x09]) then Some (policy hexB "data/*")
    else if decide (d = [Byte.x0a]) then Some (policy policyFallbackSegment "public/*") else None |}.

#[local] Instance codec_laws : PolicyCodecLaws.
Proof. constructor. intros d raw. cbn. case_decide as Hd; [|done]. intros [= <-]. by rewrite Hd. Qed.

Definition entryB : Entity := toy_entity TypeCapPolicyEntry [Byte.x08].
Definition fallbackE : Entity := toy_entity TypeCapPolicyEntry [Byte.x0a].

Definition ready : option (Keypair * Entity) := Some (Wide.pair_of Byte.x41, identity).
Definition abs (p : string) : string := "/" +:+ local +:+ "/" +:+ p.

(** A call by a peer that holds [cap], at a cascade depth. *)
Definition context (author : PeerID) (hash : Hash) (cap : Entity) (depth : option Z) : HandlerContext := {|
  hc_Author := author; hc_AuthorHash := hash; hc_LocalPeerID := local; hc_CallerCapability := cap; hc_HandlerGrant := no_entity;
  hc_Resource := None; hc_HandlerPattern := "system/capability"; hc_RequestID := "r";
  hc_Bounds := (fun d => {| TTL := None; Budget := None; bd_CascadeDepth := Some d; bd_ChainDepth := None; bd_ChainID := "";
    bd_ParentChainID := ""; Visited := [] |}) <$> depth;
  hc_ChainDepth := 0; hc_ReactiveTrigger := false; hc_Included := ∅ |}.

(** The peer as it is assembled: a namespaced index over a notifying one. *)
Definition cfg : NotifyingConfig unit := {| namedHooks := []; maxCascadeDepth := DefaultMaxCascadeDepth |}.
Lemma cfg_quiet : quiet_hooks cfg.
Proof. intros hk evt Hhk. by apply elem_of_nil in Hhk. Qed.
#[local] Instance queue_index : LocationIndex (NotifyingState MemoryLocationIndex unit) := notifying_index cfg.
Definition Index : Type := NamespacedIndex (NotifyingState MemoryLocationIndex unit).
Definition writer : option (ContextualWriter Index) := Some (namespaced_writer (Some (notifying_writer cfg))).
#[local] Instance index_tree : TreeIndex Index writer := peer_tree memory_plain cfg cfg_quiet.
Definition State : Type := TreeState MemoryContentStore Index MemoryCapabilityIndex.

Definition state (es : list Entity) (t : gmap string Hash) (ix : option MemoryCapabilityIndex) : State := {|
  ts_Store := Sample.file es;
  ts_Index := mkNamespaced {| ni_inner := t; events := []; capacity := 8; done_ := false; suppressEmit := false; droppedEvents := 0;
    world := tt |} local;
  ts_CapIndex := ix |}.

(** ** Requesting *)

Definition with_default (e : Entity) : State :=
  state [heldE; e] {[ abs (policy_path policyFallbackSegment) := ContentHash e ]} None.

Definition read_request (target : string) : ExecuteData := {|
  RequestID := "r"; URI_ := "entity://" +:+ local +:+ "/system/tree"; Operation := "get";
  Resource := Some {| Targets := [target]; rt_Exclude := [] |}; Params := []; Author := hashB; Capability := zero_hash |}.

Definition granted (r : option (State * CapResponse)) : option Hash :=
  r ≫= fun p => match cp_Result (snd p) with CapGranted t => Some t | _ => None end.

Lemma granted_result r : is_Some (granted r) -> exists st resp tok, r = Some (st, resp) /\ cp_Result resp = CapGranted tok.
Proof. destruct r as [[st [s [c|t|m|e] i]]|]; cbn; intros [x Hx]; try discriminate. by eexists _, _, t. Qed.

Definition request_run : option (State * CapResponse) :=
  cap_handleRequest AlgorithmSHA256 50 writer ready (context pidB hashB heldE None) (with_default entryB) [Byte.x01] 20.


(** ** Revoking *)

(** The token for the copy is bound, and C holds its delegation. *)
Definition granted_copy : State :=
  state [copyE; leafE] {[ abs "grants/copy" := ContentHash copyE ]} (Some (Record_ (∅ : MemoryCapabilityIndex) (ContentHash copyE) (abs "grants/copy"))).

Definition revoke_run : State * CapResponse :=
  cap_handleRevoke AlgorithmSHA256 50 writer ready (context local hashB no_entity None) granted_copy [Byte.x01] 30.


(** ** What the handler lets through *)

(** The capability of a caller is read in the namespace of the local peer, not in
    that of its granter.  B grants C its own [data/*]: the chain is valid, and the
    local peer does not let C read its own [data/x].  C asks the local peer for
    what it holds, and is given a token for the [data/*] of the local peer. *)
Theorem request_escapes_namespace :
  IsAttenuated leaf copy pidB local local = true
  /\ CheckPermission 30 (read_request (abs "data/x")) leaf "system/tree" local pidB = false
  /\ granted (cap_handleRequest AlgorithmSHA256 50 writer ready (context "" hashC leafE None) (state [leafE; copyE] ∅ None) [Byte.x02] 20)
     = Some (ContentHash (toy_entity TypeCapToken [Byte.x05]))
  /\ CapabilityTokenDataFromEntity (toy_entity TypeCapToken [Byte.x05]) = Ok mintedC
  /\ CheckPermission 30 (read_request (abs "data/x")) mintedC "system/tree" local local = true.
Proof. vm_compute. by split_and!. Qed.

(** The policy of B, bound under its Base58 form, and the entry for other peers. *)
Definition policies : State := state [entryB; fallbackE]
  {[ abs (policy_path pidB) := ContentHash entryB; abs (policy_path policyFallbackSegment) := ContentHash fallbackE ]} None.

Definition found (depth : option Z) : option (list GrantEntry) * option (list GrantEntry) :=
  let look st := lookupPolicy AlgorithmSHA256 50 writer (context pidB hashB heldE depth) st hashB pidB in
  let r := look policies in (pe_Grants <$> snd r, pe_Grants <$> snd (look (fst r))).

Lemma lookupPolicy_stable_sample : found None = (Some (read "data/*"), Some (read "data/*")).
Proof. vm_compute. reflexivity. Qed.

(** At the maximal cascade depth the write of the canonical entry is refused
    without an error, and the Base58 entry is removed all the same: the entry of B
    is lost, and from then on B has the policy of the peers that are unknown. *)
Theorem canonicalize_drops_entry :
  found (Some DefaultMaxCascadeDepth) = (Some (read "data/*"), Some (read "public/*")).
Proof. vm_compute. reflexivity. Qed.
End CapSample.
