(* ===== verification/TypeDefs.v ===== *)
(** * Type definitions and constraints as data
      ([core/types/typedef.go], [typeconstraint.go], the validation data of
      [system.go], and the resolution of [ext/type/validate.go])

    A type definition names the fields of an entity of the type, each with a
    shape and with constraints, and the type it extends.  A constraint is an
    entity whose type selects the check and whose data holds its bound.

    [TypeCodec] stands for the CBOR decoder: what it makes of a raw value for
    each Go type the code decodes into, with the text of the error where the code
    reports it, and the canonical encoding of a raw value.  [GoText] stands for
    the parts of [fmt] whose output ends up in a reason. *)

From Stdlib Require Import Ascii Floats.SpecFloat.
From stdpp Require Import pretty.
From S2P Require Import Prelude GoStrings Errors Hash Entity PeerID Store Handlers.

Open Scope Z_scope.

Abbreviation Raw := (list byte).

Definition TypeType : string := "system/type".

(** [Default] is kept as its encoding: it is copied, never read. *)
Inductive FieldSpec := mkField {
  TypeRef : string; Optional : bool; ArrayOf : option FieldSpec; MapOf : option FieldSpec; UnionOf : list FieldSpec;
  TypeParam : string; fs_TypeArgs : gmap string string; Default : option Raw; KeyType : string; ByteSize : option Z;
  fs_Constraints : list Entity
}.

Record TypeDefinition := {
  td_Name : string; Extends : string; Fields : gmap string FieldSpec; Layout : list string; TypeParams : list string;
  td_TypeArgs : gmap string string
}.

(** ** Constraints *)

Definition TypeConstraintMin : string := "system/type/constraint/min".
Definition TypeConstraintMax : string := "system/type/constraint/max".
Definition TypeConstraintMinLength : string := "system/type/constraint/min-length".
Definition TypeConstraintMaxLength : string := "system/type/constraint/max-length".
Definition TypeConstraintMinCount : string := "system/type/constraint/min-count".
Definition TypeConstraintMaxCount : string := "system/type/constraint/max-count".
Definition TypeConstraintPattern : string := "system/type/constraint/pattern".
Definition TypeConstraintOneOf : string := "system/type/constraint/one-of".
Definition TypeConstraintNotOneOf : string := "system/type/constraint/not-one-of".
Definition TypeConstraintFormat : string := "system/type/constraint/format".
Definition TypeConstraintTypePattern : string := "system/type/constraint/type-pattern".
Definition TypeConstraintValidateReq : string := "system/type/constraint/validate-request".
Definition TypeConstraintValidateResult : string := "system/type/constraint/validate-result".

Definition ViolationKindStructural : string := "structural".
Definition ViolationKindConstraint : string := "constraint".
Definition ViolationKindUnknownConstraint : string := "unknown_constraint".

Record Violation := mkViolation { vi_Field : string; vi_Kind : string; vi_Constraint : string; vi_Reason : string }.
Record ValidateResultData := { Valid : bool; Violations : list Violation; UnevaluatedFields : list string }.
Record ValidateRequestData := { vr_Entity : Raw; TypePath : string }.

Record ConstraintValidateRequestData := { ct_Value : Raw; ConstraintType : string; ConstraintData : Raw }.
Record ConstraintValidateResultData := { cv_Valid : bool; cv_Reason : string }.

(** ** The decoder *)

(** The [Dec] operations of one raw value are the attempts of [ecf.Decode] into
    the Go type of their result; the integers are a [uint64] and an [int64]. *)
Class TypeCodec := {
  DecFloat : Raw -> option spec_float;
  DecUint : Raw -> option Z;
  DecInt : Raw -> option Z;
  DecBool : Raw -> option bool;
  DecString : Raw -> option string;
  DecBytes : Raw -> option Raw;
  DecArray : Raw -> option (list Raw);
  DecMap : Raw -> option (list (Raw * Raw));
  DecHash : Raw -> option Hash;
  DecNumberBound : string -> Raw -> res string spec_float;
  DecSizeBound : string -> Raw -> res string Z;
  DecTextBound : string -> Raw -> res string string;
  DecValuesBound : Raw -> res string (list Raw);
  canonicalizeRaw : Raw -> res string Raw;
  DecodeTypeDef : Raw -> option TypeDefinition;
  EncodeTypeDef : TypeDefinition -> option Raw;
  DecodeFieldMap : Raw -> res string (gmap string Raw);
  DecodeSubject : Raw -> option Entity;
  DecodeValidateRequest : Raw -> option ValidateRequestData;
  EncodeConstraintRequest : ConstraintValidateRequestData -> option Raw;
  DecodeConstraintRequest : Raw -> option ConstraintValidateRequestData;
  EncodeConstraintResult : ConstraintValidateResultData -> option Raw;
  DecodeConstraintResult : Raw -> res string ConstraintValidateResultData;
  DecodeErrorData : Raw -> option (string * string)
}.

(** What is documented of it: the two messages of a dispatch survive the wire,
    and every entity has an encoding to be hashed. *)
Class TypeCodecLaws `{HashableCodec, TypeCodec} := {
  constraint_request_roundtrip d : exists raw, EncodeConstraintRequest d = Some raw /\ raw <> [] /\ DecodeConstraintRequest raw = Some d;
  constraint_result_roundtrip d : exists raw, EncodeConstraintResult d = Some raw /\ DecodeConstraintResult raw = Ok d;
  type_hashable ty d : is_Some (EncodeHashable ty d)
}.

Class GoText := { fmt_float : spec_float -> string; quote : string -> string }.

Definition fmt_uint (n : Z) : string := pretty (Z.to_N n).

(** ** Resolution *)

Section resolve.
Context {CS L IX : Type} `{ContentStore CS} `{LocationIndex L} `{TypeCodec}.

Definition resolveTypeDefinition (st : TreeState CS L IX) (name : string) : option TypeDefinition :=
  match Get (ts_Index st) ("system/type/" +:+ name) with
  | None => None
  | Some h => match cs_Get (ts_Store st) h with None => None | Some ent => DecodeTypeDef (Data ent) end
  end.
End resolve.

Definition TypeDef_ToEntity `{TypeCodec, HashableCodec} (alg : byte) (d : TypeDefinition) : result Entity :=
  let! raw := of_option [] (EncodeTypeDef d) in Ent.NewEntity alg TypeType raw.

Definition ConstraintRequest_ToEntity `{TypeCodec, HashableCodec} (alg : byte) (d : ConstraintValidateRequestData) : result Entity :=
  let! raw := of_option [] (EncodeConstraintRequest d) in Ent.NewEntity alg TypeConstraintValidateReq raw.
