(* ===== verification/TypeConstraint.v ===== *)
(** * The standard constraint handler ([ext/type/constraint/handler.go])

    [evaluate] decides one constraint on one raw value.  [FormatLib] stands for
    the parsers of the Go library that a pattern or a format is handed to. *)

From Stdlib Require Import Ascii Floats.SpecFloat.
From S2P Require Import Prelude GoStrings Errors Hash Entity PeerID Patterns Store Handlers ComputeValues TypeDefs.

Open Scope Z_scope.

(** [regexp.Compile] with [MatchString] of its result; [url.Parse] and its
    scheme; [time.Parse] of RFC 3339, with fractions, and of a date. *)
Class FormatLib := {
  regexp_Compile : string -> res string (string -> bool);
  url_Scheme : string -> option string;
  time_RFC3339 : string -> bool;
  time_RFC3339Nano : string -> bool;
  time_Date : string -> bool
}.

Definition FormatURI : string := "uri".
Definition FormatDateTime : string := "date-time".
Definition FormatDate : string := "date".
Definition FormatUUID : string := "uuid".
Definition FormatBase58 : string := "base58".
Definition FormatRE2 : string := "re2".

(** ** Measures of a value *)

(** [utf8.RuneCountInString]: the length of the encoding of a rune at the head,
    one for a byte that starts none. *)
Definition in_range (lo hi : N) (b : byte) : bool := ((lo <=? Byte.to_N b) && (Byte.to_N b <=? hi))%N.
Definition continuation (b : byte) : bool := in_range 128 191 b.

Definition rune_size (l : list byte) : nat :=
  match l with
  | b0 :: b1 :: l' =>
      if in_range 194 223 b0 && continuation b1 then 2%nat
      else
        let second := if in_range 224 224 b0 then in_range 160 191 b1
                      else if in_range 237 237 b0 then in_range 128 159 b1
                      else if in_range 240 240 b0 then in_range 144 191 b1
                      else if in_range 244 244 b0 then in_range 128 143 b1
                      else continuation b1 in
        match l' with
        | b2 :: l'' =>
            if in_range 224 239 b0 && second && continuation b2 then 3%nat
            else match l'' with
                 | b3 :: _ => if in_range 240 244 b0 && second && continuation b2 && continuation b3 then 4%nat else 1%nat
                 | [] => 1%nat
                 end
        | [] => 1%nat
        end
  | _ => 1%nat
  end.

Fixpoint rune_count (skip : nat) (l : list byte) : Z :=
  match l with
  | [] => 0
  | _ :: l' => match skip with
               | S skip => rune_count skip l'
               | O => 1 + rune_count (rune_size l - 1) l'
               end
  end.

Definition RuneCountInString (s : string) : Z := rune_count 0 (str_bytes s).

(** The standard form of a UUID: hexadecimal digits of either case in groups of
    8, 4, 4, 4 and 12. *)
Definition isHexDigit (c : ascii) : bool :=
  let n := N_of_ascii c in ((48 <=? n) && (n <=? 57) || (97 <=? n) && (n <=? 102) || (65 <=? n) && (n <=? 70))%N.

Definition uuid_form : list nat := [8; 4; 4; 4; 12]%nat.

Fixpoint matches_groups (groups : list nat) (s : string) : bool :=
  match groups with
  | [] => false
  | n :: groups =>
      (slen (str_take n s) =? n)%nat && str_forallb isHexDigit (str_take n s)
      && match groups with
         | [] => String.eqb (str_drop n s) ""
         | _ => match str_drop n s with String c s' => Ascii.eqb c "-" && matches_groups groups s' | EmptyString => false end
         end
  end.

Definition isUUID (s : string) : bool := matches_groups uuid_form s.

Section handler.
Context {CS L IX : Type} `{ContentStore CS} `{LocationIndex L} `{TypeCodec, GoText, FormatLib, Base58}.
Abbreviation State := (TreeState CS L IX).

Definition valid : ConstraintValidateResultData := {| cv_Valid := true; cv_Reason := "" |}.
Definition valid_with (reason : string) : ConstraintValidateResultData := {| cv_Valid := true; cv_Reason := reason |}.
Definition invalid (reason : string) : ConstraintValidateResultData := {| cv_Valid := false; cv_Reason := reason |}.

Definition decodeNumeric (raw : Raw) : option spec_float :=
  match DecFloat raw with
  | Some f => Some f
  | None => match DecUint raw with
            | Some u => Some (float_of_Z u)
            | None => float_of_Z <$> DecInt raw
            end
  end.

Definition decodeString (raw : Raw) : option string := DecString raw.

Definition measureLength (raw : Raw) : option Z :=
  match DecString raw with
  | Some s => Some (RuneCountInString s)
  | None => (fun b => Z.of_nat (length b)) <$> DecBytes raw
  end.

Definition collectionSize (raw : Raw) : option Z :=
  match DecArray raw with
  | Some arr => Some (Z.of_nat (length arr))
  | None => (fun m => Z.of_nat (length m)) <$> DecMap raw
  end.

Definition compileFullMatch (pattern : string) : res string (string -> bool) := regexp_Compile ("^(?:" +:+ pattern +:+ ")$").

(** The comparison of [want] with the elements from index [i] on. *)
Fixpoint equal_any (want : Raw) (i : Z) (l : list Raw) : res string bool :=
  match l with
  | [] => Ok false
  | elem :: l =>
      match canonicalizeRaw elem with
      | Err e => Err ("values[" +:+ fmt_uint i +:+ "]: " +:+ e)
      | Ok got => if bool_decide (want = got) then Ok true else equal_any want (i + 1) l
      end
  end.

Definition ecfByteEqualAny (value : Raw) (l : list Raw) : res string bool :=
  match canonicalizeRaw value with
  | Err e => Err ("value: " +:+ e)
  | Ok want => equal_any want 0 l
  end.

Definition validateFormat (raw : Raw) (format : string) : ConstraintValidateResultData :=
  match decodeString raw with
  | None => invalid "format: not a string"
  | Some s =>
      if String.eqb format FormatURI then
        match url_Scheme s with
        | Some scheme => if String.eqb scheme "" then invalid "format: not a valid URI" else valid
        | None => invalid "format: not a valid URI"
        end
      else if String.eqb format FormatDateTime then
        if time_RFC3339 s || time_RFC3339Nano s then valid else invalid "format: not a valid RFC 3339 date-time"
      else if String.eqb format FormatDate then if time_Date s then valid else invalid "format: not a valid RFC 3339 date"
      else if String.eqb format FormatUUID then if isUUID s then valid else invalid "format: not a valid UUID"
      else if String.eqb format FormatBase58 then
        if String.eqb s "" then valid
        else match base58_Decode s with Some _ => valid | None => invalid "format: not a valid Base58 string" end
      else if String.eqb format FormatRE2 then
        match regexp_Compile s with Ok _ => valid | Err e => invalid ("format: not a valid RE2 pattern: " +:+ e) end
      else invalid ("unknown format: " +:+ format)
  end.

(** [hctx] is the state of the peer, [None] a context without a store. *)
Definition type_matches (ent : Entity) (pattern : string) : ConstraintValidateResultData :=
  if MatchesPattern (Type_ ent) pattern then valid
  else invalid ("type_pattern: entity type " +:+ Type_ ent +:+ " does not match " +:+ pattern).

Definition validateTypePattern (hctx : option State) (raw : Raw) (pattern : string) : ConstraintValidateResultData :=
  match hctx with
  | None => valid_with "type_pattern: no content store wired; resolution skipped"
  | Some st =>
      match DecHash raw with
      | Some h =>
          match cs_Get (ts_Store st) h with
          | None => valid_with "type_pattern: hash not resolvable; pass-with-warning per §4.6"
          | Some ent => type_matches ent pattern
          end
      | None =>
          match decodeString raw with
          | Some s =>
              match Get (ts_Index st) s with
              | None => valid_with "type_pattern: path not bound; pass-with-warning per §4.6"
              | Some h =>
                  match cs_Get (ts_Store st) h with
                  | None => valid_with "type_pattern: path resolved but entity not in store; pass-with-warning per §4.6"
                  | Some ent => type_matches ent pattern
                  end
              end
          | None => invalid "type_pattern: value is neither a hash nor a path"
          end
      end
  end.

(** ** The dispatch on the constraint *)

(** The arms that compare a number, and those that compare a size. *)
Definition number_arm (label : string) (bound : res string spec_float) (value : Raw) (accepts : spec_float -> spec_float -> bool)
    (relation : string) : ConstraintValidateResultData :=
  match bound with
  | Err e => invalid (label +:+ ": decode failed: " +:+ e)
  | Ok c =>
      match decodeNumeric value with
      | None => invalid (label +:+ ": not numeric")
      | Some v =>
          if negb (SFeqb v v) then invalid ("must be " +:+ relation +:+ " " +:+ fmt_float c)
          else if accepts v c then valid
          else invalid ("must be " +:+ relation +:+ " " +:+ fmt_float c)
      end
  end.

Definition size_arm (label kinds noun : string) (bound : res string Z) (size : option Z) (accepts : Z -> Z -> bool)
    (relation : string) : ConstraintValidateResultData :=
  match bound with
  | Err e => invalid (label +:+ ": decode failed: " +:+ e)
  | Ok c =>
      match size with
      | None => invalid (label +:+ ": not " +:+ kinds)
      | Some n => if accepts n c then valid else invalid (noun +:+ " must be " +:+ relation +:+ " " +:+ fmt_uint c)
      end
  end.

Definition evaluate (hctx : option State) (req : ConstraintValidateRequestData) : ConstraintValidateResultData :=
  let ty := ConstraintType req in
  let data := ConstraintData req in
  let value := ct_Value req in
  if String.eqb ty TypeConstraintMin then number_arm "min" (DecNumberBound "min" data) value (fun v c => SFleb c v) ">="
  else if String.eqb ty TypeConstraintMax then number_arm "max" (DecNumberBound "max" data) value (fun v c => SFleb v c) "<="
  else if String.eqb ty TypeConstraintMinLength then
    size_arm "min_length" "a string or bytes" "length" (DecSizeBound "min_length" data) (measureLength value) (fun n c => c <=? n) ">="
  else if String.eqb ty TypeConstraintMaxLength then
    size_arm "max_length" "a string or bytes" "length" (DecSizeBound "max_length" data) (measureLength value) (fun n c => n <=? c) "<="
  else if String.eqb ty TypeConstraintMinCount then
    size_arm "min_count" "an array or map" "count" (DecSizeBound "min_count" data) (collectionSize value) (fun n c => c <=? n) ">="
  else if String.eqb ty TypeConstraintMaxCount then
    size_arm "max_count" "an array or map" "count" (DecSizeBound "max_count" data) (collectionSize value) (fun n c => n <=? c) "<="
  else if String.eqb ty TypeConstraintPattern then
    match DecTextBound "pattern" data with
    | Err e => invalid ("pattern: decode failed: " +:+ e)
    | Ok pattern =>
        match decodeString value with
        | None => invalid "pattern: not a string"
        | Some s =>
            match compileFullMatch pattern with
            | Err e => invalid ("pattern: invalid RE2 pattern: " +:+ e)
            | Ok re => if re s then valid else invalid ("must match pattern: " +:+ pattern)
            end
        end
    end
  else if String.eqb ty TypeConstraintOneOf then
    match DecValuesBound data with
    | Err e => invalid ("one_of: decode failed: " +:+ e)
    | Ok values =>
        match ecfByteEqualAny value values with
        | Err e => invalid ("one_of: ECF canonicalization failed: " +:+ e)
        | Ok true => valid
        | Ok false => invalid "must be one of the allowed values"
        end
    end
  else if String.eqb ty TypeConstraintNotOneOf then
    match DecValuesBound data with
    | Err e => invalid ("not_one_of: decode failed: " +:+ e)
    | Ok values =>
        match ecfByteEqualAny value values with
        | Err e => invalid ("not_one_of: ECF canonicalization failed: " +:+ e)
        | Ok false => valid
        | Ok true => invalid "must not be one of the disallowed values"
        end
    end
  else if String.eqb ty TypeConstraintFormat then
    match DecTextBound "format" data with
    | Err e => invalid ("format: decode failed: " +:+ e)
    | Ok format => validateFormat value format
    end
  else if String.eqb ty TypeConstraintTypePattern then
    match DecTextBound "pattern" data with
    | Err e => invalid ("type_pattern: decode failed: " +:+ e)
    | Ok pattern => validateTypePattern hctx value pattern
    end
  else invalid ("unknown constraint type: " +:+ ty).

(** The answer of the handler: a result, or a status and a code. *)
Definition constraint_Handle (hctx : option State) (operation : string) (params : Raw)
  : res (Z * string) ConstraintValidateResultData :=
  if negb (String.eqb operation "validate") then Err (501, "unsupported_operation")
  else match DecodeConstraintRequest params with
       | None => Err (400, "invalid_request")
       | Some dispatch => Ok (evaluate hctx dispatch)
       end.

(** The value satisfies the constraint. *)
Definition satisfies (hctx : option State) (value : Raw) (constraint : Entity) : bool :=
  cv_Valid (evaluate hctx {| ct_Value := value; ConstraintType := Type_ constraint; ConstraintData := Data constraint |}).
End handler.
