(* ===== verification/TypeValidate.v ===== *)
(** * Validation of an entity against its type
      ([ext/type]: [validate.go], [structural.go], [narrowing.go])

    Three phases: the presence and the shape of the fields, the constraints on
    the fields that are present, each dispatched to its handler, and, when the
    entity is itself a type definition, the comparison of its constraints with
    those of the types it extends.

    The constraints are dispatched through [hctx.Execute], a parameter: [None]
    when no dispatcher is wired, and else a function that may change the state.
    [verifyNarrowing] recurs along [Extends] without a bound: it takes fuel,
    [None] when that runs out. *)

From Stdlib Require Import Ascii Floats.SpecFloat.
From S2P Require Import Prelude GoStrings Errors Hash Entity PeerID Patterns Store Handlers TreeHandler ComputeValues TypeDefs TypeConstraint.

Open Scope Z_scope.

Section names.
Context {A : Type}.

(** [sort.Strings] of the keys of a map. *)
Definition sorted_names (m : gmap string A) : list string := merge_sort string_le (map fst (map_to_list m)).

Lemma elem_of_sorted_names m f : f ∈ sorted_names m <-> is_Some (m !! f).
Proof.
  unfold sorted_names. rewrite (merge_sort_Permutation string_le), list_elem_of_In, in_map_iff. split.
  - intros ([k x] & <- & Hin). apply list_elem_of_In, elem_of_map_to_list in Hin. eauto.
  - intros [x Hx]. exists (f, x). split; [done|]. by apply list_elem_of_In, elem_of_map_to_list.
Qed.

(** Several violations for each name, in order. *)
Definition per_name {B : Type} (m : gmap string A) (check : string -> A -> list B) : list B :=
  flat_map (fun f => match m !! f with Some spec => check f spec | None => [] end) (sorted_names m).

Lemma per_name_nil {B} (m : gmap string A) (check : string -> A -> list B) :
  per_name m check = [] <-> forall f spec, m !! f = Some spec -> check f spec = [].
Proof.
  unfold per_name. assert (Hfm : forall l : list string, flat_map (fun f => match m !! f with Some spec => check f spec | None => [] end) l = []
    <-> forall f, f ∈ l -> match m !! f with Some spec => check f spec | None => [] end = []).
  { induction l as [|f l IH]; cbn.
    - split; [|done]. intros _ f Hf. by apply elem_of_nil in Hf.
    - rewrite app_nil, IH. split.
      + intros [Hf Hl] g [->|Hg]%elem_of_cons; auto.
      + intros Hl. split; [apply Hl; left|]. intros g Hg. apply Hl. by right. }
  rewrite Hfm. split.
  - intros Hl f spec Hf. specialize (Hl f). rewrite elem_of_sorted_names, Hf in Hl. apply Hl. eauto.
  - intros Hl f _. destruct (m !! f) as [spec|] eqn:Hf; [|done]. by apply Hl.
Qed.
End names.

Section validate.
Context {CS L IX : Type} `{ContentStore CS} `{LocationIndex L} `{HashableCodec, TypeCodec, GoText}.
Abbreviation State := (TreeState CS L IX).
Context (alg : byte).
Implicit Types (st : State).

(** ** The shape of the fields *)

Definition structural (field reason : string) : Violation := mkViolation field ViolationKindStructural "" reason.

Definition checkPrimitiveType (fname : string) (raw : Raw) (ref : string) : option Violation :=
  let refuse (ok : bool) (what : string) := if ok then None else Some (structural fname ("field declared " +:+ ref +:+ " but value is not " +:+ what)) in
  if String.eqb ref "primitive/string" then refuse (bool_decide (is_Some (DecString raw))) "a string"
  else if String.eqb ref "primitive/bytes" then refuse (bool_decide (is_Some (DecBytes raw))) "bytes"
  else if String.eqb ref "primitive/uint" then refuse (bool_decide (is_Some (DecUint raw))) "an unsigned integer"
  else if String.eqb ref "primitive/int" then refuse (bool_decide (is_Some (DecInt raw))) "an integer"
  else if String.eqb ref "primitive/float" then refuse (bool_decide (is_Some (DecFloat raw))) "a float"
  else if String.eqb ref "primitive/bool" then refuse (bool_decide (is_Some (DecBool raw))) "a bool"
  else None.

Definition checkFieldType (fname : string) (raw : Raw) (spec : FieldSpec) : option Violation :=
  match ArrayOf spec, MapOf spec with
  | Some _, _ => if bool_decide (is_Some (DecArray raw)) then None else Some (structural fname "field declared array but got non-array value")
  | None, Some _ => if bool_decide (is_Some (DecMap raw)) then None else Some (structural fname "field declared map but got non-map value")
  | None, None => if String.eqb (TypeRef spec) "" then None else checkPrimitiveType fname raw (TypeRef spec)
  end.

Definition structuralCheck (def : TypeDefinition) (fields : gmap string Raw) : list Violation :=
  per_name (Fields def) (fun fname spec =>
    match fields !! fname with
    | None => if Optional spec then [] else [structural fname "required field is absent"]
    | Some raw => option_list (checkFieldType fname raw spec)
    end).

(** ** The constraints *)

Record ConstraintResponse := { cs_Status : Z; cs_Result : Entity }.

(** [hctx.Execute(ctx, uri, operation, params)]. *)
Definition Execute : Type := State -> string -> string -> Entity -> State * res string (option ConstraintResponse).

Definition contains (s sub : string) : bool := Contains s sub.

Definition isUnknownConstraintReason (reason : string) : bool :=
  if String.eqb reason "" then false
  else contains reason "unknown constraint type" || contains reason "unknown format".

Definition respStatus (resp : option ConstraintResponse) : Z := match resp with None => 0 | Some r => cs_Status r end.

Definition status_message (resp : option ConstraintResponse) : string :=
  match resp with
  | None => "constraint dispatch returned status " +:+ fmt_uint (respStatus resp)
  | Some r =>
      match DecodeErrorData (Data (cs_Result r)) with
      | Some (code, message) =>
          if String.eqb message "" then "constraint dispatch returned status " +:+ fmt_uint (respStatus resp)
          else "constraint dispatch status " +:+ fmt_uint (cs_Status r) +:+ ": " +:+ code +:+ " (" +:+ message +:+ ")"
      | None => "constraint dispatch returned status " +:+ fmt_uint (respStatus resp)
      end
  end.

Definition dispatchConstraint (execute : option Execute) st (field : string) (value : Raw) (constraint : Entity)
  : State * option Violation :=
  let refuse (kind reason : string) := Some (mkViolation field kind (Type_ constraint) reason) in
  match ConstraintRequest_ToEntity alg {| ct_Value := value; ConstraintType := Type_ constraint; ConstraintData := Data constraint |} with
  | Err _ => (st, refuse ViolationKindConstraint "failed to build constraint dispatch envelope")
  | Ok envEntity =>
      match execute with
      | None => (st, refuse ViolationKindUnknownConstraint "no dispatcher available for constraint")
      | Some execute =>
          match execute st (Type_ constraint) "validate" envEntity with
          | (st, Err e) => (st, refuse ViolationKindUnknownConstraint ("constraint_dispatch_failed: " +:+ e))
          | (st, Ok resp) =>
              if negb (respStatus resp =? 200) then (st, refuse ViolationKindUnknownConstraint (status_message resp))
              else match resp with
              | None => (st, refuse ViolationKindUnknownConstraint (status_message resp))
              | Some r =>
                  match DecodeConstraintResult (Data (cs_Result r)) with
                  | Err e => (st, refuse ViolationKindUnknownConstraint ("constraint result decode failed: " +:+ e))
                  | Ok result =>
                      if cv_Valid result then (st, None)
                      else (st, refuse (if isUnknownConstraintReason (cv_Reason result) then ViolationKindUnknownConstraint
                                        else ViolationKindConstraint) (cv_Reason result))
                  end
              end
          end
      end
  end.

(** The constraints of a field, and those of the fields [names] of the type. *)
Fixpoint dispatch_all (execute : option Execute) st (field : string) (value : Raw) (constraints : list Entity) : State * list Violation :=
  match constraints with
  | [] => (st, [])
  | c :: constraints =>
      let '(st, v) := dispatchConstraint execute st field value c in
      let '(st, vs) := dispatch_all execute st field value constraints in (st, option_list v ++ vs)
  end.

Fixpoint dispatch_fields (execute : option Execute) st (def : TypeDefinition) (fields : gmap string Raw) (names : list string)
  : State * list Violation :=
  match names with
  | [] => (st, [])
  | fname :: names =>
      let '(st, vs) := match Fields def !! fname, fields !! fname with
                       | Some spec, Some value => dispatch_all execute st fname value (fs_Constraints spec)
                       | _, _ => (st, [])
                       end in
      let '(st, vs') := dispatch_fields execute st def fields names in (st, vs ++ vs')
  end.

Definition constraintDispatch (execute : option Execute) st (def : TypeDefinition) (fields : gmap string Raw)
  : State * (list Violation * list string) :=
  let '(st, vs) := dispatch_fields execute st def fields (sorted_names (Fields def)) in (st, (vs, [])).

(** ** Narrowing *)

Definition widening (field ctype detail : string) : Violation :=
  mkViolation field ViolationKindConstraint ctype ("narrowing violation: " +:+ detail).

Definition decodeViolation (field ctype e : string) : Violation :=
  mkViolation field ViolationKindConstraint ctype ("decode failure during narrowing check: " +:+ e).

Fixpoint findConstraint (cs : list Entity) (t : string) : option Entity :=
  match cs with [] => None | c :: cs => if String.eqb (Type_ c) t then Some c else findConstraint cs t end.

Fixpoint canonical_all (l : list Raw) : option (list Raw) :=
  match l with
  | [] => Some []
  | e :: l => match canonicalizeRaw e with Err _ => None | Ok c => cons c <$> canonical_all l end
  end.

Definition isCanonicalSubset (sub sup : list Raw) : bool :=
  match canonical_all sup with
  | None => false
  | Some supCanon =>
      all (fun e => match canonicalizeRaw e with Err _ => false | Ok c => bool_decide (c ∈ supCanon) end) sub
  end.

Fixpoint split_segments (acc s : string) : list string :=
  match s with
  | EmptyString => [acc]
  | String c s' => if Ascii.eqb c "/" then acc :: split_segments "" s' else split_segments (acc +:+ String c "") s'
  end.

Definition splitGlob (s : string) : list string := if String.eqb s "" then [] else split_segments "" s.

(** [suffixes child] are the values of [child[k:]] for [k] from zero to its length. *)
Fixpoint suffixes (l : list string) : list (list string) := l :: match l with [] => [] | _ :: l' => suffixes l' end.

Fixpoint narrowerSegments (child parent : list string) {struct parent} : bool :=
  match parent with
  | [] => match child with [] => true | _ => false end
  | p :: parent =>
      if String.eqb p "**" then any (fun suffix => narrowerSegments suffix parent) (suffixes child)
      else match child with
           | [] => false
           | c :: child => if String.eqb p "*" then narrowerSegments child parent
                           else if String.eqb c p then narrowerSegments child parent else false
           end
  end.

Definition typePatternNarrower (child parent : string) : bool :=
  if String.eqb child parent then true else narrowerSegments (splitGlob child) (splitGlob parent).

(** The two bounds are decoded, child first, and compared. *)
Definition compare_bounds {A} (field ctype : string) (decode : Raw -> res string A) (child parent : Entity) (narrower : A -> A -> bool)
    (detail : A -> A -> string) : option Violation :=
  match decode (Data child) with
  | Err e => Some (decodeViolation field ctype e)
  | Ok c =>
      match decode (Data parent) with
      | Err e => Some (decodeViolation field ctype e)
      | Ok p => if narrower c p then None else Some (widening field ctype (detail c p))
      end
  end.

Definition checkNarrower (field : string) (child parent : Entity) : option Violation :=
  let ty := Type_ child in
  let bound {A} (show : A -> string) (label op : string) (c p : A) :=
    "child." +:+ label +:+ " " +:+ show c +:+ " " +:+ op +:+ " parent." +:+ label +:+ " " +:+ show p in
  if String.eqb ty TypeConstraintMin then
    compare_bounds field ty (DecNumberBound "min") child parent (fun c p => SFleb p c) (bound fmt_float "min" "<")
  else if String.eqb ty TypeConstraintMax then
    compare_bounds field ty (DecNumberBound "max") child parent (fun c p => SFleb c p) (bound fmt_float "max" ">")
  else if String.eqb ty TypeConstraintMinLength then
    compare_bounds field ty (DecSizeBound "min_length") child parent (fun c p => p <=? c) (bound fmt_uint "min_length" "<")
  else if String.eqb ty TypeConstraintMaxLength then
    compare_bounds field ty (DecSizeBound "max_length") child parent (fun c p => c <=? p) (bound fmt_uint "max_length" ">")
  else if String.eqb ty TypeConstraintMinCount then
    compare_bounds field ty (DecSizeBound "min_count") child parent (fun c p => p <=? c) (bound fmt_uint "min_count" "<")
  else if String.eqb ty TypeConstraintMaxCount then
    compare_bounds field ty (DecSizeBound "max_count") child parent (fun c p => c <=? p) (bound fmt_uint "max_count" ">")
  else if String.eqb ty TypeConstraintPattern then
    compare_bounds field ty (DecTextBound "pattern") child parent String.eqb
      (fun _ _ => "patterns differ — incomparable by default per v1.1 §6.2")
  else if String.eqb ty TypeConstraintFormat then
    compare_bounds field ty (DecTextBound "format") child parent String.eqb
      (fun _ _ => "format names differ — incomparable by default per v1.1 §6.2")
  else if String.eqb ty TypeConstraintOneOf then
    compare_bounds field ty DecValuesBound child parent isCanonicalSubset
      (fun _ _ => "child one_of values are not a subset of parent values")
  else if String.eqb ty TypeConstraintNotOneOf then
    compare_bounds field ty DecValuesBound child parent (fun c p => isCanonicalSubset p c)
      (fun _ _ => "child not_one_of values are not a superset of parent values")
  else if String.eqb ty TypeConstraintTypePattern then
    compare_bounds field ty (DecTextBound "pattern") child parent typePatternNarrower
      (fun c p => "child type_pattern " +:+ quote c +:+ " not narrower than parent " +:+ quote p)
  else Some (mkViolation field ViolationKindUnknownConstraint ty "cannot verify narrowing for unknown constraint type").

(** What the comparison with one parent reports. *)
Definition narrow_field (child : TypeDefinition) (fname : string) (parentSpec : FieldSpec) : list Violation :=
  match Fields child !! fname with
  | None => []
  | Some childSpec =>
      flat_map (fun pc =>
        match findConstraint (fs_Constraints childSpec) (Type_ pc) with
        | None => [mkViolation fname ViolationKindConstraint (Type_ pc) "narrowing violation: child removed parent constraint"]
        | Some cc => option_list (checkNarrower fname cc pc)
        end) (fs_Constraints parentSpec)
  end.

Definition narrow_step (child parent : TypeDefinition) : list Violation := per_name (Fields parent) (narrow_field child).

Fixpoint verifyNarrowing (fuel : nat) st (child : TypeDefinition) : option (list Violation) :=
  match fuel with
  | O => None
  | S fuel =>
      if String.eqb (Extends child) "" then Some []
      else match resolveTypeDefinition st (Extends child) with
      | None => Some [structural "extends" ("parent type " +:+ quote (Extends child) +:+ " not resolvable for narrowing check")]
      | Some parent => app (narrow_step child parent) <$> verifyNarrowing fuel st parent
      end
  end.

(** ** The operation *)

Definition rejected (v : Violation) : ValidateResultData := {| Valid := false; Violations := [v]; UnevaluatedFields := [] |}.

(** [None] when the fuel of the narrowing check runs out; an error is a status
    and a code. *)
Definition handleValidate (execute : option Execute) (fuel : nat) st (params : Raw)
  : option (State * res (Z * string) ValidateResultData) :=
  match DecodeValidateRequest params with
  | None => Some (st, Err (400, "invalid_request"))
  | Some dispatch =>
      match DecodeSubject (vr_Entity dispatch) with
      | None => Some (st, Err (400, "invalid_request"))
      | Some subject =>
          let typeName := if String.eqb (TypePath dispatch) "" then Type_ subject else TypePath dispatch in
          match resolveTypeDefinition st typeName with
          | None => Some (st, Ok (rejected (structural "type"
                      ("type " +:+ quote typeName +:+ " not resolvable at system/type/" +:+ typeName))))
          | Some typeDef =>
              match DecodeFieldMap (Data subject) with
              | Err e => Some (st, Ok (rejected (structural "data" ("entity data is not a CBOR map: " +:+ e))))
              | Ok fields =>
                  let violations := structuralCheck typeDef fields in
                  let '(st, (dispatched, unevaluated)) := constraintDispatch execute st typeDef fields in
                  let narrowing :=
                    if String.eqb (Type_ subject) TypeType then
                      match DecodeTypeDef (Data subject) with
                      | Some subjectDef => if String.eqb (Extends subjectDef) "" then Some [] else verifyNarrowing fuel st subjectDef
                      | None => Some []
                      end
                    else Some [] in
                  (fun narrowed =>
                    let violations := violations ++ dispatched ++ narrowed in
                    (st, Ok {| Valid := match violations with [] => true | _ => false end; Violations := violations;
                               UnevaluatedFields := unevaluated |})) <$> narrowing
              end
          end
      end
  end.
End validate.
