(* ===== verification/TypeSpec.v ===== *)
(** * What validation guarantees

    [narrowing_sound]: a constraint that narrows another accepts only what the
    other accepts.  [handleValidate_iff]: what the operation answers, against the
    reading of a type definition.  [verifyNarrowing_returns]: when it returns. *)

From Stdlib Require Import Ascii Floats.SpecFloat.
From S2P Require Import Prelude GoStrings Errors Hash Entity PeerID Patterns Store Handlers TreeHandler ComputeValues TypeDefs TypeConstraint TypeValidate.

Open Scope Z_scope.

(** ** The order of floats *)

(** The place of a number in the order, [None] for NaN: infinities last, zeros
    between the signs, and within a sign the exponent before the mantissa. *)
Definition rank (f : spec_float) : option (Z * Z * Z) :=
  match f with
  | S754_nan => None
  | S754_zero _ => Some (0, 0, 0)
  | S754_infinity s => Some (if s then -2 else 2, 0, 0)
  | S754_finite s m e => Some (if s then (-1, - e, - Zpos m) else (1, e, Zpos m))
  end.

Definition rank_le (a b : Z * Z * Z) : Prop :=
  let '(a1, a2, a3) := a in let '(b1, b2, b3) := b in a1 < b1 \/ a1 = b1 /\ (a2 < b2 \/ a2 = b2 /\ a3 <= b3).

Lemma SFleb_rank f g : SFleb f g = true <-> exists a b, rank f = Some a /\ rank g = Some b /\ rank_le a b.
Proof.
  assert (Hout : forall (o p : option (Z * Z * Z)) (c : bool),
    match o, p with Some a, Some b => c = true <-> rank_le a b | _, _ => c = false end ->
    c = true <-> exists a b, o = Some a /\ p = Some b /\ rank_le a b).
  { intros [a|] [b|] c Hc; [rewrite Hc|rewrite Hc..]; split; try (by intros (? & ? & ? & ? & ?)); try done; [by eauto 6|].
    by intros (? & ? & [= <-] & [= <-] & ?). }
  apply Hout. unfold SFleb. destruct f as [s|s| |s m e], g as [s'|s'| |s' m' e']; cbn;
    try (destruct s); try (destruct s'); cbn; try done; try (split; [intros; lia|done]); try (split; [done|lia]).
  - change (Pos.compare_cont Eq m m') with (m ?= m')%positive.
    destruct (Z.compare_spec e e'), (Pos.compare_spec m m'); cbn; (split; [intros; try done; lia|intros; try done; lia]).
  - change (Pos.compare_cont Eq m m') with (m ?= m')%positive.
    destruct (Z.compare_spec e e'), (Pos.compare_spec m m'); cbn; (split; [intros; try done; lia|intros; try done; lia]).
Qed.

Lemma SFleb_trans f g h : SFleb f g = true -> SFleb g h = true -> SFleb f h = true.
Proof.
  rewrite !SFleb_rank. intros (a & b & Ha & Hb & Hab) (b' & c & Hb' & Hc & Hbc). rewrite Hb in Hb'. injection Hb' as <-.
  exists a, c. split; [done|]. split; [done|]. destruct a as [[]], b as [[]], c as [[]]. cbn in *. lia.
Qed.

(** ** Segments of a glob *)

Definition slash_free (s : string) : Prop := IndexByte s "/" = None.

Fixpoint join_segments (l : list string) : string :=
  match l with [] => "" | [x] => x | x :: l => x +:+ "/" +:+ join_segments l end.

Lemma split_segments_spec acc s : slash_free acc ->
  join_segments (split_segments acc s) = acc +:+ s /\ Forall slash_free (split_segments acc s) /\ split_segments acc s <> [].
Proof.
  revert acc. induction s as [|c s IH]; intros acc Hacc; cbn [split_segments].
  - cbn. rewrite append_nil_r. split; [done|]. split; [by repeat constructor|done].
  - destruct (Ascii.eqb_spec c "/") as [->|Hc].
    + destruct (IH "" eq_refl) as (Hj & Hf & Hne). split; [|split; [by constructor|done]].
      cbn [join_segments]. rewrite Hj. destruct (split_segments "" s); [done|]. reflexivity.
    + destruct (IH (acc +:+ String c "")) as (Hj & Hf & Hne).
      { unfold slash_free in *. apply IndexByte_append_None. split; [done|]. cbn. apply Ascii.eqb_neq in Hc. by rewrite Hc. }
      split; [|done]. rewrite Hj, append_assoc. reflexivity.
Qed.

Lemma join_splitGlob s : join_segments (splitGlob s) = s.
Proof.
  unfold splitGlob. destruct (String.eqb_spec s "") as [->|]; [done|]. by destruct (split_segments_spec "" s eq_refl) as (-> & _).
Qed.

Lemma splitGlob_slash_free s : Forall slash_free (splitGlob s).
Proof. unfold splitGlob. destruct (String.eqb s ""); [constructor|]. by destruct (split_segments_spec "" s eq_refl) as (_ & ? & _). Qed.

Lemma join_snoc init x : init <> [] -> join_segments (init ++ [x])%list = join_segments init +:+ "/" +:+ x.
Proof.
  induction init as [|y init IH]; [done|]. intros _. destruct init as [|z init]; [done|].
  cbn [app join_segments] in *. rewrite IH by done. by rewrite !append_assoc.
Qed.

(** A glob whose segments are literal, but for a last one that may be [*]: the
    matcher of capabilities reads it as the glob it is, [*] standing for the rest
    of the path. *)
Definition literal (seg : string) : Prop := seg <> "*" /\ seg <> "**".
Definition plain_glob (p : string) : Prop :=
  HasPrefix p "/*/" = false /\ exists init, Forall literal init /\ (splitGlob p = init \/ splitGlob p = (init ++ ["*"])%list).

Lemma narrower_literal init child rest : Forall literal init -> narrowerSegments child (init ++ rest)%list = true ->
  exists tail, child = (init ++ tail)%list /\ narrowerSegments tail rest = true.
Proof.
  intros Hl. revert child. induction Hl as [|x init [Hx Hxx] Hl IH]; intros child; cbn [app narrowerSegments]; [by exists child|].
  apply String.eqb_neq in Hx, Hxx. rewrite Hxx. destruct child as [|c child]; [done|]. rewrite Hx.
  destruct (String.eqb_spec c x) as [->|]; [|done]. intros (tail & -> & Ht)%IH. by exists tail.
Qed.

(** [q/x] for a segment [x] that is not [*] matches only itself. *)
Lemma matches_segment t q x : slash_free x -> x <> "*" -> HasPrefix (q +:+ "/*") "/*/" = false ->
  MatchesPattern t (q +:+ "/" +:+ x) = true -> t = q +:+ "/" +:+ x.
Proof.
  intros Hx Hne Hp. set (c := q +:+ "/" +:+ x).
  assert (H1 : HasPrefix c "/*/" = false).
  { destruct (HasPrefix c "/*/") eqn:Hc; [|done]. apply HasPrefix_spec in Hc as [r Hr]. unfold c in Hr.
    destruct q as [|a [|b q]]; cbn in Hr.
    - injection Hr as Hr. change (x = String "*" (String "/" r)) in Hr. subst x. discriminate.
    - injection Hr as -> Hr. discriminate.
    - injection Hr as -> -> Hr. apply not_true_iff_false in Hp. contradict Hp.
      destruct q as [|d q]; cbn in Hr; [reflexivity|]. injection Hr as -> _. reflexivity. }
  assert (H2 : HasSuffix c "/*" = false).
  { destruct (HasSuffix c "/*") eqn:Hc; [|done]. apply HasSuffix_spec in Hc as [r Hr]. unfold c in Hr.
    change ("/" +:+ x) with (String "/" x) in Hr. change "/*" with (String "/" "*") in Hr.
    apply append_eq_append in Hr as [(w & -> & Hw)|(w & -> & Hw)]; destruct w as [|a w]; cbn in Hw.
    - by injection Hw.
    - injection Hw as <- ->. apply IndexByte_append_None in Hx as [_ Hx]. discriminate.
    - by injection Hw.
    - injection Hw as <- Hw. destruct w as [|a' w]; cbn in Hw; [discriminate|]. injection Hw as _ Hw. by destruct w. }
  assert (H3 : String.eqb c "*" = false).
  { apply String.eqb_neq. unfold c. destruct q as [|a q]; [discriminate|]. cbn. injection 1 as _ Hq. by destruct q. }
  destruct c as [|a c'] eqn:Hc; [by apply String.eqb_eq|]. cbn [MatchesPattern]. rewrite H3, H1, H2. apply String.eqb_eq.
Qed.

Lemma matches_subtree t q : HasPrefix (q +:+ "/*") "/*/" = false -> MatchesPattern t (q +:+ "/*") = HasPrefix t (q +:+ "/").
Proof.
  intros Hp. assert (H1 : String.eqb (q +:+ "/*") "*" = false).
  { apply String.eqb_neq. destruct q as [|a q]; [discriminate|]. cbn. injection 1 as _ Hq. by destruct q. }
  assert (H2 : HasSuffix (q +:+ "/*") "/*" = true) by (apply HasSuffix_spec; eauto).
  assert (H3 : str_take (slen (q +:+ "/*") - 1) (q +:+ "/*") = q +:+ "/").
  { change "/*" with ("/" +:+ "*"). rewrite <- append_assoc. rewrite slen_append.
    replace (slen (q +:+ "/") + slen "*" - 1)%nat with (slen (q +:+ "/")) by (cbn; lia). apply str_take_append. }
  destruct (q +:+ "/*") as [|a r] eqn:Hr; [by destruct q|]. cbn [MatchesPattern]. by rewrite H1, Hp, H2, H3.
Qed.

Lemma typePatternNarrower_sound t c p : plain_glob p -> typePatternNarrower c p = true ->
  MatchesPattern t c = true -> MatchesPattern t p = true.
Proof.
  intros (Hp & init & Hl & Hseg). unfold typePatternNarrower. destruct (String.eqb_spec c p) as [->|Hne]; [done|].
  intros Hn Ht. destruct Hseg as [Hseg|Hseg]; rewrite Hseg in Hn.
  - rewrite <- (app_nil_r init) in Hn. apply narrower_literal in Hn as (tail & Hc & Htail); [|done].
    destruct tail; [|done]. rewrite app_nil_r in Hc. contradict Hne.
    by rewrite <- (join_splitGlob c), <- (join_splitGlob p), Hc, Hseg.
  - apply narrower_literal in Hn as (tail & Hc & Htail); [|done]. cbn in Htail. destruct tail as [|x [|y tail]]; [done| |done].
    assert (Hx : slash_free x).
    { pose proof (splitGlob_slash_free c) as Hf. rewrite Hc in Hf. apply Forall_app in Hf as [_ Hf]. by inversion Hf. }
    destruct (decide (init = [])) as [->|Hi].
    { cbn in Hseg. rewrite <- (join_splitGlob p), Hseg. done. }
    assert (Ep : p = join_segments init +:+ "/*") by (by rewrite <- (join_splitGlob p), Hseg, join_snoc).
    assert (Ec : c = join_segments init +:+ "/" +:+ x) by (by rewrite <- (join_splitGlob c), Hc, join_snoc).
    rewrite Ep in Hp |- *. rewrite matches_subtree by done. destruct (decide (x = "*")) as [->|Hxs].
    { contradict Hne. by rewrite Ec, Ep. }
    rewrite Ec in Ht. apply matches_segment in Ht as ->; [|done..]. rewrite <- append_assoc. apply HasPrefix_append.
Qed.

(** ** Narrowing *)

Section narrowing.
Context {CS L IX : Type} `{ContentStore CS} `{LocationIndex L} `{HashableCodec, TypeCodec, GoText, FormatLib, Base58}.
Implicit Types (hctx : option (TreeState CS L IX)).

(** The bound of a type pattern is a plain glob. *)
Definition plain_bound (c : Entity) : Prop :=
  Type_ c = TypeConstraintTypePattern -> forall p, DecTextBound "pattern" (Data c) = Ok p -> plain_glob p.

Lemma compare_bounds_none {A} field ty (decode : Raw -> res string A) c p narrower detail :
  compare_bounds field ty decode c p narrower detail = None ->
  exists b b', decode (Data c) = Ok b /\ decode (Data p) = Ok b' /\ narrower b b' = true.
Proof.
  unfold compare_bounds. destruct (decode (Data c)) as [b|]; [|done]. destruct (decode (Data p)) as [b'|]; [|done].
  destruct (narrower b b') eqn:Hn; [|done]. eauto.
Qed.

Lemma number_arm_narrower label c c' value accepts rel :
  (forall v, accepts v c = true -> accepts v c' = true) ->
  cv_Valid (number_arm label (Ok c) value accepts rel) = true -> cv_Valid (number_arm label (Ok c') value accepts rel) = true.
Proof.
  intros Hi. unfold number_arm. destruct (decodeNumeric value) as [v|]; [|done]. destruct (negb _); [done|].
  destruct (accepts v c) eqn:Hc; [|done]. by rewrite (Hi v Hc).
Qed.

Lemma size_arm_narrower label kinds noun c c' size accepts rel :
  (forall n, accepts n c = true -> accepts n c' = true) ->
  cv_Valid (size_arm label kinds noun (Ok c) size accepts rel) = true -> cv_Valid (size_arm label kinds noun (Ok c') size accepts rel) = true.
Proof.
  intros Hi. unfold size_arm. destruct size as [n|]; [|done]. destruct (accepts n c) eqn:Hc; [|done]. by rewrite (Hi n Hc).
Qed.

Lemma equal_any_canonical want i l cl : canonical_all l = Some cl -> equal_any want i l = Ok (bool_decide (want ∈ cl)).
Proof.
  revert i cl. induction l as [|e l IH]; intros i cl; cbn [canonical_all equal_any].
  - intros [= <-]. by rewrite bool_decide_false by apply not_elem_of_nil.
  - destruct (canonicalizeRaw e) as [c|]; [|done]. intros (cl' & Hcl & ->)%fmap_Some.
    destruct (bool_decide_reflect (want = c)) as [->|Hne]; [f_equal; symmetry; apply bool_decide_eq_true; left|].
    rewrite (IH _ _ Hcl). f_equal. apply bool_decide_ext. rewrite elem_of_cons. naive_solver.
Qed.

Lemma equal_any_false want i l : equal_any want i l = Ok false -> exists cl, canonical_all l = Some cl /\ want ∉ cl.
Proof.
  revert i. induction l as [|e l IH]; intros i; cbn [canonical_all equal_any]; [exists []; split; [done|apply not_elem_of_nil]|].
  destruct (canonicalizeRaw e) as [c|]; [|done]. destruct (bool_decide_reflect (want = c)); [done|].
  intros (cl & -> & Hw)%IH. exists (c :: cl). split; [done|]. by apply not_elem_of_cons.
Qed.

Lemma equal_any_true want i l : equal_any want i l = Ok true -> exists e, e ∈ l /\ canonicalizeRaw e = Ok want.
Proof.
  revert i. induction l as [|e l IH]; intros i; cbn [equal_any]; [done|].
  destruct (canonicalizeRaw e) as [c|] eqn:Hc; [|done]. destruct (bool_decide_reflect (want = c)) as [->|].
  - intros _. exists e. split; [left|done].
  - intros (e' & He & Hw)%IH. exists e'. split; [by right|done].
Qed.

Lemma isCanonicalSubset_spec sub sup : isCanonicalSubset sub sup = true <->
  exists cl, canonical_all sup = Some cl /\ forall e, e ∈ sub -> exists c, canonicalizeRaw e = Ok c /\ c ∈ cl.
Proof.
  unfold isCanonicalSubset. destruct (canonical_all sup) as [cl|]; [|split; [done|by intros (? & ? & _)]].
  rewrite all_true. split.
  - intros Ha. exists cl. split; [done|]. intros e He. specialize (Ha e He). destruct (canonicalizeRaw e) as [c|]; [|done].
    apply bool_decide_eq_true in Ha. eauto.
  - intros (cl' & [= <-] & Ha) e He. destruct (Ha e He) as (c & -> & Hc). by apply bool_decide_eq_true.
Qed.

Lemma canonical_all_sub sub cl : (forall e, e ∈ sub -> exists c, canonicalizeRaw e = Ok c /\ c ∈ cl) ->
  exists cs, canonical_all sub = Some cs /\ cs ⊆ cl.
Proof.
  induction sub as [|e sub IH]; intros Hs; cbn [canonical_all]; [exists []; split; [done|apply list_subseteq_nil]|].
  destruct (Hs e) as (c & -> & Hc); [left|]. destruct IH as (cs & -> & Hcs); [intros e' He'; apply Hs; by right|].
  exists (c :: cs). split; [done|]. intros x [->|Hx]%elem_of_cons; auto.
Qed.

(** A constraint that narrows another accepts only what the other accepts. *)
Lemma checkNarrower_sound hctx field value cc pc : Type_ cc = Type_ pc -> plain_bound pc ->
  checkNarrower field cc pc = None -> satisfies hctx value cc = true -> satisfies hctx value pc = true.
Proof.
  intros Hty Hplain. unfold checkNarrower, satisfies, evaluate. cbn [ConstraintType ConstraintData ct_Value]. rewrite <- Hty.
  destruct (String.eqb (Type_ cc) TypeConstraintMin).
  { intros (b & b' & -> & -> & Hn)%compare_bounds_none. apply number_arm_narrower. intros v Hv. by eapply SFleb_trans. }
  destruct (String.eqb (Type_ cc) TypeConstraintMax).
  { intros (b & b' & -> & -> & Hn)%compare_bounds_none. apply number_arm_narrower. intros v Hv. by eapply SFleb_trans. }
  do 4 (match goal with |- context [String.eqb (Type_ cc) ?T] => destruct (String.eqb (Type_ cc) T) end;
    [intros (b & b' & -> & -> & Hn)%compare_bounds_none; apply size_arm_narrower; intros n; rewrite !Z.leb_le in *; lia|]).
  destruct (String.eqb (Type_ cc) TypeConstraintPattern) eqn:E1.
  { intros (b & b' & Hb & Hb' & Hn)%compare_bounds_none. apply String.eqb_eq in Hn as ->. by rewrite Hb, Hb'. }
  destruct (String.eqb (Type_ cc) TypeConstraintFormat) eqn:E2.
  { apply String.eqb_eq in E2. rewrite E2. intros (b & b' & Hb & Hb' & Hn)%compare_bounds_none. apply String.eqb_eq in Hn as ->.
    change (String.eqb TypeConstraintFormat TypeConstraintOneOf) with false.
    change (String.eqb TypeConstraintFormat TypeConstraintNotOneOf) with false. by rewrite Hb, Hb'. }
  destruct (String.eqb (Type_ cc) TypeConstraintOneOf).
  { intros (b & b' & -> & -> & Hn)%compare_bounds_none. apply isCanonicalSubset_spec in Hn as (cl & Hcl & Hn).
    unfold ecfByteEqualAny. destruct (canonicalizeRaw value) as [want|]; [|done].
    destruct (equal_any want 0 b) as [[|]|] eqn:Hb; [|done..]. apply equal_any_true in Hb as (e & He & Hw).
    destruct (Hn e He) as (c & Hc & Hin). rewrite Hw in Hc. injection Hc as <-.
    rewrite (equal_any_canonical _ _ _ _ Hcl). by rewrite bool_decide_true. }
  destruct (String.eqb (Type_ cc) TypeConstraintNotOneOf).
  { intros (b & b' & -> & -> & Hn)%compare_bounds_none. apply isCanonicalSubset_spec in Hn as (cl & Hcl & Hn).
    unfold ecfByteEqualAny. destruct (canonicalizeRaw value) as [want|]; [|done].
    destruct (equal_any want 0 b) as [[|]|] eqn:Hb; [done| |done]. apply equal_any_false in Hb as (cl' & Hcl' & Hw).
    rewrite Hcl in Hcl'. injection Hcl' as <-. apply canonical_all_sub in Hn as (cs & Hcs & Hsub).
    rewrite (equal_any_canonical _ _ _ _ Hcs). rewrite bool_decide_false by (intros Hin; by apply Hw, Hsub). done. }
  destruct (String.eqb_spec (Type_ cc) TypeConstraintTypePattern) as [E3|]; [|done].
  intros (b & b' & Hb & Hb' & Hn)%compare_bounds_none. rewrite Hb, Hb'. rewrite Hty in E3. specialize (Hplain E3 _ Hb').
  unfold validateTypePattern, type_matches. destruct hctx as [st|]; [|done].
  assert (Hm : forall t, MatchesPattern t b = true -> MatchesPattern t b' = true) by (intros t; by apply typePatternNarrower_sound).
  assert (Ha : forall ent, cv_Valid (if MatchesPattern (Type_ ent) b then valid else invalid ("type_pattern: entity type " +:+ Type_ ent +:+ " does not match " +:+ b)) = true ->
    cv_Valid (if MatchesPattern (Type_ ent) b' then valid else invalid ("type_pattern: entity type " +:+ Type_ ent +:+ " does not match " +:+ b')) = true).
  { intros ent. destruct (MatchesPattern (Type_ ent) b) eqn:Hmb; [|done]. by rewrite (Hm _ Hmb). }
  destruct (DecHash value) as [h|]; [destruct (cs_Get (ts_Store st) h); [apply Ha|done]|].
  destruct (decodeString value) as [s|]; [|done]. destruct (Get (ts_Index st) s) as [h|]; [|done].
  destruct (cs_Get (ts_Store st) h); [apply Ha|done].
Qed.

(** What a type definition accepts of a value for a field. *)
Definition accepts hctx (def : TypeDefinition) (f : string) (value : Raw) : bool :=
  match Fields def !! f with None => true | Some spec => all (satisfies hctx value) (fs_Constraints spec) end.

Definition plain_bounds (def : TypeDefinition) : Prop :=
  forall f spec c, Fields def !! f = Some spec -> c ∈ fs_Constraints spec -> plain_bound c.

Lemma findConstraint_Some cs t c : findConstraint cs t = Some c -> c ∈ cs /\ Type_ c = t.
Proof.
  induction cs as [|c' cs IH]; cbn; [done|]. destruct (String.eqb_spec (Type_ c') t) as [Ht|].
  - intros [= ->]. split; [left|done].
  - intros [Hin Ht]%IH. split; [by right|done].
Qed.

Lemma flat_map_nil {A B} (g : A -> list B) l : flat_map g l = [] -> forall x, x ∈ l -> g x = [].
Proof.
  induction l as [|y l IH]; cbn; [intros _ x Hx; by apply elem_of_nil in Hx|].
  intros [Hy Hl]%app_nil x [->|Hx]%elem_of_cons; auto.
Qed.

Lemma narrow_step_sound hctx child parent f value : plain_bounds parent -> narrow_step child parent = [] ->
  is_Some (Fields child !! f) -> accepts hctx child f value = true -> accepts hctx parent f value = true.
Proof.
  unfold narrow_step, accepts. rewrite per_name_nil. intros Hplain Hn [cs Hcs]. rewrite Hcs, all_true. intros Hc.
  destruct (Fields parent !! f) as [ps|] eqn:Hps; [|done]. apply all_true. intros pc Hpc.
  specialize (Hn f ps Hps). unfold narrow_field in Hn. rewrite Hcs in Hn. apply (flat_map_nil _ _ Hn) in Hpc as Hone. cbn beta in Hone.
  destruct (findConstraint (fs_Constraints cs) (Type_ pc)) as [cc|] eqn:Hf; [|done].
  apply findConstraint_Some in Hf as [Hin Hty]. destruct (checkNarrower f cc pc) eqn:Hk; [done|].
  eapply checkNarrower_sound; [exact Hty|by eapply Hplain|exact Hk|by apply Hc].
Qed.

(** The type and the types it extends, up to one that extends none or one that
    is not found. *)
Inductive ancestry (st : TreeState CS L IX) : TypeDefinition -> list TypeDefinition -> Prop :=
| ancestry_root d : Extends d = "" -> ancestry st d [d]
| ancestry_lost d : Extends d <> "" -> resolveTypeDefinition st (Extends d) = None -> ancestry st d [d]
| ancestry_step d p l : Extends d <> "" -> resolveTypeDefinition st (Extends d) = Some p -> ancestry st p l -> ancestry st d (d :: l).

Lemma ancestry_head st d l : ancestry st d l -> exists l', l = d :: l'.
Proof. inversion 1; eauto. Qed.

Lemma verifyNarrowing_ancestry fuel st d vs : verifyNarrowing fuel st d = Some vs -> exists l, ancestry st d l.
Proof.
  revert d vs. induction fuel as [|fuel IH]; intros d vs; cbn [verifyNarrowing]; [done|].
  destruct (String.eqb_spec (Extends d) "") as [He|He]; [intros _; exists [d]; by constructor|].
  destruct (resolveTypeDefinition st (Extends d)) as [p|] eqn:Hp; [|intros _; exists [d]; by constructor].
  intros (vs' & Hv & _)%fmap_Some. destruct (IH _ _ Hv) as [l Hl]. exists (d :: l). by econstructor.
Qed.

(** The check of a type against the types it extends returns exactly when
    these are finitely many: on an [Extends] that leads back to the type it recurs
    for ever.  With at least as many levels of recursion as there are types it
    does return. *)
Theorem verifyNarrowing_returns (st : TreeState CS L IX) d :
  (forall l fuel, ancestry st d l -> (length l <= fuel)%nat -> is_Some (verifyNarrowing fuel st d))
  /\ ((exists fuel vs, verifyNarrowing fuel st d = Some vs) <-> exists l, ancestry st d l).
Proof.
  assert (Hret : forall l fuel, ancestry st d l -> (length l <= fuel)%nat -> is_Some (verifyNarrowing fuel st d)).
  { intros l fuel Hl. revert fuel. induction Hl as [d He|d He Hr|d p l He Hr Hl IH]; intros [|n] Hn; cbn [length] in Hn; try lia;
      cbn [verifyNarrowing].
    - by rewrite He.
    - apply String.eqb_neq in He. by rewrite He, Hr.
    - apply String.eqb_neq in He. rewrite He, Hr. destruct (IH n) as [x Hx]; [lia|]. rewrite Hx. by eexists. }
  split; [exact Hret|]. split.
  - intros (fuel & vs & Hv). by eapply verifyNarrowing_ancestry.
  - intros [l Hl]. destruct (Hret l (length l) Hl) as [vs Hv]; [lia|]. eauto.
Qed.


(** A type that extends itself. *)
Theorem narrowing_loops (st : TreeState CS L IX) d : Extends d <> "" -> resolveTypeDefinition st (Extends d) = Some d ->
  forall fuel, verifyNarrowing fuel st d = None.
Proof.
  intros He Hr. apply String.eqb_neq in He. induction fuel as [|fuel IH]; cbn; [done|]. by rewrite He, Hr, IH.
Qed.
End narrowing.

(** ** The reading of a type definition *)

Section reading.
Context `{TypeCodec}.

Definition primitives (raw : Raw) : list (string * Prop) := [
  ("primitive/string", is_Some (DecString raw)); ("primitive/bytes", is_Some (DecBytes raw));
  ("primitive/uint", is_Some (DecUint raw)); ("primitive/int", is_Some (DecInt raw));
  ("primitive/float", is_Some (DecFloat raw)); ("primitive/bool", is_Some (DecBool raw))].

(** The value has the shape of the field: an array, else a map, else one of the
    primitive types; a reference to another type is not followed. *)
Definition fits (raw : Raw) (spec : FieldSpec) : Prop :=
  match ArrayOf spec, MapOf spec with
  | Some _, _ => is_Some (DecArray raw)
  | None, Some _ => is_Some (DecMap raw)
  | None, None => forall ok, (TypeRef spec, ok) ∈ primitives raw -> ok
  end.

Lemma checkFieldType_none f raw spec : checkFieldType f raw spec = None <-> fits raw spec.
Proof.
  assert (Hd : forall (P : Prop) `{Decision P} (v : Violation), (if bool_decide P then None else Some v) = None <-> P).
  { intros P HP v. destruct (bool_decide_reflect P); by split. }
  unfold checkFieldType, fits. destruct (ArrayOf spec); [apply Hd|]. destruct (MapOf spec); [apply Hd|].
  destruct (String.eqb_spec (TypeRef spec) "") as [->|_].
  { split; [|done]. intros _ ok Hin. unfold primitives in Hin. rewrite !elem_of_cons, elem_of_nil in Hin. naive_solver. }
  unfold checkPrimitiveType, primitives. generalize (TypeRef spec). intros ref.
  setoid_rewrite elem_of_cons. setoid_rewrite elem_of_cons. setoid_rewrite elem_of_cons. setoid_rewrite elem_of_cons.
  setoid_rewrite elem_of_cons. setoid_rewrite elem_of_cons. setoid_rewrite elem_of_nil.
  repeat match goal with |- context [String.eqb ref ?T] => destruct (String.eqb_spec ref T) as [->|?]; [rewrite Hd; naive_solver|] end.
  naive_solver.
Qed.

Lemma structuralCheck_nil def fields : structuralCheck def fields = [] <->
  forall f spec, Fields def !! f = Some spec ->
    match fields !! f with None => Optional spec = true | Some raw => fits raw spec end.
Proof.
  unfold structuralCheck. rewrite per_name_nil. split; intros Hl f spec Hf; specialize (Hl f spec Hf); destruct (fields !! f) as [raw|].
  - apply (checkFieldType_none f). by destruct (checkFieldType f raw spec).
  - by destruct (Optional spec).
  - apply (checkFieldType_none f) in Hl. by rewrite Hl.
  - by rewrite Hl.
Qed.
End reading.

(** ** Validation *)

Section validation.
Context {CS L IX : Type} `{ContentStore CS} `{LocationIndex L} `{TypeCodecLaws, GoText, FormatLib, Base58}.
Context (alg : byte) (execute : Execute (CS := CS) (L := L) (IX := IX)).
Implicit Types (st : TreeState CS L IX).

Definition under_standard (uri : string) : bool := HasPrefix uri "system/type/constraint/".

(** The dispatcher hands what is addressed below [system/type/constraint] to the
    standard handler, and returns its answer. *)
Definition routes_standard : Prop := forall st uri e req,
  under_standard uri = true -> DecodeConstraintRequest (Data e) = Some req ->
  exists r, execute st uri "validate" e = (st, Ok (Some r)) /\ cs_Status r = 200
    /\ DecodeConstraintResult (Data (cs_Result r)) = Ok (evaluate (Some st) req).

Context (Hroutes : routes_standard) (Halg : alg = AlgorithmSHA256 \/ alg = AlgorithmSHA384).

Lemma request_builds d : exists e, ConstraintRequest_ToEntity alg d = Ok e /\ DecodeConstraintRequest (Data e) = Some d.
Proof.
  destruct (constraint_request_roundtrip d) as (raw & Hraw & Hne & Hdec). unfold ConstraintRequest_ToEntity. rewrite Hraw. cbn [of_option res_bind].
  pose proof (Ent.NewEntityFormat_spec alg TypeConstraintValidateReq raw) as Hn. unfold Ent.NewEntity.
  destruct (Ent.NewEntityFormat alg TypeConstraintValidateReq raw) as [e|er].
  - destruct Hn as (_ & Hd & _). exists e. by rewrite Hd.
  - exfalso. destruct Hn as [[_ [?|[?|[? ?]]]]|Hc]; [done|done|done|].
    unfold ComputeFormat in Hc. destruct (type_hashable TypeConstraintValidateReq raw) as [enc He]. rewrite He in Hc.
    cbn in Hc. unfold OfBytes in Hc. destruct Halg as [-> | ->]; done.
Qed.

Lemma dispatch_standard st f value c : under_standard (Type_ c) = true ->
  exists v, dispatchConstraint alg (Some execute) st f value c = (st, v) /\ (v = None <-> satisfies (Some st) value c = true).
Proof.
  intros Hu. unfold dispatchConstraint, satisfies. set (req := Build_ConstraintValidateRequestData _ _ _).
  destruct (request_builds req) as (e & -> & Hdec). destruct (Hroutes st _ e req Hu Hdec) as (r & -> & Hs & Hr). cbn [respStatus].
  rewrite Hs, Hr. cbn [Z.eqb negb Pos.eqb]. destruct (cv_Valid (evaluate (Some st) req)); eexists; split; done.
Qed.

Lemma dispatch_all_standard st f value cs : Forall (fun c => under_standard (Type_ c) = true) cs ->
  exists vs, dispatch_all alg (Some execute) st f value cs = (st, vs) /\ (vs = [] <-> all (satisfies (Some st) value) cs = true).
Proof.
  induction 1 as [|c cs Hc _ IH]; cbn [dispatch_all]; [by exists []|].
  destruct (dispatch_standard st f value c Hc) as (v & -> & Hv). destruct IH as (vs & -> & Hvs).
  eexists. split; [done|]. unfold all in *. cbn [forallb]. rewrite andb_true_iff, <- Hv, <- Hvs, app_nil.
  destruct v; cbn; naive_solver.
Qed.

(** The constraints of the fields of a type are standard ones. *)
Definition standard_constraints (def : TypeDefinition) : Prop :=
  forall f spec, Fields def !! f = Some spec -> Forall (fun c => under_standard (Type_ c) = true) (fs_Constraints spec).

Lemma dispatch_fields_standard st def fields names : standard_constraints def ->
  exists vs, dispatch_fields alg (Some execute) st def fields names = (st, vs)
    /\ (vs = [] <-> forall f value, f ∈ names -> fields !! f = Some value -> accepts (Some st) def f value = true).
Proof.
  intros Hstd. induction names as [|f names (vs & IH & Hvs)]; cbn [dispatch_fields].
  { exists []. split; [done|]. split; [|done]. intros _ f value Hf. by apply elem_of_nil in Hf. }
  assert (Hone : exists vs, match Fields def !! f, fields !! f with
        Some spec, Some value => dispatch_all alg (Some execute) st f value (fs_Constraints spec) | _, _ => (st, []) end = (st, vs)
      /\ (vs = [] <-> forall value, fields !! f = Some value -> accepts (Some st) def f value = true)).
  { unfold accepts. destruct (Fields def !! f) as [spec|] eqn:Hf; [|exists []; split; [done|by split]].
    destruct (fields !! f) as [value|]; [|exists []; split; [done|by split]].
    destruct (dispatch_all_standard st f value _ (Hstd f spec Hf)) as (vs' & -> & Hvs'). exists vs'. split; [done|].
    rewrite Hvs'. split; [by intros ? ? [= <-]|]. intros Ha. by apply Ha. }
  destruct Hone as (vs' & -> & Hvs'). rewrite IH. eexists. split; [done|]. rewrite app_nil, Hvs', Hvs. split.
  - intros [Hf Hl] g value [->|Hg]%elem_of_cons; [apply Hf|by apply Hl].
  - intros Hl. split; [intros value; apply Hl; left|]. intros g value Hg. apply Hl. by right.
Qed.

(** An entity with the fields [fields] is of type [def]: a field that is missing
    is optional, one that is there has the shape and meets the constraints. *)
Definition well_typed st (def : TypeDefinition) (fields : gmap string Raw) : Prop :=
  forall f spec, Fields def !! f = Some spec ->
    match fields !! f with
    | None => Optional spec = true
    | Some raw => fits raw spec /\ accepts (Some st) def f raw = true
    end.

(** A type definition is narrower than the types it extends. *)
Definition narrows fuel st (subject : Entity) : Prop :=
  forall d, Type_ subject = TypeType -> DecodeTypeDef (Data subject) = Some d -> Extends d <> "" ->
    verifyNarrowing fuel st d = Some [].

Lemma constraintDispatch_standard st def fields : standard_constraints def ->
  exists vs, constraintDispatch alg (Some execute) st def fields = (st, (vs, []))
    /\ (vs = [] <-> forall f value, fields !! f = Some value -> accepts (Some st) def f value = true).
Proof.
  intros Hstd. unfold constraintDispatch.
  destruct (dispatch_fields_standard st def fields (sorted_names (Fields def)) Hstd) as (vs & -> & Hvs).
  exists vs. split; [done|]. rewrite Hvs. split; intros Ha f value; [|intros _; apply Ha].
  intros Hf. destruct (Fields def !! f) as [spec|] eqn:Hs; [|unfold accepts; by rewrite Hs].
  apply Ha; [|done]. apply elem_of_sorted_names. eauto.
Qed.

Lemma phases_well_typed st def fields (vs : list Violation) :
  (vs = [] <-> forall f value, fields !! f = Some value -> accepts (Some st) def f value = true) ->
  structuralCheck def fields = [] /\ vs = [] <-> well_typed st def fields.
Proof.
  intros ->. rewrite structuralCheck_nil. unfold well_typed. split.
  - intros [Hs Ha] f spec Hf. specialize (Hs f spec Hf). destruct (fields !! f) as [raw|] eqn:Hr; [|done]. auto.
  - intros Hw. split.
    + intros f spec Hf. specialize (Hw f spec Hf). destruct (fields !! f); [apply Hw|done].
    + intros f value Hv. destruct (Fields def !! f) as [spec|] eqn:Hf; [|unfold accepts; by rewrite Hf].
      specialize (Hw f spec Hf). rewrite Hv in Hw. apply Hw.
Qed.

(** C21: an entity is answered to be valid exactly when it is of its type.  With
    the standard constraint handler behind the dispatcher, the operation resolves
    the type that the request names, or else the one of the entity, and answers
    [Valid] if and only if that type is bound, the data is a map, every field the
    type requires is there, every field of the type that is there has its shape
    and meets its constraints, and a type definition is narrower than the types it
    extends; and it leaves the state as it is. *)
Theorem handleValidate_iff fuel st params st' res dispatch subject :
  handleValidate alg (Some execute) fuel st params = Some (st', Ok res) ->
  DecodeValidateRequest params = Some dispatch -> DecodeSubject (vr_Entity dispatch) = Some subject ->
  let typeName := if String.eqb (TypePath dispatch) "" then Type_ subject else TypePath dispatch in
  (forall def, resolveTypeDefinition st typeName = Some def -> standard_constraints def) ->
  st' = st /\ (Valid res = true <->
    exists def fields, resolveTypeDefinition st typeName = Some def /\ DecodeFieldMap (Data subject) = Ok fields
      /\ well_typed st def fields /\ narrows fuel st subject).
Proof.
  intros Hrun Hdec Hsub typeName Hstd. unfold handleValidate in Hrun. rewrite Hdec, Hsub in Hrun. fold typeName in Hrun.
  destruct (resolveTypeDefinition st typeName) as [def|].
  2: { injection Hrun as <- <-. split; [done|]. split; [done|]. by intros (? & ? & ? & _). }
  destruct (DecodeFieldMap (Data subject)) as [fields|].
  2: { injection Hrun as <- <-. split; [done|]. split; [done|]. by intros (? & ? & _ & ? & _). }
  destruct (constraintDispatch_standard st def fields (Hstd def eq_refl)) as (vs & Hd & Hvs). rewrite Hd in Hrun.
  apply fmap_Some in Hrun as (narrowed & Hn & Heq). injection Heq as -> ->. split; [done|]. cbn [Valid].
  assert (Hnar : narrowed = [] <-> narrows fuel st subject).
  { unfold narrows. destruct (String.eqb_spec (Type_ subject) TypeType) as [Et|Et]; [|injection Hn as <-; naive_solver].
    destruct (DecodeTypeDef (Data subject)) as [d|]; [|injection Hn as <-; naive_solver].
    destruct (String.eqb_spec (Extends d) "") as [Ee|Ee]; [injection Hn as <-; naive_solver|]. split.
    - by intros -> ? _ [= <-] _.
    - intros Hv. specialize (Hv d Et eq_refl Ee). congruence. }
  transitivity (structuralCheck def fields = [] /\ vs = [] /\ narrowed = []).
  { rewrite <- !app_nil. by destruct (structuralCheck def fields ++ vs ++ narrowed)%list. }
  pose proof (phases_well_typed _ _ _ _ Hvs) as Hw. split.
  - intros (Hs & Hv & Hna). exists def, fields. split; [done|]. split; [done|]. split; [apply Hw; by split|by apply Hnar].
  - intros (def' & fields' & [= <-] & [= <-] & [Hs Hv]%Hw & Hna%Hnar). by split.
Qed.
End validation.
