(* ===== verification/TypeMerge.v ===== *)
(** * Comparing and merging type definitions
      ([ext/type]: [analysis.go], [converge.go], [reconcile.go], [adopt.go],
      [handler.go])

    The operations other than [validate] read definitions and return a report or
    a definition; none of them writes.  Ranging over a map builds a map or a list
    that is then sorted, so its order does not show. *)

From Stdlib Require Import Ascii.
From S2P Require Import Prelude GoStrings Errors Hash Entity PeerID Store Handlers TreeHandler Content TypeDefs TypeConstraint TypeValidate.

Open Scope Z_scope.

(** ** Shapes *)

Fixpoint fieldShapeMatches (a b : FieldSpec) : bool :=
  match a with
  | mkField ref _ arr mp un _ _ _ _ _ _ =>
      String.eqb ref (TypeRef b)
      && match arr, ArrayOf b with Some x, Some y => fieldShapeMatches x y | None, None => true | _, _ => false end
      && match mp, MapOf b with Some x, Some y => fieldShapeMatches x y | None, None => true | _, _ => false end
      && (fix matching (us vs : list FieldSpec) : bool :=
            match us, vs with [], [] => true | u :: us, v :: vs => fieldShapeMatches u v && matching us vs | _, _ => false end)
           un (UnionOf b)
  end.

Fixpoint fieldShapeName (fs : FieldSpec) : string :=
  match fs with
  | mkField _ _ (Some x) _ _ _ _ _ _ _ _ => "array_of(" +:+ fieldShapeName x +:+ ")"
  | mkField _ _ None (Some x) _ _ _ _ _ _ _ => "map_of(" +:+ fieldShapeName x +:+ ")"
  | mkField _ _ None None (u :: us) _ _ _ _ _ _ =>
      "union_of[" +:+ fieldShapeName u
      +:+ (fix rest (us : list FieldSpec) : string := match us with [] => "" | u :: us => "," +:+ fieldShapeName u +:+ rest us end) us +:+ "]"
  | mkField ref _ None None [] _ _ _ _ _ _ => if String.eqb ref "" then "<unknown>" else ref
  end.

Record FieldComparisonData := { TypeMatch : bool; ConstraintMatch : bool; AOptional : bool; BOptional : bool }.
Record FieldIncompatibilityData := { FieldName : string; AType : string; BType : string; fi_Reason : string }.
Record CompareResultData := {
  cr_TypeAPath : string; cr_TypeBPath : string; Shared : gmap string FieldComparisonData; OnlyA : list string; OnlyB : list string;
  Incompatible : list FieldIncompatibilityData
}.
Record CompatibilityReportData := {
  cd_TypeAPath : string; cd_TypeBPath : string; Direction : string; Level : string; SharedFields : list string;
  IncompatibleFields : list FieldIncompatibilityData; MissingRequiredA : list string; MissingRequiredB : list string
}.
Record ReconcileResultData := {
  ReconciledType : Raw; StrategyUsed : string; Sources : list string; FieldsDropped : list string; FieldsMadeOptional : list string;
  Incompatibilities : list FieldIncompatibilityData
}.

Record CompareRequestData := { cp_TypeA : string; cp_TypeB : string }.
Record CompatibleRequestData := { cb_TypeA : string; cb_TypeB : string; cb_Direction : string }.
Record AdoptRequestData := { SourcePath : string; LocalName : string }.
Record ReconcileRequestData := { rq_TypePaths : list string; rq_Strategy : string }.

Class AnalysisCodec := {
  DecodeCompare : Raw -> option CompareRequestData;
  DecodeCompatible : Raw -> option CompatibleRequestData;
  DecodeConverge : Raw -> option (list string);
  DecodeAdopt : Raw -> option AdoptRequestData;
  DecodeReconcile : Raw -> option ReconcileRequestData;
  EncodeReconcileResult : ReconcileResultData -> option Raw
}.

(** ** Paths *)

Definition type_prefix : string := "system/type/".

(** The search from index 1 on: a slash, then the prefix. *)
Fixpoint strip_at (path : string) : option string :=
  match path with
  | EmptyString => None
  | String c rest =>
      if Ascii.eqb c "/" && HasPrefix rest type_prefix then Some (str_drop (slen type_prefix) rest)
      else strip_at rest
  end.

Definition stripTypePathPrefix (path : string) : string :=
  if (slen type_prefix <? slen path)%nat && HasPrefix path type_prefix then str_drop (slen type_prefix) path
  else match strip_at (str_drop 1 path) with Some name => name | None => path end.

Definition stripPeerPrefix (ref sourcePath : string) : string :=
  if negb (HasPrefix ref "/") then ref
  else match StrIndex ref "/system/type/" with
       | None => ref
       | Some idx => str_drop (idx + slen "/system/type/") ref
       end.

Section merge.
Context {CS L IX : Type} `{ContentStore CS} `{LocationIndex L} `{HashableCodec, TypeCodec, GoText, AnalysisCodec}.
Context (alg : byte).
Implicit Types (st : TreeState CS L IX).

(** ** Sets of constraints *)

(** The key of a constraint, by its type and its canonical data. *)
Definition constraint_key (c : Entity) : option string :=
  match canonicalizeRaw (Data c) with Err _ => None | Ok canon => Some (Type_ c +:+ "|" +:+ bytes_str canon) end.

Fixpoint key_set (cs : list Entity) : option (gset string) :=
  match cs with
  | [] => Some ∅
  | c :: cs => match constraint_key c with None => None | Some k => (fun s => {[k]} ∪ s) <$> key_set cs end
  end.

Definition constraintSetsEqual (a b : list Entity) : bool :=
  if negb (length a =? length b)%nat then false
  else match key_set a with
  | None => false
  | Some ma => match key_set b with
               | None => false
               | Some mb => if negb (size ma =? size mb)%nat then false else bool_decide (ma ⊆ mb)
               end
  end.

Fixpoint dedup (seen : gset string) (cs : list Entity) : list Entity :=
  match cs with
  | [] => []
  | c :: cs =>
      match constraint_key c with
      | None => c :: dedup seen cs
      | Some key => if bool_decide (key ∈ seen) then dedup seen cs else c :: dedup ({[key]} ∪ seen) cs
      end
  end.

Definition dedupConstraintsByCanonical (cs : list Entity) : list Entity := dedup ∅ cs.

Definition mergeConstraintsIntersect (specs : list FieldSpec) : list Entity :=
  dedupConstraintsByCanonical (flat_map fs_Constraints specs).

(** The map of a spec: of the constraints with one key the last one stays. *)
Definition keyed (s : FieldSpec) : gmap string Entity :=
  fold_left (fun m c => match constraint_key c with None => m | Some k => <[k := c]> m end) (fs_Constraints s) ∅.

Definition constraint_le (a b : Entity) : Prop :=
  if String.eqb (Type_ a) (Type_ b) then string_le (bytes_str (Data a)) (bytes_str (Data b)) else string_le (Type_ a) (Type_ b).
#[export] Instance constraint_le_dec a b : Decision (constraint_le a b).
Proof. unfold constraint_le. destruct (String.eqb _ _); apply _. Defined.

Definition mergeConstraintsUnionLeast (specs : list FieldSpec) : list Entity :=
  match map keyed specs with
  | [] => []
  | first :: others =>
      merge_sort constraint_le
        (map snd (filter (fun kc => all (fun m => bool_decide (is_Some (m !! kc.1))) others = true) (map_to_list first)))
  end.

(** ** Comparison *)

Definition compareTypes (pathA pathB : string) (a b : TypeDefinition) : CompareResultData := {|
  cr_TypeAPath := pathA; cr_TypeBPath := pathB;
  Shared := map_imap (fun name fa =>
    (fun fb => {| TypeMatch := fieldShapeMatches fa fb;
                  ConstraintMatch := constraintSetsEqual (fs_Constraints fa) (fs_Constraints fb);
                  AOptional := Optional fa; BOptional := Optional fb |}) <$> Fields b !! name) (Fields a);
  OnlyA := per_name (Fields a) (fun name _ => match Fields b !! name with None => [name] | Some _ => [] end);
  OnlyB := per_name (Fields b) (fun name _ => match Fields a !! name with None => [name] | Some _ => [] end);
  Incompatible := per_name (Fields a) (fun name fa =>
    match Fields b !! name with
    | None => []
    | Some fb => if fieldShapeMatches fa fb then []
                 else [{| FieldName := name; AType := fieldShapeName fa; BType := fieldShapeName fb; fi_Reason := "field shape differs" |}]
    end) |}.

Definition computeLevel (cmp : CompareResultData) (missingA missingB : bool) (direction : string) : string :=
  match Incompatible cmp with
  | _ :: _ => "incompatible"
  | [] =>
      if String.eqb direction "forward" then
        if missingA then "incompatible" else if missingB then "forward_only" else "fully_compatible"
      else if String.eqb direction "backward" then
        if missingB then "incompatible" else if missingA then "backward_only" else "fully_compatible"
      else if negb missingA && negb missingB then "fully_compatible"
      else if negb missingA && missingB then "forward_only"
      else if missingA && negb missingB then "backward_only"
      else "partially_compatible"
  end.

Definition required_of (def : TypeDefinition) (names : list string) : list string :=
  List.filter (fun name => match Fields def !! name with Some spec => negb (Optional spec) | None => true end) names.

Definition nonempty {A} (l : list A) : bool := match l with [] => false | _ => true end.

Definition compatibleTypes (pathA pathB direction : string) (a b : TypeDefinition) : CompatibilityReportData :=
  let cmp := compareTypes pathA pathB a b in
  let missingA := required_of b (OnlyB cmp) in
  let missingB := required_of a (OnlyA cmp) in
  {| cd_TypeAPath := pathA; cd_TypeBPath := pathB; Direction := direction;
     Level := computeLevel cmp (nonempty missingA) (nonempty missingB) direction;
     SharedFields := sorted_names (Shared cmp); IncompatibleFields := Incompatible cmp;
     MissingRequiredA := missingA; MissingRequiredB := missingB |}.

(** ** Merging *)

Definition converged_field (fname : string) (fa : FieldSpec) (others : list TypeDefinition) : option (list FieldSpec) :=
  (fix go (others : list TypeDefinition) : option (list FieldSpec) :=
     match others with
     | [] => Some []
     | other :: others =>
         match Fields other !! fname with
         | None => None
         | Some fb => if fieldShapeMatches fa fb then cons fb <$> go others else None
         end
     end) others.

Definition with_merged (fa : FieldSpec) (optional : bool) (constraints : list Entity) : FieldSpec := {|
  TypeRef := TypeRef fa; Optional := optional; ArrayOf := ArrayOf fa; MapOf := MapOf fa; UnionOf := UnionOf fa;
  TypeParam := TypeParam fa; fs_TypeArgs := fs_TypeArgs fa; Default := Default fa; KeyType := KeyType fa; ByteSize := ByteSize fa;
  fs_Constraints := constraints |}.

Definition allOptional (specs : list FieldSpec) : bool := all Optional specs.
Definition anyOptional (specs : list FieldSpec) : bool := any Optional specs.

Definition convergedName (paths : list string) : string := "converged/" +:+ fmt_uint (Z.of_nat (length paths)) +:+ "-types".

Definition empty_definition : TypeDefinition := {|
  td_Name := ""; Extends := ""; Fields := ∅; Layout := []; TypeParams := []; td_TypeArgs := ∅ |}.

Definition named_fields (name : string) (fields : gmap string FieldSpec) : TypeDefinition := {|
  td_Name := name; Extends := ""; Fields := fields; Layout := []; TypeParams := []; td_TypeArgs := ∅ |}.

Definition convergeDefinitions (defs : list TypeDefinition) (paths : list string) : TypeDefinition :=
  match defs with
  | [] => empty_definition
  | first :: others =>
      named_fields (convergedName paths) (map_imap (fun fname fa =>
        (fun fbs => with_merged fa (allOptional (fa :: fbs)) (mergeConstraintsIntersect (fa :: fbs)))
        <$> converged_field fname fa others) (Fields first))
  end.

Definition reconcileName (strategy : string) (paths : list string) : string :=
  "reconciled/" +:+ strategy +:+ "/" +:+ fmt_uint (Z.of_nat (length paths)) +:+ "-types".

(** [collectFieldNames] and the specs of a name. *)
Definition all_fields (defs : list TypeDefinition) : gset string := ⋃ (map (fun d => dom (Fields d)) defs).
Definition collectFieldNames (defs : list TypeDefinition) : list string := merge_sort string_le (elements (all_fields defs)).
Definition fieldSpecsAcross (defs : list TypeDefinition) (name : string) : list FieldSpec := omap (fun d => Fields d !! name) defs.

Definition allShapesMatch (specs : list FieldSpec) : bool :=
  match specs with [] => true | first :: others => all (fieldShapeMatches first) others end.

Definition firstTwoDistinctShapes (specs : list FieldSpec) : string * string :=
  match specs with
  | [] => ("<empty>", "<empty>")
  | a :: others =>
      match List.find (fun b => negb (fieldShapeMatches a b)) others with
      | Some b => (fieldShapeName a, fieldShapeName b)
      | None => (fieldShapeName a, fieldShapeName a)
      end
  end.

(** The spec of a merged field keeps the shape of the first one only. *)
Definition shape_only (rep : FieldSpec) (optional : bool) (constraints : list Entity) : FieldSpec := {|
  TypeRef := TypeRef rep; Optional := optional; ArrayOf := ArrayOf rep; MapOf := MapOf rep; UnionOf := UnionOf rep;
  TypeParam := ""; fs_TypeArgs := ∅; Default := None; KeyType := ""; ByteSize := None; fs_Constraints := constraints |}.

(** The fields whose spec the strategy keeps. *)
Definition reconcile_fields (defs : list TypeDefinition) (keep : list FieldSpec -> option FieldSpec) : gmap string FieldSpec :=
  map_imap (fun name _ => keep (fieldSpecsAcross defs name)) (gset_to_gmap tt (all_fields defs)).

Definition in_all (defs : list TypeDefinition) (specs : list FieldSpec) : bool :=
  (length specs =? length defs)%nat && allShapesMatch specs.

Definition intersect_spec (defs : list TypeDefinition) (specs : list FieldSpec) : option FieldSpec :=
  match specs with
  | [] => None
  | rep :: _ => if in_all defs specs then Some (shape_only rep (allOptional specs) (mergeConstraintsIntersect specs)) else None
  end.

Definition intersect_definition (defs : list TypeDefinition) (paths : list string) : TypeDefinition :=
  named_fields (reconcileName "intersect" paths) (reconcile_fields defs (intersect_spec defs)).

Definition encode_or_nil (d : TypeDefinition) : Raw := match EncodeTypeDef d with Some raw => raw | None => [] end.

Definition reconcileIntersect (defs : list TypeDefinition) (paths : list string) : ReconcileResultData := {|
  ReconciledType := encode_or_nil (intersect_definition defs paths); StrategyUsed := ""; Sources := [];
  FieldsDropped := List.filter (fun name => negb (in_all defs (fieldSpecsAcross defs name))) (collectFieldNames defs);
  FieldsMadeOptional := []; Incompatibilities := [] |}.

Definition union_optional (defs : list TypeDefinition) (specs : list FieldSpec) : bool :=
  (length specs <? length defs)%nat || anyOptional specs.

Definition union_spec (defs : list TypeDefinition) (specs : list FieldSpec) : option FieldSpec :=
  match specs with
  | [] => None
  | rep :: _ => if allShapesMatch specs then Some (shape_only rep (union_optional defs specs) (mergeConstraintsUnionLeast specs)) else None
  end.

Definition union_definition (defs : list TypeDefinition) (paths : list string) : TypeDefinition :=
  named_fields (reconcileName "union" paths) (reconcile_fields defs (union_spec defs)).

Definition made_optional (defs : list TypeDefinition) (specs : list FieldSpec) : bool :=
  match specs with
  | [] => false
  | rep :: _ => allShapesMatch specs && union_optional defs specs && negb (Optional rep)
  end.

Definition reconcileUnion (defs : list TypeDefinition) (paths : list string) : ReconcileResultData := {|
  ReconciledType := encode_or_nil (union_definition defs paths); StrategyUsed := ""; Sources := []; FieldsDropped := [];
  FieldsMadeOptional := List.filter (fun name => made_optional defs (fieldSpecsAcross defs name)) (collectFieldNames defs);
  Incompatibilities := flat_map (fun name =>
    let specs := fieldSpecsAcross defs name in
    if allShapesMatch specs then []
    else let '(a, b) := firstTwoDistinctShapes specs in
         [{| FieldName := name; AType := a; BType := b; fi_Reason := "field shape differs across reconcile inputs" |}])
    (collectFieldNames defs) |}.

Definition as_optional (s : FieldSpec) : FieldSpec := with_merged s true (fs_Constraints s).

Definition prefer_definition (pref : TypeDefinition) (others : list TypeDefinition) (paths : list string) : TypeDefinition :=
  named_fields (reconcileName "prefer" paths)
    (map_imap (fun name _ =>
       match Fields pref !! name with Some s => Some s | None => as_optional <$> head (fieldSpecsAcross others name) end)
       (gset_to_gmap tt (all_fields (pref :: others)))).

Definition reconcilePrefer (defs : list TypeDefinition) (paths : list string) : ReconcileResultData :=
  match defs with
  | [] => {| ReconciledType := []; StrategyUsed := ""; Sources := []; FieldsDropped := []; FieldsMadeOptional := []; Incompatibilities := [] |}
  | pref :: others => {|
      ReconciledType := encode_or_nil (prefer_definition pref others paths); StrategyUsed := ""; Sources := []; FieldsDropped := [];
      FieldsMadeOptional := List.filter (fun name => negb (bool_decide (is_Some (Fields pref !! name)))
        && nonempty (fieldSpecsAcross others name)) (collectFieldNames defs);
      Incompatibilities := flat_map (fun name =>
        match Fields pref !! name with
        | None => []
        | Some prefSpec => flat_map (fun otherSpec =>
            if fieldShapeMatches prefSpec otherSpec then []
            else [{| FieldName := name; AType := fieldShapeName prefSpec; BType := fieldShapeName otherSpec;
                     fi_Reason := "preferred input retained; non-preferred has incompatible shape" |}])
            (fieldSpecsAcross others name)
        end) (collectFieldNames defs) |}
  end.

(** ** The operations *)

Inductive TypeAnswer :=
| TError (status : Z) (code : string)
| TCompare (r : CompareResultData)
| TCompatible (r : CompatibilityReportData)
| TValidate (r : ValidateResultData)
| TEntity (e : Entity).

Definition handleCompare st (params : Raw) : TypeAnswer :=
  match DecodeCompare params with
  | None => TError 400 "invalid_request"
  | Some d =>
      match resolveTypeDefinition st (stripTypePathPrefix (cp_TypeA d)), resolveTypeDefinition st (stripTypePathPrefix (cp_TypeB d)) with
      | None, _ | _, None => TError 404 "type_not_found"
      | Some a, Some b => TCompare (compareTypes (cp_TypeA d) (cp_TypeB d) a b)
      end
  end.

Definition handleCompatible st (params : Raw) : TypeAnswer :=
  match DecodeCompatible params with
  | None => TError 400 "invalid_request"
  | Some d =>
      match resolveTypeDefinition st (stripTypePathPrefix (cb_TypeA d)), resolveTypeDefinition st (stripTypePathPrefix (cb_TypeB d)) with
      | None, _ | _, None => TError 404 "type_not_found"
      | Some a, Some b => TCompatible (compatibleTypes (cb_TypeA d) (cb_TypeB d) (cb_Direction d) a b)
      end
  end.

Fixpoint resolveAll st (paths : list string) : option (list TypeDefinition) :=
  match paths with
  | [] => Some []
  | p :: paths => match resolveTypeDefinition st (stripTypePathPrefix p) with None => None | Some d => cons d <$> resolveAll st paths end
  end.

Definition type_answer (d : TypeDefinition) : TypeAnswer :=
  match TypeDef_ToEntity alg d with Ok ent => TEntity ent | Err _ => TError 500 "internal_error" end.

Definition handleConverge st (params : Raw) : TypeAnswer :=
  match DecodeConverge params with
  | None => TError 400 "invalid_request"
  | Some paths =>
      if (length paths <? 2)%nat then TError 400 "invalid_request"
      else match resolveAll st paths with
           | None => TError 404 "type_not_found"
           | Some defs => type_answer (convergeDefinitions defs paths)
           end
  end.

Definition rewriteForAdopt (src : TypeDefinition) (localName sourcePath : string) : TypeDefinition := {|
  td_Name := localName;
  Extends := if String.eqb (Extends src) "" then ""
             else let normalized := stripPeerPrefix (Extends src) sourcePath in
                  if String.eqb normalized "" then Extends src else normalized;
  Fields := Fields src; Layout := Layout src; TypeParams := TypeParams src; td_TypeArgs := td_TypeArgs src |}.

Definition handleAdopt st (params : Raw) : TypeAnswer :=
  match DecodeAdopt params with
  | None => TError 400 "invalid_request"
  | Some d =>
      if String.eqb (SourcePath d) "" then TError 400 "invalid_request"
      else
        let srcName := stripTypePathPrefix (SourcePath d) in
        match resolveTypeDefinition st srcName with
        | None => TError 404 "type_not_found"
        | Some srcDef =>
            let localName := if String.eqb (LocalName d) "" then srcName else LocalName d in
            type_answer (rewriteForAdopt srcDef localName (SourcePath d))
        end
  end.

Definition with_sources (r : ReconcileResultData) (strategy : string) (paths : list string) : ReconcileResultData := {|
  ReconciledType := ReconciledType r; StrategyUsed := strategy; Sources := paths; FieldsDropped := FieldsDropped r;
  FieldsMadeOptional := FieldsMadeOptional r; Incompatibilities := Incompatibilities r |}.

Definition reconcile_strategy (strategy : string) : option (list TypeDefinition -> list string -> ReconcileResultData) :=
  if String.eqb strategy "intersect" then Some reconcileIntersect
  else if String.eqb strategy "union" then Some reconcileUnion
  else if String.eqb strategy "prefer" then Some reconcilePrefer
  else None.

Definition handleReconcile st (params : Raw) : TypeAnswer :=
  match DecodeReconcile params with
  | None => TError 400 "invalid_request"
  | Some d =>
      if (length (rq_TypePaths d) <? 2)%nat then TError 400 "invalid_request"
      else match reconcile_strategy (rq_Strategy d) with
      | None => TError 400 "invalid_request"
      | Some strategy =>
          match resolveAll st (rq_TypePaths d) with
          | None => TError 404 "type_not_found"
          | Some defs =>
              let result := with_sources (strategy defs (rq_TypePaths d)) (rq_Strategy d) (rq_TypePaths d) in
              match EncodeReconcileResult result with
              | None => TError 500 "internal_error"
              | Some raw => match Ent.NewEntity alg "system/type/reconcile-result" raw with
                            | Ok ent => TEntity ent
                            | Err _ => TError 500 "internal_error"
                            end
              end
          end
      end
  end.

(** [None] when the narrowing check of [validate] does not return. *)
Definition type_Handle (execute : option Execute) (fuel : nat) st (operation : string) (params : Raw)
  : option (TreeState CS L IX * TypeAnswer) :=
  if String.eqb operation "validate" then
    (fun '(st, r) => (st, match r with Ok v => TValidate v | Err (status, code) => TError status code end))
    <$> handleValidate alg execute fuel st params
  else Some (st,
    if String.eqb operation "compare" then handleCompare st params
    else if String.eqb operation "compatible" then handleCompatible st params
    else if String.eqb operation "converge" then handleConverge st params
    else if String.eqb operation "adopt" then handleAdopt st params
    else if String.eqb operation "reconcile" then handleReconcile st params
    else TError 501 "unsupported_operation").
End merge.
