(* ===== verification/TypeMergeSpec.v ===== *)
(** * What merged type definitions accept

    [converge_intersection] and [union_accepts] relate the entities of a merged
    type to those of the types it was made of; [compatible_forward] says when the
    entities of one type are entities of another. *)

From Stdlib Require Import Ascii.
From S2P Require Import Prelude GoStrings Errors Hash Entity PeerID Store Handlers TreeHandler TypeDefs TypeConstraint TypeValidate TypeSpec TypeMerge.

Open Scope Z_scope.

(** Matching shapes accept the same values. *)
Lemma shape_fits `{TypeCodec} a b raw : fieldShapeMatches a b = true -> fits raw a <-> fits raw b.
Proof.
  destruct a as [ref o arr mp un tp ta df kt bs cs]. cbn [fieldShapeMatches]. rewrite !andb_true_iff.
  intros [[[Hr Ha] Hm] _]. apply String.eqb_eq in Hr. unfold fits. cbn [ArrayOf MapOf TypeRef].
  destruct arr, (ArrayOf b); try done. destruct mp, (MapOf b); try done. by rewrite Hr.
Qed.

(** What is documented of the canonical encoding: data of one canonical form
    decode alike. *)
Class CanonicalLaws `{TypeCodec} := {
  canonical_number n a b c : canonicalizeRaw a = Ok c -> canonicalizeRaw b = Ok c -> DecNumberBound n a = DecNumberBound n b;
  canonical_size n a b c : canonicalizeRaw a = Ok c -> canonicalizeRaw b = Ok c -> DecSizeBound n a = DecSizeBound n b;
  canonical_text n a b c : canonicalizeRaw a = Ok c -> canonicalizeRaw b = Ok c -> DecTextBound n a = DecTextBound n b;
  canonical_values a b c : canonicalizeRaw a = Ok c -> canonicalizeRaw b = Ok c -> DecValuesBound a = DecValuesBound b
}.

Section spec.
Context {CS L IX : Type} `{ContentStore CS} `{LocationIndex L} `{HashableCodec, CanonicalLaws, GoText, FormatLib, Base58}.
Implicit Types (st : TreeState CS L IX) (defs : list TypeDefinition).

(** The separator of a key does not occur in the type. *)
Definition bar_free (c : Entity) : Prop := IndexByte (Type_ c) "|" = None.

Lemma key_satisfies hctx value a b k : bar_free a -> bar_free b -> constraint_key a = Some k -> constraint_key b = Some k ->
  satisfies (CS := CS) (L := L) (IX := IX) hctx value a = satisfies hctx value b.
Proof.
  unfold bar_free, constraint_key. intros Ha Hb. destruct (canonicalizeRaw (Data a)) as [ca|] eqn:Eca; [|done].
  destruct (canonicalizeRaw (Data b)) as [cb|] eqn:Ecb; [|done]. intros [= <-] [= Hk].
  change ("|" +:+ bytes_str ca) with (String "|" (bytes_str ca)) in Hk. change ("|" +:+ bytes_str cb) with (String "|" (bytes_str cb)) in Hk.
  apply split_at_unique in Hk as [Ht Hc]; [|done..].
  assert (ca = cb) as <-.
  { rewrite <- (String.list_byte_of_string_of_list_byte ca), <- (String.list_byte_of_string_of_list_byte cb).
    unfold bytes_str in Hc. by rewrite Hc. }
  unfold satisfies, evaluate. cbn [ConstraintType ConstraintData ct_Value]. rewrite Ht.
  by rewrite !(canonical_number _ _ _ _ Eca Ecb), !(canonical_size _ _ _ _ Eca Ecb), !(canonical_text _ _ _ _ Eca Ecb), !(canonical_values _ _ _ Eca Ecb).
Qed.

(** Dropping the constraints whose key was seen does not change what is accepted. *)
Lemma dedup_accepts hctx value seen cs :
  (forall c, c ∈ cs -> bar_free c) ->
  (forall k, k ∈ seen -> exists c, bar_free c /\ constraint_key c = Some k /\ satisfies (CS := CS) (L := L) (IX := IX) hctx value c = true) ->
  all (satisfies hctx value) (dedup seen cs) = all (satisfies hctx value) cs.
Proof.
  unfold all. revert seen. induction cs as [|c cs IH]; intros seen Hbar Hseen; cbn [dedup forallb]; [done|].
  assert (Hcs : forall c', c' ∈ cs -> bar_free c') by (intros c' Hc'; apply Hbar; by right).
  assert (Hc : bar_free c) by (apply Hbar; left).
  destruct (constraint_key c) as [k|] eqn:Hk; cbn [forallb]; [|by rewrite IH].
  destruct (bool_decide_reflect (k ∈ seen)) as [Hin|Hin].
  - rewrite IH by done. destruct (Hseen k Hin) as (c' & Hb' & Hk' & Hs). by rewrite (key_satisfies hctx value c c' k), Hs.
  - cbn [forallb]. destruct (satisfies hctx value c) eqn:Hs; [|done]. cbn. apply IH; [done|].
    intros k' [->%elem_of_singleton|Hk']%elem_of_union; [by exists c|by apply Hseen].
Qed.

Lemma merged_constraints hctx value specs : (forall s c, s ∈ specs -> c ∈ fs_Constraints s -> bar_free c) ->
  all (satisfies (CS := CS) (L := L) (IX := IX) hctx value) (mergeConstraintsIntersect specs)
  = all (fun s => all (satisfies hctx value) (fs_Constraints s)) specs.
Proof.
  intros Hbar. unfold mergeConstraintsIntersect, dedupConstraintsByCanonical. rewrite dedup_accepts.
  - unfold all. clear Hbar. induction specs as [|s specs IH]; cbn; [done|]. by rewrite forallb_app, IH.
  - intros c Hc. apply list_elem_of_In, in_flat_map in Hc as (s & Hs & Hc). eapply Hbar; by apply list_elem_of_In.
  - intros k Hk. by apply elem_of_empty in Hk.
Qed.

(** ** Fields *)

(** What a field that is there, or is not, has to be. *)
Definition spec_ok st (spec : FieldSpec) (value : option Raw) : Prop :=
  match value with
  | None => Optional spec = true
  | Some raw => fits raw spec /\ all (satisfies (Some st) raw) (fs_Constraints spec) = true
  end.

Lemma well_typed_spec st def fields :
  well_typed st def fields <-> forall f spec, Fields def !! f = Some spec -> spec_ok st spec (fields !! f).
Proof.
  unfold well_typed, spec_ok, accepts. split; intros Hw f spec Hf; specialize (Hw f spec Hf); destruct (fields !! f); try done;
    by rewrite Hf in *.
Qed.

(** [specs] are the specs of the field in the definitions, all of the shape of
    the first one. *)
Definition shared defs (f : string) (specs : list FieldSpec) : Prop :=
  Forall2 (fun d s => Fields d !! f = Some s) defs specs /\ allShapesMatch specs = true.

Definition bar_free_all defs : Prop :=
  forall d f s c, d ∈ defs -> Fields d !! f = Some s -> c ∈ fs_Constraints s -> bar_free c.

Lemma shared_elem defs f specs s : shared defs f specs -> s ∈ specs -> exists d, d ∈ defs /\ Fields d !! f = Some s.
Proof.
  intros [Hf _] [i Hi]%list_elem_of_lookup. destruct (Forall2_lookup_r _ _ _ _ _ Hf Hi) as (d & Hd & Hs).
  exists d. split; [by eapply list_elem_of_lookup_2|done].
Qed.

(** A spec with the shape of the first one that is optional when all are and has
    the constraints of all is met exactly by what meets them all. *)
Lemma merged_spec_ok st m rep specs value :
  (forall s c, s ∈ rep :: specs -> c ∈ fs_Constraints s -> bar_free c) -> allShapesMatch (rep :: specs) = true ->
  (TypeRef m, ArrayOf m, MapOf m) = (TypeRef rep, ArrayOf rep, MapOf rep) -> Optional m = allOptional (rep :: specs) ->
  fs_Constraints m = mergeConstraintsIntersect (rep :: specs) ->
  spec_ok st m value <-> forall s, s ∈ rep :: specs -> spec_ok st s value.
Proof.
  intros Hbar Hsh [= Hr Ha Hm] Ho Hc. unfold spec_ok. destruct value as [raw|].
  2: { rewrite Ho. unfold allOptional. apply all_true. }
  rewrite Hc, merged_constraints, all_true by done.
  assert (Hfm : fits raw m <-> fits raw rep) by (unfold fits; by rewrite Hr, Ha, Hm).
  assert (Hfs : forall s, s ∈ rep :: specs -> fits raw rep <-> fits raw s).
  { intros s [->|Hs]%elem_of_cons; [done|]. apply shape_fits. cbn [allShapesMatch] in Hsh. rewrite all_true in Hsh. by apply Hsh. }
  rewrite Hfm. split.
  - intros [Hf Hs] s Hin. split; [by apply (Hfs s)|by apply Hs].
  - intros Hall. split; [apply Hall; left|]. intros s Hs. by apply Hall.
Qed.

Lemma converged_field_spec f fa others fbs :
  converged_field f fa others = Some fbs
  <-> Forall2 (fun d s => Fields d !! f = Some s) others fbs /\ all (fieldShapeMatches fa) fbs = true.
Proof.
  unfold converged_field, all. revert fbs. induction others as [|d others IH]; intros fbs.
  - split; [by intros [= <-]|]. intros [Hf _]. by inversion Hf.
  - destruct (Fields d !! f) as [fb|] eqn:Hd.
    2: { split; [done|]. intros [Hf _]. inversion Hf. congruence. }
    destruct (fieldShapeMatches fa fb) eqn:Hm.
    2: { split; [done|]. intros [Hf Ha]. inversion Hf as [|? s ? ss Hs]; subst. rewrite Hd in Hs. injection Hs as <-. cbn in Ha. by rewrite Hm in Ha. }
    split.
    + intros (fbs' & Hg & ->)%fmap_Some. apply IH in Hg as [Hf Ha]. split; [by constructor|]. cbn. by rewrite Hm.
    + intros [Hf Ha]. inversion Hf as [|? s ? ss Hs Hss]; subst. rewrite Hd in Hs. injection Hs as <-. cbn in Ha. rewrite Hm in Ha.
      apply fmap_Some. exists ss. split; [by apply IH|done].
Qed.

Lemma specs_across defs f : (length (fieldSpecsAcross defs f) =? length defs)%nat = true
  <-> Forall2 (fun d s => Fields d !! f = Some s) defs (fieldSpecsAcross defs f).
Proof.
  rewrite Nat.eqb_eq. unfold fieldSpecsAcross. split; [|intros Hf; symmetry; by eapply Forall2_length].
  assert (Hle : forall l : list TypeDefinition, (length (omap (fun d => Fields d !! f) l) <= length l)%nat).
  { induction l as [|d l IH]; cbn; [lia|]. destruct (Fields d !! f); cbn; lia. }
  induction defs as [|d defs IH]; cbn; [constructor|]. destruct (Fields d !! f) as [s|] eqn:Hd; cbn; intros Hl.
  - constructor; [done|]. apply IH. lia.
  - specialize (Hle defs). lia.
Qed.

Lemma across_unique defs f specs : Forall2 (fun d s => Fields d !! f = Some s) defs specs -> fieldSpecsAcross defs f = specs.
Proof. unfold fieldSpecsAcross. induction 1 as [|d s defs specs Hd _ IH]; cbn; [done|]. by rewrite Hd, IH. Qed.

Lemma in_all_shared defs f : in_all defs (fieldSpecsAcross defs f) = true <-> exists specs, shared defs f specs.
Proof.
  unfold in_all, shared. rewrite andb_true_iff, specs_across. split; [eauto|].
  intros (specs & Hf & Hs). by rewrite (across_unique _ _ _ Hf).
Qed.

Lemma merge_fields_lookup defs keep f : keep [] = None -> reconcile_fields defs keep !! f = keep (fieldSpecsAcross defs f).
Proof.
  intros Hnil. unfold reconcile_fields. rewrite map_lookup_imap, lookup_gset_to_gmap.
  destruct (decide (f ∈ all_fields defs)) as [Hin|Hout]; [by rewrite option_guard_True|].
  rewrite option_guard_False by done. cbn. replace (fieldSpecsAcross defs f) with (@nil FieldSpec); [done|]. symmetry.
  unfold fieldSpecsAcross, all_fields in *. induction defs as [|d defs IH]; cbn in *; [done|].
  rewrite not_elem_of_union, not_elem_of_dom in Hout. destruct Hout as [-> Hout]. auto.
Qed.

Lemma shared_bar defs f specs : bar_free_all defs -> shared defs f specs ->
  forall s c, s ∈ specs -> c ∈ fs_Constraints s -> bar_free c.
Proof. intros Hbar Hsh s c Hs Hc. destruct (shared_elem _ _ _ _ Hsh Hs) as (d & Hd & Hf). by eapply Hbar. Qed.

Lemma converge_lookup first others paths f m : Fields (convergeDefinitions (first :: others) paths) !! f = Some m <->
  exists rep specs, shared (first :: others) f (rep :: specs)
    /\ m = with_merged rep (allOptional (rep :: specs)) (mergeConstraintsIntersect (rep :: specs)).
Proof.
  cbn [convergeDefinitions Fields named_fields]. rewrite map_lookup_imap. split.
  - intros (rep & Hrep & (specs & Hc & ->)%fmap_Some)%bind_Some. apply converged_field_spec in Hc as [Hf Hs].
    exists rep, specs. split; [|done]. split; [by constructor|done].
  - intros (rep & specs & [Hf Hs] & ->). inversion Hf as [|? ? ? ? Hrep Hspecs]; subst. apply bind_Some. exists rep. split; [done|].
    apply fmap_Some. exists specs. split; [by apply converged_field_spec|done].
Qed.

Lemma intersect_lookup defs paths f m : defs <> [] -> Fields (intersect_definition defs paths) !! f = Some m <->
  exists rep specs, shared defs f (rep :: specs)
    /\ m = shape_only rep (allOptional (rep :: specs)) (mergeConstraintsIntersect (rep :: specs)).
Proof.
  intros Hne. unfold intersect_definition. cbn [Fields named_fields]. rewrite merge_fields_lookup by done. unfold intersect_spec. split.
  - destruct (fieldSpecsAcross defs f) as [|rep specs] eqn:Hacc; [done|].
    destruct (in_all defs (rep :: specs)) eqn:Hin; [|done]. intros [= <-]. exists rep, specs. split; [|done].
    rewrite <- Hacc in Hin. apply in_all_shared in Hin as [specs' Hsh]. pose proof Hsh as [Hf _]. rewrite (across_unique _ _ _ Hf) in Hacc. by subst.
  - intros (rep & specs & Hsh & ->). pose proof Hsh as [Hf _]. apply across_unique in Hf as Hacc.
    rewrite <- Hacc. rewrite (proj2 (in_all_shared defs f) (ex_intro _ _ Hsh)). by rewrite Hacc.
Qed.


(** ** Union *)

Lemma keyed_spec s k c : keyed s !! k = Some c -> c ∈ fs_Constraints s /\ constraint_key c = Some k.
Proof.
  unfold keyed. assert (Hg : forall l (m : gmap string Entity), (forall k c, m !! k = Some c -> c ∈ fs_Constraints s /\ constraint_key c = Some k) ->
    (forall c, c ∈ l -> c ∈ fs_Constraints s) ->
    fold_left (fun m c => match constraint_key c with None => m | Some k => <[k := c]> m end) l m !! k = Some c ->
    c ∈ fs_Constraints s /\ constraint_key c = Some k).
  { induction l as [|x l IH]; intros m Hm Hl; cbn [fold_left]; [apply Hm|]. apply IH; [|intros y Hy; apply Hl; by right].
    destruct (constraint_key x) as [kx|] eqn:Hx; [|done]. intros k' c'. destruct (decide (kx = k')) as [->|Hne].
    - rewrite lookup_insert_eq. intros [= <-]. split; [apply Hl; left|done].
    - rewrite lookup_insert_ne by done. apply Hm. }
  apply Hg; [|done]. intros k' c'. by rewrite lookup_empty.
Qed.

Lemma union_least specs c : c ∈ mergeConstraintsUnionLeast specs ->
  exists k, constraint_key c = Some k /\ (exists s, s ∈ specs /\ c ∈ fs_Constraints s)
    /\ forall s, s ∈ specs -> exists c', c' ∈ fs_Constraints s /\ constraint_key c' = Some k.
Proof.
  unfold mergeConstraintsUnionLeast. destruct specs as [|first specs]; cbn [map]; [intros Hc; by apply elem_of_nil in Hc|].
  rewrite (merge_sort_Permutation constraint_le), list_elem_of_In, in_map_iff.
  intros ([k c'] & <- & Hin). apply list_elem_of_In, list_elem_of_filter in Hin as [Hall Hin].
  apply elem_of_map_to_list in Hin as [Hc Hk]%keyed_spec. cbn [fst snd] in *. rewrite all_true in Hall.
  exists k. split; [done|]. split; [exists first; split; [left|done]|]. intros s [->|Hs]%elem_of_cons; [eauto|].
  specialize (Hall (keyed s)). rewrite bool_decide_eq_true in Hall. destruct Hall as [x Hx].
  { apply list_elem_of_In, in_map_iff. exists s. split; [done|]. by apply list_elem_of_In. }
  apply keyed_spec in Hx as [? ?]. eauto.
Qed.

(** The type reconciled by union accepts every entity of each of the definitions
    that has no fields but those of its definition. *)
Theorem union_accepts st defs paths fields d : bar_free_all defs -> d ∈ defs ->
  well_typed st d fields -> (forall f, is_Some (fields !! f) -> is_Some (Fields d !! f)) ->
  well_typed st (union_definition defs paths) fields.
Proof.
  intros Hbar Hd Hw Hown. rewrite well_typed_spec in *. intros f m. unfold union_definition. cbn [Fields named_fields].
  rewrite merge_fields_lookup by done. unfold union_spec. destruct (fieldSpecsAcross defs f) as [|rep specs] eqn:Hacc; [done|].
  destruct (allShapesMatch (rep :: specs)) eqn:Hsh; [|done]. intros [= <-].
  assert (Hmem : forall s, s ∈ rep :: specs <-> exists d, d ∈ defs /\ Fields d !! f = Some s).
  { intros s. rewrite <- Hacc. unfold fieldSpecsAcross. rewrite list_elem_of_omap. naive_solver. }
  unfold spec_ok. destruct (fields !! f) as [raw|] eqn:Hr; cbn [Optional shape_only].
  - destruct (Hown f) as [s Hs]; [eauto|]. specialize (Hw f s Hs). rewrite Hr in Hw. destruct Hw as [Hfit Hsat].
    assert (Hin : s ∈ rep :: specs) by (apply Hmem; eauto). split.
    + change (fits raw (shape_only rep _ _)) with (fits raw rep). apply elem_of_cons in Hin as [->|Hin]; [done|].
      cbn [allShapesMatch] in Hsh. rewrite all_true in Hsh. by apply (shape_fits rep s raw (Hsh s Hin)).
    + cbn [fs_Constraints shape_only]. apply all_true. intros c (k & Hk & (s0 & Hs0 & Hc) & Hevery)%union_least.
      destruct (Hevery s Hin) as (c' & Hc' & Hk'). apply Hmem in Hs0 as (d0 & Hd0 & Hf0).
      rewrite (key_satisfies _ _ c c' k); [|exact (Hbar d0 f s0 c Hd0 Hf0 Hc)|exact (Hbar d f s c' Hd Hs Hc')|done|done]. rewrite all_true in Hsat. by apply Hsat.
  - unfold union_optional. apply orb_true_iff. destruct (Fields d !! f) as [s|] eqn:Hs.
    + right. unfold anyOptional. apply any_true. exists s. split; [apply Hmem; eauto|]. specialize (Hw f s Hs). by rewrite Hr in Hw.
    + left. apply Nat.ltb_lt. rewrite <- Hacc. clear -Hd Hs. unfold fieldSpecsAcross.
      assert (Hle : forall l : list TypeDefinition, (length (omap (fun d => Fields d !! f) l) <= length l)%nat).
      { induction l as [|x l IH]; cbn; [lia|]. destruct (Fields x !! f); cbn; lia. }
      induction defs as [|x defs IH]; [by apply elem_of_nil in Hd|]. specialize (Hle defs). apply elem_of_cons in Hd as [->|Hd]; cbn.
      * rewrite Hs. lia.
      * specialize (IH Hd). destruct (Fields x !! f); cbn; lia.
Qed.
End spec.

(** ** Compatibility *)

Section compatible.
Context `{TypeCodec, GoText}.

Lemma only_elem {A B : Type} (m : gmap string A) (n : gmap string B) f :
  f ∈ per_name m (fun name _ => match n !! name with None => [name] | Some _ => [] end) <-> is_Some (m !! f) /\ n !! f = None.
Proof.
  unfold per_name. rewrite list_elem_of_In, in_flat_map. split.
  - intros (g & Hg & Hin). apply list_elem_of_In, elem_of_sorted_names in Hg. destruct (m !! g) eqn:Hm; [|done].
    destruct (n !! g) eqn:Hn; [done|]. destruct Hin as [<-|[]]. by rewrite Hm.
  - intros [[x Hx] Hn]. exists f. split; [apply list_elem_of_In, elem_of_sorted_names; eauto|]. rewrite Hx, Hn. by left.
Qed.

(** When the report of two types in the forward direction is not
    incompatible, every entity that has the shape of the first one, and no fields
    but its own, has the shape of the second, provided that no field the second
    one requires is optional in the first: the report does not look at that. *)
Theorem compatible_forward pathA pathB a b fields :
  Level (compatibleTypes pathA pathB "forward" a b) <> "incompatible" ->
  (forall f sa sb, Fields a !! f = Some sa -> Fields b !! f = Some sb -> Optional sa = true -> Optional sb = true) ->
  (forall f, is_Some (fields !! f) -> is_Some (Fields a !! f)) ->
  structuralCheck a fields = [] -> structuralCheck b fields = [].
Proof.
  unfold compatibleTypes. cbn [Level]. unfold computeLevel. set (cmp := compareTypes pathA pathB a b).
  destruct (Incompatible cmp) eqn:Hinc; [|done]. cbn [String.eqb]. change (String.eqb "forward" "forward") with true. cbn iota.
  destruct (required_of b (OnlyB cmp)) as [|x l] eqn:Hreq; [|done]. intros _ Hopt Hown. rewrite !structuralCheck_nil.
  intros Ha f sb Hsb. subst cmp. cbn [compareTypes Incompatible OnlyB] in *. destruct (Fields a !! f) as [sa|] eqn:Hsa.
  - specialize (Ha f sa Hsa). destruct (fields !! f) as [raw|]; [|by eapply Hopt].
    rewrite per_name_nil in Hinc. specialize (Hinc f sa Hsa). cbn beta in Hinc. rewrite Hsb in Hinc.
    destruct (fieldShapeMatches sa sb) eqn:Hm; [|done]. by apply (shape_fits sa sb).
  - destruct (fields !! f) eqn:Hf; [destruct (Hown f); [by rewrite Hf|congruence]|].
    destruct (Optional sb) eqn:Ho; [done|exfalso].
    assert (Hin : f ∈ required_of b (per_name (Fields b) (fun name _ => match Fields a !! name with None => [name] | Some _ => [] end))).
    { unfold required_of. apply list_elem_of_In, filter_In. rewrite Hsb, Ho. split; [|done].
      apply list_elem_of_In, only_elem. eauto. }
    rewrite Hreq in Hin. by apply elem_of_nil in Hin.
Qed.
End compatible.

(** ** Paths of other peers *)

Lemma strip_at_absolute p name : IndexByte p "/" = None -> strip_at (p +:+ "/system/type/" +:+ name) = Some name.
Proof.
  induction p as [|c p IH]; intros Hp; [reflexivity|]. cbn in Hp. destruct (Ascii.eqb c "/") eqn:Hc; [done|].
  rewrite append_cons. cbn [strip_at]. rewrite Hc. cbn [andb]. apply IH. by destruct (IndexByte p "/").
Qed.

Lemma strip_absolute p name : IndexByte p "/" = None -> stripTypePathPrefix ("/" +:+ p +:+ "/system/type/" +:+ name) = name.
Proof.
  intros Hp. unfold stripTypePathPrefix.
  change ("/" +:+ p +:+ "/system/type/" +:+ name) with (String "/" (p +:+ "/system/type/" +:+ name)).
  replace (HasPrefix (String "/" (p +:+ "/system/type/" +:+ name)) type_prefix) with false by done. rewrite andb_false_r.
  cbn [str_drop]. replace (str_drop 0 (p +:+ "/system/type/" +:+ name)) with (p +:+ "/system/type/" +:+ name); [by rewrite strip_at_absolute|].
  by destruct (p +:+ "/system/type/" +:+ name).
Qed.

(** The peer of an absolute path is dropped: a definition is adopted from any
    peer by looking up the local definition of that name. *)
Theorem adopt_ignores_peer {CS L IX} `{ContentStore CS} `{LocationIndex L} `{HashableCodec, TypeCodec, GoText, AnalysisCodec}
    alg (st : TreeState CS L IX) params params' p q name ln :
  IndexByte p "/" = None -> IndexByte q "/" = None ->
  DecodeAdopt params = Some {| SourcePath := "/" +:+ p +:+ "/system/type/" +:+ name; LocalName := ln |} ->
  DecodeAdopt params' = Some {| SourcePath := "/" +:+ q +:+ "/system/type/" +:+ name; LocalName := ln |} ->
  handleAdopt alg st params = handleAdopt alg st params'.
Proof.
  intros Hp Hq Hd Hd'. unfold handleAdopt. rewrite Hd, Hd'. cbn [SourcePath LocalName]. rewrite !strip_absolute by done.
  reflexivity.
Qed.
