(* ===== verification/TypeSample.v ===== *)
(** * Types on concrete parameters

    A few type definitions over in-memory stores, with the standard constraint
    handler behind the dispatcher.  The last part records where the code does not
    do what it says. *)

From Stdlib Require Import Ascii Floats.SpecFloat.
From S2P Require Import Prelude GoStrings Sha2 Errors Hash Entity PeerID Patterns CapTypes Delegation Chain Revoked Store Handlers TreeHandler ConnectSample ComputeValues TypeDefs TypeConstraint TypeValidate TypeSpec TypeMerge TypeMergeSpec.

Open Scope Z_scope.

Module TypeSample.
#[local] Existing Instances nibble58 toy_hashable.

Abbreviation State := (TreeState MemoryContentStore MemoryLocationIndex MemoryCapabilityIndex).

(** A value is a byte that tells its kind and its content; the data of a
    constraint is its bound. *)
Definition uint (b : byte) : Raw := [Byte.x00; b].
Definition text (s : string) : Raw := Byte.x01 :: str_bytes s.
Definition constraint (ty : string) (data : Raw) : Entity := toy_entity ty data.
Definition max_length (n : byte) : Entity := constraint TypeConstraintMaxLength [n].
Definition type_pattern (p : string) : Entity := constraint TypeConstraintTypePattern (str_bytes p).

Definition field (ref : string) (optional : bool) (cs : list Entity) : FieldSpec := {|
  TypeRef := ref; Optional := optional; ArrayOf := None; MapOf := None; UnionOf := []; TypeParam := ""; fs_TypeArgs := ∅;
  Default := None; KeyType := ""; ByteSize := None; fs_Constraints := cs |}.
Definition def_of (name extends : string) (fields : gmap string FieldSpec) : TypeDefinition := {|
  td_Name := name; Extends := extends; Fields := fields; Layout := []; TypeParams := []; td_TypeArgs := ∅ |}.
Definition named (n : byte) : gmap string FieldSpec := {[ "title" := field "primitive/string" false [max_length n] ]}.

(** A note has a title of at most 10 characters; a short note one of at most 4;
    a memo extends the note and says nothing of the title; a long memo extends the
    memo and allows 99; a loop extends itself. *)
Definition note : TypeDefinition := def_of "note" "" (named Byte.x0a).
Definition short : TypeDefinition := def_of "short" "note" (named Byte.x04).
Definition memo : TypeDefinition := def_of "memo" "note" ∅.
Definition long : TypeDefinition := def_of "long" "memo" (named Byte.x63).
Definition loop : TypeDefinition := def_of "loop" "loop" ∅.

Definition table : list (byte * TypeDefinition) :=
  [(Byte.x01, note); (Byte.x02, short); (Byte.x03, memo); (Byte.x04, long); (Byte.x05, loop)].

#[local] Instance Request_eq : EqDecision ConstraintValidateRequestData.
Proof. solve_decision. Defined.
#[local] Instance Request_countable : Countable ConstraintValidateRequestData.
Proof.
  refine (inj_countable' (fun d => (ct_Value d, ConstraintType d, ConstraintData d))
    (fun '(a, b, c) => Build_ConstraintValidateRequestData a b c) _). by intros [].
Defined.
#[local] Instance Result_eq : EqDecision ConstraintValidateResultData.
Proof. solve_decision. Defined.
#[local] Instance Result_countable : Countable ConstraintValidateResultData.
Proof.
  refine (inj_countable' (fun d => (cv_Valid d, cv_Reason d)) (fun '(a, b) => Build_ConstraintValidateResultData a b) _). by intros [].
Defined.

Definition DecodeText (d : Raw) : option string := match d with Byte.x01 :: l => Some (bytes_str l) | _ => None end.

#[local] Instance codec : TypeCodec := {|
  DecFloat _ := None;
  DecUint d := match d with [Byte.x00; b] => Some (Z.of_N (Byte.to_N b)) | _ => None end;
  DecInt _ := None; DecBool _ := None; DecString := DecodeText; DecBytes _ := None; DecArray _ := None; DecMap _ := None;
  DecHash _ := None;
  DecNumberBound _ _ := Err "no number";
  DecSizeBound _ d := match d with [b] => Ok (Z.of_N (Byte.to_N b)) | _ => Err "no size" end;
  DecTextBound _ d := Ok (bytes_str d);
  DecValuesBound _ := Err "no values";
  canonicalizeRaw d := Ok d;
  DecodeTypeDef d := match d with [b] => snd <$> List.find (fun p => bool_decide (fst p = b)) table | _ => None end;
  EncodeTypeDef _ := Some [Byte.x01];
  DecodeFieldMap d := match d with Byte.x40 :: l => Ok {[ "title" := Byte.x01 :: l ]} | [Byte.x41] => Ok ∅ | _ => Err "no map" end;
  DecodeSubject d := match d with
    | Byte.x50 :: l => Some (toy_entity "short" (Byte.x40 :: l))
    | Byte.x51 :: l => Some (toy_entity "memo" (Byte.x40 :: l))
    | _ => None
    end;
  DecodeValidateRequest d := Some {| vr_Entity := d; TypePath := "" |};
  EncodeConstraintRequest d := Some (Wide.enc d); DecodeConstraintRequest := Wide.dec;
  EncodeConstraintResult d := Some (Wide.enc d);
  DecodeConstraintResult d := match Wide.dec d with Some r => Ok r | None => Err "no result" end;
  DecodeErrorData _ := None |}.

#[local] Instance codec_laws : TypeCodecLaws.
Proof.
  constructor.
  - intros d. exists (Wide.enc d). split_and!; [done|apply Wide.enc_nonempty|apply Wide.dec_enc].
  - intros d. exists (Wide.enc d). split; [done|]. cbn. by rewrite Wide.dec_enc.
  - intros ty d. by eexists.
Qed.

#[local] Instance canonical_laws : CanonicalLaws.
Proof. constructor; intros; cbn in *; by simplify_eq. Qed.

#[local] Instance go_text : GoText := {| fmt_float _ := "?"; quote s := s |}.
(** A pattern matches the text it is, without its anchors. *)
#[local] Instance formats : FormatLib := {|
  regexp_Compile p := Ok (fun s => String.eqb p ("^(?:" +:+ s +:+ ")$")); url_Scheme _ := None; time_RFC3339 _ := false;
  time_RFC3339Nano _ := false; time_Date _ := false |}.

Definition def_entity (b : byte) : Entity := toy_entity TypeType [b].
Definition bind (p : byte * TypeDefinition) : string * Hash := ("system/type/" +:+ td_Name (snd p), ContentHash (def_entity (fst p))).
Definition peer : State := {|
  ts_Store := Sample.file (map (fun p => def_entity (fst p)) table); ts_Index := list_to_map (map bind table); ts_CapIndex := None |}.

(** The dispatcher: the standard handler for its constraints, nothing else. *)
Definition execute : Execute (CS := MemoryContentStore) (L := MemoryLocationIndex) (IX := MemoryCapabilityIndex) := fun st uri op e =>
  if under_standard uri then
    match constraint_Handle (Some st) op (Data e) with
    | Ok r => (st, Ok (Some {| cs_Status := 200; cs_Result := mkEntity TypeConstraintValidateResult (Wide.enc r) zero_hash |}))
    | Err (status, _) => (st, Ok (Some {| cs_Status := status; cs_Result := no_entity |}))
    end
  else (st, Err "no handler").

Lemma execute_routes : routes_standard execute.
Proof.
  intros st uri e req Hu Hdec. unfold execute, constraint_Handle. rewrite Hu, Hdec. cbn [negb String.eqb].
  change (String.eqb "validate" "validate") with true. cbn [negb]. eexists. split; [reflexivity|]. split; [done|].
  cbn [Data cs_Result DecodeConstraintResult codec]. by rewrite Wide.dec_enc.
Qed.

(** ** Witnesses *)

Definition validate_run (params : Raw) : option (State * res (Z * string) ValidateResultData) :=
  handleValidate AlgorithmSHA256 (Some execute) 5 peer params.
Definition answered (r : option (State * res (Z * string) ValidateResultData)) : option bool :=
  r ≫= fun p => match snd p with Ok v => Some (Valid v) | Err _ => None end.

Lemma answered_result r b : answered r = Some b -> exists st v, r = Some (st, Ok v) /\ Valid v = b.
Proof. destruct r as [[st [v|]]|]; cbn; intros [= <-]. by exists st, v. Qed.

Lemma named_field n f spec : named n !! f = Some spec -> f = "title" /\ spec = field "primitive/string" false [max_length n].
Proof. unfold named. intros [<- <-]%lookup_singleton_Some. done. Qed.

Lemma short_standard : standard_constraints short.
Proof. intros f spec [-> ->]%named_field. repeat constructor. Qed.
Lemma short_resolved : resolveTypeDefinition peer "short" = Some short.
Proof. vm_compute. reflexivity. Qed.

(** A short note of one character is valid; its title is of type. *)
Lemma handleValidate_iff_witness :
  exists fields, DecodeFieldMap [Byte.x40; Byte.x61] = Ok fields /\ well_typed peer short fields.
Proof.
  destruct (answered_result (validate_run [Byte.x50; Byte.x61]) true) as (st & v & Hrun & Hv); [vm_compute; reflexivity|].
  assert (Hname : (if String.eqb "" "" then Type_ (toy_entity "short" [Byte.x40; Byte.x61]) else "") = "short") by reflexivity.
  unfold validate_run in Hrun.
  pose proof (handleValidate_iff AlgorithmSHA256 execute execute_routes (or_introl eq_refl) 5 peer [Byte.x50; Byte.x61] st v
    {| vr_Entity := [Byte.x50; Byte.x61]; TypePath := "" |} (toy_entity "short" [Byte.x40; Byte.x61]) Hrun eq_refl eq_refl) as Hiff.
  cbv zeta in Hiff. cbn [TypePath] in Hiff. rewrite Hname in Hiff. destruct Hiff as [_ Hiff].
  { intros def Hd. rewrite short_resolved in Hd. injection Hd as <-. apply short_standard. }
  apply Hiff in Hv as (def & fields & Hdef & Hf & Hw & _). exists fields. split; [exact Hf|].
  assert (Some short = Some def) as [= ->] by (rewrite <- short_resolved; exact Hdef). exact Hw.
Defined.

Lemma note_plain d : d ∈ [short; note] -> plain_bounds d.
Proof.
  intros Hd f spec c Hf Hc Hty. exfalso. rewrite !elem_of_cons, elem_of_nil in Hd.
  destruct Hd as [->|[->|[]]]; apply named_field in Hf as [-> ->]; apply list_elem_of_singleton in Hc as ->; discriminate.
Qed.


Lemma note_short_bar : bar_free_all [note; short].
Proof.
  intros d f s c Hd Hf Hc. rewrite !elem_of_cons, elem_of_nil in Hd.
  destruct Hd as [->|[->|[]]]; apply named_field in Hf as [-> ->]; by apply list_elem_of_singleton in Hc as ->.
Qed.

Lemma title_fits n : fits (text "abcd") (field "primitive/string" false [max_length n]).
Proof.
  cbn [fits ArrayOf MapOf field TypeRef]. intros ok Hok. unfold primitives in Hok. rewrite !elem_of_cons, elem_of_nil in Hok.
  destruct Hok as [Heq|Hok]; [injection Heq as ->; by eexists|]. repeat destruct Hok as [Heq|Hok]; try discriminate. destruct Hok.
Qed.


(** A short note has the shape of a note. *)
Lemma compatible_forward_witness :
  structuralCheck short {[ "title" := text "abcd" ]} = [] /\ structuralCheck note {[ "title" := text "abcd" ]} = [].
Proof.
  assert (Hs : structuralCheck short {[ "title" := text "abcd" ]} = []) by (vm_compute; reflexivity).
  split; [exact Hs|]. apply (compatible_forward "a" "b" short note); [vm_compute; discriminate| | |exact Hs].
  - intros f sa sb [-> ->]%named_field [_ ->]%named_field Ho. exact Ho.
  - intros f [x [<- <-]%lookup_singleton_Some]. eexists. reflexivity.
Defined.

(** ** Where the code and its comments part *)

(** A memo inherits the title of the note, whose constraint is said to continue
    to apply; its validation does not look at it. *)
Theorem inherited_constraint_ignored :
  accepts (Some peer) note "title" (text "abcdefghijklmnop") = false
  /\ answered (validate_run (Byte.x51 :: str_bytes "abcdefghijklmnop")) = Some true.
Proof. vm_compute. by split. Qed.

(** The long memo extends the memo, that extends the note: the title it widens is
    compared with the memo, which does not state it, and not with the note. *)
Theorem narrowing_skips_generation :
  verifyNarrowing 5 peer long = Some []
  /\ accepts (Some peer) long "title" (text "abcdefghijklmnop") = true
  /\ accepts (Some peer) note "title" (text "abcdefghijklmnop") = false.
Proof. vm_compute. by split_and!. Qed.

(** A type that extends itself: the check has no end. *)
Theorem narrowing_of_loop fuel : verifyNarrowing fuel peer loop = None.
Proof. apply narrowing_loops; [done|vm_compute; reflexivity]. Qed.

(** A type pattern is compared as a glob whose [*] is one segment, and matched as
    a capability pattern: a constraint that passes as narrower accepts what the
    other refuses, and one that is narrower is refused. *)
Definition bound_note : State := {|
  ts_Store := Sample.file [toy_entity "a/x/b" [Byte.x01]]; ts_Index := {[ "p" := ContentHash (toy_entity "a/x/b" [Byte.x01]) ]}; ts_CapIndex := None |}.
Theorem type_patterns_disagree :
  checkNarrower "f" (type_pattern "a/x/b") (type_pattern "a/*/b") = None
  /\ satisfies (Some bound_note) (text "p") (type_pattern "a/x/b") = true
  /\ satisfies (Some bound_note) (text "p") (type_pattern "a/*/b") = false
  /\ typePatternNarrower "a/x/b" "a/*" = false
  /\ satisfies (Some bound_note) (text "p") (type_pattern "a/*") = true.
Proof. vm_compute. by split_and!. Qed.

(** Two types are reported fully compatible although the entities of the first
    may lack what the second requires. *)
Definition loose : TypeDefinition := def_of "loose" "" {[ "title" := field "primitive/string" true [] ]}.
Theorem compatible_ignores_optional :
  Level (compatibleTypes "a" "b" "forward" loose note) = "fully_compatible"
  /\ structuralCheck loose ∅ = [] /\ structuralCheck note ∅ <> [].
Proof. vm_compute. by split_and!. Qed.

(** A pattern that speaks of an unknown format is taken for an unknown
    constraint. *)
Theorem reason_misread :
  vi_Kind <$> snd (dispatchConstraint AlgorithmSHA256 (Some execute) peer "title" (text "x")
    (constraint TypeConstraintPattern (str_bytes "unknown format"))) = Some ViolationKindUnknownConstraint.
Proof. vm_compute. reflexivity. Qed.

(** Reconciling by intersection keeps less of a field than converging: the size
    that both definitions state is lost. *)
Definition sized : TypeDefinition := def_of "sized" "" {[ "key" := {|
  TypeRef := "primitive/bytes"; Optional := false; ArrayOf := None; MapOf := None; UnionOf := []; TypeParam := ""; fs_TypeArgs := ∅;
  Default := None; KeyType := ""; ByteSize := Some 32; fs_Constraints := [] |} ]}.
Theorem intersect_loses_size :
  ByteSize <$> Fields (convergeDefinitions [sized; sized] []) !! "key" = Some (Some 32)
  /\ ByteSize <$> Fields (intersect_definition [sized; sized] []) !! "key" = Some None.
Proof. vm_compute. by split. Qed.
End TypeSample.
