(* ===== verification/Attestation.v ===== *)
(** * Attestations ([ext/attestation], [core/types/attestation.go])

    An attestation is a claim of one entity about another, with properties, a
    time of validity, and possibly a predecessor that it supersedes.  The handler
    keeps an index of the attestations it has seen; whether one is live is
    computed from the index and the content store.

    The recursions of the liveness check follow the graph of successors and
    revocations: they take fuel, [None] when it runs out.  [now] is the clock,
    read when the time of a check is given as zero; the tree writes take it as
    [now_check]. *)

From Stdlib Require Import Ascii.
From S2P Require Import Prelude GoStrings Errors Hash Entity PeerID Paths CapTypes Patterns Check Delegation Chain Requests Revoked Store Notifying Handlers TreeIndex RevPerform.

Open Scope Z_scope.

Definition TypeAttestation : string := "system/attestation".
Definition KindRevocation : string := "revocation".
Definition DefaultMaxChainDepth : nat := 32.

Record AttestationData := {
  Attesting : Hash; Attested : Hash; Properties : gmap string (list byte); Supersedes : option Hash;
  at_NotBefore : option Z; at_ExpiresAt : option Z
}.

Record SupersedeRequest := {
  sr_PreviousHash : Hash; sr_Properties : gmap string (list byte); sr_NotBefore : option Z; sr_ExpiresAt : option Z
}.
Record RevokeRequest := { ar_TargetHash : Hash; ar_Attesting : Hash; ar_Reason : string }.
Record AttestVerifyRequest := { av_AttestationHash : Hash; av_AsOf : option Z }.

Class AttestationCodec := {
  DecodeAttestation : list byte -> option AttestationData;
  EncodeAttestation : AttestationData -> option (list byte);
  DecodeKind : list byte -> option string;
  EncodeRevocationProperties : string -> option (gmap string (list byte));
  DecodeSupersedeRequest : list byte -> option SupersedeRequest;
  DecodeAttestRevokeRequest : list byte -> option RevokeRequest;
  DecodeAttestVerifyRequest : list byte -> option AttestVerifyRequest
}.

(** ** The index *)

Record indexedEntry := { ie_attesting : Hash; ie_attested : Hash; ie_kind : string; ie_supersedes : option Hash }.
#[export] Instance indexedEntry_eq : EqDecision indexedEntry.
Proof. solve_decision. Defined.

Record Index := mkIndex {
  byAttesting : gmap Hash (gset Hash); byAttested : gmap Hash (gset Hash); byKind : gmap string (gset Hash);
  bySupersedes : gmap Hash (gset Hash); indexed : gmap Hash indexedEntry
}.

Definition NewIndex : Index := mkIndex ∅ ∅ ∅ ∅ ∅.

Section buckets.
Context {K : Type} `{Countable K}.

Definition bucket (m : gmap K (gset Hash)) (key : K) : gset Hash := match m !! key with Some b => b | None => ∅ end.

Definition addToBucket (m : gmap K (gset Hash)) (key : K) (val : Hash) : gmap K (gset Hash) := <[key := {[val]} ∪ bucket m key]> m.

Definition removeFromBucket (m : gmap K (gset Hash)) (key : K) (val : Hash) : gmap K (gset Hash) :=
  match m !! key with
  | None => m
  | Some b => let b' := b ∖ {[val]} in if bool_decide (b' = ∅) then delete key m else <[key := b']> m
  end.

(** [lookup] and the sort by hash. *)
Definition ix_lookup (m : gmap K (gset Hash)) (key : K) : list Hash := merge_sort hash_le (elements (bucket m key)).
End buckets.

Section attestation.
Context `{AttestationCodec}.

Definition Kind (d : AttestationData) : string :=
  match Properties d !! "kind" with
  | None => ""
  | Some raw => match DecodeKind raw with Some s => s | None => "" end
  end.

Definition projection (att : AttestationData) : indexedEntry := {|
  ie_attesting := Attesting att; ie_attested := Attested att; ie_kind := Kind att; ie_supersedes := Supersedes att |}.

Definition removeLocked (ix : Index) (attHash : Hash) (entry : indexedEntry) : Index := {|
  byAttesting := removeFromBucket (byAttesting ix) (ie_attesting entry) attHash;
  byAttested := removeFromBucket (byAttested ix) (ie_attested entry) attHash;
  byKind := if String.eqb (ie_kind entry) "" then byKind ix else removeFromBucket (byKind ix) (ie_kind entry) attHash;
  bySupersedes := match ie_supersedes entry with None => bySupersedes ix | Some p => removeFromBucket (bySupersedes ix) p attHash end;
  indexed := indexed ix |}.

Definition insert_entry (ix : Index) (attHash : Hash) (entry : indexedEntry) : Index := {|
  byAttesting := addToBucket (byAttesting ix) (ie_attesting entry) attHash;
  byAttested := addToBucket (byAttested ix) (ie_attested entry) attHash;
  byKind := if String.eqb (ie_kind entry) "" then byKind ix else addToBucket (byKind ix) (ie_kind entry) attHash;
  bySupersedes := match ie_supersedes entry with None => bySupersedes ix | Some p => addToBucket (bySupersedes ix) p attHash end;
  indexed := <[attHash := entry]> (indexed ix) |}.

(** Two entries with a predecessor are never equal in Go: they hold it at two
    addresses. *)
Definition Add (ix : Index) (attHash : Hash) (att : AttestationData) : Index :=
  let entry := projection att in
  match indexed ix !! attHash with
  | Some prev =>
      if bool_decide (prev = entry) && bool_decide (ie_supersedes entry = None) then ix
      else insert_entry (removeLocked ix attHash prev) attHash entry
  | None => insert_entry ix attHash entry
  end.

Definition ix_Remove (ix : Index) (attHash : Hash) : Index :=
  match indexed ix !! attHash with
  | None => ix
  | Some entry =>
      let ix := removeLocked ix attHash entry in
      mkIndex (byAttesting ix) (byAttested ix) (byKind ix) (bySupersedes ix) (delete attHash (indexed ix))
  end.

Definition FindByAttesting (ix : Index) (h : Hash) : list Hash := ix_lookup (byAttesting ix) h.
Definition FindByAttested (ix : Index) (h : Hash) : list Hash := ix_lookup (byAttested ix) h.
Definition FindBySupersedes (ix : Index) (h : Hash) : list Hash := ix_lookup (bySupersedes ix) h.
Definition FindByKind (ix : Index) (kind : string) : list Hash := ix_lookup (byKind ix) kind.

Definition FindRevocationsFor (ix : Index) (attestationHash : Hash) : list Hash :=
  List.filter (fun h => bool_decide (h ∈ bucket (byAttested ix) attestationHash)) (FindByKind ix KindRevocation).

(** ** Loading and signatures *)

Context {CS L IX : Type} `{ContentStore CS} `{LocationIndex L}.
Context `{Base58, Signing, HashableCodec, DataCodec}.
Abbreviation State := (TreeState CS L IX).

Definition loadAttestation (cs : CS) (h : Hash) : option AttestationData :=
  match cs_Get cs h with
  | None => None
  | Some ent => if String.eqb (Type_ ent) TypeAttestation then DecodeAttestation (Data ent) else None
  end.

Definition AttestationRef : Type := Hash * AttestationData.

Definition collectMatching (cs : CS) (candidates : list Hash) (predicate : Hash -> AttestationData -> bool) : list AttestationRef :=
  omap (fun h => match loadAttestation cs h with
                 | None => None
                 | Some att => if predicate h att then Some (h, att) else None
                 end) candidates.

Definition FindAttestationsTargeting (cs : CS) (ix : Index) (entityHash : Hash) (predicate : Hash -> AttestationData -> bool)
  : list AttestationRef := collectMatching cs (FindByAttested ix entityHash) predicate.
Definition FindAttestationsBy (cs : CS) (ix : Index) (peerHash : Hash) (predicate : Hash -> AttestationData -> bool)
  : list AttestationRef := collectMatching cs (FindByAttesting ix peerHash) predicate.

(** The identity of a signer, with its key. *)
Definition signer_identity (cs : CS) (signer : Hash) : option (PeerData * byte) :=
  match cs_Get cs signer with
  | None => None
  | Some idEnt =>
      if negb (String.eqb (Type_ idEnt) TypePeer) then None
      else match PeerDataFromEntity idEnt with
      | Err _ => None
      | Ok idData => match PeerData_KeyTypeByte idData with None => None | Some kt => Some (idData, kt) end
      end
  end.

Definition FindSignatureBySigner (cs : CS) (li : L) (target signer : Hash) : option Entity :=
  match signer_identity cs signer with
  | None => None
  | Some (idData, ktByte) =>
      match PeerIDFromPublicKey (PublicKey idData) ktByte with
      | Err _ => None
      | Ok pid =>
          match Get li (InvariantSignaturePath pid target) with
          | None => None
          | Some sigHash =>
              match cs_Get cs sigHash with
              | None => None
              | Some sigEnt => if String.eqb (Type_ sigEnt) TypeSignature then Some sigEnt else None
              end
          end
      end
  end.

Definition VerifySpecificSigner (cs : CS) (li : L) (target expectedSigner : Hash) : bool :=
  match FindSignatureBySigner cs li target expectedSigner with
  | None => false
  | Some sigEnt =>
      match SignatureDataFromEntity sigEnt with
      | Err _ => false
      | Ok sig =>
          if negb (bool_decide (Target sig = target) && bool_decide (Signer sig = expectedSigner)) then false
          else match signer_identity cs expectedSigner with
          | None => false
          | Some (idData, ktByte) =>
              if negb (String.eqb (sig_Algorithm sig) "") && negb (String.eqb (sig_Algorithm sig) (pd_KeyType idData)) then false
              else Verify ktByte (PublicKey idData) (Bytes target) (Signature sig)
          end
      end
  end.

Definition VerifyAttestationSignature (cs : CS) (li : L) (attHash : Hash) (att : AttestationData) : bool :=
  VerifySpecificSigner cs li attHash (Attesting att).

(** ** Liveness *)

Section liveness.
Context (cs : CS) (ix : Index) (now : Z).

Definition shallowEffective (att : AttestationData) : bool :=
  negb (match at_NotBefore att with Some nb => now <? nb | None => false end)
  && negb (match at_ExpiresAt att with Some e => e <=? now | None => false end).

(** The walk of [hasEffectivelyLiveDescendant]: the successors in order, each
    tested by [live] and, when dead, followed. *)
Section walk.
Context (live : Hash -> AttestationData -> option bool).

Fixpoint walk (fuel : nat) (visited : gset Hash) (h : Hash) : option (gset Hash * bool) :=
  match fuel with
  | O => None
  | S fuel =>
      (fix over (visited : gset Hash) (succs : list Hash) : option (gset Hash * bool) :=
         match succs with
         | [] => Some (visited, false)
         | s :: succs =>
             if bool_decide (s ∈ visited) then over visited succs
             else
               let visited := {[s]} ∪ visited in
               match loadAttestation cs s with
               | None => over visited succs
               | Some succ =>
                   match live s succ with
                   | None => None
                   | Some true => Some (visited, true)
                   | Some false =>
                       match walk fuel visited s with
                       | None => None
                       | Some (visited, true) => Some (visited, true)
                       | Some (visited, false) => over visited succs
                       end
                   end
               end
         end) visited (FindBySupersedes ix h)
  end.

Definition hasEffectivelyLiveDescendant (fuel : nat) (root : Hash) : option bool := snd <$> walk fuel ∅ root.

(** The loop over the revocations of [attHash]: is one by [attesting] live? *)
Fixpoint self_revoked (attesting : Hash) (revocations : list Hash) : option bool :=
  match revocations with
  | [] => Some false
  | r :: revocations =>
      match loadAttestation cs r with
      | None => self_revoked attesting revocations
      | Some rev =>
          if negb (bool_decide (Attesting rev = attesting)) then self_revoked attesting revocations
          else match live r rev with
               | None => None
               | Some true => Some true
               | Some false => self_revoked attesting revocations
               end
      end
  end.
End walk.

Fixpoint live_at (fuel : nat) (attHash : Hash) (att : AttestationData) : option bool :=
  match fuel with
  | O => None
  | S fuel =>
      if negb (shallowEffective att) then Some false
      else match hasEffectivelyLiveDescendant (live_at fuel) fuel attHash with
      | None => None
      | Some true => Some false
      | Some false => negb <$> self_revoked (live_at fuel) (Attesting att) (FindRevocationsFor ix attHash)
      end
  end.
End liveness.

Definition as_of (asOf now : Z) : Z := if asOf =? 0 then now else asOf.

Definition IsAttestationLive (fuel : nat) (cs : CS) (ix : Index) (attHash : Hash) (att : AttestationData) (asOf now : Z) : option bool :=
  live_at cs ix (as_of asOf now) fuel attHash att.

(** ** Chains *)

Fixpoint WalkSupersedesChain (fuel : nat) (cs : CS) (startHash : Hash) (start : AttestationData) : option (list AttestationRef) :=
  match fuel with
  | O => None
  | S fuel =>
      match Supersedes start with
      | None => Some [(startHash, start)]
      | Some p => match loadAttestation cs p with
                  | None => Some [(startHash, start)]
                  | Some prev => cons (startHash, start) <$> WalkSupersedesChain fuel cs p prev
                  end
      end
  end.

Definition successorWins (a b : AttestationRef) : bool :=
  let start (r : AttestationRef) := match at_NotBefore (snd r) with Some nb => nb | None => 0 end in
  if negb (start a =? start b) then start b <? start a else negb (bool_decide (hash_le (fst b) (fst a))).

Definition best_of (wins : AttestationRef -> AttestationRef -> bool) (first : AttestationRef) (rest : list AttestationRef) : AttestationRef :=
  fold_left (fun best c => if wins c best then c else best) rest first.

(** The walk of [FindLiveHead]: what was visited, and the live ones in order. *)
Section head.
Context (cs : CS) (ix : Index) (live : Hash -> AttestationData -> option bool).

Fixpoint collect_live (fuel : nat) (visited : gset Hash) (h : Hash) (att : AttestationData) : option (gset Hash * list AttestationRef) :=
  match fuel with
  | O => None
  | S fuel =>
      if bool_decide (h ∈ visited) then Some (visited, [])
      else match live h att with
      | None => None
      | Some alive =>
          (fix over (visited : gset Hash) (found : list AttestationRef) (succs : list Hash) : option (gset Hash * list AttestationRef) :=
             match succs with
             | [] => Some (visited, found)
             | s :: succs =>
                 match loadAttestation cs s with
                 | None => over visited found succs
                 | Some succ => match collect_live fuel visited s succ with
                                | None => None
                                | Some (visited, more) => over visited (found ++ more) succs
                                end
                 end
             end) ({[h]} ∪ visited) (if alive then [(h, att)] else []) (FindBySupersedes ix h)
      end
  end.
End head.

Definition FindLiveHead (fuel : nat) (cs : CS) (ix : Index) (startHash : Hash) (start : AttestationData) (asOf now : Z)
  : option (option AttestationRef) :=
  match collect_live cs ix (fun h att => IsAttestationLive fuel cs ix h att asOf now) fuel ∅ startHash start with
  | None => None
  | Some (_, []) => Some None
  | Some (_, first :: rest) => Some (Some (best_of successorWins first rest))
  end.

(** The candidates that are live, and their heads, each head once. *)
Fixpoint live_candidates (live : Hash -> AttestationData -> option bool) (l : list AttestationRef) : option (list AttestationRef) :=
  match l with
  | [] => Some []
  | (h, att) :: l =>
      match live h att with
      | None => None
      | Some alive => (fun rest => if alive then (h, att) :: rest else rest) <$> live_candidates live l
      end
  end.

Fixpoint live_heads (head : Hash -> AttestationData -> option (option AttestationRef)) (seen : gset Hash) (l : list AttestationRef)
  : option (list AttestationRef) :=
  match l with
  | [] => Some []
  | (h, att) :: l =>
      match head h att with
      | None => None
      | Some None => live_heads head seen l
      | Some (Some r) => if bool_decide (fst r ∈ seen) then live_heads head seen l else cons r <$> live_heads head ({[fst r]} ∪ seen) l
      end
  end.

Definition DefaultFindAuthorizing (fuel : nat) (cs : CS) (ix : Index) (asOf now : Z) (peerHash : Hash) : option (option AttestationRef) :=
  match live_candidates (fun h att => IsAttestationLive fuel cs ix h att asOf now)
          (FindAttestationsTargeting cs ix peerHash (fun _ _ => true)) with
  | None => None
  | Some live =>
      match live_heads (fun h att => FindLiveHead fuel cs ix h att asOf now) ∅ live with
      | None => None
      | Some [] => Some None
      | Some (first :: rest) =>
          Some (Some (best_of (fun h best => negb (bool_decide (hash_le (fst best) (fst h)))) first rest))
      end
  end.

(** [WalkAttestingChain]: the loop, with the depth that is left. *)
Fixpoint chain_loop (terminate : AttestationRef -> bool) (findAuthorizing : Hash -> option AttestationRef) (depth : nat)
    (chain : list AttestationRef) (current : AttestationRef) : option (list AttestationRef) :=
  match depth with
  | O => None
  | S depth =>
      if terminate current then Some chain
      else match findAuthorizing (Attesting (snd current)) with
           | None => None
           | Some parent => chain_loop terminate findAuthorizing depth (chain ++ [parent])%list parent
           end
  end.

Definition WalkAttestingChain (startHash : Hash) (start : AttestationData) (terminate : AttestationRef -> bool)
    (findAuthorizing : Hash -> option AttestationRef) (maxDepth : Z) : option (list AttestationRef) :=
  let maxDepth := if maxDepth <=? 0 then DefaultMaxChainDepth else Z.to_nat maxDepth in
  chain_loop terminate findAuthorizing maxDepth [(startHash, start)] (startHash, start).

(** ** The operations *)

Context `{CapabilityIndex IX}.
Context (alg : byte) (now_check : Z) (cw : option (ContextualWriter L)).
Implicit Types (hctx : HandlerContext) (st : State).

Definition Attestation_ToEntity (d : AttestationData) : result Entity :=
  let! raw := of_option [] (EncodeAttestation d) in Ent.NewEntity alg TypeAttestation raw.

Definition validateStructure (att : AttestationData) : bool :=
  negb (IsZero (Attesting att)) && negb (IsZero (Attested att))
  && match at_NotBefore att, at_ExpiresAt att with Some nb, Some e => nb <=? e | _, _ => true end.

Inductive AttestErr := MissingPath | InvalidStructure | InvalidSupersedes | EncodeFailed | PutFailed | BindFailed.

(** What [Create], [supersede] and [revoke] share: encode, store, bind, index. *)
Definition write_attestation hctx st (ix : Index) (path : string) (att : AttestationData) (operation : string)
  : State * Index * res AttestErr Hash :=
  match Attestation_ToEntity att with
  | Err _ => (st, ix, Err EncodeFailed)
  | Ok ent =>
      match cs_Put (ts_Store st) ent with
      | (cs, Err _) => (with_store st cs, ix, Err PutFailed)
      | (cs, Ok _) =>
          match TreeSet now_check cw hctx (with_store st cs) path (ContentHash ent) operation with
          | (st, _, Err _) => (st, ix, Err BindFailed)
          | (st, _, Ok _) => (st, Add ix (ContentHash ent) att, Ok (ContentHash ent))
          end
      end
  end.

Definition Create hctx st (ix : Index) (path : string) (att : AttestationData) : State * Index * res AttestErr Hash :=
  if String.eqb path "" then (st, ix, Err MissingPath)
  else if negb (validateStructure att) then (st, ix, Err InvalidStructure)
  else if match Supersedes att with
          | Some p => match loadAttestation (ts_Store st) p with Some _ => false | None => true end
          | None => false
          end
  then (st, ix, Err InvalidSupersedes)
  else write_attestation hctx st ix path att "attestation-create".

Inductive AttestAnswer :=
| AError (status : Z) (code : string)
| AWritten (h : Hash)
| AVerified (valid : bool) (reason : string).

Definition att_handleCreate hctx st (ix : Index) (params : list byte) : State * Index * AttestAnswer :=
  let path := ExtractResourcePath hctx in
  if String.eqb path "" then (st, ix, AError 400 "missing_resource_path")
  else match DecodeAttestation params with
  | None => (st, ix, AError 400 "invalid_request")
  | Some att =>
      match Create hctx st ix path att with
      | (st, ix, Ok h) => (st, ix, AWritten h)
      | (st, ix, Err _) => (st, ix, AError 400 "invalid_attestation")
      end
  end.

Definition write_answer (e : AttestErr) : AttestAnswer :=
  match e with
  | EncodeFailed => AError 500 "encode_failed"
  | PutFailed => AError 500 "store_put_failed"
  | _ => AError 500 "storage_error"
  end.

Definition handleSupersede hctx st (ix : Index) (params : list byte) : State * Index * AttestAnswer :=
  let path := ExtractResourcePath hctx in
  if String.eqb path "" then (st, ix, AError 400 "missing_resource_path")
  else match DecodeSupersedeRequest params with
  | None => (st, ix, AError 400 "invalid_request")
  | Some body =>
      match loadAttestation (ts_Store st) (sr_PreviousHash body) with
      | None => (st, ix, AError 404 "previous_not_found")
      | Some prev =>
          let att := {| Attesting := Attesting prev; Attested := Attested prev; Properties := sr_Properties body;
                        Supersedes := Some (sr_PreviousHash body); at_NotBefore := sr_NotBefore body; at_ExpiresAt := sr_ExpiresAt body |} in
          if negb (validateStructure att) then (st, ix, AError 400 "invalid_attestation")
          else match write_attestation hctx st ix path att "attestation-supersede" with
          | (st, ix, Ok h) => (st, ix, AWritten h)
          | (st, ix, Err e) => (st, ix, write_answer e)
          end
      end
  end.

Definition att_handleRevoke hctx st (ix : Index) (params : list byte) : State * Index * AttestAnswer :=
  let path := ExtractResourcePath hctx in
  if String.eqb path "" then (st, ix, AError 400 "missing_resource_path")
  else match DecodeAttestRevokeRequest params with
  | None => (st, ix, AError 400 "invalid_request")
  | Some body =>
      if IsZero (ar_TargetHash body) || IsZero (ar_Attesting body) then (st, ix, AError 400 "invalid_attestation")
      else match EncodeRevocationProperties (ar_Reason body) with
      | None => (st, ix, AError 500 "encode_failed")
      | Some props =>
          let att := {| Attesting := ar_Attesting body; Attested := ar_TargetHash body; Properties := props; Supersedes := None;
                        at_NotBefore := None; at_ExpiresAt := None |} in
          match write_attestation hctx st ix path att "attestation-revoke" with
          | (st, ix, Ok h) => (st, ix, AWritten h)
          | (st, ix, Err e) => (st, ix, write_answer e)
          end
      end
  end.

(** [None] when the fuel of the liveness check runs out. *)
Definition att_handleVerify (fuel : nat) (now : Z) st (ix : Index) (params : list byte) : option AttestAnswer :=
  match DecodeAttestVerifyRequest params with
  | None => Some (AError 400 "invalid_request")
  | Some body =>
      match loadAttestation (ts_Store st) (av_AttestationHash body) with
      | None => Some (AVerified false "not_found")
      | Some att =>
          if negb (VerifyAttestationSignature (ts_Store st) (ts_Index st) (av_AttestationHash body) att)
          then Some (AVerified false "invalid_signature")
          else
            let asOf := match av_AsOf body with Some t => t | None => 0 end in
            (fun alive : bool => if alive then AVerified true "" else AVerified false "not_live")
            <$> IsAttestationLive fuel (ts_Store st) ix (av_AttestationHash body) att asOf now
      end
  end.

Definition att_Handle (fuel : nat) (now : Z) hctx st (ix : Index) (operation : string) (params : list byte)
  : option (State * Index * AttestAnswer) :=
  if String.eqb operation "create" then Some (att_handleCreate hctx st ix params)
  else if String.eqb operation "supersede" then Some (handleSupersede hctx st ix params)
  else if String.eqb operation "revoke" then Some (att_handleRevoke hctx st ix params)
  else if String.eqb operation "verify" then (fun a => (st, ix, a)) <$> att_handleVerify fuel now st ix params
  else Some (st, ix, AError 501 "unsupported_operation").

(** ** Following the tree *)

(** An entity of the tree that is an attestation is indexed. *)
Definition index_entity (cs : CS) (ix : Index) (h : Hash) : Index :=
  match cs_Get cs h with
  | None => ix
  | Some ent =>
      if negb (String.eqb (Type_ ent) TypeAttestation) then ix
      else match DecodeAttestation (Data ent) with None => ix | Some att => Add ix (ContentHash ent) att end
  end.

Definition OnTreeChange (cs : CS) (ix : Index) (evt : TreeChangeEvent) : Index :=
  match ev_ChangeType evt with
  | ChangeDeleted => if IsZero (ev_Hash evt) then ix else ix_Remove ix (ev_Hash evt)
  | ChangeCreated | ChangeModified => if IsZero (ev_Hash evt) then ix else index_entity cs ix (ev_Hash evt)
  end.

Definition Load st (ix : Index) : Index :=
  fold_left (fun ix e => index_entity (ts_Store st) ix (le_Hash e)) (List_ (ts_Index st) "") ix.
End attestation.
