(* ===== verification/AttestSpec.v ===== *)
(** * What the index of attestations holds, and which are live

    The index is an implementation of a map from hashes to projections: the
    lookups by field are its inverse images.  Liveness is characterised without
    the order of the walks: an attestation is live when it is in its time, none
    of its successors, near or far, is live, and its attesting entity has no live
    revocation of it. *)

From S2P Require Import Prelude GoStrings Errors Hash Entity PeerID Paths CapTypes Patterns Check Delegation Chain Requests Revoked Store Notifying Handlers TreeIndex RevPerform Attestation.

Open Scope Z_scope.

(** ** Buckets *)

Section buckets.
Context {K : Type} `{Countable K}.
Implicit Types (m : gmap K (gset Hash)).

Lemma bucket_add m k v k' h : h ∈ bucket (addToBucket m k v) k' <-> (k' = k /\ h = v) \/ h ∈ bucket m k'.
Proof.
  unfold addToBucket, bucket. destruct (decide (k = k')) as [->|Hne].
  - rewrite lookup_insert_eq, elem_of_union, elem_of_singleton. naive_solver.
  - rewrite lookup_insert_ne by done. naive_solver.
Qed.

Lemma bucket_remove m k v k' h : h ∈ bucket (removeFromBucket m k v) k' <-> h ∈ bucket m k' /\ ~ (k' = k /\ h = v).
Proof.
  unfold removeFromBucket, bucket. destruct (m !! k) as [b|] eqn:Hb.
  2: { destruct (decide (k = k')) as [<-|Hne]; [rewrite Hb|]; set_solver. }
  destruct (bool_decide_reflect (b ∖ {[v]} = ∅)) as [He|He]; destruct (decide (k = k')) as [<-|Hne].
  - rewrite lookup_delete_eq, Hb. set_solver.
  - rewrite lookup_delete_ne by done. set_solver.
  - rewrite lookup_insert_eq, Hb. set_solver.
  - rewrite lookup_insert_ne by done. set_solver.
Qed.

(** The buckets of a field: what is indexed, by the value of the field. *)
Definition bucket_ok m (g : indexedEntry -> option K) (entries : gmap Hash indexedEntry) : Prop :=
  forall k h, h ∈ bucket m k <-> exists e, entries !! h = Some e /\ g e = Some k.

Definition add_opt m (k : option K) (v : Hash) := match k with Some k => addToBucket m k v | None => m end.
Definition remove_opt m (k : option K) (v : Hash) := match k with Some k => removeFromBucket m k v | None => m end.

Lemma bucket_ok_add m g entries h e : bucket_ok m g entries -> entries !! h = None ->
  bucket_ok (add_opt m (g e) h) g (<[h := e]> entries).
Proof.
  intros Hok Hn k h'. destruct (decide (h = h')) as [<-|Hne].
  - rewrite lookup_insert_eq. assert (Hout : h ∉ bucket m k) by (rewrite (Hok k h), Hn; naive_solver).
    destruct (g e) as [k'|] eqn:Hg; cbn [add_opt]; [rewrite bucket_add|]; naive_solver.
  - rewrite lookup_insert_ne by done. rewrite <- (Hok k h'). destruct (g e) as [k'|]; cbn [add_opt]; [rewrite bucket_add|]; naive_solver.
Qed.

Lemma bucket_ok_remove m g entries h e : bucket_ok m g entries -> entries !! h = Some e ->
  bucket_ok (remove_opt m (g e) h) g (delete h entries).
Proof.
  intros Hok He k h'. destruct (decide (h = h')) as [<-|Hne].
  - rewrite lookup_delete_eq. pose proof (Hok k h) as Hb. rewrite He in Hb.
    destruct (g e) as [k'|] eqn:Hg; cbn [remove_opt]; [rewrite bucket_remove|]; naive_solver.
  - rewrite lookup_delete_ne by done. rewrite <- (Hok k h'). destruct (g e) as [k'|]; cbn [remove_opt]; [rewrite bucket_remove|]; naive_solver.
Qed.

Lemma ix_lookup_spec m k h : h ∈ ix_lookup m k <-> h ∈ bucket m k.
Proof. unfold ix_lookup. rewrite (merge_sort_Permutation hash_le). apply elem_of_elements. Qed.

Lemma ix_lookup_NoDup m k : NoDup (ix_lookup m k).
Proof. unfold ix_lookup. rewrite (merge_sort_Permutation hash_le). apply NoDup_elements. Qed.
End buckets.

(** ** The index *)

Definition kind_of (e : indexedEntry) : option string := if String.eqb (ie_kind e) "" then None else Some (ie_kind e).

Record index_ok (ix : Index) : Prop := {
  ok_attesting : bucket_ok (byAttesting ix) (Some ∘ ie_attesting) (indexed ix);
  ok_attested : bucket_ok (byAttested ix) (Some ∘ ie_attested) (indexed ix);
  ok_kind : bucket_ok (byKind ix) kind_of (indexed ix);
  ok_supersedes : bucket_ok (bySupersedes ix) ie_supersedes (indexed ix)
}.

Lemma empty_bucket {K} `{Countable K} g : bucket_ok (∅ : gmap K (gset Hash)) g ∅.
Proof. intros k h. unfold bucket. rewrite !lookup_empty. set_solver. Qed.

Lemma NewIndex_ok : index_ok NewIndex.
Proof. split; apply empty_bucket. Qed.

Lemma kind_add m e h : (if String.eqb (ie_kind e) "" then m else addToBucket m (ie_kind e) h) = add_opt m (kind_of e) h.
Proof. unfold kind_of. by destruct (String.eqb _ _). Qed.
Lemma kind_remove m e h : (if String.eqb (ie_kind e) "" then m else removeFromBucket m (ie_kind e) h) = remove_opt m (kind_of e) h.
Proof. unfold kind_of. by destruct (String.eqb _ _). Qed.

Lemma insert_entry_ok ix h e : index_ok ix -> indexed ix !! h = None -> index_ok (insert_entry ix h e).
Proof.
  intros [Ha Hd Hk Hs] Hn. split; cbn [insert_entry byAttesting byAttested byKind bySupersedes indexed].
  - by apply (bucket_ok_add _ (Some ∘ ie_attesting)).
  - by apply (bucket_ok_add _ (Some ∘ ie_attested)).
  - rewrite kind_add. by apply bucket_ok_add.
  - by apply (bucket_ok_add _ ie_supersedes).
Qed.

(** The index without an entry. *)
Definition without (ix : Index) (h : Hash) (e : indexedEntry) : Index :=
  let ix := removeLocked ix h e in mkIndex (byAttesting ix) (byAttested ix) (byKind ix) (bySupersedes ix) (delete h (indexed ix)).

Lemma without_ok ix h e : index_ok ix -> indexed ix !! h = Some e -> index_ok (without ix h e).
Proof.
  intros [Ha Hd Hk Hs] He. split; cbn [without removeLocked byAttesting byAttested byKind bySupersedes indexed].
  - by apply (bucket_ok_remove _ (Some ∘ ie_attesting)).
  - by apply (bucket_ok_remove _ (Some ∘ ie_attested)).
  - rewrite kind_remove. by apply bucket_ok_remove.
  - by apply (bucket_ok_remove _ ie_supersedes).
Qed.

Section index.
Context `{AttestationCodec}.

Lemma reinsert ix h prev e : insert_entry (removeLocked ix h prev) h e = insert_entry (without ix h prev) h e.
Proof. unfold insert_entry, without, removeLocked. cbn. f_equal. by rewrite insert_delete_eq. Qed.

Lemma Add_ok ix h att : index_ok ix -> index_ok (Add ix h att).
Proof.
  intros Hok. unfold Add. destruct (indexed ix !! h) as [prev|] eqn:Hp; [|by apply insert_entry_ok].
  destruct (_ && _); [done|]. rewrite reinsert. apply insert_entry_ok; [by apply without_ok|]. apply lookup_delete_eq.
Qed.

Lemma Remove_ok ix h : index_ok ix -> index_ok (ix_Remove ix h).
Proof.
  intros Hok. unfold ix_Remove. destruct (indexed ix !! h) as [e|] eqn:He; [|done]. apply (without_ok ix h e Hok He).
Qed.

Lemma Add_indexed ix h att : indexed (Add ix h att) = <[h := projection att]> (indexed ix).
Proof.
  unfold Add. destruct (indexed ix !! h) as [prev|] eqn:Hp; [|done].
  destruct (bool_decide_reflect (prev = projection att)) as [->|]; [|done]. cbn. destruct (bool_decide _); [|done].
  by rewrite insert_id.
Qed.

Lemma Remove_indexed ix h : indexed (ix_Remove ix h) = delete h (indexed ix).
Proof. unfold ix_Remove. destruct (indexed ix !! h) eqn:Hp; [done|]. by rewrite delete_id. Qed.

(** The steps that change the index. *)
Inductive index_step : Index -> Index -> Prop :=
| step_add ix h att : index_step ix (Add ix h att)
| step_remove ix h : index_step ix (ix_Remove ix h).

(** C15: the index answers as the map of the attestations that were added.
    Whatever was added and removed, in whatever order, a lookup by attesting,
    attested, kind or predecessor returns, without repetition, exactly the indexed
    attestations whose projection has that value, and the revocations of a hash
    are those of kind [revocation] that attest to it; an attestation without a kind
    is in no bucket of kinds. *)
Theorem index_refines ix : rtc index_step NewIndex ix ->
  (forall h k, h ∈ FindByAttesting ix k <-> exists e, indexed ix !! h = Some e /\ ie_attesting e = k)
  /\ (forall h k, h ∈ FindByAttested ix k <-> exists e, indexed ix !! h = Some e /\ ie_attested e = k)
  /\ (forall h k, h ∈ FindByKind ix k <-> exists e, indexed ix !! h = Some e /\ ie_kind e = k /\ k <> "")
  /\ (forall h k, h ∈ FindBySupersedes ix k <-> exists e, indexed ix !! h = Some e /\ ie_supersedes e = Some k)
  /\ (forall h k, h ∈ FindRevocationsFor ix k <-> exists e, indexed ix !! h = Some e /\ ie_kind e = KindRevocation /\ ie_attested e = k)
  /\ (forall k, NoDup (FindByAttesting ix k) /\ NoDup (FindByAttested ix k) /\ NoDup (FindBySupersedes ix k)) /\ (forall k, NoDup (FindByKind ix k)).
Proof.
  intros Hr. assert (Hok : index_ok ix).
  { assert (Hg : forall a b, rtc index_step a b -> index_ok a -> index_ok b).
    { induction 1 as [|a b c Hs _ IH]; [done|]. intros Ha. apply IH. destruct Hs; [by apply Add_ok|by apply Remove_ok]. }
    exact (Hg _ _ Hr NewIndex_ok). }
  destruct Hok as [Ha Hd Hk Hs].
  assert (Hkind : forall h k, h ∈ FindByKind ix k <-> exists e, indexed ix !! h = Some e /\ ie_kind e = k /\ k <> "").
  { intros h k. unfold FindByKind. rewrite ix_lookup_spec, (Hk k h). unfold kind_of. split; intros (e & He & Hx); exists e.
    - destruct (String.eqb_spec (ie_kind e) ""); [done|]. injection Hx as <-. done.
    - destruct Hx as [<- Hne]. by destruct (String.eqb_spec (ie_kind e) ""). }
  split. { intros h k. unfold FindByAttesting. rewrite ix_lookup_spec, (Ha k h). unfold compose. naive_solver. }
  split. { intros h k. unfold FindByAttested. rewrite ix_lookup_spec, (Hd k h). unfold compose. naive_solver. }
  split; [exact Hkind|].
  split. { intros h k. unfold FindBySupersedes. rewrite ix_lookup_spec, (Hs k h). naive_solver. }
  split.
  { intros h k. unfold FindRevocationsFor.
    rewrite list_elem_of_In, filter_In, <- list_elem_of_In, Hkind, bool_decide_eq_true, (Hd k h). unfold compose. naive_solver. }
  split; intros k; [split_and!|]; apply ix_lookup_NoDup.
Qed.
End index.

(** ** Liveness *)

Section liveness.
Context `{AttestationCodec} {CS : Type} `{ContentStore CS}.
Context (cs : CS) (ix : Index) (now : Z).

(** The graph is acyclic: what supersedes or revokes an attestation holds its
    hash, and was made later.  [rank] bounds how far one can go from a hash. *)
Context (rank : Hash -> nat).
Definition acyclic : Prop := forall h s, s ∈ FindBySupersedes ix h \/ s ∈ FindRevocationsFor ix h -> (rank s < rank h)%nat.

(** A successor that can be loaded, and the successors near and far. *)
Definition succeeds (h s : Hash) : Prop := s ∈ FindBySupersedes ix h /\ is_Some (loadAttestation cs s).
Definition descendant : Hash -> Hash -> Prop := tc succeeds.

Section walk.
Context (Hacyclic : acyclic) (live : Hash -> AttestationData -> option bool) (V : Hash -> AttestationData -> bool) (R : nat).
Context (HV : forall s d, (rank s < R)%nat -> live s d = Some (V s d)).

Definition dead (x : Hash) : Prop := forall a, loadAttestation cs x = Some a -> V x a = false.
(** Everything that was added to [visited] is dead, with its successors in [v]. *)
Definition explored (visited v : gset Hash) : Prop :=
  visited ⊆ v /\ forall x, x ∈ v -> x ∉ visited -> dead x /\ (is_Some (loadAttestation cs x) -> forall y, y ∈ FindBySupersedes ix x -> y ∈ v).
Definition found (h : Hash) : Prop := exists d a, descendant h d /\ loadAttestation cs d = Some a /\ V d a = true.

Lemma explored_trans a b c : explored a b -> explored b c -> explored a c.
Proof.
  intros [Hab Ha] [Hbc Hb]. split; [set_solver|]. intros x Hx Hn. destruct (decide (x ∈ b)) as [Hxb|Hxb]; [|by apply Hb].
  destruct (Ha x Hxb Hn) as [Hd Hs]. split; [done|]. intros Hl y Hy. apply Hbc. by apply Hs.
Qed.

(** Adding a node after its successors were explored. *)
Lemma explored_add visited v s : dead s -> (is_Some (loadAttestation cs s) -> forall y, y ∈ FindBySupersedes ix s -> y ∈ v) ->
  explored ({[s]} ∪ visited) v -> explored visited v.
Proof.
  intros Hd Hs [Hsub He]. split; [set_solver|]. intros x Hx Hn. destruct (decide (x = s)) as [->|Hne]; [by split|].
  apply He; [done|set_solver].
Qed.

Definition walk_result (h : Hash) (visited : gset Hash) (succs : list Hash) (r : option (gset Hash * bool)) : Prop :=
  exists v b, r = Some (v, b)
    /\ if b then found h else explored visited v /\ forall y, y ∈ succs -> y ∈ v.

Lemma descendant_walk_spec fuel h visited : (rank h < fuel)%nat -> (rank h <= R)%nat ->
  walk_result h visited (FindBySupersedes ix h) (walk cs ix live fuel visited h).
Proof.
  revert h visited. induction fuel as [|fuel IH]; intros h visited Hf HR; [lia|]. cbn [walk].
  assert (Hsub : forall s, s ∈ FindBySupersedes ix h -> s ∈ FindBySupersedes ix h) by done.
  revert visited Hsub. generalize (FindBySupersedes ix h) at 1 3 4 as succs.
  induction succs as [|s succs IHs]; intros visited Hsub.
  { exists visited, false. split; [done|]. split; [split; [done|]; intros x Hx Hn; done|]. intros y Hy. by apply elem_of_nil in Hy. }
  assert (Hs : s ∈ FindBySupersedes ix h) by (apply Hsub; left).
  assert (Hrs : (rank s < rank h)%nat) by (apply Hacyclic; by left).
  assert (Hsub' : forall y, y ∈ succs -> y ∈ FindBySupersedes ix h) by (intros y Hy; apply Hsub; by right).
  pose proof (fun v => IHs v Hsub') as Hrest. clear IHs.
  assert (Hskip : forall visited', explored visited visited' -> s ∈ visited' ->
    forall r, walk_result h visited' succs r -> walk_result h visited (s :: succs) r).
  { intros visited' Hex Hin r (v & b & -> & Hb). exists v, b. split; [done|]. destruct b; [done|]. destruct Hb as [He Hall].
    split; [by eapply explored_trans|]. intros y [->|Hy]%elem_of_cons; [by apply He|by apply Hall]. }
  destruct (bool_decide_reflect (s ∈ visited)) as [Hin|Hin].
  { eapply Hskip; [split; [done|]; by intros x Hx Hn|exact Hin|apply Hrest]. }
  destruct (loadAttestation cs s) as [d|] eqn:Hl.
  2: { eapply (Hskip ({[s]} ∪ visited)); [|set_solver|apply Hrest]. apply (explored_add _ _ s); [|by rewrite Hl; intros [? ?]|].
       - intros a Ha. congruence.
       - split; [done|]. by intros x Hx Hn. }
  rewrite HV by lia. destruct (V s d) eqn:HVs.
  { eexists _, true. split; [done|]. exists s, d. split; [|done]. apply tc_once. split; [done|by rewrite Hl]. }
  destruct (IH s ({[s]} ∪ visited)) as (v & b & -> & Hb); [lia|lia|]. destruct b.
  { eexists _, true. split; [done|]. destruct Hb as (x & a & Hx & Hxa & HVx). exists x, a. split; [|done].
    eapply tc_l; [|exact Hx]. split; [done|by rewrite Hl]. }
  destruct Hb as [He Hall]. eapply (Hskip v); [|apply He; set_solver|apply Hrest].
  apply (explored_add _ _ s); [|by intros _|exact He]. intros a Ha. congruence.
Qed.

Lemma descendants_spec fuel h : (rank h < fuel)%nat -> (rank h <= R)%nat ->
  exists b, hasEffectivelyLiveDescendant cs ix live fuel h = Some b /\ (b = true <-> found h).
Proof.
  intros Hf HR. unfold hasEffectivelyLiveDescendant. destruct (descendant_walk_spec fuel h ∅ Hf HR) as (v & b & -> & Hb).
  exists b. split; [done|]. destruct b; [by split|]. split; [done|]. intros (d & a & Hd & Hl & HVd). exfalso.
  destruct Hb as [[_ He] Hall].
  assert (Hin : d ∈ v).
  { clear Hl HVd Hf HR. induction Hd as [x y [Hy _]|x y z [Hy Hly] _ IH]; [by apply Hall|]. apply IH.
    intros w Hw. apply (He y); [by apply Hall|set_solver|done|done]. }
  destruct (He d Hin) as [Hdead _]; [set_solver|]. rewrite (Hdead a Hl) in HVd. done.
Qed.

Lemma self_revoked_spec h attesting revocations : (rank h <= R)%nat ->
  (forall r, r ∈ revocations -> r ∈ FindRevocationsFor ix h) ->
  exists b, self_revoked cs live attesting revocations = Some b
    /\ (b = true <-> exists r a, r ∈ revocations /\ loadAttestation cs r = Some a /\ Attesting a = attesting /\ V r a = true).
Proof.
  intros HR. induction revocations as [|r rs IH]; intros Hsub; cbn [self_revoked].
  { exists false. split; [done|]. split; [done|]. intros (r & _ & Hr & _). by apply elem_of_nil in Hr. }
  destruct IH as (b & IHb & Hb); [intros x Hx; apply Hsub; by right|].
  assert (Hr : (rank r < R)%nat) by (specialize (Hacyclic h r (or_intror (Hsub r (list_elem_of_here _ _)))); lia).
  set (Q := fun x a => loadAttestation cs x = Some a /\ Attesting a = attesting /\ V x a = true).
  change (b = true <-> exists x a, x ∈ rs /\ Q x a) in Hb.
  assert (Hskip : (forall a, ~ Q r a) -> exists b, self_revoked cs live attesting rs = Some b /\ (b = true <-> exists x a, x ∈ r :: rs /\ Q x a)).
  { intros Hn. exists b. split; [done|]. rewrite Hb. split; intros (x & a & Hx & HQ); exists x, a; split; try done; [by right|].
    apply elem_of_cons in Hx as [->|Hx]; [by apply Hn in HQ|done]. }
  clear Hb IHb. destruct (loadAttestation cs r) as [rev|] eqn:Hl.
  2: { apply Hskip. intros a [Ha _]. congruence. }
  destruct (bool_decide_reflect (Attesting rev = attesting)) as [Ha|Ha]; cbn [negb].
  2: { apply Hskip. intros a (Hla & Hat & _). congruence. }
  rewrite HV by lia. destruct (V r rev) eqn:HVr.
  - exists true. split; [done|]. split; [|done]. intros _. exists r, rev. split; [left|done].
  - apply Hskip. intros a (Hla & _ & HVa). congruence.
Qed.
End walk.

(** With enough fuel the attestation is found to be live. *)
Definition enough (fuel : nat) (h : Hash) : Prop := (S (rank h) < fuel)%nat.
Definition Live (h : Hash) (att : AttestationData) : Prop := forall fuel, enough fuel h -> live_at cs ix now fuel h att = Some true.
Definition verdict (h : Hash) (att : AttestationData) : bool :=
  match live_at cs ix now (S (S (rank h))) h att with Some b => b | None => false end.

(** What makes an attestation live, given the verdict on the others. *)
Definition live_conditions (V : Hash -> AttestationData -> Prop) (h : Hash) (att : AttestationData) : Prop :=
  shallowEffective now att = true
  /\ (forall d a, descendant h d -> loadAttestation cs d = Some a -> ~ V d a)
  /\ (forall r a, r ∈ FindRevocationsFor ix h -> loadAttestation cs r = Some a -> Attesting a = Attesting att -> ~ V r a).

Context (Hacyclic : acyclic).

Lemma live_step (V : Hash -> AttestationData -> bool) h att fuel :
  (forall s d n, (rank s < rank h)%nat -> enough n s -> live_at cs ix now n s d = Some (V s d)) -> enough fuel h ->
  exists b, live_at cs ix now fuel h att = Some b /\ (b = true <-> live_conditions (fun x a => V x a = true) h att).
Proof.
  unfold enough. intros HV Hf. destruct fuel as [|fuel]; [lia|]. cbn [live_at]. unfold live_conditions.
  destruct (shallowEffective now att) eqn:Hsh; cbn [negb]; [|exists false; naive_solver].
  assert (HVf : forall s d, (rank s < rank h)%nat -> live_at cs ix now fuel s d = Some (V s d)) by (intros s d Hs; apply HV; lia).
  destruct (descendants_spec Hacyclic _ V (rank h) HVf fuel h) as (b & -> & Hb); [lia|lia|]. unfold found in Hb.
  destruct b; [exists false; naive_solver|].
  destruct (self_revoked_spec Hacyclic _ V (rank h) HVf h (Attesting att) (FindRevocationsFor ix h)) as (b & -> & Hr); [lia|done|].
  exists (negb b). split; [done|]. destruct b; naive_solver.
Qed.

Lemma live_verdict h att fuel : enough fuel h -> live_at cs ix now fuel h att = Some (verdict h att).
Proof.
  remember (rank h) as n eqn:Hn. revert h att fuel Hn. induction (lt_wf n) as [n _ IH]. intros h att fuel -> Hf.
  assert (HV : forall s d m, (rank s < rank h)%nat -> enough m s -> live_at cs ix now m s d = Some (verdict s d)) by (intros; eapply IH; eauto).
  destruct (live_step verdict h att fuel HV Hf) as (b & Hb & Hiff).
  destruct (live_step verdict h att (S (S (rank h))) HV) as (b' & Hb' & Hiff'); [unfold enough; lia|].
  rewrite Hb. f_equal. unfold verdict at 1. rewrite Hb'. apply eq_true_iff_eq. by rewrite Hiff.
Qed.

Lemma Live_verdict h att : Live h att <-> verdict h att = true.
Proof.
  split.
  - intros Hl. specialize (Hl (S (S (rank h)))). rewrite live_verdict in Hl by (unfold enough; lia).
    assert (Some (verdict h att) = Some true) as [= ->] by (apply Hl; unfold enough; lia). done.
  - intros Hv fuel Hf. by rewrite live_verdict, Hv.
Qed.

Lemma conditions_ext V W h att : (forall x a, V x a <-> W x a) -> live_conditions V h att <-> live_conditions W h att.
Proof. intros He. unfold live_conditions. setoid_rewrite He. done. Qed.

(** C13: which attestations are live.  On an acyclic graph the check returns, with
    more fuel than one can go from the attestation, and answers yes if and only if
    the attestation is in its time, no attestation that supersedes it, directly or
    through others that can be loaded, is live, and its attesting entity has no
    live revocation of it.  In particular an attestation and one that supersedes it
    are never both live. *)
Theorem live_iff h att :
  (forall fuel, enough fuel h -> is_Some (live_at cs ix now fuel h att)) /\ (Live h att <-> live_conditions Live h att).
Proof.
  split; [intros fuel Hf; rewrite live_verdict by done; eauto|].
  destruct (live_step verdict h att (S (S (rank h)))) as (b & Hb & Hiff); [intros; by apply live_verdict|unfold enough; lia|].
  rewrite (conditions_ext _ _ _ _ Live_verdict), <- Hiff, Live_verdict. unfold verdict. by rewrite Hb.
Qed.

(** ** The live head *)

(** What [h] leads to, itself included. *)
Definition reaches : Hash -> Hash -> Prop := rtc succeeds.

Lemma reaches_rank h x : reaches h x -> (rank x <= rank h)%nat.
Proof. induction 1 as [|a b c [Hs _] _ IH]; [done|]. assert (rank b < rank a)%nat by (apply Hacyclic; by left). lia. Qed.

Section head.
Context (live : Hash -> AttestationData -> option bool) (top : nat).
Context (Hlive : forall x a, (rank x <= top)%nat -> live x a = Some (verdict x a)).

Definition gathered (visited v : gset Hash) (fs : list AttestationRef) : Prop :=
  visited ⊆ v /\ forall x, x ∈ v -> x ∉ visited ->
    (forall a, loadAttestation cs x = Some a -> verdict x a = true -> (x, a) ∈ fs) /\ forall y, succeeds x y -> y ∈ v.
Definition sound (h : Hash) (fs : list AttestationRef) : Prop :=
  forall x a, (x, a) ∈ fs -> reaches h x /\ loadAttestation cs x = Some a /\ verdict x a = true.

Lemma gathered_trans a b c fs gs : gathered a b fs -> gathered b c gs -> gathered a c (fs ++ gs).
Proof.
  intros [Hab Ha] [Hbc Hb]. split; [set_solver|]. intros x Hx Hn. destruct (decide (x ∈ b)) as [Hxb|Hxb].
  - destruct (Ha x Hxb Hn) as [H1 H2]. split; [|intros y Hy; by apply Hbc, H2]. intros d Hd Hv. apply elem_of_app. left. by apply H1.
  - destruct (Hb x Hx Hxb) as [H1 H2]. split; [|done]. intros d Hd Hv. apply elem_of_app. right. by apply H1.
Qed.

Lemma sound_succ h s fs : succeeds h s -> sound s fs -> sound h fs.
Proof. intros Hs Hf x a Hx. destruct (Hf x a Hx) as (Hr & ? & ?). split; [|done]. by eapply rtc_l. Qed.

Lemma sound_app h fs gs : sound h fs -> sound h gs -> sound h (fs ++ gs).
Proof. intros Hf Hg x a [Hx|Hx]%elem_of_app; auto. Qed.

Lemma collect_live_spec fuel h att visited : loadAttestation cs h = Some att -> (rank h < fuel)%nat -> (rank h <= top)%nat ->
  exists v fs, collect_live cs ix live fuel visited h att = Some (v, fs) /\ h ∈ v /\ gathered visited v fs /\ sound h fs.
Proof.
  revert h att visited. induction fuel as [|fuel IH]; intros h att visited Hl Hf Ht; [lia|]. cbn [collect_live].
  destruct (bool_decide_reflect (h ∈ visited)) as [Hin|Hin].
  { exists visited, []. split; [done|]. split; [done|]. split; [split; [done|]; by intros x Hx Hn|]. intros x a Hx. by apply elem_of_nil in Hx. }
  rewrite Hlive by done. set (own := if verdict h att then [(h, att)] else []).
  assert (Hover : forall succs, (forall s, s ∈ succs -> s ∈ FindBySupersedes ix h) -> forall v0 fs0, sound h fs0 ->
    exists v fs, (fix over (visited : gset Hash) (found : list AttestationRef) (succs : list Hash) : option (gset Hash * list AttestationRef) :=
      match succs with
      | [] => Some (visited, found)
      | s :: succs =>
          match loadAttestation cs s with
          | None => over visited found succs
          | Some succ => match collect_live cs ix live fuel visited s succ with
                         | None => None
                         | Some (visited, more) => over visited (found ++ more) succs
                         end
          end
      end) v0 fs0 succs = Some (v, (fs0 ++ fs)%list) /\ gathered v0 v fs /\ sound h fs
      /\ forall s, s ∈ succs -> is_Some (loadAttestation cs s) -> s ∈ v).
  { induction succs as [|s succs IHs]; intros Hsub v0 fs0 Hs0.
    { exists v0, []. rewrite app_nil_r. split; [done|]. split; [split; [done|]; by intros x Hx Hn|].
      split; [intros x a Hx; by apply elem_of_nil in Hx|]. intros s Hs. by apply elem_of_nil in Hs. }
    assert (Hsub' : forall y, y ∈ succs -> y ∈ FindBySupersedes ix h) by (intros y Hy; apply Hsub; by right).
    assert (Hrs : (rank s < rank h)%nat) by (apply Hacyclic; left; apply Hsub; left).
    destruct (loadAttestation cs s) as [d|] eqn:Hsl.
    2: { destruct (IHs Hsub' v0 fs0 Hs0) as (v & fs & -> & Hg & Hso & Hall). exists v, fs. split; [done|]. split; [done|]. split; [done|].
         intros y [->|Hy]%elem_of_cons Hsome; [rewrite Hsl in Hsome; by destruct Hsome|by apply Hall]. }
    destruct (IH s d v0 Hsl) as (v1 & fs1 & -> & Hin1 & Hg1 & Hso1); [lia|lia|].
    assert (Hse : succeeds h s) by (split; [apply Hsub; left|by rewrite Hsl]).
    destruct (IHs Hsub' v1 (fs0 ++ fs1)%list) as (v & fs & -> & Hg & Hso & Hall); [apply sound_app; [done|by eapply sound_succ]|].
    exists v, (fs1 ++ fs)%list. rewrite app_assoc. split; [done|]. split; [by eapply gathered_trans|].
    split; [apply sound_app; [by eapply sound_succ|done]|]. intros y [->|Hy]%elem_of_cons Hsome; [by apply Hg|by apply Hall]. }
  assert (Hown : sound h own).
  { intros x a Hx. unfold own in Hx. destruct (verdict h att) eqn:Hv; [|by apply elem_of_nil in Hx].
    apply list_elem_of_singleton in Hx as [= -> ->]. split; [apply rtc_refl|done]. }
  destruct (Hover (FindBySupersedes ix h) ltac:(done) ({[h]} ∪ visited) own Hown) as (v & fs & Ho & [Hsub Hg] & Hso & Hall).
  exists v, (own ++ fs)%list. split; [exact Ho|]. split; [set_solver|]. split; [|by apply sound_app]. split; [set_solver|].
  intros x Hx Hn. destruct (decide (x = h)) as [->|Hne].
  - split; [|intros y [Hy Hly]; by apply Hall]. intros a Ha Hv. rewrite Hl in Ha. injection Ha as <-. unfold own. rewrite Hv. left.
  - destruct (Hg x Hx) as [H1 H2]; [set_solver|]. split; [|done]. intros a Ha Hv. apply elem_of_app. right. by apply H1.
Qed.
End head.

Lemma best_of_elem wins first rest : best_of wins first rest ∈ first :: rest.
Proof.
  unfold best_of. revert first. induction rest as [|r rest IH]; intros first; cbn [fold_left]; [left|].
  destruct (wins r first); [specialize (IH r)|specialize (IH first)]; apply elem_of_cons in IH as [->|IH].
  - right. left.
  - right. by right.
  - left.
  - right. by right.
Qed.

(** C14: the live head of an attestation.  With enough fuel the search answers; it
    answers with an attestation that is live and that the start leads to along the
    supersedes pointers, and with nothing only when there is none.  So from an
    attestation that is in its time, and has no live revocation by its attesting
    entity, there is always a live head. *)
Theorem FindLiveHead_spec fuel h att asOf clock : now = as_of asOf clock ->
  loadAttestation cs h = Some att -> enough fuel h ->
  exists r, FindLiveHead fuel cs ix h att asOf clock = Some r
    /\ (forall x a, r = Some (x, a) -> reaches h x /\ loadAttestation cs x = Some a /\ Live x a)
    /\ (r = None -> forall x a, reaches h x -> loadAttestation cs x = Some a -> ~ Live x a)
    /\ (shallowEffective now att = true ->
        (forall v a, v ∈ FindRevocationsFor ix h -> loadAttestation cs v = Some a -> Attesting a = Attesting att -> ~ Live v a) -> r <> None).
Proof.
  intros Hnow Hl Hf. unfold FindLiveHead, IsAttestationLive. rewrite <- Hnow.
  change (fun h att => live_at cs ix now fuel h att) with (live_at cs ix now fuel).
  destruct (collect_live_spec (live_at cs ix now fuel) (rank h)) with (fuel := fuel) (h := h) (att := att) (visited := (∅ : gset Hash))
    as (v & fs & -> & Hin & [_ Hg] & Hs); [|done|unfold enough in Hf; lia|lia|].
  { intros x a Hx. apply live_verdict. unfold enough in *. lia. }
  assert (Hall : forall x a, reaches h x -> loadAttestation cs x = Some a -> Live x a -> (x, a) ∈ fs).
  { intros x a Hx Ha HL%Live_verdict. apply (Hg x); [|set_solver|done|done]. clear -Hin Hg Hx.
    induction Hx as [|a b c Hab Hbc IH]; [done|]. apply IH. apply (Hg a); [done|set_solver|done]. }
  assert (Hnone : fs = [] -> forall x a, reaches h x -> loadAttestation cs x = Some a -> ~ Live x a).
  { intros -> x a Hx Ha HL. specialize (Hall x a Hx Ha HL). by apply elem_of_nil in Hall. }
  destruct fs as [|first rest]; eexists; (split; [reflexivity|]).
  - split; [done|]. split; [intros _; by apply Hnone|]. intros Hsh Hrev _. apply (Hnone eq_refl h att); [apply rtc_refl|done|].
    apply live_iff. split; [done|]. split; [|done]. intros d a Hd. apply Hnone; [done|]. by apply tc_rtc.
  - split; [|split; [done|done]]. intros x a [= Hx]. destruct (Hs x a) as (H1 & H2 & H3).
    + rewrite <- Hx. apply best_of_elem.
    + split; [done|]. split; [done|]. by apply Live_verdict.
Qed.

Ltac len := unfold AttestationRef in *; rewrite ?length_app in *; cbn [length] in *; lia.

(** A chain that the walk along [attesting] returns starts at the start, ends
    where the predicate holds, and each member authorises the one before. *)
Theorem WalkAttestingChain_spec startHash start terminate findAuthorizing maxDepth chain :
  WalkAttestingChain startHash start terminate findAuthorizing maxDepth = Some chain ->
  head chain = Some (startHash, start) /\ (exists r, last chain = Some r /\ terminate r = true)
  /\ (length chain <= if (maxDepth <=? 0)%Z then DefaultMaxChainDepth else Z.to_nat maxDepth)%nat
  /\ forall i a b, chain !! i = Some a -> chain !! S i = Some b -> findAuthorizing (Attesting (snd a)) = Some b.
Proof.
  unfold WalkAttestingChain. set (depth := if maxDepth <=? 0 then DefaultMaxChainDepth else Z.to_nat maxDepth).
  set (good := fun l : list AttestationRef => forall i a b, l !! i = Some a -> l !! S i = Some b -> findAuthorizing (Attesting (snd a)) = Some b).
  assert (Hg : forall n pre cur, good (pre ++ [cur])%list ->
    forall l, chain_loop terminate findAuthorizing n (pre ++ [cur])%list cur = Some l ->
    head l = head (pre ++ [cur])%list /\ (exists r, last l = Some r /\ terminate r = true) /\ (length l <= length pre + n)%nat /\ good l).
  { induction n as [|n IH]; intros pre cur Hgood l; cbn [chain_loop]; [done|].
    destruct (terminate cur) eqn:Ht.
    - intros [= <-]. split; [done|]. split; [exists cur; by rewrite last_snoc|]. split; [len|done].
    - destruct (findAuthorizing (Attesting (snd cur))) as [parent|] eqn:Hp; [|done]. intros Hl.
      destruct (IH (pre ++ [cur])%list parent) with (l := l) as (H1 & H2 & H3 & H4); [|exact Hl|].
      + intros i a b Ha Hb. destruct (decide (S i < length (pre ++ [cur]))%nat) as [Hi|Hi].
        * rewrite lookup_app_l in Ha by len. rewrite lookup_app_l in Hb by len. by eapply Hgood.
        * assert (i = length pre) as -> by (apply lookup_lt_Some in Hb; len).
          rewrite lookup_app_l in Ha by len. rewrite list_lookup_middle in Ha by done. injection Ha as <-.
          rewrite lookup_app_r in Hb by len. replace (S (length pre) - _)%nat with 0%nat in Hb by len. injection Hb as <-. done.
      + split; [rewrite H1; by destruct pre|]. split; [done|]. split; [len|done]. }
  intros Hc. destruct (Hg depth [] (startHash, start)) with (l := chain) as (H1 & H2 & H3 & H4); [|exact Hc|].
  { intros [|i] a b Ha Hb; [discriminate|]. discriminate. }
  cbn in *. by split_and!.
Qed.
End liveness.
