(* ===== verification/Quorum.v ===== *)
(** * Quorums ([ext/quorum], [core/types/quorum.go])

    A quorum is an entity that names its signers and how many of them have to
    sign.  Attestations of kind [quorum-update] replace the signers; the handler
    caches, for each quorum, the signers it last computed.

    A resolver of signer references is registered by other extensions and is a
    parameter: it gets the state of the resolver chain, which it may pass on to
    nested lookups and so change.  As in [Attestation], [None] is a liveness check
    that runs out of fuel, [now] the clock. *)

From S2P Require Import Prelude GoStrings Errors Hash Entity PeerID Paths CapTypes Patterns Check Delegation Chain Requests Revoked Store Notifying Handlers TreeIndex RevPerform Attestation.

Open Scope Z_scope.

Definition TypeQuorum : string := "system/quorum".
Definition KindQuorumUpdate : string := "quorum-update".
Definition KindQuorumPublish : string := "quorum-publish".
Definition SignerResolutionConcrete : string := "concrete".
Definition MaxResolverDepth : Z := 8.

(** [Threshold] is a [uint64]; the metadata is left encoded. *)
Record QuorumData := { q_Signers : list Hash; q_Threshold : Z; SignerResolution : string; q_Name : string; q_Metadata : list byte }.
Record QuorumUpdateRequest := { qu_QuorumID : Hash; qu_NewSigners : list Hash; qu_NewThreshold : Z; qu_Supersedes : option Hash }.
Record QuorumPublishRequest := {
  qp_QuorumID : Hash; qp_Signers : list Hash; qp_Threshold : Z; PublishedHandle : option Hash;
  ExtraProperties : gmap string (list byte); qp_Supersedes : option Hash
}.
Record QuorumVerifyRequest := { qv_QuorumID : Hash; qv_EntityHash : Hash }.

Class QuorumCodec := {
  DecodeQuorum : list byte -> option QuorumData;
  EncodeQuorum : QuorumData -> option (list byte);
  EncodeUpdateProperties : list Hash -> Z -> option (gmap string (list byte));
  DecodeUpdateProperties : gmap string (list byte) -> option (list Hash * Z);
  EncodePublishProperties : list Hash -> Z -> option Hash -> option (gmap string (list byte));
  DecodePublishProperties : gmap string (list byte) -> option (list Hash * Z);
  DecodeUpdateRequest : list byte -> option QuorumUpdateRequest;
  DecodePublishRequest : list byte -> option QuorumPublishRequest;
  DecodeQuorumVerifyRequest : list byte -> option QuorumVerifyRequest
}.

Definition QuorumPath (quorumID : Hash) : string := "system/quorum/" +:+ hex_encode (Bytes quorumID).
Definition QuorumEventPath (quorumID eventHash : Hash) : string := QuorumPath quorumID +:+ "/event/" +:+ hex_encode (Bytes eventHash).

(** Extras override the base. *)
Definition MergeProperties (base extras : gmap string (list byte)) : gmap string (list byte) := extras ∪ base.

Record resolverState := { rs_depth : Z; rs_visited : gset Hash }.

Inductive QuorumErr :=
| QuorumNotFound
| DecodeQuorumFailed
| ResolverUnavailable (mode : string)
| ResolverFailed (mode : string) (signer : Hash) (e : string)
| ResolverCycle
| ResolverDepthExceeded (depth : Z).

Section quorum.
Context `{AttestationCodec, QuorumCodec}.
Context {CS L IX : Type} `{ContentStore CS} `{LocationIndex L} `{CapabilityIndex IX}.
Context `{Base58, Signing, HashableCodec, DataCodec}.
Abbreviation State := (TreeState CS L IX).

(** ** K of N *)

(** The loop over the signers, with those seen, which are those that signed. *)
Fixpoint verify_loop (cs : CS) (li : L) (entityHash : Hash) (threshold : Z) (signedBy : list Hash) (signerSet : list Hash) : list Hash * bool :=
  match signerSet with
  | [] => (signedBy, threshold <=? Z.of_nat (length signedBy))
  | candidate :: signerSet =>
      if bool_decide (candidate ∈ signedBy) then verify_loop cs li entityHash threshold signedBy signerSet
      else if negb (VerifySpecificSigner cs li entityHash candidate) then verify_loop cs li entityHash threshold signedBy signerSet
      else
        let signedBy := (signedBy ++ [candidate])%list in
        if threshold <=? Z.of_nat (length signedBy) then (signedBy, true)
        else verify_loop cs li entityHash threshold signedBy signerSet
  end.

Definition VerifyKOfNSignatures (cs : CS) (li : L) (entityHash : Hash) (signerSet : list Hash) (threshold : Z) : list Hash * bool :=
  if threshold =? 0 then ([], false) else verify_loop cs li entityHash threshold [] signerSet.

(** ** The signer set *)

Definition quorum_entity (st : State) (quorumID : Hash) : option Entity :=
  match Get (ts_Index st) (QuorumPath quorumID) with
  | None => None
  | Some entHash =>
      match cs_Get (ts_Store st) entHash with
      | None => None
      | Some ent => if String.eqb (Type_ ent) TypeQuorum then Some ent else None
      end
  end.

Definition IsQuorumID (st : State) (h : Hash) : bool := if IsZero h then false else bool_decide (is_Some (quorum_entity st h)).

Definition Resolver : Type := resolverState -> Hash -> CS -> L -> Z -> resolverState * res string Hash.

(** The handler: the cache and the registered resolvers. *)
Record QuorumHandler := { qh_cache : gmap Hash (list Hash * Z); qh_resolvers : gmap string Resolver }.

Definition with_cache (h : QuorumHandler) (c : gmap Hash (list Hash * Z)) : QuorumHandler := {| qh_cache := c; qh_resolvers := qh_resolvers h |}.
Definition InvalidateCache (h : QuorumHandler) (quorumID : Hash) : QuorumHandler := with_cache h (delete quorumID (qh_cache h)).

(** [false] is [ResolverAlreadyRegisteredError]. *)
Definition RegisterResolver (h : QuorumHandler) (mode : string) (fn : Resolver) : QuorumHandler * bool :=
  if String.eqb mode SignerResolutionConcrete then (h, false)
  else match qh_resolvers h !! mode with
       | Some _ => (h, false)
       | None => ({| qh_cache := qh_cache h; qh_resolvers := <[mode := fn]> (qh_resolvers h) |}, true)
       end.

(** The lowest of the live heads of the updates. *)
Fixpoint lowest_head (head : Hash -> AttestationData -> option (option AttestationRef)) (best : option AttestationRef)
    (updates : list AttestationRef) : option (option AttestationRef) :=
  match updates with
  | [] => Some best
  | (h, att) :: updates =>
      match head h att with
      | None => None
      | Some None => lowest_head head best updates
      | Some (Some candidate) =>
          let wins := match best with None => true | Some b => negb (bool_decide (hash_le (fst b) (fst candidate))) end in
          lowest_head head (if wins then Some candidate else best) updates
      end
  end.

(** Signers and threshold that are given; none when one of them is empty. *)
Definition given (o : option (list Hash * Z)) : option (list Hash * Z) :=
  match o with Some ((_ :: _) as signers, threshold) => if 0 <? threshold then Some (signers, threshold) else None | _ => None end.

Fixpoint resolve_signers (resolver : Resolver) (mode : string) (rs : resolverState) (st : State) (asOf : Z) (signers : list Hash)
  : resolverState * res QuorumErr (list Hash) :=
  match signers with
  | [] => (rs, Ok [])
  | s :: signers =>
      match resolver rs s (ts_Store st) (ts_Index st) asOf with
      | (rs, Err e) => (rs, Err (ResolverFailed mode s e))
      | (rs, Ok r) => match resolve_signers resolver mode rs st asOf signers with
                      | (rs, Ok l) => (rs, Ok (r :: l))
                      | (rs, Err e) => (rs, Err e)
                      end
      end
  end.

Definition computeSignerSet (fuel : nat) (now : Z) (h : QuorumHandler) (st : State) (ix : Index) (rs : resolverState) (quorumID : Hash) (asOf : Z)
  : option (resolverState * res QuorumErr (list Hash * Z)) :=
  match quorum_entity st quorumID with
  | None => Some (rs, Err QuorumNotFound)
  | Some ent =>
      match DecodeQuorum (Data ent) with
      | None => Some (rs, Err DecodeQuorumFailed)
      | Some q =>
          let updates := FindAttestationsTargeting (ts_Store st) ix quorumID (fun _ a => String.eqb (Kind a) KindQuorumUpdate) in
          match lowest_head (fun u att => FindLiveHead fuel (ts_Store st) ix u att asOf now) None updates with
          | None => None
          | Some liveHead =>
              let '(signers, threshold) :=
                match liveHead ≫= (fun r => given (DecodeUpdateProperties (Properties (snd r)))) with
                | Some s => s
                | None => (q_Signers q, q_Threshold q)
                end in
              let mode := SignerResolution q in
              if String.eqb mode "" || String.eqb mode SignerResolutionConcrete then Some (rs, Ok (signers, threshold))
              else match qh_resolvers h !! mode with
              | None => Some (rs, Err (ResolverUnavailable mode))
              | Some resolver =>
                  match resolve_signers resolver mode rs st asOf signers with
                  | (rs, Ok resolved) => Some (rs, Ok (resolved, threshold))
                  | (rs, Err e) => Some (rs, Err e)
                  end
              end
          end
      end
  end.

(** [parent] is the resolver state of the context, [None] at the top. *)
Definition CurrentSignerSetCtx (fuel : nat) (now : Z) (h : QuorumHandler) (st : State) (ix : Index) (parent : option resolverState)
    (quorumID : Hash) (asOf : Z) : option (QuorumHandler * option resolverState * res QuorumErr (list Hash * Z)) :=
  match parent with
  | None =>
      match (if asOf =? 0 then qh_cache h !! quorumID else None) with
      | Some s => Some (h, None, Ok s)
      | None =>
          match computeSignerSet fuel now h st ix {| rs_depth := 0; rs_visited := {[quorumID]} |} quorumID asOf with
          | None => None
          | Some (_, Err e) => Some (h, None, Err e)
          | Some (_, Ok s) => Some (if asOf =? 0 then with_cache h (<[quorumID := s]> (qh_cache h)) else h, None, Ok s)
          end
      end
  | Some rs =>
      if bool_decide (quorumID ∈ rs_visited rs) then Some (h, parent, Err ResolverCycle)
      else if MaxResolverDepth <? rs_depth rs + 1 then Some (h, parent, Err (ResolverDepthExceeded (rs_depth rs + 1)))
      else
        match computeSignerSet fuel now h st ix {| rs_depth := rs_depth rs + 1; rs_visited := {[quorumID]} ∪ rs_visited rs |} quorumID asOf with
        | None => None
        | Some (rs, r) => Some (h, Some {| rs_depth := rs_depth rs - 1; rs_visited := rs_visited rs |}, r)
        end
  end.

Definition CurrentSignerSet (fuel : nat) (now : Z) (h : QuorumHandler) (st : State) (ix : Index) (quorumID : Hash)
  : option (QuorumHandler * res QuorumErr (list Hash * Z)) :=
  (fun '(h, _, r) => (h, r)) <$> CurrentSignerSetCtx fuel now h st ix None quorumID 0.

(** ** The operations *)

Context (alg : byte) (now_check : Z) (cw : option (ContextualWriter L)).
Implicit Types (hctx : HandlerContext) (st : State).

Inductive QuorumAnswer :=
| QError (status : Z) (code : string)
| QWritten (h : Hash)
| QVerified (valid : bool) (signedBy : list Hash).

Definition validateQuorum (q : QuorumData) : bool :=
  negb (length (q_Signers q) =? 0)%nat && (1 <=? q_Threshold q) && (q_Threshold q <=? Z.of_nat (length (q_Signers q)))
  && all (fun s => negb (IsZero s)) (q_Signers q).

Definition Quorum_ToEntity (q : QuorumData) : result Entity :=
  let! raw := of_option [] (EncodeQuorum q) in Ent.NewEntity alg TypeQuorum raw.

Definition q_handleCreate hctx st (params : list byte) : State * QuorumAnswer :=
  match DecodeQuorum params with
  | None => (st, QError 400 "invalid_request")
  | Some q =>
      if negb (validateQuorum q) then (st, QError 400 "invalid_quorum")
      else match Quorum_ToEntity q with
      | Err _ => (st, QError 500 "encode_failed")
      | Ok ent =>
          match cs_Put (ts_Store st) ent with
          | (cs, Err _) => (with_store st cs, QError 500 "store_put_failed")
          | (cs, Ok _) =>
              match TreeSet now_check cw hctx (with_store st cs) (QuorumPath (ContentHash ent)) (ContentHash ent) "create" with
              | (st, _, Err _) => (st, QError 500 "storage_error")
              | (st, _, Ok _) => (st, QWritten (ContentHash ent))
              end
          end
      end
  end.

(** Writing an attestation of the quorum about itself at its event path. *)
Definition write_event hctx (h : QuorumHandler) st (ix : Index) (quorumID : Hash) (att : AttestationData)
  : QuorumHandler * State * Index * QuorumAnswer :=
  match Attestation_ToEntity alg att with
  | Err _ => (h, st, ix, QError 500 "encode_failed")
  | Ok ent =>
      match Create alg now_check cw hctx st ix (QuorumEventPath quorumID (ContentHash ent)) att with
      | (st, ix, Err _) => (h, st, ix, QError 400 "create_failed")
      | (st, ix, Ok attHash) => (InvalidateCache h quorumID, st, ix, QWritten attHash)
      end
  end.

Definition self_attestation (quorumID : Hash) (props : gmap string (list byte)) (supersedes : option Hash) : AttestationData := {|
  Attesting := quorumID; Attested := quorumID; Properties := props; Supersedes := supersedes; at_NotBefore := None; at_ExpiresAt := None |}.

Definition q_handleUpdate hctx (h : QuorumHandler) st (ix : Index) (params : list byte) : QuorumHandler * State * Index * QuorumAnswer :=
  match DecodeUpdateRequest params with
  | None => (h, st, ix, QError 400 "invalid_request")
  | Some body =>
      if (qu_NewThreshold body <? 1) || (Z.of_nat (length (qu_NewSigners body)) <? qu_NewThreshold body)
      then (h, st, ix, QError 400 "invalid_quorum_update")
      else if negb (IsQuorumID st (qu_QuorumID body)) then (h, st, ix, QError 404 "quorum_not_found")
      else match EncodeUpdateProperties (qu_NewSigners body) (qu_NewThreshold body) with
      | None => (h, st, ix, QError 500 "encode_failed")
      | Some props => write_event hctx h st ix (qu_QuorumID body) (self_attestation (qu_QuorumID body) props (qu_Supersedes body))
      end
  end.

Definition signerSetsEqual (a b : list Hash) : bool := bool_decide (a = b).

Definition q_handlePublish (fuel : nat) (now : Z) hctx (h : QuorumHandler) st (ix : Index) (params : list byte)
  : option (QuorumHandler * State * Index * QuorumAnswer) :=
  match DecodePublishRequest params with
  | None => Some (h, st, ix, QError 400 "invalid_request")
  | Some body =>
      if negb (IsQuorumID st (qp_QuorumID body)) then Some (h, st, ix, QError 404 "quorum_not_found")
      else if (qp_Threshold body <? 1) || (Z.of_nat (length (qp_Signers body)) <? qp_Threshold body)
      then Some (h, st, ix, QError 400 "invalid_publish")
      else
        let publish (h : QuorumHandler) :=
          match EncodePublishProperties (qp_Signers body) (qp_Threshold body) (PublishedHandle body) with
          | None => (h, st, ix, QError 500 "encode_failed")
          | Some props => write_event hctx h st ix (qp_QuorumID body)
              (self_attestation (qp_QuorumID body) (MergeProperties props (ExtraProperties body)) (qp_Supersedes body))
          end in
        match qp_Supersedes body with
        | Some _ => Some (publish h)
        | None =>
            match CurrentSignerSet fuel now h st ix (qp_QuorumID body) with
            | None => None
            | Some (h, Err _) => Some (h, st, ix, QError 500 "signer_set_resolve")
            | Some (h, Ok (curSigners, curThreshold)) =>
                if negb (signerSetsEqual (qp_Signers body) curSigners) || negb (qp_Threshold body =? curThreshold)
                then Some (h, st, ix, QError 400 "publish_mismatch")
                else Some (publish h)
            end
        end
  end.

Definition q_handleVerify (fuel : nat) (now : Z) (h : QuorumHandler) st (ix : Index) (params : list byte) : option (QuorumHandler * QuorumAnswer) :=
  match DecodeQuorumVerifyRequest params with
  | None => Some (h, QError 400 "invalid_request")
  | Some body =>
      match CurrentSignerSet fuel now h st ix (qv_QuorumID body) with
      | None => None
      | Some (h, Err _) => Some (h, QError 404 "quorum_not_found")
      | Some (h, Ok (signers, threshold)) =>
          let '(signedBy, ok) := VerifyKOfNSignatures (ts_Store st) (ts_Index st) (qv_EntityHash body) signers threshold in
          Some (h, QVerified ok signedBy)
      end
  end.

Definition q_Handle (fuel : nat) (now : Z) hctx (h : QuorumHandler) st (ix : Index) (operation : string) (params : list byte)
  : option (QuorumHandler * State * Index * QuorumAnswer) :=
  if String.eqb operation "create" then let '(st, a) := q_handleCreate hctx st params in Some (h, st, ix, a)
  else if String.eqb operation "update" then Some (q_handleUpdate hctx h st ix params)
  else if String.eqb operation "publish" then q_handlePublish fuel now hctx h st ix params
  else if String.eqb operation "verify" then (fun '(h, a) => (h, st, ix, a)) <$> q_handleVerify fuel now h st ix params
  else Some (h, st, ix, QError 501 "unsupported_operation").

(** ** Following the tree *)

Definition signerSetForValidation st (quorumID : Hash) (newAtt : AttestationData) : option (list Hash * Z) :=
  let from_quorum := match quorum_entity st quorumID with
                     | None => None
                     | Some ent => (fun q => (q_Signers q, q_Threshold q)) <$> DecodeQuorum (Data ent)
                     end in
  match Supersedes newAtt with
  | None => from_quorum
  | Some p =>
      match loadAttestation (ts_Store st) p with
      | None => None
      | Some prev =>
          let snapshot :=
            if String.eqb (Kind prev) KindQuorumPublish then given (DecodePublishProperties (Properties prev))
            else if String.eqb (Kind prev) KindQuorumUpdate then given (DecodeUpdateProperties (Properties prev))
            else None in
          match snapshot with Some s => Some s | None => from_quorum end
      end
  end.

Definition q_OnTreeChange (h : QuorumHandler) st (evt : TreeChangeEvent) : QuorumHandler :=
  match ev_ChangeType evt with
  | ChangeDeleted => h
  | _ =>
      if IsZero (ev_Hash evt) then h
      else match loadAttestation (ts_Store st) (ev_Hash evt) with
      | None => h
      | Some a =>
          if negb (String.eqb (Kind a) KindQuorumUpdate || String.eqb (Kind a) KindQuorumPublish) then h
          else if negb (bool_decide (Attesting a = Attested a)) then h
          else match signerSetForValidation st (Attesting a) a with
          | None => h
          | Some (signers, threshold) =>
              if snd (VerifyKOfNSignatures (ts_Store st) (ts_Index st) (ev_Hash evt) signers threshold)
              then InvalidateCache h (Attesting a) else h
          end
      end
  end.
End quorum.
Arguments QuorumHandler CS L : clear implicits.
