(* ===== verification/QuorumSpec.v ===== *)
(** * What a quorum's verification means *)

From S2P Require Import Prelude GoStrings Errors Hash Entity PeerID Paths CapTypes Patterns Check Delegation Chain Requests Revoked Store Notifying Handlers TreeIndex RevPerform Attestation AttestSpec Quorum.

Open Scope Z_scope.

Section spec.
Context `{AttestationCodec, QuorumCodec}.
Context {CS L IX : Type} `{ContentStore CS} `{LocationIndex L} `{CapabilityIndex IX}.
Context `{Base58, Signing, HashableCodec, DataCodec}.

(** The signers of the set whose signature of the entity verifies. *)
Definition verified (cs : CS) (li : L) (entityHash : Hash) (signerSet : list Hash) : gset Hash :=
  list_to_set (List.filter (VerifySpecificSigner cs li entityHash) signerSet).

Lemma elem_of_verified cs li e l s : s ∈ verified cs li e l <-> s ∈ l /\ VerifySpecificSigner cs li e s = true.
Proof. unfold verified. rewrite elem_of_list_to_set, list_elem_of_In, filter_In, <- list_elem_of_In. done. Qed.

Lemma verify_loop_spec cs li e threshold signedBy l r ok : NoDup signedBy -> (Z.of_nat (length signedBy) < threshold) ->
  verify_loop cs li e threshold signedBy l = (r, ok) ->
  NoDup r /\ (forall s, s ∈ r -> s ∈ signedBy \/ s ∈ verified cs li e l)
  /\ (ok = true <-> threshold <= Z.of_nat (size (list_to_set signedBy ∪ verified cs li e l : gset Hash)))
  /\ (ok = true -> threshold <= Z.of_nat (length r)).
Proof.
  revert signedBy. induction l as [|c l IH]; intros signedBy Hnd Hlt; cbn [verify_loop].
  { intros [= <- <-]. split; [done|]. split; [auto|]. unfold verified. cbn. rewrite union_empty_r_L, size_list_to_set by done.
    rewrite Z.leb_le. done. }
  assert (Hsame : VerifySpecificSigner cs li e c = false \/ c ∈ signedBy ->
    (list_to_set signedBy ∪ verified cs li e (c :: l) : gset Hash) = list_to_set signedBy ∪ verified cs li e l).
  { intros Hc. apply set_eq. intros x. rewrite !elem_of_union, !elem_of_list_to_set, !elem_of_verified, elem_of_cons.
    split; [|naive_solver]. intros [?|[[->|?] ?]]; [auto| |auto]. destruct Hc as [Hc|Hc]; [congruence|auto]. }
  assert (Hmono : forall s, s ∈ verified cs li e l -> s ∈ verified cs li e (c :: l))
    by (intros s; rewrite !elem_of_verified, elem_of_cons; naive_solver).
  assert (Hkeep : VerifySpecificSigner cs li e c = false \/ c ∈ signedBy -> verify_loop cs li e threshold signedBy l = (r, ok) ->
    NoDup r /\ (forall s, s ∈ r -> s ∈ signedBy \/ s ∈ verified cs li e (c :: l))
    /\ (ok = true <-> threshold <= Z.of_nat (size (list_to_set signedBy ∪ verified cs li e (c :: l) : gset Hash)))
    /\ (ok = true -> threshold <= Z.of_nat (length r))).
  { intros Hc Hl. destruct (IH signedBy Hnd Hlt Hl) as (A1 & A2 & A3 & A4). rewrite (Hsame Hc).
    split; [done|]. split; [intros s Hs; destruct (A2 s Hs); auto|done]. }
  destruct (bool_decide_reflect (c ∈ signedBy)) as [Hin|Hin]; [apply Hkeep; auto|].
  destruct (VerifySpecificSigner cs li e c) eqn:Hv; cbn [negb]; [|apply Hkeep; auto]. clear Hsame Hkeep.
  assert (Hnd' : NoDup (signedBy ++ [c])%list).
  { apply NoDup_app. split; [done|]. split; [|apply NoDup_singleton]. intros x Hx ->%list_elem_of_singleton. done. }
  assert (Hc : c ∈ verified cs li e (c :: l)) by (apply elem_of_verified; split; [left|done]).
  assert (Hset : (list_to_set signedBy ∪ verified cs li e (c :: l) : gset Hash) = list_to_set (signedBy ++ [c])%list ∪ verified cs li e l).
  { apply set_eq. intros x. rewrite !elem_of_union, !elem_of_list_to_set, elem_of_app, list_elem_of_singleton, !elem_of_verified, elem_of_cons.
    naive_solver. }
  assert (Hlen : Z.of_nat (length (signedBy ++ [c])%list) = Z.of_nat (length signedBy) + 1) by (rewrite length_app; cbn; lia).
  destruct (Z.leb_spec threshold (Z.of_nat (length (signedBy ++ [c])%list))) as [Hle|Hgt].
  - intros [= <- <-]. split; [done|]. split.
    + intros s [Hs| ->%list_elem_of_singleton]%elem_of_app; auto.
    + split; [|done]. split; [|done]. intros _. rewrite Hset.
      pose proof (size_list_to_set (C := gset Hash) _ Hnd') as Hsz.
      pose proof (subseteq_size (list_to_set (signedBy ++ [c])%list : gset Hash) (list_to_set (signedBy ++ [c])%list ∪ verified cs li e l)) as Hsub.
      assert (size (list_to_set (signedBy ++ [c])%list : gset Hash) <= size (list_to_set (signedBy ++ [c])%list ∪ verified cs li e l : gset Hash))%nat
        by (apply Hsub; set_solver). lia.
  - intros Hl. destruct (IH _ Hnd' Hgt Hl) as (A1 & A2 & A3 & A4). split; [done|]. split; [|split; [by rewrite Hset|done]].
    intros s Hs. destruct (A2 s Hs) as [[Hx| ->%list_elem_of_singleton]%elem_of_app|Hx]; auto.
Qed.

(** C12: K of N.  The verification of an entity against a list of signers succeeds
    if and only if the threshold is not zero and at least that many distinct
    signers of the list have a signature of the entity that verifies under their
    own key; a signer that the list repeats counts once.  The signers that are
    reported are distinct, are in the list and did sign, and on success there are
    enough of them. *)
Theorem VerifyKOfN_iff (cs : CS) (li : L) entityHash signerSet threshold signedBy ok : 0 <= threshold ->
  VerifyKOfNSignatures cs li entityHash signerSet threshold = (signedBy, ok) ->
  NoDup signedBy /\ (forall s, s ∈ signedBy -> s ∈ signerSet /\ VerifySpecificSigner cs li entityHash s = true)
  /\ (ok = true <-> 0 < threshold /\ threshold <= Z.of_nat (size (verified cs li entityHash signerSet)))
  /\ (ok = true -> threshold <= Z.of_nat (length signedBy)).
Proof.
  intros Ht. unfold VerifyKOfNSignatures. destruct (Z.eqb_spec threshold 0) as [->|Hne].
  { intros [= <- <-]. split; [constructor|]. split; [intros s Hs; by apply elem_of_nil in Hs|]. split; [|done]. split; [done|]. intros [? _]. lia. }
  intros Hl. destruct (verify_loop_spec cs li entityHash threshold [] signerSet signedBy ok) as (A1 & A2 & A3 & A4);
    [constructor|cbn; lia|done|]. split; [done|]. split.
  - intros s Hs. destruct (A2 s Hs) as [Hx|Hx]; [by apply elem_of_nil in Hx|]. by apply elem_of_verified.
  - cbn [list_to_set] in A3. rewrite union_empty_l_L in A3. split; [|done]. rewrite A3. naive_solver lia.
Qed.

(** A signature that verifies is over the entity, by the signer, under the key of
    its identity. *)
Lemma VerifySpecificSigner_sound (cs : CS) (li : L) target s : VerifySpecificSigner cs li target s = true ->
  exists idData kt sigEnt sig, signer_identity cs s = Some (idData, kt) /\ FindSignatureBySigner cs li target s = Some sigEnt
    /\ SignatureDataFromEntity sigEnt = Ok sig /\ Target sig = target /\ Signer sig = s
    /\ Verify kt (PublicKey idData) (Bytes target) (Signature sig) = true.
Proof.
  unfold VerifySpecificSigner. destruct (FindSignatureBySigner cs li target s) as [sigEnt|]; [|done].
  destruct (SignatureDataFromEntity sigEnt) as [sig|] eqn:Hsig; [|done].
  destruct (bool_decide_reflect (Target sig = target)); [|done]. destruct (bool_decide_reflect (Signer sig = s)); [|done]. cbn [andb negb].
  destruct (signer_identity cs s) as [[idData kt]|] eqn:Hid; [|done]. destruct (_ && _); [done|]. intros Hv. by exists idData, kt, sigEnt, sig.
Qed.

(** An answer that an attestation is valid: it is in the store, its attesting
    entity signed it, and it is live. *)
Theorem verify_sound fuel now (st : TreeState CS L IX) ix params reason :
  att_handleVerify fuel now st ix params = Some (AVerified true reason) ->
  exists body att, DecodeAttestVerifyRequest params = Some body /\ loadAttestation (ts_Store st) (av_AttestationHash body) = Some att
    /\ VerifySpecificSigner (ts_Store st) (ts_Index st) (av_AttestationHash body) (Attesting att) = true
    /\ live_at (ts_Store st) ix (as_of (match av_AsOf body with Some t => t | None => 0 end) now) fuel (av_AttestationHash body) att = Some true.
Proof.
  unfold att_handleVerify. destruct (DecodeAttestVerifyRequest params) as [body|]; [|done].
  destruct (loadAttestation _ _) as [att|] eqn:Hl; [|done]. destruct (VerifyAttestationSignature _ _ _ _) eqn:Hv; cbn [negb]; [|done].
  intros (b & Hb & Heq)%fmap_Some. destruct b; [|done]. exists body, att. by split_and!.
Qed.

(** ** The cache *)

(** A written update or publication drops the cached signers of its quorum, and
    of no other. *)
Theorem write_event_invalidates alg now_check cw hctx (h h' : QuorumHandler CS L) (st st' : TreeState CS L IX) ix ix' q att hash :
  write_event alg now_check cw hctx h st ix q att = (h', st', ix', QWritten hash) ->
  qh_cache h' !! q = None /\ (forall q', q' <> q -> qh_cache h' !! q' = qh_cache h !! q') /\ qh_resolvers h' = qh_resolvers h.
Proof.
  unfold write_event. destruct (Attestation_ToEntity alg att) as [ent|]; [|done].
  destruct (Create _ _ _ _ _ _ _ _) as [[st1 ix1] [ah|]]; [|done]. intros [= <- _ _ _]. cbn.
  split; [apply lookup_delete_eq|]. split; [|done]. intros q' Hne. by rewrite lookup_delete_ne.
Qed.

(** A lookup at the top answers what is cached, and otherwise what it computes,
    which it caches: the next one answers the same. *)
Theorem CurrentSignerSet_cached fuel now now' (h h' : QuorumHandler CS L) (st st' : TreeState CS L IX) ix ix' q s :
  CurrentSignerSet fuel now h st ix q = Some (h', Ok s) ->
  qh_cache h' !! q = Some s /\ forall fuel', CurrentSignerSet fuel' now' h' st' ix' q = Some (h', Ok s).
Proof.
  unfold CurrentSignerSet, CurrentSignerSetCtx. cbn [Z.eqb]. destruct (qh_cache h !! q) as [c|] eqn:Hc.
  { intros [= <- <-]. split; [done|]. intros fuel'. by rewrite Hc. }
  destruct (computeSignerSet _ _ _ _ _ _ _ _) as [[rs [x|]]|]; [|done..]. intros [= <- <-]. cbn [qh_cache with_cache].
  rewrite lookup_insert_eq. split; [done|]. done.
Qed.
End spec.
