(* ===== verification/QuorumSample.v ===== *)
(** * Attestations and quorums on concrete parameters

    A quorum of two signers, attestations that supersede and revoke one another.
    The last part records what the handlers let through. *)

From S2P Require Import Prelude GoStrings Sha2 Errors Hash Entity PeerID Paths CapTypes Patterns Check Delegation Chain Requests Revoked Store Notifying Handlers TreeIndex RevPerform Attestation AttestSpec Quorum QuorumSpec.

Open Scope Z_scope.

Module QuorumSample.
#[local] Existing Instances nibble58 toy_hashable default_order Sample.signing.

Abbreviation State := (TreeState MemoryContentStore MemoryLocationIndex MemoryCapabilityIndex).

(** A and B are the signers; M is another peer. *)
Definition peerM : Entity := toy_entity TypePeer [Byte.x0c].
Definition hashA : Hash := ContentHash Sample.peerA.
Definition hashB : Hash := ContentHash Sample.peerB.
Definition hashM : Hash := ContentHash peerM.
Definition pid_of (b : byte) : PeerID := match PeerIDFromPublicKey (Sample.key b) KeyTypeEd25519 with Ok p => p | Err _ => "" end.

Definition quorumE : Entity := toy_entity TypeQuorum [Byte.x01].
Definition quorumID : Hash := ContentHash quorumE.
Definition docE : Entity := toy_entity "doc" [Byte.x01].

(** The claim of A about the document, its successor, and a revocation that
    names A as its attesting entity. *)
Definition claimE : Entity := toy_entity TypeAttestation [Byte.x11].
Definition claim : AttestationData := {|
  Attesting := hashA; Attested := ContentHash docE; Properties := ∅; Supersedes := None; at_NotBefore := None; at_ExpiresAt := Some 100 |}.
Definition nextE : Entity := toy_entity TypeAttestation [Byte.x12].
Definition next : AttestationData := {|
  Attesting := hashA; Attested := ContentHash docE; Properties := ∅; Supersedes := Some (ContentHash claimE); at_NotBefore := None; at_ExpiresAt := None |}.
Definition revocation : AttestationData := {|
  Attesting := hashA; Attested := ContentHash claimE; Properties := {[ "kind" := [Byte.x01] ]}; Supersedes := None; at_NotBefore := None; at_ExpiresAt := None |}.
(** An update of the quorum that M makes. *)
Definition update : AttestationData := {|
  Attesting := hashM; Attested := quorumID; Properties := {[ "kind" := [Byte.x02] ]}; Supersedes := None; at_NotBefore := None; at_ExpiresAt := None |}.

Definition sigE (b : byte) : Entity := toy_entity TypeSignature [b].

#[local] Instance data_codec : DataCodec := {|
  DecodeToken _ := None;
  DecodePeer d := if decide (d = [Byte.x0c]) then Some {| PublicKey := Sample.key Byte.x43; pd_KeyType := "ed25519" |} else @DecodePeer Sample.codec d;
  DecodeSignature d :=
    if decide (d = [Byte.x31]) then Some (Sample.sig_over docE Sample.peerA Byte.x41)
    else if decide (d = [Byte.x32]) then Some (Sample.sig_over docE Sample.peerB Byte.x42)
    else if decide (d = [Byte.x33]) then Some (Sample.sig_over docE peerM Byte.x43)
    else if decide (d = [Byte.x34]) then Some (Sample.sig_over claimE Sample.peerA Byte.x41) else None;
  DecodeSigTarget _ := None; DecodeExecute _ := None; DecodeRawMap _ := None |}.

#[local] Instance codec : AttestationCodec := {|
  DecodeAttestation d :=
    if decide (d = [Byte.x11]) then Some claim else if decide (d = [Byte.x12]) then Some next
    else if decide (d = [Byte.x13]) then Some revocation else if decide (d = [Byte.x14]) then Some update else None;
  EncodeAttestation d :=
    if bool_decide (Attesting d = hashM) then Some [Byte.x14] else if bool_decide (Attested d = ContentHash claimE) then Some [Byte.x13] else None;
  DecodeKind d := if decide (d = [Byte.x01]) then Some KindRevocation else if decide (d = [Byte.x02]) then Some KindQuorumUpdate else None;
  EncodeRevocationProperties _ := Some {[ "kind" := [Byte.x01] ]};
  DecodeSupersedeRequest _ := None;
  DecodeAttestRevokeRequest d := if decide (d = [Byte.x41]) then Some {| ar_TargetHash := ContentHash claimE; ar_Attesting := hashA; ar_Reason := "" |} else None;
  DecodeAttestVerifyRequest d := if decide (d = [Byte.x42]) then Some {| av_AttestationHash := ContentHash claimE; av_AsOf := None |} else None |}.

#[local] Instance quorum_codec : QuorumCodec := {|
  DecodeQuorum d := if decide (d = [Byte.x01]) then Some {| q_Signers := [hashA; hashB]; q_Threshold := 2; SignerResolution := ""; q_Name := ""; q_Metadata := [] |} else None;
  EncodeQuorum _ := None; EncodeUpdateProperties _ _ := None;
  DecodeUpdateProperties p := if bool_decide (p !! "kind" = Some [Byte.x02]) then Some ([hashM], 1) else None;
  EncodePublishProperties _ _ _ := None; DecodePublishProperties _ := None; DecodeUpdateRequest _ := None; DecodePublishRequest _ := None;
  DecodeQuorumVerifyRequest d := if decide (d = [Byte.x51]) then Some {| qv_QuorumID := quorumID; qv_EntityHash := ContentHash docE |} else None |}.

Definition signature_at (b sg : byte) (target : Hash) : string * Hash := (InvariantSignaturePath (pid_of b) target, ContentHash (sigE sg)).

Definition peer (sigs : list (string * Hash)) : State := {|
  ts_Store := Sample.file [Sample.peerA; Sample.peerB; peerM; quorumE; docE; claimE; nextE; sigE Byte.x31; sigE Byte.x32; sigE Byte.x33; sigE Byte.x34];
  ts_Index := list_to_map ((QuorumPath quorumID, quorumID) :: sigs); ts_CapIndex := None |}.

Definition signed_by_both : State := peer [signature_at Byte.x41 Byte.x31 (ContentHash docE); signature_at Byte.x42 Byte.x32 (ContentHash docE)].

(** ** Witnesses *)

Lemma VerifyKOfN_iff_witness :
  (2 <= Z.of_nat (size (verified (ts_Store signed_by_both) (ts_Index signed_by_both) (ContentHash docE) [hashA; hashA; hashB])))%Z.
Proof.
  destruct (VerifyKOfNSignatures (ts_Store signed_by_both) (ts_Index signed_by_both) (ContentHash docE) [hashA; hashA; hashB] 2) as [by_ ok] eqn:Hv.
  assert (Hok : ok = true).
  { change ok with (snd (by_, ok)). rewrite <- Hv. vm_compute. reflexivity. }
  apply (VerifyKOfN_iff (ts_Store signed_by_both) (ts_Index signed_by_both) (ContentHash docE) [hashA; hashA; hashB] 2 by_ ok); [lia|exact Hv|exact Hok].
Defined.

(** The index of the claim and its successor. *)
Definition claims : Index := Add (Add NewIndex (ContentHash claimE) claim) (ContentHash nextE) next.

Lemma index_refines_witness : ContentHash nextE ∈ FindBySupersedes claims (ContentHash claimE).
Proof.
  assert (Hs : rtc index_step NewIndex claims) by (eapply rtc_l; [apply step_add|]; eapply rtc_l; [apply step_add|apply rtc_refl]).
  destruct (index_refines claims Hs) as (_ & _ & _ & Hsup & _). apply Hsup. exists (projection next).
  split; [vm_compute; reflexivity|reflexivity].
Defined.

Definition claims_rank (h : Hash) : nat := if bool_decide (h = ContentHash claimE) then 1%nat else 0%nat.

Lemma claims_acyclic : acyclic claims claims_rank.
Proof.
  assert (Hok : index_ok claims) by (unfold claims; by do 2 apply Add_ok; apply NewIndex_ok).
  intros h s [Hs|Hs].
  - apply ix_lookup_spec, (ok_supersedes _ Hok) in Hs as (e & He & Hsup). unfold claims in He. rewrite !Add_indexed in He.
    apply lookup_insert_Some in He as [[<- <-]|[_ He]].
    + injection Hsup as <-. vm_compute. lia.
    + apply lookup_insert_Some in He as [[_ <-]|[_ He]]; [done|]. done.
  - assert (Hnone : FindByKind claims KindRevocation = []) by (vm_compute; reflexivity).
    unfold FindRevocationsFor in Hs. rewrite Hnone in Hs. cbn [List.filter] in Hs. destruct (proj1 (elem_of_nil _) Hs).
Qed.

Definition store : MemoryContentStore := ts_Store (peer []).

(** The claim is superseded by its successor, which is live. *)
Lemma live_iff_witness : Live store claims 50 claims_rank (ContentHash nextE) next /\ ~ Live store claims 50 claims_rank (ContentHash claimE) claim.
Proof.
  assert (Hn : Live store claims 50 claims_rank (ContentHash nextE) next).
  { intros fuel Hf. destruct (live_iff store claims 50 claims_rank claims_acyclic (ContentHash nextE) next) as [_ Hl].
    apply Hl; [|exact Hf]. split; [reflexivity|]. assert (Hno : FindBySupersedes claims (ContentHash nextE) = []) by (vm_compute; reflexivity).
    split.
    - intros d a Hd _. exfalso. inversion Hd as [x y [Hy _]|x y z [Hy _] _]; subst; rewrite Hno in Hy; by apply elem_of_nil in Hy.
    - intros r a Hr. exfalso. assert (Hnor : FindRevocationsFor claims (ContentHash nextE) = []) by (vm_compute; reflexivity).
      rewrite Hnor in Hr. by apply elem_of_nil in Hr. }
  split; [exact Hn|]. intros Hc. apply (live_iff store claims 50 claims_rank claims_acyclic) in Hc as (_ & Hd & _).
  apply (Hd (ContentHash nextE) next); [|vm_compute; reflexivity|exact Hn]. apply tc_once. split; [|vm_compute; eauto].
  apply list_elem_of_In. vm_compute. by left.
Defined.

Lemma FindLiveHead_spec_witness :
  exists x a, FindLiveHead 5 store claims (ContentHash claimE) claim 50 0 = Some (Some (x, a)) /\ Live store claims 50 claims_rank x a.
Proof.
  destruct (FindLiveHead_spec store claims 50 claims_rank claims_acyclic 5 (ContentHash claimE) claim 50 0) as (r & Hr & Hs & _ & Hsome).
  - reflexivity.
  - vm_compute. reflexivity.
  - unfold enough. vm_compute. lia.
  - destruct r as [[x a]|]; [|exfalso; apply Hsome; [reflexivity| |reflexivity]].
    + exists x, a. split; [exact Hr|]. by apply Hs.
    + intros v a Hv. exfalso. assert (Hnor : FindRevocationsFor claims (ContentHash claimE) = []) by (vm_compute; reflexivity).
      rewrite Hnor in Hv. by apply elem_of_nil in Hv.
Defined.

(** ** What the handlers let through *)

Definition context (path : string) : HandlerContext := {|
  hc_Author := pid_of Byte.x43; hc_AuthorHash := hashM; hc_LocalPeerID := pid_of Byte.x41; hc_CallerCapability := no_entity; hc_HandlerGrant := no_entity;
  hc_Resource := Some {| Targets := [path]; rt_Exclude := [] |}; hc_HandlerPattern := "system/attestation"; hc_RequestID := "r"; hc_Bounds := None;
  hc_ChainDepth := 0; hc_ReactiveTrigger := false; hc_Included := ∅ |}.

Definition empty_handler : QuorumHandler MemoryContentStore MemoryLocationIndex := {| qh_cache := ∅; qh_resolvers := ∅ |}.
Definition quorum_answer (h : QuorumHandler MemoryContentStore MemoryLocationIndex) (st : State) (ix : Index) : option QuorumAnswer :=
  snd <$> q_handleVerify 5 50 h st ix [Byte.x51].

(** M creates an attestation that calls itself an update of the quorum, at a path
    of its own, and signs the document.  Neither A nor B signed anything: before,
    the verification fails; after, the quorum is M alone, and it succeeds. *)
Definition signed_by_M : State := peer [signature_at Byte.x43 Byte.x33 (ContentHash docE)].
Definition after_update : State * Index * AttestAnswer :=
  att_handleCreate AlgorithmSHA256 50 None (context "inbox/m") signed_by_M NewIndex [Byte.x14].
Theorem unsigned_update_takes_over :
  quorum_answer empty_handler signed_by_M NewIndex = Some (QVerified false [])
  /\ snd after_update = AWritten (ContentHash (toy_entity TypeAttestation [Byte.x14]))
  /\ snd (VerifyKOfNSignatures (ts_Store (fst (fst after_update))) (ts_Index (fst (fst after_update)))
            (ContentHash (toy_entity TypeAttestation [Byte.x14])) [hashA; hashB] 2) = false
  /\ quorum_answer empty_handler (fst (fst after_update)) (snd (fst after_update)) = Some (QVerified true [hashM]).
Proof. vm_compute. by split_and!. Qed.

(** With the signers cached from before the answer is the one of the two signers:
    it depends on whether the quorum was looked up earlier. *)
Definition warm : QuorumHandler MemoryContentStore MemoryLocationIndex :=
  match CurrentSignerSet 5 50 empty_handler signed_by_M NewIndex quorumID with Some (h, _) => h | None => empty_handler end.
Theorem cache_decides :
  quorum_answer warm (fst (fst after_update)) (snd (fst after_update)) = Some (QVerified false []).
Proof. vm_compute. reflexivity. Qed.

(** M creates a revocation that names A as its attesting entity; A did not sign
    it, and the claim of A is no longer live. *)
Definition claim_signed : State := peer [signature_at Byte.x41 Byte.x34 (ContentHash claimE)].
Definition claim_index : Index := Add NewIndex (ContentHash claimE) claim.
Definition after_revoke : State * Index * AttestAnswer :=
  att_handleRevoke AlgorithmSHA256 50 None (context "inbox/r") claim_signed claim_index [Byte.x41].
Theorem unsigned_revocation_kills :
  att_handleVerify 5 50 claim_signed claim_index [Byte.x42] = Some (AVerified true "")
  /\ (exists h, snd after_revoke = AWritten h
       /\ VerifySpecificSigner (ts_Store (fst (fst after_revoke))) (ts_Index (fst (fst after_revoke))) h hashA = false)
  /\ att_handleVerify 5 50 (fst (fst after_revoke)) (snd (fst after_revoke)) [Byte.x42] = Some (AVerified false "not_live").
Proof. vm_compute. split; [reflexivity|]. split; [eexists; split; reflexivity|reflexivity]. Qed.

(** An event of a removal carries the hash that was bound as the previous one:
    the index of attestations keeps what is removed from the tree. *)
Theorem removed_attestation_stays :
  let cfg := {| namedHooks := ([] : list (NamedSyncHook unit)); maxCascadeDepth := DefaultMaxCascadeDepth |} in
  match op_Set (notifying cfg 1) (Samples.start 4) "a" (ContentHash claimE) None with
  | Some (st, _, _) =>
      match op_Remove (notifying cfg 1) st "a" None with
      | Some (st', _, _) =>
          length (events st') = 2%nat
          /\ bool_decide (is_Some (indexed (fold_left (OnTreeChange store) (events st') NewIndex) !! ContentHash claimE)) = true
      | None => False
      end
  | None => False
  end.
Proof. vm_compute. split; reflexivity. Qed.
End QuorumSample.
